(* ===== verification/_CoqProject ===== *)
-Q . S2P
Prelude.v
ClassServer.v
TruthValue.v
AttentionValue.v
Atom.v
TLB.v
HandleEntry.v
Index.v
IndexSpec.v
AtomTable.v
TableInv.v
TableRemove.v
TableAdd.v
TableProps.v
TableAttention.v
TableQuery.v
Temporal.v
TemporalEntry.v
TimeSpec.v
TemporalTable.v
TimeIndex.v
TimeInv.v
TimeAdd.v
TimeRemove.v
TimeGet.v
TimeRemoveAll.v
TimeDelete.v
TimeRefine.v
TimeProps.v
SpaceServer.v
AtomSpace.v
SpaceInv.v
SpaceRemove.v
SpaceAdd.v
SpaceTime.v
SpaceValue.v
SpaceRequests.v
SpaceDemo.v
SpaceProps.v
Triples.v
Query.v
QueryCB.v
QuerySpec.v
QueryTree.v
QueryNext.v
QueryUp.v
QueryMatch.v
QueryLaws.v
QueryDemo.v
QueryProps.v
Implication.v
Instantiate.v
ImplicationDemo.v
ImplicationProps.v
Combo.v
FlatNormalForm.v
Reduct.v
NFSpec.v
ReductSpec.v
NFMapper.v
ReductNF.v
ReductMeta.v
ReductLogic.v
ReductProps.v
Agents.v
ImportanceUpdating.v
Forgetting.v
EconomyInv.v
EconomyFlow.v
EconomyDemo.v
EconomyProps.v
