(* ===== verification/Prelude.v ===== *)
(** * OpenCog AtomSpace: a verification library

    This library models the knowledge store of OpenCog, the directory
    src/opencog/atomspace, with the pattern matcher over it, the directory
    src/opencog/query, the agents of src/opencog/dynamics/attention that move
    importance and forget atoms, and the logical part of the engine that
    reduces combo programs, the directory src/opencog/comboreduct, and proves
    what their operations do. The store is a
    table of atoms (nodes with a name, links with an ordered list of targets),
    each with a type, a truth value, an attention value and the list of the
    links above it; six indexes answer the lookups. Every other subsystem of
    the repository (the reasoners, the query engine, the agents, the server)
    works on atoms through these classes. The query engine looks for groundings
    of patterns, which are atoms themselves, and evaluates implications. Combo
    programs are what the program learner MOSES and the embodiment evaluate;
    they do not use the store.

    ** How the parts interact

    [ClassServer] keeps the type hierarchy. An [Atom] carries a [TruthValue]
    and an [AttentionValue]. The [TLB] maps handles to the addresses of atoms.
    An [AtomTable] owns the set of its atoms and the six indexes; add, remove
    and setAttentionValue change the TLB, the hash set, the indexes and the
    incoming lists of the targets together, and every index finds the data of
    an atom through the TLB. Lookups take sets of handles from the indexes,
    turn them into [HandleEntry] lists, and filter and intersect those.

    The [TimeServer] stands beside the table: it relates handles to times and
    never reads an atom. Its [TemporalTable] keeps every pair twice, in a map
    from handles to sorted lists of times and in a map from times to sets of
    handles; one sorted list of all times and an index table, an array of
    pointers into that list which is searched by halving, answer the lookups
    that name no handle. The cells and the times are objects in a memory that
    are deleted by hand, and pointers to them are shared between the maps, the
    lists and the index table.

    The [AtomSpace] is the object that clients hold: it owns a table, a time
    server and a [SpaceServer] (maps of space by handle), listens to the
    table's signals (an AtTimeLink that is added or removed adds or removes a
    pair of the time server, and with the pair a map of space), and keeps the
    funds of importance, which atoms take from and give back to.

    The pattern matcher ([PatternMatchEngine], here [Engine]) compares the
    clauses of a pattern with atoms of the table. It climbs from an atom in
    common to the top of a clause by the incoming lists ([soln_up], [pred_up])
    and compares going down by the outgoing sets ([tree_compare]). When a
    clause is grounded it pushes its state on six stacks, takes the next clause
    that shares an atom with the solved ones, and climbs again. It asks a
    callback ([PatternMatchCallback]) whether atoms may match and tells it every
    solution. The callback owns the world, so it may change the atom space in
    between: an implicator adds a copy of the implicand for every solution.

    Agents ([Agent]) hold importance as atoms do. They give stimulus to atoms,
    and listen to the table's signals to forget the stimulus of a removed atom;
    an [Economy] is an atom space with its agents. The updating agent
    ([Importance.run]) lets every atom pay rent to the funds and get wages for
    its stimulus from the agents, cuts importance to its caps, and taxes the
    atoms when the funds leave their range. The forgetting agent ([forget])
    sorts the atoms by importance and removes from the front.

    A combo program is a tree of vertices that [eval] interprets. A reduction
    is a [rule]: logical rules rewrite one node, meta rules apply a rule at
    every node, in sequence, or until nothing changes. [reduce_ands] and
    [reduce_ors] number the subtrees with an [nf_mapper], reduce the lists of
    sets of numbers, and make trees of the result.

    ** Files

    - Prelude.v: outcomes of C++ code ([res]), the state monad [ST], machine
      integers, handles, association lists, counting ([occ]), [SetOrder].
    - ClassServer.v: ClassServer.cc and .h. [addType] with
      [setParentRecursively], [isA], [getChildren], the names; the base types
      of atom_types.inheritance; the invariant [CS_wf].
    - TruthValue.v: the truth value classes and VersionHandle.cc. One inductive
      type with a constructor per class; floats are IEEE 754 numbers of
      [SpecFloat]; constructors, caches, [merge], [clone], comparison, and the
      versions of composite values.
    - AttentionValue.v: AttentionValue.cc, and the bin function of
      ImportanceIndex.cc.
    - Atom.v: Trail.cc ([Trail]), Atom.cc, Node.cc, Link.cc: flags, incoming
      lists, outgoing sets, equality and hash code.
    - TLB.v: TLB.cc and TLB.h, and the methods of atoms that go through it.
    - HandleEntry.v: HandleEntry.cc. List operations ([HE]), the k-way
      [Intersection], the filters.
    - Index.v: FixedIntegerIndex, StringIndex, HandleSeqIndex, NameIndex,
      NodeIndex, LinkIndex, TypeIndex, TargetTypeIndex, ImportanceIndex and
      PredicateIndex, a Module per class. IndexSpec.v: what each promises
      ([keyed_exact], [type_exact], [importance_exact], [target_exact],
      [predicate_exact]) and that its operations keep the promise.
    - AtomTable.v: AtomTable.cc and .h: the state and the operations.
    - TableInv.v: the invariant [inv] of a table, [table_wf]. TableRemove.v:
      extract and remove. TableAdd.v: the constructor and add. TableProps.v:
      what add and remove promise, on a small table as example.
      TableAttention.v: setAttentionValue. TableQuery.v: the lookups.
    - Temporal.v: Temporal.cc: intervals, their order, the names of time
      nodes, and [matchesTimeCriterion] of TemporalTable.cc.
    - TemporalEntry.v: TemporalEntry.cc, lists of times in a memory [Mem], and
      what a list segment holds ([lseg]).
    - TemporalTable.v: TemporalTable.cc, TimeServer.cc and the containers under
      them: the state, add, get, remove, the destructor, the server.
    - TimeSpec.v: the specification of the server, a set of pairs.
      TimeIndex.v: the index table. TimeInv.v: the invariant [TT_inv] of a
      table. TimeAdd.v, TimeGet.v, TimeRemove.v (for one handle),
      TimeRemoveAll.v (for every handle), TimeDelete.v: the operations keep it.
      TimeRefine.v: every operation implements its specification. TimeProps.v:
      what that gives a client, and runs on small tables.
    - SpaceServer.v: SpaceServer.cc over a class of maps ([SpaceMap]) and a
      class for the object that owns it ([SpaceServerContainer]).
    - AtomSpace.v: AtomSpace.cc and .h (Module [AS]), with the signals wired to
      their handlers. SpaceInv.v: the invariant [space_ok]. SpaceRemove.v,
      SpaceAdd.v, SpaceTime.v, SpaceValue.v: the operations keep it.
      SpaceRequests.v: requests, and the states they lead to ([reachable]).
      SpaceDemo.v: the built-in types fit, and a small space. SpaceProps.v:
      what an atom space promises.
    - Triples.v: weakest preconditions for [ST]: a program logic for code that
      calls unknown code.
    - Query.v: PatternMatchEngine.cc and .h, PatternMatchCallback.h,
      OutgoingTree.h, and the loops of Foreach.h and ForeachTwo.h. QueryCB.v:
      DefaultPatternMatchCB.cc and .h, CrispLogicPMCB.h.
    - QuerySpec.v: what a match is ([matches], [sound], [reported]).
      QueryTree.v: the laws of a callback, and tree_compare. QueryNext.v:
      get_next_untried_clause. QueryUp.v: the search from a candidate.
      QueryMatch.v: trees of clauses, the preparation and match. QueryLaws.v:
      the callbacks keep the laws. QueryDemo.v: a callback that records, and
      atoms to search. QueryProps.v: what the pattern matcher promises.
    - Implication.v: PatternMatch.cc and .h. Instantiate.v: the copy of an
      implicand is an instance of it ([instance_of]). ImplicationDemo.v: rules
      to run. ImplicationProps.v: what implications promise.
    - Combo.v: util/tree.h, and vertex.h, type_tree.cc, eval.h, table.h of
      comboreduct/combo. FlatNormalForm.v: flat_normal_form.h and .cc. Reduct.v:
      logical_rules.cc, general_rules.cc, meta_rules.cc, clean_reduction.cc and
      logical_reduction.cc of comboreduct/reduct.
    - NFSpec.v: clauses as sets and their values, resolution, and what the loops
      keep ([reduction]). ReductSpec.v: the value of a formula, and that the
      evaluator computes it ([evaluates_value]). NFMapper.v: the numbers of a
      mapper stand for trees ([number_of]). ReductNF.v: reduce_ands and
      reduce_ors keep values. ReductMeta.v: a measure of formulas ([smaller]),
      and the meta rules over any rule that makes them no larger. ReductLogic.v:
      the logical rules, the passes, truth tables. ReductProps.v: what the
      reduction promises, and what it loses.
    - Agents.v: server/Agent.cc and .h, ForgettingAgent.cc and .h, and the
      methods of AtomSpace.cc for holders of importance that are no atoms.
      ImportanceUpdating.v: ImportanceUpdatingAgent.cc and .h (Module
      [Importance]). Forgetting.v: what the loop of forgetting removes
      ([forgets]). EconomyInv.v: code that keeps a property however it ends
      ([stable]), the sum of all importance ([balanced]), stimulus.
      EconomyFlow.v: rents. EconomyDemo.v: a sort by insertion, and agents to
      run. EconomyProps.v: what the agents promise, and where they go wrong.

    ** Conventions

    A function of the code is a definition of the same name (an overloaded one
    has a suffix for its arguments), composed as the code composes it. A
    definition returns [Ok], [Throw e] for a C++ exception [e] that the source
    raises, [Undef] where the behaviour of the language is undefined (a null
    or dangling pointer is dereferenced, a vector is indexed out of range, a
    shift by the width or more), or [Fuel]. An operation that throws returns
    the state it leaves behind, so that what it did before is visible.

    Objects are records in a heap and pointers are addresses; two handles may
    name one object. A [HandleEntry*] is the list of handles from that cell on,
    and the null receiver of its methods is the empty list, because the code
    tests [this == NULL]. Integers keep their width: handles, types and bins
    are [N] with the wrap-around written out, [short] is a [Z] that is
    converted by [sshort].

    ** Fuel

    - [setParentRecursively] gets one more than the number of types: on a
      hierarchy without cycles a chain of declarations is no longer
      ([addType_correct]); on a cycle no fuel is enough
      ([cyclic_parent_diverges]).
    - [extract] gets one more than the number of handles: every step up goes
      to a younger live link ([extract_ok], with [height] as the measure).
    - [nextMatch] and [collect] get one more than the number of elements left
      under the cursors ([nextMatch_spec], [collect_spec]).
    - The iterator over the type index gets the number of cells it can still
      visit, and the loop that collects a lookup the number of handles in them
      ([begin_loop_ok], [advance_loop_ok], [getHandleSet_loop_ok]).
    - A loop over a list of times gets [chain_fuel], one more than the number
      of live cells; lists have no cycle ([lseg_length]). The binary search and
      the loops over the index table get one more than its count. The removal
      of times calls itself once, with EXACT, so [remove_depth] is 2.

    - [containsVar] gets the number of live atoms: targets are older than
      their links ([containsVar_correct]).

    - A way down through outgoing sets gets [down_fuel], one more than the
      number of handles ([tree_compare_correct], [is_node_in_tree_correct]);
      the search from a candidate gets [search_fuel]: a chain of calls climbs
      each clause once, and a climb has no more steps than there are handles
      ([do_candidate_correct]); the loop over optional clauses gets the number
      of clauses and two.

    - [reduce_nots_loop] gets the size of the tree, the loops over pairs of
      clauses their number ([reduce_nots_loop_ok], [all_implications_ok]).
      [downwards] and [iterative] take a bound from the caller: that some bound
      is enough for every formula is proved by a measure that is ordered
      lexicographically, leaves, then nodes, then junctors ([downwards_ok],
      [iterative_stops]). [eval_throws] counts the arguments that are bound to
      subtrees; bindings to values need none.

    The theorems prove that these amounts are enough. The loop of
    [getTaxAmount] adds rounded probabilities until they reach a random number;
    nothing says that they do, so [Importance.run] takes a bound from the
    caller and the theorem on it holds for any. [fetchAtom] and
    [fetchIncomingSet] recurse through a backing store that this library knows
    nothing about; no theorem is stated on them.

    ** Parameters

    - [SetOrder] is the order in which an unordered_set of handles is iterated:
      some list of the elements without repetition. Every theorem holds for
      any such order.
    - [string_hash] is boost::hash of a string; nothing is assumed of it.
    - [Evaluator] is a virtual method of a class that clients write.
    - [SpaceMap] stands for LocalSpaceMap2D, [BackingStore] for a database;
      [SpaceMapLaws] says that removing an object from a map succeeds.
    - [PatternMatchCallback] is an abstract class; [callback_laws] is what the
      pattern matcher needs of it, and QueryLaws.v shows it of the callbacks of
      the repository. [apply_scheme] runs a scheme; nothing is assumed of it.
    - [Vocabulary] gives the output types of the operators that clients of
      combo define, [EvaluatorMethods] the virtual methods of the evaluator,
      [RandGen], [Random] and [Libm] random numbers and functions of the C
      library; nothing is assumed of them.
    - [StdSort] is std::sort: a permutation that is in order, when the
      comparison is a strict weak order on the elements; otherwise nothing is
      known of it and [sort_atoms], its caller, is undefined. EconomyDemo.v has
      one.

    ** Groups of theorems

    - The type hierarchy: [addType] keeps the matrix of ancestors equal to the
      reflexive and transitive closure of the declarations ([addType_correct]),
      so that after any list of declarations in a good order [isA] decides
      whether a chain of them leads from one type to another ([isA_correct]);
      names and codes are inverse to each other. A type that gets a further
      parent after it has a child, and a cycle, are outside of this
      ([late_parent_not_inherited], [cyclic_parent_diverges]).
    - Truth values: [merge] never lowers the confidence, composite values merge
      version by version, a version that is set is the one that is read, and
      the caches of indefinite values are transparent.
    - Lists: intersection computes the common elements in order; a filter keeps
      exactly what its criterion says.
    - Indexes: after any sequence of insertions and removals an index holds
      exactly the live atoms under their keys; a query returns exactly the
      atoms asked for; the decay of a whole importance index keeps it exact.
    - The table: the constructor makes a well-formed table; [add] either
      inserts the atom everywhere or merges it into the one that is there, and
      breaks the table when a target is invalid ([add_correct]);
      [remove] takes out exactly the atom and the links above it, or nothing;
      setAttentionValue moves the atom to its bin; lookups return exactly the
      live atoms asked for.
    - Errors: what happens when an outgoing set is invalid, when a handle is
      given explicitly, when a type is declared late or in a cycle, when a
      position of a lookup is left open.
    - Times: their order is total, the names of time nodes can be read back,
      the checks of the constructor.
    - The time server: every admissible sequence of commands runs without
      undefined behaviour and answers as a set of pairs would
      ([time_server_refines]); lookups, those of the next and the previous time
      too, return exactly what their criterion says, sorted ([lookup_exact]);
      the index table stays within its bounds and points into the sorted list
      ([index_table_bounds]); clear frees every object once. A removal is admissible when
      it leaves no pointer to a deleted cell behind; two kinds of removals do
      ([removal_leaves_dangling_tail]).
    - The atom space: admissible requests in any order never fail
      ([atom_space_safe]); the time server holds exactly the pairs of the live
      AtTimeLinks; funds and importance add up to the starting funds; times,
      truth values and removals do what they say; two ways in which a space
      breaks ([malformed_time_link_stays], [maps_outlive_their_links]).

    - The pattern matcher: every search stops and keeps its stacks balanced,
      for any callback that keeps the laws ([do_candidate_correct]); over any
      atom space that requests lead to, what the search reports are matches
      ([query_solutions_correct]). It does not find all: three runs show what
      it misses, where it fails and what it leaves open
      ([starter_misses_solution], [shared_constant_is_fatal],
      [variables_left_open]). That a solution is a match does not say that
      every variable is grounded, for this last reason.
    - Implications: a solution adds an instance of the implicand and loses
      nothing; declarations of variables are read as documented; negations
      stay in a matcher that is used again ([old_negations_linger]).
    - Reduction of formulas: reduce_ands and reduce_ors give a result on every
      regular tree, with the value that the evaluator computes when every
      subtree has a boolean one ([reduce_ands_correct], [reduce_ors_correct]),
      but not always otherwise ([unused_operand_first]); effort 0 gives a negation normal form with the same
      truth table ([extra_simple_correct]); effort 1 ends at a formula that it
      does not change ([simple_stops]). Its passes keep the truth table of
      formulas without constants ([simple_pass_correct]), but not of all
      ([dangling_and_lost]). A formula is [formula]: conjunctions,
      disjunctions, negations, constants and arguments.

    - Attention: no run of the updating agent makes or loses importance
      ([importance_is_conserved]); without stimulus every atom pays exactly the
      flat rents ([flat_rent_collected]); when no mean is NaN, forgetting removes exactly the
      atoms that may go up to the point where it stops ([forget_correct]); the total
      stimulus is the sum of what was given ([stimulus_shared]). Where the
      agents go wrong: [forgetting_aborts], [nan_sort_undefined],
      [smallest_importance_missed], [rent_flag_inverted].

    ** Not modelled

    Printing, parsing and logging; the statistics monitor; locks (an operation
    runs alone); destructors of the atom table beyond the release of the
    atoms; the MD5 name hash, which is computed and never read; the
    intersection of lists of times, which no table calls; the templates that
    filter and sort sets of handles; the debug output of the pattern matcher.
    The member [starter_pred] of a search is undefined when it starts. Of the
    reduction: the efforts 2 and 3 with their elegant normal form, the rules
    under assumptions, the rules for continuous, mixed, action and perception
    programs; of combo: parsing, type inference, the unifier of variables. Of
    attention: the agents that diffuse, spread and decay importance and those
    that form Hebbian links, the configuration of agents (their members are
    arguments), the handle sets of the activity table, the scheduler. The
    other subsystems are outside of this library. *)

From stdpp Require Export base gmap sets list strings numbers sorting.

(** ** Outcomes of C++ code

    [Ok] is a normal return, [Throw] a C++ exception that the source raises,
    [Undef] undefined behaviour of the language (a null or dangling pointer
    dereferenced, [operator[]] out of range), [Fuel] a recursion or a loop that
    did not finish within the fuel it was given. *)
Inductive exn : Set :=
  | RuntimeException
  | InvalidParamException
  | IndexErrorException
  | InconsistenceException
  | OutOfRange
  | BadCast
  | BadGet                    (* boost::bad_get *)
  | AssertionException        (* OC_ASSERT *)
  | ThrownPointer.            (* [throw new E(...)] throws a pointer, no [E] *)

Inductive res (A : Type) : Type :=
  | Ok (a : A)
  | Throw (e : exn)
  | Undef
  | Fuel.
Arguments Ok {A} a.
Arguments Throw {A} e.
Arguments Undef {A}.
Arguments Fuel {A}.

#[export] Instance exn_eq_dec : EqDecision exn.
Proof. solve_decision. Defined.

#[export] Instance res_ret : MRet res := @Ok.
#[export] Instance res_bind : MBind res := fun A B f m =>
  match m with
  | Ok a => f a
  | Throw e => Throw e
  | Undef => Undef
  | Fuel => Fuel
  end.

(** Stateful code: the state survives an exception, as it does in C++. *)
Definition ST (S A : Type) : Type := S -> res A * S.

#[export] Instance st_ret {S} : MRet (ST S) := fun A a s => (Ok a, s).
#[export] Instance st_bind {S} : MBind (ST S) := fun A B f m s =>
  match m s with
  | (Ok a, s') => f a s'
  | (Throw e, s') => (Throw e, s')
  | (Undef, s') => (Undef, s')
  | (Fuel, s') => (Fuel, s')
  end.

Definition throw {S A} (e : exn) : ST S A := fun s => (Throw e, s).
Definition undef {S A} : ST S A := fun s => (Undef, s).
Definition nofuel {S A} : ST S A := fun s => (Fuel, s).
Definition getst {S} : ST S S := fun s => (Ok s, s).
Definition putst {S} (s' : S) : ST S unit := fun _ => (Ok tt, s').
Definition modst {S} (f : S -> S) : ST S unit := fun s => (Ok tt, f s).
Definition lift {S A} (r : res A) : ST S A := fun s => (r, s).
Definition asks {S A} (f : S -> A) : ST S A := fun s => (Ok (f s), s).

(** A computation that only reads the state. *)
Definition reads {S A} (f : S -> res A) : ST S A := fun s => (f s, s).
(** A change of the state that may fail, and then leaves it alone. *)
Definition modify {S} (f : S -> res S) : ST S unit := fun s =>
  match f s with
  | Ok s' => (Ok tt, s')
  | Throw e => (Throw e, s)
  | Undef => (Undef, s)
  | Fuel => (Fuel, s)
  end.

(** [of_opt o]: the value of a pointer or an iterator that must be valid. *)
Definition of_opt {A} (o : option A) : res A :=
  match o with Some a => Ok a | None => Undef end.

(** A [for] loop over a list whose body may fail; the state is threaded. *)
Fixpoint foreach {S A} (f : A -> ST S unit) (l : list A) : ST S unit :=
  match l with
  | [] => mret tt
  | x :: l' => f x ≫= fun _ => foreach f l'
  end.

(** A loop without an early exit that threads a value of type [B]. *)
Fixpoint rfold {A B} (f : B -> A -> res B) (b : B) (l : list A) : res B :=
  match l with
  | [] => Ok b
  | x :: l' => f b x ≫= fun b' => rfold f b' l'
  end.

Lemma foreach_app {S A} (f : A -> ST S unit) l1 l2 s :
  foreach f (l1 ++ l2) s = (foreach f l1 ≫= fun _ => foreach f l2) s.
Proof.
  revert s. induction l1 as [|x l1 IH]; intros s; [done|].
  simpl. unfold mbind, st_bind.
  destruct (f x s) as [[[]| | |] s']; done.
Qed.

(** An invariant of a loop. *)
Lemma rfold_ind {A B} (P : B -> Prop) (f : B -> A -> res B) l : forall b r,
  P b -> (forall x b b', x ∈ l -> P b -> f b x = Ok b' -> P b') -> rfold f b l = Ok r -> P r.
Proof.
  induction l as [|x l IH]; intros b r Hb Hf; cbn [rfold]; [by intros [= <-]|].
  destruct (f b x) as [b'| | |] eqn:E; try done. cbn [mbind res_bind]. apply IH.
  - apply (Hf x b); [left|done|done].
  - intros y c c' Hy. apply Hf. by right.
Qed.

(** ** Running a sequence of operations *)
Lemma modify_ok {S} (f : S -> res S) s s' : f s = Ok s' -> modify f s = (Ok tt, s').
Proof. unfold modify. by intros ->. Qed.

Lemma bind_ok {S A B} (m : ST S A) (f : A -> ST S B) s a s' :
  m s = (Ok a, s') -> (m ≫= f) s = f a s'.
Proof. unfold mbind, st_bind. by intros ->. Qed.

(** Run the first operation of a sequence; [t] proves what it does. *)
Tactic Notation "step" tactic3(t) := erewrite bind_ok; [|t].

(** ** Integers at their width *)
Definition wrap16 (n : N) : N := (n mod 2 ^ 16)%N.
Definition wrap64 (n : N) : N := (n mod 2 ^ 64)%N.
(** Conversion of an integer to the 16-bit signed type [short]. *)
Definition sshort (z : Z) : Z := ((z + 2 ^ 15) mod 2 ^ 16 - 2 ^ 15)%Z.

Definition SHRT_MIN : Z := -32768.
Definition SHRT_MAX : Z := 32767.

Definition is_short (z : Z) : Prop := (SHRT_MIN <= z <= SHRT_MAX)%Z.

Lemma sshort_range z : is_short (sshort z).
Proof.
  unfold is_short, sshort, SHRT_MIN, SHRT_MAX.
  pose proof (Z.mod_pos_bound (z + 2 ^ 15) (2 ^ 16) eq_refl). lia.
Qed.

Lemma sshort_id z : is_short z -> sshort z = z.
Proof.
  unfold is_short, sshort, SHRT_MIN, SHRT_MAX. intros H.
  rewrite Z.mod_small; lia.
Qed.

Lemma sshort_eq z : exists k, (sshort z = z + k * 2 ^ 16)%Z.
Proof.
  exists (- ((z + 2 ^ 15) / 2 ^ 16))%Z. unfold sshort. rewrite Z.mod_eq by done. lia.
Qed.

Lemma sshort_shift z k : sshort (z + k * 2 ^ 16) = sshort z.
Proof. unfold sshort. replace (z + k * 2 ^ 16 + 2 ^ 15)%Z with (z + 2 ^ 15 + k * 2 ^ 16)%Z by lia. by rewrite Z.mod_add. Qed.

Lemma sshort_add_l a b : sshort (sshort a + b) = sshort (a + b).
Proof. destruct (sshort_eq a) as [k ->]. rewrite <- (sshort_shift (a + b) k). f_equal. lia. Qed.

Lemma sshort_add_r a b : sshort (a + sshort b) = sshort (a + b).
Proof. by rewrite Z.add_comm, sshort_add_l, Z.add_comm. Qed.

Lemma sshort_sub_l a b : sshort (sshort a - b) = sshort (a - b).
Proof. apply (sshort_add_l a (- b)). Qed.

Lemma sshort_idem a : sshort (sshort a) = sshort a.
Proof. apply sshort_id, sshort_range. Qed.

Lemma wrap16_idem n : wrap16 (wrap16 n) = wrap16 n.
Proof. unfold wrap16. by apply N.Div0.mod_mod. Qed.

(** ** Handles, type codes and vectors of containers *)

(** [UUID] is [unsigned long]; a [Handle] wraps one. *)
Abbreviation Handle := N (only parsing).
Definition UNDEFINED : Handle := 2 ^ 64 - 1.

(** [Handle::compare]. *)
Definition Handle_compare (h1 h2 : Handle) : Z :=
  if (h1 <? h2)%N then -1 else if (h2 <? h1)%N then 1 else 0.

(** ** Filters *)
Lemma filter_keep {A} (P : A -> Prop) `{forall x, Decision (P x)} (l : list A) :
  Forall P l -> filter P l = l.
Proof. induction 1; [done|]. rewrite filter_cons_True by done. by f_equal. Qed.

Lemma filter_iff_in {A} (P Q : A -> Prop) `{forall x, Decision (P x), forall x, Decision (Q x)} (l : list A) :
  (forall x, x ∈ l -> P x <-> Q x) -> filter P l = filter Q l.
Proof.
  induction l as [|x l IH]; intros H1; [done|].
  assert (Hl : filter P l = filter Q l) by (apply IH; intros y Hy; apply H1; by right).
  rewrite !filter_cons, Hl. pose proof (H1 x ltac:(left)). repeat case_decide; tauto || done.
Qed.

Lemma StronglySorted_filter {A} (R : A -> A -> Prop) (P : A -> Prop) `{forall x, Decision (P x)} l :
  StronglySorted R l -> StronglySorted R (filter P l).
Proof.
  induction 1 as [|x l Hs IH Hx]; [constructor|]. rewrite filter_cons. case_decide; [|done].
  constructor; [done|]. rewrite Forall_forall in Hx |- *. intros y [_ Hy]%list_elem_of_filter. auto.
Qed.

(** The order in which an [UnorderedHandleSet] is iterated: unspecified, but
    every element is met once. *)
Class SetOrder := {
  set_order : gset Handle -> list Handle;
  set_order_perm : forall s, set_order s ≡ₚ elements s
}.

(** An order to run examples with. *)
Definition elements_order : SetOrder :=
  {| set_order := elements; set_order_perm := fun s => Permutation_refl (elements s) |}.

Lemma elem_of_set_order `{SetOrder} s x : x ∈ set_order s <-> x ∈ s.
Proof. rewrite set_order_perm. apply elem_of_elements. Qed.

Lemma NoDup_set_order `{SetOrder} s : NoDup (set_order s).
Proof. rewrite set_order_perm. apply NoDup_elements. Qed.

(** The number of occurrences of a handle in a list. *)
Definition occ (x : Handle) (l : list Handle) : nat := length (filter (eq x) l).

Lemma occ_nil x : occ x [] = 0.
Proof. done. Qed.

Lemma occ_cons x y l : occ x (y :: l) = (if decide (x = y) then 1 else 0) + occ x l.
Proof. unfold occ. rewrite filter_cons. by case_decide. Qed.

Lemma occ_app x l1 l2 : occ x (l1 ++ l2) = occ x l1 + occ x l2.
Proof. unfold occ. by rewrite filter_app, length_app. Qed.

Lemma occ_perm x l1 l2 : l1 ≡ₚ l2 -> occ x l1 = occ x l2.
Proof. unfold occ. by intros ->. Qed.

Lemma occ_pos x l : x ∈ l <-> 0 < occ x l.
Proof.
  induction l as [|y l IH]; [rewrite elem_of_nil, occ_nil; lia|].
  rewrite elem_of_cons, occ_cons, IH. case_decide; [subst|]; split; intros; try lia; auto.
Qed.

Lemma occ_0 x l : x ∉ l <-> occ x l = 0.
Proof. rewrite occ_pos. lia. Qed.

(** A hash map with unspecified iteration order, as the association list of its
    entries in iteration order: [find], [operator[]=] and [erase]. *)
Section assoc.
Context {K V : Type} `{EqDecision K}.

Fixpoint afind (k : K) (m : list (K * V)) : option V :=
  match m with
  | [] => None
  | (k', v) :: m' => if decide (k = k') then Some v else afind k m'
  end.

Fixpoint aset (k : K) (v : V) (m : list (K * V)) : list (K * V) :=
  match m with
  | [] => [(k, v)]
  | (k', v') :: m' =>
      if decide (k = k') then (k', v) :: m' else (k', v') :: aset k v m'
  end.

Definition aerase (k : K) (m : list (K * V)) : list (K * V) :=
  filter (fun kv => kv.1 <> k) m.

Lemma afind_aset k k' v m :
  afind k (aset k' v m) = if decide (k = k') then Some v else afind k m.
Proof.
  induction m as [|[k1 v1] m IH]; simpl; [done|].
  repeat (case_decide; simpl; subst); try done.
Qed.

Lemma afind_filter (P : K -> Prop) `{!forall k, Decision (P k)} k m :
  afind k (filter (fun kv => P kv.1) m) = if decide (P k) then afind k m else None.
Proof.
  induction m as [|[k1 v1] m IH]; simpl; [by case_decide|].
  rewrite filter_cons. simpl. repeat (case_decide; simpl; subst); try done.
Qed.

Lemma afind_aerase k k' m :
  afind k (aerase k' m) = if decide (k = k') then None else afind k m.
Proof.
  unfold aerase. induction m as [|[k1 v1] m IH]; simpl; [by case_decide|].
  rewrite filter_cons. simpl. repeat (case_decide; simpl; subst); try done.
Qed.

Lemma afind_Some_elem k v m : afind k m = Some v -> (k, v) ∈ m.
Proof.
  induction m as [|[k1 v1] m IH]; simpl; [done|].
  case_decide; [intros [= ->]; subst; by left|]. intros Hf. right. by apply IH.
Qed.

Lemma elem_of_afind k v m : NoDup m.*1 -> (k, v) ∈ m -> afind k m = Some v.
Proof.
  induction m as [|[k1 v1] m IH]; simpl; [by intros _ ?%elem_of_nil|].
  intros [Hn Hd]%NoDup_cons [?|Hin]%elem_of_cons; simplify_eq.
  - by rewrite decide_True.
  - rewrite decide_False; [by apply IH|]. intros ->. apply Hn.
    apply list_elem_of_fmap. by exists (k1, v).
Qed.

Lemma afind_None k m : afind k m = None <-> k ∉ m.*1.
Proof.
  induction m as [|[k1 v1] m IH]; simpl; [split; [|done]; by intros _ ?%elem_of_nil|].
  rewrite not_elem_of_cons. case_decide; naive_solver.
Qed.

Lemma aset_keys k v m :
  (aset k v m).*1 = if decide (k ∈ m.*1) then m.*1 else m.*1 ++ [k].
Proof.
  induction m as [|[k1 v1] m IH]; simpl; [done|].
  destruct (decide (k = k1)) as [->|Hne]; cbn; [|fold (fmap (M:=list) (@fst K V)); rewrite IH];
    repeat case_decide; set_solver.
Qed.

Lemma aset_Forall (P : K * V -> Prop) k v m :
  (forall k', P (k', v)) -> Forall P m -> Forall P (aset k v m).
Proof.
  intros Hv. induction 1 as [|[k1 v1] m H1 Hm IH]; simpl; [by repeat constructor|].
  case_decide; by repeat constructor.
Qed.

Lemma aset_NoDup k v m : NoDup m.*1 -> NoDup (aset k v m).*1.
Proof.
  intros Hd. rewrite aset_keys. case_decide as Hk; [done|].
  apply NoDup_app. split; [done|]. split; [|apply NoDup_singleton].
  intros x Hx ->%list_elem_of_singleton. done.
Qed.

Lemma afilter_NoDup (P : K * V -> Prop) `{!forall x, Decision (P x)} m :
  NoDup m.*1 -> NoDup (filter P m).*1.
Proof.
  induction m as [|[k v] m IH]; [done|].
  rewrite fmap_cons, filter_cons.
  intros [Hn Hd]%NoDup_cons. case_decide; [|by apply IH].
  rewrite fmap_cons. apply NoDup_cons. split; [|by apply IH]. contradict Hn.
  apply list_elem_of_fmap in Hn as (x & -> & [_ Hx]%list_elem_of_filter).
  apply list_elem_of_fmap. by exists x.
Qed.
End assoc.

(** ** [rev], which stdpp knows as [reverse] *)
Lemma rev_reverse {A} (l : list A) : rev l = reverse l.
Proof. apply rev_alt. Qed.
Lemma elem_of_rev {A} (x : A) l : x ∈ rev l <-> x ∈ l.
Proof. by rewrite rev_reverse, elem_of_reverse. Qed.
Lemma NoDup_rev {A} (l : list A) : NoDup l -> NoDup (rev l).
Proof. intros Hl. by rewrite rev_reverse, reverse_Permutation. Qed.
