(* ===== verification/ClassServer.v ===== *)
(** The atom type hierarchy: [ClassServer] of
    src/opencog/atomspace/ClassServer.cc and ClassServer.h.

    Type codes are 16-bit integers, the two [vector<vector<bool>>] are lists of
    rows indexed like the C++ vectors ([operator[]] out of range is [Undef]),
    the two hash maps are [gmap]s. *)
From S2P Require Import Prelude.

Definition NOTYPE : N := 65535.

(** A [std::vector<std::vector<bool> >]. *)
Abbreviation bmat := (list (list bool)).

Definition mget (m : bmat) (i j : N) : res bool :=
  row ← of_opt (m !! N.to_nat i); of_opt (row !! N.to_nat j).

Definition mset (m : bmat) (i j : N) : res bmat :=
  row ← of_opt (m !! N.to_nat i);
  if bool_decide (N.to_nat j < length row)
  then Ok (<[N.to_nat i := <[N.to_nat j := true]> row]> m)
  else Undef.

(** [resize] of the outer vector, then of each row, filling with [false]. *)
Definition mresize (n : N) (m : bmat) : bmat :=
  resize (N.to_nat n) false <$> resize (N.to_nat n) [] m.

Record ClassServer := mkClassServer {
  nTypes : N;
  inheritanceMap : bmat;
  recursiveMap : bmat;
  name2CodeMap : gmap string N;
  code2NameMap : gmap N string;
  addTypeSignals : list N
}.

(** All codes [0 .. n-1], in loop order. *)
Definition codes (n : N) : list N := N.of_nat <$> seq 0 (N.to_nat n).

Definition ClassServer_empty : ClassServer :=
  mkClassServer 0 [] [] ∅ ∅ [].

Fixpoint setParentRecursively (fuel : nat) (n parent type : N) (rm : bmat)
    : res bmat :=
  match fuel with
  | O => Fuel
  | S fuel' =>
      rm1 ← mset rm parent type;
      rfold (fun rm' i =>
          b ← mget rm' i parent;
          if b && negb (i =? parent)%N
          then setParentRecursively fuel' n i type rm'
          else Ok rm')
        rm1 (codes n)
  end.

Definition isDefined (cs : ClassServer) (typeName : string) : bool :=
  bool_decide (is_Some (name2CodeMap cs !! typeName)).

Definition getType (cs : ClassServer) (typeName : string) : N :=
  default NOTYPE (name2CodeMap cs !! typeName).

Definition getTypeName (cs : ClassServer) (type : N) : string :=
  default EmptyString (code2NameMap cs !! type).

Definition getNumberOfClasses (cs : ClassServer) : N := nTypes cs.

(** The recursion of [setParentRecursively] is given one unit of fuel per
    type and one more; [addType_ok] shows that this is enough on acyclic
    hierarchies. *)
Definition addType (parent : N) (name : string) (cs : ClassServer)
    : res (N * ClassServer) :=
  let type := getType cs name in
  if negb (type =? NOTYPE)%N then
    im ← mset (inheritanceMap cs) parent type;
    rm ← setParentRecursively (S (N.to_nat (nTypes cs))) (nTypes cs)
           parent type (recursiveMap cs);
    Ok (type, mkClassServer (nTypes cs) im rm (name2CodeMap cs)
                (code2NameMap cs) (addTypeSignals cs))
  else
    let type := nTypes cs in
    let n := wrap16 (nTypes cs + 1) in
    let im := mresize n (inheritanceMap cs) in
    let rm := mresize n (recursiveMap cs) in
    im ← mset im type type;
    im ← mset im parent type;
    rm ← mset rm type type;
    rm ← setParentRecursively (S (N.to_nat n)) n parent type rm;
    Ok (type, mkClassServer n im rm
                (<[name := type]> (name2CodeMap cs))
                (<[type := name]> (code2NameMap cs))
                (addTypeSignals cs ++ [type])).

Definition isA_non_recursive (cs : ClassServer) (type parent : N) : res bool :=
  if (nTypes cs <=? type)%N || (nTypes cs <=? parent)%N then Ok false
  else mget (inheritanceMap cs) parent type.

Definition isA (cs : ClassServer) (type parent : N) : res bool :=
  if (nTypes cs <=? type)%N || (nTypes cs <=? parent)%N then Ok false
  else mget (recursiveMap cs) parent type.

(** [getChildren] and [getChildrenRecursive]: the codes written to the output
    iterator, in order; the returned count is the length of the list. *)
Definition children_loop (m : bmat) (n type : N) : res (list N) :=
  rfold (fun acc i =>
      b ← mget m type i;
      Ok (if b && negb (type =? i)%N then acc ++ [i] else acc))
    [] (codes n).

Definition getChildren (cs : ClassServer) (type : N) : res (list N) :=
  children_loop (inheritanceMap cs) (nTypes cs) type.

Definition getChildrenRecursive (cs : ClassServer) (type : N)
    : res (list N) :=
  children_loop (recursiveMap cs) (nTypes cs) type.

(** ** The constructor: the declarations of atom_types.inheritance

    A C++ variable such as [opencog::NODE] holds the code that [addType]
    returned for its name, so a declaration is a pair of a parent name and a
    name. The first one, [ATOM = addType(ATOM, "Atom")], uses the variable
    [ATOM] before it is assigned, when it is 0. *)
Fixpoint declare_all (l : list (string * string)) (cs : ClassServer)
    : res ClassServer :=
  match l with
  | [] => Ok cs
  | (parent, name) :: l' =>
      '(_, cs') ← addType (getType cs parent) name cs; declare_all l' cs'
  end.

#[local] Open Scope string_scope.
Definition atom_types_inheritance : list (string * string) :=
  [ ("Atom", "Node"); ("Atom", "Link");
    ("Node", "ConceptNode"); ("Node", "NumberNode");
    ("Link", "OrderedLink"); ("Link", "UnorderedLink");
    ("UnorderedLink", "SetLink"); ("OrderedLink", "SubsetLink");
    ("OrderedLink", "ListLink"); ("OrderedLink", "MemberLink");
    ("OrderedLink", "AndLink"); ("UnorderedLink", "OrLink");
    ("UnorderedLink", "NotLink"); ("OrderedLink", "FalseLink");
    ("OrderedLink", "TrueLink"); ("OrderedLink", "ContextLink");
    ("Node", "VariableNode"); ("Node", "VariableTypeNode");
    ("OrderedLink", "TypedVariableLink"); ("OrderedLink", "VariableScopeLink");
    ("VariableScopeLink", "ForAllLink"); ("VariableScopeLink", "ExistLink");
    ("OrderedLink", "ScholemLink"); ("OrderedLink", "ImplicationLink");
    ("OrderedLink", "EvaluationLink"); ("OrderedLink", "AssociativeLink");
    ("OrderedLink", "InheritanceLink"); ("UnorderedLink", "SimilarityLink");
    ("OrderedLink", "ExtensionalInheritanceLink"); ("OrderedLink", "ExtensionalSimilarityLink");
    ("OrderedLink", "IntensionalInheritanceLink"); ("OrderedLink", "IntensionalSimilarityLink");
    ("Node", "ProcedureNode"); ("ProcedureNode", "GroundedProcedureNode");
    ("ProcedureNode", "SchemaNode"); ("SchemaNode", "GroundedSchemaNode");
    ("GroundedProcedureNode", "GroundedSchemaNode"); ("SchemaNode", "PredicateNode");
    ("PredicateNode", "GroundedPredicateNode"); ("GroundedProcedureNode", "GroundedPredicateNode");
    ("OrderedLink", "SatisfyingSetLink"); ("InheritanceLink", "SchemaExecutionLink");
    ("SchemaExecutionLink", "SchemaEvaluationLink"); ("OrderedLink", "ExecutionLink");
    ("OrderedLink", "ExecutionOutputLink"); ("OrderedLink", "PredictiveImplication");
    ("OrderedLink", "TailPredictiveImplication"); ("AndLink", "SequentialAndLink");
    ("AndLink", "SimultaneousAndLink"); ("OrderedLink", "EventualSequentialAND");
    ("OrderedLink", "EventualSequentialImplication"); ("OrderedLink", "HypotheticalLink");
    ("OrderedLink", "MixedImplicationLink"); ("OrderedLink", "ExtensionalImplicationLink");
    ("UnorderedLink", "EquivalenceLink"); ("UnorderedLink", "ExtensionalEquivalenceLink");
    ("Node", "AnchorNode"); ("OrderedLink", "CountLink");
    ("Node", "WordNode"); ("AssociativeLink", "ReferenceLink");
    ("ConceptNode", "DocumentNode"); ("ConceptNode", "SentenceNode");
    ("ConceptNode", "ParseNode"); ("AssociativeLink", "ParseLink");
    ("ConceptNode", "WordInstanceNode"); ("AssociativeLink", "WordInstanceLink");
    ("ConceptNode", "FeatureNode"); ("OrderedLink", "FeatureLink");
    ("PredicateNode", "LinkGrammarRelationshipNode"); ("PredicateNode", "LinkGrammarDisjunctNode");
    ("FeatureNode", "DefinedLinguisticConceptNode"); ("PredicateNode", "DefinedLinguisticRelationshipNode");
    ("PredicateNode", "PrepositionalRelationshipNode"); ("ConceptNode", "DefinedFrameNode");
    ("PredicateNode", "DefinedFrameElementNode"); ("OrderedLink", "FrameElementLink");
    ("ConceptNode", "WordSenseNode"); ("AssociativeLink", "WordSenseLink");
    ("FeatureNode", "PartOfSpeechNode"); ("FeatureLink", "PartOfSpeechLink");
    ("ConceptNode", "LemmaNode"); ("OrderedLink", "LemmaLink");
    ("InheritanceLink", "HolonymLink"); ("UnorderedLink", "CosenseLink");
    ("ConceptNode", "SemeNode"); ("SemeNode", "SemanticRelationNode");
    ("ConceptNode", "ContextNode"); ("Node", "AGISIMSoundNode");
    ("Node", "AGISIMTasteNode"); ("Node", "AGISIMSmellNode");
    ("Node", "AGISIMSelfNode"); ("Node", "AGISIMPerceptNode");
    ("Node", "AGIMSIMVisualPerceptNode"); ("Node", "AGISIMPixelPerceptNode");
    ("Node", "AGISIMPolygonPerceptNode"); ("Node", "AGISIMObjectPerceptNode");
    ("Node", "CWPixelPerceptNode"); ("Node", "CWColorNode");
    ("Node", "FWVariableNode"); ("OrderedLink", "LatestLink");
    ("Node", "ObjectNode"); ("ObjectNode", "PetNode");
    ("ObjectNode", "AvatarNode"); ("ObjectNode", "StructureNode");
    ("ObjectNode", "AccessoryNode"); ("ObjectNode", "HumanoidNode");
    ("OrderedLink", "AtTimeLink"); ("Node", "TimeNode");
    ("OrderedLink", "IsAcceptableSecondArgLink"); ("Link", "HebbianLink");
    ("OrderedLink", "AsymmetricHebbianLink"); ("HebbianLink", "AsymmetricHebbianLink");
    ("UnorderedLink", "SymmetricHebbianLink"); ("HebbianLink", "SymmetricHebbianLink");
    ("OrderedLink", "InverseHebbianLink"); ("HebbianLink", "InverseHebbianLink");
    ("UnorderedLink", "SymmetricInverseHebbianLink"); ("HebbianLink", "SymmetricInverseHebbianLink") ].
#[local] Close Scope string_scope.

Definition ClassServer_new : res ClassServer :=
  '(_, cs) ← addType 0 "Atom" ClassServer_empty;
  declare_all atom_types_inheritance cs.

(** ** Matrices as relations *)
Definition bm (m : bmat) (i j : N) : bool :=
  default false (m !! N.to_nat i ≫= fun row => row !! N.to_nat j).

Definition square (n : N) (m : bmat) : Prop :=
  length m = N.to_nat n /\ Forall (fun row => length row = N.to_nat n) m.

Lemma elem_of_codes n i : i ∈ codes n <-> (i < n)%N.
Proof.
  unfold codes. rewrite list_elem_of_fmap. split.
  - intros (k & -> & Hk%elem_of_seq). lia.
  - intros H. exists (N.to_nat i). split; [lia|]. apply elem_of_seq. lia.
Qed.

Lemma NoDup_codes n : NoDup (codes n).
Proof. unfold codes. apply NoDup_fmap_2; [apply _|]. apply NoDup_seq. Qed.

Lemma square_row n m i :
  square n m -> (i < n)%N ->
  exists row, m !! N.to_nat i = Some row /\ length row = N.to_nat n.
Proof.
  intros [Hl Hf] Hi.
  destruct (lookup_lt_is_Some_2 m (N.to_nat i)) as [row Hrow]; [lia|].
  exists row. split; [done|]. by eapply Forall_lookup in Hf.
Qed.

Lemma mget_square n m i j :
  square n m -> (i < n)%N -> (j < n)%N -> mget m i j = Ok (bm m i j).
Proof.
  intros Hs Hi Hj. destruct (square_row n m i Hs Hi) as (row & Hr & Hl).
  unfold mget, bm. rewrite Hr. simpl.
  destruct (lookup_lt_is_Some_2 row (N.to_nat j)) as [b Hb]; [lia|].
  by rewrite Hb.
Qed.

Lemma mset_square n m i j :
  square n m -> (i < n)%N -> (j < n)%N ->
  exists m', mset m i j = Ok m' /\ square n m' /\
    forall a b, bm m' a b = bm m a b || ((a =? i) && (b =? j))%N.
Proof.
  intros Hs Hi Hj. destruct (square_row n m i Hs Hi) as (row & Hr & Hl).
  unfold mset. rewrite Hr. simpl. rewrite bool_decide_true by lia.
  eexists. split; [done|]. destruct Hs as [Hlen Hf]. split.
  - split; [by rewrite length_insert|].
    apply Forall_insert; [done|]. cbn. by rewrite length_insert.
  - intros a b. unfold bm. destruct (N.eqb_spec a i) as [->|Hne].
    + rewrite list_lookup_insert_eq by (apply lookup_lt_Some in Hr; lia).
      rewrite Hr. simpl. destruct (N.eqb_spec b j) as [->|Hne].
      * rewrite list_lookup_insert_eq by lia. simpl. by rewrite orb_true_r.
      * rewrite list_lookup_insert_ne by lia. by rewrite orb_false_r.
    + rewrite list_lookup_insert_ne by lia. by rewrite orb_false_r.
Qed.

Lemma bm_out n m i j : square n m -> (n <= i \/ n <= j)%N -> bm m i j = false.
Proof.
  intros [Hl Hf] Ho. unfold bm.
  destruct (m !! N.to_nat i) as [row|] eqn:E; [|done]. simpl.
  pose proof (lookup_lt_Some _ _ _ E). eapply Forall_lookup in Hf; [|done].
  simpl in Hf. rewrite lookup_ge_None_2 by lia. done.
Qed.

Lemma mresize_square n m m0 :
  square m m0 -> (m <= n)%N ->
  square n (mresize n m0) /\ forall a b, bm (mresize n m0) a b = bm m0 a b.
Proof.
  intros Hs Hle. assert (Hl : length m0 = N.to_nat m) by apply Hs.
  split.
  - split.
    + unfold mresize. by rewrite length_fmap, length_resize.
    + unfold mresize. apply Forall_fmap, Forall_true. intros r. simpl.
      apply length_resize.
  - intros a b. unfold bm, mresize. rewrite list_lookup_fmap.
    destruct (decide (a < m)%N) as [Ha|Ha].
    + destruct (square_row m m0 a Hs Ha) as (row & Hr & Hrl).
      rewrite lookup_resize by lia. rewrite Hr. simpl.
      destruct (decide (b < m)%N).
      * by rewrite lookup_resize by lia.
      * rewrite (lookup_ge_None_2 row) by lia. simpl.
        destruct (decide (b < n)%N).
        -- by rewrite lookup_resize_new by lia.
        -- by rewrite lookup_resize_old by lia.
    + rewrite (lookup_ge_None_2 m0) by lia. simpl.
      destruct (decide (a < n)%N).
      * rewrite lookup_resize_new by lia. simpl.
        destruct (decide (b < n)%N).
        -- by rewrite lookup_resize_new by (simpl; lia).
        -- by rewrite lookup_resize_old by lia.
      * by rewrite lookup_resize_old by lia.
Qed.

(** ** [setParentRecursively] marks exactly the ancestors of [parent] *)
Section set_parent.
Context (n t : N) (R : N -> N -> bool).
Hypothesis R_trans : forall a b c, R a b = true -> R b c = true -> R a c = true.
Hypothesis R_anti : forall a b, R a b = true -> R b a = true -> a = b.
Hypothesis R_bound : forall a b, R a b = true -> (a < n)%N.

(** The measure of the recursion: how many strict ancestors [p] has. *)
Definition strict_anc (p : N) : list N :=
  filter (fun i => R i p = true /\ i <> p) (codes n).

Lemma strict_anc_decr i p :
  R i p = true -> i <> p -> length (strict_anc i) < length (strict_anc p).
Proof using R_trans R_anti R_bound.
  intros Hip Hne.
  assert (Hincl : i :: strict_anc i ⊆+ strict_anc p).
  { apply NoDup_submseteq.
    - apply NoDup_cons. split.
      + unfold strict_anc. rewrite list_elem_of_filter. naive_solver.
      + unfold strict_anc. apply NoDup_filter, NoDup_codes.
    - intros x. unfold strict_anc.
      rewrite elem_of_cons, !list_elem_of_filter, !elem_of_codes.
      intros [->|[[Hx Hxi] Hlt]]; [eauto|].
      split_and!; [eauto| |done]. intros ->. by apply Hne, R_anti. }
  apply submseteq_length in Hincl. simpl in Hincl. lia.
Qed.

Definition agrees (rm : bmat) : Prop :=
  square n rm /\ forall a b, b <> t -> bm rm a b = R a b.

Definition marked (rm rm' : bmat) (P : N -> Prop) : Prop :=
  square n rm' /\
  forall a b, bm rm' a b = true <-> bm rm a b = true \/ (b = t /\ P a).

Lemma marked_agrees rm rm' P :
  agrees rm -> marked rm rm' P -> agrees rm'.
Proof.
  intros [_ Hag] [Hs Hm]. split; [done|]. intros a b Hb.
  rewrite <- (Hag a b Hb). apply eq_true_iff_eq. rewrite Hm. naive_solver.
Qed.

Lemma set_parent_loop (go : N -> bmat -> res bmat) p l rm :
  p <> t -> (p < n)%N ->
  (forall i, i ∈ l -> (i < n)%N) ->
  (forall i rm, R i p = true -> i <> p -> agrees rm ->
     exists rm', go i rm = Ok rm' /\
                 marked rm rm' (fun a => a = i \/ R a i = true)) ->
  agrees rm ->
  exists rm',
    rfold (fun rm' i => b ← mget rm' i p;
                        if b && negb (i =? p)%N then go i rm' else Ok rm')
      rm l = Ok rm' /\
    marked rm rm' (fun a => exists i, i ∈ l /\ R i p = true /\ i <> p /\
                                      (a = i \/ R a i = true)).
Proof.
  intros Hpt Hp Hl Hgo. revert rm.
  induction l as [|i l IH]; intros rm Hag; simpl.
  { exists rm. split; [done|]. split; [apply Hag|]. set_solver. }
  rewrite (mget_square n) by (apply Hag || set_solver || done). simpl.
  rewrite (proj2 Hag i p Hpt).
  destruct (R i p && negb (i =? p)%N) eqn:E; simpl.
  - apply andb_true_iff in E as [Hr Hne%negb_true_iff%N.eqb_neq].
    destruct (Hgo i rm Hr Hne Hag) as (rm1 & -> & Hm1). simpl.
    destruct (IH ltac:(set_solver) rm1) as (rm2 & -> & Hm2).
    { by eapply marked_agrees. }
    exists rm2. split; [done|]. split; [apply Hm2|]. intros a b.
    rewrite (proj2 Hm2), (proj2 Hm1). setoid_rewrite elem_of_cons. split.
    + intros [[?|[-> ?]]|[-> (k & ? & ? & ? & ?)]]; [by left| |];
        (right; split; [done|]); [exists i|exists k]; auto.
    + intros [?|[-> (k & [->|Hk] & ? & ? & Ha)]];
        [by left; left|by left; right|]. right. split; [done|]. exists k. auto.
  - destruct (IH ltac:(set_solver) rm Hag) as (rm2 & -> & Hm2).
    exists rm2. split; [done|]. split; [apply Hm2|]. intros a b.
    rewrite (proj2 Hm2). setoid_rewrite elem_of_cons. split.
    { intros [?|[-> (k & ? & ? & ? & ?)]]; [by left|].
      right. split; [done|]. exists k. auto. }
    intros [?|[-> (k & [->|Hk] & Hr & Hne & Ha)]]; [by left| |].
    + rewrite Hr in E. simpl in E.
      by apply negb_false_iff, N.eqb_eq in E.
    + right. split; [done|]. eauto.
Qed.

Lemma setParentRecursively_ok fuel p rm :
  length (strict_anc p) < fuel -> (p < n)%N -> (t < n)%N -> p <> t ->
  R t p = false -> agrees rm ->
  exists rm', setParentRecursively fuel n p t rm = Ok rm' /\
              marked rm rm' (fun a => a = p \/ R a p = true).
Proof using R_trans R_anti R_bound.
  revert p rm. induction fuel as [|fuel IH]; intros p rm Hf Hp Ht Hpt Hnt Hag;
    [lia|]. simpl.
  destruct (mset_square n rm p t) as (rm1 & -> & Hs1 & Hm1);
    [apply Hag|done|done|]. simpl.
  assert (Hag1 : agrees rm1).
  { split; [done|]. intros a b Hb. rewrite Hm1, (proj2 Hag a b Hb).
    rewrite (proj2 (N.eqb_neq b t) Hb), andb_false_r. apply orb_false_r. }
  destruct (set_parent_loop (fun i rm' => setParentRecursively fuel n i t rm')
              p (codes n) rm1) as (rm2 & -> & Hm2); [done..| | |done|].
  { intros i. by rewrite elem_of_codes. }
  { intros i rm0 Hr Hne Hag0. apply IH; [|by eapply R_bound|done| | |done].
    - pose proof (strict_anc_decr i p Hr Hne). lia.
    - intros ->. congruence.
    - destruct (R t i) eqn:E; [|done]. rewrite <- Hnt. symmetry.
      by eapply R_trans. }
  exists rm2. split; [done|]. split; [apply Hm2|]. intros a b.
  rewrite (proj2 Hm2), Hm1, orb_true_iff, andb_true_iff, !N.eqb_eq.
  setoid_rewrite elem_of_codes. split.
  - intros [[?|[-> ->]]|[-> (i & Hi & Hr & Hne & [->|Ha])]]; eauto.
  - intros [?|[-> [->|Ha]]]; [eauto..|].
    destruct (decide (a = p)) as [->|]; [eauto|]. right. split; [done|].
    exists a. split_and!; [by eapply R_bound|done|done|by left].
Qed.
End set_parent.

(** ** The hierarchy as a graph

    [edge cs a b]: [b] was declared with parent [a] (or [a = b]). *)
Definition edge (cs : ClassServer) (a b : N) : Prop :=
  bm (inheritanceMap cs) a b = true.

(** The invariant of the class server: the matrices are square, the two name
    maps are inverse to each other and name every code, the hierarchy is
    acyclic apart from the self loops, and [recursiveMap] is the reflexive and
    transitive closure of [inheritanceMap]. *)
Record CS_wf (cs : ClassServer) : Prop := {
  wf_range : (nTypes cs < NOTYPE)%N;
  wf_inh : square (nTypes cs) (inheritanceMap cs);
  wf_rec : square (nTypes cs) (recursiveMap cs);
  wf_self : forall a, (a < nTypes cs)%N -> edge cs a a;
  wf_closure : forall a b, (a < nTypes cs)%N -> (b < nTypes cs)%N ->
    bm (recursiveMap cs) a b = true <-> rtc (edge cs) a b;
  wf_acyclic : forall a b, rtc (edge cs) a b -> rtc (edge cs) b a -> a = b;
  wf_names : forall s c,
    name2CodeMap cs !! s = Some c <-> code2NameMap cs !! c = Some s;
  wf_named : forall c, is_Some (code2NameMap cs !! c) <-> (c < nTypes cs)%N
}.

Lemma edge_bound cs a b :
  CS_wf cs -> edge cs a b -> (a < nTypes cs)%N /\ (b < nTypes cs)%N.
Proof.
  intros Hwf He. unfold edge in He.
  destruct (decide (nTypes cs <= a \/ nTypes cs <= b)%N) as [Ho|]; [|lia].
  rewrite (bm_out _ _ _ _ (wf_inh _ Hwf) Ho) in He. done.
Qed.

Lemma rtc_edge_bound cs a b :
  CS_wf cs -> rtc (edge cs) a b -> a = b \/ (a < nTypes cs)%N /\ (b < nTypes cs)%N.
Proof.
  intros Hwf H. induction H as [|a b c He _ IH]; [by left|].
  apply edge_bound in He; [|done]. destruct IH as [->|]; naive_solver.
Qed.

(** Adding one edge into a sink. *)
Lemma rtc_add_sink (E E' : N -> N -> Prop) p t :
  (forall b, E t b -> b = t) ->
  (forall a b, E' a b <-> E a b \/ a = p /\ b = t) ->
  p <> t ->
  forall a b, rtc E' a b <-> rtc E a b \/ b = t /\ rtc E a p.
Proof.
  intros Hsink HE Hpt a b.
  assert (Hm : forall x y, rtc E x y -> rtc E' x y).
  { intros x y H. eapply rtc_subrel; [|exact H]. intros ? ? ?. apply HE. by left. }
  split.
  - intros H. induction H as [a|a b c He _ IH]; [by left; apply rtc_refl|].
    apply HE in He as [He|[-> ->]].
    + destruct IH as [H|[-> H]]; [left|right; split; [done|]];
        by eapply rtc_l.
    + assert (c = t) as ->.
      { destruct IH as [H|[Hc _]]; [|done]. clear -H Hsink.
        remember t as x eqn:Ex in H. induction H as [|x y z Hxy _ IH]; [done|].
        subst x. apply IH. by apply Hsink. }
      right. split; [done|]. apply rtc_refl.
  - intros [H|[-> H]]; [by apply Hm|].
    eapply rtc_r; [by apply Hm|]. apply HE. by right.
Qed.

(** A type can receive a further parent when it is not an ancestor of that
    parent and has no descendants yet. *)
Definition is_leaf (cs : ClassServer) (t : N) : Prop :=
  forall b, edge cs t b -> b = t.

Definition addable (cs : ClassServer) (parent : N) (name : string) : Prop :=
  (parent < nTypes cs)%N /\
  match name2CodeMap cs !! name with
  | Some t => t <> parent /\ is_leaf cs t
  | None => (nTypes cs + 1 < NOTYPE)%N
  end.

(** ** Adding a parent to a leaf type keeps the invariant *)
Lemma rec_bound cs a b :
  CS_wf cs -> bm (recursiveMap cs) a b = true ->
  (a < nTypes cs)%N /\ (b < nTypes cs)%N.
Proof.
  intros Hwf H. destruct (decide (nTypes cs <= a \/ nTypes cs <= b)%N) as [Ho|];
    [|lia]. by rewrite (bm_out _ _ _ _ (wf_rec _ Hwf) Ho) in H.
Qed.

Lemma rec_trans cs : CS_wf cs -> forall a b c,
  bm (recursiveMap cs) a b = true -> bm (recursiveMap cs) b c = true ->
  bm (recursiveMap cs) a c = true.
Proof.
  intros Hwf a b c Hab Hbc.
  destruct (rec_bound _ _ _ Hwf Hab), (rec_bound _ _ _ Hwf Hbc).
  apply (wf_closure _ Hwf); [done..|]. trans b; by apply (wf_closure _ Hwf).
Qed.

Lemma rec_anti cs : CS_wf cs -> forall a b,
  bm (recursiveMap cs) a b = true -> bm (recursiveMap cs) b a = true -> a = b.
Proof.
  intros Hwf a b Hab Hba. destruct (rec_bound _ _ _ Hwf Hab).
  apply (wf_acyclic _ Hwf); by apply wf_closure.
Qed.

Lemma leaf_rtc cs t b : is_leaf cs t -> rtc (edge cs) t b -> b = t.
Proof.
  intros Hl H. remember t as x eqn:Ex in H.
  induction H as [|x y z Hxy _ IH]; [done|]. subst x. apply IH, Hl, Hxy.
Qed.

Lemma strict_anc_bound n (R : N -> N -> bool) p :
  length (strict_anc n R p) < S (N.to_nat n).
Proof.
  unfold strict_anc. pose proof (length_filter (fun i => R i p = true /\ i <> p)
    (codes n)) as H. unfold codes in H at 2. rewrite length_fmap, length_seq in H.
  lia.
Qed.

Lemma add_parent_wf cs p t sigs :
  CS_wf cs -> (p < nTypes cs)%N -> (t < nTypes cs)%N -> t <> p -> is_leaf cs t ->
  exists im rm,
    mset (inheritanceMap cs) p t = Ok im /\
    setParentRecursively (S (N.to_nat (nTypes cs))) (nTypes cs) p t
      (recursiveMap cs) = Ok rm /\
    (forall a b, bm im a b = true <-> edge cs a b \/ a = p /\ b = t) /\
    CS_wf (mkClassServer (nTypes cs) im rm (name2CodeMap cs)
             (code2NameMap cs) sigs).
Proof.
  intros Hwf Hp Ht Hne Hleaf.
  destruct (mset_square _ _ p t (wf_inh _ Hwf) Hp Ht) as (im & Him & Hsi & Hmi).
  assert (HE : forall a b, bm im a b = true <-> edge cs a b \/ a = p /\ b = t).
  { intros a b. unfold edge. rewrite Hmi, orb_true_iff, andb_true_iff, !N.eqb_eq.
    done. }
  assert (Htp : bm (recursiveMap cs) t p = false).
  { destruct (bm (recursiveMap cs) t p) eqn:E; [|done]. exfalso.
    apply wf_closure in E; [|done..]. apply Hne. symmetry. by eapply leaf_rtc. }
  destruct (setParentRecursively_ok (nTypes cs) t (bm (recursiveMap cs))
              (rec_trans _ Hwf) (rec_anti _ Hwf)
              (fun a b H => proj1 (rec_bound _ _ _ Hwf H))
              (S (N.to_nat (nTypes cs))) p (recursiveMap cs))
    as (rm & Hrm & Hsr & Hmr); [|done|done|done|done| |].
  { apply strict_anc_bound. }
  { split; [apply Hwf|done]. }
  exists im, rm. split_and!; [done..|].
  pose proof (rtc_add_sink (edge cs) (fun a b => bm im a b = true) p t Hleaf HE
                ltac:(congruence)) as Hrtc.
  split; simpl; try apply Hwf; try done.
  - intros a Ha. unfold edge. simpl. apply HE. left. by apply Hwf.
  - intros a b Ha Hb. change (edge (mkClassServer _ im _ _ _ _))
      with (fun a b => bm im a b = true). rewrite Hmr, Hrtc.
    rewrite (wf_closure _ Hwf a b Ha Hb). split.
    + intros [?|[-> [->|H]]]; [by left|right; split; [done|apply rtc_refl]|].
      right. split; [done|]. by apply wf_closure.
    + intros [?|[-> H]]; [by left|]. right. split; [done|]. right.
      by apply wf_closure.
  - intros a b. change (edge (mkClassServer _ im _ _ _ _))
      with (fun a b => bm im a b = true). rewrite !Hrtc.
    intros [H1|[-> H1]] [H2|[-> H2]]; [by apply (wf_acyclic _ Hwf)| | |done].
    + symmetry. by eapply leaf_rtc.
    + by eapply leaf_rtc.
Qed.

(** The state in which a new type has just been given its code, before it gets
    its parent. *)
Definition grow (cs : ClassServer) (name : string) (im rm : bmat) : ClassServer :=
  mkClassServer (nTypes cs + 1) im rm
    (<[name := nTypes cs]> (name2CodeMap cs))
    (<[nTypes cs := name]> (code2NameMap cs)) (addTypeSignals cs ++ [nTypes cs]).

Lemma grow_wf cs name :
  CS_wf cs -> name2CodeMap cs !! name = None -> (nTypes cs + 1 < NOTYPE)%N ->
  exists im rm,
    mset (mresize (nTypes cs + 1) (inheritanceMap cs)) (nTypes cs) (nTypes cs)
      = Ok im /\
    mset (mresize (nTypes cs + 1) (recursiveMap cs)) (nTypes cs) (nTypes cs)
      = Ok rm /\
    CS_wf (grow cs name im rm) /\
    forall a b, edge (grow cs name im rm) a b <->
                edge cs a b \/ a = nTypes cs /\ b = nTypes cs.
Proof.
  intros Hwf Hnew Hn. set (n := nTypes cs) in *.
  destruct (mresize_square (n + 1) n _ (wf_inh _ Hwf)) as [Hsi Hbi]; [lia|].
  destruct (mresize_square (n + 1) n _ (wf_rec _ Hwf)) as [Hsr Hbr]; [lia|].
  destruct (mset_square _ _ n n Hsi) as (im & Him & Hsi' & Hmi); [lia..|].
  destruct (mset_square _ _ n n Hsr) as (rm & Hrm & Hsr' & Hmr); [lia..|].
  exists im, rm. do 2 (split; [done|]).
  assert (HE : forall a b, edge (grow cs name im rm) a b <->
                           edge cs a b \/ a = n /\ b = n).
  { intros a b. unfold edge. simpl.
    rewrite Hmi, Hbi, orb_true_iff, andb_true_iff, !N.eqb_eq. done. }
  assert (Hrtc : forall a b, rtc (edge (grow cs name im rm)) a b <->
                             rtc (edge cs) a b).
  { intros a b. split; intros H; induction H as [|x y z Hxy _ IH];
      try apply rtc_refl.
    - apply HE in Hxy as [?|[-> ->]]; [by eapply rtc_l|done].
    - eapply rtc_l; [|done]. apply HE. by left. }
  split; [|done]. split; simpl; try done.
  - intros a Ha. apply HE. destruct (decide (a = n)); [by right|left].
    apply Hwf. lia.
  - intros a b Ha Hb. rewrite Hrtc, Hmr, Hbr, orb_true_iff, andb_true_iff, !N.eqb_eq.
    split.
    + intros [H|[-> ->]]; [|apply rtc_refl].
      destruct (rec_bound _ _ _ Hwf H). by apply wf_closure.
    + intros H. destruct (rtc_edge_bound _ _ _ Hwf H) as [->|[Ha' Hb']].
      * destruct (decide (b = n)); [by right|left].
        apply wf_closure; [done|unfold n in *; lia..|apply rtc_refl].
      * left. by apply wf_closure.
  - intros a b. rewrite !Hrtc. apply Hwf.
  - intros s c. fold n. pose proof (wf_named _ Hwf n) as Hcn.
    rewrite !lookup_insert.
    destruct (decide (name = s)) as [<-|Hs], (decide (n = c)) as [<-|Hc].
    + split; congruence.
    + split; [congruence|]. intros H%(wf_names _ Hwf). congruence.
    + split; [|congruence]. intros H%(wf_names _ Hwf).
      assert (is_Some (code2NameMap cs !! n)) as ?%Hcn by eauto. unfold n in *; lia.
    + apply (wf_names _ Hwf).
  - intros c. fold n. rewrite lookup_insert. case_decide.
    + split; [intros _; lia|eauto].
    + rewrite (wf_named _ Hwf). fold n. lia.
Qed.

(** ** Properties of the class server *)
Section properties.
Implicit Types (cs : ClassServer) (parent : N) (name : string).

Lemma getType_known cs name t :
  CS_wf cs -> name2CodeMap cs !! name = Some t ->
  getType cs name = t /\ (t < nTypes cs)%N /\ t <> NOTYPE.
Proof.
  intros Hwf H. unfold getType. rewrite H. split; [done|].
  assert (Ht : (t < nTypes cs)%N).
  { apply (wf_named _ Hwf). exists name. by apply (wf_names _ Hwf). }
  pose proof (wf_range _ Hwf). split; [done|]. lia.
Qed.

Lemma addType_ok cs parent name :
  CS_wf cs -> addable cs parent name ->
  exists t cs', addType parent name cs = Ok (t, cs') /\ CS_wf cs' /\
    t = default (nTypes cs) (name2CodeMap cs !! name) /\
    name2CodeMap cs' = <[name := t]> (name2CodeMap cs) /\
    nTypes cs' = match name2CodeMap cs !! name with
                 | Some _ => nTypes cs | None => nTypes cs + 1 end%N /\
    forall a b, edge cs' a b <->
      edge cs a b \/ (a = parent /\ b = t) \/ (a = t /\ b = t).
Proof.
  intros Hwf [Hp Hadd]. unfold addType.
  destruct (name2CodeMap cs !! name) as [t|] eqn:Hname.
  - destruct (getType_known _ _ _ Hwf Hname) as (-> & Ht & Hnt).
    rewrite (proj2 (N.eqb_neq _ _) Hnt). simpl. destruct Hadd as [Hne Hleaf].
    destruct (add_parent_wf cs parent t (addTypeSignals cs) Hwf Hp Ht Hne Hleaf)
      as (im & rm & -> & Hrm & HE & Hwf').
    simpl in *. rewrite Hrm. simpl. eexists _, _.
    split; [done|]. split; [done|]. simpl. split; [done|].
    rewrite insert_id by done. split; [done|]. split; [done|]. intros a b. unfold edge at 1. simpl.
    rewrite HE. split; [tauto|]. intros [?|[?|[-> ->]]]; [tauto..|].
    left. by apply (wf_self _ Hwf).
  - unfold getType. rewrite Hname. simpl. unfold wrap16.
    rewrite N.mod_small by (unfold NOTYPE in Hadd; lia).
    destruct (grow_wf cs name Hwf Hname Hadd) as (im & rm & -> & -> & Hwf0 & HE0).
    simpl. destruct (add_parent_wf _ parent (nTypes cs)
      (addTypeSignals cs ++ [nTypes cs]) Hwf0) as (im' & rm' & Him' & Hrm' & HE & Hwf').
    { simpl. lia. } { simpl. lia. } { lia. }
    { intros b [Hb|[_ ->]]%HE0; [|done].
      destruct (edge_bound _ _ _ Hwf Hb). lia. }
    simpl in *. rewrite Him'. simpl. rewrite Hrm'. simpl. eexists _, _.
    split; [done|]. split; [done|]. simpl. split; [done|]. split; [done|].
    split; [done|].
    intros a b. unfold edge at 1. simpl. rewrite HE, HE0. tauto.
Qed.

(** C32. Declaring a type is total and correct: on a well-formed class server,
    [addType] with an existing parent and a name that is new, or that names a
    type without descendants (a second parent), returns the code of that name
    without undefined behaviour or endless recursion, adds exactly that edge
    to the hierarchy, and re-establishes the invariant -- so that
    [recursiveMap] is again the reflexive and transitive closure. *)
Theorem addType_correct cs parent name :
  CS_wf cs -> addable cs parent name ->
  exists cs', addType parent name cs = Ok (getType cs' name, cs') /\ CS_wf cs' /\
    forall a b, edge cs' a b <->
      edge cs a b \/ b = getType cs' name /\ (a = parent \/ a = b).
Proof.
  intros Hwf Ha. destruct (addType_ok _ _ _ Hwf Ha) as (t & cs' & H & Hwf' & _ & Hn & _ & HE).
  assert (Ht : getType cs' name = t).
  { unfold getType. by rewrite Hn, lookup_insert_eq. }
  exists cs'. rewrite Ht. split; [done|]. split; [done|].
  intros a b. rewrite HE. naive_solver.
Qed.

(** [isA] on a well-formed class server reads the hierarchy; codes that are not
    types are related to nothing. *)
Lemma isA_wf cs sub super :
  CS_wf cs ->
  exists b, isA cs sub super = Ok b /\
    (b = true <-> (sub < nTypes cs)%N /\ (super < nTypes cs)%N /\
                  rtc (edge cs) super sub).
Proof.
  intros Hwf. unfold isA.
  destruct ((nTypes cs <=? sub) || (nTypes cs <=? super))%N eqn:E.
  - exists false. split; [done|]. split; [done|].
    apply orb_true_iff in E as [E%N.leb_le|E%N.leb_le]; lia.
  - apply orb_false_iff in E as [Hs%N.leb_gt Hp%N.leb_gt].
    rewrite (mget_square _ _ _ _ (wf_rec _ Hwf)) by done.
    eexists. split; [done|]. rewrite (wf_closure _ Hwf) by done. naive_solver.
Qed.

(** Names and codes: after declaring a new name, [getType] and
    [getTypeName] are inverse on it, [isDefined] holds, and every other name
    and code keeps its meaning. *)
Theorem addType_names cs parent name :
  CS_wf cs -> addable cs parent name -> name2CodeMap cs !! name = None ->
  exists cs', addType parent name cs = Ok (nTypes cs, cs') /\
    getType cs' name = nTypes cs /\ getTypeName cs' (nTypes cs) = name /\
    isDefined cs' name = true /\ getNumberOfClasses cs' = (nTypes cs + 1)%N /\
    (forall s, s <> name -> getType cs' s = getType cs s) /\
    (forall c, c <> nTypes cs -> getTypeName cs' c = getTypeName cs c).
Proof.
  intros Hwf Ha Hnew.
  destruct (addType_ok _ _ _ Hwf Ha) as (t & cs' & H & Hwf' & Ht & Hm & Hn & _).
  rewrite Hnew in Ht. simpl in Ht. subst t. exists cs'. split; [done|].
  rewrite Hnew in Hn.
  pose proof (wf_names _ Hwf') as Hinv. unfold getType, getTypeName, isDefined.
  assert (Hc : code2NameMap cs' !! nTypes cs = Some name).
  { apply Hinv. by rewrite Hm, lookup_insert_eq. }
  rewrite Hc, Hm, lookup_insert_eq. split_and!; [done..| |].
  - intros s Hs. by rewrite lookup_insert_ne.
  - intros c Hcn. f_equal. apply option_eq. intros s.
    rewrite <- Hinv, <- (wf_names _ Hwf), Hm, lookup_insert.
    case_decide as Hd; [|done]. subst s. rewrite Hnew. split; congruence.
Qed.

(** A list of declarations [(parent, name)] is in a good order when every
    parent is already declared, and no name gets a further parent once it has
    been used as a parent itself. *)
Fixpoint decls_ok (known used : gset string) (l : list (string * string)) : bool :=
  match l with
  | [] => true
  | (p, c) :: l' =>
      bool_decide (p ∈ known) && bool_decide (c ∉ used) &&
      bool_decide (c <> p) && decls_ok ({[c]} ∪ known) ({[p]} ∪ used) l'
  end.

(** The declarations [l] as a relation between names. *)
Definition declared (l : list (string * string)) (p c : string) : Prop := (p, c) ∈ l.

(** The names of a class server are those of [names], and its hierarchy has the
    declarations of [l] and nothing else. *)
Record declares cs (names : gset string) (l : list (string * string)) : Prop := {
  dc_wf : CS_wf cs;
  dc_names : forall s, is_Some (name2CodeMap cs !! s) <-> s ∈ names;
  dc_closed : forall p c, declared l p c -> p ∈ names /\ c ∈ names;
  dc_edge : forall s1 s2 a b, name2CodeMap cs !! s1 = Some a -> name2CodeMap cs !! s2 = Some b ->
    edge cs a b <-> declared l s1 s2 \/ s1 = s2
}.

Lemma code_inj cs s1 s2 c :
  CS_wf cs -> name2CodeMap cs !! s1 = Some c -> name2CodeMap cs !! s2 = Some c -> s1 = s2.
Proof. intros Hwf H1%(wf_names _ Hwf) H2%(wf_names _ Hwf). congruence. Qed.

Lemma code_name cs names l a :
  declares cs names l -> (a < nTypes cs)%N -> exists s, name2CodeMap cs !! s = Some a.
Proof.
  intros Hd Ha. apply (wf_named _ (dc_wf _ _ _ Hd)) in Ha as [s Hs]. exists s.
  by apply (wf_names _ (dc_wf _ _ _ Hd)).
Qed.

(** Chains of codes are chains of names. *)
Lemma declares_rtc cs names l s1 s2 a b :
  declares cs names l -> name2CodeMap cs !! s1 = Some a -> name2CodeMap cs !! s2 = Some b ->
  rtc (edge cs) a b <-> rtc (declared l) s1 s2.
Proof.
  intros Hd H1 H2. pose proof (dc_wf _ _ _ Hd) as Hwf. split; intros H.
  - revert s1 H1. induction H as [a|a x b Hax _ IH]; intros s1 H1.
    { rewrite (code_inj cs s1 s2 a Hwf H1 H2). apply rtc_refl. }
    destruct (edge_bound _ _ _ Hwf Hax) as [_ Hx]. destruct (code_name _ _ _ x Hd Hx) as [s Hs].
    specialize (IH H2 s Hs). destruct (proj1 (dc_edge _ _ _ Hd s1 s a x H1 Hs) Hax) as [Hl|Heq]; [by eapply rtc_l|by subst].
  - revert a H1. induction H as [u|u v w Huv _ IH]; intros a H1.
    { replace b with a by congruence. apply rtc_refl. }
    destruct (proj2 (dc_names _ _ _ Hd v) (proj2 (dc_closed _ _ _ Hd _ _ Huv))) as [x Hx].
    apply (rtc_l _ _ x); [|by apply IH]. apply (dc_edge _ _ _ Hd u v a x H1 Hx). by left.
Qed.

(** One more declaration. *)
Lemma declares_add cs names l p c tp :
  declares cs names l -> name2CodeMap cs !! p = Some tp -> addable cs tp c ->
  exists t cs', addType tp c cs = Ok (t, cs') /\ declares cs' ({[c]} ∪ names) (l ++ [(p, c)]) /\
    nTypes cs' = match name2CodeMap cs !! c with Some _ => nTypes cs | None => nTypes cs + 1 end%N.
Proof.
  intros Hd Hp Hadd. pose proof (dc_wf _ _ _ Hd) as Hwf.
  destruct (addType_ok _ _ _ Hwf Hadd) as (t & cs' & Ha & Hwf' & Ht & Hnm & Hn & HE).
  exists t, cs'. split; [done|]. split; [|done].
  assert (Hpn : p ∈ names) by (apply (dc_names _ _ _ Hd); eauto).
  assert (Hct : name2CodeMap cs' !! c = Some t) by (by rewrite Hnm, lookup_insert_eq).
  assert (Hold : forall s a, name2CodeMap cs !! s = Some a -> name2CodeMap cs' !! s = Some a).
  { intros s a Hs. rewrite Hnm, lookup_insert. case_decide as Hcs; [|done]. subst s. by rewrite Ht, Hs. }
  assert (Hnew : forall s a, name2CodeMap cs' !! s = Some a -> s = c /\ a = t \/ name2CodeMap cs !! s = Some a).
  { intros s a. rewrite Hnm, lookup_insert. case_decide; [intros [= ->]; by left|by right]. }
  split; [done|..].
  - intros s. rewrite Hnm, lookup_insert, elem_of_union, elem_of_singleton, <- (dc_names _ _ _ Hd).
    case_decide; naive_solver.
  - intros q d [Hq|[= -> ->]%list_elem_of_singleton]%elem_of_app; [|set_solver].
    destruct (dc_closed _ _ _ Hd q d Hq). set_solver.
  - intros s1 s2 a b H1 H2. rewrite HE. unfold declared. rewrite elem_of_app, list_elem_of_singleton. split.
    + intros [He|[[-> ->]|[-> ->]]].
      * destruct (edge_bound _ _ _ Hwf He) as [Hba Hbb].
        destruct (code_name _ _ _ a Hd Hba) as [n1 Hn1], (code_name _ _ _ b Hd Hbb) as [n2 Hn2].
        rewrite (code_inj cs' s1 n1 a Hwf' H1 (Hold _ _ Hn1)), (code_inj cs' s2 n2 b Hwf' H2 (Hold _ _ Hn2)).
        destruct (proj1 (dc_edge _ _ _ Hd n1 n2 a b Hn1 Hn2) He) as [?|?]; [by left; left|by right].
      * left. right. by rewrite (code_inj cs' s1 p tp Hwf' H1 (Hold _ _ Hp)), (code_inj cs' s2 c t Hwf' H2 Hct).
      * right. by apply (code_inj cs' s1 s2 t).
    + intros [[Hl|[= -> ->]]| ->].
      * destruct (dc_closed _ _ _ Hd _ _ Hl) as [[a' Ha']%(dc_names _ _ _ Hd) [b' Hb']%(dc_names _ _ _ Hd)].
        pose proof (Hold _ _ Ha'). pose proof (Hold _ _ Hb'). simplify_eq. left.
        apply (dc_edge _ _ _ Hd s1 s2 a b Ha' Hb'). by left.
      * right. left. pose proof (Hold _ _ Hp). split; congruence.
      * replace b with a by congruence. destruct (Hnew s2 a H1) as [[_ ->]|Ho]; [by right; right|].
        left. apply (dc_edge _ _ _ Hd s2 s2 a a Ho Ho). by right.
Qed.

Lemma declare_all_declares l : forall cs names used l0,
  declares cs names l0 ->
  (forall p c, declared l0 p c -> p <> c -> p ∈ used) ->
  (nTypes cs + N.of_nat (length l) < NOTYPE)%N ->
  decls_ok names used l = true ->
  exists cs', declare_all l cs = Ok cs' /\ declares cs' (names ∪ list_to_set (snd <$> l)) (l0 ++ l).
Proof.
  induction l as [|[p c] l IH]; intros cs names used l0 Hd Hu Hn Hok; simpl in *.
  { exists cs. split; [done|]. rewrite app_nil_r. by rewrite union_empty_r_L. }
  rewrite !andb_true_iff, !bool_decide_eq_true in Hok. destruct Hok as [[[Hp Hc] Hcp] Hok].
  pose proof (dc_wf _ _ _ Hd) as Hwf. apply (dc_names _ _ _ Hd) in Hp as [tp Htp].
  destruct (getType_known _ _ _ Hwf Htp) as (Hgp & Htpn & _).
  assert (Hadd : addable cs tp c).
  { split; [done|]. destruct (name2CodeMap cs !! c) as [t|] eqn:Ec; [|lia].
    split; [intros ->; by apply Hcp, (code_inj cs _ _ tp)|]. intros b Hb.
    destruct (edge_bound _ _ _ Hwf Hb) as [_ Hbb]. destruct (code_name _ _ _ b Hd Hbb) as [s Hs].
    destruct (proj1 (dc_edge _ _ _ Hd c s t b Ec Hs) Hb) as [Hl| <-]; [|congruence].
    destruct (decide (c = s)) as [->|Hne]; [congruence|]. by destruct Hc; apply (Hu c s). }
  destruct (declares_add cs names l0 p c tp Hd Htp Hadd) as (t & cs1 & E1 & Hd1 & Hn1).
  destruct (IH cs1 _ ({[p]} ∪ used) _ Hd1) as (cs2 & E2 & Hd2); [|case_match; lia|exact Hok|].
  { intros q d [Hq|[= -> ->]%list_elem_of_singleton]%elem_of_app Hne; [|set_solver].
    apply elem_of_union_r. by apply (Hu q d). }
  exists cs2. rewrite Hgp, E1. simpl. split; [done|]. rewrite <- app_assoc in Hd2.
  by rewrite (assoc_L (∪)), (comm_L (∪) names {[c]}).
Qed.
End properties.

(** ** The constructor, and what lies outside its declaration order *)
#[local] Open Scope string_scope.

Definition base_cs : ClassServer :=
  mkClassServer 1 [[true]] [[true]] {["Atom" := 0%N]} {[0%N := "Atom"]} [0%N].

Lemma base_cs_eq : addType 0 "Atom" ClassServer_empty = Ok (0%N, base_cs).
Proof. reflexivity. Qed.

Lemma base_edge a b : edge base_cs a b <-> a = 0%N /\ b = 0%N.
Proof.
  unfold edge, bm. simpl. split; [|by intros [-> ->]].
  destruct (N.to_nat a) as [|[]] eqn:Ea; simpl; try done.
  destruct (N.to_nat b) as [|[]] eqn:Eb; simpl; try done. lia.
Qed.

Lemma base_wf : CS_wf base_cs.
Proof.
  assert (Hrtc : forall a b, rtc (edge base_cs) a b -> a = b).
  { intros a b H. induction H as [|a b c [-> ->]%base_edge _ IH]; done. }
  split.
  - done.
  - by repeat constructor.
  - by repeat constructor.
  - intros a Ha. apply base_edge. simpl in Ha. lia.
  - intros a b Ha Hb. simpl in Ha, Hb. replace a with 0%N by lia.
    replace b with 0%N by lia. split; [intros _; apply rtc_refl|done].
  - intros a b H _. by apply Hrtc.
  - intros s c. simpl. rewrite !lookup_singleton. repeat case_decide; naive_solver.
  - intros c. simpl. rewrite lookup_singleton. case_decide.
    + split; [intros _; lia|eauto].
    + split; [by intros [? ?]|lia].
Qed.

Lemma base_declares : declares base_cs {["Atom"]} [].
Proof.
  split; [apply base_wf|..].
  - intros s. simpl. rewrite lookup_singleton, elem_of_singleton. case_decide; naive_solver.
  - intros p c H. by apply not_elem_of_nil in H.
  - intros s1 s2 a b. simpl. rewrite !lookup_singleton, base_edge. repeat case_decide; try done.
    intros [= <-] [= <-]. subst. split; [by right|done].
Qed.

(** The class server after [addType(ATOM, "Atom")] and the declarations [l]; the
    constructor is [class_server atom_types_inheritance]. *)
Definition class_server (l : list (string * string)) : res ClassServer :=
  '(_, cs) ← addType 0 "Atom" ClassServer_empty; declare_all l cs.

(** C31. [isA] decides the declared hierarchy: after any declarations in which
    every parent is declared before, no type gets a further parent once it is
    a parent itself, and that leave the codes in range, no call fails, and [isA]
    of the codes of two names says whether the first one is declared and a
    chain of declarations leads from the second one down to it. The constructor
    makes such declarations. *)
Theorem isA_correct l sub super :
  decls_ok {["Atom"]} ∅ l = true -> (N.of_nat (length l) + 1 < NOTYPE)%N ->
  exists cs b, class_server l = Ok cs /\ isA cs (getType cs sub) (getType cs super) = Ok b /\
    (b = true <-> (sub = "Atom" \/ exists p, (p, sub) ∈ l) /\ rtc (declared l) super sub).
Proof.
  intros Hok Hn. unfold class_server. rewrite base_cs_eq. cbn [mbind res_bind].
  destruct (declare_all_declares l base_cs _ ∅ [] base_declares) as (cs & -> & Hd); [|simpl; lia|done|].
  { intros p c H. by apply not_elem_of_nil in H. }
  pose proof (dc_wf _ _ _ Hd) as Hwf. simpl in Hd.
  assert (Hknown : forall s, (getType cs s < nTypes cs)%N -> name2CodeMap cs !! s = Some (getType cs s)).
  { intros s Hs. pose proof (wf_range _ Hwf). unfold getType in *. destruct (name2CodeMap cs !! s); simpl in *; [done|lia]. }
  assert (Hbound : forall s, s ∈ ({["Atom"]} ∪ list_to_set (snd <$> l) : gset string) -> (getType cs s < nTypes cs)%N).
  { intros s [c Hc]%(dc_names _ _ _ Hd). by destruct (getType_known _ _ _ Hwf Hc) as (-> & ? & _). }
  assert (Hin : forall s, s ∈ ({["Atom"]} ∪ list_to_set (snd <$> l) : gset string) <-> s = "Atom" \/ exists p, (p, s) ∈ l).
  { intros s. rewrite elem_of_union, elem_of_singleton, elem_of_list_to_set, list_elem_of_fmap.
    split; (intros [?|Hs]; [by left|right]); [destruct Hs as ([p c] & -> & Hp); by exists p|].
    destruct Hs as [p Hp]. by exists (p, s). }
  destruct (isA_wf cs (getType cs sub) (getType cs super) Hwf) as (b & Eb & Hb).
  exists cs, b. split; [done|]. split; [done|]. rewrite Hb, <- Hin. split.
  - intros (Hs & Hp & H). split; [apply (dc_names _ _ _ Hd); eauto|].
    by apply (declares_rtc cs _ l super sub _ _ Hd (Hknown _ Hp) (Hknown _ Hs)).
  - intros [Hs H]. assert (Hp : super ∈ ({["Atom"]} ∪ list_to_set (snd <$> l) : gset string)).
    { inversion H as [|? x ? Hx]; subst; [done|]. by apply (dc_closed _ _ _ Hd super x). }
    split; [by apply Hbound|]. split; [by apply Hbound|].
    by apply (declares_rtc cs _ l super sub _ _ Hd (Hknown _ (Hbound _ Hp)) (Hknown _ (Hbound _ Hs))).
Qed.

(** The constructor: the declarations of atom_types.inheritance are in a
    good order, so building the class server succeeds and leaves it well-formed:
    [isA] then decides the declared inheritance of the built-in atom types. *)
Theorem ClassServer_new_wf :
  exists cs, ClassServer_new = Ok cs /\ CS_wf cs.
Proof.
  unfold ClassServer_new. rewrite base_cs_eq.
  change (exists cs, declare_all atom_types_inheritance base_cs = Ok cs /\ CS_wf cs).
  destruct (declare_all_declares atom_types_inheritance base_cs _ ∅ [] base_declares) as (cs & E & Hd).
  - intros p c H. by apply not_elem_of_nil in H.
  - done.
  - vm_compute. reflexivity.
  - exists cs. split; [done|apply Hd].
Qed.

Definition late_parent : res ClassServer :=
  declare_all [("Atom", "B"); ("B", "C"); ("Atom", "P"); ("P", "B")] base_cs.

(** A parent declared late is lost for the descendants: with a hierarchy
    Atom > B > C, declaring the further parent P for B makes B a P, but [isA]
    denies that C is a P although C descends from P: [setParentRecursively]
    updates only the column of the type itself. *)
Theorem late_parent_not_inherited :
  exists cs, late_parent = Ok cs /\
    isA cs (getType cs "B") (getType cs "P") = Ok true /\
    isA cs (getType cs "C") (getType cs "B") = Ok true /\
    isA cs (getType cs "C") (getType cs "P") = Ok false /\
    rtc (edge cs) (getType cs "P") (getType cs "C").
Proof.
  destruct late_parent as [cs| | |] eqn:E; vm_compute in E; try discriminate E.
  injection E as <-. eexists. split; [reflexivity|].
  do 3 (split; [vm_compute; reflexivity|]).
  eapply (rtc_l _ _ 1%N); [vm_compute; reflexivity|].
  eapply (rtc_l _ _ 2%N); [vm_compute; reflexivity|].
  vm_compute. apply rtc_refl.
Qed.

Definition cyclic_base : ClassServer :=
  let m := [[true; true]; [false; true]] in
  mkClassServer 2 m m (<["B" := 1%N]> (name2CodeMap base_cs))
    (<[1%N := "B"]> (code2NameMap base_cs)) [0%N; 1%N].

(** A cyclic declaration does not return: with B below Atom, declaring B
    as a parent of Atom recurses for ever, whatever fuel the recursion is
    given. *)
Theorem cyclic_parent_diverges :
  declare_all [("Atom", "B")] base_cs = Ok cyclic_base /\
  getType cyclic_base "Atom" = 0%N /\ getType cyclic_base "B" = 1%N /\
  forall fuel, setParentRecursively fuel (nTypes cyclic_base) 1 0
                 (recursiveMap cyclic_base) = Fuel.
Proof.
  split; [reflexivity|]. do 2 (split; [reflexivity|]). intros fuel. simpl.
  (* both entries of the cycle, from the two matrices that can occur *)
  set (full := [[true; true]; [true; true]]).
  assert (Hfull : forall f,
    setParentRecursively f 2 0 0 full = Fuel /\
    setParentRecursively f 2 1 0 full = Fuel).
  { induction f as [|f [IH0 IH1]]; [done|]. split; simpl.
    - change (N.of_nat 1) with 1%N. fold full. by rewrite IH1.
    - change (N.of_nat 0) with 0%N. fold full. by rewrite IH0. }
  destruct fuel as [|f]; [done|]. simpl. change (N.of_nat 0) with 0%N.
  fold full. by rewrite (proj1 (Hfull f)).
Qed.
(** ** Witnesses *)
Lemma base_addable : addable base_cs 0 "Node"%string.
Proof. split; [done|]. vm_compute. reflexivity. Qed.

Lemma addType_correct_witness :
  exists cs', addType 0 "Node"%string base_cs = Ok (getType cs' "Node"%string, cs')
              /\ CS_wf cs'.
Proof.
  destruct (addType_correct base_cs 0 "Node"%string base_wf base_addable)
    as (cs' & H & Hwf & _).
  exists cs'. split; [exact H|exact Hwf].
Defined.

Definition node_types : list (string * string) :=
  [("Atom", "Node"); ("Atom", "Link"); ("Node", "ProcedureNode"); ("ProcedureNode", "GroundedProcedureNode");
   ("ProcedureNode", "SchemaNode"); ("SchemaNode", "GroundedSchemaNode");
   ("GroundedProcedureNode", "GroundedSchemaNode")].

Lemma isA_correct_witness :
  (exists cs, class_server node_types = Ok cs /\
     isA cs (getType cs "GroundedSchemaNode") (getType cs "Node") = Ok true) /\
  rtc (declared node_types) "Node" "GroundedSchemaNode" /\
  ~ rtc (declared node_types) "Link" "GroundedSchemaNode".
Proof.
  destruct (isA_correct node_types "GroundedSchemaNode" "Node") as (cs & b & E & Eb & Hb);
    [vm_compute; reflexivity|vm_compute; reflexivity|].
  destruct (isA_correct node_types "GroundedSchemaNode" "Link") as (cs' & b' & E' & Eb' & Hb');
    [vm_compute; reflexivity|vm_compute; reflexivity|].
  vm_compute in E, E'. injection E as <-. injection E' as <-.
  vm_compute in Eb, Eb'. injection Eb as <-. injection Eb' as <-.
  split; [eexists; split; vm_compute; reflexivity|]. split; [by apply Hb|].
  intros H. assert (false = true) as Hft; [|discriminate Hft]. apply Hb'. split; [|exact H].
  right. exists "SchemaNode". apply (bool_decide_unpack _). vm_compute. exact I.
Defined.

Lemma addType_names_witness :
  exists cs', addType 0 "Node"%string base_cs = Ok (1%N, cs') /\
              getTypeName cs' 1 = "Node"%string.
Proof.
  destruct (addType_names base_cs 0 "Node"%string base_wf base_addable eq_refl)
    as (cs' & H & _ & Hn & _).
  exists cs'. split; [exact H|exact Hn].
Defined.
#[local] Close Scope string_scope.
