(* ===== verification/TruthValue.v ===== *)
(** Truth values: src/opencog/atomspace/TruthValue.cc, SimpleTruthValue.cc,
    CountTruthValue.cc, NullTruthValue.cc, IndefiniteTruthValue.cc,
    CompositeTruthValue.cc and VersionHandle.cc.

    [float] is IEEE 754 binary32 and [double] binary64, computed with the
    Standard Library's [SpecFloat]. A truth value is immutable data here; the
    setters return the new value. *)
From Stdlib Require Import SpecFloat.
From S2P Require Import Prelude.

(** ** Floating point *)
Abbreviation float := spec_float (only parsing).

Definition f32_add : float -> float -> float := SFadd 24 128.
Definition f32_sub : float -> float -> float := SFsub 24 128.
Definition f32_mul : float -> float -> float := SFmul 24 128.
Definition f32_div : float -> float -> float := SFdiv 24 128.
Definition f64_add : float -> float -> float := SFadd 53 1024.
Definition f64_sub : float -> float -> float := SFsub 53 1024.
Definition f64_mul : float -> float -> float := SFmul 53 1024.
Definition f64_div : float -> float -> float := SFdiv 53 1024.

Definition fconv (prec emax : Z) (x : float) : float :=
  match x with
  | S754_finite s m e =>
      binary_normalize prec emax (if s then Zneg m else Zpos m) e s
  | _ => x
  end.
(** Promotion to [double] and [static_cast<float>]. *)
Definition to_double : float -> float := fconv 53 1024.
Definition to_float : float -> float := fconv 24 128.

Definition f32_of_Z (z : Z) : float := binary_normalize 24 128 z 0 (z <? 0)%Z.
Definition f64_of_Z (z : Z) : float := binary_normalize 53 1024 z 0 (z <? 0)%Z.

Definition flt (x y : float) : bool := SFltb x y.
Definition fgt (x y : float) : bool := SFltb y x.
Definition feq (x y : float) : bool := SFeqb x y.

#[export] Instance float_eq_dec : EqDecision spec_float.
Proof. solve_decision. Defined.

Definition f0 : float := S754_zero false.
Definition fm1 : float := f32_of_Z (-1).

Lemma SFcompare_swap x y :
  SFcompare y x = match SFcompare x y with Some c => Some (CompOpp c) | None => None end.
Proof.
  destruct x as [[]|[]| |[] mx ex], y as [[]|[]| |[] my ey]; simpl; try done;
    rewrite (Z.compare_antisym ex ey); destruct (ex ?= ey)%Z; simpl; try done;
    rewrite Pos.compare_cont_antisym; simpl;
    destruct (Pos.compare_cont Eq mx my); done.
Qed.

Lemma flt_asym x y : flt x y = true -> flt y x = false.
Proof.
  unfold flt, SFltb. rewrite (SFcompare_swap x y).
  by destruct (SFcompare x y) as [[]|].
Qed.

Lemma flt_irrefl x : flt x x = false.
Proof. destruct (flt x x) eqn:E; [|done]. rewrite <- E. by apply flt_asym. Qed.

(** ** Version handles *)
Inductive IndicatorType : Set := HYPOTHETICAL | CONTEXTUAL | UNKNOWN.

Record VersionHandle : Set := mkVH { indicator : IndicatorType; substantive : Handle }.

#[export] Instance IndicatorType_eq_dec : EqDecision IndicatorType.
Proof. solve_decision. Defined.
#[export] Instance VersionHandle_eq_dec : EqDecision VersionHandle.
Proof. solve_decision. Defined.

Definition NULL_VERSION_HANDLE : VersionHandle := mkVH UNKNOWN UNDEFINED.

Definition eqVersionHandle (vh1 vh2 : VersionHandle) : bool :=
  bool_decide (indicator vh1 = indicator vh2) &&
  (substantive vh1 =? substantive vh2)%N.

(** The integer value of an indicator, as in the C++ enumeration. *)
Definition indicator_code (i : IndicatorType) : Z :=
  match i with HYPOTHETICAL => 1 | CONTEXTUAL => 2 | UNKNOWN => 3 end.

#[local] Open Scope string_scope.
(** The [default] branch is the one of an integer that is no enumerator. *)
Definition indicatorToStr (i : Z) : res string :=
  match i with
  | 1%Z => Ok "HYPOTHETICAL"
  | 2%Z => Ok "CONTEXTUAL"
  | 3%Z => Ok "UNKNOWN"
  | _ => Throw InvalidParamException
  end.

(** [for (int i = HYPOTHETICAL; i <= UNKNOWN; i++)], in a list of the values. *)
Fixpoint strToIndicator_loop (l : list Z) (s : string) : res Z :=
  match l with
  | [] => Throw InvalidParamException
  | i :: l' =>
      n ← indicatorToStr i;
      if bool_decide (n = s) then Ok i else strToIndicator_loop l' s
  end.
Definition strToIndicator (s : string) : res Z :=
  strToIndicator_loop [1; 2; 3]%Z s.

(** The truth value types, [SIMPLE_TRUTH_VALUE = 1] to
    [NUMBER_OF_TRUTH_VALUE_TYPES = 5]. *)
Definition SIMPLE_TRUTH_VALUE : Z := 1.
Definition COUNT_TRUTH_VALUE : Z := 2.
Definition INDEFINITE_TRUTH_VALUE : Z := 3.
Definition COMPOSITE_TRUTH_VALUE : Z := 4.
Definition NUMBER_OF_TRUTH_VALUE_TYPES : Z := 5.

Definition typeToStr (t : Z) : res string :=
  match t with
  | 1%Z => Ok "SIMPLE_TRUTH_VALUE"
  | 2%Z => Ok "COUNT_TRUTH_VALUE"
  | 3%Z => Ok "INDEFINITE_TRUTH_VALUE"
  | 4%Z => Ok "COMPOSITE_TRUTH_VALUE"
  | _ => Throw InvalidParamException
  end.

Fixpoint strToType_loop (fuel : nat) (t : Z) (str : string) : res Z :=
  match fuel with
  | O => Fuel
  | S fuel' =>
      if (t =? NUMBER_OF_TRUTH_VALUE_TYPES)%Z then Throw InvalidParamException
      else
        n ← typeToStr t;
        if bool_decide (str = n) then Ok t else strToType_loop fuel' (t + 1) str
  end.
Definition strToType (str : string) : res Z := strToType_loop 5 SIMPLE_TRUTH_VALUE str.
#[local] Close Scope string_scope.

(** ** The classes *)

(** An [IndefiniteTruthValue]; [diff], [mean], [count] and [confidence] are
    caches that are out of date while negative. The first order distribution
    is a vector of pointers. *)
Record Indefinite : Set := mkITV {
  itv_U : float; itv_L : float; itv_confidenceLevel : float;
  itv_symmetric : bool; itv_diff : float;
  itv_mean : float; itv_count : float; itv_confidence : float;
  itv_firstOrderDistribution : list N
}.

Unset Elimination Schemes.
Inductive TruthValue : Set :=
  | NullTV
  | SimpleTV (mean count : float)
  | CountTV (mean confidence count : float)
  | IndefiniteTV (i : Indefinite)
  | CompositeTV (primaryTV : option TruthValue)
                (versionedTVs : list (VersionHandle * TruthValue)).
Set Elimination Schemes.

Definition DEFAULT_TV : TruthValue := SimpleTV f0 f0.

Definition isNullTv (tv : TruthValue) : bool :=
  match tv with NullTV => true | _ => false end.

Definition getType_tv (tv : TruthValue) : res Z :=
  match tv with
  | NullTV => Throw RuntimeException
  | SimpleTV _ _ => Ok SIMPLE_TRUTH_VALUE
  | CountTV _ _ _ => Ok COUNT_TRUTH_VALUE
  | IndefiniteTV _ => Ok INDEFINITE_TRUTH_VALUE
  | CompositeTV _ _ => Ok COMPOSITE_TRUTH_VALUE
  end.

(** *** Simple truth values: count and confidence *)
Definition KKK : float := f64_of_Z 800.
(** The binary32 literal [0.9999999f]. *)
Definition c_0_9999999f : float := S754_finite false 16777214 (-24).

Definition confidenceToCount (c : float) : float :=
  let c := if flt c_0_9999999f c then c_0_9999999f else c in
  to_float (f64_div (f64_mul KKK (to_double c))
                    (f64_sub (f64_of_Z 1) (to_double c))).

Definition countToConfidence (c : float) : float :=
  to_float (f64_div (to_double c) (f64_add (to_double c) KKK)).

(** *** Indefinite truth values *)
(** [0.9] and [2.0] as floats. *)
Definition DEFAULT_CONFIDENCE_LEVEL : float := S754_finite false 15099494 (-24).
Definition DEFAULT_K : float := f32_of_Z 2.
(** [static_cast<strength_t>(0.0000001)]. *)
Definition c_1em7 : float := S754_finite false 14073749 (-47).

Definition itv_init (l u c : float) : Indefinite :=
  mkITV u l c true fm1 fm1 fm1 fm1 [].

(** [copy] does not copy the first order distribution. *)
Definition itv_copy (src : Indefinite) : Indefinite :=
  mkITV (itv_U src) (itv_L src) (itv_confidenceLevel src) (itv_symmetric src)
    (itv_diff src) (itv_mean src) (itv_count src) (itv_confidence src) [].

Definition itv_setL (l : float) (i : Indefinite) : Indefinite :=
  mkITV (itv_U i) l (itv_confidenceLevel i) (itv_symmetric i)
    fm1 fm1 fm1 fm1 (itv_firstOrderDistribution i).
Definition itv_setU (u : float) (i : Indefinite) : Indefinite :=
  mkITV u (itv_L i) (itv_confidenceLevel i) (itv_symmetric i)
    fm1 fm1 fm1 fm1 (itv_firstOrderDistribution i).
Definition itv_setConfidenceLevel (c : float) (i : Indefinite) : Indefinite :=
  mkITV (itv_U i) (itv_L i) c (itv_symmetric i)
    (itv_diff i) (itv_mean i) (itv_count i) (itv_confidence i)
    (itv_firstOrderDistribution i).
Definition itv_setDiff (d : float) (i : Indefinite) : Indefinite :=
  mkITV (itv_U i) (itv_L i) (itv_confidenceLevel i) (itv_symmetric i)
    d (itv_mean i) (itv_count i) (itv_confidence i) (itv_firstOrderDistribution i).
Definition itv_setMean (m : float) (i : Indefinite) : Indefinite :=
  mkITV (itv_U i) (itv_L i) (itv_confidenceLevel i) (itv_symmetric i)
    (itv_diff i) m (itv_count i) (itv_confidence i) (itv_firstOrderDistribution i).
Definition itv_set_count (c : float) (i : Indefinite) : Indefinite :=
  mkITV (itv_U i) (itv_L i) (itv_confidenceLevel i) (itv_symmetric i)
    (itv_diff i) (itv_mean i) c (itv_confidence i) (itv_firstOrderDistribution i).
Definition itv_set_confidence (c : float) (i : Indefinite) : Indefinite :=
  mkITV (itv_U i) (itv_L i) (itv_confidenceLevel i) (itv_symmetric i)
    (itv_diff i) (itv_mean i) (itv_count i) c (itv_firstOrderDistribution i).

Definition itv_mean_formula (L U : float) : float :=
  f32_div (f32_add L U) (f32_of_Z 2).
Definition itv_count_formula (L U : float) : float :=
  let W := f32_sub U L in
  let W := if flt W c_1em7 then c_1em7 else W in
  f32_div (f32_mul DEFAULT_K (f32_sub (f32_of_Z 1) W)) W.
Definition itv_confidence_formula (c : float) : float :=
  f32_div c (f32_add c DEFAULT_K).

(** The getters refresh their (mutable) cache: value and object after. *)
Definition itv_getMean (i : Indefinite) : float * Indefinite :=
  if flt (itv_mean i) f0 then
    let m := itv_mean_formula (itv_L i) (itv_U i) in (m, itv_setMean m i)
  else (itv_mean i, i).

Definition itv_getCount (i : Indefinite) : float * Indefinite :=
  if flt (itv_count i) f0 then
    let c := itv_count_formula (itv_L i) (itv_U i) in (c, itv_set_count c i)
  else (itv_count i, i).

Definition itv_getConfidence (i : Indefinite) : float * Indefinite :=
  if flt (itv_confidence i) f0 then
    let '(c, i) := itv_getCount i in
    let cf := itv_confidence_formula c in
    (cf, itv_set_confidence cf i)
  else (itv_confidence i, i).

(** *** Virtual methods *)
Fixpoint getMean (tv : TruthValue) : res float :=
  match tv with
  | NullTV => Throw RuntimeException
  | SimpleTV m _ => Ok m
  | CountTV m _ _ => Ok m
  | IndefiniteTV i => Ok (itv_getMean i).1
  | CompositeTV (Some p) _ => getMean p
  | CompositeTV None _ => Undef
  end.

Fixpoint getCount (tv : TruthValue) : res float :=
  match tv with
  | NullTV => Throw RuntimeException
  | SimpleTV _ c => Ok c
  | CountTV _ _ c => Ok c
  | IndefiniteTV i => Ok (itv_getCount i).1
  | CompositeTV (Some p) _ => getCount p
  | CompositeTV None _ => Undef
  end.

Fixpoint getConfidence (tv : TruthValue) : res float :=
  match tv with
  | NullTV => Throw RuntimeException
  | SimpleTV _ c => Ok (countToConfidence c)
  | CountTV _ n _ => Ok n
  | IndefiniteTV i => Ok (itv_getConfidence i).1
  | CompositeTV (Some p) _ => getConfidence p
  | CompositeTV None _ => Undef
  end.

Fixpoint clone (tv : TruthValue) : res TruthValue :=
  match tv with
  | NullTV => Throw RuntimeException
  | SimpleTV m c => Ok (SimpleTV m c)
  | CountTV m n c => Ok (CountTV m n c)
  | IndefiniteTV i => Ok (IndefiniteTV (itv_copy i))
  | CompositeTV None _ => Undef
  | CompositeTV (Some p) vs =>
      p' ← clone p;
      vs' ← (fix go l :=
               match l with
               | [] => Ok []
               | (k, t) :: l' => t' ← clone t; l'' ← go l'; Ok ((k, t') :: l'')
               end) vs;
      Ok (CompositeTV (Some p') vs')
  end.

(** [operator==] of two distinct objects. *)
Fixpoint tv_eq (tv rhs : TruthValue) : res bool :=
  match tv with
  | NullTV => Ok (isNullTv rhs)
  | SimpleTV m c =>
      Ok match rhs with SimpleTV m' c' => feq m m' && feq c c' | _ => false end
  | CountTV m n c =>
      Ok match rhs with
         | CountTV m' n' c' => feq m m' && feq n n' && feq c c'
         | _ => false
         end
  | IndefiniteTV i =>
      Ok match rhs with
         | IndefiniteTV j =>
             feq (itv_U i) (itv_U j) && feq (itv_L i) (itv_L j) &&
             feq (itv_confidenceLevel i) (itv_confidenceLevel j)
         | _ => false
         end
  | CompositeTV p vs =>
      t ← getType_tv rhs;
      match rhs with
      | CompositeTV p' vs' =>
          b ← match p, p' with
              | None, None => Ok true
              | Some x, Some y => tv_eq x y
              | _, _ => Ok false
              end;
          if negb b then Ok false
          else if negb (length vs =? length vs')%nat then Ok false
          else
            (fix go l :=
               match l with
               | [] => Ok true
               | (k, x) :: l' =>
                   match afind k vs' with
                   | None => Ok false
                   | Some y => tv_eq x y ≫= fun e : bool => if e then go l' else Ok false
                   end
               end) vs
      | _ => Ok false
      end
  end.

(** *** Merging *)
Definition composite_merge_versions (vs vs2 : list (VersionHandle * TruthValue))
    : res (list (VersionHandle * TruthValue)) :=
  vs1 ← rfold (fun acc (kv : VersionHandle * TruthValue) =>
          let '(key, tv) := kv in
          match afind key vs2 with
          | Some otherTv =>
              c2 ← getConfidence otherTv; c1 ← getConfidence tv;
              if fgt c2 c1 then (t ← clone otherTv; Ok (aset key t acc))
              else Ok acc
          | None => Ok acc
          end) vs vs;
  rfold (fun acc (kv : VersionHandle * TruthValue) =>
          let '(key, otherTv) := kv in
          match afind key acc with
          | Some _ => Ok acc
          | None => t ← clone otherTv; Ok (aset key t acc)
          end) vs1 vs2.

Definition composite_merge (this other : TruthValue) : res TruthValue :=
  result ← clone this;
  t ← getType_tv other;
  match result with
  | CompositeTV p vs =>
      c2 ← getConfidence other;
      c1 ← getConfidence result;
      match other with
      | CompositeTV p2 vs2 =>
          p' ← (if fgt c2 c1
                then (q ← of_opt p2; t ← clone q; Ok (Some t)) else Ok p);
          vs' ← composite_merge_versions vs vs2;
          Ok (CompositeTV p' vs')
      | _ =>
          if fgt c2 c1 then (t ← clone other; Ok (CompositeTV (Some t) vs))
          else Ok result
      end
  | _ => Undef
  end.

Definition base_merge (this other : TruthValue) : res TruthValue :=
  t ← getType_tv other;
  if (t =? COMPOSITE_TRUTH_VALUE)%Z then composite_merge other this
  else
    c2 ← getConfidence other;
    c1 ← getConfidence this;
    if fgt c2 c1 then clone other else clone this.

Definition count_merge (this other : TruthValue) : res TruthValue :=
  match this, other with
  | CountTV m n c, CountTV om on oc =>
      let nc := f32_add c oc in
      let nm := f32_div (f32_add (f32_mul m c) (f32_mul om oc)) nc in
      Ok (CountTV nm (if fgt on n then on else n) nc)
  | _, _ => base_merge this other
  end.

Definition merge (this other : TruthValue) : res TruthValue :=
  match this with
  | CompositeTV _ _ => composite_merge this other
  | CountTV _ _ _ => count_merge this other
  | _ => base_merge this other
  end.

(** *** Versions of a composite truth value

    [isNullVersionHandle vh] is [TLB::isInvalidHandle(vh.substantive)]; the
    validity test of the current TLB is an argument. *)
Section versions.
Context (isInvalidHandle : Handle -> bool).

Definition isNullVersionHandle (vh : VersionHandle) : bool :=
  isInvalidHandle (substantive vh).

Definition setVersionedTV (tv : TruthValue) (vh : VersionHandle)
    (p : option TruthValue) (vs : list (VersionHandle * TruthValue))
    : res (option TruthValue * list (VersionHandle * TruthValue)) :=
  newTv ← (if isNullTv tv then clone DEFAULT_TV else clone tv);
  match afind vh vs with
  | None =>
      if negb (isNullVersionHandle vh) then Ok (p, aset vh newTv vs)
      else Ok (Some newTv, vs)
  | Some _ => Ok (p, aset vh newTv vs)
  end.

(** The constructor: [init]. *)
Definition composite_init (tv : TruthValue) (vh : VersionHandle) : res TruthValue :=
  '(p, vs) ← setVersionedTV tv vh None [];
  match p with
  | None => d ← clone DEFAULT_TV; Ok (CompositeTV (Some d) vs)
  | Some _ => Ok (CompositeTV p vs)
  end.

Definition getVersionedTV (vh : VersionHandle) (p : option TruthValue)
    (vs : list (VersionHandle * TruthValue)) : res TruthValue :=
  if negb (isNullVersionHandle vh) then
    Ok match afind vh vs with None => NullTV | Some tv => tv end
  else of_opt p.

Definition removeVersionedTV (vh : VersionHandle)
    (vs : list (VersionHandle * TruthValue)) :=
  match afind vh vs with Some _ => aerase vh vs | None => vs end.

Definition removeVersionedTVs (subst : Handle)
    (vs : list (VersionHandle * TruthValue)) :=
  let toBeRemoved := filter (fun kv => substantive kv.1 = subst) vs in
  foldl (fun acc kv => aerase kv.1 acc) vs toBeRemoved.

Definition removeInvalidTVs (vs : list (VersionHandle * TruthValue)) :=
  let toBeRemoved := filter (fun kv => isInvalidHandle (substantive kv.1) = true) vs in
  foldl (fun acc kv => aerase kv.1 acc) vs toBeRemoved.

Definition getNumberOfVersionedTVs (vs : list (VersionHandle * TruthValue)) : nat :=
  length vs.

Definition getVersionHandle (i : Z) (vs : list (VersionHandle * TruthValue))
    : VersionHandle :=
  if (i <? 0)%Z then NULL_VERSION_HANDLE
  else default NULL_VERSION_HANDLE (fst <$> vs !! Z.to_nat i).
End versions.

(** ** Induction over nested truth values *)
Section tv_ind.
Context (P : TruthValue -> Prop).
Hypothesis P_null : P NullTV.
Hypothesis P_simple : forall m c, P (SimpleTV m c).
Hypothesis P_count : forall m n c, P (CountTV m n c).
Hypothesis P_indef : forall i, P (IndefiniteTV i).
Hypothesis P_none : forall vs, P (CompositeTV None vs).
Hypothesis P_comp : forall p vs,
  P p -> Forall (fun kv => P kv.2) vs -> P (CompositeTV (Some p) vs).

Fixpoint tv_ind (tv : TruthValue) : P tv :=
  match tv with
  | NullTV => P_null
  | SimpleTV m c => P_simple m c
  | CountTV m n c => P_count m n c
  | IndefiniteTV i => P_indef i
  | CompositeTV None vs => P_none vs
  | CompositeTV (Some p) vs =>
      P_comp p vs (tv_ind p)
        ((fix go (l : list (VersionHandle * TruthValue)) :
               Forall (fun kv => P kv.2) l :=
            match l with
            | [] => Forall_nil_2 _
            | kv :: l' => Forall_cons_2 _ kv l' (tv_ind kv.2) (go l')
            end) vs)
  end.
End tv_ind.

(** A truth value of an atom: not null, and a composite has a primary value and
    one non-null value per version handle. *)
Fixpoint tv_ok (tv : TruthValue) : Prop :=
  match tv with
  | NullTV => False
  | CompositeTV None _ => False
  | CompositeTV (Some p) vs =>
      tv_ok p /\ NoDup vs.*1 /\
      (fix go (l : list (VersionHandle * TruthValue)) : Prop :=
         match l with [] => True | (_, t) :: l' => tv_ok t /\ go l' end) vs
  | _ => True
  end.

Lemma tv_ok_comp p vs :
  tv_ok (CompositeTV (Some p) vs) <->
  tv_ok p /\ NoDup vs.*1 /\ Forall (fun kv => tv_ok kv.2) vs.
Proof.
  simpl. split; intros (Hp & Hd & Hv); (split_and!; [done..|]); clear Hp Hd;
    induction vs as [|[k t] vs IH]; try done.
  - destruct Hv as [Ht Hv]. constructor; [done|]. by apply IH.
  - inversion Hv; subst. split; [done|]. by apply IH.
Qed.

(** The values of the fallible methods on well-formed truth values. *)
Definition cl (tv : TruthValue) : TruthValue :=
  match clone tv with Ok t => t | _ => tv end.
Definition cf (tv : TruthValue) : float :=
  match getConfidence tv with Ok c => c | _ => f0 end.

Lemma clone_list_ok (vs : list (VersionHandle * TruthValue)) :
  Forall (fun kv => clone kv.2 = Ok (cl kv.2)) vs ->
  (fix go l :=
     match l with
     | [] => Ok []
     | (k, t) :: l' => t' ← clone t; l'' ← go l'; Ok ((k, t') :: l'')
     end) vs = Ok ((prod_map id cl) <$> vs).
Proof.
  induction vs as [|[k t] vs IH]; intros H; [done|].
  inversion H as [|? ? Ht Hv]; subst. simpl in *. rewrite Ht. simpl.
  by rewrite (IH Hv).
Qed.

Lemma prod_map_keys (vs : list (VersionHandle * TruthValue))
    (f : TruthValue -> TruthValue) :
  (prod_map id f <$> vs).*1 = vs.*1.
Proof. induction vs as [|[k t] vs IH]; [done|]. cbn. f_equal. exact IH. Qed.

Lemma afind_prod_map (vs : list (VersionHandle * TruthValue))
    (f : TruthValue -> TruthValue) k :
  afind k (prod_map id f <$> vs) = f <$> afind k vs.
Proof.
  induction vs as [|[k' t] vs IH]; [done|]. simpl. case_decide; [done|exact IH].
Qed.

Lemma itv_copy_confidence i :
  (itv_getConfidence (itv_copy i)).1 = (itv_getConfidence i).1.
Proof.
  unfold itv_getConfidence, itv_getCount. simpl.
  by destruct (flt (itv_confidence i) f0), (flt (itv_count i) f0).
Qed.

Lemma clone_ok tv :
  tv_ok tv ->
  clone tv = Ok (cl tv) /\ tv_ok (cl tv) /\
  getConfidence (cl tv) = Ok (cf tv) /\ getConfidence tv = Ok (cf tv).
Proof.
  induction tv as [| | |i|vs|p vs IHp IHv] using tv_ind;
    [intros []|intros _; repeat split|intros _; repeat split| |intros []|].
  { intros _. unfold cl, cf. simpl. by rewrite itv_copy_confidence. }
  intros (Hp & Hd & Hv)%tv_ok_comp. destruct (IHp Hp) as (Hc & Hok & Hcf & Hcf').
  assert (Hvs : Forall (fun kv => clone kv.2 = Ok (cl kv.2) /\ tv_ok (cl kv.2)) vs).
  { rewrite Forall_forall in IHv, Hv |- *. intros kv Hkv.
    by destruct (IHv kv Hkv (Hv kv Hkv)) as (? & ? & _). }
  assert (Hcomp : clone (CompositeTV (Some p) vs) =
                  Ok (CompositeTV (Some (cl p)) (prod_map id cl <$> vs))).
  { simpl. rewrite Hc. simpl.
    rewrite clone_list_ok by (eapply Forall_impl; [exact Hvs|]; by intros kv []).
    done. }
  unfold cl at 1 2 3. rewrite Hcomp. split; [done|]. split.
  - apply tv_ok_comp. split; [done|]. rewrite prod_map_keys. split; [done|].
    apply Forall_fmap. eapply Forall_impl; [exact Hvs|]. by intros [] [].
  - unfold cf. simpl. rewrite Hcf, Hcf'. done.
Qed.

(** Choosing the better of two values, as the merges do: the second one only if
    its confidence is strictly greater. *)
Definition better (x y : TruthValue) : TruthValue := if fgt (cf y) (cf x) then y else x.

Lemma better_best x y :
  fgt (cf x) (cf (better x y)) = false /\ fgt (cf y) (cf (better x y)) = false.
Proof.
  unfold better. destruct (fgt (cf y) (cf x)) eqn:E.
  - split; [by apply flt_asym|apply flt_irrefl].
  - split; [apply flt_irrefl|done].
Qed.

Lemma merge_common_loop (l acc vs2 : list (VersionHandle * TruthValue)) :
  NoDup l.*1 -> Forall (fun kv => tv_ok kv.2) l -> Forall (fun kv => tv_ok kv.2) vs2 ->
  exists acc',
    rfold (fun acc (kv : VersionHandle * TruthValue) =>
          let '(key, tv) := kv in
          match afind key vs2 with
          | Some otherTv =>
              c2 ← getConfidence otherTv; c1 ← getConfidence tv;
              if fgt c2 c1 then (t ← clone otherTv; Ok (aset key t acc))
              else Ok acc
          | None => Ok acc
          end) acc l = Ok acc' /\
    forall k, afind k acc' =
      match afind k l, afind k vs2 with
      | Some x, Some y => if fgt (cf y) (cf x) then Some (cl y) else afind k acc
      | _, _ => afind k acc
      end.
Proof.
  revert acc. induction l as [|[key tv] l IH]; intros acc Hd Hl H2.
  { exists acc. split; [done|]. done. }
  simpl in Hd. apply NoDup_cons in Hd as [Hn Hd].
  inversion Hl as [|? ? Htv Hl']; subst. simpl in Htv.
  apply afind_None in Hn.
  destruct (clone_ok _ Htv) as (_ & _ & _ & Hcf1). simpl.
  destruct (afind key vs2) as [y|] eqn:E2.
  - apply afind_Some_elem in E2 as Hy. eapply Forall_forall in Hy; [|exact H2].
    simpl in Hy. destruct (clone_ok _ Hy) as (Hcy & _ & _ & Hcf2).
    rewrite Hcf2. simpl. rewrite Hcf1. simpl.
    destruct (fgt (cf y) (cf tv)) eqn:Eg; [rewrite Hcy; simpl|].
    + destruct (IH (aset key (cl y) acc) Hd Hl' H2) as (acc' & -> & H).
      exists acc'. split; [done|]. intros k. rewrite H, afind_aset.
      case_decide; subst; [|done]. by rewrite Hn, E2, Eg.
    + simpl. destruct (IH acc Hd Hl' H2) as (acc' & -> & H).
      exists acc'. split; [done|]. intros k. rewrite H.
      case_decide; subst; [|done]. by rewrite Hn, E2, Eg.
  - simpl. destruct (IH acc Hd Hl' H2) as (acc' & Hf & H). rewrite Hf.
    exists acc'. split; [done|]. intros k. rewrite H.
    case_decide; subst; [|done]. by rewrite Hn, E2.
Qed.

Lemma merge_new_loop (l acc : list (VersionHandle * TruthValue)) :
  NoDup l.*1 -> Forall (fun kv => tv_ok kv.2) l ->
  exists acc',
    rfold (fun acc (kv : VersionHandle * TruthValue) =>
          let '(key, otherTv) := kv in
          match afind key acc with
          | Some _ => Ok acc
          | None => t ← clone otherTv; Ok (aset key t acc)
          end) acc l = Ok acc' /\
    forall k, afind k acc' =
      match afind k acc with Some x => Some x | None => cl <$> afind k l end.
Proof.
  revert acc. induction l as [|[key tv] l IH]; intros acc Hd Hl.
  { exists acc. split; [done|]. intros k. simpl. by destruct (afind k acc). }
  simpl in Hd. apply NoDup_cons in Hd as [Hn Hd]. apply afind_None in Hn.
  inversion Hl as [|? ? Htv Hl']; subst. simpl in Htv.
  destruct (clone_ok _ Htv) as (Hct & _ & _ & _). simpl.
  destruct (afind key acc) as [x|] eqn:Ea; [|rewrite Hct; simpl].
  - simpl. destruct (IH acc Hd Hl') as (acc' & -> & H). exists acc'. split; [done|].
    intros k. rewrite H. case_decide; subst; [by rewrite Ea|done].
  - destruct (IH (aset key (cl tv) acc) Hd Hl') as (acc' & -> & H).
    exists acc'. split; [done|]. intros k. rewrite H, afind_aset.
    case_decide; subst; [by rewrite Ea|done].
Qed.

Lemma composite_merge_versions_ok vs vs2 :
  NoDup vs.*1 -> Forall (fun kv => tv_ok kv.2) vs ->
  NoDup vs2.*1 -> Forall (fun kv => tv_ok kv.2) vs2 ->
  exists vs', composite_merge_versions (prod_map id cl <$> vs) vs2 = Ok vs' /\
    forall k, afind k vs' =
      match afind k vs, afind k vs2 with
      | Some x, Some y => Some (cl (better x y))
      | Some x, None => Some (cl x)
      | None, Some y => Some (cl y)
      | None, None => None
      end.
Proof.
  intros Hd Hv Hd2 Hv2. unfold composite_merge_versions.
  destruct (merge_common_loop (prod_map id cl <$> vs) (prod_map id cl <$> vs) vs2)
    as (acc & Hacc & H1); [by rewrite prod_map_keys| |done|].
  { apply Forall_fmap. eapply Forall_impl; [exact Hv|]. intros [k t] Ht. simpl.
    by apply clone_ok. }
  rewrite Hacc. simpl.
  destruct (merge_new_loop vs2 acc Hd2 Hv2) as (vs' & -> & H2).
  exists vs'. split; [done|]. intros k. rewrite H2, H1, afind_prod_map.
  destruct (afind k vs) as [x|] eqn:E; simpl; [|by destruct (afind k vs2)].
  destruct (afind k vs2) as [y|] eqn:E2; [|done].
  apply afind_Some_elem in E as Hx. eapply Forall_forall in Hx; [|exact Hv].
  destruct (clone_ok _ Hx) as (_ & _ & Hcf & _). simpl in Hcf.
  assert (cf (cl x) = cf x) as -> by (unfold cf at 1; by rewrite Hcf).
  unfold better. by destruct (fgt (cf y) (cf x)).
Qed.

Lemma composite_clone p vs :
  tv_ok (CompositeTV (Some p) vs) ->
  clone (CompositeTV (Some p) vs) =
    Ok (CompositeTV (Some (cl p)) (prod_map id cl <$> vs)).
Proof.
  intros (Hp & Hd & Hv)%tv_ok_comp. simpl.
  destruct (clone_ok _ Hp) as (-> & _). simpl. rewrite clone_list_ok; [done|].
  eapply Forall_impl; [exact Hv|]. intros [k t] Ht. by apply clone_ok.
Qed.

Lemma cf_comp p vs : cf (CompositeTV (Some p) vs) = cf p.
Proof. done. Qed.

Lemma cl_confidence tv : tv_ok tv -> getConfidence (cl tv) = Ok (cf tv).
Proof. intros H. by apply clone_ok. Qed.

Definition is_composite (tv : TruthValue) : bool :=
  match tv with CompositeTV _ _ => true | _ => false end.

Lemma getType_tv_ok tv :
  tv_ok tv -> exists t, getType_tv tv = Ok t /\
    (t =? COMPOSITE_TRUTH_VALUE)%Z = is_composite tv.
Proof. destruct tv; intros H; [done|..]; by eexists. Qed.

(** Merging into a composite value, when it is well-formed. *)
Lemma composite_merge_plain p vs other :
  tv_ok (CompositeTV (Some p) vs) -> tv_ok other -> is_composite other = false ->
  composite_merge (CompositeTV (Some p) vs) other =
    Ok (CompositeTV (Some (cl (better p other))) (prod_map id cl <$> vs)).
Proof.
  intros Hok Ho Hc. unfold composite_merge. rewrite composite_clone by done. simpl.
  destruct (getType_tv_ok _ Ho) as (t & -> & _). simpl.
  destruct (clone_ok _ Ho) as (Hco & _ & _ & Hcf). rewrite Hcf. simpl.
  apply tv_ok_comp in Hok as (Hp & _ & _). rewrite cl_confidence by done. simpl.
  unfold better. destruct (fgt (cf other) (cf p)); [|by destruct other].
  rewrite Hco. by destruct other.
Qed.

Lemma composite_merge_comp p vs p2 vs2 :
  tv_ok (CompositeTV (Some p) vs) -> tv_ok (CompositeTV (Some p2) vs2) ->
  exists vs', composite_merge (CompositeTV (Some p) vs) (CompositeTV (Some p2) vs2)
              = Ok (CompositeTV (Some (cl (better p p2))) vs') /\
    forall k, afind k vs' =
      match afind k vs, afind k vs2 with
      | Some x, Some y => Some (cl (better x y))
      | Some x, None => Some (cl x)
      | None, Some y => Some (cl y)
      | None, None => None
      end.
Proof.
  intros H1 H2. unfold composite_merge. rewrite composite_clone by done. simpl.
  apply tv_ok_comp in H1 as (Hp & Hd & Hv), H2 as (Hp2 & Hd2 & Hv2).
  destruct (clone_ok _ Hp2) as (Hc2 & _ & _ & ->). simpl.
  rewrite cl_confidence by done. simpl.
  destruct (composite_merge_versions_ok vs vs2 Hd Hv Hd2 Hv2) as (vs' & Hvs & Hk).
  exists vs'. split; [|done].
  unfold better. destruct (fgt (cf p2) (cf p)); [rewrite Hc2|]; simpl; by rewrite Hvs.
Qed.

(** Merging well-formed values gives a well-formed value. *)
Definition versions_ok (vs : list (VersionHandle * TruthValue)) : Prop :=
  NoDup vs.*1 /\ Forall (fun kv => tv_ok kv.2) vs.

Lemma versions_aset k t vs : versions_ok vs -> tv_ok t -> versions_ok (aset k t vs).
Proof.
  intros [Hd Hv] Ht. split; [by apply aset_NoDup|]. by apply aset_Forall.
Qed.

Lemma clone_Ok_ok tv t : tv_ok tv -> clone tv = Ok t -> tv_ok t.
Proof. intros Hok E. destruct (clone_ok tv Hok) as (E' & Hc & _). congruence. Qed.

Lemma merge_versions_ok vs vs2 vs' :
  versions_ok vs -> versions_ok vs2 -> composite_merge_versions vs vs2 = Ok vs' -> versions_ok vs'.
Proof.
  intros Hvs [Hd2 Hv2]. unfold composite_merge_versions.
  destruct (rfold _ vs vs) as [vs1| | |] eqn:E1; try done. cbn [mbind res_bind].
  assert (Hin : forall k t, (k, t) ∈ vs2 -> tv_ok t).
  { intros k t Hk. rewrite Forall_forall in Hv2. exact (Hv2 _ Hk). }
  assert (H1 : versions_ok vs1).
  { revert E1. apply rfold_ind; [done|]. intros [k t] acc acc' _ Hacc. destruct (afind k vs2) as [o|] eqn:Ek.
    - destruct (getConfidence o), (getConfidence t); try done. cbn [mbind res_bind].
      destruct (fgt _ _); [|by intros [= <-]]. destruct (clone o) as [c| | |] eqn:Ec; try done.
      intros [= <-]. apply versions_aset; [done|]. apply (clone_Ok_ok o); [|done].
      by apply (Hin k), afind_Some_elem.
    - by intros [= <-]. }
  apply rfold_ind; [done|]. intros [k t] acc acc' Hk Hacc. destruct (afind k acc); [by intros [= <-]|].
  destruct (clone t) as [c| | |] eqn:Ec; try done. intros [= <-].
  apply versions_aset; [done|]. apply (clone_Ok_ok t); [by apply (Hin k)|done].
Qed.

Lemma composite_merge_tv_ok a b r : tv_ok a -> tv_ok b -> composite_merge a b = Ok r -> tv_ok r.
Proof.
  intros Ha Hb. unfold composite_merge. destruct (clone_ok a Ha) as (-> & Hca & _). cbn [mbind res_bind].
  destruct (getType_tv b); try done. cbn [mbind res_bind].
  destruct (cl a) as [| | | |p vs] eqn:Ecl; try done.
  destruct (getConfidence b) as [c2| | |]; try done. cbn [mbind res_bind].
  destruct (getConfidence (CompositeTV p vs)) as [c1| | |]; try done. cbn [mbind res_bind].
  destruct p as [p|]; [|done]. pose proof Hca as (Hp & Hvs)%tv_ok_comp.
  assert (Hplain : (if fgt c2 c1 then t ← clone b; Ok (CompositeTV (Some t) vs) else Ok (CompositeTV (Some p) vs)) = Ok r -> tv_ok r).
  { destruct (fgt _ _); [|by intros [= <-]]. destruct (clone b) as [c| | |] eqn:Ec; try done.
    intros [= <-]. apply tv_ok_comp. split; [by apply (clone_Ok_ok b)|done]. }
  destruct b as [| | | |p2 vs2]; try exact Hplain. destruct p2 as [p2|]; [|done].
  pose proof Hb as (Hp2 & Hvs2)%tv_ok_comp. clear Hplain. cbn [of_opt].
  set (P' := if fgt c2 c1 then _ else _). destruct P' as [p'| | |] eqn:EP; try done. cbn [mbind res_bind].
  destruct (composite_merge_versions vs vs2) as [vs'| | |] eqn:Ev; try done. intros [= <-].
  pose proof (merge_versions_ok vs vs2 vs' Hvs Hvs2 Ev) as Hvs'. unfold P' in EP.
  destruct (fgt _ _); [|injection EP as <-; by apply tv_ok_comp].
  cbn [mbind res_bind] in EP. destruct (clone p2) as [c| | |] eqn:Ec; try done. injection EP as <-.
  apply tv_ok_comp. split; [by apply (clone_Ok_ok p2)|done].
Qed.

Lemma merge_tv_ok a b r : tv_ok a -> tv_ok b -> merge a b = Ok r -> tv_ok r.
Proof.
  intros Ha Hb.
  assert (Hbase : base_merge a b = Ok r -> tv_ok r).
  { unfold base_merge. destruct (getType_tv b); try done. cbn [mbind res_bind].
    destruct (_ =? _)%Z; [by apply composite_merge_tv_ok|].
    destruct (getConfidence b), (getConfidence a); try done. cbn [mbind res_bind].
    destruct (fgt _ _); by apply clone_Ok_ok. }
  destruct a; try exact Hbase; [|by apply composite_merge_tv_ok].
  simpl. unfold count_merge. destruct b; try exact Hbase. by intros [= <-].
Qed.

Lemma merge_ok this other :
  tv_ok this -> tv_ok other ->
  exists r c1 c2 c, merge this other = Ok r /\
    getConfidence this = Ok c1 /\ getConfidence other = Ok c2 /\
    getConfidence r = Ok c /\ fgt c1 c = false /\ fgt c2 c = false.
Proof.
  intros H1 H2.
  destruct (clone_ok _ H1) as (Hcl1 & Hok1 & Hcl1' & Hcf1).
  destruct (clone_ok _ H2) as (Hcl2 & Hok2 & Hcl2' & Hcf2).
  enough (exists r c, merge this other = Ok r /\ getConfidence r = Ok c /\
            fgt (cf this) c = false /\ fgt (cf other) c = false)
    as (r & c & ? & ? & ? & ?) by (exists r, (cf this), (cf other), c; done).
  assert (Hbetter : forall x y, tv_ok x -> tv_ok y ->
    getConfidence (cl (better x y)) = Ok (cf (better x y))).
  { intros x y Hx Hy. unfold better. destruct (fgt _ _); by apply cl_confidence. }
  assert (Hcomp : forall a b, tv_ok a -> tv_ok b -> is_composite a = true ->
    exists r c, composite_merge a b = Ok r /\ getConfidence r = Ok c /\
      fgt (cf a) c = false /\ fgt (cf b) c = false).
  { intros a b Ha Hb Hac. destruct a as [| | | |[p|] vs]; try done.
    destruct (is_composite b) eqn:Eb.
    - destruct b as [| | | |[p2|] vs2]; try done.
      destruct (composite_merge_comp p vs p2 vs2 Ha Hb) as (vs' & -> & _).
      eexists _, _. split; [done|]. simpl.
      apply tv_ok_comp in Ha as [? _], Hb as [? _].
      split; [by apply Hbetter|]. rewrite !cf_comp. apply better_best.
    - rewrite composite_merge_plain by done. eexists _, _. split; [done|]. simpl.
      apply tv_ok_comp in Ha as [? _].
      split; [by apply Hbetter|]. rewrite cf_comp. apply better_best. }
  assert (Hbase : exists r c, base_merge this other = Ok r /\ getConfidence r = Ok c /\
      fgt (cf this) c = false /\ fgt (cf other) c = false).
  { unfold base_merge. destruct (getType_tv_ok _ H2) as (t & -> & Ht). simpl.
    rewrite Ht. destruct (is_composite other) eqn:Eo.
    - destruct (Hcomp other this H2 H1 Eo) as (r & c & ? & ? & ? & ?).
      by exists r, c.
    - rewrite Hcf2. simpl. rewrite Hcf1. simpl.
      exists (cl (better this other)), (cf (better this other)).
      split; [|split; [by apply Hbetter|apply better_best]].
      unfold better. destruct (fgt _ _); done. }
  destruct this as [|m c|m n c|i|p vs]; try done; try exact Hbase; [|by apply Hcomp].
  simpl. unfold count_merge. destruct other as [|m' c'|om on oc|j|p2 vs2]; try done.
  eexists _, _. split; [done|]. split; [done|].
  change (cf (CountTV m n c)) with n. change (cf (CountTV om on oc)) with on.
  destruct (fgt on n) eqn:E.
  - split; [by apply flt_asym|apply flt_irrefl].
  - split; [apply flt_irrefl|done].
Qed.

(** Merging never loses confidence: merging two well-formed truth values of
    any class succeeds, and neither argument is more confident than the
    result. *)
Theorem merge_confidence this other :
  tv_ok this -> tv_ok other ->
  exists r c1 c2 c, merge this other = Ok r /\
    getConfidence this = Ok c1 /\ getConfidence other = Ok c2 /\
    getConfidence r = Ok c /\ fgt c1 c = false /\ fgt c2 c = false.
Proof. apply merge_ok. Qed.

(** Merging two composite values: the result has a version for exactly the
    version handles of either value; where both have one, the strictly more
    confident one wins (the receiver's on a tie), and the same rule picks the
    primary value. *)
Theorem composite_merge_versionwise p vs p2 vs2 :
  tv_ok (CompositeTV (Some p) vs) -> tv_ok (CompositeTV (Some p2) vs2) ->
  exists p' vs', merge (CompositeTV (Some p) vs) (CompositeTV (Some p2) vs2)
                   = Ok (CompositeTV (Some p') vs') /\
    clone (better p p2) = Ok p' /\
    forall k, match afind k vs, afind k vs2 with
              | Some x, Some y => exists t, clone (better x y) = Ok t /\ afind k vs' = Some t
              | Some x, None => exists t, clone x = Ok t /\ afind k vs' = Some t
              | None, Some y => exists t, clone y = Ok t /\ afind k vs' = Some t
              | None, None => afind k vs' = None
              end.
Proof.
  intros H1 H2. destruct (composite_merge_comp p vs p2 vs2 H1 H2) as (vs' & Hm & Hk).
  apply tv_ok_comp in H1 as (Hp & _ & Hv), H2 as (Hp2 & _ & Hv2).
  assert (Hb : forall x y, tv_ok x -> tv_ok y -> clone (better x y) = Ok (cl (better x y))).
  { intros x y Hx Hy. unfold better. destruct (fgt _ _); by apply clone_ok. }
  eexists _, vs'. split; [exact Hm|]. split; [by apply Hb|].
  intros k. rewrite Hk.
  assert (Hin : forall l t, Forall (fun kv : VersionHandle * TruthValue => tv_ok kv.2) l ->
                            afind k l = Some t -> tv_ok t).
  { intros l t Hl Ht%afind_Some_elem. rewrite Forall_forall in Hl.
    exact (Hl _ Ht). }
  destruct (afind k vs) as [x|] eqn:Ex, (afind k vs2) as [y|] eqn:Ey; try done.
  - eexists. split; [|done]. apply Hb; eauto.
  - eexists. split; [|done]. apply clone_ok; eauto.
  - eexists. split; [|done]. apply clone_ok; eauto.
Qed.

(** Reading back a version: after [setVersionedTV] the value stored for a
    valid version handle is (a clone of) the value set, or the default value
    when it was the null value; the primary value and all other versions are
    untouched. For an invalid handle that names no version the primary value
    is replaced instead, and no version changes. *)
Theorem setVersionedTV_getVersionedTV inv tv vh p vs :
  tv_ok tv \/ tv = NullTV ->
  exists p' vs' t, setVersionedTV inv tv vh p vs = Ok (p', vs') /\
    clone (if isNullTv tv then DEFAULT_TV else tv) = Ok t /\
    (isNullVersionHandle inv vh = false ->
       getVersionedTV inv vh p' vs' = Ok t /\ p' = p) /\
    (isNullVersionHandle inv vh = true -> afind vh vs = None ->
       getVersionedTV inv vh p' vs' = Ok t /\ vs' = vs) /\
    forall k, k <> vh -> afind k vs' = afind k vs.
Proof.
  intros Htv. unfold setVersionedTV, getVersionedTV.
  assert (Hc : exists t, (if isNullTv tv then clone DEFAULT_TV else clone tv) = Ok t /\
                         clone (if isNullTv tv then DEFAULT_TV else tv) = Ok t).
  { destruct Htv as [Hok| ->]; [|by eexists]. exists (cl tv).
    destruct (clone_ok _ Hok) as (H & _). by destruct tv. }
  destruct Hc as (t & Ht & Ht'). rewrite Ht. simpl.
  assert (Hother : forall k, k <> vh -> afind k (aset vh t vs) = afind k vs).
  { intros k Hk. rewrite afind_aset. by rewrite decide_False. }
  destruct (afind vh vs) as [old|] eqn:Ef.
  - exists p, (aset vh t vs), t. split_and!; try done.
    + intros ->. simpl. by rewrite afind_aset, decide_True.
  - destruct (isNullVersionHandle inv vh) eqn:En; simpl.
    + exists (Some t), vs, t. done.
    + exists p, (aset vh t vs), t. split_and!; try done.
      intros _. by rewrite afind_aset, decide_True.
Qed.

Lemma afind_foldl_aerase (l vs : list (VersionHandle * TruthValue)) k :
  afind k (foldl (fun acc kv => aerase kv.1 acc) vs l) =
    if decide (k ∈ l.*1) then None else afind k vs.
Proof.
  revert vs. induction l as [|[k1 t1] l IH]; intros vs.
  { done. }
  cbn [foldl fst]. rewrite IH, afind_aerase, fmap_cons. cbn [fst].
  destruct (decide (k ∈ l.*1)) as [Hin|Hni].
  - rewrite decide_True; [done|]. by right.
  - destruct (decide (k = k1)) as [->|Hne].
    + rewrite decide_True; [done|]. by left.
    + rewrite decide_False; [done|]. by apply not_elem_of_cons.
Qed.

Lemma remove_filtered (P : Handle -> Prop) `{!forall h, Decision (P h)}
    (vs : list (VersionHandle * TruthValue)) k :
  afind k (foldl (fun acc kv => aerase kv.1 acc) vs
             (filter (fun kv => P (substantive kv.1)) vs)) =
    if decide (P (substantive k)) then None else afind k vs.
Proof.
  rewrite afind_foldl_aerase.
  destruct (decide (P (substantive k))) as [HP|HP].
  - case_decide as Hin; [done|]. apply afind_None. contradict Hin.
    apply list_elem_of_fmap in Hin as ([k' t] & -> & Hin).
    apply list_elem_of_fmap. exists (k', t). split; [done|].
    by apply list_elem_of_filter.
  - case_decide as Hin; [|done]. exfalso. apply HP.
    apply list_elem_of_fmap in Hin as ([k' t] & -> & [Hin _]%list_elem_of_filter).
    exact Hin.
Qed.

(** Removing versions removes exactly the versions asked for: those with a
    given substantive, those whose substantive is no longer a valid handle, or
    one version handle; every other version keeps its value. *)
Theorem remove_versions_exact inv subst vh vs k :
  afind k (removeVersionedTVs subst vs) =
    (if decide (substantive k = subst) then None else afind k vs) /\
  afind k (removeInvalidTVs inv vs) =
    (if inv (substantive k) then None else afind k vs) /\
  afind k (removeVersionedTV vh vs) =
    (if decide (k = vh) then None else afind k vs).
Proof.
  split_and!.
  - unfold removeVersionedTVs. exact (remove_filtered (fun h => h = subst) vs k).
  - unfold removeInvalidTVs.
    pose proof (remove_filtered (fun h => inv h = true) vs k) as H. simpl in H.
    rewrite H. by destruct (inv (substantive k)).
  - unfold removeVersionedTV. destruct (afind vh vs) eqn:E.
    + apply afind_aerase.
    + case_decide; [by subst|done].
Qed.

(** Names of truth value types and of indicators: [strToType] inverts
    [typeToStr] and [strToIndicator] inverts [indicatorToStr] on every
    enumerator, both directions reject everything else with
    [InvalidParamException], and neither search runs out of its bound. *)
Theorem type_names_roundtrip :
  (forall t, (1 <= t <= 4)%Z -> exists s, typeToStr t = Ok s /\ strToType s = Ok t) /\
  (forall s, (exists t, (1 <= t <= 4)%Z /\ strToType s = Ok t /\ typeToStr t = Ok s) \/
             strToType s = Throw InvalidParamException) /\
  (forall t, ~ (1 <= t <= 4)%Z -> typeToStr t = Throw InvalidParamException) /\
  (forall i, exists s, indicatorToStr (indicator_code i) = Ok s /\
                       strToIndicator s = Ok (indicator_code i)) /\
  (forall s, (exists i, strToIndicator s = Ok (indicator_code i) /\
                        indicatorToStr (indicator_code i) = Ok s) \/
             strToIndicator s = Throw InvalidParamException).
Proof.
  split_and!.
  - intros t Ht.
    assert (t = 1 \/ t = 2 \/ t = 3 \/ t = 4)%Z as [->|[->|[->| ->]]] by lia;
      eexists; (split; [reflexivity|]); reflexivity.
  - intros s. unfold strToType. simpl.
    repeat (case_bool_decide;
      [subst; left; eexists; split; [|split; reflexivity]; done|]). by right.
  - intros t Ht. unfold typeToStr.
    destruct t as [|[[[]|[]|]|[[]|[]|]|]|]; try done; lia.
  - intros []; eexists; (split; [reflexivity|]); reflexivity.
  - intros s. unfold strToIndicator. simpl.
    repeat (case_bool_decide;
      [subst; left; first [by exists HYPOTHETICAL|by exists CONTEXTUAL|by exists UNKNOWN]|]).
    by right.
Qed.

(** The caches of an indefinite truth value are invisible: refreshing the
    mean, the count or the confidence does not change what any of the three
    getters returns afterwards. *)
Theorem indefinite_caches_transparent i :
  let getters := [itv_getMean; itv_getCount; itv_getConfidence] in
  forall g h, g ∈ getters -> h ∈ getters -> (g (h i).2).1 = (g i).1.
Proof.
  intros getters g h Hg Hh. unfold getters in Hg, Hh.
  rewrite !elem_of_cons, elem_of_nil in Hg, Hh.
  destruct i as [U L cl sym d m c cf fod].
  destruct Hg as [->|[->|[->|[]]]], Hh as [->|[->|[->|[]]]];
    unfold itv_getConfidence, itv_getCount, itv_getMean;
    repeat (cbn -[flt f0 itv_mean_formula itv_count_formula itv_confidence_formula];
            match goal with
            | H : flt ?a f0 = _ |- context [flt ?a f0] => rewrite H
            | |- context [flt ?a f0] => is_var a; destruct (flt a f0) eqn:?
            | |- context [flt (?f ?a) f0] => is_var a; destruct (flt (f a) f0) eqn:?
            | |- context [flt (?f ?a ?b) f0] =>
                is_var a; is_var b; destruct (flt (f a b) f0) eqn:?
            | |- context [flt (?f (?g ?a ?b)) f0] =>
                is_var a; is_var b; destruct (flt (f (g a b)) f0) eqn:?
            end); done.
Qed.

(** ** Witnesses *)
Lemma merge_confidence_witness :
  exists r c1 c2 c,
    merge (SimpleTV f0 (f32_of_Z 1)) (CountTV f0 (f32_of_Z 1) f0) = Ok r /\
    getConfidence (SimpleTV f0 (f32_of_Z 1)) = Ok c1 /\
    getConfidence (CountTV f0 (f32_of_Z 1) f0) = Ok c2 /\
    getConfidence r = Ok c /\ fgt c1 c = false /\ fgt c2 c = false.
Proof.
  exact (merge_confidence (SimpleTV f0 (f32_of_Z 1))
           (CountTV f0 (f32_of_Z 1) f0) I I).
Defined.

Definition example_vh : VersionHandle := mkVH CONTEXTUAL 7.
Definition example_composite : TruthValue :=
  CompositeTV (Some DEFAULT_TV) [(example_vh, SimpleTV f0 (f32_of_Z 1))].

Lemma example_composite_ok : tv_ok example_composite.
Proof.
  apply tv_ok_comp. split; [done|]. split; [apply NoDup_singleton|].
  by repeat constructor.
Defined.

Lemma composite_merge_versionwise_witness :
  exists p' vs', merge example_composite example_composite
                 = Ok (CompositeTV (Some p') vs') /\
    exists t, afind example_vh vs' = Some t.
Proof.
  destruct (composite_merge_versionwise _ _ _ _ example_composite_ok
              example_composite_ok) as (p' & vs' & Hm & _ & Hk).
  exists p', vs'. split; [exact Hm|]. specialize (Hk example_vh). simpl in Hk.
  destruct Hk as (t & _ & Ht). by exists t.
Defined.

Lemma setVersionedTV_getVersionedTV_witness :
  exists p' vs', setVersionedTV (fun h => (h =? UNDEFINED)%N) NullTV example_vh
                   (Some DEFAULT_TV) [] = Ok (p', vs') /\
    getVersionedTV (fun h => (h =? UNDEFINED)%N) example_vh p' vs' = Ok DEFAULT_TV.
Proof.
  destruct (setVersionedTV_getVersionedTV (fun h => (h =? UNDEFINED)%N) NullTV
              example_vh (Some DEFAULT_TV) [] (or_intror eq_refl))
    as (p' & vs' & t & H & Ht & Hv & _).
  exists p', vs'. split; [exact H|].
  destruct (Hv eq_refl) as [Hg _]. rewrite Hg. simpl in Ht.
  injection Ht as <-. reflexivity.
Defined.

Lemma indefinite_caches_transparent_witness :
  let i := itv_init f0 (f32_of_Z 1) DEFAULT_CONFIDENCE_LEVEL in
  (itv_getMean (itv_getConfidence i).2).1 = (itv_getMean i).1.
Proof.
  exact (indefinite_caches_transparent (itv_init f0 (f32_of_Z 1) DEFAULT_CONFIDENCE_LEVEL)
           itv_getMean itv_getConfidence
           ltac:(left) ltac:(do 2 right; left)).
Defined.
