(* ===== verification/AttentionValue.v ===== *)
(** Attention values: src/opencog/atomspace/AttentionValue.cc and .h, and the
    bin function of src/opencog/atomspace/ImportanceIndex.cc.

    [sti_t] and [lti_t] are [short], [vlti_t] is [unsigned short]. *)
From S2P Require Import Prelude.

Record AttentionValue := mkAV { m_STI : Z; m_LTI : Z; m_VLTI : N }.

#[export] Instance AttentionValue_eq_dec : EqDecision AttentionValue.
Proof. solve_decision. Defined.

Definition DISPOSABLE : N := 0.
Definition NONDISPOSABLE : N := 1.
Definition DEFAULTATOMSTI : Z := 0.
Definition DEFAULTATOMLTI : Z := 0.
Definition DEFAULTATOMVLTI : N := DISPOSABLE.

(** The constructor converts its arguments to the field types. *)
Definition AV_new (STI LTI : Z) (VLTI : N) : AttentionValue :=
  mkAV (sshort STI) (sshort LTI) (wrap16 VLTI).

Definition AV_wf (av : AttentionValue) : Prop :=
  is_short (m_STI av) /\ is_short (m_LTI av) /\ (m_VLTI av < 2 ^ 16)%N.

Definition getSTI (av : AttentionValue) : Z := m_STI av.
Definition getLTI (av : AttentionValue) : Z := m_LTI av.
Definition getVLTI (av : AttentionValue) : N := m_VLTI av.

Definition decaySTI (av : AttentionValue) : AttentionValue :=
  if negb (m_STI av =? -32768)%Z
  then mkAV (sshort (m_STI av - 1)) (m_LTI av) (m_VLTI av)
  else av.

Definition AV_clone (av : AttentionValue) : AttentionValue :=
  AV_new (m_STI av) (m_LTI av) (m_VLTI av).

Definition AV_eq (av1 av2 : AttentionValue) : bool :=
  (m_STI av1 =? getSTI av2)%Z && (m_LTI av1 =? getLTI av2)%Z &&
  (m_VLTI av1 =? getVLTI av2)%N.

Definition AV_factory : AttentionValue :=
  AV_new DEFAULTATOMSTI DEFAULTATOMLTI DEFAULTATOMVLTI.
Definition AV_factory_sti (sti : Z) : AttentionValue :=
  AV_new sti DEFAULTATOMLTI DEFAULTATOMVLTI.
Definition AV_factory_sti_lti (sti lti : Z) : AttentionValue :=
  AV_new sti lti DEFAULTATOMVLTI.
Definition AV_factory_full (sti lti : Z) (vlti : N) : AttentionValue :=
  AV_new sti lti vlti.

Definition IMPORTANCE_INDEX_SIZE : N := 65536.

(** [importanceBin]: [importance + 32768] computed in [int] and returned as
    [unsigned int]. *)
Definition importanceBin (importance : Z) : N :=
  Z.to_N ((importance + 32768) mod 2 ^ 32).

Lemma importanceBin_short s :
  is_short s -> importanceBin s = Z.to_N (s + 32768).
Proof.
  unfold is_short, SHRT_MIN, SHRT_MAX, importanceBin. intros H.
  rewrite Z.mod_small; lia.
Qed.

Lemma importanceBin_range s :
  is_short s -> (importanceBin s < IMPORTANCE_INDEX_SIZE)%N.
Proof.
  intros H. rewrite importanceBin_short by done.
  unfold is_short, SHRT_MIN, SHRT_MAX, IMPORTANCE_INDEX_SIZE in *. lia.
Qed.

Lemma importanceBin_inj s1 s2 :
  is_short s1 -> is_short s2 -> importanceBin s1 = importanceBin s2 -> s1 = s2.
Proof.
  intros H1 H2. rewrite !importanceBin_short by done.
  unfold is_short, SHRT_MIN, SHRT_MAX in *. lia.
Qed.

Lemma decaySTI_sti av :
  is_short (m_STI av) -> m_STI (decaySTI av) = Z.max SHRT_MIN (m_STI av - 1).
Proof.
  intros H. unfold decaySTI.
  destruct (m_STI av =? -32768)%Z eqn:E; simpl;
    unfold is_short, SHRT_MIN, SHRT_MAX in *.
  - apply Z.eqb_eq in E. lia.
  - apply Z.eqb_neq in E. rewrite sshort_id;
      unfold is_short, SHRT_MIN, SHRT_MAX; lia.
Qed.

(** Decay lowers the short-term importance by exactly one and saturates at
    the smallest [short] instead of wrapping round; nothing else changes, the
    value stays in range, and its importance bin moves down by one or stays in
    bin 0. *)
Theorem decaySTI_saturates av :
  AV_wf av ->
  AV_wf (decaySTI av) /\
  getSTI (decaySTI av) = Z.max SHRT_MIN (getSTI av - 1) /\
  getLTI (decaySTI av) = getLTI av /\ getVLTI (decaySTI av) = getVLTI av /\
  importanceBin (getSTI (decaySTI av)) = (importanceBin (getSTI av) - 1)%N.
Proof.
  intros (Hs & Hl & Hv). unfold getSTI, getLTI, getVLTI.
  assert (Hr : is_short (Z.max SHRT_MIN (m_STI av - 1))).
  { unfold is_short, SHRT_MIN, SHRT_MAX in *. lia. }
  assert (Hf : m_LTI (decaySTI av) = m_LTI av /\ m_VLTI (decaySTI av) = m_VLTI av).
  { unfold decaySTI. by destruct (negb _). }
  destruct Hf as [HfL HfV]. unfold AV_wf.
  rewrite decaySTI_sti, HfL, HfV by done.
  split; [done|]. do 3 (split; [done|]).
  rewrite !importanceBin_short by done.
  unfold is_short, SHRT_MIN, SHRT_MAX in *. lia.
Qed.

(** [importanceBin] maps the short-term importances one-to-one onto the
    65536 bins of the importance index, in order. *)
Theorem importanceBin_bijective :
  (forall s, is_short s -> (importanceBin s < IMPORTANCE_INDEX_SIZE)%N) /\
  (forall s1 s2, is_short s1 -> is_short s2 ->
     (s1 < s2)%Z <-> (importanceBin s1 < importanceBin s2)%N) /\
  (forall b, (b < IMPORTANCE_INDEX_SIZE)%N ->
     exists s, is_short s /\ importanceBin s = b).
Proof.
  split_and!.
  - apply importanceBin_range.
  - intros s1 s2 H1 H2. rewrite !importanceBin_short by done.
    unfold is_short, SHRT_MIN, SHRT_MAX in *. lia.
  - unfold IMPORTANCE_INDEX_SIZE. intros b Hb. exists (Z.of_N b - 32768)%Z.
    assert (Hs : is_short (Z.of_N b - 32768)).
    { unfold is_short, SHRT_MIN, SHRT_MAX. lia. }
    split; [done|]. rewrite importanceBin_short by done. lia.
Qed.

(** [clone] and the constructor round trip on values in range, and
    [operator==] is equality of the three fields. *)
Theorem AV_clone_eq av1 av2 :
  AV_wf av1 ->
  AV_clone av1 = av1 /\ (AV_eq av1 av2 = true <-> av1 = av2).
Proof.
  intros (Hs & Hl & Hv). split.
  - unfold AV_clone, AV_new. rewrite !sshort_id by done.
    unfold wrap16. rewrite N.mod_small by done. by destruct av1.
  - unfold AV_eq, getSTI, getLTI, getVLTI. destruct av1, av2. simpl.
    rewrite !andb_true_iff, !Z.eqb_eq, N.eqb_eq. naive_solver.
Qed.

Lemma decaySTI_saturates_witness :
  AV_wf AV_factory /\ getSTI (decaySTI AV_factory) = (-1)%Z.
Proof.
  assert (H : AV_wf AV_factory) by (split_and!; vm_compute; done).
  split; [exact H|]. destruct (decaySTI_saturates AV_factory H) as (_ & Hd & _).
  exact Hd.
Defined.

Lemma AV_clone_eq_witness : AV_clone AV_factory = AV_factory.
Proof.
  assert (H : AV_wf AV_factory) by (split_and!; vm_compute; done).
  exact (proj1 (AV_clone_eq AV_factory AV_factory H)).
Defined.
