(* ===== verification/Atom.v ===== *)
(** Atoms: src/opencog/atomspace/Trail.cc, Atom.cc and Atom.h, Node.cc,
    Link.cc and Link.h.

    An [Atom] record is the object behind an [Atom*]; which subclass it is
    ([Node] or [Link]) is its [body]. *)
From S2P Require Import Prelude ClassServer TruthValue AttentionValue.

(** ** Trails *)
Module Trail.
Record t := mk { maxSize : Z; trail : option (list Handle) }.

Definition DEFAULT_INITIAL_TRAIL_SIZE : Z := 0.
Definition DEFAULT_MAX_TRAIL_SIZE : Z := 1000.

(** [new std::deque<Handle>(n)] holds [n] undefined handles; a negative size
    is converted to a huge one and the allocation fails. *)
Definition init (initialSize max : Z) : res t :=
  if (max <? initialSize)%Z then Throw InvalidParamException
  else if (initialSize <? 0)%Z then Undef
  else if negb (initialSize =? 0)%Z
  then Ok (mk max (Some (replicate (Z.to_nat initialSize) UNDEFINED)))
  else Ok (mk max None).

Definition new : res t := init DEFAULT_INITIAL_TRAIL_SIZE DEFAULT_MAX_TRAIL_SIZE.

Definition getSize (tr : t) : nat :=
  match trail tr with None => 0 | Some l => length l end.

Section with_getAtom.
(** [TLB::getAtom], whose results are compared as pointers. *)
Context (getAtom : Handle -> option positive).

Definition isInTrail (link : Handle) (tr : t) : bool :=
  match trail tr with
  | None => false
  | Some l => existsb (fun x => bool_decide (getAtom link = getAtom x)) l
  end.

Definition insert (link : Handle) (fresh : bool) (tr : t) : res t :=
  tr ← match trail tr with None => init 1 (maxSize tr) | Some _ => Ok tr end;
  if fresh && isInTrail link tr then Ok tr
  else
    l ← of_opt (trail tr);
    let l := l ++ [link] in
    Ok (mk (maxSize tr)
          (Some (if (maxSize tr <? Z.of_nat (length l))%Z then tail l else l))).

(** [operator[]] of the deque at [size] or below 0 is undefined. *)
Definition getElement (index : Z) (tr : t) : res Handle :=
  match trail tr with
  | None => Throw IndexErrorException
  | Some l =>
      if (Z.of_nat (length l) <? index)%Z then Throw IndexErrorException
      else if (index <? 0)%Z then Undef
      else of_opt (l !! Z.to_nat index)
  end.

(** [append] of another trail. *)
Definition append (other tr : t) : res t :=
  if (getSize other =? 0)%nat then Ok tr
  else
    tr ← match trail tr with None => init 1 (maxSize tr) | Some _ => Ok tr end;
    rfold (fun tr i =>
             link ← getElement (Z.of_nat i) other; insert link true tr)
      tr (seq 0 (getSize other)).
End with_getAtom.

(** The bound a trail promises. *)
Definition bounded (tr : t) : Prop := (Z.of_nat (getSize tr) <= maxSize tr)%Z.

Lemma insert_ok getAtom link fresh tr :
  bounded tr -> (1 <= maxSize tr)%Z ->
  exists tr', insert getAtom link fresh tr = Ok tr' /\ bounded tr' /\
    maxSize tr' = maxSize tr /\
    (fresh = false -> exists l, trail tr' = Some (l ++ [link])).
Proof.
  unfold bounded, insert, getSize. intros Hb Hm.
  assert (Hi : exists l, match trail tr with None => init 1 (maxSize tr) | Some _ => Ok tr end
                 = Ok (mk (maxSize tr) (Some l)) /\ (Z.of_nat (length l) <= maxSize tr)%Z).
  { destruct tr as [m [l|]]; simpl in *; [by exists l|].
    unfold init. rewrite (proj2 (Z.ltb_ge m 1)) by lia. simpl.
    eexists; split; [done|]. simpl. lia. }
  destruct Hi as (l & -> & Hl). simpl.
  destruct (fresh && _) eqn:Ef.
  { eexists. split; [done|]. simpl. split; [done|]. split; [done|].
    intros ->. done. }
  eexists. split; [done|]. simpl. rewrite length_app. simpl.
  destruct (Z.ltb_spec (maxSize tr) (Z.of_nat (length l + 1))) as [Hlt|Hge].
  - destruct l as [|x l]; simpl in *; [lia|]. rewrite length_app. simpl.
    split; [lia|]. split; [done|]. intros _. by exists l.
  - rewrite length_app. simpl. split; [lia|]. split; [done|]. intros _. by exists l.
Qed.
End Trail.

(** ** Atoms *)
Inductive AtomBody :=
  | NodeBody (name : string)
  | LinkBody (outgoing : list Handle) (trail : Trail.t).

Record Atom := mkAtom {
  a_handle : Handle;
  a_type : N;
  a_inTable : bool;                  (* atomTable != NULL *)
  a_incoming : list Handle;          (* the linked list, first entry first *)
  a_flags : N;
  a_truthValue : TruthValue;
  a_attentionValue : AttentionValue;
  a_body : AtomBody
}.

Definition WRITE_MUTEX : N := 1.
Definition MARKED_FOR_REMOVAL : N := 2.
Definition FIRED_ACTIVATION : N := 8.
Definition HYPOTETHICAL_FLAG : N := 16.
Definition REMOVED_BY_DECAY : N := 32.

Definition set_handle h a := mkAtom h (a_type a) (a_inTable a) (a_incoming a)
  (a_flags a) (a_truthValue a) (a_attentionValue a) (a_body a).
Definition set_inTable b a := mkAtom (a_handle a) (a_type a) b (a_incoming a)
  (a_flags a) (a_truthValue a) (a_attentionValue a) (a_body a).
Definition set_incoming l a := mkAtom (a_handle a) (a_type a) (a_inTable a) l
  (a_flags a) (a_truthValue a) (a_attentionValue a) (a_body a).
Definition set_flags f a := mkAtom (a_handle a) (a_type a) (a_inTable a)
  (a_incoming a) f (a_truthValue a) (a_attentionValue a) (a_body a).
Definition set_tv tv a := mkAtom (a_handle a) (a_type a) (a_inTable a)
  (a_incoming a) (a_flags a) tv (a_attentionValue a) (a_body a).
Definition set_av av a := mkAtom (a_handle a) (a_type a) (a_inTable a)
  (a_incoming a) (a_flags a) (a_truthValue a) av (a_body a).
Definition set_body b a := mkAtom (a_handle a) (a_type a) (a_inTable a)
  (a_incoming a) (a_flags a) (a_truthValue a) (a_attentionValue a) b.

(** [dynamic_cast<Node*>] and [dynamic_cast<Link*>] on the object. *)
Definition isLinkObj (a : Atom) : bool :=
  match a_body a with LinkBody _ _ => true | NodeBody _ => false end.
Definition isNodeObj (a : Atom) : bool := negb (isLinkObj a).

Definition outgoing (a : Atom) : list Handle :=
  match a_body a with LinkBody o _ => o | NodeBody _ => [] end.
Definition getName (a : Atom) : string :=
  match a_body a with NodeBody n => n | LinkBody _ _ => EmptyString end.

(** [Arity] is [unsigned short]: [outgoing.size()] is truncated. *)
Definition getArity (a : Atom) : N := wrap16 (N.of_nat (length (outgoing a))).

(** The members of the outgoing set that a loop [for (i = 0; i < getArity();
    i++)] visits, in order. *)
Definition targets (a : Atom) : list Handle :=
  take (N.to_nat (getArity a)) (outgoing a).

(** [name.c_str()] as a C string: up to the first NUL. *)
Fixpoint c_str (s : string) : string :=
  match s with
  | EmptyString => EmptyString
  | String c s' => if decide (c = Ascii.zero) then EmptyString else String c (c_str s')
  end.

(** *** Flags: a [char] *)
Definition getFlag (flag : N) (a : Atom) : bool :=
  negb (N.land (a_flags a) flag =? 0)%N.
Definition setFlag (flag : N) (value : bool) (a : Atom) : Atom :=
  set_flags (if value then N.lor (a_flags a) flag else N.ldiff (a_flags a) flag) a.
Definition isMarkedForRemoval (a : Atom) : bool := getFlag MARKED_FOR_REMOVAL a.
Definition markForRemoval (a : Atom) : Atom :=
  set_flags (N.lor (a_flags a) MARKED_FOR_REMOVAL) a.
Definition unsetRemovalFlag (a : Atom) : Atom :=
  set_flags (N.ldiff (a_flags a) MARKED_FOR_REMOVAL) a.

Definition isOld (threshold : Z) (a : Atom) : bool :=
  (getSTI (a_attentionValue a) <? threshold)%Z && (getLTI (a_attentionValue a) <? 1)%Z.

(** *** Incoming set *)
Definition addIncomingHandle (h : Handle) (a : Atom) : Atom :=
  set_incoming (h :: a_incoming a) a.

(** The scan behind the first entry. *)
Fixpoint removeIncoming_scan (h : Handle) (rest : list Handle) : res (list Handle) :=
  match rest with
  | [] => Throw RuntimeException
  | x :: rest' =>
      if (x =? h)%N then Ok rest'
      else r ← removeIncoming_scan h rest'; Ok (x :: r)
  end.

Definition removeIncomingHandle (h : Handle) (a : Atom) : res Atom :=
  match a_incoming a with
  | [] => Throw RuntimeException
  | x :: rest =>
      if (x =? h)%N then Ok (set_incoming rest a)
      else r ← removeIncoming_scan h rest; Ok (set_incoming (x :: r) a)
  end.

(** *** Truth value *)
Definition setTruthValue (tv : TruthValue) (a : Atom) : res Atom :=
  t ← clone tv; Ok (set_tv t a).

(** ** Node and Link *)
Section classes.
Context (cs : ClassServer).

(** The global type variables hold the codes returned by [addType]. *)
Definition ATOM : N := getType cs "Atom".
Definition NODE : N := getType cs "Node".
Definition LINK : N := getType cs "Link".
Definition ORDERED_LINK : N := getType cs "OrderedLink".
Definition UNORDERED_LINK : N := getType cs "UnorderedLink".

(** [classserver().isA] as a test; [isA_wf] shows that it is total on a
    well-formed class server. *)
Definition isAb (sub super : N) : bool :=
  match isA cs sub super with Ok b => b | _ => false end.

(** [Atom::init]. *)
Definition Atom_init (t : N) (tv : TruthValue) (body : AtomBody) : res Atom :=
  tv' ← (if isNullTv tv then clone DEFAULT_TV else clone tv);
  Ok (mkAtom UNDEFINED t false [] 0 tv' AV_factory body).

Definition Node_new (t : N) (name : string) (tv : TruthValue) : res Atom :=
  a ← Atom_init t tv (NodeBody EmptyString);
  if negb (isAb t NODE) then Throw InvalidParamException
  else Ok (set_body (NodeBody name) a).

(** [std::sort] with [HandleComparison]: handles are integers, so the sorted
    vector does not depend on the algorithm. *)
Definition sort_handles (l : list Handle) : list Handle := merge_sort N.le l.

Definition setOutgoingSet (outg : list Handle) (a : Atom) : res Atom :=
  if a_inTable a then Throw RuntimeException
  else match a_body a with
       | LinkBody _ tr =>
           Ok (set_body (LinkBody (if isAb (a_type a) UNORDERED_LINK
                                   then sort_handles outg else outg) tr) a)
       | NodeBody _ => Undef
       end.

Definition Link_new (t : N) (outg : list Handle) (tv : TruthValue) : res Atom :=
  tr ← Trail.new;
  a ← Atom_init t tv (LinkBody [] tr);
  if negb (isAb t LINK) then Throw InvalidParamException
  else setOutgoingSet outg a.

Definition setName (name : string) (a : Atom) : res Atom :=
  if a_inTable a then Throw RuntimeException
  else Ok (set_body (NodeBody name) a).

Definition addOutgoingAtom (h : Handle) (a : Atom) : Atom :=
  match a_body a with
  | LinkBody o tr => set_body (LinkBody (o ++ [h]) tr) a
  | NodeBody _ => a
  end.

Definition getOutgoingHandle (pos : Z) (a : Atom) : res Handle :=
  if (0 <=? pos)%Z && (pos <? Z.of_N (getArity a))%Z
  then of_opt (outgoing a !! Z.to_nat pos)
  else Throw RuntimeException.

Definition contains_from (from : nat) (h : Handle) (a : Atom) : bool :=
  existsb (fun x => (x =? h)%N) (drop from (targets a)).

Definition isSource (h : Handle) (a : Atom) : res bool :=
  if isAb (a_type a) ORDERED_LINK then
    Ok match targets a with [] => false | x :: _ => (x =? h)%N end
  else if isAb (a_type a) UNORDERED_LINK then Ok (contains_from 0 h a)
  else Throw InvalidParamException.

Definition isSource_at (i : Z) (a : Atom) : res bool :=
  if (Z.of_N (getArity a) <? i)%Z || (i <? 0)%Z then Throw IndexErrorException
  else if isAb (a_type a) ORDERED_LINK then Ok (i =? 0)%Z
  else if isAb (a_type a) UNORDERED_LINK then Ok true
  else Throw InvalidParamException.

Definition isTarget (h : Handle) (a : Atom) : res bool :=
  if isAb (a_type a) ORDERED_LINK then Ok (contains_from 1 h a)
  else if isAb (a_type a) UNORDERED_LINK then Ok (contains_from 0 h a)
  else Throw InvalidParamException.

Definition isTarget_at (i : Z) (a : Atom) : res bool :=
  if (Z.of_N (getArity a) <? i)%Z || (i <? 0)%Z then Throw IndexErrorException
  else if isAb (a_type a) ORDERED_LINK then Ok (negb (i =? 0)%Z)
  else if isAb (a_type a) UNORDERED_LINK then Ok true
  else Throw InvalidParamException.
End classes.

(** [Link::operator==] and [Node::operator==]: after the type test the other
    object is cast to the same class. The loop of the link compares the first
    [getArity()] members. *)
Definition atom_eq (a b : Atom) : res bool :=
  if negb (a_type a =? a_type b)%N then Ok false
  else match a_body a, a_body b with
       | NodeBody n, NodeBody n' => Ok (bool_decide (n = n'))
       | LinkBody _ _, LinkBody _ _ =>
           if negb (getArity a =? getArity b)%N then Ok false
           else Ok (bool_decide (targets a = targets b))
       | _, _ => Throw BadCast
       end.

(** [hashCode]: [size_t] arithmetic; [boost::hash<std::string>] is a parameter,
    and shifting a 64-bit value by 64 or more is undefined. *)
Definition hashCode (string_hash : string -> N) (a : Atom) : res N :=
  match a_body a with
  | NodeBody n => Ok (N.lxor (a_type a) (string_hash n))
  | LinkBody o _ =>
      rfold (fun result (ih : nat * Handle) =>
               if (64 <=? ih.1)%nat then Undef
               else Ok (N.lxor result (wrap64 (N.shiftl ih.2 (N.of_nat ih.1)))))
        (wrap64 (a_type a + N.shiftl (getArity a) 8))
        (imap (fun i h => (i, h)) (targets a))
  end.

(** ** Lemmas *)
Lemma c_str_idem s : c_str (c_str s) = c_str s.
Proof.
  induction s as [|c s IH]; [done|]. cbn [c_str]. destruct (decide (c = Ascii.zero)) as [|Hc].
  - done.
  - cbn [c_str]. by rewrite decide_False, IH.
Qed.

Lemma removeIncoming_spec h a :
  (exists l1 l2, a_incoming a = (l1 ++ h :: l2) /\ (h ∉ l1) /\
     removeIncomingHandle h a = Ok (set_incoming (l1 ++ l2) a)) \/
  ((h ∉ a_incoming a) /\ removeIncomingHandle h a = Throw RuntimeException).
Proof.
  unfold removeIncomingHandle. destruct (a_incoming a) as [|x rest] eqn:Ea.
  { right. split; [apply not_elem_of_nil|done]. }
  assert (Hscan :
    (exists l1 l2, rest = (l1 ++ h :: l2) /\ (h ∉ l1) /\
                   removeIncoming_scan h rest = Ok (l1 ++ l2)) \/
    ((h ∉ rest) /\ removeIncoming_scan h rest = Throw RuntimeException)).
  { clear Ea. induction rest as [|y r IH]; simpl.
    { right. split; [apply not_elem_of_nil|done]. }
    destruct (N.eqb_spec y h) as [->|Hne].
    - left. exists [], r. split; [done|]. split; [apply not_elem_of_nil|done].
    - destruct IH as [(l1 & l2 & -> & Hn & ->)|[Hn ->]].
      + left. exists (y :: l1), l2. split; [done|]. split; [set_solver|done].
      + right. split; [set_solver|done]. }
  destruct (N.eqb_spec x h) as [->|Hne].
  - left. exists [], rest. split; [done|]. split; [apply not_elem_of_nil|done].
  - destruct Hscan as [(l1 & l2 & -> & Hn & ->)|[Hn ->]].
    + left. exists (x :: l1), l2. split; [done|]. split; [set_solver|done].
    + right. split; [set_solver|done].
Qed.

Lemma targets_le a : (N.to_nat (getArity a) <= length (outgoing a))%nat.
Proof.
  unfold getArity, wrap16.
  pose proof (N.Div0.mod_le (N.of_nat (length (outgoing a))) (2 ^ 16)). lia.
Qed.

Lemma length_targets a : length (targets a) = N.to_nat (getArity a).
Proof. unfold targets. rewrite length_take. pose proof (targets_le a). lia. Qed.

Lemma targets_full a :
  (N.of_nat (length (outgoing a)) < 2 ^ 16)%N -> targets a = outgoing a.
Proof.
  intros H. unfold targets, getArity, wrap16. rewrite N.mod_small by done.
  rewrite Nat2N.id. apply firstn_all.
Qed.

Lemma getFlag_lor f g a n :
  a_flags a = n -> getFlag f (set_flags (N.lor n g) a) =
    getFlag f a || negb (N.land g f =? 0)%N.
Proof.
  intros <-. unfold getFlag. simpl.
  rewrite N.land_lor_distr_l. apply eq_true_iff_eq.
  rewrite orb_true_iff, !negb_true_iff, !N.eqb_neq, N.lor_eq_0_iff. lia.
Qed.

Lemma marked_markForRemoval a : isMarkedForRemoval (markForRemoval a) = true.
Proof.
  unfold isMarkedForRemoval, markForRemoval. rewrite (getFlag_lor _ _ _ (a_flags a)) by done.
  by rewrite orb_true_r.
Qed.

Lemma marked_unset a : isMarkedForRemoval (unsetRemovalFlag a) = false.
Proof.
  unfold isMarkedForRemoval, unsetRemovalFlag, getFlag. simpl.
  by rewrite N.land_ldiff.
Qed.

Lemma unset_mark a :
  isMarkedForRemoval a = false -> unsetRemovalFlag (markForRemoval a) = a.
Proof.
  unfold isMarkedForRemoval, getFlag, unsetRemovalFlag, markForRemoval. intros H.
  destruct a as [h t b i f tv av body]. simpl in *. unfold set_flags. simpl. f_equal.
  apply negb_false_iff, N.eqb_eq in H.
  apply N.bits_inj. intros n. rewrite N.ldiff_spec, N.lor_spec.
  assert (Hn : N.testbit f n && N.testbit MARKED_FOR_REMOVAL n = false).
  { rewrite <- N.land_spec, H. apply N.bits_0. }
  by destruct (N.testbit f n), (N.testbit MARKED_FOR_REMOVAL n).
Qed.

Lemma sort_handles_perm l : sort_handles l ≡ₚ l.
Proof. apply merge_sort_Permutation. Qed.

Lemma sort_handles_unique l1 l2 : l1 ≡ₚ l2 -> sort_handles l1 = sort_handles l2.
Proof.
  intros H. apply (Sorted_unique N.le).
  - apply (Sorted_merge_sort N.le).
  - apply (Sorted_merge_sort N.le).
  - by rewrite !sort_handles_perm.
Qed.

(** ** Properties *)

(** [removeIncomingHandle] takes exactly one occurrence of the handle out
    of the incoming list, keeps the order of the rest and changes nothing else;
    it throws when the handle is not there. *)
Theorem removeIncomingHandle_correct h a :
  (h ∈ a_incoming a ->
     exists l1 l2, a_incoming a = (l1 ++ h :: l2) /\ (h ∉ l1) /\
       removeIncomingHandle h a = Ok (set_incoming (l1 ++ l2) a)) /\
  ((h ∉ a_incoming a) -> removeIncomingHandle h a = Throw RuntimeException).
Proof.
  destruct (removeIncoming_spec h a) as [(l1 & l2 & Ha & Hn & Hr)|[Hn Hr]].
  - split; [intros _; by exists l1, l2|]. intros Hni. exfalso. apply Hni.
    rewrite Ha. set_solver.
  - split; [done|]. by intros _.
Qed.

Lemma clone_default tv :
  tv_ok tv \/ tv = NullTV ->
  exists t, (if isNullTv tv then clone DEFAULT_TV else clone tv) = Ok t.
Proof.
  intros [Hok| ->]; [|by eexists]. destruct (clone_ok _ Hok) as [H _].
  exists (cl tv). by destruct tv.
Qed.

(** C40. Building a link: for a link type and a well-formed (or null) truth
    value the constructor succeeds with an atom outside every table; an ordered
    link keeps its outgoing set, and an unordered link is normalised to the
    members in ascending order, so two permutations of one outgoing set give
    the same link. Any other type throws [InvalidParamException]. *)
Theorem Link_new_normalised cs t tv o1 o2 :
  tv_ok tv \/ tv = NullTV ->
  (isAb cs t (LINK cs) = false ->
     Link_new cs t o1 tv = Throw InvalidParamException) /\
  (isAb cs t (LINK cs) = true ->
     exists a, Link_new cs t o1 tv = Ok a /\ a_type a = t /\
       a_handle a = UNDEFINED /\ a_inTable a = false /\ a_incoming a = [] /\
       (outgoing a ≡ₚ o1) /\
       (isAb cs t (UNORDERED_LINK cs) = false -> outgoing a = o1) /\
       (isAb cs t (UNORDERED_LINK cs) = true ->
          StronglySorted N.le (outgoing a) /\
          (o1 ≡ₚ o2 -> Link_new cs t o2 tv = Ok a))).
Proof.
  intros Htv. destruct (clone_default _ Htv) as (t' & Ht').
  unfold Link_new, Atom_init. rewrite Ht'. simpl. split.
  - intros ->. done.
  - intros ->. simpl. unfold setOutgoingSet. simpl.
    eexists. split; [done|]. do 4 (split; [done|]). unfold outgoing. simpl.
    destruct (isAb cs t (UNORDERED_LINK cs)).
    + split; [apply sort_handles_perm|]. split; [done|].
      intros _. split; [apply (StronglySorted_merge_sort N.le)|].
      intros Hp. by rewrite (sort_handles_unique o1 o2).
    + done.
Qed.

(** Sources and targets: a link of either kind contains a handle exactly
    when the handle is a source or a target of it; the source of an ordered
    link is its first member only, and an unordered link makes no
    difference. *)
Theorem isSource_isTarget cs h a :
  isAb cs (a_type a) (ORDERED_LINK cs) = true \/
  isAb cs (a_type a) (UNORDERED_LINK cs) = true ->
  exists s t, isSource cs h a = Ok s /\ isTarget cs h a = Ok t /\
    (h ∈ targets a <-> s = true \/ t = true) /\
    (isAb cs (a_type a) (ORDERED_LINK cs) = true ->
       (s = true <-> head (targets a) = Some h)) /\
    (isAb cs (a_type a) (ORDERED_LINK cs) = false -> s = t).
Proof.
  assert (Hex : forall l, existsb (fun x => (x =? h)%N) l = true <-> h ∈ l).
  { intros l. rewrite existsb_exists. split.
    - intros (x & Hx & ->%N.eqb_eq). by apply list_elem_of_In.
    - intros H. exists h. split; [by apply list_elem_of_In|apply N.eqb_refl]. }
  unfold isSource, isTarget, contains_from. intros Hk.
  destruct (isAb cs (a_type a) (ORDERED_LINK cs)) eqn:Eo.
  - eexists _, _. split; [done|]. split; [done|]. rewrite Hex.
    destruct (targets a) as [|x l]; simpl.
    + split; [|done]. rewrite elem_of_nil. naive_solver.
    + rewrite drop_0, N.eqb_eq. split; [|naive_solver].
      rewrite elem_of_cons. naive_solver.
  - destruct Hk as [|Hu]; [done|]. rewrite Hu.
    eexists _, _. split; [done|]. split; [done|].
    rewrite Hex, drop_0. naive_solver.
Qed.

(** The contract of the atom hash set: atoms that compare equal have the
    same hash code. *)
Theorem hashCode_respects_eq string_hash a b :
  atom_eq a b = Ok true -> hashCode string_hash a = hashCode string_hash b.
Proof.
  unfold atom_eq, hashCode.
  destruct (N.eqb_spec (a_type a) (a_type b)) as [Ht|]; [simpl|done].
  destruct (a_body a) as [n|o tr], (a_body b) as [n'|o' tr']; try done.
  - intros [= H%bool_decide_eq_true]. by rewrite Ht, H.
  - destruct (N.eqb_spec (getArity a) (getArity b)) as [Ha|]; [simpl|done].
    intros [= H%bool_decide_eq_true]. by rewrite Ht, Ha, H.
Qed.

Lemma rfold_Undef {A B} (f : B -> A -> res B) b l :
  (exists l1 x l2, l = l1 ++ x :: l2 /\ (forall b', f b' x = Undef) /\
     Forall (fun y => forall b', exists b'', f b' y = Ok b'') l1) ->
  rfold f b l = Undef.
Proof.
  intros (l1 & x & l2 & -> & Hx & Hf). revert b.
  induction Hf as [|y l1 Hy _ IH]; intros b; simpl; [by rewrite Hx|].
  destruct (Hy b) as (b' & ->). simpl. apply IH.
Qed.

(** Hashing is undefined behaviour for a link with more than 64 members:
    the code shifts a 64-bit word by the position of each member. *)
Theorem hashCode_long_link string_hash a :
  isLinkObj a = true -> (64 < getArity a)%N -> hashCode string_hash a = Undef.
Proof.
  unfold isLinkObj, hashCode. destruct (a_body a) as [|o tr]; [done|]. intros _ Hl.
  apply rfold_Undef. set (l := imap (fun i h => (i, h)) (targets a)).
  assert (Hlen : (64 < length l)%nat).
  { unfold l. rewrite length_imap, length_targets. lia. }
  assert (Hi : forall i p, l !! i = Some p -> p.1 = i).
  { intros i p. unfold l. rewrite list_lookup_imap.
    intros (h & _ & Hp)%fmap_Some. by subst p. }
  destruct (lookup_lt_is_Some_2 l 64 Hlen) as [x Hx].
  exists (take 64 l), x, (drop 65 l). split_and!.
  - by rewrite (take_drop_middle l 64 x Hx).
  - intros b'. by rewrite (Hi _ _ Hx).
  - apply Forall_forall. intros p [i Hp]%list_elem_of_lookup b'.
    rewrite lookup_take_Some in Hp. destruct Hp as [Hp Hlt].
    rewrite (Hi _ _ Hp). destruct (Nat.leb_spec 64 i); [lia|]. eauto.
Qed.

(** Trails are bounded: inserting into a trail with room for at least one
    handle never fails and never makes it longer than its maximum; an
    unconditional insertion puts the handle at the end. *)
Theorem Trail_insert_bounded getAtom link fresh tr :
  Trail.bounded tr -> (1 <= Trail.maxSize tr)%Z ->
  exists tr', Trail.insert getAtom link fresh tr = Ok tr' /\ Trail.bounded tr' /\
    Trail.maxSize tr' = Trail.maxSize tr /\
    (fresh = false -> exists l, Trail.trail tr' = Some (l ++ [link])).
Proof. apply Trail.insert_ok. Qed.

(** What a fresh trail really holds: the deque is created with one
    (undefined) handle, so after the first insertion the size is 2 and the
    first element is the undefined handle; and reading the element at the size
    of the trail passes the bounds check of [getElement] and is undefined. *)
Theorem Trail_first_insert getAtom link :
  getAtom UNDEFINED <> getAtom link ->
  exists tr tr', Trail.new = Ok tr /\
    Trail.insert getAtom link true tr = Ok tr' /\ Trail.getSize tr' = 2 /\
    Trail.getElement 0 tr' = Ok UNDEFINED /\ Trail.getElement 1 tr' = Ok link /\
    Trail.getElement 2 tr' = Undef.
Proof.
  intros Hne. eexists _, (Trail.mk 1000 (Some [UNDEFINED; link])).
  split; [reflexivity|]. split; [|done].
  unfold Trail.insert. simpl. unfold Trail.isInTrail. simpl.
  rewrite bool_decide_false by congruence. reflexivity.
Qed.

(** Flags: setting a flag makes it readable, clearing it unreadable, and
    flags with no common bit do not interfere. *)
Theorem flags_independent f g v a :
  N.land f g = 0%N -> f <> 0%N ->
  getFlag f (setFlag f v a) = v /\ getFlag g (setFlag f v a) = getFlag g a.
Proof.
  intros Hd Hf. unfold setFlag. destruct v.
  - rewrite !(getFlag_lor _ _ _ (a_flags a)), Hd by done. simpl.
    rewrite N.land_diag, (proj2 (N.eqb_neq f 0)) by done. by destruct (getFlag f a), (getFlag g a).
  - unfold getFlag. simpl. rewrite N.land_ldiff. split; [done|]. f_equal. f_equal.
    apply N.bits_inj. intros n. rewrite !N.land_spec, N.ldiff_spec.
    assert (Hn : N.testbit f n && N.testbit g n = false).
    { rewrite <- N.land_spec, Hd. apply N.bits_0. }
    by destruct (N.testbit (a_flags a) n), (N.testbit f n), (N.testbit g n).
Qed.

(** ** Witnesses *)

(** A small type hierarchy for the witnesses of this and later files. *)
Definition small_types : list (string * string) :=
  [("Atom", "Node"); ("Atom", "Link"); ("Node", "ConceptNode");
   ("Link", "OrderedLink"); ("Link", "UnorderedLink");
   ("OrderedLink", "ListLink"); ("UnorderedLink", "SetLink")]%string.
Definition small_cs : ClassServer :=
  Eval vm_compute in
    match declare_all small_types base_cs with Ok cs => cs | _ => base_cs end.

Definition some_atom : Atom :=
  mkAtom 3 6 true [] 0 DEFAULT_TV AV_factory
    (LinkBody [1; 2]%N (Trail.mk 1000 None)).
Definition long_atom : Atom :=
  mkAtom 3 6 true [] 0 DEFAULT_TV AV_factory
    (LinkBody (replicate 65 1%N) (Trail.mk 1000 None)).

Lemma Link_new_normalised_witness :
  exists a, Link_new small_cs 7 [2; 1]%N DEFAULT_TV = Ok a /\
            Link_new small_cs 7 [1; 2]%N DEFAULT_TV = Ok a.
Proof.
  destruct (Link_new_normalised small_cs 7 DEFAULT_TV [2; 1]%N [1; 2]%N (or_introl I))
    as [_ H].
  destruct (H ltac:(vm_compute; reflexivity)) as (a & Ha & _ & _ & _ & _ & _ & _ & Hu).
  exists a. split; [exact Ha|].
  exact (proj2 (Hu ltac:(vm_compute; reflexivity)) (Permutation_swap 1%N 2%N [])).
Defined.

Lemma isSource_isTarget_witness :
  exists s t, isSource small_cs 2 some_atom = Ok s /\
              isTarget small_cs 2 some_atom = Ok t /\ (s = true \/ t = true).
Proof.
  assert (Ho : isAb small_cs (a_type some_atom) (ORDERED_LINK small_cs) = true)
    by (vm_compute; reflexivity).
  destruct (isSource_isTarget small_cs 2 some_atom (or_introl Ho))
    as (s & t & Hs & Ht & H & _).
  exists s, t. split; [exact Hs|]. split; [exact Ht|].
  apply (proj1 H). vm_compute. right. left.
Defined.

Lemma hashCode_respects_eq_witness :
  hashCode (fun _ => 0%N) some_atom = hashCode (fun _ => 0%N) (set_handle 9 some_atom).
Proof.
  apply (hashCode_respects_eq (fun _ => 0%N) some_atom (set_handle 9 some_atom)).
  reflexivity.
Defined.

Lemma hashCode_long_link_witness : hashCode (fun _ => 0%N) long_atom = Undef.
Proof. apply (hashCode_long_link (fun _ => 0%N) long_atom); reflexivity. Defined.

Lemma Trail_insert_bounded_witness :
  exists tr', Trail.insert (fun _ => None) 5%N false (Trail.mk 1000 None) = Ok tr' /\
    Trail.bounded tr'.
Proof.
  destruct (Trail_insert_bounded (fun _ => None) 5%N false (Trail.mk 1000 None)
              ltac:(vm_compute; discriminate) ltac:(vm_compute; discriminate))
    as (tr' & H & Hb & _).
  exists tr'. split; [exact H|exact Hb].
Defined.

Lemma Trail_first_insert_witness :
  exists tr tr',
    Trail.insert (fun h => if (h =? 5)%N then Some 1%positive else None) 5%N true tr = Ok tr'
    /\ Trail.getElement 0 tr' = Ok UNDEFINED.
Proof.
  destruct (Trail_first_insert (fun h => if (h =? 5)%N then Some 1%positive else None) 5%N
              ltac:(vm_compute; discriminate)) as (tr & tr' & _ & H & _ & H0 & _).
  exists tr, tr'. exact (conj H H0).
Defined.

Lemma flags_independent_witness :
  getFlag REMOVED_BY_DECAY (setFlag REMOVED_BY_DECAY true some_atom) = true.
Proof.
  apply (proj1 (flags_independent REMOVED_BY_DECAY MARKED_FOR_REMOVAL true some_atom
                  eq_refl ltac:(discriminate))).
Defined.
