(* ===== verification/TLB.v ===== *)
(** The atom store: src/opencog/atomspace/TLB.h, TLB.cc, and the methods of
    Atom.cc and Link.h that go through it.

    The heap maps the addresses of live [Atom] objects to the objects; the TLB
    maps handles to addresses, so two handles may name one object and an
    object may be in the heap and not in the TLB. *)
From S2P Require Import Prelude ClassServer TruthValue AttentionValue Atom.

Record TLB := mkTLB {
  heap : gmap positive Atom;
  handle_map : gmap Handle positive;
  brk_uuid : N
}.

Definition TLB_empty : TLB := mkTLB ∅ ∅ 1.

(** [TLB::getAtom]: [None] is the null pointer. *)
Definition getAtom (t : TLB) (h : Handle) : option positive := handle_map t !! h.

(** The object behind a handle, as [TLB::getAtom(h)->...] reads it. *)
Definition atomOf (t : TLB) (h : Handle) : option Atom :=
  getAtom t h ≫= fun p => heap t !! p.

(** [TLB::getHandle(atom)]. *)
Definition getHandle_tlb (a : Atom) : res Handle :=
  if (a_handle a =? UNDEFINED)%N then Throw InvalidParamException
  else Ok (a_handle a).

Definition set_atom (p : positive) (a : Atom) (t : TLB) : TLB :=
  mkTLB (<[p := a]> (heap t)) (handle_map t) (brk_uuid t).

(** [new Node(...)], [new Link(...)]: an object at an address not in use. *)
Definition new_atom (a : Atom) (t : TLB) : positive * TLB :=
  let p := fresh (dom (heap t)) in (p, set_atom p a t).

(** [delete atom]: the destructor throws when atoms still point to it. *)
Definition delete_atom (p : positive) (t : TLB) : res TLB :=
  a ← of_opt (heap t !! p);
  match a_incoming a with
  | [] => Ok (mkTLB (delete p (heap t)) (handle_map t) (brk_uuid t))
  | _ :: _ => Throw RuntimeException
  end.

(** [TLB::addAtom(atom, handle)]. *)
Definition TLB_addAtom (p : positive) (handle : Handle) (t : TLB)
    : res (Handle * TLB) :=
  a ← of_opt (heap t !! p);
  if negb (a_handle a =? UNDEFINED)%N then Throw InvalidParamException
  else
    let '(ha, brk) := if (handle =? UNDEFINED)%N
                      then (brk_uuid t, wrap64 (brk_uuid t + 1))
                      else (handle, brk_uuid t) in
    Ok (ha, mkTLB (<[p := set_handle ha a]> (heap t))
              (<[ha := p]> (handle_map t)) brk).

(** [TLB::removeAtom(atom)]. *)
Definition TLB_removeAtom (p : positive) (t : TLB) : res TLB :=
  a ← of_opt (heap t !! p);
  if (a_handle a =? UNDEFINED)%N then Throw InvalidParamException
  else Ok (mkTLB (<[p := set_handle UNDEFINED a]> (heap t))
             (delete (a_handle a) (handle_map t)) (brk_uuid t)).

Definition isInvalidHandle (t : TLB) (h : Handle) : bool :=
  (h =? UNDEFINED)%N || (brk_uuid t <=? h)%N || bool_decide (getAtom t h = None).
Definition isValidHandle (t : TLB) (h : Handle) : bool := negb (isInvalidHandle t h).

Definition getMaxUUID (t : TLB) : N := brk_uuid t.
Definition reserve_range (lo hi : N) (t : TLB) : TLB :=
  if (brk_uuid t <=? hi)%N
  then mkTLB (heap t) (handle_map t) (wrap64 (hi + 1))
  else t.

(** A member call [TLB::getAtom(h)->f()] that changes the object. *)
Definition on_atom (h : Handle) (f : Atom -> res Atom) (t : TLB) : res TLB :=
  p ← of_opt (getAtom t h);
  a ← of_opt (heap t !! p);
  a' ← f a;
  Ok (set_atom p a' t).

(** [Link::getOutgoingAtom(pos)]: a pointer, possibly null. *)
Definition getOutgoingAtom (t : TLB) (pos : Z) (a : Atom) : res (option positive) :=
  h ← getOutgoingHandle pos a; Ok (getAtom t h).

(** [getOutgoingAtom(pos)->...]: the object behind it. *)
Definition outgoingAtom (t : TLB) (pos : Z) (a : Atom) : res Atom :=
  o ← getOutgoingAtom t pos a;
  p ← of_opt o; of_opt (heap t !! p).

(** [Atom::getNeighbors]: new entries are put in front of the answer. *)
Section neighbors.
Context (cs : ClassServer) (t : TLB).

Definition getNeighbors_link (me : Handle) (fanin fanout : bool) (link : Atom)
    (answer : list Handle) : res (list Handle) :=
  rfold (fun answer handle =>
      if (handle =? me)%N then Ok answer else
      skip ← (if fanout then Ok false else isSource cs me link);
      if skip : bool then Ok answer else
      skip ← (if fanin then Ok false else isTarget cs me link);
      if skip : bool then Ok answer else Ok (handle :: answer))
    answer (targets link).

Definition getNeighbors (fanin fanout : bool) (desiredLinkType : N)
    (subClasses : bool) (a : Atom) : res (list Handle) :=
  me ← getHandle_tlb a;
  rfold (fun answer h =>
      link ← of_opt (atomOf t h);
      if isNodeObj link then Undef else
      if (a_type link =? desiredLinkType)%N
         || (subClasses && isAb cs (a_type link) desiredLinkType)
      then getNeighbors_link me fanin fanout link answer
      else Ok answer)
    [] (a_incoming a).
End neighbors.

(** ** Lemmas *)

(** What the TLB promises: every mapped handle is a valid one, below the next
    handle to be given out, and leads to a live object that carries it. *)
Record TLB_wf (t : TLB) : Prop := {
  twf_live : forall h p, handle_map t !! h = Some p ->
    exists a, heap t !! p = Some a /\ a_handle a = h;
  twf_def : handle_map t !! UNDEFINED = None;
  twf_brk : forall h, is_Some (handle_map t !! h) -> (h < brk_uuid t)%N;
  twf_max : (brk_uuid t <= UNDEFINED)%N
}.

Lemma atomOf_Some t h a :
  atomOf t h = Some a <->
  exists p, handle_map t !! h = Some p /\ heap t !! p = Some a.
Proof. unfold atomOf, getAtom. rewrite bind_Some. done. Qed.

Lemma atomOf_getAtom t h :
  TLB_wf t -> (is_Some (atomOf t h) <-> is_Some (handle_map t !! h)).
Proof.
  intros Hwf. split.
  - intros [a (p & Hp & _)%atomOf_Some]. eauto.
  - intros [p Hp]. destruct (twf_live _ Hwf _ _ Hp) as (a & Ha & _).
    exists a. apply atomOf_Some. eauto.
Qed.

Lemma atomOf_handle t h a : TLB_wf t -> atomOf t h = Some a -> a_handle a = h.
Proof.
  intros Hwf (p & Hp & Ha)%atomOf_Some.
  destruct (twf_live _ Hwf _ _ Hp) as (a' & Ha' & Hh). by simplify_eq.
Qed.

Lemma handle_map_inj t h1 h2 p :
  TLB_wf t -> handle_map t !! h1 = Some p -> handle_map t !! h2 = Some p -> h1 = h2.
Proof.
  intros Hwf H1 H2. destruct (twf_live _ Hwf _ _ H1) as (a1 & Ha1 & Hh1).
  destruct (twf_live _ Hwf _ _ H2) as (a2 & Ha2 & Hh2). by simplify_eq.
Qed.

Lemma isValidHandle_spec t h :
  TLB_wf t -> (isValidHandle t h = true <-> is_Some (handle_map t !! h)).
Proof.
  intros Hwf. unfold isValidHandle, isInvalidHandle, getAtom.
  rewrite negb_true_iff, !orb_false_iff, N.eqb_neq, N.leb_gt, bool_decide_eq_false.
  rewrite <- not_eq_None_Some. split; [tauto|]. intros H. split_and!; [| |done].
  - intros ->. apply H, (twf_def _ Hwf).
  - apply (twf_brk _ Hwf). by apply not_eq_None_Some.
Qed.

Lemma isValidHandle_atomOf t h :
  TLB_wf t -> (isValidHandle t h = true <-> is_Some (atomOf t h)).
Proof. intros Hwf. by rewrite isValidHandle_spec, atomOf_getAtom. Qed.

Lemma UNDEFINED_invalid t : isValidHandle t UNDEFINED = false.
Proof. reflexivity. Qed.

Lemma atomOf_set_atom t h p a k :
  TLB_wf t -> handle_map t !! h = Some p ->
  atomOf (set_atom p a t) k = if decide (k = h) then Some a else atomOf t k.
Proof.
  intros Hwf Hp. unfold atomOf, getAtom. simpl.
  destruct (decide (k = h)) as [->|Hne].
  - rewrite Hp. simpl. by rewrite lookup_insert_eq.
  - destruct (handle_map t !! k) as [q|] eqn:Hq; [|done]. simpl.
    rewrite lookup_insert_ne; [done|]. intros ->. apply Hne.
    by apply (handle_map_inj t k h q).
Qed.

Lemma set_atom_wf t h p a :
  TLB_wf t -> handle_map t !! h = Some p -> a_handle a = h -> TLB_wf (set_atom p a t).
Proof.
  intros Hwf Hp Ha. split; simpl; try apply Hwf.
  intros k q Hq. destruct (decide (p = q)) as [->|Hne].
  - exists a. rewrite lookup_insert_eq. split; [done|].
    rewrite Ha. by apply (handle_map_inj t h k q).
  - rewrite lookup_insert_ne by done. by apply (twf_live _ Hwf).
Qed.

Lemma on_atom_ok t h f a a' :
  TLB_wf t -> atomOf t h = Some a -> f a = Ok a' -> a_handle a' = a_handle a ->
  exists t', on_atom h f t = Ok t' /\ TLB_wf t' /\
    handle_map t' = handle_map t /\ brk_uuid t' = brk_uuid t /\
    (forall k, atomOf t' k = if decide (k = h) then Some a' else atomOf t k).
Proof.
  intros Hwf Ha Hf Hh. pose proof (atomOf_handle _ _ _ Hwf Ha) as Hha.
  apply atomOf_Some in Ha as (p & Hp & Hpa).
  unfold on_atom, getAtom. rewrite Hp. simpl. rewrite Hpa. simpl. rewrite Hf. simpl.
  eexists. split; [done|].
  split; [apply (set_atom_wf t h); [done..|congruence]|]. do 2 (split; [done|]).
  intros k. by apply atomOf_set_atom.
Qed.

Lemma TLB_addAtom_fresh t p a :
  TLB_wf t -> (brk_uuid t < UNDEFINED)%N ->
  heap t !! p = Some a -> a_handle a = UNDEFINED ->
  exists t', TLB_addAtom p UNDEFINED t = Ok (brk_uuid t, t') /\ TLB_wf t' /\
    handle_map t !! brk_uuid t = None /\
    handle_map t' = <[brk_uuid t := p]> (handle_map t) /\
    brk_uuid t' = (brk_uuid t + 1)%N /\
    heap t' = <[p := set_handle (brk_uuid t) a]> (heap t) /\
    (forall k, atomOf t' k = if decide (k = brk_uuid t)
       then Some (set_handle (brk_uuid t) a) else atomOf t k).
Proof.
  intros Hwf Hmax Hp Hh. unfold TLB_addAtom. rewrite Hp. simpl. rewrite Hh. simpl.
  assert (Hw : wrap64 (brk_uuid t + 1) = (brk_uuid t + 1)%N).
  { unfold wrap64. apply N.mod_small. unfold UNDEFINED in Hmax. lia. }
  rewrite Hw.
  assert (Hfresh : handle_map t !! brk_uuid t = None).
  { destruct (handle_map t !! brk_uuid t) eqn:E; [|done].
    pose proof (twf_brk _ Hwf _ (mk_is_Some _ _ E)). lia. }
  assert (Hnp : forall k q, handle_map t !! k = Some q -> q <> p).
  { intros k q Hk ->. destruct (twf_live _ Hwf _ _ Hk) as (a' & Ha' & Hak).
    simplify_eq. rewrite Hh in Hk. by rewrite (twf_def _ Hwf) in Hk. }
  eexists. split; [done|]. split.
  - split; simpl.
    + intros k q. destruct (decide (k = brk_uuid t)) as [->|Hne].
      * rewrite lookup_insert_eq. intros [= <-]. rewrite lookup_insert_eq. eauto.
      * rewrite lookup_insert_ne by done. intros Hk.
        rewrite lookup_insert_ne by (intros ->; by apply (Hnp k q)).
        by apply (twf_live _ Hwf).
    + rewrite lookup_insert_ne by lia. apply (twf_def _ Hwf).
    + intros k. destruct (decide (k = brk_uuid t)) as [->|Hne]; [lia|].
      rewrite lookup_insert_ne by done. intros Hk%(twf_brk _ Hwf). lia.
    + lia.
  - do 4 (split; [done|]). intros k. unfold atomOf, getAtom. simpl.
    destruct (decide (k = brk_uuid t)) as [->|Hne].
    + rewrite lookup_insert_eq. simpl. by rewrite lookup_insert_eq.
    + rewrite lookup_insert_ne by done.
      destruct (handle_map t !! k) as [q|] eqn:Hk; [|done]. simpl.
      rewrite lookup_insert_ne; [done|]. intros ->. by apply (Hnp k q).
Qed.

Lemma TLB_removeAtom_ok t h p a :
  TLB_wf t -> handle_map t !! h = Some p -> heap t !! p = Some a ->
  exists t', TLB_removeAtom p t = Ok t' /\ TLB_wf t' /\
    handle_map t' = delete h (handle_map t) /\ brk_uuid t' = brk_uuid t /\
    heap t' = <[p := set_handle UNDEFINED a]> (heap t) /\
    (forall k, atomOf t' k = if decide (k = h) then None else atomOf t k).
Proof.
  intros Hwf Hp Ha. unfold TLB_removeAtom. rewrite Ha. simpl.
  destruct (twf_live _ Hwf _ _ Hp) as (a' & Ha' & Hh). simplify_eq.
  assert (Hnu : a_handle a <> UNDEFINED).
  { intros Hu. rewrite Hu in Hp. by rewrite (twf_def _ Hwf) in Hp. }
  rewrite (proj2 (N.eqb_neq _ _) Hnu).
  eexists. split; [done|]. split.
  - split; simpl.
    + intros k q [Hne Hk]%lookup_delete_Some. rewrite lookup_insert_ne.
      * by apply (twf_live _ Hwf).
      * intros ->. apply Hne. by apply (handle_map_inj t _ _ q).
    + rewrite lookup_delete_None. right. apply (twf_def _ Hwf).
    + intros k [q [_ Hk]%lookup_delete_Some]. by apply (twf_brk _ Hwf).
    + apply Hwf.
  - do 3 (split; [done|]). intros k. unfold atomOf, getAtom. simpl.
    destruct (decide (k = a_handle a)) as [->|Hne]; [by rewrite lookup_delete_eq|].
    rewrite lookup_delete_ne by done.
    destruct (handle_map t !! k) as [q|] eqn:Hk; [|done]. simpl.
    rewrite lookup_insert_ne; [done|]. intros ->. apply Hne.
    by apply (handle_map_inj t _ _ q).
Qed.

(** An object without a handle is behind no handle. *)
Lemma delete_unmapped_ok t p a :
  TLB_wf t -> heap t !! p = Some a -> a_handle a = UNDEFINED -> a_incoming a = [] ->
  exists t', delete_atom p t = Ok t' /\ TLB_wf t' /\ handle_map t' = handle_map t /\
    brk_uuid t' = brk_uuid t /\ heap t' = delete p (heap t) /\
    forall k, atomOf t' k = atomOf t k.
Proof.
  intros Hwf Hp Hh Hi.
  assert (Hnp : forall k q, handle_map t !! k = Some q -> q <> p).
  { intros k q Hk ->. destruct (twf_live _ Hwf _ _ Hk) as (a' & Ha' & Hak).
    simplify_eq. rewrite Hh in Hk. by rewrite (twf_def _ Hwf) in Hk. }
  unfold delete_atom. rewrite Hp. simpl. rewrite Hi. eexists. split; [done|]. split.
  - split; simpl; [|apply Hwf..]. intros k q Hk.
    rewrite lookup_delete_ne by (intros <-; by apply (Hnp k p)). by apply (twf_live _ Hwf).
  - do 3 (split; [done|]). intros k. unfold atomOf, getAtom. simpl.
    destruct (handle_map t !! k) as [q|] eqn:Hk; [|done]. simpl.
    rewrite lookup_delete_ne; [done|]. intros <-. by apply (Hnp k p).
Qed.

Lemma getOutgoing_targets a i :
  (i < length (targets a))%nat ->
  exists h, targets a !! i = Some h /\ getOutgoingHandle (Z.of_nat i) a = Ok h.
Proof.
  intros Hi. destruct (lookup_lt_is_Some_2 _ _ Hi) as [h Hh]. exists h.
  split; [done|]. rewrite length_targets in Hi. unfold getOutgoingHandle.
  rewrite (proj2 (Z.leb_le 0 _)), (proj2 (Z.ltb_lt _ _)) by lia. simpl.
  rewrite Nat2Z.id. unfold targets in Hh. apply lookup_take_Some in Hh as [Hh _].
  by rewrite Hh.
Qed.

(** ** Properties *)

(** Adding an object without a handle gives it the next unused handle, which
    is valid from then on and leads to the object; no other handle is touched.
    Removing the object again restores the store, except that its handle is
    used up. *)
Theorem addAtom_removeAtom_roundtrip t p a :
  TLB_wf t -> (brk_uuid t < UNDEFINED)%N -> heap t !! p = Some a -> a_handle a = UNDEFINED ->
  exists t', TLB_addAtom p UNDEFINED t = Ok (brk_uuid t, t') /\ TLB_wf t' /\
    isValidHandle t (brk_uuid t) = false /\ isValidHandle t' (brk_uuid t) = true /\
    getAtom t' (brk_uuid t) = Some p /\
    (forall k, k <> brk_uuid t -> getAtom t' k = getAtom t k) /\
    TLB_removeAtom p t' = Ok (mkTLB (heap t) (handle_map t) (brk_uuid t + 1)).
Proof.
  intros Hwf Hmax Hp Hh.
  destruct (TLB_addAtom_fresh t p a Hwf Hmax Hp Hh) as (t' & E & Hwf' & Hfr & Hm & Hb & Hhp & _).
  exists t'. split; [done|]. split; [done|]. split.
  { apply not_true_is_false. rewrite isValidHandle_spec by done. rewrite Hfr. by intros []. }
  split; [apply isValidHandle_spec; [done|]; rewrite Hm, lookup_insert_eq; eauto|].
  unfold getAtom. rewrite Hm. split; [by rewrite lookup_insert_eq|].
  split; [intros k Hk; by rewrite lookup_insert_ne|].
  unfold TLB_removeAtom. rewrite Hhp, lookup_insert_eq. simpl.
  rewrite (proj2 (N.eqb_neq _ _)) by lia. rewrite Hm, Hb. f_equal.
  rewrite insert_insert_eq, delete_insert_id by done. f_equal.
  rewrite insert_id; [done|]. rewrite Hp. f_equal. destruct a. simpl in *. by subst.
Qed.

(** An object added under a handle of the caller's choice that lies beyond the
    handles given out so far is in the TLB, but the handle counts as invalid:
    the counter is not moved past it. *)
Theorem addAtom_explicit_handle_invalid t p a h :
  heap t !! p = Some a -> a_handle a = UNDEFINED -> (brk_uuid t <= h < UNDEFINED)%N ->
  exists t', TLB_addAtom p h t = Ok (h, t') /\ getAtom t' h = Some p /\
             isValidHandle t' h = false.
Proof.
  intros Hp Hh [Hlo Hhi]. unfold TLB_addAtom. rewrite Hp. simpl. rewrite Hh. simpl.
  rewrite (proj2 (N.eqb_neq h UNDEFINED)) by lia.
  eexists. split; [done|]. unfold getAtom. simpl. split; [by rewrite lookup_insert_eq|].
  unfold isValidHandle, isInvalidHandle. simpl. rewrite (proj2 (N.leb_le _ _) Hlo).
  by rewrite orb_true_r.
Qed.

Lemma addAtom_removeAtom_roundtrip_witness :
  exists t t', TLB_addAtom 1 UNDEFINED t = Ok (1%N, t') /\ isValidHandle t' 1 = true.
Proof.
  pose (t := mkTLB {[1%positive := set_handle UNDEFINED some_atom]} ∅ 1).
  assert (Hwf : TLB_wf t).
  { split; [|done| |vm_compute; discriminate].
    - intros h p. simpl. by rewrite lookup_empty.
    - intros h. simpl. rewrite lookup_empty. by intros []. }
  destruct (addAtom_removeAtom_roundtrip t 1 (set_handle UNDEFINED some_atom) Hwf
              eq_refl (lookup_singleton_eq _ _) eq_refl) as (t' & E & _ & _ & Hv & _).
  exists t, t'. exact (conj E Hv).
Defined.

Lemma addAtom_explicit_handle_invalid_witness :
  exists t', TLB_addAtom 1 50 (mkTLB {[1%positive := set_handle UNDEFINED some_atom]} ∅ 1)
               = Ok (50%N, t') /\ isValidHandle t' 50 = false.
Proof.
  destruct (addAtom_explicit_handle_invalid
              (mkTLB {[1%positive := set_handle UNDEFINED some_atom]} ∅ 1) 1
              (set_handle UNDEFINED some_atom) 50 (lookup_singleton_eq _ _) eq_refl)
    as (t' & E & _ & Hv); [by vm_compute|].
  exists t'. exact (conj E Hv).
Defined.
