(* ===== verification/HandleEntry.v ===== *)
(** Linked lists of handles: src/opencog/atomspace/HandleEntry.cc.

    A [HandleEntry*] is the list of the handles from that cell on; the null
    pointer is the empty list. The functions consume their arguments, and the
    lists they return share no cell with anything else. *)
From S2P Require Import Prelude ClassServer TruthValue AttentionValue Atom TLB.

(** ** List operations *)
Module HE.
Fixpoint clone (set : list Handle) : list Handle :=
  match set with [] => [] | h :: next => h :: clone next end.

Definition getSize (set : list Handle) : Z := Z.of_nat (length set).

(** [last] reads [current->next] before any test. *)
Fixpoint last (set : list Handle) : res (list Handle) :=
  match set with
  | [] => Undef
  | [h] => Ok [h]
  | _ :: next => last next
  end.

Fixpoint contains (h : Handle) (set : list Handle) : bool :=
  match set with
  | [] => false
  | x :: next => if (x =? h)%N then true else contains h next
  end.

Definition concatenation (set1 set2 : list Handle) : list Handle :=
  match set1 with [] => set2 | _ => set1 ++ set2 end.

Fixpoint toHandleVector (set : list Handle) : list Handle :=
  match set with [] => [] | h :: next => h :: toHandleVector next end.

(** The loop runs from the last index down to 0. *)
Definition fromHandleVector (v : list Handle) : list Handle :=
  foldr (fun h ret => concatenation [h] ret) [] v.

(** The two loops that all the filters consist of: the first one drops
    elements from the front, the second one, which always looks at
    [set->next], removes elements behind the first kept one. *)
Fixpoint filter_head (bad : Handle -> res bool) (set : list Handle)
    : res (list Handle) :=
  match set with
  | [] => Ok []
  | h :: next => b ← bad h; if b : bool then filter_head bad next else Ok set
  end.

Fixpoint filter_rest (bad : Handle -> res bool) (next : list Handle)
    : res (list Handle) :=
  match next with
  | [] => Ok []
  | h :: next' =>
      b ← bad h;
      r ← filter_rest bad next';
      Ok (if b : bool then r else h :: r)
  end.

Definition two_loops (bad : Handle -> res bool) (set : list Handle)
    : res (list Handle) :=
  set' ← filter_head bad set;
  match set' with
  | [] => Ok []
  | h :: next => r ← filter_rest bad next; Ok (h :: r)
  end.

Definition remove (set : list Handle) (h : Handle) : res (list Handle) :=
  two_loops (fun x => Ok (x =? h)%N) set.
End HE.

(** ** Intersection

    Each sorted array travels with its cursor. *)
Module Intersection.
Abbreviation cursored := (list Handle * nat)%type.

(** The first inner loop of [nextMatch]: the largest of the values under the
    cursors and whether some value differs from the first one; [None] is the
    early [return -1]. *)
Fixpoint scan (first max : Handle) (fail : bool) (v : list cursored)
    : option (Handle * bool) :=
  match v with
  | [] => Some (max, fail)
  | (arr, c) :: v' =>
      match arr !! c with
      | None => None
      | Some x => scan first (if (max <? x)%N then x else max)
                    (fail || negb (first =? x)%N) v'
      end
  end.

(** [while (sets[j][cursors[j]] < max) cursors[j]++], on the elements from
    the cursor on. *)
Fixpoint advance (max : Handle) (rest : list Handle) (c : nat) : option nat :=
  match rest with
  | [] => None
  | x :: rest' => if (x <? max)%N then advance max rest' (S c) else Some c
  end.

Fixpoint advance_all (max : Handle) (v : list cursored) : option (list cursored) :=
  match v with
  | [] => Some []
  | (arr, c) :: v' =>
      c' ← advance max (drop c arr) c;
      r ← advance_all max v';
      Some ((arr, c') :: r)
  end.

(** [nextMatch]: the position of the match and the moved cursors, or [None]
    for -1. *)
Fixpoint nextMatch (fuel : nat) (v : list cursored)
    : res (option (nat * list cursored)) :=
  match fuel with
  | O => Fuel
  | S fuel' =>
      match v with
      | [] => Undef
      | (arr0, c0) :: _ =>
          match arr0 !! c0 with
          | None => Ok None
          | Some first =>
              match scan first first false v with
              | None => Ok None
              | Some (max, true) =>
                  match advance_all max v with
                  | None => Ok None
                  | Some v' => nextMatch fuel' v'
                  end
              | Some (_, false) =>
                  Ok (Some (c0, (fun ac => (ac.1, S ac.2)) <$> v))
              end
          end
      end
  end.

Fixpoint collect (fuel : nat) (v : list cursored) : res (list Handle) :=
  match fuel with
  | O => Fuel
  | S fuel' =>
      m ← nextMatch fuel v;
      match m with
      | None => Ok []
      | Some (pos, v') =>
          arr0 ← of_opt (v !! 0);
          h ← of_opt (arr0.1 !! pos);
          r ← collect fuel' v'; Ok (h :: r)
      end
  end.

(** The fuel: every turn of either loop moves a cursor. *)
Fixpoint total (v : list cursored) : nat :=
  match v with [] => 0 | (arr, c) :: v' => (length arr - c) + total v' end.

Definition intersection (sets : list (list Handle)) : res (list Handle) :=
  match sets with
  | [] => Ok []
  | _ => if existsb (fun s => match s with [] => true | _ => false end) sets
         then Ok []
         else let v := (fun s => (sort_handles s, 0)) <$> sets in
              collect (S (total v)) v
  end.

Definition intersection2 (set1 set2 : list Handle) : res (list Handle) :=
  intersection [set1; set2].

(** *** Correctness *)
Definition suf (v : list cursored) : list (list Handle) :=
  (fun ac => drop ac.2 ac.1) <$> v.

(** [r] holds every handle as often as all of the lists do. *)
Definition inter_rel (ss : list (list Handle)) (r : list Handle) : Prop :=
  forall x k, k <= occ x r <-> Forall (fun l => k <= occ x l) ss.

Abbreviation sorted_arrays v := (Forall (fun ac : cursored => StronglySorted N.le ac.1) v).

Lemma SSorted_drop n (l : list Handle) : StronglySorted N.le l -> StronglySorted N.le (drop n l).
Proof.
  revert l. induction n as [|n IH]; intros l; [by rewrite drop_0|].
  destruct l as [|x l]; [done|]. intros [Hs _]%StronglySorted_inv. by apply IH.
Qed.

Lemma occ_lt x l : Forall (fun y => (x < y)%N) l -> occ x l = 0.
Proof.
  intros H. apply occ_0. intros Hx. rewrite Forall_forall in H.
  specialize (H _ Hx). simpl in H. lia.
Qed.

Lemma scan_None first max fail v :
  scan first max fail v = None -> [] ∈ suf v.
Proof.
  revert max fail. induction v as [|[arr c] v IH]; intros max fail; simpl; [done|].
  destruct (arr !! c) as [x|] eqn:E; intros H.
  - right. by apply (IH _ _ H).
  - rewrite drop_ge by (by apply lookup_ge_None). left.
Qed.

Lemma scan_Some first max fail v m f :
  scan first max fail v = Some (m, f) ->
  (max <= m)%N /\
  Forall (fun ac => exists x, ac.1 !! ac.2 = Some x /\ (x <= m)%N) v /\
  (m = max \/ exists ac, ac ∈ v /\ ac.1 !! ac.2 = Some m) /\
  (f = false -> Forall (fun ac => ac.1 !! ac.2 = Some first) v) /\
  (f = true -> fail = true \/
     exists ac x, ac ∈ v /\ ac.1 !! ac.2 = Some x /\ x <> first) /\
  (fail = true -> f = true).
Proof.
  revert max fail. induction v as [|[arr c] v IH]; intros max fail; simpl.
  { intros [= <- <-]. split_and!; auto; lia. }
  destruct (arr !! c) as [x|] eqn:E; [|done].
  intros H. apply IH in H as (Hm & Hall & Hmax & Hf & Ht & Hk).
  assert (Hx : (x <= m)%N /\ (max <= m)%N) by (destruct (N.ltb_spec max x); lia).
  split; [lia|]. split; [constructor; [|done]; exists x; simpl; split; [done|lia]|].
  split.
  { destruct Hmax as [->|(ac & Hin & Hac)].
    - destruct (N.ltb_spec max x); [|by left]. right. exists (arr, c).
      split; [left|done].
    - right. exists ac. split; [by right|done]. }
  split.
  { intros ->. constructor; [|by apply Hf]. simpl. rewrite E. f_equal.
    destruct (N.eqb_spec first x); [done|]. rewrite orb_true_r in Hk.
    by specialize (Hk eq_refl). }
  split.
  { intros ->. destruct (Ht eq_refl) as [[?|Hne]%orb_true_iff|(ac & y & Hin & Hy & Hny)].
    - by left.
    - right. exists (arr, c), x. split; [left|]. split; [done|].
      intros ->. by rewrite N.eqb_refl in Hne.
    - right. exists ac, y. split; [by right|done]. }
  intros ->. by apply Hk.
Qed.

Lemma advance_spec max arr c :
  match advance max (drop c arr) c with
  | None => Forall (fun x => (x < max)%N) (drop c arr)
  | Some c' => exists pre, drop c arr = pre ++ drop c' arr /\
      Forall (fun x => (x < max)%N) pre /\ c' = c + length pre /\
      exists x, arr !! c' = Some x /\ (max <= x)%N
  end.
Proof.
  remember (drop c arr) as rest eqn:E. revert c E.
  induction rest as [|x rest IH]; intros c E; simpl; [constructor|].
  assert (Hc : arr !! c = Some x) by (by rewrite <- (Nat.add_0_r c), <- lookup_drop, <- E).
  assert (Hrest : rest = drop (S c) arr).
  { apply drop_S in Hc. rewrite <- E in Hc. congruence. }
  destruct (N.ltb_spec x max).
  - specialize (IH (S c) Hrest). destruct (advance max rest (S c)) as [c'|].
    + destruct IH as (pre & Hp & Hlt & -> & Hh). exists (x :: pre). simpl.
      rewrite Hp. split; [done|]. split; [by constructor|]. split; [lia|].
      replace (c + S (length pre)) with (S c + length pre) by lia. done.
    + by constructor.
  - exists []. rewrite <- E. simpl. split; [done|]. split; [constructor|].
    split; [lia|]. eauto.
Qed.

Lemma advance_occ max arr c c' x :
  advance max (drop c arr) c = Some c' -> StronglySorted N.le arr ->
  occ x (drop c' arr) = if (x <? max)%N then 0 else occ x (drop c arr).
Proof.
  intros H Hs. pose proof (advance_spec max arr c) as Ha. rewrite H in Ha.
  destruct Ha as (pre & -> & Hpre & _ & y & Hy & Hmy).
  destruct (N.ltb_spec x max) as [Hlt|Hge].
  - apply occ_lt. apply (SSorted_drop c') in Hs. rewrite (drop_S _ _ _ Hy) in *.
    apply StronglySorted_inv in Hs as [_ Hf]. constructor; [lia|].
    apply (Forall_impl _ _ _ Hf). intros z Hz. lia.
  - rewrite occ_app. replace (occ x pre) with 0; [done|]. symmetry. apply occ_0.
    intros Hx. rewrite Forall_forall in Hpre. specialize (Hpre _ Hx). simpl in Hpre. lia.
Qed.

(** Every cursor has moved past the elements below the maximum. *)
Definition advances (max : N) : list cursored -> list cursored -> Prop :=
  Forall2 (fun ac ac' => ac'.2 <= length ac'.1 /\ ac.2 <= ac'.2 /\
    (forall y, ac.1 !! ac.2 = Some y -> (y < max)%N -> ac.2 < ac'.2) /\
    forall x, occ x (drop ac'.2 ac'.1) =
      if (x <? max)%N then 0 else occ x (drop ac.2 ac.1)).

Lemma advances_mono max v v' :
  advances max v v' ->
  Forall2 (fun ac ac' : cursored => ac'.2 <= length ac'.1 /\ ac.2 <= ac'.2) v v'.
Proof. intros HF. apply (Forall2_impl _ _ _ _ HF). naive_solver. Qed.

Lemma advance_all_spec max v :
  sorted_arrays v ->
  match advance_all max v with
  | None => exists l, l ∈ suf v /\ Forall (fun x => (x < max)%N) l
  | Some v' => sorted_arrays v' /\ (fst <$> v') = (fst <$> v) /\
      advances max v v'
  end.
Proof.
  induction v as [|[arr c] v IH]; intros Hs; simpl; [by repeat constructor|].
  inversion_clear Hs as [|? ? Ha Hs']. specialize (IH Hs').
  pose proof (advance_spec max arr c) as Hadv.
  destruct (advance max (drop c arr) c) as [c'|] eqn:E; simpl.
  2: { exists (drop c arr). split; [left|done]. }
  destruct (advance_all max v) as [v'|]; simpl.
  2: { destruct IH as (l & Hl & Hf). exists l. split; [by right|done]. }
  destruct IH as (Hs2 & Hfst & HF). split; [by constructor|].
  split; [f_equal; exact Hfst|]. constructor; [|done]. simpl.
  destruct Hadv as (pre & Hpre & Hlt & -> & y & Hy & Hmy).
  split; [apply lookup_lt_Some in Hy; lia|]. split; [lia|]. split.
  - intros z Hz Hzm. destruct pre as [|p pre]; simpl; [|lia].
    rewrite Nat.add_0_r in Hy. simplify_eq. lia.
  - intros x. by apply advance_occ.
Qed.

Lemma inter_rel_empty ss l :
  l ∈ ss -> (forall x, occ x l = 0 \/ exists l', l' ∈ ss /\ occ x l' = 0) ->
  inter_rel ss [].
Proof.
  intros Hl H x k. rewrite occ_nil. split.
  - intros Hk. apply Forall_forall. intros l' _. lia.
  - rewrite Forall_forall. intros Hf.
    destruct (H x) as [H0|(l' & Hin & H0)]; [specialize (Hf _ Hl)|specialize (Hf _ Hin)]; lia.
Qed.

Lemma total_mono v v' :
  Forall2 (fun ac ac' : cursored => ac'.2 <= length ac'.1 /\ ac.2 <= ac'.2) v v' ->
  (fst <$> v') = (fst <$> v) -> total v' <= total v.
Proof.
  intros HF. induction HF as [|[a c] [a' c'] v v' [H1 H2] _ IH]; simpl; [lia|].
  intros [= -> Hf]. specialize (IH Hf). simpl in *. lia.
Qed.

Lemma total_strict v v' :
  Forall2 (fun ac ac' : cursored => ac'.2 <= length ac'.1 /\ ac.2 <= ac'.2) v v' ->
  (fst <$> v') = (fst <$> v) ->
  (exists i ac ac', v !! i = Some ac /\ v' !! i = Some ac' /\ ac.2 < ac'.2) ->
  total v' < total v.
Proof.
  intros HF.
  induction HF as [|[a c] [a' c'] v v' [H1 H2] HF IH]; simpl.
  { intros _ (i & ac & ac' & H & _). done. }
  intros [= -> Hf] (i & ac & ac' & Hi & Hi' & Hlt). simpl in *.
  pose proof (total_mono _ _ HF Hf) as Hm.
  destruct i as [|i]; simpl in *; simplify_eq; simpl in *; [lia|].
  specialize (IH Hf ltac:(eauto 6)). lia.
Qed.

Lemma inter_rel_none v max :
  sorted_arrays v -> (exists l, l ∈ suf v /\ Forall (fun x => (x < max)%N) l) ->
  (exists ac, ac ∈ v /\ ac.1 !! ac.2 = Some max) -> inter_rel (suf v) [].
Proof.
  intros Hs (l & Hl & Hlt) ([arr c] & Hin & Hac). simpl in Hac.
  apply (inter_rel_empty _ l Hl). intros x.
  destruct (N.ltb_spec x max) as [Hx|Hx].
  - right. exists (drop c arr). split.
    { apply list_elem_of_fmap. exists (arr, c). done. }
    apply occ_lt. rewrite Forall_forall in Hs. specialize (Hs _ Hin). simpl in Hs.
    apply (SSorted_drop c) in Hs. rewrite (drop_S _ _ _ Hac) in Hs |- *.
    apply StronglySorted_inv in Hs as [_ Hf]. constructor; [lia|].
    apply (Forall_impl _ _ _ Hf). intros z Hz. lia.
  - left. apply occ_0. intros Hxl. rewrite Forall_forall in Hlt.
    specialize (Hlt _ Hxl). simpl in Hlt. lia.
Qed.

(** Advancing the cursors to the maximum does not change the intersection. *)
Lemma inter_rel_advance v v' max r :
  sorted_arrays v ->
  (exists ac, ac ∈ v /\ ac.1 !! ac.2 = Some max) ->
  advances max v v' ->
  inter_rel (suf v') r -> inter_rel (suf v) r.
Proof.
  intros Hs ([arr c] & Hin & Hac) HF Hr x k. simpl in Hac. rewrite (Hr x k).
  unfold suf. rewrite !Forall_fmap.
  destruct (N.ltb_spec x max) as [Hx|Hx].
  - assert (H0 : occ x (drop c arr) = 0).
    { apply occ_lt. rewrite Forall_forall in Hs. specialize (Hs _ Hin). simpl in Hs.
      apply (SSorted_drop c) in Hs. rewrite (drop_S _ _ _ Hac) in Hs |- *.
      apply StronglySorted_inv in Hs as [_ Hf]. constructor; [lia|].
      apply (Forall_impl _ _ _ Hf). intros z Hz. lia. }
    assert (Hall : Forall (fun ac : cursored => occ x (drop ac.2 ac.1) = 0) v').
    { clear -HF Hx. induction HF as [|a b l l' (_ & _ & _ & Hab) _ IH]; constructor; [|done].
      by rewrite Hab, (proj2 (N.ltb_lt _ _) Hx). }
    split.
    + intros Hf. rewrite Forall_forall. intros ac Hac'.
      assert (k = 0) as ->; [|simpl; lia]. clear ac Hac'.
      destruct v' as [|ac' l]; [inversion HF; subst; by apply not_elem_of_nil in Hin|].
      apply Forall_cons in Hf as [Hk0 _]. apply Forall_cons in Hall as [Hz _]. simpl in Hk0, Hz. lia.
    + rewrite Forall_forall. intros Hf. specialize (Hf _ Hin). simpl in Hf.
      rewrite H0 in Hf. assert (k = 0) as -> by lia.
      apply Forall_forall. intros ? _. simpl. lia.
  - clear Hin Hs Hr. induction HF as [|a b l l' (_ & _ & _ & Hab) _ IH]; [done|].
    rewrite !Forall_cons. rewrite IH. simpl. rewrite Hab.
    by rewrite (proj2 (N.ltb_ge _ _) Hx).
Qed.

Lemma inter_rel_match v x r :
  v <> [] -> Forall (fun ac : cursored => ac.1 !! ac.2 = Some x) v ->
  inter_rel (suf ((fun ac => (ac.1, S ac.2)) <$> v)) r -> inter_rel (suf v) (x :: r).
Proof.
  intros Hne Hx Hr y k. rewrite occ_cons. unfold suf in *.
  assert (Hstep : Forall (fun ac : cursored =>
    occ y (drop ac.2 ac.1) = (if decide (y = x) then 1 else 0) + occ y (drop (S ac.2) ac.1)) v).
  { apply (Forall_impl _ _ _ Hx). intros [arr c] Hac. simpl in *.
    by rewrite (drop_S _ _ _ Hac), occ_cons. }
  specialize (Hr y (k - if decide (y = x) then 1 else 0)).
  rewrite !Forall_fmap in Hr. rewrite Forall_fmap.
  set (d := if decide (y = x) then 1 else 0) in *.
  transitivity (k - d <= occ y r); [lia|]. rewrite Hr. clear Hr Hne Hx.
  induction Hstep as [|[arr c] v H _ IH]; [done|].
  rewrite !Forall_cons, IH. simpl in *. rewrite H. split; intros [? ?]; split; try done; lia.
Qed.

Lemma fst_sorted (v v' : list cursored) :
  (fst <$> v') = (fst <$> v) -> sorted_arrays v -> sorted_arrays v'.
Proof.
  intros Hf. change (sorted_arrays v) with (Forall (fun ac => (StronglySorted N.le ∘ fst) ac) v).
  change (sorted_arrays v') with (Forall (fun ac => (StronglySorted N.le ∘ fst) ac) v').
  rewrite <- !(Forall_fmap fst (StronglySorted N.le)). by rewrite Hf.
Qed.

Lemma nextMatch_S fuel v arr0 c0 :
  head v = Some (arr0, c0) ->
  nextMatch (S fuel) v =
    match arr0 !! c0 with
    | None => Ok None
    | Some first =>
        match scan first first false v with
        | None => Ok None
        | Some (max, true) =>
            match advance_all max v with
            | None => Ok None
            | Some v' => nextMatch fuel v'
            end
        | Some (_, false) => Ok (Some (c0, (fun ac => (ac.1, S ac.2)) <$> v))
        end
    end.
Proof. destruct v as [|[? ?] ?]; [done|]. by intros [= -> ->]. Qed.

(** Repositioning to a maximum that is no match moves some cursor. *)
Lemma advance_shrinks m first arr0 c0 v0 v' :
  advances m ((arr0, c0) :: v0) v' -> fst <$> v' = fst <$> ((arr0, c0) :: v0) ->
  arr0 !! c0 = Some first -> (first <= m)%N ->
  Forall (fun ac => exists y, ac.1 !! ac.2 = Some y /\ (y <= m)%N) ((arr0, c0) :: v0) ->
  (exists ac y, ac ∈ (arr0, c0) :: v0 /\ ac.1 !! ac.2 = Some y /\ y <> first) ->
  total v' < total ((arr0, c0) :: v0).
Proof.
  intros HF Hfst Hfirst Hm Hall ([a c] & y & Ha & Hy & Hny).
  apply (total_strict _ _ (advances_mono _ _ _ HF) Hfst).
  assert (Hsmall : exists i ac z, ((arr0, c0) :: v0) !! i = Some ac /\ ac.1 !! ac.2 = Some z /\
                             (z < m)%N).
  { destruct (decide (first = m)) as [->|Hfm].
    - apply list_elem_of_lookup in Ha as [i Hi]. exists i, (a, c), y.
      split; [done|]. split; [done|].
      eapply Forall_lookup_1 in Hall as (z & Hz & Hzm); [|exact Hi].
      rewrite Hy in Hz. simplify_eq. lia.
    - exists 0, (arr0, c0), first. split; [done|]. split; [done|]. lia. }
  destruct Hsmall as (i & ac & z & Hi & Hz & Hzm).
  destruct (Forall2_lookup_l _ _ _ _ _ HF Hi) as (ac' & Hi' & _ & _ & Hmove & _).
  exists i, ac, ac'. split; [done|]. split; [done|]. by apply (Hmove z).
Qed.

(** A match moves all the cursors past it. *)
Lemma match_step first arr0 c0 v0 :
  let v := (arr0, c0) :: v0 in let v' := (fun ac : cursored => (ac.1, S ac.2)) <$> v in
  sorted_arrays v -> Forall (fun ac => ac.1 !! ac.2 = Some first) v ->
  (fst <$> v') = (fst <$> v) /\ total v' < total v /\ Forall (Forall (N.le first)) (suf v') /\
  forall r, inter_rel (suf v') r -> inter_rel (suf v) (first :: r).
Proof.
  intros v v' Hs Hff.
  assert (Hfst : fst <$> v' = fst <$> v) by (unfold v'; by rewrite <- list_fmap_compose).
  split; [done|]. split; [|split].
  - apply (total_strict _ _); [|done|].
    + apply Forall2_fmap_r, Forall_Forall2_diag, (Forall_impl _ _ _ Hff).
      intros [a c] Ha%lookup_lt_Some. simpl in *. lia.
    + pose proof (Forall_inv Hff) as H0%lookup_lt_Some.
      exists 0, (arr0, c0), (arr0, S c0). simpl in *. split; [done|]. split; [done|lia].
  - unfold suf, v'. rewrite !Forall_fmap, Forall_forall. intros [a c] Hac. simpl.
    rewrite Forall_forall in Hff, Hs. specialize (Hff _ Hac). specialize (Hs _ Hac).
    simpl in *. apply (SSorted_drop c) in Hs. rewrite (drop_S _ _ _ Hff) in Hs.
    by apply StronglySorted_inv in Hs as [_ Hs].
  - intros r. by apply inter_rel_match.
Qed.

Lemma nextMatch_spec fuel v :
  v <> [] -> sorted_arrays v -> total v < fuel ->
  (nextMatch fuel v = Ok None /\ inter_rel (suf v) []) \/
  (exists pos x v', nextMatch fuel v = Ok (Some (pos, v')) /\
     (exists arr0, head (fst <$> v) = Some arr0 /\ arr0 !! pos = Some x) /\
     (fst <$> v') = (fst <$> v) /\ total v' < total v /\
     Forall (Forall (N.le x)) (suf v') /\
     forall r, inter_rel (suf v') r -> inter_rel (suf v) (x :: r)).
Proof.
  revert v. induction fuel as [|fuel IH]; intros v Hne Hs Hfuel; [lia|].
  destruct v as [|[arr0 c0] v0]; [done|].
  rewrite (nextMatch_S _ _ arr0 c0) by done.
  destruct (arr0 !! c0) as [first|] eqn:Hfirst.
  2: { left. split; [done|]. apply (inter_rel_empty _ (drop c0 arr0)); [left|].
       intros y. left. rewrite drop_ge by (by apply lookup_ge_None). done. }
  set (v := (arr0, c0) :: v0) in *.
  destruct (scan first first false v) as [[m f]|] eqn:Escan.
  2: { left. split; [done|].
       apply scan_None in Escan. apply (inter_rel_empty _ [] Escan). intros y. by left. }
  apply scan_Some in Escan as (Hm & Hall & Hmax & Hff & Hft & _).
  assert (Hin : exists ac, ac ∈ v /\ ac.1 !! ac.2 = Some m).
  { destruct Hmax as [->|H]; [|done]. exists (arr0, c0). split; [left|done]. }
  destruct f.
  - pose proof (advance_all_spec m v Hs) as Hadv.
    destruct (advance_all m v) as [v'|].
    2: { left. split; [done|]. by apply (inter_rel_none v m). }
    destruct Hadv as (Hs' & Hfst & HF).
    assert (Hlt : total v' < total v).
    { apply (advance_shrinks m first arr0 c0 v0 v'); try done. by destruct (Hft eq_refl). }
    assert (Hne' : v' <> []) by (intros ->; by apply Forall2_nil_inv_r in HF).
    destruct (IH v' Hne' Hs' ltac:(lia)) as [[-> Hr]|(pos & x & v'' & -> & Hx & Hf'' & Ht & Hle & Hr)].
    + left. split; [done|]. by apply (inter_rel_advance v v' m).
    + right. exists pos, x, v''. split; [done|]. rewrite Hfst in Hx, Hf''.
      split; [done|]. split; [done|]. split; [lia|]. split; [done|].
      intros r Hrr. apply (inter_rel_advance v v' m); auto.
  - right. exists c0, first, ((fun ac => (ac.1, S ac.2)) <$> v).
    split; [done|]. split; [by exists arr0|].
    by apply (match_step first arr0 c0 v0 Hs), Hff.
Qed.

Lemma collect_spec fuel v :
  v <> [] -> sorted_arrays v -> total v < fuel ->
  exists r, collect fuel v = Ok r /\ inter_rel (suf v) r /\ StronglySorted N.le r.
Proof.
  revert v. induction fuel as [|fuel IH]; intros v Hne Hs Hfuel; [lia|].
  unfold collect; fold collect.
  destruct (nextMatch_spec (S fuel) v Hne Hs Hfuel)
    as [[-> Hr]|(pos & x & v' & -> & (arr0 & Harr & Hx) & Hf & Ht & Hle & Hr)].
  - exists []. split; [done|]. split; [done|constructor].
  - simpl. destruct v as [|[a c] v0]; [done|]. simpl in Harr. simplify_eq. simpl.
    rewrite Hx. simpl.
    assert (Hne' : v' <> []) by (intros ->; done).
    destruct (IH v' Hne' (fst_sorted _ _ Hf Hs) ltac:(lia)) as (r & -> & Hrr & Hsr).
    exists (x :: r). split; [done|]. split; [by apply Hr|].
    constructor; [done|]. apply Forall_forall. intros y Hy%occ_pos.
    apply Hrr in Hy. destruct v' as [|[a' c'] l]; [done|].
    unfold suf in Hy, Hle. rewrite fmap_cons in Hy, Hle.
    apply Forall_cons in Hy as [Hy _]. apply Forall_cons in Hle as [Hle _].
    rewrite Forall_forall in Hle. apply Hle, occ_pos. simpl in *. lia.
Qed.

Lemma sort_handles_SSorted l : StronglySorted N.le (sort_handles l).
Proof.
  apply Sorted_StronglySorted; [|apply (Sorted_merge_sort N.le)].
  intros x y z. lia.
Qed.

Lemma intersection_spec sets :
  sets <> [] ->
  exists r, intersection sets = Ok r /\ inter_rel sets r /\ StronglySorted N.le r.
Proof.
  intros Hne. unfold intersection.
  destruct sets as [|s0 sets0]; [done|]. set (sets := s0 :: sets0) in *.
  destruct (existsb _ sets) eqn:E.
  - apply existsb_exists in E as ([|] & Hin%list_elem_of_In & ?); [|done].
    exists []. split; [done|]. split; [|constructor].
    apply (inter_rel_empty _ [] Hin). intros x. by left.
  - set (v := (fun s => (sort_handles s, 0)) <$> sets).
    destruct (collect_spec (S (total v)) v) as (r & Hr & Hrel & Hs); [done| |lia|].
    { unfold v. apply Forall_fmap, Forall_forall. intros s _. apply sort_handles_SSorted. }
    exists r. split; [exact Hr|]. split; [|done]. intros x k. rewrite (Hrel x k).
    unfold suf, v. rewrite !Forall_fmap. apply Forall_iff. intros s. simpl.
    by rewrite drop_0, (occ_perm x _ _ (sort_handles_perm s)).
Qed.
End Intersection.

(** ** Filters *)
Section filters.
Context (cs : ClassServer) (t : TLB).

Definition isNode (ty : N) : bool := isAb cs ty (NODE cs).
Definition isLink (ty : N) : bool := isAb cs ty (LINK cs).

(** [set->getAtom()->...] *)
Definition deref (h : Handle) : res Atom := of_opt (atomOf t h).

(** [dynamic_cast<Link*>] followed by a member call. *)
Definition as_link (a : Atom) : res Atom := if isLinkObj a then Ok a else Undef.

(** The C-style cast of the atom to [Node*], then [getName()]. *)
Definition nodeName (a : Atom) : res string :=
  match a_body a with NodeBody n => Ok n | LinkBody _ _ => Undef end.

(** [filterSet(set, bool deleted)]: unlike in the other filters, the second
    loop tests [set] itself and then drops [set->next]. *)
Fixpoint filterSet_removal_rest (deleted : bool) (cur : Handle) (next : list Handle)
    : res (list Handle) :=
  match next with
  | [] => Ok [cur]
  | h :: next' =>
      a ← deref cur;
      if negb (Bool.eqb (isMarkedForRemoval a) deleted)
      then filterSet_removal_rest deleted cur next'
      else r ← filterSet_removal_rest deleted h next'; Ok (cur :: r)
  end.

Definition filterSet_removal (deleted : bool) (set : list Handle) : res (list Handle) :=
  set' ← HE.filter_head (fun h => a ← deref h;
           Ok (negb (Bool.eqb (isMarkedForRemoval a) deleted))) set;
  match set' with
  | [] => Ok []
  | h :: next => filterSet_removal_rest deleted h next
  end.

(** [filterSet(set, Arity)]: the cast of a null pointer is null. *)
Definition filterSet_arity (arity : N) (set : list Handle) : res (list Handle) :=
  HE.two_loops (fun h =>
      Ok (negb (match atomOf t h with
                | Some a => if isLinkObj a then getArity a else 0
                | None => 0
                end =? arity)%N)) set.

(** The test of an atom against a name; a null or empty name selects the
    nodes without a name (and the links). *)
Definition bad_name (name : option string) (a : Atom) : res bool :=
  let name := c_str (default EmptyString name) in
  if decide (name = EmptyString) then
    if isNode (a_type a)
    then n ← nodeName a; Ok (negb (bool_decide (n = EmptyString)))
    else Ok false
  else if isLink (a_type a) then Ok true
  else n ← nodeName a; Ok (negb (bool_decide (c_str n = name))).

Definition filterSet_name (name : option string) (set : list Handle)
    : res (list Handle) :=
  HE.two_loops (fun h => a ← deref h; bad_name name a) set.

Definition type_matches (type : N) (subclass : bool) (ty : N) : bool :=
  if subclass then isAb cs ty type else (type =? ty)%N.

Definition filterSet_type (type : N) (subclass : bool) (set : list Handle)
    : res (list Handle) :=
  if (type =? ATOM cs)%N && subclass then Ok set
  else HE.two_loops (fun h =>
         a ← deref h; Ok (negb (type_matches type subclass (a_type a)))) set.

Definition filterSet_name_type (name : option string) (type : N) (subclass : bool)
    (set : list Handle) : res (list Handle) :=
  set' ← filterSet_type type subclass set; filterSet_name name set'.

(** [filterSet(set, Handle, Arity)]: the arity is not used. *)
Definition filterSet_handle (handle : Handle) (arity : N) (set : list Handle)
    : res (list Handle) :=
  a ← deref handle;
  Intersection.intersection2 set (HE.clone (a_incoming a)).

(** [filterSet(set, Handle, position, arity)]: what is not a link stays. *)
Definition filterSet_position (handle : Handle) (position arity : N)
    (set : list Handle) : res (list Handle) :=
  HE.two_loops (fun h =>
      match atomOf t h with
      | Some link =>
          if isLinkObj link then
            if negb (getArity link =? arity)%N || (arity <=? position)%N then Ok true
            else x ← of_opt (outgoing link !! N.to_nat position);
                 Ok (negb (x =? handle)%N)
          else Ok false
      | None => Ok false
      end) set.

(** [filterSet(set, Type, bool, Arity)]: a target of type code 0 never
    matches. *)
Fixpoint any_target (type : N) (subclass : bool) (link : Atom) (positions : list nat)
    : res bool :=
  match positions with
  | [] => Ok false
  | i :: ps =>
      a ← outgoingAtom t (Z.of_nat i) link;
      if negb (a_type a =? 0)%N && type_matches type subclass (a_type a)
      then Ok true else any_target type subclass link ps
  end.

Definition filterSet_anyTarget (type : N) (subclass : bool) (arity : N)
    (set : list Handle) : res (list Handle) :=
  HE.two_loops (fun h =>
      a ← deref h; link ← as_link a;
      if negb (getArity link =? arity)%N then Ok true
      else b ← any_target type subclass link (seq 0 (N.to_nat arity));
           Ok (negb b)) set.

(** [filterSet(set, Type, bool, position, arity)] *)
Definition filterSet_targetType (type : N) (subclass : bool) (position arity : N)
    (set : list Handle) : res (list Handle) :=
  HE.two_loops (fun h =>
      a ← deref h; link ← as_link a;
      if negb (getArity link =? arity)%N then Ok true
      else target ← outgoingAtom t (Z.of_N position) link;
           Ok (negb (type_matches type subclass (a_type target)))) set.

(** [filterSet(set, name, position, arity)]: a null target is removed. *)
Definition filterSet_targetName (name : option string) (position arity : N)
    (set : list Handle) : res (list Handle) :=
  HE.two_loops (fun h =>
      a ← deref h; link ← as_link a;
      if negb (getArity link =? arity)%N then Ok true
      else o ← getOutgoingAtom t (Z.of_N position) link;
           match o with
           | None => Ok true
           | Some p => target ← of_opt (heap t !! p); bad_name name target
           end) set.

Definition filterSet_targetNameType (name : option string) (type : N)
    (subclass : bool) (position arity : N) (set : list Handle) : res (list Handle) :=
  set' ← filterSet_targetType type subclass position arity set;
  filterSet_targetName name position arity set'.

Definition filterSet_sti (lowerBound upperBound : Z) (set : list Handle)
    : res (list Handle) :=
  HE.two_loops (fun h =>
      a ← deref h;
      let sti := getSTI (a_attentionValue a) in
      Ok ((sti <? lowerBound)%Z || (upperBound <? sti)%Z)) set.

(** [type != COMPOSITE || getVersionedTV(vh).isNullTv()] *)
Definition lacks_version (vh : VersionHandle) (a : Atom) : res bool :=
  ty ← getType_tv (a_truthValue a);
  if negb (ty =? COMPOSITE_TRUTH_VALUE)%Z then Ok true
  else match a_truthValue a with
       | CompositeTV p vs =>
           tv ← getVersionedTV (isInvalidHandle t) vh p vs; Ok (isNullTv tv)
       | _ => Undef
       end.

Definition filterSet_version (vh : VersionHandle) (set : list Handle)
    : res (list Handle) :=
  if isNullVersionHandle (isInvalidHandle t) vh then Ok set
  else HE.two_loops (fun h => a ← deref h; lacks_version vh a) set.

(** [matchesFilterCriteria]: the loop stops at the first match. *)
Fixpoint matches_loop (vh : VersionHandle) (match_target : Atom -> res bool)
    (link : Atom) (positions : list nat) : res bool :=
  match positions with
  | [] => Ok false
  | i :: ps =>
      target ← outgoingAtom t (Z.of_nat i) link;
      lacks ← lacks_version vh target;
      result ← (if lacks : bool then Ok false else match_target target);
      if result : bool then Ok true else matches_loop vh match_target link ps
  end.

Definition matchesFilterCriteria_with (match_target : Atom -> res bool)
    (vh : VersionHandle) (h : Handle) : res bool :=
  match atomOf t h with
  | Some link =>
      if isLinkObj link
      then matches_loop vh match_target link (seq 0 (N.to_nat (getArity link)))
      else Ok false
  | None => Ok false
  end.

Definition matchesFilterCriteria_type (targetType : N) (targetSubclasses : bool) :=
  matchesFilterCriteria_with (fun target =>
    Ok (type_matches targetType targetSubclasses (a_type target))).

Definition matchesFilterCriteria_name (targetName : string) (targetType : N) :=
  matchesFilterCriteria_with (fun target =>
    if (targetType =? a_type target)%N
    then n ← nodeName target; Ok (bool_decide (c_str targetName = c_str n))
    else Ok false).

Definition filterSet_targetVersion (targetType : N) (targetSubclasses : bool)
    (vh : VersionHandle) (set : list Handle) : res (list Handle) :=
  if isNullVersionHandle (isInvalidHandle t) vh then Ok set
  else HE.two_loops (fun h =>
         b ← matchesFilterCriteria_type targetType targetSubclasses vh h;
         Ok (negb b)) set.

Definition filterSet_targetNameVersion (targetName : string) (targetType : N)
    (vh : VersionHandle) (set : list Handle) : res (list Handle) :=
  if isNullVersionHandle (isInvalidHandle t) vh then Ok set
  else HE.two_loops (fun h =>
         b ← matchesFilterCriteria_name targetName targetType vh h;
         Ok (negb b)) set.
End filters.

(** ** Lemmas *)

(** Two nested [filter]s of a list, one per loop, are one [filter]. *)
Lemma filter_head_ok bad (keep : Handle -> bool) set :
  (forall h, h ∈ set -> bad h = Ok (negb (keep h))) ->
  exists r, HE.filter_head bad set = Ok r /\
    filter (fun h => keep h = true) set = filter (fun h => keep h = true) r /\
    (forall h next, r = h :: next -> keep h = true) /\ (forall h, h ∈ r -> h ∈ set).
Proof.
  induction set as [|h set IH]; intros Hb; simpl.
  { exists []. split_and!; auto. by intros. }
  rewrite Hb by (by left). simpl. destruct (keep h) eqn:Hk; simpl.
  - exists (h :: set). split_and!; auto. by intros ? ? [= <- _].
  - destruct IH as (r & -> & Hr & Hf & Hin); [intros; apply Hb; by right|].
    exists r. rewrite filter_cons, Hk. simpl. split_and!; auto. intros; by right; auto.
Qed.

Lemma filter_rest_ok bad (keep : Handle -> bool) set :
  (forall h, h ∈ set -> bad h = Ok (negb (keep h))) ->
  HE.filter_rest bad set = Ok (filter (fun h => keep h = true) set).
Proof.
  induction set as [|h set IH]; intros Hb; simpl; [done|].
  rewrite Hb by (by left). simpl.
  rewrite IH by (intros; apply Hb; by right). simpl. rewrite filter_cons.
  by destruct (keep h).
Qed.

Lemma two_loops_ok bad (keep : Handle -> bool) set :
  (forall h, h ∈ set -> bad h = Ok (negb (keep h))) ->
  HE.two_loops bad set = Ok (filter (fun h => keep h = true) set).
Proof.
  intros Hb. destruct (filter_head_ok bad keep set Hb) as (r & Hr & Hf & Hh & Hin).
  unfold HE.two_loops. rewrite Hr, Hf. simpl. destruct r as [|h next]; [done|].
  rewrite (filter_rest_ok bad keep) by (intros; apply Hb, Hin; by right). simpl.
  rewrite filter_cons, (Hh h next eq_refl). done.
Qed.

Lemma HE_remove_ok set h :
  HE.remove set h = Ok (filter (fun x => (x <> h)) set).
Proof.
  unfold HE.remove. rewrite (two_loops_ok _ (fun x => negb (x =? h)%N)).
  - f_equal. apply list_filter_iff. intros x. rewrite negb_true_iff, N.eqb_neq. done.
  - intros x _. by rewrite negb_involutive.
Qed.

Lemma HE_contains_elem h set : HE.contains h set = true <-> h ∈ set.
Proof.
  induction set as [|x set IH]; simpl; [by rewrite elem_of_nil|].
  rewrite elem_of_cons. destruct (N.eqb_spec x h) as [->|Hne]; naive_solver.
Qed.

Lemma HE_concatenation_app s1 s2 : HE.concatenation s1 s2 = s1 ++ s2.
Proof. by destruct s1. Qed.

Lemma HE_toHandleVector_id l : HE.toHandleVector l = l.
Proof. induction l as [|h l IH]; [done|]. cbn [HE.toHandleVector]. by rewrite IH. Qed.
Lemma HE_vector_roundtrip v : HE.toHandleVector (HE.fromHandleVector v) = v.
Proof.
  rewrite HE_toHandleVector_id. induction v as [|h v IH]; [done|].
  unfold HE.fromHandleVector in *. cbn [foldr]. by rewrite IH.
Qed.

Lemma HE_clone_id set : HE.clone set = set.
Proof. induction set as [|h set IH]; simpl; [done|by rewrite IH]. Qed.

Lemma two_loops_ext bad1 bad2 set :
  (forall h, bad1 h = bad2 h) -> HE.two_loops bad1 set = HE.two_loops bad2 set.
Proof.
  intros H. assert (Hrest : forall l, HE.filter_rest bad1 l = HE.filter_rest bad2 l).
  { induction l as [|h l IH]; simpl; [done|]. by rewrite H, IH. }
  unfold HE.two_loops.
  replace (HE.filter_head bad1 set) with (HE.filter_head bad2 set).
  - destruct (HE.filter_head bad2 set) as [[|h l]| | |]; simpl; try done. by rewrite Hrest.
  - induction set as [|h l IH]; simpl; [done|]. by rewrite H, IH.
Qed.

(** Does the atom behind the handle satisfy the test? *)
Definition atom_sat (t : TLB) (f : Atom -> bool) (h : Handle) : bool :=
  match atomOf t h with Some a => f a | None => false end.

Lemma two_loops_deref t f set :
  Forall (fun h => is_Some (atomOf t h)) set ->
  HE.two_loops (fun h => a ← deref t h; Ok (negb (f a))) set =
    Ok (filter (fun h => atom_sat t f h = true) set).
Proof.
  intros Hs. apply two_loops_ok. intros h Hh. rewrite Forall_forall in Hs.
  destruct (Hs h Hh) as [a Ha]. unfold deref, atom_sat. by rewrite Ha.
Qed.

Lemma filterSet_type_ok cs t type sub set :
  Forall (fun h => is_Some (atomOf t h)) set ->
  filterSet_type cs t type sub set =
    Ok (if (type =? ATOM cs)%N && sub then set
        else filter (fun h => atom_sat t (fun a => type_matches cs type sub (a_type a)) h
                              = true) set).
Proof.
  intros Hs. unfold filterSet_type. destruct (_ && _); [done|].
  by rewrite <- two_loops_deref.
Qed.

Lemma filterSet_sti_ok t lo hi set :
  Forall (fun h => is_Some (atomOf t h)) set ->
  filterSet_sti t lo hi set =
    Ok (filter (fun h => atom_sat t (fun a =>
          let sti := getSTI (a_attentionValue a) in
          (lo <=? sti)%Z && (sti <=? hi)%Z) h = true) set).
Proof.
  intros Hs. unfold filterSet_sti. rewrite <- two_loops_deref by done.
  assert (Hb : forall a : Atom, let sti := getSTI (a_attentionValue a) in
    (sti <? lo)%Z || (hi <? sti)%Z = negb ((lo <=? sti)%Z && (sti <=? hi)%Z)).
  { intros a sti. rewrite negb_andb, !Z.leb_antisym. by rewrite !negb_involutive. }
  apply two_loops_ext. intros h. unfold deref. destruct (atomOf t h); [|done].
  simpl. by rewrite Hb.
Qed.

(** The class of an object is the one that its type says. *)
Definition class_ok (cs : ClassServer) (a : Atom) : Prop :=
  isNode cs (a_type a) = isNodeObj a /\ isLink cs (a_type a) = isLinkObj a.

Definition keep_name (name : option string) (a : Atom) : bool :=
  let name := c_str (default EmptyString name) in
  if decide (name = EmptyString)
  then isLinkObj a || bool_decide (getName a = EmptyString)
  else isNodeObj a && bool_decide (c_str (getName a) = name).

Lemma bad_name_ok cs name a :
  class_ok cs a -> bad_name cs name a = Ok (negb (keep_name name a)).
Proof.
  intros [Hn Hl]. unfold bad_name, keep_name. rewrite Hn, Hl.
  unfold isNodeObj, isLinkObj, nodeName, getName.
  destruct (decide _); destruct (a_body a); simpl; try done.
Qed.

Lemma filterSet_name_ok cs t name set :
  Forall (fun h => exists a, atomOf t h = Some a /\ class_ok cs a) set ->
  filterSet_name cs t name set =
    Ok (filter (fun h => atom_sat t (keep_name name) h = true) set).
Proof.
  intros Hs. apply two_loops_ok. intros h Hh. rewrite Forall_forall in Hs.
  destruct (Hs h Hh) as (a & Ha & Hc). unfold deref, atom_sat. rewrite Ha. simpl.
  by apply bad_name_ok.
Qed.

Lemma filterSet_arity_ok t arity set :
  filterSet_arity t arity set =
    Ok (filter (fun h => (match atomOf t h with
                          | Some a => if isLinkObj a then getArity a else 0
                          | None => 0
                          end =? arity)%N = true) set).
Proof. unfold filterSet_arity. by apply two_loops_ok. Qed.

Lemma targets_lookup a i h :
  targets a !! i = Some h ->
  outgoing a !! i = Some h /\ (N.of_nat i < getArity a)%N.
Proof. unfold targets. rewrite lookup_take_Some. intros [? ?]. split; [done|]. lia. Qed.

(** Does a link of the given arity have the handle at the position? *)
Definition keep_position (handle : Handle) (position arity : N) (a : Atom) : bool :=
  negb (isLinkObj a) ||
  (bool_decide (targets a !! N.to_nat position = Some handle) && (getArity a =? arity)%N).

Lemma filterSet_position_ok t handle position arity set :
  Forall (fun h => is_Some (atomOf t h)) set ->
  filterSet_position t handle position arity set =
    Ok (filter (fun h => atom_sat t (keep_position handle position arity) h = true) set).
Proof.
  intros Hs. apply two_loops_ok. intros h Hh. rewrite Forall_forall in Hs.
  destruct (Hs h Hh) as [a Ha]. unfold atom_sat. rewrite Ha. unfold keep_position.
  destruct (isLinkObj a); simpl; [|done].
  destruct (N.eqb_spec (getArity a) arity) as [<-|]; simpl; [|by rewrite andb_false_r].
  rewrite andb_true_r. destruct (N.leb_spec (getArity a) position) as [Hp|Hp].
  - rewrite bool_decide_false; [done|]. intros [_ Hlt]%targets_lookup. lia.
  - assert (Hlt : (N.to_nat position < length (targets a))%nat)
      by (rewrite length_targets; lia).
    destruct (lookup_lt_is_Some_2 _ _ Hlt) as [x Hx]. rewrite Hx.
    apply targets_lookup in Hx as [-> _]. simpl. f_equal. f_equal.
    apply eq_true_iff_eq. rewrite N.eqb_eq, bool_decide_eq_true. naive_solver.
Qed.

(** ** Properties *)

(** C34. [HandleEntry::intersection] of any number of lists terminates (the
    search of [nextMatch] moves a cursor in every turn) and computes the
    multiset intersection: a handle occurs in the result exactly as often as in
    the list that has it least often, and the result is sorted. *)
Theorem intersection_correct sets :
  sets <> [] ->
  exists r, Intersection.intersection sets = Ok r /\ StronglySorted N.le r /\
    (forall x k, k <= occ x r <-> Forall (fun l => k <= occ x l) sets) /\
    (forall x, x ∈ r <-> Forall (fun l => x ∈ l) sets).
Proof.
  intros Hne. destruct (Intersection.intersection_spec sets Hne) as (r & H & Hr & Hs).
  exists r. split; [done|]. split; [done|]. split; [done|]. intros x.
  rewrite occ_pos, (Hr x 1). apply Forall_iff. intros l. by rewrite occ_pos.
Qed.

(** The filters over live atoms keep, in order, exactly the atoms asked
    for: by type (with or without subtypes), by importance range, by arity, by
    name, and by the handle at a position of the outgoing set (which lets
    everything that is not a link through). *)
Theorem filterSet_exact cs t set :
  Forall (fun h => exists a, atomOf t h = Some a /\ class_ok cs a) set ->
  (forall type sub,
    filterSet_type cs t type sub set =
      Ok (if (type =? ATOM cs)%N && sub then set else
          filter (fun h => atom_sat t (fun a => type_matches cs type sub (a_type a)) h
                           = true) set)) /\
  (forall lo hi, filterSet_sti t lo hi set =
      Ok (filter (fun h => atom_sat t (fun a =>
            let sti := getSTI (a_attentionValue a) in
            (lo <=? sti)%Z && (sti <=? hi)%Z) h = true) set)) /\
  (forall arity, filterSet_arity t arity set =
      Ok (filter (fun h => (match atomOf t h with
                            | Some a => if isLinkObj a then getArity a else 0
                            | None => 0
                            end =? arity)%N = true) set)) /\
  (forall name, filterSet_name cs t name set =
      Ok (filter (fun h => atom_sat t (keep_name name) h = true) set)) /\
  (forall handle position arity, filterSet_position t handle position arity set =
      Ok (filter (fun h => atom_sat t (keep_position handle position arity) h = true) set)).
Proof.
  intros Hs. assert (Hl : Forall (fun h => is_Some (atomOf t h)) set).
  { apply (Forall_impl _ _ _ Hs). intros h (a & Ha & _). eauto. }
  split_and!; intros.
  - by apply filterSet_type_ok.
  - by apply filterSet_sti_ok.
  - apply filterSet_arity_ok.
  - by apply filterSet_name_ok.
  - by apply filterSet_position_ok.
Qed.

(** Three atoms of which the second one is marked for removal. *)
Definition plain_node (h : Handle) (ty : N) (name : string) (tv : TruthValue) : Atom :=
  mkAtom h ty true [] 0 tv AV_factory (NodeBody name).
Definition three_atoms : TLB :=
  mkTLB {[1%positive := plain_node 1 3 "a" DEFAULT_TV;
          2%positive := markForRemoval (plain_node 2 3 "b" DEFAULT_TV);
          3%positive := plain_node 3 3 "c" DEFAULT_TV]}
    {[1%N := 1%positive; 2%N := 2%positive; 3%N := 3%positive]} 4.

(** The filter on the removal mark does not filter: its second loop tests
    the last kept element instead of the next one. Asked for the atoms that are
    not marked among an unmarked, a marked and an unmarked one, it returns the
    marked one and drops the last one. *)
Theorem filterSet_removal_keeps_marked :
  isMarkedForRemoval <$> atomOf three_atoms 1 = Some false /\
  isMarkedForRemoval <$> atomOf three_atoms 2 = Some true /\
  isMarkedForRemoval <$> atomOf three_atoms 3 = Some false /\
  filterSet_removal three_atoms false [1; 2; 3]%N = Ok [1; 2]%N.
Proof. split_and!; vm_compute; reflexivity. Qed.

(** The list operations: [remove] takes out every occurrence of the handle
    and nothing else, [contains] is membership, [concatenation] appends,
    [last] is the cell of the last handle, and a vector survives the round trip
    through a list. *)
Theorem handle_list_operations set1 set2 h :
  HE.remove set1 h = Ok (filter (fun x => x <> h) set1) /\
  (HE.contains h set1 = true <-> h ∈ set1) /\
  HE.toHandleVector (HE.concatenation (HE.fromHandleVector set1) (HE.fromHandleVector set2))
    = set1 ++ set2 /\
  HE.last (set1 ++ [h]) = Ok [h].
Proof.
  split_and!.
  - apply HE_remove_ok.
  - apply HE_contains_elem.
  - assert (Hf : forall v, HE.fromHandleVector v = v).
    { induction v as [|x v IH]; [done|]. unfold HE.fromHandleVector in *.
      cbn [foldr]. by rewrite IH. }
    rewrite !Hf, HE_concatenation_app.
    pose proof (HE_vector_roundtrip (set1 ++ set2)) as Hr. by rewrite Hf in Hr.
  - induction set1 as [|x l IH]; [done|]. simpl. destruct (l ++ [h]) eqn:E; [|done].
    by destruct l.
Qed.

(** ** Witnesses *)
Lemma intersection_correct_witness :
  exists r, Intersection.intersection [[3; 1; 2; 2]; [2; 4; 2; 3]]%N = Ok r /\
            (2%N ∈ r <-> Forall (fun l => 2%N ∈ l) [[3; 1; 2; 2]; [2; 4; 2; 3]]%N).
Proof.
  destruct (intersection_correct [[3; 1; 2; 2]; [2; 4; 2; 3]]%N ltac:(discriminate))
    as (r & H & _ & _ & Hin).
  exists r. exact (conj H (Hin 2%N)).
Defined.

Lemma three_atoms_live :
  Forall (fun h => exists a, atomOf three_atoms h = Some a /\ class_ok small_cs a)
    [1; 2; 3]%N.
Proof.
  repeat constructor; eexists; (split; [vm_compute; reflexivity|]);
    split; vm_compute; reflexivity.
Qed.

Lemma filterSet_exact_witness :
  filterSet_arity three_atoms 0 [1; 2; 3]%N = Ok [1; 2; 3]%N.
Proof.
  destruct (filterSet_exact small_cs three_atoms [1; 2; 3]%N three_atoms_live)
    as (_ & _ & H & _).
  rewrite (H 0%N). vm_compute. reflexivity.
Defined.
