(* ===== verification/Index.v ===== *)
(** The search indexes of an atom table: src/opencog/atomspace/
    FixedIntegerIndex.cc, StringIndex.cc, HandleSeqIndex.cc, NameIndex.cc,
    NodeIndex.cc, LinkIndex.cc, TypeIndex.cc, TargetTypeIndex.cc,
    ImportanceIndex.cc and PredicateIndex.cc.

    An index holds handles and looks the atoms up in the TLB. *)
From S2P Require Import Prelude ClassServer TruthValue AttentionValue Atom TLB HandleEntry.

(** ** Vectors of sets of handles

    [std::vector<UnorderedHandleSet>]: the length, and the sets that are not
    known to be empty. *)
Record svec := mkSvec { sv_len : N; sv_cells : gmap N (gset Handle) }.

Definition sv_get (v : svec) (i : N) : gset Handle := default ∅ (sv_cells v !! i).
Definition sv_set (i : N) (s : gset Handle) (v : svec) : svec :=
  mkSvec (sv_len v) (<[i := s]> (sv_cells v)).

Definition remove_if `{SetOrder} (p : Handle -> res bool) (s : gset Handle)
    : res (gset Handle) :=
  rfold (fun s' h => b ← p h; Ok (if b : bool then s' ∖ {[h]} else s')) s (set_order s).

Module FixedIntegerIndex.
(** [idx.at(i)] converts a negative index to a huge one. *)
Definition at_ (i : Z) (v : svec) : res N :=
  if (0 <=? i)%Z && (i <? Z.of_N (sv_len v))%Z then Ok (Z.to_N i)
  else Throw OutOfRange.

Definition insert (i : Z) (h : Handle) (v : svec) : res svec :=
  k ← at_ i v; Ok (sv_set k ({[h]} ∪ sv_get v k) v).

Definition get (i : Z) (v : svec) : Handle := UNDEFINED.

Definition remove (i : Z) (h : Handle) (v : svec) : res svec :=
  k ← at_ i v; Ok (sv_set k (sv_get v k ∖ {[h]}) v).

Definition size (v : svec) : nat :=
  foldr (fun c n => base.size c.2 + n) 0 (map_to_list (sv_cells v)).

Definition remove_filter `{SetOrder} (p : Handle -> res bool) (v : svec) : res svec :=
  rfold (fun v' c => s ← remove_if p c.2; Ok (sv_set c.1 s v'))
    v (map_to_list (sv_cells v)).

Definition resize (sz : N) (v : svec) : svec :=
  mkSvec sz (filter (fun c => (c.1 < sz)%N) (sv_cells v)).
End FixedIntegerIndex.

(** ** Maps from strings and from outgoing sets *)
Module StringIndex.
Abbreviation t := (gmap string Handle).

(** [std::map::insert] leaves an existing entry alone. *)
Definition insert (str : option string) (h : Handle) (idx : t) : t :=
  match str with
  | None => idx
  | Some s => match idx !! c_str s with
              | Some _ => idx
              | None => <[c_str s := h]> idx
              end
  end.

Definition get (str : string) (idx : t) : Handle :=
  match idx !! c_str str with Some h => h | None => UNDEFINED end.

Definition remove (str : string) (h : Handle) (idx : t) : t := delete (c_str str) idx.

Definition size (idx : t) : nat := base.size idx.

Definition remove_filter (p : Handle -> res bool) (idx : t) : res t :=
  rfold (fun idx' (kh : string * Handle) =>
           b ← p kh.2; Ok (if b : bool then delete (c_str kh.1) idx' else idx'))
    idx (map_to_list idx).
End StringIndex.

Module HandleSeqIndex.
Abbreviation t := (gmap (list Handle) Handle).

Definition insert (seq : list Handle) (h : Handle) (idx : t) : t :=
  match idx !! seq with Some _ => idx | None => <[seq := h]> idx end.

Definition get (seq : list Handle) (idx : t) : Handle :=
  match idx !! seq with Some h => h | None => UNDEFINED end.

Definition remove (seq : list Handle) (h : Handle) (idx : t) : t := delete seq idx.

Definition size (idx : t) : nat := base.size idx.

Definition remove_filter (p : Handle -> res bool) (idx : t) : res t :=
  rfold (fun idx' (kh : list Handle * Handle) =>
           b ← p kh.2; Ok (if b : bool then delete kh.1 idx' else idx'))
    idx (map_to_list idx).
End HandleSeqIndex.

Module NameIndex.
Definition insertHandle (t : TLB) (h : Handle) (idx : StringIndex.t) : StringIndex.t :=
  match atomOf t h with
  | Some a => if isNodeObj a then StringIndex.insert (Some (getName a)) h idx else idx
  | None => idx
  end.

Definition removeHandle (t : TLB) (h : Handle) (idx : StringIndex.t) : StringIndex.t :=
  match atomOf t h with
  | Some a => if isNodeObj a then StringIndex.remove (getName a) h idx else idx
  | None => idx
  end.

Definition getHandleSet (name : string) (idx : StringIndex.t) : list Handle :=
  [StringIndex.get name idx].
End NameIndex.

(** [for (s = idx.begin(); s != idx.end(); s++) s->remove(filter)] *)
Fixpoint rmap {A B} (f : A -> res B) (l : list A) : res (list B) :=
  match l with
  | [] => Ok []
  | x :: l' => y ← f x; r ← rmap f l'; Ok (y :: r)
  end.

(** The loop over all subtypes of [getHandleSet]: valid handles are put in
    front of the answer. *)
Definition subtype_handles {A} (cs : ClassServer) (t : TLB) (get : A -> Handle)
    (type : N) (idx : list A) : res (list Handle) :=
  rfold (fun he s =>
      if isAb cs s type then
        match idx !! N.to_nat s with
        | None => Throw RuntimeException
        | Some x => let h := get x in
                    Ok (if isValidHandle t h then h :: he else he)
        end
      else Ok he)
    [] (codes (getNumberOfClasses cs)).

Module NodeIndex.
Abbreviation t := (list StringIndex.t).

Definition resize (cs : ClassServer) (idx : t) : t :=
  list.resize (N.to_nat (getNumberOfClasses cs)) ∅ idx.

(** [idx[t]] is not checked. *)
Definition insertHandle (t : TLB) (h : Handle) (idx : NodeIndex.t) : res NodeIndex.t :=
  a ← deref t h;
  ni ← of_opt (idx !! N.to_nat (a_type a));
  Ok (<[N.to_nat (a_type a) := NameIndex.insertHandle t h ni]> idx).

Definition removeHandle (t : TLB) (h : Handle) (idx : NodeIndex.t) : res NodeIndex.t :=
  a ← deref t h;
  ni ← of_opt (idx !! N.to_nat (a_type a));
  Ok (<[N.to_nat (a_type a) := NameIndex.removeHandle t h ni]> idx).

Definition getHandle (ty : N) (name : string) (idx : NodeIndex.t) : res Handle :=
  match idx !! N.to_nat ty with
  | None => Throw RuntimeException
  | Some ni => Ok (StringIndex.get name ni)
  end.

Definition remove_filter (p : Handle -> res bool) (idx : NodeIndex.t) : res NodeIndex.t :=
  rmap (StringIndex.remove_filter p) idx.

Definition getHandleSet (cs : ClassServer) (t : TLB) (type : N) (name : string)
    (subclass : bool) (idx : NodeIndex.t) : res (list Handle) :=
  if subclass then subtype_handles cs t (StringIndex.get name) type idx
  else h ← getHandle type name idx;
       Ok (if isValidHandle t h then [h] else []).
End NodeIndex.

Module LinkIndex.
Abbreviation t := (list HandleSeqIndex.t).

Definition resize (cs : ClassServer) (idx : t) : t :=
  list.resize (N.to_nat (getNumberOfClasses cs)) ∅ idx.

Definition insertHandle (t : TLB) (h : Handle) (idx : LinkIndex.t) : res LinkIndex.t :=
  a ← deref t h;
  hsi ← of_opt (idx !! N.to_nat (a_type a));
  Ok (if isLinkObj a
      then <[N.to_nat (a_type a) := HandleSeqIndex.insert (outgoing a) h hsi]> idx
      else idx).

Definition removeHandle (t : TLB) (h : Handle) (idx : LinkIndex.t) : res LinkIndex.t :=
  a ← deref t h;
  hsi ← of_opt (idx !! N.to_nat (a_type a));
  Ok (if isLinkObj a
      then <[N.to_nat (a_type a) := HandleSeqIndex.remove (outgoing a) h hsi]> idx
      else idx).

Definition getHandle (ty : N) (seq : list Handle) (idx : LinkIndex.t) : res Handle :=
  match idx !! N.to_nat ty with
  | None => Throw RuntimeException
  | Some hsi => Ok (HandleSeqIndex.get seq hsi)
  end.

Definition remove_filter (p : Handle -> res bool) (idx : LinkIndex.t) : res LinkIndex.t :=
  rmap (HandleSeqIndex.remove_filter p) idx.

(** Without subtypes the handle is returned even when it is undefined. *)
Definition getHandleSet (cs : ClassServer) (t : TLB) (type : N) (seq : list Handle)
    (subclass : bool) (idx : LinkIndex.t) : res (list Handle) :=
  if subclass then subtype_handles cs t (HandleSeqIndex.get seq) type idx
  else h ← getHandle type seq idx; Ok [h].
End LinkIndex.

(** ** The index by type *)
Module TypeIndex.
Record t := mk { num_types : N; idx : svec }.

Definition resize (cs : ClassServer) (ti : t) : t :=
  mk (getNumberOfClasses cs)
     (FixedIntegerIndex.resize (getNumberOfClasses cs + 1) (idx ti)).

Definition insertHandle (t : TLB) (h : Handle) (ti : TypeIndex.t) : res TypeIndex.t :=
  a ← deref t h;
  v ← FixedIntegerIndex.insert (Z.of_N (a_type a)) h (idx ti);
  Ok (mk (num_types ti) v).

Definition removeHandle (t : TLB) (h : Handle) (ti : TypeIndex.t) : res TypeIndex.t :=
  a ← deref t h;
  v ← FixedIntegerIndex.remove (Z.of_N (a_type a)) h (idx ti);
  Ok (mk (num_types ti) v).

Definition remove_filter `{SetOrder} (p : Handle -> res bool) (ti : t) : res t :=
  v ← FixedIntegerIndex.remove_filter p (idx ti); Ok (mk (num_types ti) v).

(** *** Iterators

    [it_s] is the position of [s] in the vector ([send] is the length),
    [it_se] the elements from [se] to the end of the set. [currtype] is a
    16-bit counter. *)
Record iterator := mkIt {
  it_type : N; it_sub : bool; it_s : N; it_currtype : N; it_se : list Handle
}.

Section iteration.
Context `{SetOrder} (cs : ClassServer).

Definition selects (type : N) (sub : bool) (currtype : N) : bool :=
  (type =? currtype)%N || (sub && isAb cs currtype type).

Fixpoint begin_loop (fuel : nat) (ti : t) (it : iterator) : res iterator :=
  match fuel with
  | O => Fuel
  | S fuel' =>
      if (it_s it =? sv_len (idx ti))%N then Ok it
      else
        let l := set_order (sv_get (idx ti) (it_s it)) in
        let next := mkIt (it_type it) (it_sub it) (it_s it + 1)
                      (wrap16 (it_currtype it + 1)) (it_se it) in
        if selects (it_type it) (it_sub it) (it_currtype it) then
          match l with
          | [] => begin_loop fuel' ti next
          | _ => Ok (mkIt (it_type it) (it_sub it) (it_s it) (it_currtype it) l)
          end
        else begin_loop fuel' ti next
  end.

Definition begin (type : N) (sub : bool) (ti : t) : res iterator :=
  begin_loop (S (N.to_nat (sv_len (idx ti)))) ti (mkIt type sub 0 0 []).

(** [operator*] *)
Definition it_deref (ti : t) (it : iterator) : res Handle :=
  if (it_s it =? sv_len (idx ti))%N then Ok UNDEFINED
  else of_opt (head (it_se it)).

(** [it != end()]: [end()] has [s == send]; the element iterators are
    compared, and that of [end()] is past the last element. *)
Definition not_end (ti : t) (it : iterator) : bool :=
  negb (it_s it =? sv_len (idx ti))%N &&
  match it_se it with [] => false | _ => true end.

(** The [do] loop of [operator++]; [s->begin()] of the end of the vector is
    undefined. *)
Fixpoint advance_loop (fuel : nat) (ti : t) (it : iterator) : res iterator :=
  match fuel with
  | O => Fuel
  | S fuel' =>
      let s := (it_s it + 1)%N in
      let currtype := wrap16 (it_currtype it + 1) in
      let continue_ se :=
        let it' := mkIt (it_type it) (it_sub it) s currtype se in
        if (s =? sv_len (idx ti))%N then Ok it' else advance_loop fuel' ti it' in
      if selects (it_type it) (it_sub it) currtype then
        if (s =? sv_len (idx ti))%N then Undef
        else match set_order (sv_get (idx ti) s) with
             | [] => continue_ []
             | l => Ok (mkIt (it_type it) (it_sub it) s currtype l)
             end
      else continue_ (it_se it)
  end.

(** [operator++] *)
Definition it_next (ti : t) (it : iterator) : res iterator :=
  if (it_s it =? sv_len (idx ti))%N then Ok it
  else match it_se it with
       | [] => Undef
       | _ :: [] => advance_loop (S (N.to_nat (sv_len (idx ti) - it_s it))) ti
                      (mkIt (it_type it) (it_sub it) (it_s it) (it_currtype it) [])
       | _ :: l => Ok (mkIt (it_type it) (it_sub it) (it_s it) (it_currtype it) l)
       end.

Fixpoint getHandleSet_loop (fuel : nat) (ti : t) (it : iterator) (he : list Handle)
    : res (list Handle) :=
  match fuel with
  | O => Fuel
  | S fuel' =>
      if not_end ti it then
        h ← it_deref ti it;
        it' ← it_next ti it;
        getHandleSet_loop fuel' ti it' (h :: he)
      else Ok he
  end.

(** The fuel: the loop visits every handle of the selected sets once. *)
Definition handles_in (ti : t) (is_ : list N) : nat :=
  foldr (fun i n => base.size (sv_get (idx ti) i) + n) 0 is_.

Definition getHandleSet (type : N) (subclass : bool) (ti : t) : res (list Handle) :=
  it ← begin type subclass ti;
  getHandleSet_loop (S (handles_in ti (codes (sv_len (idx ti))))) ti it [].
End iteration.
End TypeIndex.

(** [TargetTypeIndex] is a [TypeIndex] with its own [insertHandle] and
    [removeHandle]. *)
Module TargetTypeIndex.
(** The loop over the outgoing set, with the types already done. *)
Fixpoint each_type (t : TLB) (f : Z -> svec -> res svec) (oset : list Handle)
    (done_already : gset N) (v : svec) : res svec :=
  match oset with
  | [] => Ok v
  | x :: oset' =>
      a ← deref t x;
      if decide (a_type a ∈ done_already) then each_type t f oset' done_already v
      else v' ← f (Z.of_N (a_type a)) v;
           each_type t f oset' ({[a_type a]} ∪ done_already) v'
  end.

Definition for_targets (t : TLB) (f : Z -> svec -> res svec) (h : Handle)
    (ti : TypeIndex.t) : res TypeIndex.t :=
  match atomOf t h with
  | Some l =>
      if isLinkObj l && negb (getArity l =? 0)%N then
        v ← each_type t f (targets l) ∅ (TypeIndex.idx ti);
        Ok (TypeIndex.mk (TypeIndex.num_types ti) v)
      else Ok ti
  | None => Ok ti
  end.

Definition insertHandle (t : TLB) (h : Handle) : TypeIndex.t -> res TypeIndex.t :=
  for_targets t (fun ty => FixedIntegerIndex.insert ty h) h.

Definition removeHandle (t : TLB) (h : Handle) : TypeIndex.t -> res TypeIndex.t :=
  for_targets t (fun ty => FixedIntegerIndex.remove ty h) h.
End TargetTypeIndex.

(** ** The index by importance *)
Module ImportanceIndex.
Definition empty : svec := FixedIntegerIndex.resize (IMPORTANCE_INDEX_SIZE + 1) (mkSvec 0 ∅).

Definition binOf (a : Atom) : Z := Z.of_N (importanceBin (getSTI (a_attentionValue a))).

Definition insertHandle (t : TLB) (h : Handle) (v : svec) : res svec :=
  a ← deref t h; FixedIntegerIndex.insert (binOf a) h v.

Definition removeHandle (t : TLB) (h : Handle) (v : svec) : res svec :=
  a ← deref t h; FixedIntegerIndex.remove (binOf a) h v.

Definition updateImportance (a : Atom) (bin : Z) (v : svec) : res svec :=
  h ← getHandle_tlb a;
  let newbin := binOf a in
  if (bin =? newbin)%Z then Ok v
  else v' ← FixedIntegerIndex.remove bin h v; FixedIntegerIndex.insert newbin h v'.

(** A loop [he->next = set; set = he] over a bin. *)
Definition push_all `{SetOrder} (s : gset Handle) (set : list Handle) : list Handle :=
  foldl (fun set h => h :: set) set (set_order s).

Definition getHandleSet `{SetOrder} (t : TLB) (lowerBound upperBound : Z) (v : svec)
    : res (list Handle) :=
  let lowerBin := importanceBin lowerBound in
  let upperBin := importanceBin upperBound in
  set ← filterSet_sti t lowerBound upperBound (push_all (sv_get v lowerBin) []);
  if (lowerBin =? upperBin)%N then Ok set
  else
    let between := (fun i => lowerBin + 1 + N.of_nat i)%N
                     <$> seq 0 (N.to_nat (upperBin - lowerBin - 1)) in
    let set := foldl (fun set bin => push_all (sv_get v bin) set) set between in
    uset ← filterSet_sti t lowerBound upperBound (push_all (sv_get v upperBin) []);
    Ok (HE.concatenation uset set).

(** [atom->attentionValue.decaySTI()] for the atoms of a band. *)
Definition decay_atom (a : Atom) : res Atom :=
  Ok (set_av (decaySTI (a_attentionValue a)) a).
Definition decay_band `{SetOrder} (band : gset Handle) : ST TLB unit :=
  foreach (fun h => modify (on_atom h decay_atom)) (set_order band).

(** The bins [1 .. IMPORTANCE_INDEX_SIZE - 2] of the loop. *)
Fixpoint shift_bins `{SetOrder} (n : nat) (bin : N) (v : svec) : ST TLB svec :=
  match n with
  | O => mret v
  | S n' =>
      let v' := sv_set bin (sv_get v (bin + 1)) v in
      _ ← decay_band (sv_get v' bin); shift_bins n' (bin + 1) v'
  end.

Definition decay_all `{SetOrder} (v : svec) : ST TLB svec :=
  _ ← decay_band (sv_get v 1);
  let v := sv_set 0 (sv_get v 0 ∪ sv_get v 1) v in
  v ← shift_bins (N.to_nat (IMPORTANCE_INDEX_SIZE - 2)) 1 v;
  mret (sv_set (IMPORTANCE_INDEX_SIZE - 1) ∅ v).

Definition set_decayed (value : bool) (h : Handle) : ST TLB unit :=
  modify (on_atom h (fun a => Ok (setFlag REMOVED_BY_DECAY value a))).

(** The loops of [extractOld] and [decayShortTermImportance] over handles:
    what is extracted goes in front of the result. *)
Fixpoint each_old (extract : Handle -> ST TLB (list Handle)) (minSTI : Z)
    (hs : list Handle) (result : list Handle) : ST TLB (list Handle) :=
  match hs with
  | [] => mret result
  | h :: hs' =>
      a ← reads (fun s => of_opt (atomOf s h));
      if isOld minSTI a then
        r ← extract h; each_old extract minSTI hs' (HE.concatenation r result)
      else each_old extract minSTI hs' result
  end.

(** Is there an incoming atom that is not marked for removal by decay? *)
Definition some_kept (s : TLB) (incoming : list Handle) : res bool :=
  rfold (fun (kept : bool) h =>
           if kept then Ok true
           else a ← of_opt (atomOf s h); Ok (negb (getFlag REMOVED_BY_DECAY a)))
    false incoming.

(** [extractOld]: the recursion goes up the incoming sets. *)
Fixpoint extractOld (fuel : nat) (minSTI : Z) (recursive : bool) (handle : Handle)
    : ST TLB (list Handle) :=
  match fuel with
  | O => nofuel
  | S fuel' =>
      atom ← reads (fun s => of_opt (atomOf s handle));
      if getFlag REMOVED_BY_DECAY atom then mret [] else
      _ ← set_decayed true handle;
      result ← (if recursive
                then each_old (extractOld fuel' minSTI true) minSTI (a_incoming atom) []
                else mret []);
      kept ← reads (fun s => some_kept s (a_incoming atom));
      if kept : bool then _ ← set_decayed false handle; mret result
      else mret (HE.concatenation [handle] result)
  end.

(** [decayShortTermImportance]; [minSTI] is the configured MIN_STI. *)
Definition decayShortTermImportance `{SetOrder} (minSTI : Z) (v : svec)
    : ST TLB (list Handle * svec) :=
  v ← decay_all v;
  fuel ← asks (fun s => S (base.size (handle_map s)));
  let bins := N.of_nat <$> seq 0 (S (N.to_nat (importanceBin minSTI))) in
  oldAtoms ← each_old (extractOld fuel minSTI true) minSTI
               (bins ≫= fun bin => set_order (sv_get v bin)) [];
  mret (oldAtoms, v).
End ImportanceIndex.

(** ** The index by predicate *)
Module PredicateIndex.
(** What an evaluator answers may depend on the atoms. *)
Definition Evaluator := TLB -> Handle -> bool.

Record t := mk {
  idx : svec;
  predicateHandles : list Handle;
  predicateEvaluators : list (option Evaluator);
  numberOfPredicateIndices : N;
  predicateHandles2Indices : gmap Handle N
}.

Definition MAX_PREDICATE_INDICES : N := 32.

Definition empty : t :=
  mk (FixedIntegerIndex.resize MAX_PREDICATE_INDICES (mkSvec 0 ∅))
    (replicate (N.to_nat MAX_PREDICATE_INDICES) UNDEFINED)
    (replicate (N.to_nat MAX_PREDICATE_INDICES) None) 0 ∅.

Definition with_idx (pi : t) (v : svec) : t :=
  mk v (predicateHandles pi) (predicateEvaluators pi)
    (numberOfPredicateIndices pi) (predicateHandles2Indices pi).

Definition insertHandle (t : TLB) (h : Handle) (pi : PredicateIndex.t)
    : res PredicateIndex.t :=
  v ← rfold (fun v i =>
        o ← of_opt (predicateEvaluators pi !! i);
        evaluate ← of_opt o;
        if (evaluate : Evaluator) t h
        then FixedIntegerIndex.insert (Z.of_nat i) h v else Ok v)
      (idx pi) (seq 0 (N.to_nat (numberOfPredicateIndices pi)));
  Ok (with_idx pi v).

(** The sets that are not stored are empty, and stay so. *)
Definition removeHandle (h : Handle) (pi : t) : t :=
  with_idx pi (mkSvec (sv_len (idx pi)) ((fun s => s ∖ {[h]}) <$> sv_cells (idx pi))).

Definition remove_filter `{SetOrder} (p : Handle -> res bool) (pi : t) : res t :=
  v ← FixedIntegerIndex.remove_filter p (idx pi); Ok (with_idx pi v).

Definition getHandleSet `{SetOrder} (index : Z) (pi : t) : res (list Handle) :=
  k ← FixedIntegerIndex.at_ index (idx pi);
  Ok (ImportanceIndex.push_all (sv_get (idx pi) k) []).

(** [operator[]] past the end of the vectors is undefined. *)
Definition addPredicateIndex (ph : Handle) (evaluator : Evaluator) (pi : t) : res t :=
  let n := numberOfPredicateIndices pi in
  if (MAX_PREDICATE_INDICES <? n)%N then Throw InvalidParamException
  else match predicateHandles2Indices pi !! ph with
  | Some _ => Throw InvalidParamException
  | None =>
      if (N.of_nat (length (predicateHandles pi)) <=? n)%N then Undef
      else Ok (mk (idx pi)
                 (<[N.to_nat n := ph]> (predicateHandles pi))
                 (<[N.to_nat n := Some evaluator]> (predicateEvaluators pi))
                 (n + 1) (<[ph := n]> (predicateHandles2Indices pi)))
  end.

Definition getPredicateEvaluator (gpnHandle : Handle) (pi : t) : res (option Evaluator) :=
  match predicateHandles2Indices pi !! gpnHandle with
  | None => Ok None
  | Some index => of_opt (predicateEvaluators pi !! N.to_nat index)
  end.

Definition findHandlesByGPN `{SetOrder} (t : TLB) (gpnHandle : Handle)
    (vh : VersionHandle) (pi : PredicateIndex.t) : res (list Handle) :=
  if negb (isValidHandle t gpnHandle) then Ok []
  else
    result ← match predicateHandles2Indices pi !! gpnHandle with
             | None => Ok []
             | Some index => getHandleSet (Z.of_N index) pi
             end;
    filterSet_version t vh result.
End PredicateIndex.
