(* ===== verification/IndexSpec.v ===== *)
(** What the indexes of Index.v promise, and that their operations keep the
    promise: every index holds exactly the live atoms, each under its keys.

    The promises are stated over a view of the store that forgets what the
    indexes do not depend on: flags, incoming sets, truth values and the link
    to the table. *)
From S2P Require Import Prelude ClassServer TruthValue AttentionValue Atom TLB HandleEntry Index.

Definition core (a : Atom) : Atom :=
  mkAtom (a_handle a) (a_type a) true [] 0 NullTV (a_attentionValue a) (a_body a).
Definition coreOf (t : TLB) (h : Handle) : option Atom := core <$> atomOf t h.

Lemma coreOf_Some t h c :
  coreOf t h = Some c -> exists a, atomOf t h = Some a /\ core a = c.
Proof. unfold coreOf. rewrite fmap_Some. intros (a & Ha & ->). eauto. Qed.

Lemma core_fields a :
  a_type (core a) = a_type a /\ isNodeObj (core a) = isNodeObj a /\
  isLinkObj (core a) = isLinkObj a /\ getName (core a) = getName a /\
  outgoing (core a) = outgoing a /\ targets (core a) = targets a /\
  getArity (core a) = getArity a /\ a_attentionValue (core a) = a_attentionValue a /\
  a_handle (core a) = a_handle a.
Proof. done. Qed.

(** ** Maps under a type code: NodeIndex and LinkIndex *)
Section keyed.
Context {K : Type} `{Countable K}.
Context (key : Atom -> option K).

Definition lookup2 (ix : list (gmap K Handle)) (ty : N) (k : K) : option Handle :=
  ix !! N.to_nat ty ≫= fun m => m !! k.

Definition keyed_exact (n : N) (C : Handle -> option Atom) (L : gset Handle)
    (ix : list (gmap K Handle)) : Prop :=
  length ix = N.to_nat n /\
  forall ty k h, lookup2 ix ty k = Some h <->
    h ∈ L /\ exists a, C h = Some a /\ a_type a = ty /\ key a = Some k.

Lemma lookup2_insert ix ty ty' m k' :
  (N.to_nat ty < length ix)%nat ->
  lookup2 (<[N.to_nat ty := m]> ix) ty' k' =
    if decide (ty = ty') then m !! k' else lookup2 ix ty' k'.
Proof.
  intros Hl. unfold lookup2. destruct (decide (ty = ty')) as [<-|Hne].
  - by rewrite list_lookup_insert_eq.
  - rewrite list_lookup_insert_ne by lia. done.
Qed.

Lemma keyed_fresh n C L ix h a k :
  keyed_exact n C L ix -> C h = Some a -> (a_type a < n)%N ->
  (forall h' a', h' ∈ L -> C h' = Some a' -> a_type a' = a_type a -> key a' <> Some k) ->
  exists m, ix !! N.to_nat (a_type a) = Some m /\ m !! k = None.
Proof.
  intros [Hlen Hex] Ha Hty Hfree.
  destruct (lookup_lt_is_Some_2 ix (N.to_nat (a_type a))) as [m Hm]; [lia|].
  exists m. split; [done|]. destruct (m !! k) as [h'|] eqn:E; [|done].
  destruct (proj1 (Hex (a_type a) k h')) as (HL & a' & Ha' & Ht & Hk).
  { unfold lookup2. by rewrite Hm. }
  by destruct (Hfree h' a' HL Ha' Ht).
Qed.

Lemma keyed_insert n C L ix h a k m :
  keyed_exact n C L ix -> h ∉ L -> C h = Some a -> (a_type a < n)%N ->
  key a = Some k -> ix !! N.to_nat (a_type a) = Some m -> m !! k = None ->
  keyed_exact n C ({[h]} ∪ L) (<[N.to_nat (a_type a) := <[k := h]> m]> ix).
Proof.
  intros [Hlen Hex] HhL Ha Hty Hk Hm Hmk. split; [by rewrite length_insert|].
  intros ty k' h'. rewrite lookup2_insert by lia.
  rewrite elem_of_union, elem_of_singleton. specialize (Hex ty k' h').
  destruct (decide (a_type a = ty)) as [<-|Hne].
  - unfold lookup2 in Hex. rewrite Hm in Hex. simpl in Hex.
    destruct (decide (k = k')) as [<-|Hkk].
    + rewrite lookup_insert_eq. split; [intros [= <-]; split; [by left|eauto]|].
      intros [[->|HL] (a' & Ha' & Ht' & Hk')]; [done|].
      rewrite (proj2 Hex) in Hmk; [done|]. eauto.
    + rewrite lookup_insert_ne by done. rewrite Hex. split; [naive_solver|].
      intros [[->|HL] (a' & Ha' & Ht' & Hk')]; [|eauto]. simplify_eq.
  - rewrite Hex. split; [naive_solver|].
    intros [[->|HL] (a' & Ha' & Ht' & Hk')]; [|eauto]. simplify_eq.
Qed.

Lemma keyed_insert_other n C L ix h a :
  keyed_exact n C L ix -> C h = Some a -> key a = None ->
  keyed_exact n C ({[h]} ∪ L) ix.
Proof.
  intros [Hlen Hex] Ha Hk. split; [done|]. intros ty k' h'.
  rewrite Hex, elem_of_union, elem_of_singleton. split; [naive_solver|].
  intros [[->|HL] (a' & Ha' & Ht' & Hk')]; [|eauto]. simplify_eq.
Qed.

Lemma keyed_remove n C L ix h a k m :
  keyed_exact n C L ix -> h ∈ L -> C h = Some a ->
  key a = Some k -> ix !! N.to_nat (a_type a) = Some m ->
  keyed_exact n C (L ∖ {[h]}) (<[N.to_nat (a_type a) := delete k m]> ix).
Proof.
  intros [Hlen Hex] HhL Ha Hk Hm. split; [by rewrite length_insert|].
  assert (Hh : m !! k = Some h).
  { specialize (Hex (a_type a) k h). unfold lookup2 in Hex. rewrite Hm in Hex.
    simpl in Hex. apply Hex. eauto. }
  intros ty k' h'. rewrite lookup2_insert by (by apply lookup_lt_Some in Hm).
  rewrite elem_of_difference, elem_of_singleton. specialize (Hex ty k' h').
  destruct (decide (a_type a = ty)) as [<-|Hne].
  - unfold lookup2 in Hex. rewrite Hm in Hex. simpl in Hex.
    destruct (decide (k = k')) as [<-|Hkk].
    + rewrite lookup_delete_eq. split; [done|]. intros [[HL Hne] Hx].
      exfalso. apply Hne. rewrite (proj2 Hex) in Hh; [|by split]. by simplify_eq.
    + rewrite lookup_delete_ne by done. rewrite Hex. split; [|naive_solver].
      intros (HL & a' & Ha' & Ht' & Hk'). split; [|eauto]. split; [done|].
      intros ->. simplify_eq.
  - rewrite Hex. split; [|naive_solver]. intros (HL & a' & Ha' & Ht' & Hk').
    split; [|eauto]. split; [done|]. intros ->. simplify_eq.
Qed.

Lemma keyed_remove_other n C L ix h a :
  keyed_exact n C L ix -> C h = Some a -> key a = None ->
  keyed_exact n C (L ∖ {[h]}) ix.
Proof.
  intros [Hlen Hex] Ha Hk. split; [done|]. intros ty k' h'.
  rewrite Hex, elem_of_difference, elem_of_singleton. split; [|naive_solver].
  intros (HL & a' & Ha' & Ht' & Hk'). split; [|eauto]. split; [done|].
  intros ->. simplify_eq.
Qed.
End keyed.

Definition node_key (a : Atom) : option string :=
  if isNodeObj a then Some (c_str (getName a)) else None.
Definition link_key (a : Atom) : option (list Handle) :=
  if isLinkObj a then Some (outgoing a) else None.

Lemma key_class a :
  (exists k, node_key a = Some k /\ link_key a = None) \/
  (exists k, link_key a = Some k /\ node_key a = None).
Proof.
  unfold node_key, link_key, isNodeObj. destruct (isLinkObj a); simpl; eauto.
Qed.

Section keyed_ops.
Context (t : TLB) (C : Handle -> option Atom) (HC : forall k, coreOf t k = C k).

Lemma view_atom h c : C h = Some c -> exists a, atomOf t h = Some a /\ core a = c.
Proof. rewrite <- HC. apply coreOf_Some. Qed.

Lemma NodeIndex_insert_ok n L ix h c :
  keyed_exact node_key n C L ix -> h ∉ L -> C h = Some c -> (a_type c < n)%N ->
  (forall h' c' k, h' ∈ L -> C h' = Some c' -> a_type c' = a_type c ->
     node_key c = Some k -> node_key c' <> Some k) ->
  exists ix', NodeIndex.insertHandle t h ix = Ok ix' /\
              keyed_exact node_key n C ({[h]} ∪ L) ix'.
Proof.
  intros Hex HhL Hc Hty Hfree. destruct (view_atom _ _ Hc) as (a & Ha & <-).
  unfold NodeIndex.insertHandle, deref, NameIndex.insertHandle. rewrite Ha. simpl.
  destruct (lookup_lt_is_Some_2 ix (N.to_nat (a_type a))) as [m Hm].
  { destruct Hex as [-> _]. simpl in Hty. lia. }
  rewrite Hm. simpl. destruct (isNodeObj a) eqn:En.
  - assert (Hk : node_key (core a) = Some (c_str (getName a))).
    { unfold node_key. change (isNodeObj (core a)) with (isNodeObj a). by rewrite En. }
    destruct (keyed_fresh node_key n C L ix h _ _ Hex Hc Hty
                (fun h' a' H1 H2 H3 => Hfree h' a' _ H1 H2 H3 Hk)) as (m' & Hm' & Hmk).
    simpl in Hm'. simplify_eq. rewrite Hmk. eexists. split; [done|].
    by apply (keyed_insert node_key n C L ix h (core a)).
  - exists ix. split; [by rewrite list_insert_id|].
    apply (keyed_insert_other node_key n C L ix h (core a) Hex Hc).
    unfold node_key. change (isNodeObj (core a)) with (isNodeObj a). by rewrite En.
Qed.

Lemma NodeIndex_remove_ok n L ix h c :
  keyed_exact node_key n C L ix -> h ∈ L -> C h = Some c -> (a_type c < n)%N ->
  exists ix', NodeIndex.removeHandle t h ix = Ok ix' /\
              keyed_exact node_key n C (L ∖ {[h]}) ix'.
Proof.
  intros Hex HhL Hc Hty. destruct (view_atom _ _ Hc) as (a & Ha & <-).
  unfold NodeIndex.removeHandle, deref, NameIndex.removeHandle. rewrite Ha. simpl.
  destruct (lookup_lt_is_Some_2 ix (N.to_nat (a_type a))) as [m Hm].
  { destruct Hex as [-> _]. simpl in Hty. lia. }
  rewrite Hm. simpl. destruct (isNodeObj a) eqn:En.
  - eexists. split; [done|].
    apply (keyed_remove node_key n C L ix h (core a)); try done.
    unfold node_key. change (isNodeObj (core a)) with (isNodeObj a). by rewrite En.
  - exists ix. split; [by rewrite list_insert_id|].
    apply (keyed_remove_other node_key n C L ix h (core a) Hex Hc).
    unfold node_key. change (isNodeObj (core a)) with (isNodeObj a). by rewrite En.
Qed.

Lemma LinkIndex_insert_ok n L ix h c :
  keyed_exact link_key n C L ix -> h ∉ L -> C h = Some c -> (a_type c < n)%N ->
  (forall h' c' k, h' ∈ L -> C h' = Some c' -> a_type c' = a_type c ->
     link_key c = Some k -> link_key c' <> Some k) ->
  exists ix', LinkIndex.insertHandle t h ix = Ok ix' /\
              keyed_exact link_key n C ({[h]} ∪ L) ix'.
Proof.
  intros Hex HhL Hc Hty Hfree. destruct (view_atom _ _ Hc) as (a & Ha & <-).
  unfold LinkIndex.insertHandle, deref. rewrite Ha. simpl.
  destruct (lookup_lt_is_Some_2 ix (N.to_nat (a_type a))) as [m Hm].
  { destruct Hex as [-> _]. simpl in Hty. lia. }
  rewrite Hm. simpl. destruct (isLinkObj a) eqn:En.
  - assert (Hk : link_key (core a) = Some (outgoing a)).
    { unfold link_key. change (isLinkObj (core a)) with (isLinkObj a). by rewrite En. }
    destruct (keyed_fresh link_key n C L ix h _ _ Hex Hc Hty
                (fun h' a' H1 H2 H3 => Hfree h' a' _ H1 H2 H3 Hk)) as (m' & Hm' & Hmk).
    simpl in Hm'. simplify_eq. unfold HandleSeqIndex.insert. rewrite Hmk.
    eexists. split; [done|].
    by apply (keyed_insert link_key n C L ix h (core a)).
  - exists ix. split; [done|].
    apply (keyed_insert_other link_key n C L ix h (core a) Hex Hc).
    unfold link_key. change (isLinkObj (core a)) with (isLinkObj a). by rewrite En.
Qed.

Lemma LinkIndex_remove_ok n L ix h c :
  keyed_exact link_key n C L ix -> h ∈ L -> C h = Some c -> (a_type c < n)%N ->
  exists ix', LinkIndex.removeHandle t h ix = Ok ix' /\
              keyed_exact link_key n C (L ∖ {[h]}) ix'.
Proof.
  intros Hex HhL Hc Hty. destruct (view_atom _ _ Hc) as (a & Ha & <-).
  unfold LinkIndex.removeHandle, deref. rewrite Ha. simpl.
  destruct (lookup_lt_is_Some_2 ix (N.to_nat (a_type a))) as [m Hm].
  { destruct Hex as [-> _]. simpl in Hty. lia. }
  rewrite Hm. simpl. destruct (isLinkObj a) eqn:En.
  - eexists. split; [done|].
    apply (keyed_remove link_key n C L ix h (core a)); try done.
    unfold link_key. change (isLinkObj (core a)) with (isLinkObj a). by rewrite En.
  - exists ix. split; [done|].
    apply (keyed_remove_other link_key n C L ix h (core a) Hex Hc).
    unfold link_key. change (isLinkObj (core a)) with (isLinkObj a). by rewrite En.
Qed.
End keyed_ops.

(** ** Vectors of sets: TypeIndex, TargetTypeIndex, ImportanceIndex *)
Lemma sv_get_set v i j s :
  sv_get (sv_set i s v) j = if decide (i = j) then s else sv_get v j.
Proof.
  unfold sv_get, sv_set. simpl. destruct (decide (i = j)) as [->|Hne].
  - by rewrite lookup_insert_eq.
  - by rewrite lookup_insert_ne.
Qed.

Lemma at_ok i v : (i < sv_len v)%N -> FixedIntegerIndex.at_ (Z.of_N i) v = Ok i.
Proof.
  intros Hi. unfold FixedIntegerIndex.at_.
  rewrite (proj2 (Z.leb_le _ _)), (proj2 (Z.ltb_lt _ _)) by lia.
  simpl. by rewrite N2Z.id.
Qed.

Lemma FII_insert_ok i h v :
  (i < sv_len v)%N ->
  FixedIntegerIndex.insert (Z.of_N i) h v = Ok (sv_set i ({[h]} ∪ sv_get v i) v).
Proof. intros Hi. unfold FixedIntegerIndex.insert. by rewrite at_ok. Qed.

Lemma FII_remove_ok i h v :
  (i < sv_len v)%N ->
  FixedIntegerIndex.remove (Z.of_N i) h v = Ok (sv_set i (sv_get v i ∖ {[h]}) v).
Proof. intros Hi. unfold FixedIntegerIndex.remove. by rewrite at_ok. Qed.

Section fixed.
(** [P i h]: does the handle belong under the number? *)
Definition fixed_exact (len : N) (P : N -> Handle -> Prop) (L : gset Handle)
    (v : svec) : Prop :=
  sv_len v = len /\ forall i h, h ∈ sv_get v i <-> h ∈ L /\ P i h.

Lemma fixed_update len (P : N -> Handle -> Prop) L v v' h (add : bool) :
  fixed_exact len P L v -> sv_len v' = sv_len v ->
  (forall i, P i h -> sv_get v' i = if add then {[h]} ∪ sv_get v i else sv_get v i ∖ {[h]}) ->
  (forall i, ~ P i h -> sv_get v' i = sv_get v i) ->
  (forall i, Decision (P i h)) ->
  fixed_exact len P (if add then {[h]} ∪ L else L ∖ {[h]}) v'.
Proof.
  intros [Hl Hex] Hl' Hin Hout Hdec. split; [congruence|]. intros i h'.
  destruct (Hdec i) as [HP|HP].
  - rewrite (Hin i HP). destruct add.
    + rewrite !elem_of_union, !elem_of_singleton, Hex. naive_solver.
    + rewrite !elem_of_difference, !elem_of_singleton, Hex. naive_solver.
  - rewrite (Hout i HP), Hex. destruct add.
    + rewrite elem_of_union, elem_of_singleton. naive_solver.
    + rewrite elem_of_difference, elem_of_singleton. split; [|naive_solver].
      intros [HL HPi]. split; [|done]. split; [done|]. intros ->. done.
Qed.
End fixed.

(** The handle goes under the number that a function of its atom gives. *)
Definition under (f : Atom -> N) (C : Handle -> option Atom) (i : N) (h : Handle) : Prop :=
  f <$> C h = Some i.
#[export] Instance under_dec f C i h : Decision (under f C i h).
Proof. unfold under. apply _. Defined.

Lemma under_insert f C len L v h c :
  fixed_exact len (under f C) L v -> C h = Some c ->
  fixed_exact len (under f C) ({[h]} ∪ L) (sv_set (f c) ({[h]} ∪ sv_get v (f c)) v).
Proof.
  intros Hex Hc. unfold under in *.
  refine (fixed_update _ _ L v (sv_set _ _ _) h true Hex eq_refl _ _ _).
  - intros i Hi. rewrite Hc in Hi. simpl in Hi. simplify_eq.
    by rewrite sv_get_set, decide_True.
  - intros i Hi. rewrite Hc in Hi. simpl in Hi.
    rewrite sv_get_set, decide_False; [done|]. congruence.
Qed.

Lemma under_remove f C len L v h c :
  fixed_exact len (under f C) L v -> C h = Some c ->
  fixed_exact len (under f C) (L ∖ {[h]}) (sv_set (f c) (sv_get v (f c) ∖ {[h]}) v).
Proof.
  intros Hex Hc. unfold under in *.
  refine (fixed_update _ _ L v (sv_set _ _ _) h false Hex eq_refl _ _ _).
  - intros i Hi. rewrite Hc in Hi. simpl in Hi. simplify_eq.
    by rewrite sv_get_set, decide_True.
  - intros i Hi. rewrite Hc in Hi. simpl in Hi.
    rewrite sv_get_set, decide_False; [done|]. congruence.
Qed.

Definition type_exact (n : N) (C : Handle -> option Atom) (L : gset Handle)
    (ti : TypeIndex.t) : Prop :=
  TypeIndex.num_types ti = n /\
  fixed_exact (n + 1) (under a_type C) L (TypeIndex.idx ti).

Definition binN (a : Atom) : N := importanceBin (getSTI (a_attentionValue a)).
Definition importance_exact (C : Handle -> option Atom) (L : gset Handle) (v : svec) : Prop :=
  fixed_exact (IMPORTANCE_INDEX_SIZE + 1) (under binN C) L v.

(** A link goes under the types of its targets. *)
Definition target_types (C : Handle -> option Atom) (a : Atom) : list N :=
  omap (fun x => a_type <$> C x) (targets a).
Definition has_target (C : Handle -> option Atom) (i : N) (h : Handle) : Prop :=
  exists a, C h = Some a /\ isLinkObj a = true /\ i ∈ target_types C a.
Definition target_exact (n : N) (C : Handle -> option Atom) (L : gset Handle)
    (ti : TypeIndex.t) : Prop :=
  TypeIndex.num_types ti = n /\ fixed_exact (n + 1) (has_target C) L (TypeIndex.idx ti).

#[export] Instance has_target_dec C i h : Decision (has_target C i h).
Proof.
  unfold has_target. destruct (C h) as [a|] eqn:E.
  - destruct (isLinkObj a) eqn:El.
    + destruct (decide (i ∈ target_types C a)) as [Hin|Hin].
      * left. eauto.
      * right. naive_solver.
    + right. intros (a' & ? & Hl & _). simplify_eq. congruence.
  - right. intros (? & ? & _). done.
Defined.

Section fixed_ops.
Context (t : TLB) (C : Handle -> option Atom) (HC : forall k, coreOf t k = C k).

Lemma TypeIndex_insert_ok n L ti h c :
  type_exact n C L ti -> C h = Some c -> (a_type c < n)%N ->
  exists ti', TypeIndex.insertHandle t h ti = Ok ti' /\ type_exact n C ({[h]} ∪ L) ti'.
Proof.
  intros [Hn Hex] Hc Hty. destruct (view_atom t C HC _ _ Hc) as (a & Ha & <-).
  unfold TypeIndex.insertHandle, deref. rewrite Ha. simpl.
  rewrite FII_insert_ok by (destruct Hex as [-> _]; simpl in Hty; lia). simpl.
  eexists. split; [done|]. split; [done|]. simpl.
  by apply (under_insert a_type C _ L _ h (core a)).
Qed.

Lemma TypeIndex_remove_ok n L ti h c :
  type_exact n C L ti -> C h = Some c -> (a_type c < n)%N ->
  exists ti', TypeIndex.removeHandle t h ti = Ok ti' /\ type_exact n C (L ∖ {[h]}) ti'.
Proof.
  intros [Hn Hex] Hc Hty. destruct (view_atom t C HC _ _ Hc) as (a & Ha & <-).
  unfold TypeIndex.removeHandle, deref. rewrite Ha. simpl.
  rewrite FII_remove_ok by (destruct Hex as [-> _]; simpl in Hty; lia). simpl.
  eexists. split; [done|]. split; [done|]. simpl.
  by apply (under_remove a_type C _ L _ h (core a)).
Qed.

Lemma binN_range a : is_short (getSTI (a_attentionValue a)) ->
  (binN a < IMPORTANCE_INDEX_SIZE + 1)%N.
Proof. intros H%importanceBin_range. unfold binN. lia. Qed.

Lemma ImportanceIndex_insert_ok L v h c :
  importance_exact C L v -> C h = Some c -> is_short (getSTI (a_attentionValue c)) ->
  exists v', ImportanceIndex.insertHandle t h v = Ok v' /\ importance_exact C ({[h]} ∪ L) v'.
Proof.
  intros Hex Hc Hs. destruct (view_atom t C HC _ _ Hc) as (a & Ha & <-).
  unfold ImportanceIndex.insertHandle, deref. rewrite Ha. simpl.
  unfold ImportanceIndex.binOf. fold (binN a).
  rewrite FII_insert_ok by (destruct Hex as [-> _]; by apply binN_range). simpl.
  eexists. split; [done|]. by apply (under_insert binN C _ L _ h (core a)).
Qed.

Lemma ImportanceIndex_remove_ok L v h c :
  importance_exact C L v -> C h = Some c -> is_short (getSTI (a_attentionValue c)) ->
  exists v', ImportanceIndex.removeHandle t h v = Ok v' /\ importance_exact C (L ∖ {[h]}) v'.
Proof.
  intros Hex Hc Hs. destruct (view_atom t C HC _ _ Hc) as (a & Ha & <-).
  unfold ImportanceIndex.removeHandle, deref. rewrite Ha. simpl.
  unfold ImportanceIndex.binOf. fold (binN a).
  rewrite FII_remove_ok by (destruct Hex as [-> _]; by apply binN_range). simpl.
  eexists. split; [done|]. by apply (under_remove binN C _ L _ h (core a)).
Qed.

(** The loop over the targets updates the set of every target type once, as
    if it did so for every target: the update is idempotent. *)
Lemma each_type_ok f g len oset done_already v :
  (forall i v, sv_len v = len -> (i < len)%N -> f (Z.of_N i) v = Ok (sv_set i (g (sv_get v i)) v)) ->
  (forall s, g (g s) = g s) ->
  Forall (fun x => exists c, C x = Some c /\ (a_type c < len)%N) oset ->
  sv_len v = len ->
  (forall i, i ∈ done_already -> g (sv_get v i) = sv_get v i) ->
  exists v', TargetTypeIndex.each_type t f oset done_already v = Ok v' /\
    sv_len v' = len /\
    forall i, sv_get v' i =
      if decide (i ∈ omap (fun x => a_type <$> C x) oset) then g (sv_get v i) else sv_get v i.
Proof.
  intros Hf Hg. revert done_already v.
  induction oset as [|x oset IH]; intros done_already v Hall Hlen Hdone; simpl; [eauto|].
  inversion_clear Hall as [|? ? (c & Hc & Hty) Hall'].
  destruct (view_atom t C HC _ _ Hc) as (a & Ha & <-).
  unfold deref. rewrite Ha. simpl. simpl in Hty. rewrite Hc. simpl.
  destruct (decide (a_type a ∈ done_already)) as [Hd|Hd].
  - destruct (IH done_already v Hall' Hlen Hdone) as (v' & -> & Hl' & Hget).
    exists v'. split; [done|]. split; [done|]. intros i. rewrite Hget.
    destruct (decide (i = a_type a)) as [->|Hne].
    + rewrite (Hdone _ Hd). by repeat case_decide.
    + repeat case_decide; try done; rewrite elem_of_cons in *; naive_solver.
  - rewrite Hf by done. simpl.
    destruct (IH ({[a_type a]} ∪ done_already)
                (sv_set (a_type a) (g (sv_get v (a_type a))) v)) as (v' & -> & Hl' & Hget);
      [done|done| |].
    { intros i Hi. rewrite sv_get_set. case_decide as Hia; [by rewrite Hg|].
      apply Hdone. set_solver. }
    exists v'. split; [done|]. split; [done|]. intros i. rewrite Hget, sv_get_set.
    destruct (decide (a_type a = i)) as [<-|Hne].
    + rewrite Hg. rewrite (decide_True (P := _ ∈ _ :: _)) by left. by case_decide.
    + repeat case_decide; try done; rewrite elem_of_cons in *; naive_solver.
Qed.

Lemma for_targets_ok f g n L ti h c (add : bool) :
  (forall i v, sv_len v = (n + 1)%N -> (i < n + 1)%N ->
     f (Z.of_N i) v = Ok (sv_set i (g (sv_get v i)) v)) ->
  (forall s, g s = if add then {[h]} ∪ s else s ∖ {[h]}) ->
  target_exact n C L ti -> C h = Some c ->
  Forall (fun x => exists b, C x = Some b /\ (a_type b < n)%N) (targets c) ->
  exists ti', TargetTypeIndex.for_targets t f h ti = Ok ti' /\
    target_exact n C (if add then {[h]} ∪ L else L ∖ {[h]}) ti'.
Proof.
  intros Hf Hg [Hn Hex] Hc Htg. destruct (view_atom t C HC _ _ Hc) as (a & Ha & <-).
  change (targets (core a)) with (targets a) in Htg.
  unfold TargetTypeIndex.for_targets. rewrite Ha.
  assert (Hidem : forall s, g (g s) = g s).
  { intros s. rewrite !Hg. destruct add; apply set_eq; intros y;
      rewrite ?elem_of_union, ?elem_of_difference, ?elem_of_singleton; tauto. }
  assert (Hnone : isLinkObj a && negb (getArity a =? 0)%N = false ->
                  forall i, ~ has_target C i h).
  { intros Hz i (c & Hc' & Hl & Hi). simplify_eq.
    change (isLinkObj (core a)) with (isLinkObj a) in Hl. rewrite Hl in Hz. simpl in Hz.
    apply negb_false_iff, N.eqb_eq in Hz. unfold target_types in Hi.
    change (targets (core a)) with (targets a) in Hi.
    assert (Hnil : targets a = []) by (apply nil_length_inv; rewrite length_targets; lia).
    rewrite Hnil in Hi. by apply not_elem_of_nil in Hi. }
  destruct (isLinkObj a && negb (getArity a =? 0)%N) eqn:E.
  - destruct (each_type_ok f g (n + 1) (targets a) ∅ (TypeIndex.idx ti))
      as (v' & -> & Hl' & Hget); [done|done| |apply Hex|set_solver|].
    { apply (Forall_impl _ _ _ Htg). intros x (b & Hb & Hlt). exists b. split; [done|lia]. }
    simpl. eexists. split; [done|]. split; [done|]. simpl.
    apply andb_true_iff in E as [El _].
    refine (fixed_update _ _ L (TypeIndex.idx ti) v' h add Hex _ _ _ _).
    + rewrite Hl'. symmetry. apply Hex.
    + intros i (c & Hc' & _ & Hi). simplify_eq. rewrite Hget.
      rewrite decide_True by exact Hi. apply Hg.
    + intros i Hi. rewrite Hget, decide_False; [done|].
      intros Hin. apply Hi. by exists (core a).
  - exists ti. split; [done|]. split; [done|]. specialize (Hnone eq_refl).
    refine (fixed_update _ _ L (TypeIndex.idx ti) (TypeIndex.idx ti) h add Hex eq_refl _ _ _).
    + intros i Hi. by destruct (Hnone i).
    + done.
Qed.

Lemma TargetTypeIndex_insert_ok n L ti h c :
  target_exact n C L ti -> C h = Some c ->
  Forall (fun x => exists b, C x = Some b /\ (a_type b < n)%N) (targets c) ->
  exists ti', TargetTypeIndex.insertHandle t h ti = Ok ti' /\
              target_exact n C ({[h]} ∪ L) ti'.
Proof.
  apply (for_targets_ok _ (fun s => {[h]} ∪ s) n L ti h c true); [|done].
  intros i v Hl Hi. apply FII_insert_ok. lia.
Qed.

Lemma TargetTypeIndex_remove_ok n L ti h c :
  target_exact n C L ti -> C h = Some c ->
  Forall (fun x => exists b, C x = Some b /\ (a_type b < n)%N) (targets c) ->
  exists ti', TargetTypeIndex.removeHandle t h ti = Ok ti' /\
              target_exact n C (L ∖ {[h]}) ti'.
Proof.
  apply (for_targets_ok _ (fun s => s ∖ {[h]}) n L ti h c false); [|done].
  intros i v Hl Hi. apply FII_remove_ok. lia.
Qed.
End fixed_ops.

(** ** The predicate index holds live handles only *)
Record predicate_exact (L : gset Handle) (pi : PredicateIndex.t) : Prop := {
  pe_len : sv_len (PredicateIndex.idx pi) = PredicateIndex.MAX_PREDICATE_INDICES;
  pe_num : (PredicateIndex.numberOfPredicateIndices pi <= PredicateIndex.MAX_PREDICATE_INDICES)%N;
  pe_eval : forall i, (i < N.to_nat (PredicateIndex.numberOfPredicateIndices pi))%nat ->
    exists e, PredicateIndex.predicateEvaluators pi !! i = Some (Some e);
  pe_live : forall i h, h ∈ sv_get (PredicateIndex.idx pi) i -> h ∈ L
}.

Lemma PredicateIndex_insert_ok t L pi h :
  predicate_exact L pi ->
  exists pi', PredicateIndex.insertHandle t h pi = Ok pi' /\
              predicate_exact ({[h]} ∪ L) pi'.
Proof.
  intros [Hlen Hnum Hev Hlive]. unfold PredicateIndex.insertHandle.
  assert (Hloop : forall is_ v, sv_len v = PredicateIndex.MAX_PREDICATE_INDICES ->
    (forall i, i ∈ is_ -> (i < N.to_nat (PredicateIndex.numberOfPredicateIndices pi))%nat) ->
    (forall i h', h' ∈ sv_get v i -> h' ∈ {[h]} ∪ L) ->
    exists v', rfold (fun v i =>
          o ← of_opt (PredicateIndex.predicateEvaluators pi !! i);
          evaluate ← of_opt o;
          if (evaluate : PredicateIndex.Evaluator) t h
          then FixedIntegerIndex.insert (Z.of_nat i) h v else Ok v) v is_ = Ok v' /\
      sv_len v' = PredicateIndex.MAX_PREDICATE_INDICES /\
      (forall i h', h' ∈ sv_get v' i -> h' ∈ {[h]} ∪ L)).
  { induction is_ as [|i is_ IH]; intros v Hl Hi Hin; simpl; [eauto|].
    destruct (Hev i) as [e He]; [apply Hi; left|]. rewrite He. simpl.
    assert (Hi' : forall j, j ∈ is_ ->
      (j < N.to_nat (PredicateIndex.numberOfPredicateIndices pi))%nat).
    { intros j Hj. apply Hi. by right. }
    destruct (e t h); simpl; [|by apply IH].
    specialize (Hi i ltac:(left)). rewrite <- nat_N_Z, FII_insert_ok by lia. simpl.
    apply IH; [done|done|]. intros j h'. rewrite sv_get_set. case_decide.
    - rewrite elem_of_union, elem_of_singleton. intros [->|Hh]; [set_solver|]. by apply (Hin _ _ Hh).
    - apply Hin. }
  destruct (Hloop (seq 0 (N.to_nat (PredicateIndex.numberOfPredicateIndices pi)))
              (PredicateIndex.idx pi)) as (v' & -> & Hl' & Hin'); [done| | |].
  { intros i Hi%elem_of_seq. lia. }
  { intros i h' Hh. apply elem_of_union_r. by apply (Hlive i). }
  simpl. eexists. split; [done|]. by split.
Qed.

Lemma PredicateIndex_remove_ok L pi h :
  predicate_exact L pi -> predicate_exact (L ∖ {[h]}) (PredicateIndex.removeHandle h pi).
Proof.
  intros [Hlen Hnum Hev Hlive]. split; try done. intros i h'.
  unfold PredicateIndex.removeHandle, sv_get. simpl. rewrite lookup_fmap.
  destruct (sv_cells (PredicateIndex.idx pi) !! i) as [s|] eqn:E; simpl; [|set_solver].
  rewrite !elem_of_difference. intros [Hs Hn]. split; [|done].
  apply (Hlive i). unfold sv_get. by rewrite E.
Qed.

(** ** Queries *)
Section type_query.
Context `{SetOrder} (cs : ClassServer) (ti : TypeIndex.t) (type : N) (sub : bool).
Abbreviation len := (sv_len (TypeIndex.idx ti)).
Context (Hlen : (len < 2 ^ 16)%N).
Context (Hsel : TypeIndex.selects cs type sub len = false).

(** The handles of the selected sets among the given ones, in order. *)
Definition selected (is_ : list N) : list Handle :=
  is_ ≫= fun i => if TypeIndex.selects cs type sub i
                  then set_order (sv_get (TypeIndex.idx ti) i) else [].

(** The positions from [s] to the end. *)
Definition from (s : N) : list N := N.of_nat <$> seq (N.to_nat s) (N.to_nat (len - s)).

Lemma from_end : from len = [].
Proof. unfold from. by rewrite N.sub_diag. Qed.

Lemma from_step s : (s < len)%N -> from s = s :: from (s + 1).
Proof.
  intros Hs. unfold from.
  replace (N.to_nat (len - s)) with (S (N.to_nat (len - (s + 1)))) by lia.
  simpl. rewrite N2Nat.id. repeat f_equal. lia.
Qed.

(** The handles an iterator will still visit. *)
Definition ahead (it : TypeIndex.iterator) (l : list Handle) : Prop :=
  TypeIndex.it_type it = type /\ TypeIndex.it_sub it = sub /\
  ((TypeIndex.it_s it = len /\ l = []) \/
   ((TypeIndex.it_s it < len)%N /\ TypeIndex.it_currtype it = TypeIndex.it_s it /\
    TypeIndex.it_se it <> [] /\
    l = TypeIndex.it_se it ++ selected (from (TypeIndex.it_s it + 1)))).

Lemma wrap_pos s : (s < len)%N -> wrap16 (s + 1) = (s + 1)%N.
Proof. intros Hs. unfold wrap16. apply N.mod_small. lia. Qed.

Lemma begin_loop_ok fuel s se :
  (s <= len)%N -> (N.to_nat (len - s) < fuel)%nat ->
  exists it, TypeIndex.begin_loop cs fuel ti (TypeIndex.mkIt type sub s s se) = Ok it /\
             ahead it (selected (from s)).
Proof.
  revert s. induction fuel as [|fuel IH]; intros s Hs Hf; [lia|]. simpl.
  destruct (N.eqb_spec s len) as [->|Hne].
  { eexists. split; [done|]. rewrite from_end. unfold ahead. simpl. auto. }
  rewrite wrap_pos by lia.
  destruct (IH (s + 1)%N) as (it & Hit & Ha); [lia|lia|].
  rewrite (from_step s) by lia. simpl.
  destruct (TypeIndex.selects cs type sub s).
  - destruct (set_order _) as [|h l] eqn:E; [by exists it|].
    eexists. split; [done|]. unfold ahead. simpl. split; [done|]. split; [done|].
    right. split; [lia|]. split; [done|]. done.
  - by exists it.
Qed.

Lemma advance_loop_ok fuel s se :
  (s < len)%N -> (N.to_nat (len - s) < fuel)%nat ->
  exists it, TypeIndex.advance_loop cs fuel ti (TypeIndex.mkIt type sub s s se) = Ok it /\
             ahead it (selected (from (s + 1))).
Proof.
  revert s se. induction fuel as [|fuel IH]; intros s se Hs Hf; [lia|]. simpl.
  rewrite wrap_pos by lia.
  destruct (N.eqb_spec (s + 1) len) as [He|Hne].
  - rewrite He, Hsel. eexists. split; [done|]. rewrite from_end.
    unfold ahead. simpl. auto.
  - rewrite (from_step (s + 1)) by lia. simpl.
    destruct (TypeIndex.selects cs type sub (s + 1)) eqn:Es.
    + destruct (set_order _) as [|h l] eqn:E.
      * apply IH; lia.
      * eexists. split; [done|]. unfold ahead. simpl. split; [done|]. split; [done|].
        right. split; [lia|]. done.
    + apply IH; lia.
Qed.

Lemma getHandleSet_loop_ok fuel it l he :
  ahead it l -> (length l < fuel)%nat ->
  TypeIndex.getHandleSet_loop cs fuel ti it he = Ok (reverse l ++ he).
Proof.
  revert it l he. induction fuel as [|fuel IH]; intros it l he Ha Hf; [lia|]. simpl.
  destruct Ha as (Ht & Hs & [[He ->]|(Hlt & Hc & Hse & ->)]).
  { unfold TypeIndex.not_end. rewrite He, N.eqb_refl. done. }
  unfold TypeIndex.not_end, TypeIndex.it_deref, TypeIndex.it_next.
  rewrite (proj2 (N.eqb_neq _ _)) by lia. simpl.
  destruct it as [ty' sub' s c se]. simpl in *. subst ty' sub' c.
  destruct se as [|h [|h2 l]]; [done| |]; simpl.
  - destruct (advance_loop_ok (S (N.to_nat (len - s))) s []) as (it' & Hit & Ha);
      [done|lia|].
    simpl in Hit. rewrite Hit. simpl.
    rewrite (IH it' (selected (from (s + 1))) (h :: he) Ha) by (simpl in Hf; lia).
    by rewrite reverse_cons, <- (assoc_L (++)).
  - rewrite (IH (TypeIndex.mkIt type sub s s (h2 :: l))
               ((h2 :: l) ++ selected (from (s + 1))) (h :: he)).
    + f_equal. cbn [app]. rewrite (reverse_cons (h2 :: l ++ _) h). by rewrite <- (assoc_L (++)).
    + split; [done|]. split; [done|]. right. done.
    + simpl in *. lia.
Qed.

Lemma selected_length is_ : (length (selected is_) <= TypeIndex.handles_in ti is_)%nat.
Proof.
  induction is_ as [|i is_ IH]; simpl; [lia|]. rewrite length_app.
  destruct (TypeIndex.selects cs type sub i); simpl; [|lia].
  rewrite (Permutation_length (set_order_perm _)).
  change (length (elements (sv_get (TypeIndex.idx ti) i)))
    with (size (sv_get (TypeIndex.idx ti) i)). lia.
Qed.

Lemma from_codes : from 0 = codes len.
Proof. unfold from, codes. by rewrite N.sub_0_r. Qed.

Lemma TypeIndex_getHandleSet_ok :
  TypeIndex.getHandleSet cs type sub ti = Ok (reverse (selected (codes len))).
Proof.
  unfold TypeIndex.getHandleSet, TypeIndex.begin.
  destruct (begin_loop_ok (S (N.to_nat len)) 0 []) as (it & -> & Ha); [lia|lia|].
  change (Ok it ≫= ?f) with (f it). cbv beta.
  rewrite (getHandleSet_loop_ok _ it (selected (from 0)) []).
  - by rewrite app_nil_r, from_codes.
  - done.
  - rewrite from_codes. pose proof (selected_length (codes len)). lia.
Qed.

Lemma elem_of_selected is_ h :
  h ∈ selected is_ <->
  exists i, i ∈ is_ /\ TypeIndex.selects cs type sub i = true /\
            h ∈ sv_get (TypeIndex.idx ti) i.
Proof.
  unfold selected. rewrite list_elem_of_bind. split.
  - intros (i & Hh & Hi). exists i. destruct (TypeIndex.selects cs type sub i) eqn:E.
    + by rewrite elem_of_set_order in Hh.
    + by apply not_elem_of_nil in Hh.
  - intros (i & Hi & Hs & Hh). exists i. rewrite Hs. by rewrite elem_of_set_order.
Qed.

Lemma NoDup_selected is_ :
  NoDup is_ ->
  (forall i j h, h ∈ sv_get (TypeIndex.idx ti) i -> h ∈ sv_get (TypeIndex.idx ti) j -> i = j) ->
  NoDup (selected is_).
Proof.
  intros Hd Hdis. induction Hd as [|i is_ Hi _ IH]; [constructor|].
  unfold selected. simpl. apply NoDup_app. split_and!.
  - destruct (TypeIndex.selects cs type sub i); [apply NoDup_set_order|constructor].
  - intros h Hh1 Hh2. destruct (TypeIndex.selects cs type sub i); [|by apply not_elem_of_nil in Hh1].
    rewrite elem_of_set_order in Hh1.
    apply elem_of_selected in Hh2 as (j & Hj & _ & Hh2). apply Hi.
    by rewrite (Hdis i j h Hh1 Hh2).
  - apply IH.
Qed.
End type_query.

Lemma selects_spec cs type sub i :
  TypeIndex.selects cs type sub i = true <-> type = i \/ (sub = true /\ isAb cs i type = true).
Proof. unfold TypeIndex.selects. by rewrite orb_true_iff, andb_true_iff, N.eqb_eq. Qed.

(** The traversal of an exact index yields the handles under selected types. *)
Lemma getHandleSet_fixed `{SetOrder} cs P L ti type sub :
  fixed_exact (nTypes cs + 1) P L (TypeIndex.idx ti) -> (nTypes cs + 1 < 2 ^ 16)%N ->
  type <> (nTypes cs + 1)%N -> (forall h i, h ∈ L -> P i h -> (i < nTypes cs + 1)%N) ->
  exists r, TypeIndex.getHandleSet cs type sub ti = Ok r /\
    (forall h, h ∈ r <-> h ∈ L /\ exists i, TypeIndex.selects cs type sub i = true /\ P i h) /\
    ((forall h i j, P i h -> P j h -> i = j) -> NoDup r).
Proof.
  intros [Hlen Hex] Hn Hty Hlive.
  assert (Hsel : TypeIndex.selects cs type sub (sv_len (TypeIndex.idx ti)) = false).
  { rewrite Hlen. unfold TypeIndex.selects. rewrite (proj2 (N.eqb_neq _ _)) by done.
    unfold isAb, isA. rewrite (proj2 (N.leb_le (nTypes cs) (nTypes cs + 1))) by lia. simpl.
    by destruct sub. }
  eexists. split; [apply TypeIndex_getHandleSet_ok; [lia|done]|]. split.
  - intros h. rewrite elem_of_reverse, elem_of_selected. split.
    + intros (i & _ & Hs & [HL HP]%Hex). eauto.
    + intros (HL & i & Hs & HP). exists i. rewrite elem_of_codes, Hlen.
      split; [by apply (Hlive h)|]. split; [done|]. by apply Hex.
  - intros Hinj. rewrite reverse_Permutation. apply NoDup_selected; [apply NoDup_codes|].
    intros i j h [_ Hi]%Hex [_ Hj]%Hex. by apply (Hinj h).
Qed.

Lemma rfold_Ok {A B} (f : B -> A -> B) (g : B -> A -> res B) l b :
  (forall b x, x ∈ l -> g b x = Ok (f b x)) -> rfold g b l = Ok (foldl f b l).
Proof.
  revert b. induction l as [|x l IH]; intros b Hg; simpl; [done|].
  rewrite Hg by left. simpl. apply IH. intros b' y Hy. apply Hg. by right.
Qed.

(** The loop over all subtypes collects the valid handles that the maps of the
    subtypes give. *)
Lemma subtype_handles_ok {A} cs t (get : A -> Handle) type (idx : list A) :
  length idx = N.to_nat (nTypes cs) ->
  exists r, subtype_handles cs t get type idx = Ok r /\
    forall h, h ∈ r <-> isValidHandle t h = true /\
      exists s x, (s < nTypes cs)%N /\ isAb cs s type = true /\
                  idx !! N.to_nat s = Some x /\ get x = h.
Proof.
  intros Hlen. unfold subtype_handles, getNumberOfClasses.
  set (step := fun he (s : N) =>
    if isAb cs s type
    then match idx !! N.to_nat s with
         | Some x => if isValidHandle t (get x) then get x :: he else he
         | None => he
         end
    else he).
  assert (Hidx : forall s, s ∈ codes (nTypes cs) -> is_Some (idx !! N.to_nat s)).
  { intros s Hs%elem_of_codes. apply lookup_lt_is_Some_2. lia. }
  rewrite (rfold_Ok step).
  2: { intros he s Hs. unfold step. destruct (isAb cs s type); [|done].
       destruct (Hidx s Hs) as [x ->]. done. }
  eexists. split; [done|]. intros h.
  assert (Hgen : forall l he, h ∈ foldl step he l <-> h ∈ he \/
    (isValidHandle t h = true /\ exists s x, s ∈ l /\ isAb cs s type = true /\
       idx !! N.to_nat s = Some x /\ get x = h)).
  { induction l as [|s l IH]; intros he; simpl.
    - split; [by left|]. intros [?|(_ & s & x & Hs & _)]; [done|].
      by apply not_elem_of_nil in Hs.
    - rewrite IH. unfold step at 1.
      destruct (isAb cs s type) eqn:Ea; [destruct (idx !! N.to_nat s) as [x|] eqn:Ex|].
      + destruct (isValidHandle t (get x)) eqn:Ev.
        * rewrite elem_of_cons. split.
          -- intros [[->|?]|(? & s' & x' & ? & ?)]; [|by left|].
             ++ right. split; [done|]. exists s, x. by repeat (split; [left || done|]).
             ++ right. split; [done|]. exists s', x'. by split; [right|].
          -- intros [?|(Hv & s' & x' & Hin & Ha & Hx & Hg)]; [auto|].
             apply elem_of_cons in Hin as [->|Hin]; [|right; eauto 8].
             left. left. congruence.
        * split.
          -- intros [?|(? & s' & x' & ? & ?)]; [by left|]. right. split; [done|].
             exists s', x'. by split; [right|].
          -- intros [?|(Hv & s' & x' & Hin & Ha & Hx & Hg)]; [auto|].
             apply elem_of_cons in Hin as [->|Hin]; [|right; eauto 8]. congruence.
      + split.
        -- intros [?|(? & s' & x' & ? & ?)]; [by left|]. right. split; [done|].
           exists s', x'. by split; [right|].
        -- intros [?|(Hv & s' & x' & Hin & Ha & Hx & Hg)]; [auto|].
           apply elem_of_cons in Hin as [->|Hin]; [|right; eauto 8]. congruence.
      + split.
        -- intros [?|(? & s' & x' & ? & ?)]; [by left|]. right. split; [done|].
           exists s', x'. by split; [right|].
        -- intros [?|(Hv & s' & x' & Hin & Ha & Hx & Hg)]; [auto|].
           apply elem_of_cons in Hin as [->|Hin]; [|right; eauto 8]. congruence. }
  rewrite Hgen. split.
  - intros [Hn|(Hv & s & x & Hs & Ha & Hx & Hg)]; [by apply not_elem_of_nil in Hn|].
    split; [done|]. exists s, x. apply elem_of_codes in Hs. auto.
  - intros (Hv & s & x & Hs & Ha & Hx & Hg). right. split; [done|].
    exists s, x. rewrite elem_of_codes. auto.
Qed.

Section importance_query.
Context `{SetOrder}.

Lemma push_all_eq s set : ImportanceIndex.push_all s set = reverse (set_order s) ++ set.
Proof.
  unfold ImportanceIndex.push_all. revert set.
  induction (set_order s) as [|h l IH]; intros set; simpl; [done|].
  rewrite IH, reverse_cons, <- (assoc_L (++)). done.
Qed.

Lemma elem_of_push_all s set h : h ∈ ImportanceIndex.push_all s set <-> h ∈ s \/ h ∈ set.
Proof. by rewrite push_all_eq, elem_of_app, elem_of_reverse, elem_of_set_order. Qed.

Lemma elem_of_push_bins v bins set h :
  h ∈ foldl (fun set bin => ImportanceIndex.push_all (sv_get v bin) set) set bins <->
  h ∈ set \/ exists b, b ∈ bins /\ h ∈ sv_get v b.
Proof.
  revert set. induction bins as [|b bins IH]; intros set; simpl.
  - split; [by left|]. intros [?|(b & Hb & _)]; [done|]. by apply not_elem_of_nil in Hb.
  - rewrite IH, elem_of_push_all. split.
    + intros [[?|?]|(b' & ? & ?)]; [|by left|]; right; eexists; (split; [|done]); [left|by right].
    + intros [?|(b' & [->|?]%elem_of_cons & ?)]; eauto.
Qed.

Lemma ImportanceIndex_getHandleSet_ok t C L v lo hi :
  (forall k, coreOf t k = C k) -> importance_exact C L v ->
  (forall h, h ∈ L -> is_Some (C h)) ->
  (forall h c, C h = Some c -> is_short (getSTI (a_attentionValue c))) ->
  is_short lo -> is_short hi ->
  exists r, ImportanceIndex.getHandleSet t lo hi v = Ok r /\
    forall h, h ∈ r <-> h ∈ L /\ exists c, C h = Some c /\
      (lo <= getSTI (a_attentionValue c) <= hi)%Z.
Proof.
  intros HC [_ Hex] Hlive Hshort Hlo Hhi. unfold ImportanceIndex.getHandleSet.
  set (sat := fun h => atom_sat t (fun a => let sti := getSTI (a_attentionValue a) in
                (lo <=? sti)%Z && (sti <=? hi)%Z) h = true).
  assert (Hsat : forall h c, C h = Some c ->
            sat h <-> (lo <= getSTI (a_attentionValue c) <= hi)%Z).
  { intros h c Hc. destruct (view_atom t C HC h c Hc) as (a & Ha & <-).
    unfold sat, atom_sat. rewrite Ha. simpl. rewrite andb_true_iff, !Z.leb_le. done. }
  assert (Hbin : forall b h, h ∈ sv_get v b <-> h ∈ L /\ exists c, C h = Some c /\ binN c = b).
  { intros b h. rewrite Hex. unfold under. rewrite fmap_Some. naive_solver. }
  assert (Hall : forall b, Forall (fun h => is_Some (atomOf t h))
                    (ImportanceIndex.push_all (sv_get v b) [])).
  { intros b. apply Forall_forall. intros h Hh.
    apply elem_of_push_all in Hh as [Hh|Hh]; [|by apply not_elem_of_nil in Hh].
    apply Hbin in Hh as (_ & c & Hc & _). destruct (view_atom t C HC h c Hc) as (a & Ha & _).
    eauto. }
  rewrite !filterSet_sti_ok by apply Hall. simpl. fold sat.
  assert (Hlb : forall c, is_short (getSTI (a_attentionValue c)) ->
    ((binN c < importanceBin lo)%N -> (getSTI (a_attentionValue c) < lo)%Z) /\
    ((importanceBin hi < binN c)%N -> (hi < getSTI (a_attentionValue c))%Z) /\
    ((importanceBin lo < binN c)%N -> (lo < getSTI (a_attentionValue c))%Z) /\
    ((binN c < importanceBin hi)%N -> (getSTI (a_attentionValue c) < hi)%Z)).
  { intros c Hc. unfold binN. rewrite !importanceBin_short by done.
    unfold is_short, SHRT_MIN, SHRT_MAX in *. lia. }
  assert (Hend : forall b h, h ∈ filter sat (ImportanceIndex.push_all (sv_get v b) []) <->
    h ∈ L /\ exists c, C h = Some c /\ binN c = b /\ (lo <= getSTI (a_attentionValue c) <= hi)%Z).
  { intros b h. rewrite list_elem_of_filter, elem_of_push_all, Hbin. split.
    - intros [Hs [(HL & c & Hc & Hb)|Hn]]; [|by apply not_elem_of_nil in Hn].
      split; [done|]. exists c. rewrite <- (Hsat h c Hc). auto.
    - intros (HL & c & Hc & Hb & Hr). rewrite (Hsat h c Hc). split; [done|]. left. eauto. }
  destruct (N.eqb_spec (importanceBin lo) (importanceBin hi)) as [Heq|Hne].
  - eexists. split; [done|]. intros h. rewrite Hend. split; [naive_solver|].
    intros (HL & c & Hc & Hr). split; [done|]. exists c. split; [done|]. split; [|done].
    destruct (Hlb c (Hshort h c Hc)) as (H1 & H2 & _). lia.
  - eexists. split; [done|]. intros h. rewrite HE_concatenation_app, elem_of_app.
    rewrite elem_of_push_bins, !Hend. split.
    + intros [(HL & c & Hc & _ & Hr)|[(HL & c & Hc & _ & Hr)|(b & Hb & Hh)]]; [eauto..|].
      apply list_elem_of_fmap in Hb as (i & -> & [_ Hi]%elem_of_seq).
      apply Hbin in Hh as (HL & c & Hc & Hbc). split; [done|]. exists c. split; [done|].
      destruct (Hlb c (Hshort h c Hc)) as (_ & _ & H3 & H4). lia.
    + intros (HL & c & Hc & Hr). destruct (Hlb c (Hshort h c Hc)) as (H1 & H2 & _).
      destruct (decide (binN c = importanceBin hi)) as [Hh|Hh]; [left; eauto 6|]. right.
      destruct (decide (binN c = importanceBin lo)) as [Hl|Hl]; [left; eauto 6|]. right.
      exists (binN c). split; [|rewrite Hbin; eauto].
      apply list_elem_of_fmap. exists (N.to_nat (binN c - importanceBin lo - 1)).
      split; [lia|]. apply elem_of_seq. lia.
Qed.
End importance_query.

(** ** Decay *)
Definition decayed_atom (a : Atom) : Atom := set_av (decaySTI (a_attentionValue a)) a.

(** From [s] to [s'], the atoms in [D] have been decayed once and nothing else
    has changed. *)
Record decays (D : Handle -> Prop) (s s' : TLB) : Prop := {
  dec_wf : TLB_wf s';
  dec_map : handle_map s' = handle_map s;
  dec_brk : brk_uuid s' = brk_uuid s;
  dec_in : forall h, D h -> atomOf s' h = decayed_atom <$> atomOf s h;
  dec_out : forall h, ~ D h -> atomOf s' h = atomOf s h
}.

Lemma decays_refl s : TLB_wf s -> decays (fun _ => False) s s.
Proof. by split. Qed.

Lemma decays_trans D1 D2 D s s1 s2 :
  decays D1 s s1 -> decays D2 s1 s2 -> (forall h, D1 h -> D2 h -> False) ->
  (forall h, D h <-> D1 h \/ D2 h) -> decays D s s2.
Proof.
  intros [W1 M1 B1 I1 O1] [W2 M2 B2 I2 O2] Hdis HD. split; [done|congruence|congruence| |].
  - intros h [H1|H2]%HD.
    + rewrite O2 by (intros H2; by apply (Hdis h)). by apply I1.
    + rewrite I2 by done. rewrite O1; [done|]. intros H1. by apply (Hdis h).
  - intros h Hn. rewrite O2, O1; [done|..]; intros ?; apply Hn, HD; auto.
Qed.

Lemma decays_ext D D' s s' : (forall h, D h <-> D' h) -> decays D s s' -> decays D' s s'.
Proof.
  intros HD [W M B I O]. split; [done..| |].
  - intros h Hh%HD. by apply I.
  - intros h Hh. apply O. by rewrite HD.
Qed.

Section decay.
Context `{SetOrder}.

Lemma decay_list_ok l s :
  TLB_wf s -> NoDup l -> (forall h, h ∈ l -> is_Some (atomOf s h)) ->
  exists s', foreach (fun h => modify (on_atom h ImportanceIndex.decay_atom)) l s = (Ok tt, s')
             /\ decays (fun h => h ∈ l) s s'.
Proof.
  revert s. induction l as [|h l IH]; intros s Hwf Hd Hl; simpl.
  { exists s. split; [done|]. apply (decays_ext (fun _ => False)); [|by apply decays_refl].
    intros h. by rewrite elem_of_nil. }
  apply NoDup_cons in Hd as [Hh Hd]. destruct (Hl h ltac:(left)) as [a Ha].
  destruct (on_atom_ok s h ImportanceIndex.decay_atom a (decayed_atom a) Hwf Ha)
    as (s1 & Hs1 & Hwf1 & Hm1 & Hb1 & Hat1); [done|done|].
  unfold mbind, st_bind, modify at 1. rewrite Hs1.
  assert (H1 : decays (fun k => k = h) s s1).
  { split; try done.
    - intros k ->. by rewrite Hat1, decide_True, Ha.
    - intros k Hk. by rewrite Hat1, decide_False. }
  destruct (IH s1 Hwf1 Hd) as (s2 & Hs2 & H2).
  { intros k Hk. rewrite Hat1. case_decide; [eauto|]. apply Hl. by right. }
  exists s2. split; [done|].
  apply (decays_trans _ _ _ _ _ _ H1 H2).
  - intros k ->. done.
  - intros k. by rewrite elem_of_cons.
Qed.

Lemma decay_band_ok band s :
  TLB_wf s -> (forall h, h ∈ band -> is_Some (atomOf s h)) ->
  exists s', ImportanceIndex.decay_band band s = (Ok tt, s') /\
             decays (fun h => h ∈ band) s s'.
Proof.
  intros Hwf Hl. unfold ImportanceIndex.decay_band.
  destruct (decay_list_ok (set_order band) s Hwf (NoDup_set_order band)) as (s' & Hs & Hd).
  { intros h Hh%elem_of_set_order. by apply Hl. }
  exists s'. split; [done|]. apply (decays_ext _ _ _ _ (fun h => elem_of_set_order band h) Hd).
Qed.

(** The handles of the bins above [lo] up to [hi]. *)
Definition in_bins (v : svec) (lo hi : N) (h : Handle) : Prop :=
  exists j, (lo < j <= hi)%N /\ h ∈ sv_get v j.

Lemma shift_bins_ok n bin v s :
  TLB_wf s -> (forall j h, h ∈ sv_get v j -> is_Some (atomOf s h)) ->
  (forall i j h, h ∈ sv_get v i -> h ∈ sv_get v j -> (bin < i)%N -> (bin < j)%N -> i = j) ->
  exists v' s', ImportanceIndex.shift_bins n bin v s = (Ok v', s') /\
    sv_len v' = sv_len v /\
    (forall j, sv_get v' j = if decide (bin <= j < bin + N.of_nat n)%N
                             then sv_get v (j + 1) else sv_get v j) /\
    decays (in_bins v bin (bin + N.of_nat n)) s s'.
Proof.
  revert bin v s. induction n as [|n IH]; intros bin v s Hwf Hl Hdis.
  { exists v, s. split; [done|]. split; [done|]. split.
    - intros j. rewrite decide_False by lia. done.
    - apply (decays_ext (fun _ => False)); [|by apply decays_refl].
      intros h. split; [done|]. intros (j & Hj & _). lia. }
  cbn [ImportanceIndex.shift_bins]. rewrite sv_get_set, decide_True by done.
  destruct (decay_band_ok (sv_get v (bin + 1)) s Hwf) as (s1 & Hs1 & H1).
  { intros h Hh. by apply (Hl _ _ Hh). }
  unfold mbind, st_bind. rewrite Hs1.
  set (v1 := sv_set bin (sv_get v (bin + 1)) v).
  assert (Hv1 : forall j, sv_get v1 j = if decide (bin = j) then sv_get v (bin + 1) else sv_get v j)
    by (intros j; apply sv_get_set).
  destruct (IH (bin + 1)%N v1 s1) as (v' & s' & Hs' & Hlen & Hget & H2).
  - apply H1.
  - intros j h Hh. apply (atomOf_getAtom _ _ (dec_wf _ _ _ H1)). rewrite (dec_map _ _ _ H1).
    apply (atomOf_getAtom _ _ Hwf). rewrite Hv1 in Hh. case_decide; by apply (Hl _ _ Hh).
  - intros i j h Hi Hj Hbi Hbj. rewrite Hv1, decide_False in Hi by lia. rewrite Hv1, decide_False in Hj by lia.
    apply (Hdis i j h Hi Hj); lia.
  - exists v', s'. split; [done|]. split; [done|]. split.
    + intros j. rewrite Hget, !Hv1. repeat case_decide; subst; try done; lia.
    + apply (decays_trans _ _ _ _ _ _ H1 H2).
      * intros h Hh (j & Hj & Hhj). rewrite Hv1, decide_False in Hhj by lia.
        assert (j = bin + 1)%N by (apply (Hdis j (bin + 1)%N h Hhj Hh); lia). lia.
      * intros h. split.
        -- intros (j & Hj & Hhj). destruct (decide (j = bin + 1)%N) as [->|Hne]; [by left|].
           right. exists j. split; [lia|]. rewrite Hv1, decide_False by lia. done.
        -- intros [Hh|(j & Hj & Hhj)]; [exists (bin + 1)%N; split; [lia|done]|].
           rewrite Hv1, decide_False in Hhj by lia. exists j. split; [lia|done].
Qed.

Lemma decay_bin a : AV_wf (a_attentionValue a) ->
  binN (decayed_atom a) = (binN a - 1)%N.
Proof.
  intros (Hs & _). unfold binN, decayed_atom. cbn [a_attentionValue set_av].
  rewrite decaySTI_sti by done. rewrite !importanceBin_short; [|done|].
  - unfold getSTI, is_short, SHRT_MIN, SHRT_MAX in *. lia.
  - unfold getSTI, is_short, SHRT_MIN, SHRT_MAX in *. lia.
Qed.

(** The bins of an exact importance index, in terms of the store. *)
Lemma importance_bins (L : gset Handle) v s b h :
  importance_exact (coreOf s) L v ->
  h ∈ sv_get v b <-> h ∈ L /\ exists a, atomOf s h = Some a /\ binN a = b.
Proof.
  intros [_ Hex]. rewrite Hex. unfold under, coreOf. rewrite !fmap_Some.
  split; [intros (? & c & (a & Ha & ->)%fmap_Some & ->); eauto|].
  intros (? & a & Ha & <-). split; [done|]. exists (core a). by rewrite Ha.
Qed.

(** The bins after the decay, and which atoms were touched. *)
Lemma decay_all_bins v s :
  TLB_wf s -> (forall j h, h ∈ sv_get v j -> is_Some (atomOf s h)) ->
  (forall i j h, h ∈ sv_get v i -> h ∈ sv_get v j -> i = j) ->
  exists v' s', ImportanceIndex.decay_all v s = (Ok v', s') /\ sv_len v' = sv_len v /\
    (forall i, sv_get v' i =
       if decide (i = IMPORTANCE_INDEX_SIZE - 1)%N then ∅
       else if decide (i = 0)%N then sv_get v 0 ∪ sv_get v 1
       else if decide (i < IMPORTANCE_INDEX_SIZE)%N then sv_get v (i + 1) else sv_get v i) /\
    decays (in_bins v 0 (IMPORTANCE_INDEX_SIZE - 1)) s s'.
Proof.
  intros Hwf Hlive Hdis. unfold ImportanceIndex.decay_all.
  destruct (decay_band_ok (sv_get v 1) s Hwf) as (s1 & Hs1 & H1); [by intros h; apply Hlive|].
  unfold mbind, st_bind. rewrite Hs1.
  set (v1 := sv_set 0 (sv_get v 0 ∪ sv_get v 1) v).
  assert (Hv1 : forall j, sv_get v1 j = if decide (0%N = j) then sv_get v 0 ∪ sv_get v 1 else sv_get v j)
    by (intros j; apply sv_get_set).
  set (n := N.to_nat (IMPORTANCE_INDEX_SIZE - 2)).
  assert (Hn : (1 + N.of_nat n = IMPORTANCE_INDEX_SIZE - 1)%N) by (unfold n; by rewrite N2Nat.id).
  destruct (shift_bins_ok n 1 v1 s1) as (v2 & s2 & Hs2 & Hl2 & Hg2 & H2); [apply H1| | |].
  { intros j h Hh. apply (atomOf_getAtom _ _ (dec_wf _ _ _ H1)). rewrite (dec_map _ _ _ H1).
    apply (atomOf_getAtom _ _ Hwf). rewrite Hv1 in Hh.
    case_decide; [apply elem_of_union in Hh as [Hh|Hh]|]; by apply (Hlive _ _ Hh). }
  { intros i j h Hi Hj Hi1 Hj1. rewrite Hv1, decide_False in Hi by lia.
    rewrite Hv1, decide_False in Hj by lia. by apply (Hdis i j h). }
  rewrite Hs2. rewrite Hn in Hg2, H2. clearbody n.
  eexists _, s2. split; [done|]. split; [simpl; by rewrite Hl2|]. split.
  - intros i. rewrite sv_get_set, Hg2, !Hv1. unfold IMPORTANCE_INDEX_SIZE.
    repeat case_decide; subst; done || lia.
  - apply (decays_trans _ _ _ _ _ _ H1 H2).
    + intros h Hh (j & Hj & Hhj). rewrite Hv1, decide_False in Hhj by lia.
      assert (j = 1%N) by (by apply (Hdis j 1%N h)). lia.
    + intros h. split.
      * intros (j & Hj & Hhj). destruct (decide (j = 1%N)) as [->|Hne]; [by left|].
        right. exists j. split; [lia|]. rewrite Hv1, decide_False by lia. done.
      * intros [Hh|(j & Hj & Hhj)]; [exists 1%N; split; [|done]; unfold IMPORTANCE_INDEX_SIZE; lia|].
        rewrite Hv1, decide_False in Hhj by lia. exists j. split; [lia|done].
Qed.

(** An atom at the minimum is not touched, and need not be. *)
Lemma decayed_lowest a :
  AV_wf (a_attentionValue a) -> binN a = 0%N -> decayed_atom a = a.
Proof.
  intros (Hs & _) H0. unfold decayed_atom, decaySTI.
  replace (m_STI (a_attentionValue a)) with (-32768)%Z; [by destruct a as [? ? ? ? ? ? []]|].
  unfold binN in H0. rewrite importanceBin_short in H0 by done.
  unfold getSTI, is_short, SHRT_MIN, SHRT_MAX in *. lia.
Qed.

Lemma decay_all_ok (L : gset Handle) v s :
  TLB_wf s -> importance_exact (coreOf s) L v ->
  (forall h, h ∈ L -> exists a, atomOf s h = Some a /\ AV_wf (a_attentionValue a)) ->
  exists v' s', ImportanceIndex.decay_all v s = (Ok v', s') /\
    TLB_wf s' /\ handle_map s' = handle_map s /\ brk_uuid s' = brk_uuid s /\
    (forall h, atomOf s' h = if decide (h ∈ L) then decayed_atom <$> atomOf s h
                             else atomOf s h) /\
    importance_exact (coreOf s') L v'.
Proof.
  intros Hwf Hv HL.
  assert (Hbin : forall b h, h ∈ sv_get v b <-> _) by (intros b h; apply (importance_bins L v s b h Hv)).
  destruct (decay_all_bins v s Hwf) as (v' & s' & E & Hlen & Hget & HD).
  { intros b h (_ & a & Ha & _)%Hbin. eauto. }
  { intros i j h (_ & a & Ha & Hi)%Hbin (_ & a' & Ha' & Hj)%Hbin. by simplify_eq. }
  assert (Hrange : forall h a, h ∈ L -> atomOf s h = Some a ->
            (binN a < IMPORTANCE_INDEX_SIZE)%N /\ AV_wf (a_attentionValue a)).
  { intros h a HhL Ha. destruct (HL h HhL) as (a' & Ha' & Hav). simplify_eq.
    split; [apply importanceBin_range, Hav|done]. }
  assert (Hat : forall h, atomOf s' h = if decide (h ∈ L) then decayed_atom <$> atomOf s h
                                       else atomOf s h).
  { intros h. case_decide as HhL.
    2: { apply (dec_out _ _ _ HD). by intros (j & _ & (Hh & _)%Hbin). }
    destruct (HL h HhL) as (a & Ha & Hav). destruct (Hrange h a HhL Ha) as [Hr _].
    destruct (decide (binN a = 0%N)) as [H0|H0].
    - rewrite (dec_out _ _ _ HD); [rewrite Ha; simpl; by rewrite decayed_lowest|].
      intros (j & Hj & (_ & a' & Ha' & Hb)%Hbin). simplify_eq. lia.
    - apply (dec_in _ _ _ HD). exists (binN a). split; [lia|]. apply Hbin. eauto. }
  exists v', s'. do 4 (split; [done || apply HD|]). split; [done|].
  split; [rewrite Hlen; apply Hv|]. intros i h. unfold under, coreOf. rewrite Hat.
  trans (h ∈ L /\ exists a, atomOf s h = Some a /\ (binN a - 1 = i)%N).
  2: { split.
    - intros (HhL & a & Ha & <-). split; [done|]. rewrite decide_True, Ha by done. simpl.
      f_equal. apply decay_bin. by apply (Hrange h).
    - intros (HhL & Hb). split; [done|]. destruct (HL h HhL) as (a & Ha & Hav). exists a.
      split; [done|]. rewrite decide_True, Ha in Hb by done. simpl in Hb.
      rewrite <- decay_bin by done. by injection Hb. }
  rewrite Hget. repeat case_decide; rewrite ?elem_of_union, ?Hbin; subst.
  - split; [by intros ?%elem_of_empty|]. intros (HhL & a & Ha & Hb). pose proof (Hrange h a HhL Ha). unfold IMPORTANCE_INDEX_SIZE in *. lia.
  - split.
    + intros [(HhL & a & Ha & Hb)|(HhL & a & Ha & Hb)]; (split; [done|]); exists a; (split; [done|]); lia.
    + intros (HhL & a & Ha & Hb).
      destruct (decide (binN a = 0%N)); [left|right]; (split; [done|]); exists a; (split; [done|]); lia.
  - split; intros (HhL & a & Ha & Hb); (split; [done|]); exists a; (split; [done|]); lia.
  - split; intros (HhL & a & Ha & Hb); pose proof (Hrange h a HhL Ha); lia.
Qed.
End decay.

(** ** Properties *)

(** Lookup by type: over an exact type index the iteration from [begin] to
    [end] terminates, never leaves the vector, and yields every live atom whose
    type is the requested one or, with subtypes, below it: each one once. *)
Theorem TypeIndex_getHandleSet_exact `{SetOrder} cs C L ti type sub :
  type_exact (nTypes cs) C L ti -> (nTypes cs + 1 < 2 ^ 16)%N ->
  type <> (nTypes cs + 1)%N ->
  (forall h c, h ∈ L -> C h = Some c -> (a_type c < nTypes cs)%N) ->
  exists r, TypeIndex.getHandleSet cs type sub ti = Ok r /\ NoDup r /\
    forall h, h ∈ r <->
      h ∈ L /\ exists c, C h = Some c /\
        ((type = a_type c) \/ (sub = true /\ isAb cs (a_type c) type = true)).
Proof.
  intros [_ Hex] Hn Hty Hlive.
  destruct (getHandleSet_fixed cs (under a_type C) L ti type sub Hex Hn Hty) as (r & Hr & Hin & Hnd).
  - intros h i HL (c & Hc & ->)%fmap_Some. pose proof (Hlive h c HL Hc). lia.
  - exists r. split; [done|]. split; [apply Hnd; unfold under; naive_solver|].
    intros h. rewrite Hin. apply and_iff_compat_l. unfold under. split.
    + intros (i & Hs & (c & Hc & ->)%fmap_Some). exists c. split; [done|].
      by apply selects_spec.
    + intros (c & Hc & Hs%selects_spec). exists (a_type c). by rewrite Hc.
Qed.

(** Lookup by importance range: an exact importance index yields exactly
    the live atoms whose short-term importance lies between the two bounds,
    both included (none when the bounds are swapped). *)
Theorem ImportanceIndex_getHandleSet_exact `{SetOrder} t L v lo hi :
  importance_exact (coreOf t) L v -> is_short lo -> is_short hi ->
  (forall h, h ∈ L -> is_Some (atomOf t h)) ->
  (forall h a, atomOf t h = Some a -> is_short (getSTI (a_attentionValue a))) ->
  exists r, ImportanceIndex.getHandleSet t lo hi v = Ok r /\
    forall h, h ∈ r <-> h ∈ L /\ exists a, atomOf t h = Some a /\
      (lo <= getSTI (a_attentionValue a) <= hi)%Z.
Proof.
  intros Hex Hlo Hhi Hlive Hshort.
  destruct (ImportanceIndex_getHandleSet_ok t (coreOf t) L v lo hi) as (r & Hr & Hin); auto.
  - intros h Hh. destruct (Hlive h Hh) as [a Ha]. unfold coreOf. rewrite Ha. by eexists.
  - intros h c (a & Ha & <-)%coreOf_Some. by apply (Hshort h a).
  - exists r. split; [done|]. intros h. rewrite Hin. unfold coreOf. split.
    + intros (HL & c & (a & Ha & ->)%fmap_Some & Hb). eauto.
    + intros (HL & a & Ha & Hb). split; [done|]. exists (core a). by rewrite Ha.
Qed.

(** C35. Decay: moving every bin of the importance index down by one while
    decaying the atoms bin by bin decays every live atom exactly once (an atom
    at the minimum stays there), changes no other atom and leaves the index
    exact for the new importances: the optimisation of the code is right. *)
Theorem decay_keeps_index_exact `{SetOrder} (L : gset Handle) v s :
  TLB_wf s -> importance_exact (coreOf s) L v ->
  (forall h, h ∈ L -> exists a, atomOf s h = Some a /\ AV_wf (a_attentionValue a)) ->
  exists v' s', ImportanceIndex.decay_all v s = (Ok v', s') /\
    TLB_wf s' /\ handle_map s' = handle_map s /\
    importance_exact (coreOf s') L v' /\
    (forall h a, h ∈ L -> atomOf s h = Some a ->
       atomOf s' h = Some (set_av (decaySTI (a_attentionValue a)) a)) /\
    (forall h, h ∉ L -> atomOf s' h = atomOf s h).
Proof.
  intros Hwf Hex HL. destruct (decay_all_ok L v s Hwf Hex HL)
    as (v' & s' & Hr & Hwf' & Hm & _ & Hat & Hex').
  exists v', s'. split; [done|]. split; [done|]. split; [done|]. split; [done|]. split.
  - intros h a Hh Ha. by rewrite Hat, decide_True, Ha.
  - intros h Hh. by rewrite Hat, decide_False.
Qed.

(** Registering predicate indexes: while there is room a new predicate gets
    the next number and its evaluator is found again, a second registration is
    refused; but the guard lets the 33rd predicate through, which then writes
    past the end of the 32-element vectors. *)
Theorem addPredicateIndex_behaviour ph e pi :
  length (PredicateIndex.predicateHandles pi) = 32 ->
  length (PredicateIndex.predicateEvaluators pi) = 32 ->
  PredicateIndex.predicateHandles2Indices pi !! ph = None ->
  ((PredicateIndex.numberOfPredicateIndices pi < 32)%N ->
     exists pi', PredicateIndex.addPredicateIndex ph e pi = Ok pi' /\
       PredicateIndex.getPredicateEvaluator ph pi' = Ok (Some e) /\
       PredicateIndex.numberOfPredicateIndices pi'
         = (PredicateIndex.numberOfPredicateIndices pi + 1)%N /\
       (forall e', PredicateIndex.addPredicateIndex ph e' pi' = Throw InvalidParamException)) /\
  (PredicateIndex.numberOfPredicateIndices pi = 32%N ->
     PredicateIndex.addPredicateIndex ph e pi = Undef).
Proof.
  intros Hl1 Hl2 Hnew. unfold PredicateIndex.addPredicateIndex, PredicateIndex.MAX_PREDICATE_INDICES.
  rewrite Hnew. rewrite Hl1. change (N.of_nat 32) with 32%N. split.
  - intros Hn. rewrite (proj2 (N.ltb_ge _ _)), (proj2 (N.leb_gt _ _)) by lia.
    eexists. split; [done|]. unfold PredicateIndex.getPredicateEvaluator. simpl.
    rewrite !lookup_insert_eq, list_lookup_insert_eq by lia. split; [done|]. split; [done|].
    intros e'. by destruct (32 <? _)%N.
  - by intros ->.
Qed.

(** ** Witnesses *)
Definition one_type_index : TypeIndex.t :=
  TypeIndex.mk 8 (sv_set 3 ({[1%N]} ∪ ∅) (mkSvec 9 ∅)).

Lemma one_type_exact : type_exact 8 (coreOf three_atoms) ({[1%N]} ∪ ∅) one_type_index.
Proof.
  split; [done|].
  assert (H : fixed_exact 9 (under a_type (coreOf three_atoms)) ∅ (mkSvec 9 ∅)).
  { split; [done|]. intros i h. unfold sv_get. simpl. rewrite lookup_empty. set_solver. }
  exact (under_insert a_type _ _ _ _ 1%N (core (plain_node 1 3 "a" DEFAULT_TV)) H eq_refl).
Qed.

Lemma three_atoms_types h c :
  coreOf three_atoms h = Some c -> a_type c = 3%N /\ getSTI (a_attentionValue c) = 0%Z.
Proof.
  intros (a & Ha & <-)%coreOf_Some. apply atomOf_Some in Ha as (p & _ & Ha).
  unfold three_atoms in Ha. simpl in Ha.
  rewrite !lookup_insert_Some, lookup_singleton_Some in Ha.
  by destruct Ha as [[_ <-]|[_ [[_ <-]|[_ [_ <-]]]]].
Qed.

Lemma three_types_small h c :
  coreOf three_atoms h = Some c -> (a_type c < nTypes small_cs)%N.
Proof. intros Hc. rewrite (proj1 (three_atoms_types h c Hc)). reflexivity. Qed.

Lemma three_sti_short h a :
  atomOf three_atoms h = Some a -> is_short (getSTI (a_attentionValue a)).
Proof.
  intros Ha. assert (Hc : coreOf three_atoms h = Some (core a)) by (unfold coreOf; by rewrite Ha).
  apply three_atoms_types in Hc as [_ Hs]. simpl in Hs. rewrite Hs. split; discriminate.
Qed.

Lemma TypeIndex_getHandleSet_exact_witness :
  exists r, TypeIndex.getHandleSet (H := elements_order) small_cs 1 true one_type_index = Ok r /\
            (1%N ∈ r).
Proof.
  destruct (TypeIndex_getHandleSet_exact (H := elements_order) small_cs (coreOf three_atoms)
              ({[1%N]} ∪ ∅) one_type_index 1 true one_type_exact
              ltac:(vm_compute; reflexivity) ltac:(discriminate)
              (fun h c _ Hc => three_types_small h c Hc))
    as (r & Hr & _ & Hin).
  exists r. split; [exact Hr|]. apply (proj2 (Hin 1%N)).
  split; [apply elem_of_union_l, elem_of_singleton; reflexivity|].
  exists (core (plain_node 1 3 "a" DEFAULT_TV)). split; [reflexivity|].
  right. split; [reflexivity|]. vm_compute. reflexivity.
Defined.

Definition one_importance_index : svec :=
  sv_set 32768 ({[1%N]} ∪ ∅) ImportanceIndex.empty.

Lemma one_importance_exact :
  importance_exact (coreOf three_atoms) ({[1%N]} ∪ ∅) one_importance_index.
Proof.
  assert (H : importance_exact (coreOf three_atoms) ∅ ImportanceIndex.empty).
  { split; [done|]. intros i h. unfold sv_get, ImportanceIndex.empty. simpl.
    rewrite map_filter_empty, lookup_empty. set_solver. }
  exact (under_insert binN _ _ _ _ 1%N (core (plain_node 1 3 "a" DEFAULT_TV)) H eq_refl).
Qed.

Lemma three_atoms_wf : TLB_wf three_atoms.
Proof.
  split; [|reflexivity| |done].
  - intros h p. unfold three_atoms. simpl. rewrite !lookup_insert_Some, lookup_singleton_Some.
    intros [[<- <-]|[_ [[<- <-]|[_ [<- <-]]]]]; eexists; split; reflexivity.
  - intros h. unfold three_atoms. simpl. intros [p Hp]. revert Hp.
    rewrite !lookup_insert_Some, lookup_singleton_Some.
    intros [[<- _]|[_ [[<- _]|[_ [<- _]]]]]; lia.
Qed.

Lemma one_live h : h ∈ ({[1%N]} ∪ ∅ : gset Handle) ->
  exists a, atomOf three_atoms h = Some a /\ AV_wf (a_attentionValue a).
Proof.
  intros [->%elem_of_singleton|?%elem_of_empty]%elem_of_union; [|done].
  eexists. split; [reflexivity|]. by split_and!.
Qed.

Lemma ImportanceIndex_getHandleSet_exact_witness :
  exists r, ImportanceIndex.getHandleSet (H := elements_order) three_atoms (-5) 5 one_importance_index
              = Ok r /\ (1%N ∈ r).
Proof.
  destruct (ImportanceIndex_getHandleSet_exact (H := elements_order) three_atoms
              ({[1%N]} ∪ ∅) one_importance_index (-5) 5 one_importance_exact
              ltac:(split; discriminate) ltac:(split; discriminate)
              (fun h Hh => match one_live h Hh with ex_intro _ a (conj Ha _) => mk_is_Some _ a Ha end)
              three_sti_short)
    as (r & Hr & Hin).
  exists r. split; [exact Hr|]. apply (proj2 (Hin 1%N)).
  split; [apply elem_of_union_l, elem_of_singleton; reflexivity|].
  eexists. split; [reflexivity|]. split; discriminate.
Defined.

Lemma decay_keeps_index_exact_witness :
  exists v' s', ImportanceIndex.decay_all (H := elements_order) one_importance_index three_atoms
                  = (Ok v', s') /\
    importance_exact (coreOf s') ({[1%N]} ∪ ∅) v'.
Proof.
  destruct (decay_keeps_index_exact (H := elements_order) ({[1%N]} ∪ ∅) one_importance_index
              three_atoms three_atoms_wf one_importance_exact one_live)
    as (v' & s' & Hr & _ & _ & Hex & _).
  exists v', s'. split; [exact Hr|exact Hex].
Defined.

Lemma addPredicateIndex_behaviour_witness :
  exists pi', PredicateIndex.addPredicateIndex 7%N (fun _ _ => true) PredicateIndex.empty = Ok pi'.
Proof.
  destruct (addPredicateIndex_behaviour 7%N (fun _ _ => true) PredicateIndex.empty
              eq_refl eq_refl eq_refl) as [H _].
  destruct (H eq_refl) as (pi' & Hr & _). exists pi'. exact Hr.
Defined.
