(* ===== verification/AtomTable.v ===== *)
(** The atom table: src/opencog/atomspace/AtomTable.cc and AtomTable.h, with
    Atom::setAttentionValue of Atom.cc, which updates the table of the atom.

    The state of a table is one record together with the (global) TLB; the
    boost signals are kept as the log of the emitted ones. *)
From S2P Require Import Prelude ClassServer TruthValue AttentionValue Atom TLB HandleEntry Index.

Inductive Signal := AddAtomSignal (h : Handle) | RemoveAtomSignal (h : Handle)
                  | MergeAtomSignal (h : Handle).

(** [AtomHashSet]: a hash set of pointers under [operator==] of the atoms, as a
    map from what [operator==] compares (see [atom_eq]) to the pointer. *)
Abbreviation AtomKey := (N * (string + list Handle))%type.
Definition atom_key (a : Atom) : AtomKey :=
  (a_type a, match a_body a with NodeBody n => inl n | LinkBody _ _ => inr (targets a) end).

Record AtomTable := mkAtomTable {
  tlb : TLB;
  at_size : Z;
  atomSet : gmap AtomKey positive;
  typeIndex : TypeIndex.t;
  nodeIndex : NodeIndex.t;
  linkIndex : LinkIndex.t;
  importanceIndex : svec;
  targetTypeIndex : TypeIndex.t;
  predicateIndex : PredicateIndex.t;
  iterators : list positive;
  signals : list Signal
}.

Definition set_tlb t s := mkAtomTable t (at_size s) (atomSet s) (typeIndex s)
  (nodeIndex s) (linkIndex s) (importanceIndex s) (targetTypeIndex s)
  (predicateIndex s) (iterators s) (signals s).
Definition set_size z s := mkAtomTable (tlb s) z (atomSet s) (typeIndex s)
  (nodeIndex s) (linkIndex s) (importanceIndex s) (targetTypeIndex s)
  (predicateIndex s) (iterators s) (signals s).
Definition set_atomSet m s := mkAtomTable (tlb s) (at_size s) m (typeIndex s)
  (nodeIndex s) (linkIndex s) (importanceIndex s) (targetTypeIndex s)
  (predicateIndex s) (iterators s) (signals s).
Definition set_typeIndex i s := mkAtomTable (tlb s) (at_size s) (atomSet s) i
  (nodeIndex s) (linkIndex s) (importanceIndex s) (targetTypeIndex s)
  (predicateIndex s) (iterators s) (signals s).
Definition set_nodeIndex i s := mkAtomTable (tlb s) (at_size s) (atomSet s) (typeIndex s)
  i (linkIndex s) (importanceIndex s) (targetTypeIndex s)
  (predicateIndex s) (iterators s) (signals s).
Definition set_linkIndex i s := mkAtomTable (tlb s) (at_size s) (atomSet s) (typeIndex s)
  (nodeIndex s) i (importanceIndex s) (targetTypeIndex s)
  (predicateIndex s) (iterators s) (signals s).
Definition set_importanceIndex i s := mkAtomTable (tlb s) (at_size s) (atomSet s) (typeIndex s)
  (nodeIndex s) (linkIndex s) i (targetTypeIndex s)
  (predicateIndex s) (iterators s) (signals s).
Definition set_targetTypeIndex i s := mkAtomTable (tlb s) (at_size s) (atomSet s) (typeIndex s)
  (nodeIndex s) (linkIndex s) (importanceIndex s) i
  (predicateIndex s) (iterators s) (signals s).
Definition set_predicateIndex i s := mkAtomTable (tlb s) (at_size s) (atomSet s) (typeIndex s)
  (nodeIndex s) (linkIndex s) (importanceIndex s) (targetTypeIndex s)
  i (iterators s) (signals s).
Definition set_iterators l s := mkAtomTable (tlb s) (at_size s) (atomSet s) (typeIndex s)
  (nodeIndex s) (linkIndex s) (importanceIndex s) (targetTypeIndex s)
  (predicateIndex s) l (signals s).
Definition emit sig s := mkAtomTable (tlb s) (at_size s) (atomSet s) (typeIndex s)
  (nodeIndex s) (linkIndex s) (importanceIndex s) (targetTypeIndex s)
  (predicateIndex s) (iterators s) (signals s ++ [sig]).

(** Updates of one field by an operation that may fail. *)
Definition on_tlb (f : TLB -> res TLB) : ST AtomTable unit :=
  modify (fun s => t ← f (tlb s); Ok (set_tlb t s)).
Definition on_nodeIndex (f : TLB -> NodeIndex.t -> res NodeIndex.t) : ST AtomTable unit :=
  modify (fun s => i ← f (tlb s) (nodeIndex s); Ok (set_nodeIndex i s)).
Definition on_linkIndex (f : TLB -> LinkIndex.t -> res LinkIndex.t) : ST AtomTable unit :=
  modify (fun s => i ← f (tlb s) (linkIndex s); Ok (set_linkIndex i s)).
Definition on_typeIndex (f : TLB -> TypeIndex.t -> res TypeIndex.t) : ST AtomTable unit :=
  modify (fun s => i ← f (tlb s) (typeIndex s); Ok (set_typeIndex i s)).
Definition on_targetTypeIndex (f : TLB -> TypeIndex.t -> res TypeIndex.t) : ST AtomTable unit :=
  modify (fun s => i ← f (tlb s) (targetTypeIndex s); Ok (set_targetTypeIndex i s)).
Definition on_importanceIndex (f : TLB -> svec -> res svec) : ST AtomTable unit :=
  modify (fun s => i ← f (tlb s) (importanceIndex s); Ok (set_importanceIndex i s)).
Definition on_predicateIndex (f : TLB -> PredicateIndex.t -> res PredicateIndex.t)
    : ST AtomTable unit :=
  modify (fun s => i ← f (tlb s) (predicateIndex s); Ok (set_predicateIndex i s)).

Section table.
Context `{SetOrder} (cs : ClassServer) (string_hash : string -> N).

(** The constructor, on the current TLB. *)
Definition AtomTable_new (t : TLB) : AtomTable :=
  let types := TypeIndex.resize cs (TypeIndex.mk 0 (mkSvec 0 ∅)) in
  mkAtomTable t 0 ∅ types (NodeIndex.resize cs []) (LinkIndex.resize cs [])
    ImportanceIndex.empty types PredicateIndex.empty [] [].

(** *** The hash set *)
Definition atomSet_find (a : Atom) (s : AtomTable) : res (option positive) :=
  _ ← hashCode string_hash a; Ok (atomSet s !! atom_key a).

Definition atomSet_insert (p : positive) : ST AtomTable unit :=
  modify (fun s =>
    a ← of_opt (heap (tlb s) !! p);
    o ← atomSet_find a s;
    Ok match o with
       | Some _ => s
       | None => set_atomSet (<[atom_key a := p]> (atomSet s)) s
       end).

Definition atomSet_erase (p : positive) : ST AtomTable unit :=
  modify (fun s =>
    a ← of_opt (heap (tlb s) !! p);
    _ ← hashCode string_hash a;
    Ok (set_atomSet (delete (atom_key a) (atomSet s)) s)).

(** *** Lookup of one atom *)
Definition getHandle_name (name : string) (t : N) (s : AtomTable) : res Handle :=
  NodeIndex.getHandle t name (nodeIndex s).
Definition getHandle_seq (t : N) (seq : list Handle) (s : AtomTable) : res Handle :=
  LinkIndex.getHandle t seq (linkIndex s).
(** [getHandle(const Node* )] and [getHandle(const Link* )]. *)
Definition getHandle_atom (a : Atom) (s : AtomTable) : res Handle :=
  match a_body a with
  | NodeBody n => getHandle_name (c_str n) (a_type a) s
  | LinkBody o _ => getHandle_seq (a_type a) o s
  end.

Definition holds (h : Handle) (s : AtomTable) : res bool :=
  match getAtom (tlb s) h with
  | None => Ok false
  | Some p => a ← of_opt (heap (tlb s) !! p); Ok (a_inTable a)
  end.

(** *** merge *)
Definition merge_tv (tvn : TruthValue) (a : Atom) : res Atom :=
  if isNullTv tvn then Ok a
  else if isNullTv (a_truthValue a) then setTruthValue tvn a
  else mergedTV ← TruthValue.merge (a_truthValue a) tvn; setTruthValue mergedTV a.

Definition merge (h : Handle) (tvn : TruthValue) : ST AtomTable unit :=
  valid ← asks (fun s => isValidHandle (tlb s) h);
  if valid : bool then
    _ ← on_tlb (on_atom h (merge_tv tvn));
    modst (emit (MergeAtomSignal h))
  else mret tt.

(** *** add *)
Definition insert_indexes (h : Handle) : ST AtomTable unit :=
  _ ← on_nodeIndex (fun t => NodeIndex.insertHandle t h);
  _ ← on_linkIndex (fun t => LinkIndex.insertHandle t h);
  _ ← on_typeIndex (fun t => TypeIndex.insertHandle t h);
  _ ← on_targetTypeIndex (fun t => TargetTypeIndex.insertHandle t h);
  _ ← on_importanceIndex (fun t => ImportanceIndex.insertHandle t h);
  on_predicateIndex (fun t => PredicateIndex.insertHandle t h).

Definition remove_indexes (h : Handle) : ST AtomTable unit :=
  _ ← on_nodeIndex (fun t => NodeIndex.removeHandle t h);
  _ ← on_linkIndex (fun t => LinkIndex.removeHandle t h);
  _ ← on_typeIndex (fun t => TypeIndex.removeHandle t h);
  _ ← on_targetTypeIndex (fun t => TargetTypeIndex.removeHandle t h);
  _ ← on_importanceIndex (fun t => ImportanceIndex.removeHandle t h);
  on_predicateIndex (fun t i => Ok (PredicateIndex.removeHandle h i)).

(** [lll->getOutgoingAtom(i)->addIncomingHandle(handle)] for every target. *)
Definition add_incoming (h : Handle) (a : Atom) : ST AtomTable unit :=
  foreach (fun x => on_tlb (on_atom x (fun b => Ok (addIncomingHandle h b)))) (targets a).
Definition remove_incoming (h : Handle) (a : Atom) : ST AtomTable unit :=
  foreach (fun x => on_tlb (on_atom x (removeIncomingHandle h))) (targets a).

Definition add (p : positive) (dont_defer_incoming_links : bool) : ST AtomTable Handle :=
  atom ← reads (fun s => of_opt (heap (tlb s) !! p));
  if a_inTable atom then lift (getHandle_tlb atom) else
  existingHandle ← reads (getHandle_atom atom);
  valid ← asks (fun s => isValidHandle (tlb s) existingHandle);
  if valid : bool then
    _ ← merge existingHandle (a_truthValue atom);
    _ ← on_tlb (delete_atom p);
    mret existingHandle
  else
    _ ← modst (fun s => set_size (at_size s + 1) s);
    _ ← atomSet_insert p;
    _ ← foreach (fun x =>
          invalid ← asks (fun s => isInvalidHandle (tlb s) x);
          if invalid : bool then throw RuntimeException else mret tt)
        (rev (outgoing atom));
    invalid ← asks (fun s => isInvalidHandle (tlb s) (a_handle atom));
    handle ← (if invalid : bool then
                r ← reads (fun s => TLB_addAtom p UNDEFINED (tlb s));
                _ ← modst (set_tlb (snd r)); mret (fst r)
              else mret (a_handle atom));
    _ ← insert_indexes handle;
    _ ← (if dont_defer_incoming_links then add_incoming handle atom else mret tt);
    _ ← on_tlb (fun t => a ← of_opt (heap t !! p); Ok (set_atom p (set_inTable true a) t));
    _ ← modst (emit (AddAtomSignal handle));
    mret handle.

(** *** extract and remove *)

(** The loop over the copy of the incoming set. *)
Fixpoint extract_each (extract : Handle -> ST AtomTable (list Handle))
    (is_ : list Handle) (result : list Handle) : ST AtomTable (list Handle) :=
  match is_ with
  | [] => mret result
  | x :: is_' =>
      a ← reads (fun s => of_opt (atomOf (tlb s) x));
      if isMarkedForRemoval a then extract_each extract is_' result
      else r ← extract x; extract_each extract is_' (HE.concatenation r result)
  end.

(** The end of [extract]: the atom leaves the table. *)
Definition unlink (p : positive) (handle : Handle) (atom : Atom) : ST AtomTable unit :=
  _ ← modst (fun s => set_size (at_size s - 1) s);
  _ ← atomSet_erase p;
  _ ← remove_indexes handle;
  remove_incoming handle atom.

Fixpoint extract (fuel : nat) (recursive : bool) (handle : Handle)
    : ST AtomTable (list Handle) :=
  match fuel with
  | O => nofuel
  | S fuel' =>
      o ← asks (fun s => getAtom (tlb s) handle);
      match o with
      | None => mret []
      | Some p =>
          atom ← reads (fun s => of_opt (heap (tlb s) !! p));
          if isMarkedForRemoval atom then mret [] else
          _ ← on_tlb (on_atom handle (fun a => Ok (markForRemoval a)));
          result ← (if recursive
                    then extract_each (extract fuel' true)
                           (sort_handles (remove_dups (a_incoming atom))) []
                    else mret []);
          atom ← reads (fun s => of_opt (heap (tlb s) !! p));
          match a_incoming atom with
          | _ :: _ =>
              (* the warning prints every incoming atom *)
              _ ← foreach (fun x => _ ← reads (fun s => of_opt (atomOf (tlb s) x)); mret tt)
                    (a_incoming atom);
              _ ← on_tlb (on_atom handle (fun a => Ok (unsetRemovalFlag a)));
              mret result
          | [] =>
              _ ← unlink p handle atom;
              mret (HE.concatenation [handle] result)
          end
      end
  end.

(** One round of [removeExtractedHandles]: signal, take the atom out of the
    TLB, delete the object. *)
Definition removeExtracted (h : Handle) : ST AtomTable unit :=
  _ ← modst (emit (RemoveAtomSignal h));
  p ← reads (fun s => of_opt (getAtom (tlb s) h));
  _ ← on_tlb (TLB_removeAtom p);
  on_tlb (delete_atom p).

(** From the end of the list to its beginning. *)
Definition removeExtractedHandles (extractedHandles : list Handle) : ST AtomTable unit :=
  foreach removeExtracted (rev (HE.toHandleVector extractedHandles)).

(** The fuel of [extract]: the marks bound the depth of the recursion. *)
Definition extract_fuel (s : AtomTable) : nat := S (size (handle_map (tlb s))).

Definition remove (handle : Handle) (recursive : bool) : ST AtomTable bool :=
  fuel ← asks extract_fuel;
  extractedHandles ← extract fuel recursive handle;
  match extractedHandles with
  | [] => mret false
  | _ => _ ← removeExtractedHandles extractedHandles; mret true
  end.

(** *** Decay *)
Definition decayed (t : TLB) (h : Handle) : res bool :=
  a ← of_opt (atomOf t h); Ok (getFlag REMOVED_BY_DECAY a).

Definition clearIndexesAndRemoveAtoms (extractedHandles : list Handle) : ST AtomTable unit :=
  match extractedHandles with
  | [] => mret tt
  | _ =>
      _ ← on_nodeIndex (fun t => NodeIndex.remove_filter (decayed t));
      _ ← on_linkIndex (fun t => LinkIndex.remove_filter (decayed t));
      _ ← on_typeIndex (fun t => TypeIndex.remove_filter (decayed t));
      _ ← on_importanceIndex (fun t => FixedIntegerIndex.remove_filter (decayed t));
      _ ← on_targetTypeIndex (fun t => TypeIndex.remove_filter (decayed t));
      _ ← on_predicateIndex (fun t => PredicateIndex.remove_filter (decayed t));
      _ ← foreach (fun h =>
            p ← reads (fun s => of_opt (getAtom (tlb s) h));
            atom ← reads (fun s => of_opt (heap (tlb s) !! p));
            _ ← atomSet_erase p;
            _ ← modst (fun s => set_size (at_size s - 1) s);
            foreach (fun x =>
                o ← asks (fun s => getAtom (tlb s) x);
                match o with
                | None => mret tt
                | Some _ => on_tlb (on_atom x (removeIncomingHandle h))
                end) (targets atom))
          extractedHandles;
      removeExtractedHandles extractedHandles
  end.

Definition decayShortTermImportance (minSTI : Z) : ST AtomTable unit := fun s =>
  match ImportanceIndex.decayShortTermImportance minSTI (importanceIndex s) (tlb s) with
  | (Ok (oldAtoms, v), t) =>
      clearIndexesAndRemoveAtoms oldAtoms (set_importanceIndex v (set_tlb t s))
  | (Throw e, t) => (Throw e, set_tlb t s)
  | (Undef, t) => (Undef, set_tlb t s)
  | (Fuel, t) => (Fuel, set_tlb t s)
  end.

(** *** Attention values: [Atom::setAttentionValue] and
    [updateImportanceIndex] *)
Definition setAttentionValue (p : positive) (new_av : AttentionValue) : ST AtomTable unit :=
  a ← reads (fun s => of_opt (heap (tlb s) !! p));
  if AV_eq new_av (a_attentionValue a) then mret tt
  else
    let oldBin := if a_inTable a then ImportanceIndex.binOf a else (-1)%Z in
    let a' := set_av new_av a in
    _ ← modst (fun s => set_tlb (set_atom p a' (tlb s)) s);
    if a_inTable a && negb (oldBin =? ImportanceIndex.binOf a')%Z
    then on_importanceIndex (fun _ => ImportanceIndex.updateImportance a' oldBin)
    else mret tt.

(** *** Iterators and types *)
Definition registerIterator (it : positive) : ST AtomTable unit :=
  modst (fun s => set_iterators (iterators s ++ [it]) s).

Fixpoint unregister (it : positive) (l : list positive) : option (list positive) :=
  match l with
  | [] => None
  | x :: l' => if (x =? it)%positive then Some l'
               else l'' ← unregister it l'; Some (x :: l'')
  end.

Definition unregisterIterator (it : positive) : ST AtomTable unit :=
  l ← asks (fun s => unregister it (iterators s));
  match l with
  | Some l => modst (set_iterators l)
  | None => throw RuntimeException
  end.

Definition typeAdded (t : N) : ST AtomTable unit :=
  modst (fun s =>
    set_targetTypeIndex (TypeIndex.resize cs (targetTypeIndex s))
      (set_typeIndex (TypeIndex.resize cs (typeIndex s))
         (set_linkIndex (LinkIndex.resize cs (linkIndex s))
            (set_nodeIndex (NodeIndex.resize cs (nodeIndex s)) s)))).

(** The hash set is iterated in an unspecified order; the loop only adds
    missing entries of incoming sets. *)
Definition scrubIncoming : ST AtomTable unit :=
  ps ← asks (fun s => snd <$> map_to_list (atomSet s));
  foreach (fun p =>
      atom ← reads (fun s => of_opt (heap (tlb s) !! p));
      handle ← lift (getHandle_tlb atom);
      foreach (fun x =>
          oa ← reads (fun s => of_opt (atomOf (tlb s) x));
          if HE.contains handle (a_incoming oa) then mret tt
          else on_tlb (on_atom x (fun b => Ok (addIncomingHandle handle b))))
        (targets atom)) ps.
End table.

(** ** Sets of handles: the [getHandleSet] family *)
Section queries.
Context `{SetOrder} (cs : ClassServer) (string_hash : string -> N) (s : AtomTable).
Abbreviation t := (tlb s).

Definition getHandleSet_type (type : N) (subclass : bool) : res (list Handle) :=
  TypeIndex.getHandleSet cs type subclass (typeIndex s).

Definition getHandleSet_target (type targetType : N) (subclass targetSubclass : bool)
    : res (list Handle) :=
  set ← TypeIndex.getHandleSet cs targetType targetSubclass (targetTypeIndex s);
  filterSet_type cs t type subclass set.

Definition getHandleSet_incoming (handle : Handle) (type : N) (subclass : bool)
    : res (list Handle) :=
  a ← of_opt (atomOf t handle);
  filterSet_type cs t type subclass (HE.clone (a_incoming a)).

(** A null or empty name asks for the atoms without a name. *)
Definition getHandleSet_name (name : option string) (type : N) (subclass : bool)
    : res (list Handle) :=
  let n := c_str (default EmptyString name) in
  if decide (n = EmptyString) then
    set ← TypeIndex.getHandleSet cs type subclass (typeIndex s);
    filterSet_name cs t (Some EmptyString) set
  else NodeIndex.getHandleSet cs t type n subclass (nodeIndex s).

Definition getHandleSet_importance (lowerBound upperBound : Z) : res (list Handle) :=
  ImportanceIndex.getHandleSet t lowerBound upperBound (importanceIndex s).

(** A flag of an array that may be null. *)
Definition flag_at (subclasses : option (list bool)) (i : nat) : res bool :=
  match subclasses with None => Ok false | Some l => of_opt (l !! i) end.
Definition type_at (types : option (list N)) (i : nat) : res N :=
  match types with None => Ok NOTYPE | Some l => of_opt (l !! i) end.

(** The exact lookup of a link over its outgoing set. *)
Definition find_link (type : N) (handles : list Handle) : res (list Handle) :=
  link ← Link_new cs type handles NullTV;
  o ← atomSet_find string_hash link s;
  h ← match o with
      | None => Ok UNDEFINED
      | Some p => a ← of_opt (heap t !! p); getHandle_tlb a
      end;
  Ok (if isValidHandle t h then [h] else []).

Fixpoint all_valid (handles : list Handle) (is_ : list nat) : res bool :=
  match is_ with
  | [] => Ok true
  | i :: is_' => h ← of_opt (handles !! i);
                 if isValidHandle t h then all_valid handles is_' else Ok false
  end.

(** The set for one position; [None] counts as an empty position. *)
Definition position_set (handles : list Handle) (types : option (list N))
    (subclasses : option (list bool)) (arity type : N) (subclass : bool) (i : nat)
    : res (option (list Handle)) :=
  valid ← match handles with
          | [] => Ok false
          | _ => h ← of_opt (handles !! i); Ok (isValidHandle t h)
          end;
  if valid : bool then
    h ← of_opt (handles !! i);
    a ← of_opt (atomOf t h);
    set ← filterSet_position t h (N.of_nat i) arity (HE.clone (a_incoming a));
    Ok (Some set)
  else
    ty ← type_at types i;
    if negb (ty =? NOTYPE)%N then
      sub ← flag_at subclasses i;
      set ← getHandleSet_target type ty subclass sub; Ok (Some set)
    else Ok None.

(** The loop over the positions returns early at an empty set. *)
Fixpoint position_sets (f : nat -> res (option (list Handle))) (is_ : list nat)
    : res (option (list (option (list Handle)))) :=
  match is_ with
  | [] => Ok (Some [])
  | i :: is_' =>
      o ← f i;
      match o with
      | Some [] => Ok None
      | _ => r ← position_sets f is_'; Ok (r' ← r; Some (o :: r'))
      end
  end.

Definition non_null (sets : list (option (list Handle))) : list (list Handle) :=
  omap (fun o => o) sets.

(** The special case of looking for one link: all handles given and valid. *)
Definition exact_lookup (handles : list Handle) (arity type : N) (subclass : bool)
    : res bool :=
  if isAb cs type (LINK cs) && ((arity =? 0)%N || negb (bool_decide (handles = [])))
  then b ← all_valid handles (seq 0 (N.to_nat arity)); Ok (b && negb subclass)
  else Ok false.

(** [newLength] stays at the arity although the vector of sets has shrunk, so
    the filtering loop runs past its end when a position was empty. *)
Definition filter_sets (arity type : N) (subclass : bool) (sets : list (list Handle))
    : res (list (list Handle)) :=
  if negb (type =? ATOM cs)%N || negb subclass then
    rmap (fun i => set ← of_opt (sets !! i); filterSet_type cs t type subclass set)
      (seq 0 (N.to_nat arity))
  else Ok sets.

Definition filter_targets (types : option (list N)) (subclasses : option (list bool))
    (arity : N) (set : list Handle) : res (list Handle) :=
  rfold (fun set i =>
      ty ← type_at types i;
      if negb (ty =? NOTYPE)%N then
        sub ← flag_at subclasses i;
        filterSet_targetType cs t ty sub (N.of_nat i) arity set
      else Ok set) set (seq 0 (N.to_nat arity)).

Definition getHandleSet_handles (handles : list Handle) (types : option (list N))
    (subclasses : option (list bool)) (arity type : N) (subclass : bool)
    : res (list Handle) :=
  exact_ ← exact_lookup handles arity type subclass;
  if exact_ : bool then find_link type handles
  else if isAb cs type (LINK cs) && (arity =? 0)%N then
    set ← getHandleSet_type type subclass; filterSet_arity t arity set
  else
    r ← position_sets (position_set handles types subclasses arity type subclass)
          (seq 0 (N.to_nat arity));
    match r with
    | None => Ok []
    | Some sets =>
        sets ← filter_sets arity type subclass (non_null sets);
        set ← Intersection.intersection sets;
        filter_targets types subclasses arity set
    end.

Definition getHandleSet_targetName (targetName : string) (targetType type : N)
    (subclass : bool) : res (list Handle) :=
  handle ← getHandle_name targetName targetType s;
  if isValidHandle t handle then getHandleSet_incoming handle type subclass else Ok [].

(** One position of the lookup by target names and types. *)
Definition name_position (names : option (list (option string))) (types : option (list N))
    (subclasses : option (list bool)) (arity type : N) (subclass : bool) (i : nat)
    : res (option (list Handle)) :=
  sub ← flag_at subclasses i;
  name ← match names with None => Ok None | Some l => of_opt (l !! i) end;
  ty ← type_at types i;
  match name with
  | Some nm =>
      if negb (ty =? NOTYPE)%N then
        set ← getHandleSet_targetName nm ty type subclass;
        set ← (if sub : bool then
                 subTypes ← getChildrenRecursive cs ty;
                 rfold (fun set sty =>
                     subSet ← getHandleSet_targetName nm sty type subclass;
                     Ok (HE.concatenation set subSet)) set subTypes
               else Ok set);
        set ← filterSet_targetNameType cs t (Some nm) ty sub (N.of_nat i) arity set;
        Ok (Some set)
      else Throw RuntimeException
  | None =>
      if negb (ty =? NOTYPE)%N then
        set ← getHandleSet_target type ty subclass sub;
        set ← filterSet_targetType cs t ty sub (N.of_nat i) arity set;
        Ok (Some set)
      else Ok None
  end.

(** When a position was left open the vector is shrunk to its non-null
    sets, which also drops the positions that matched nothing. *)
Definition getHandleSet_names (names : option (list (option string)))
    (types : option (list N)) (subclasses : option (list bool)) (arity type : N)
    (subclass : bool) : res (list Handle) :=
  sets ← rmap (name_position names types subclasses arity type subclass)
           (seq 0 (N.to_nat arity));
  Intersection.intersection
    (if existsb (fun o => match o with None => true | _ => false end) sets
     then filter (fun l : list Handle => l <> []) (non_null sets)
     else non_null sets).

Definition getHandleSet_types (types : option (list N)) (subclasses : option (list bool))
    (arity type : N) (subclass : bool) : res (list Handle) :=
  getHandleSet_names None types subclasses arity type subclass.

Definition findHandlesByGPN_name (gpnNodeName : string) (vh : VersionHandle)
    : res (list Handle) :=
  gpnHandle ← getHandle_name gpnNodeName (getType cs "GroundedPredicateNode") s;
  result ← PredicateIndex.findHandlesByGPN t gpnHandle NULL_VERSION_HANDLE (predicateIndex s);
  filterSet_version t vh result.

(** *** The same lookups within a version *)
Definition with_version (vh : VersionHandle) (r : res (list Handle)) : res (list Handle) :=
  set ← r; filterSet_version t vh set.

Definition getHandleSet_type_vh (type : N) (subclass : bool) (vh : VersionHandle) :=
  with_version vh (getHandleSet_type type subclass).
Definition getHandleSet_target_vh (type targetType : N) (subclass targetSubclass : bool)
    (vh targetVh : VersionHandle) : res (list Handle) :=
  set ← with_version vh (getHandleSet_target type targetType subclass targetSubclass);
  filterSet_targetVersion cs t targetType targetSubclass targetVh set.
Definition getHandleSet_incoming_vh (handle : Handle) (type : N) (subclass : bool)
    (vh : VersionHandle) :=
  with_version vh (getHandleSet_incoming handle type subclass).
Definition getHandleSet_handles_vh handles types subclasses arity type subclass vh :=
  with_version vh (getHandleSet_handles handles types subclasses arity type subclass).
Definition getHandleSet_name_vh (name : option string) (type : N) (subclass : bool)
    (vh : VersionHandle) : res (list Handle) :=
  match name with
  | None => getHandleSet_type_vh type subclass vh
  | Some _ => with_version vh (getHandleSet_name name type subclass)
  end.
Definition getHandleSet_targetName_vh (targetName : string) (targetType type : N)
    (subclass : bool) (vh targetVh : VersionHandle) : res (list Handle) :=
  set ← with_version vh (getHandleSet_targetName targetName targetType type subclass);
  filterSet_targetNameVersion t targetName targetType targetVh set.
Definition getHandleSet_names_vh names types subclasses arity type subclass vh :=
  with_version vh (getHandleSet_names names types subclasses arity type subclass).
Definition getHandleSet_types_vh types subclasses arity type subclass vh :=
  with_version vh (getHandleSet_types types subclasses arity type subclass).

Definition isCleared (hasNext : positive -> bool) : bool :=
  (at_size s =? 0)%Z && (size (atomSet s) =? 0) &&
  (FixedIntegerIndex.size (TypeIndex.idx (typeIndex s)) =? 0) &&
  (FixedIntegerIndex.size (importanceIndex s) =? 0) &&
  (FixedIntegerIndex.size (TypeIndex.idx (targetTypeIndex s)) =? 0) &&
  (FixedIntegerIndex.size (PredicateIndex.idx (predicateIndex s)) =? 0) &&
  forallb (fun it => negb (hasNext it)) (iterators s).
End queries.
