(* ===== verification/TableInv.v ===== *)
(** The invariant of an atom table, and the lemmas by which the operations of
    AtomTable.v preserve it.

    [C] is the view of all the atoms in the TLB (see IndexSpec.v) and [L] the
    set of the live ones, those in the table. While atoms are being extracted
    the TLB knows more atoms than the table holds; between operations [L] is
    the domain of the TLB. *)
From S2P Require Import Prelude ClassServer TruthValue AttentionValue Atom TLB HandleEntry Index IndexSpec AtomTable.

Record atom_ok (cs : ClassServer) (c : Atom) : Prop := {
  ok_class : class_ok cs c;
  ok_type : (a_type c < nTypes cs)%N;
  ok_arity : (length (outgoing c) <= 64)%nat;
  ok_av : AV_wf (a_attentionValue c)
}.

(** Live atoms are well-formed, and links refer to older live atoms. *)
Record static (cs : ClassServer) (C : Handle -> option Atom) (L : gset Handle) : Prop := {
  st_live : forall h, h ∈ L -> is_Some (C h);
  st_atom : forall h c, h ∈ L -> C h = Some c -> atom_ok cs c;
  st_closed : forall h c x, h ∈ L -> C h = Some c -> x ∈ outgoing c -> x ∈ L /\ (x < h)%N
}.

(** Every index, the hash set and the size describe the live atoms. *)
Record six (cs : ClassServer) (C : Handle -> option Atom) (L : gset Handle)
    (s : AtomTable) : Prop := {
  ix_node : keyed_exact node_key (nTypes cs) C L (nodeIndex s);
  ix_link : keyed_exact link_key (nTypes cs) C L (linkIndex s);
  ix_type : type_exact (nTypes cs) C L (typeIndex s);
  ix_target : target_exact (nTypes cs) C L (targetTypeIndex s);
  ix_importance : importance_exact C L (importanceIndex s);
  ix_predicate : predicate_exact L (predicateIndex s)
}.

Record indexed (cs : ClassServer) (C : Handle -> option Atom) (L : gset Handle)
    (s : AtomTable) : Prop := {
  ix_six : six cs C L s;
  ix_set : forall key p, atomSet s !! key = Some p <->
    exists h c, h ∈ L /\ handle_map (tlb s) !! h = Some p /\ C h = Some c /\ atom_key c = key;
  ix_size : at_size s = Z.of_nat (size L)
}.

(** How often the live link [k] refers to [h]. *)
Definition refs (C : Handle -> option Atom) (L : gset Handle) (k h : Handle) : nat :=
  if decide (k ∈ L) then match C k with Some c => occ h (targets c) | None => 0 end else 0.

Record inv (cs : ClassServer) (C : Handle -> option Atom) (L : gset Handle)
    (s : AtomTable) : Prop := {
  inv_tlb : TLB_wf (tlb s);
  inv_core : forall k, coreOf (tlb s) k = C k;
  inv_static : static cs C L;
  inv_indexed : indexed cs C L s;
  inv_table : forall h a, h ∈ L -> atomOf (tlb s) h = Some a -> a_inTable a = true;
  inv_incoming : forall h a k, h ∈ L -> atomOf (tlb s) h = Some a ->
    occ k (a_incoming a) = refs C L k h
}.

(** The handles of a table between operations, and its well-formedness then:
    the invariant holds of all the atoms of the TLB and none is marked. *)
Definition live (s : AtomTable) : gset Handle := dom (handle_map (tlb s)).

Record table_wf (cs : ClassServer) (s : AtomTable) : Prop := {
  tw_inv : inv cs (coreOf (tlb s)) (live s) s;
  tw_marks : forall h a, atomOf (tlb s) h = Some a -> isMarkedForRemoval a = false
}.

(** ** Small facts *)
Lemma elem_of_live_map s h : h ∈ live s <-> is_Some (handle_map (tlb s) !! h).
Proof. apply elem_of_dom. Qed.

Lemma elem_of_live cs s h : table_wf cs s -> h ∈ live s <-> is_Some (atomOf (tlb s) h).
Proof.
  intros Hwf. unfold live. rewrite elem_of_dom. symmetry.
  apply atomOf_getAtom, (inv_tlb _ _ _ _ (tw_inv _ _ Hwf)).
Qed.

Lemma targets_outgoing c : (length (outgoing c) <= 64)%nat -> targets c = outgoing c.
Proof. intros H. apply targets_full. lia. Qed.

Lemma live_atom cs C L s h :
  inv cs C L s -> h ∈ L ->
  exists a c, atomOf (tlb s) h = Some a /\ C h = Some c /\ core a = c /\ atom_ok cs c.
Proof.
  intros Hinv Hh. destruct (st_live _ _ _ (inv_static _ _ _ _ Hinv) h Hh) as [c Hc].
  destruct (view_atom _ _ (inv_core _ _ _ _ Hinv) h c Hc) as (a & Ha & Hac).
  exists a, c. split_and!; try done. by apply (st_atom _ _ _ (inv_static _ _ _ _ Hinv) h).
Qed.

Lemma atom_core cs C L s h a :
  inv cs C L s -> atomOf (tlb s) h = Some a -> C h = Some (core a).
Proof. intros Hinv Ha. rewrite <- (inv_core _ _ _ _ Hinv). unfold coreOf. by rewrite Ha. Qed.

Lemma atom_key_core a : atom_key (core a) = atom_key a.
Proof. done. Qed.

Lemma atom_key_inj c c' :
  (length (outgoing c) <= 64)%nat -> (length (outgoing c') <= 64)%nat ->
  atom_key c = atom_key c' ->
  a_type c = a_type c' /\ node_key c = node_key c' /\ link_key c = link_key c'.
Proof.
  intros Hl Hl'. unfold atom_key, node_key, link_key, isNodeObj, isLinkObj, getName.
  rewrite !targets_outgoing by done. unfold outgoing in *.
  destruct (a_body c), (a_body c'); intros [= -> ->]; done.
Qed.

Lemma hashCode_ok string_hash a :
  (length (outgoing a) <= 64)%nat -> exists n, hashCode string_hash a = Ok n.
Proof.
  intros Hl. unfold hashCode. destruct (a_body a) as [n|o tr] eqn:E; [eauto|].
  rewrite targets_outgoing by done.
  assert (Hloop : forall (l : list (nat * Handle)) r,
    Forall (fun ih => ih.1 < 64)%nat l ->
    exists n, rfold (fun result (ih : nat * Handle) =>
               if (64 <=? ih.1)%nat then Undef
               else Ok (N.lxor result (wrap64 (N.shiftl ih.2 (N.of_nat ih.1))))) r l = Ok n).
  { induction l as [|ih l IH]; intros r Hf; cbn [rfold]; [eauto|].
    inversion_clear Hf as [|? ? H1 H2]. rewrite (proj2 (Nat.leb_gt _ _)) by done.
    by apply IH. }
  apply Hloop. apply Forall_lookup. intros i ih Hi.
  rewrite list_lookup_imap in Hi. apply fmap_Some in Hi as (x & Hx & ->). simpl.
  apply lookup_lt_Some in Hx. lia.
Qed.

Lemma occ_all_0 l : (forall k, occ k l = 0) -> l = [].
Proof.
  destruct l as [|x l]; [done|]. intros H. specialize (H x). rewrite occ_cons in H.
  rewrite decide_True in H by done. lia.
Qed.

(** ** The view may change outside the live atoms *)
Lemma static_ext cs C C' L :
  (forall h, h ∈ L -> C h = C' h) -> static cs C L -> static cs C' L.
Proof.
  intros HC [H1 H2 H3]. split.
  - intros h Hh. rewrite <- HC by done. by apply H1.
  - intros h c Hh Hc. rewrite <- HC in Hc by done. by apply (H2 h).
  - intros h c x Hh Hc. rewrite <- HC in Hc by done. by apply (H3 h c).
Qed.

Lemma keyed_ext {K} `{Countable K} (key : Atom -> option K) n C C' L ix :
  (forall h, h ∈ L -> C h = C' h) -> keyed_exact key n C L ix -> keyed_exact key n C' L ix.
Proof.
  intros HC [Hl Hex]. split; [done|]. intros ty k h. rewrite Hex.
  split; intros (HL & c & Hc & Hk); (split; [done|]); exists c; [rewrite <- HC|rewrite HC]; done.
Qed.

Lemma fixed_ext len P P' L v :
  (forall i h, h ∈ L -> P i h <-> P' i h) -> fixed_exact len P L v -> fixed_exact len P' L v.
Proof.
  intros HP [Hl Hex]. split; [done|]. intros i h. rewrite Hex.
  split; intros [HL Hi]; (split; [done|]); by apply (HP i h).
Qed.

Lemma six_ext cs C C' L s :
  (forall h, h ∈ L -> C h = C' h) -> static cs C L -> six cs C L s -> six cs C' L s.
Proof.
  intros HC Hst [H1 H2 [H3 H3'] [H4 H4'] H5 H6].
  assert (Hu : forall f i h, h ∈ L -> under f C i h <-> under f C' i h).
  { intros f i h Hh. unfold under. by rewrite HC. }
  split; [by apply (keyed_ext _ _ C)|by apply (keyed_ext _ _ C)| | | |done].
  - split; [done|]. by apply (fixed_ext _ (under a_type C)); [apply Hu|].
  - split; [done|]. apply (fixed_ext _ (has_target C)); [|done].
    intros i h Hh. unfold has_target. rewrite <- HC by done.
    assert (Htt : forall c, C h = Some c -> target_types C c = target_types C' c).
    { intros c Hc. unfold target_types.
      assert (Hin : forall x, x ∈ targets c -> C x = C' x).
      { intros x Hx. apply HC. apply (st_closed _ _ _ Hst h c x Hh Hc).
        unfold targets in Hx. apply elem_of_take in Hx as (j & Hj & _).
        by apply list_elem_of_lookup_2 in Hj. }
      apply list_omap_ext, Forall_Forall2_diag, Forall_forall.
      intros x Hx. by rewrite Hin. }
    split; intros (c & Hc & Hl & Hi); exists c; rewrite Hc; (split; [done|]); (split; [done|]);
      [rewrite <- Htt|rewrite Htt]; done.
  - by apply (fixed_ext _ (under binN C)); [apply Hu|].
Qed.

Lemma indexed_ext cs C C' L s :
  (forall h, h ∈ L -> C h = C' h) -> static cs C L -> indexed cs C L s -> indexed cs C' L s.
Proof.
  intros HC Hst [H1 H7 H8]. split; [by apply (six_ext _ C)| |done].
  intros key p. rewrite H7. split; intros (h & c & HL & Hp & Hc & Hk); exists h, c;
    (split; [done|]); (split; [done|]); (split; [|done]); [rewrite <- HC|rewrite HC]; done.
Qed.

(** Live links refer to live atoms. *)
Lemma refs_dead cs C L k h : static cs C L -> (h ∉ L) -> refs C L k h = 0.
Proof.
  intros Hst Hh. unfold refs. case_decide as Hk; [|done].
  destruct (C k) as [c|] eqn:Hc; [|done]. apply occ_0.
  rewrite targets_outgoing by by apply (st_atom _ _ _ Hst k).
  intros Hx. by apply Hh, (st_closed _ _ _ Hst k c h).
Qed.

Lemma refs_ext C C' L k h : (forall x, x ∈ L -> C x = C' x) -> refs C L k h = refs C' L k h.
Proof. intros HC. unfold refs. case_decide; [|done]. by rewrite HC. Qed.

Lemma inv_view cs C L s : inv cs C L s -> inv cs (coreOf (tlb s)) L s.
Proof.
  intros [Hwf Hcore Hst Hidx Htab Hinc].
  assert (HC : forall k, k ∈ L -> C k = coreOf (tlb s) k) by done.
  split; [done..| | |done|].
  - by apply (static_ext _ C).
  - by apply (indexed_ext _ C).
  - intros h a k Hh Ha. rewrite <- (refs_ext C) by done. by apply Hinc.
Qed.

(** The store may change where the invariant does not look. *)
Lemma inv_store cs C L s t' :
  inv cs C L s -> TLB_wf t' -> handle_map t' = handle_map (tlb s) ->
  (forall k, match atomOf (tlb s) k with
             | Some a => exists f tv, atomOf t' k = Some (set_flags f (set_tv tv a))
             | None => atomOf t' k = None
             end) ->
  inv cs C L (set_tlb t' s).
Proof.
  intros [Hwf Hcore Hst [Hsix Hset Hsize] Htab Hinc] Hwf' Hm Hat.
  assert (Hback : forall k a', atomOf t' k = Some a' ->
    exists a f tv, atomOf (tlb s) k = Some a /\ a' = set_flags f (set_tv tv a)).
  { intros k a' Ha'. specialize (Hat k). destruct (atomOf (tlb s) k) as [a|]; [|congruence].
    destruct Hat as (f & tv & Hf). rewrite Ha' in Hf. exists a, f, tv. by simplify_eq. }
  split; [done| |done| | |].
  - intros k. simpl. rewrite <- Hcore. specialize (Hat k). unfold coreOf.
    destruct (atomOf (tlb s) k) as [a|]; [by destruct Hat as (f & tv & ->)|by rewrite Hat].
  - split; [by destruct Hsix| |done]. intros key p. simpl. rewrite Hm. apply Hset.
  - intros k a' Hk (a & f & tv & Ha & ->)%Hback. by apply (Htab k a).
  - intros k a' x Hk (a & f & tv & Ha & ->)%Hback. by apply (Hinc k a).
Qed.

(** ** Updates of one field *)
(** Nothing but the indexes differs. *)
Record same_rest (s s' : AtomTable) : Prop := {
  sr_tlb : tlb s' = tlb s;
  sr_size : at_size s' = at_size s;
  sr_set : atomSet s' = atomSet s;
  sr_iterators : iterators s' = iterators s;
  sr_signals : signals s' = signals s
}.

Section updates.
Context (cs : ClassServer) (C : Handle -> option Atom).

Lemma remove_indexes_ok L s h c :
  (forall k, coreOf (tlb s) k = C k) -> static cs C L -> six cs C L s ->
  h ∈ L -> C h = Some c ->
  exists s', remove_indexes h s = (Ok tt, s') /\ same_rest s s' /\ six cs C (L ∖ {[h]}) s'.
Proof.
  intros HC Hst [H1 H2 H3 H4 H5 H6] Hh Hc.
  destruct (st_atom _ _ _ Hst h c Hh Hc) as [_ Hty Har Hav].
  assert (Htg : Forall (fun x => exists b, C x = Some b /\ (a_type b < nTypes cs)%N) (targets c)).
  { apply Forall_forall. intros x Hx. rewrite targets_outgoing in Hx by done.
    destruct (st_closed _ _ _ Hst h c x Hh Hc Hx) as [HxL _].
    destruct (st_live _ _ _ Hst x HxL) as [b Hb]. exists b. split; [done|].
    by apply (st_atom _ _ _ Hst x b). }
  destruct (NodeIndex_remove_ok _ C HC _ _ _ _ _ H1 Hh Hc Hty) as (i1 & E1 & H1').
  destruct (LinkIndex_remove_ok _ C HC _ _ _ _ _ H2 Hh Hc Hty) as (i2 & E2 & H2').
  destruct (TypeIndex_remove_ok _ C HC _ _ _ _ _ H3 Hc Hty) as (i3 & E3 & H3').
  destruct (TargetTypeIndex_remove_ok _ C HC _ _ _ _ _ H4 Hc Htg) as (i4 & E4 & H4').
  destruct (ImportanceIndex_remove_ok _ C HC _ _ _ _ H5 Hc (proj1 Hav)) as (i5 & E5 & H5').
  pose proof (PredicateIndex_remove_ok _ _ h H6) as H6'.
  unfold remove_indexes, on_nodeIndex, on_linkIndex, on_typeIndex, on_targetTypeIndex,
    on_importanceIndex, on_predicateIndex.
  step (apply modify_ok; rewrite E1; done).
  step (apply modify_ok; simpl; rewrite E2; done).
  step (apply modify_ok; simpl; rewrite E3; done).
  step (apply modify_ok; simpl; rewrite E4; done).
  step (apply modify_ok; simpl; rewrite E5; done).
  erewrite modify_ok; [|simpl; done].
  eexists. split; [done|]. split; [done|]. by split.
Qed.

Lemma insert_indexes_ok L s h c :
  (forall k, coreOf (tlb s) k = C k) -> static cs C ({[h]} ∪ L) -> six cs C L s ->
  (h ∉ L) -> C h = Some c ->
  (forall h' c', h' ∈ L -> C h' = Some c' -> a_type c' = a_type c ->
     (forall k, node_key c = Some k -> node_key c' <> Some k) /\
     (forall k, link_key c = Some k -> link_key c' <> Some k)) ->
  exists s', insert_indexes h s = (Ok tt, s') /\ same_rest s s' /\ six cs C ({[h]} ∪ L) s'.
Proof.
  intros HC Hst [H1 H2 H3 H4 H5 H6] Hh Hc Hfree.
  assert (HhL : h ∈ {[h]} ∪ L) by (apply elem_of_union_l, elem_of_singleton; done).
  destruct (st_atom _ _ _ Hst h c HhL Hc) as [_ Hty Har Hav].
  assert (Htg : Forall (fun x => exists b, C x = Some b /\ (a_type b < nTypes cs)%N) (targets c)).
  { apply Forall_forall. intros x Hx. rewrite targets_outgoing in Hx by done.
    destruct (st_closed _ _ _ Hst h c x HhL Hc Hx) as [HxL _].
    destruct (st_live _ _ _ Hst x HxL) as [b Hb]. exists b. split; [done|].
    by apply (st_atom _ _ _ Hst x b). }
  destruct (NodeIndex_insert_ok _ C HC _ _ _ _ _ H1 Hh Hc Hty
              (fun h' c' k a b d => proj1 (Hfree h' c' a b d) k)) as (i1 & E1 & H1').
  destruct (LinkIndex_insert_ok _ C HC _ _ _ _ _ H2 Hh Hc Hty
              (fun h' c' k a b d => proj2 (Hfree h' c' a b d) k)) as (i2 & E2 & H2').
  destruct (TypeIndex_insert_ok _ C HC _ _ _ _ _ H3 Hc Hty) as (i3 & E3 & H3').
  destruct (TargetTypeIndex_insert_ok _ C HC _ _ _ _ _ H4 Hc Htg) as (i4 & E4 & H4').
  destruct (ImportanceIndex_insert_ok _ C HC _ _ _ _ H5 Hc (proj1 Hav)) as (i5 & E5 & H5').
  destruct (PredicateIndex_insert_ok (tlb s) _ _ h H6) as (i6 & E6 & H6').
  unfold insert_indexes, on_nodeIndex, on_linkIndex, on_typeIndex, on_targetTypeIndex,
    on_importanceIndex, on_predicateIndex.
  step (apply modify_ok; rewrite E1; done).
  step (apply modify_ok; simpl; rewrite E2; done).
  step (apply modify_ok; simpl; rewrite E3; done).
  step (apply modify_ok; simpl; rewrite E4; done).
  step (apply modify_ok; simpl; rewrite E5; done).
  erewrite modify_ok; [|simpl; rewrite E6; done].
  eexists. split; [done|]. split; [done|]. by split.
Qed.
End updates.

(** ** Incoming sets *)

(** From [t] to [t'] only incoming lists differ, and [R k l l'] holds of the
    lists of every atom [k]. *)
Record only_incoming (R : Handle -> list Handle -> list Handle -> Prop) (t t' : TLB) : Prop := {
  oi_wf : TLB_wf t';
  oi_map : handle_map t' = handle_map t;
  oi_brk : brk_uuid t' = brk_uuid t;
  oi_atom : forall k,
    match atomOf t k with
    | Some a => exists l', atomOf t' k = Some (set_incoming l' a) /\ R k (a_incoming a) l'
    | None => atomOf t' k = None
    end
}.

Lemma set_incoming_same a : set_incoming (a_incoming a) a = a.
Proof. by destruct a. Qed.

Lemma only_incoming_core R t t' k : only_incoming R t t' -> coreOf t' k = coreOf t k.
Proof.
  intros [_ _ _ H]. specialize (H k). unfold coreOf.
  destruct (atomOf t k) as [a|]; [|by rewrite H]. destruct H as (l' & -> & _). done.
Qed.

Lemma only_incoming_step (R : Handle -> list Handle -> list Handle -> Prop) t x f a a' :
  TLB_wf t -> atomOf t x = Some a -> f a = Ok a' ->
  (exists l', a' = set_incoming l' a /\ R x (a_incoming a) l') ->
  (forall k l, k <> x -> R k l l) ->
  exists t', on_atom x f t = Ok t' /\ only_incoming R t t'.
Proof.
  intros Hwf Ha Hf (l' & -> & HR) Hother.
  destruct (on_atom_ok t x f a _ Hwf Ha Hf) as (t' & Ht' & Hwf' & Hm & Hb & Hat); [done|].
  exists t'. split; [done|]. split; try done. intros k. rewrite Hat.
  destruct (decide (k = x)) as [->|Hne].
  - rewrite Ha. eauto.
  - destruct (atomOf t k) as [b|]; [|done]. exists (a_incoming b).
    rewrite set_incoming_same. auto.
Qed.

Definition removed (h : Handle) (l : list Handle) (k : Handle) (i i' : list Handle) : Prop :=
  (k ∉ l -> i' = i) /\
  forall y, occ y i' = occ y i - (if decide (y = h) then occ k l else 0).
Definition added (h : Handle) (l : list Handle) (k : Handle) (i i' : list Handle) : Prop :=
  (k ∉ l -> i' = i) /\
  forall y, occ y i' = occ y i + (if decide (y = h) then occ k l else 0).

Lemma remove_incoming_ok h l s :
  TLB_wf (tlb s) ->
  (forall x, x ∈ l -> exists a, atomOf (tlb s) x = Some a /\ (occ x l <= occ h (a_incoming a))%nat) ->
  exists t', foreach (fun x => on_tlb (on_atom x (removeIncomingHandle h))) l s
               = (Ok tt, set_tlb t' s) /\
             only_incoming (removed h l) (tlb s) t'.
Proof.
  revert s. induction l as [|x l IH]; intros s Hwf Hl; cbn [foreach].
  { exists (tlb s). split; [by destruct s|]. split; try done. intros k.
    destruct (atomOf (tlb s) k) as [a|]; [|done]. exists (a_incoming a).
    rewrite set_incoming_same. split; [done|]. split; [done|].
    intros y. rewrite occ_nil. case_decide; lia. }
  destruct (Hl x ltac:(left)) as (a & Ha & Hocc).
  rewrite occ_cons, decide_True in Hocc by done.
  destruct (removeIncoming_spec h a) as [(l1 & l2 & Hi & _ & Hr)|[Hn _]].
  2: { apply occ_0 in Hn. lia. }
  destruct (only_incoming_step (removed h [x]) (tlb s) x (removeIncomingHandle h) a _ Hwf Ha Hr)
    as (t1 & E1 & O1).
  { exists (l1 ++ l2). split; [done|]. split; [set_solver|]. intros y.
    rewrite Hi, !occ_app, !occ_cons. rewrite (decide_True (P := x = x)) by done. rewrite occ_nil.
    case_decide; lia. }
  { intros k i Hk. split; [done|]. intros y. rewrite occ_cons, occ_nil.
    rewrite (decide_False (P := k = x)) by done. case_decide; lia. }
  step (apply modify_ok; rewrite E1; done).
  destruct (IH (set_tlb t1 s)) as (t2 & E2 & O2).
  { apply O1. }
  { intros k Hk. simpl. destruct (Hl k ltac:(by right)) as (b & Hb & Hob).
    pose proof (oi_atom _ _ _ O1 k) as Hat. rewrite Hb in Hat.
    destruct Hat as (l' & Hl' & _ & Ho). exists (set_incoming l' b). split; [done|].
    cbn [a_incoming set_incoming]. rewrite Ho, decide_True by done.
    rewrite occ_cons, occ_nil. rewrite occ_cons in Hob. lia. }
  exists t2. split; [done|]. simpl in O2.
  split; [apply O2|rewrite (oi_map _ _ _ O2); apply O1|rewrite (oi_brk _ _ _ O2); apply O1|].
  intros k. pose proof (oi_atom _ _ _ O1 k) as H1. pose proof (oi_atom _ _ _ O2 k) as H2.
  destruct (atomOf (tlb s) k) as [b|]; [|by rewrite H1 in H2].
  destruct H1 as (i1 & Hi1 & Hk1 & Ho1). rewrite Hi1 in H2.
  destruct H2 as (i2 & Hi2 & Hk2 & Ho2). exists i2. split; [done|].
  cbn [a_incoming set_incoming] in *. split.
  - intros Hk%not_elem_of_cons. rewrite Hk2 by tauto. apply Hk1. set_solver.
  - intros y. rewrite Ho2, Ho1, !occ_cons, occ_nil. case_decide; lia.
Qed.

Lemma add_incoming_ok h l s :
  TLB_wf (tlb s) -> (forall x, x ∈ l -> is_Some (atomOf (tlb s) x)) ->
  exists t', foreach (fun x => on_tlb (on_atom x (fun b => Ok (addIncomingHandle h b)))) l s
               = (Ok tt, set_tlb t' s) /\
             only_incoming (added h l) (tlb s) t'.
Proof.
  revert s. induction l as [|x l IH]; intros s Hwf Hl; cbn [foreach].
  { exists (tlb s). split; [by destruct s|]. split; try done. intros k.
    destruct (atomOf (tlb s) k) as [a|]; [|done]. exists (a_incoming a).
    rewrite set_incoming_same. split; [done|]. split; [done|].
    intros y. rewrite occ_nil. case_decide; lia. }
  destruct (Hl x ltac:(left)) as (a & Ha).
  destruct (only_incoming_step (added h [x]) (tlb s) x (fun b => Ok (addIncomingHandle h b))
              a _ Hwf Ha eq_refl) as (t1 & E1 & O1).
  { exists (h :: a_incoming a). split; [done|]. split; [set_solver|]. intros y.
    rewrite !occ_cons. rewrite (decide_True (P := x = x)) by done. rewrite occ_nil.
    case_decide; lia. }
  { intros k i Hk. split; [done|]. intros y. rewrite occ_cons, occ_nil.
    rewrite (decide_False (P := k = x)) by done. case_decide; lia. }
  step (apply modify_ok; rewrite E1; done).
  destruct (IH (set_tlb t1 s)) as (t2 & E2 & O2).
  { apply O1. }
  { intros k Hk. simpl. destruct (Hl k ltac:(by right)) as (b & Hb).
    pose proof (oi_atom _ _ _ O1 k) as Hat. rewrite Hb in Hat.
    destruct Hat as (l' & Hl' & _). eauto. }
  exists t2. split; [done|]. simpl in O2.
  split; [apply O2|rewrite (oi_map _ _ _ O2); apply O1|rewrite (oi_brk _ _ _ O2); apply O1|].
  intros k. pose proof (oi_atom _ _ _ O1 k) as H1. pose proof (oi_atom _ _ _ O2 k) as H2.
  destruct (atomOf (tlb s) k) as [b|]; [|by rewrite H1 in H2].
  destruct H1 as (i1 & Hi1 & Hk1 & Ho1). rewrite Hi1 in H2.
  destruct H2 as (i2 & Hi2 & Hk2 & Ho2). exists i2. split; [done|].
  cbn [a_incoming set_incoming] in *. split.
  - intros Hk%not_elem_of_cons. rewrite Hk2 by tauto. apply Hk1. set_solver.
  - intros y. rewrite Ho2, Ho1, !occ_cons, occ_nil. case_decide; lia.
Qed.

(** ** An atom without incoming links leaves the table *)

(** What the unlinking of [h] leaves alone. *)
Record unlinked (h : Handle) (L : gset Handle) (s s' : AtomTable) : Prop := {
  ul_map : handle_map (tlb s') = handle_map (tlb s);
  ul_brk : brk_uuid (tlb s') = brk_uuid (tlb s);
  ul_atoms : forall k, set_incoming [] <$> atomOf (tlb s') k = set_incoming [] <$> atomOf (tlb s) k;
  ul_dead : forall k, k ∉ L ∖ {[h]} -> atomOf (tlb s') k = atomOf (tlb s) k;
  ul_iterators : iterators s' = iterators s;
  ul_signals : signals s' = signals s
}.

Lemma refs_remove cs C L h c k x :
  static cs C L -> C h = Some c ->
  refs C (L ∖ {[h]}) k x = refs C L k x - (if decide (k = h) then occ x (targets c) else 0).
Proof.
  intros Hst Hc. unfold refs. destruct (decide (k = h)) as [->|Hne].
  - rewrite decide_False by set_solver. rewrite Hc. case_decide; lia.
  - destruct (decide (k ∈ L)) as [Hk|Hk].
    + rewrite decide_True by set_solver. lia.
    + rewrite decide_False by set_solver. lia.
Qed.

Lemma static_remove cs C L h :
  static cs C L -> (forall k, refs C L k h = 0) -> static cs C (L ∖ {[h]}).
Proof.
  intros [H1 H2 H3] Hrefs. split.
  - intros k [Hk _]%elem_of_difference. by apply H1.
  - intros k c [Hk _]%elem_of_difference. by apply H2.
  - intros k c x [Hk _]%elem_of_difference Hc Hx.
    destruct (H3 k c x Hk Hc Hx) as [HxL Hlt]. split; [|done].
    apply elem_of_difference. split; [done|]. intros ->%elem_of_singleton.
    specialize (Hrefs k). unfold refs in Hrefs. rewrite decide_True, Hc in Hrefs by done.
    rewrite targets_outgoing in Hrefs by (by apply (H2 k)).
    apply occ_0 in Hrefs. done.
Qed.

(** An atom after a change of incoming lists, in terms of the one before. *)
Lemma only_incoming_back R t t' x b :
  only_incoming R t t' -> atomOf t' x = Some b ->
  exists b0 l', atomOf t x = Some b0 /\ b = set_incoming l' b0 /\ R x (a_incoming b0) l'.
Proof.
  intros O Hb. pose proof (oi_atom _ _ _ O x) as Hat.
  destruct (atomOf t x) as [b0|] eqn:Hb0; [|congruence].
  destruct Hat as (l' & Hl' & HR). exists b0, l'. split_and!; [done|congruence|done].
Qed.

Lemma only_incoming_strip R t t' x :
  only_incoming R t t' -> set_incoming [] <$> atomOf t' x = set_incoming [] <$> atomOf t x.
Proof.
  intros O. pose proof (oi_atom _ _ _ O x) as Hat.
  destruct (atomOf t x); [|by rewrite Hat]. by destruct Hat as (l' & -> & _).
Qed.

(** The hash set of pointers loses exactly the key of the atom. *)
Lemma atomSet_remove cs C L s h p c :
  inv cs C L s -> h ∈ L -> handle_map (tlb s) !! h = Some p -> C h = Some c ->
  forall key q, delete (atom_key c) (atomSet s) !! key = Some q <->
    exists k d, k ∈ L ∖ {[h]} /\ handle_map (tlb s) !! k = Some q /\ C k = Some d /\ atom_key d = key.
Proof.
  intros Hinv Hh Hp Hc key q. pose proof (ix_set _ _ _ _ (inv_indexed _ _ _ _ Hinv)) as Hset.
  rewrite lookup_delete_Some, Hset. split.
  - intros (Hne & k & d & Hk & Hq & Hck & Hkey). exists k, d. split; [|done].
    apply elem_of_difference. split; [done|]. intros ->%elem_of_singleton. by simplify_eq.
  - intros (k & d & [Hk Hkh]%elem_of_difference & Hq & Hck & Hkey).
    split; [|exists k, d; done]. intros Heq. apply Hkh, elem_of_singleton. rewrite <- Hkey in Heq.
    assert (Hb1 : atomSet s !! atom_key d = Some p) by (apply Hset; exists h, c; done).
    assert (Hb2 : atomSet s !! atom_key d = Some q) by (apply Hset; exists k, d; done).
    rewrite Hb1 in Hb2. injection Hb2 as ->.
    by apply (handle_map_inj (tlb s) k h q (inv_tlb _ _ _ _ Hinv)).
Qed.

(** The targets of a live link know of it. *)
Lemma targets_incoming cs C L s h c x :
  inv cs C L s -> h ∈ L -> C h = Some c -> x ∈ targets c ->
  (x ∈ L /\ (x < h)%N) /\
  exists b, atomOf (tlb s) x = Some b /\ occ h (a_incoming b) = occ x (targets c).
Proof.
  intros Hinv Hh Hc Hx. pose proof (inv_static _ _ _ _ Hinv) as Hst.
  rewrite targets_outgoing in Hx by apply (st_atom _ _ _ Hst h c Hh Hc).
  destruct (st_closed _ _ _ Hst h _ x Hh Hc Hx) as [HxL Hlt]. split; [done|].
  destruct (st_live _ _ _ Hst x HxL) as [b Hb].
  destruct (view_atom _ _ (inv_core _ _ _ _ Hinv) x b Hb) as (b' & Hb' & _). exists b'.
  split; [done|]. rewrite (inv_incoming _ _ _ _ Hinv x b' h HxL Hb').
  unfold refs. by rewrite decide_True, Hc by done.
Qed.

(** The invariant without [h], whose row in every structure is gone. *)
Lemma unlinked_inv cs C L s h p a t3 s3 :
  inv cs C L s -> h ∈ L -> handle_map (tlb s) !! h = Some p -> atomOf (tlb s) h = Some a ->
  a_incoming a = [] -> only_incoming (removed h (targets a)) (tlb s) t3 -> tlb s3 = t3 ->
  six cs C (L ∖ {[h]}) s3 -> at_size s3 = (at_size s - 1)%Z ->
  atomSet s3 = delete (atom_key (core a)) (atomSet s) -> inv cs C (L ∖ {[h]}) s3.
Proof.
  intros Hinv Hh Hp Ha Hnil O3 Ht Hsix3 Hsz Hset. pose proof (atom_core _ _ _ _ _ _ Hinv Ha) as Hc.
  split; rewrite ?Ht.
  - apply O3.
  - intros k. rewrite (only_incoming_core _ _ _ k O3). apply Hinv.
  - apply static_remove; [apply Hinv|]. intros k.
    by rewrite <- (inv_incoming _ _ _ _ Hinv h a k Hh Ha), Hnil.
  - split; [done| |].
    + intros key q. rewrite Hset, Ht, (oi_map _ _ _ O3). by apply (atomSet_remove cs C L s h p).
    + rewrite Hsz, (ix_size _ _ _ _ (inv_indexed _ _ _ _ Hinv)), size_difference by set_solver.
      rewrite size_singleton. assert (0 < size L)%nat; [|lia].
      destruct (decide (size L = 0)) as [H0|]; [apply size_empty_inv in H0; set_solver|lia].
  - intros x b [Hx _]%elem_of_difference (b0 & l' & Hb0 & -> & _)%(only_incoming_back _ _ _ _ _ O3).
    by apply (inv_table _ _ _ _ Hinv x b0).
  - intros x b k [Hx _]%elem_of_difference (b0 & l' & Hb0 & -> & _ & Ho)%(only_incoming_back _ _ _ _ _ O3).
    cbn [a_incoming set_incoming]. rewrite Ho, (inv_incoming _ _ _ _ Hinv x b0 k Hx Hb0).
    by rewrite (refs_remove cs C L h (core a) k x (inv_static _ _ _ _ Hinv) Hc).
Qed.

Lemma unlink_ok cs string_hash C L s h p a :
  inv cs C L s -> h ∈ L -> handle_map (tlb s) !! h = Some p -> heap (tlb s) !! p = Some a ->
  a_incoming a = [] ->
  exists s', unlink string_hash p h a s = (Ok tt, s') /\ inv cs C (L ∖ {[h]}) s' /\
             unlinked h L s s'.
Proof.
  intros Hinv Hh Hp Hpa Hnil.
  assert (Ha : atomOf (tlb s) h = Some a) by (apply atomOf_Some; eauto).
  pose proof (atom_core _ _ _ _ _ _ Hinv Ha) as Hc.
  pose proof (inv_static _ _ _ _ Hinv) as Hst.
  destruct (hashCode_ok string_hash a (ok_arity _ _ (st_atom _ _ _ Hst h _ Hh Hc))) as [n Hn].
  unfold unlink. step (done).
  step (apply modify_ok; simpl; rewrite Hpa; simpl; rewrite Hn; done).
  set (s1 := set_atomSet _ _).
  destruct (remove_indexes_ok cs C L s1 h (core a) (inv_core _ _ _ _ Hinv) Hst)
    as (s2 & E2 & R2 & Hsix2); [|done|done|].
  { destruct (ix_six _ _ _ _ (inv_indexed _ _ _ _ Hinv)). by split. }
  step (done).
  destruct (remove_incoming_ok h (targets a) s2) as (t3 & E3 & O3); rewrite ?(sr_tlb _ _ R2).
  { apply Hinv. }
  { intros x Hx. destruct (targets_incoming cs C L s h (core a) x Hinv Hh Hc Hx) as (_ & b & Hb & Ho).
    exists b. split; [done|]. change (targets a) with (targets (core a)). by rewrite Ho. }
  exists (set_tlb t3 s2). split; [exact E3|].
  rewrite (sr_tlb _ _ R2) in O3. change (tlb s1) with (tlb s) in O3. split.
  - apply (unlinked_inv cs C L s h p a t3); try done.
    + destruct Hsix2. by split.
    + exact (sr_size _ _ R2).
    + exact (sr_set _ _ R2).
  - split; try apply O3; simpl.
    + intros k. by apply (only_incoming_strip _ _ _ k O3).
    + intros k Hk. pose proof (oi_atom _ _ _ O3 k) as Hat.
      destruct (atomOf (tlb s) k) as [b|]; [|by rewrite Hat].
      destruct Hat as (l' & -> & Hsame & _). rewrite Hsame; [by rewrite set_incoming_same|].
      intros Hkt. destruct (targets_incoming cs C L s h (core a) k Hinv Hh Hc Hkt) as ([HkL Hlt] & _).
      apply Hk, elem_of_difference. split; [done|]. intros ->%elem_of_singleton. lia.
    + exact (sr_iterators _ _ R2).
    + exact (sr_signals _ _ R2).
Qed.
