(* ===== verification/TableRemove.v ===== *)
(** Extraction and removal: AtomTable::extract, remove and
    removeExtractedHandles of src/opencog/atomspace/AtomTable.cc take an atom
    and, when asked to, every link above it out of the table, and keep the
    invariant. *)
From S2P Require Import Prelude ClassServer TruthValue AttentionValue Atom TLB HandleEntry Index IndexSpec AtomTable TableInv.

Definition marked (s : AtomTable) (k : Handle) : Prop :=
  exists a, atomOf (tlb s) k = Some a /\ isMarkedForRemoval a = true.

(** The fields that extraction never touches. *)
Definition strip (a : Atom) : Atom := set_flags 0 (set_incoming [] a).

(** [y] is a live link that refers to [x]. *)
Definition refers (C : Handle -> option Atom) (L : gset Handle) (x y : Handle) : Prop :=
  y ∈ L /\ exists c, C y = Some c /\ x ∈ targets c.
(** The links above an atom, and the atom. *)
Definition above (C : Handle -> option Atom) (L : gset Handle) : Handle -> Handle -> Prop :=
  rtc (refers C L).

(** From [s] to [s'] the handles [rs] have been extracted; [L'] are left. *)
Record extracts (cs : ClassServer) (C : Handle -> option Atom) (L : gset Handle)
    (s : AtomTable) (rs : list Handle) (L' : gset Handle) (s' : AtomTable) : Prop := {
  ex_inv : inv cs C L' s';
  ex_sub : L' ⊆ L;
  ex_map : handle_map (tlb s') = handle_map (tlb s);
  ex_brk : brk_uuid (tlb s') = brk_uuid (tlb s);
  ex_strip : forall k, strip <$> atomOf (tlb s') k = strip <$> atomOf (tlb s) k;
  ex_flags : forall k, k ∈ L' -> a_flags <$> atomOf (tlb s') k = a_flags <$> atomOf (tlb s) k;
  ex_out : forall k, k ∈ L -> k ∉ L' ->
    exists a, atomOf (tlb s') k = Some a /\ isMarkedForRemoval a = true /\ a_incoming a = [];
  ex_dead : forall k, k ∉ L -> atomOf (tlb s') k = atomOf (tlb s) k;
  ex_nodup : NoDup rs;
  ex_elem : forall k, k ∈ rs <-> k ∈ L /\ k ∉ L';
  ex_iterators : iterators s' = iterators s;
  ex_signals : signals s' = signals s;
  ex_order : StronglySorted (fun x y => forall c, C x = Some c -> y ∉ targets c) rs
}.

(** The targets of a live link are live. *)
Lemma targets_live cs C L x y c :
  static cs C L -> x ∈ L -> C x = Some c -> y ∈ targets c -> y ∈ L.
Proof.
  intros Hst Hx Hc Hy. destruct (st_atom _ _ _ Hst x c Hx Hc) as [_ _ Har _].
  rewrite targets_outgoing in Hy by done. by apply (st_closed _ _ _ Hst x c y).
Qed.

Lemma StronglySorted_app_2 {A} (R : A -> A -> Prop) l1 l2 :
  StronglySorted R l1 -> StronglySorted R l2 -> (forall x y, x ∈ l1 -> y ∈ l2 -> R x y) ->
  StronglySorted R (l1 ++ l2).
Proof.
  induction 1 as [|x l1 Hs IH Hx]; intros Hs2 HR; [done|]. constructor.
  - apply IH; [done|]. intros a b Ha. apply HR. by right.
  - apply Forall_app. split; [done|]. apply Forall_forall. intros y Hy. apply HR; [left|done].
Qed.

Lemma extracts_refl cs C L s : inv cs C L s -> extracts cs C L s [] L s.
Proof.
  intros Hinv. split; try done; [constructor| |constructor]. intros k. rewrite elem_of_nil. tauto.
Qed.

Lemma extracts_trans cs C L s r1 L1 s1 r2 L2 s2 :
  extracts cs C L s r1 L1 s1 -> extracts cs C L1 s1 r2 L2 s2 ->
  extracts cs C L s (r2 ++ r1) L2 s2.
Proof.
  intros [I1 S1 M1 B1 T1 F1 O1 D1 N1 E1 J1 G1 R1] [I2 S2 M2 B2 T2 F2 O2 D2 N2 E2 J2 G2 R2].
  split; [done| |congruence|congruence| | | | |  | |congruence|congruence|].
  - set_solver.
  - intros k. by rewrite T2, T1.
  - intros k Hk. rewrite F2, F1; [done| |done]. by apply S2.
  - intros k Hk Hk2. destruct (decide (k ∈ L1)) as [Hk1|Hk1]; [by apply O2|].
    rewrite D2 by done. by apply O1.
  - intros k Hk. rewrite D2, D1; [done|done|]. intros Hk1. apply Hk. by apply S1.
  - apply NoDup_app. split_and!; [done| |done]. intros k [H1 _]%E2 [_ H2]%E1. done.
  - intros k. rewrite elem_of_app, E1, E2. split.
    + intros [[Hk H2]|[Hk H1]]; [split; [by apply S1|done]|]. split; [done|].
      intros Hk2. by apply H1, S2.
    + intros [Hk H2]. destruct (decide (k ∈ L1)); [by left|by right].
  - apply StronglySorted_app_2; [done|done|]. intros x y [Hx _]%E2 [_ Hy]%E1 c Hc Hyc.
    apply Hy. by apply (targets_live cs C L1 x y c (inv_static _ _ _ _ I1)).
Qed.

Section above.
Context (cs : ClassServer) (C : Handle -> option Atom).

Lemma refers_lt L x y : static cs C L -> refers C L x y -> (x < y)%N.
Proof.
  intros Hst (Hy & c & Hc & Hx). destruct (st_atom _ _ _ Hst y c Hy Hc) as [_ _ Har _].
  rewrite targets_outgoing in Hx by done. by apply (st_closed _ _ _ Hst y c x).
Qed.

Lemma above_le L x y : static cs C L -> above C L x y -> (x <= y)%N.
Proof.
  intros Hst H. induction H as [x|x y z Hxy _ IH]; [done|].
  pose proof (refers_lt L x y Hst Hxy). lia.
Qed.

Lemma above_live L x y : above C L x y -> x = y \/ y ∈ L.
Proof. intros [->|(z & _ & [Hy _])]%rtc_inv_r; auto. Qed.

Lemma above_mono L L' x y : L' ⊆ L -> above C L' x y -> above C L x y.
Proof.
  intros Hsub H. induction H as [x|x y z [Hy Hr] _ IH]; [apply rtc_refl|].
  eapply rtc_l; [|exact IH]. split; [by apply Hsub|done].
Qed.

(** Without an upward closed part the rest is reached as before. *)
Lemma above_rest L L' x y :
  L' ⊆ L -> (forall a b, a ∈ L -> a ∉ L' -> refers C L a b -> b ∉ L') ->
  y ∈ L' -> above C L x y -> above C L' x y.
Proof.
  intros Hsub Hup Hy H. revert Hy.
  induction H as [x|x z w Hxz Hzw IH]; intros Hw; [apply rtc_refl|].
  assert (Hz : z ∈ L').
  { destruct (decide (z ∈ L')) as [|Hn]; [done|]. exfalso.
    assert (Hzl : z ∈ L) by apply Hxz. clear Hxz IH.
    induction Hzw as [z|z u w Hzu _ IH]; [done|].
    apply IH; [done|by apply (Hup z u)|apply Hzu]. }
  eapply rtc_l; [|by apply IH]. split; [done|apply Hxz].
Qed.
(** What is above one atom, and then above others in what is left, is above
    one of them all. *)
Lemma above_split L L1 L2 x l :
  x ∈ L -> L1 ⊆ L -> L2 ⊆ L1 -> (forall k, k ∈ L -> k ∉ L1 <-> above C L x k) ->
  (forall k, k ∈ L1 -> k ∉ L2 <-> exists y, y ∈ l /\ y ∈ L1 /\ above C L1 y k) ->
  forall k, k ∈ L -> k ∉ L2 <-> exists y, y ∈ x :: l /\ y ∈ L /\ above C L y k.
Proof.
  intros Hx H1 H2 Hab1 Hab2 k Hk.
  assert (Hup : forall a b, a ∈ L -> a ∉ L1 -> refers C L a b -> b ∉ L1).
  { intros y z HyL Hy1%Hab1 Hyz; [|done]. apply Hab1; [apply Hyz|]. by eapply rtc_r. }
  destruct (decide (k ∈ L1)) as [Hk1|Hk1].
  2: { split; [|set_solver]. intros _. exists x. split; [left|]. split; [done|]. by apply Hab1. }
  rewrite (Hab2 k Hk1). split.
  - intros (y & Hy & Hy1 & Hyk). exists y. split; [by right|]. split; [by apply H1|].
    by apply (above_mono L L1).
  - intros (y & [->|Hy]%elem_of_cons & HyL & Hyk); [by apply Hab1 in Hyk|].
    destruct (decide (y ∈ L1)) as [Hy1|Hy1].
    + exists y. split; [done|]. split; [done|]. by apply (above_rest L L1 y k).
    + exfalso. apply (Hab1 y HyL) in Hy1. apply (Hab1 k Hk); [by etrans|done].
Qed.
End above.

(** Changing the flags of an atom is invisible to the invariant. *)
Lemma flags_ok cs C L s h a f :
  inv cs C L s -> atomOf (tlb s) h = Some a ->
  exists t', on_tlb (on_atom h (fun a => Ok (set_flags (f a) a))) s = (Ok tt, set_tlb t' s) /\
    inv cs C L (set_tlb t' s) /\ handle_map t' = handle_map (tlb s) /\
    brk_uuid t' = brk_uuid (tlb s) /\
    (forall k, atomOf t' k = if decide (k = h) then Some (set_flags (f a) a)
                             else atomOf (tlb s) k).
Proof.
  intros Hinv Ha.
  destruct (on_atom_ok (tlb s) h (fun a => Ok (set_flags (f a) a)) a _ (inv_tlb _ _ _ _ Hinv) Ha eq_refl)
    as (t' & Ht' & Hwf' & Hm & Hb & Hat); [done|].
  exists t'. split; [unfold on_tlb; apply modify_ok; by rewrite Ht'|].
  split; [|done]. apply inv_store; [done..|]. intros k. rewrite Hat.
  destruct (decide (k = h)) as [->|]; [rewrite Ha; by exists (f a), (a_truthValue a); destruct a|].
  destruct (atomOf (tlb s) k) as [b|]; [|done].
  exists (a_flags b), (a_truthValue b). by destruct b.
Qed.

(** A number that bounds the depth of the recursion from [h] upwards. *)
Definition height (L : gset Handle) (h : Handle) : nat := size (filter (fun k => (h <= k)%N) L).

Lemma height_lt L L' h x : L' ⊆ L -> h ∈ L -> (h < x)%N -> (height L' x < height L h)%nat.
Proof.
  intros Hsub Hh Hlt. unfold height. apply subset_size. split.
  - intros k [Hk Hkl]%elem_of_filter. apply elem_of_filter. split; [lia|by apply Hsub].
  - intros Hs. assert (Hin : h ∈ filter (fun k => (x <= k)%N) L').
    { apply Hs, elem_of_filter. split; [lia|done]. }
    apply elem_of_filter in Hin as [? _]. lia.
Qed.

Lemma height_mono L L' h : L' ⊆ L -> (height L' h <= height L h)%nat.
Proof.
  intros Hsub. apply subseteq_size. intros k. rewrite !elem_of_filter. intros [? ?]. auto.
Qed.

Lemma height_pos L h : h ∈ L -> (0 < height L h)%nat.
Proof.
  intros Hh. unfold height.
  assert (Hin : h ∈ filter (fun k => (h <= k)%N) L) by (apply elem_of_filter; split; [lia|done]).
  destruct (decide (size (filter (fun k => (h <= k)%N) L) = 0)) as [H0|]; [|lia].
  apply size_empty_inv in H0. set_solver.
Qed.

Lemma fmap_flags (o o' : option Atom) :
  set_incoming [] <$> o' = set_incoming [] <$> o ->
  a_flags <$> o' = a_flags <$> o /\ strip <$> o' = strip <$> o.
Proof.
  intros H. change a_flags with (a_flags ∘ set_incoming []).
  change strip with (set_flags 0 ∘ set_incoming []).
  rewrite !option_fmap_compose, H. done.
Qed.

Lemma strip_flags f a : strip (set_flags f a) = strip a.
Proof. done. Qed.

Lemma marked_flags s s' k :
  a_flags <$> atomOf (tlb s') k = a_flags <$> atomOf (tlb s) k -> marked s' k -> marked s k.
Proof.
  intros Hf (a' & Ha' & Hm). rewrite Ha' in Hf. simpl in Hf. symmetry in Hf.
  apply fmap_Some in Hf as (a & Ha & Hfl). exists a. split; [done|].
  unfold isMarkedForRemoval, getFlag in *. by rewrite <- Hfl.
Qed.

(** Marking, extracting above and unlinking together extract. *)
Lemma extracts_finish cs C L s t1 rs L1 s2 s3 h a a2 :
  h ∈ L -> atomOf (tlb s) h = Some a ->
  handle_map t1 = handle_map (tlb s) -> brk_uuid t1 = brk_uuid (tlb s) ->
  (forall k, atomOf t1 k = if decide (k = h) then Some (markForRemoval a) else atomOf (tlb s) k) ->
  extracts cs C L (set_tlb t1 s) rs L1 s2 -> h ∈ L1 ->
  atomOf (tlb s2) h = Some a2 -> a_incoming a2 = [] ->
  inv cs C (L1 ∖ {[h]}) s3 -> unlinked h L1 s2 s3 ->
  extracts cs C L s (h :: rs) (L1 ∖ {[h]}) s3.
Proof.
  intros HhL Ha Hm1 Hb1 Hat1 Hex Hh1 Ha2 Hnil Hinv3 Hul.
  destruct Hex as [Hinv1 S M B T F O D N E J G R], Hul as [UM UB UA UD UI US]. simpl in *.
  split.
  - done.
  - set_solver.
  - congruence.
  - congruence.
  - intros k. destruct (fmap_flags _ _ (UA k)) as [_ ->]. rewrite T, Hat1.
    case_decide; [|done]. subst. by rewrite Ha.
  - intros k Hk. destruct (fmap_flags _ _ (UA k)) as [-> _].
    rewrite F by set_solver. rewrite Hat1, decide_False by set_solver. done.
  - intros k Hk Hk1. rewrite UD by done. destruct (decide (k = h)) as [->|Hne].
    + exists a2. split; [done|]. split; [|done]. specialize (F h Hh1).
      rewrite Ha2, Hat1, decide_True in F by done. injection F as F.
      unfold isMarkedForRemoval, getFlag. rewrite F. apply (marked_markForRemoval a).
    + apply O; [done|]. intros Hk2. apply Hk1. set_solver.
  - intros k Hk. rewrite UD by set_solver. rewrite D by done.
    rewrite Hat1, decide_False; [done|]. by intros ->.
  - apply NoDup_cons. split; [|done]. by intros [_ ?]%E.
  - intros k. rewrite elem_of_cons, E, elem_of_difference, elem_of_singleton.
    destruct (decide (k = h)) as [->|]; tauto.
  - congruence.
  - congruence.
  - constructor; [done|]. apply Forall_forall. intros y [_ Hy]%E c Hc Hyc.
    apply Hy. by apply (targets_live cs C L1 h y c (inv_static _ _ _ _ Hinv1)).
Qed.

Section extract.
Context (cs : ClassServer) (string_hash : string -> N) (C : Handle -> option Atom).

(** What one call of [extract] with the recursive flag does. *)
Definition extract_spec (fuel : nat) : Prop := forall L s h,
  inv cs C L s -> h ∈ L -> ~ marked s h ->
  (forall m, m ∈ L -> marked s m -> (m < h)%N) -> (height L h <= fuel)%nat ->
  exists rs L' s', extract string_hash fuel true h s = (Ok rs, s') /\
    extracts cs C L s rs L' s' /\
    forall k, k ∈ L -> k ∉ L' <-> above C L h k.

(** The loop over the incoming links, some of which may be gone already. *)
Lemma extract_each_ok fuel is_ :
  extract_spec fuel -> forall L s result,
  inv cs C L s -> (forall x, x ∈ is_ -> (height L x <= fuel)%nat) ->
  (forall x, x ∈ is_ -> x ∈ L \/ marked s x) ->
  (forall m x, m ∈ L -> marked s m -> x ∈ is_ -> (m < x)%N) ->
  exists rs L' s',
    extract_each (extract string_hash fuel true) is_ result s = (Ok (rs ++ result), s') /\
    extracts cs C L s rs L' s' /\
    forall k, k ∈ L -> k ∉ L' <-> exists x, x ∈ is_ /\ x ∈ L /\ above C L x k.
Proof.
  intros IH. induction is_ as [|x is_ IHl]; intros L s result Hinv Hht Hor Hlt.
  { exists [], L, s. split; [done|]. split; [by apply extracts_refl|].
    intros k Hk. split; [done|]. intros (y & Hy & _). by apply not_elem_of_nil in Hy. }
  cbn [extract_each].
  assert (Hat : exists b, atomOf (tlb s) x = Some b).
  { destruct (Hor x ltac:(left)) as [Hx|(b & Hb & _)]; [|eauto].
    destruct (live_atom _ _ _ _ _ Hinv Hx) as (b & _ & Hb & _). eauto. }
  destruct Hat as [b Hb]. step (unfold reads; rewrite Hb; done).
  destruct (decide (x ∈ L)) as [Hx|Hx].
  - assert (Hnm : isMarkedForRemoval b = false).
    { destruct (isMarkedForRemoval b) eqn:E; [|done].
      assert (x < x)%N; [|lia]. apply Hlt; [done| |left]. exists b. done. }
    rewrite Hnm.
    destruct (IH L s x Hinv Hx) as (r1 & L1 & s1 & E1 & X1 & Hab1).
    { intros (b' & Hb' & Hm). simplify_eq. congruence. }
    { intros m Hm Hmm. apply Hlt; [done|done|left]. }
    { apply Hht. left. }
    step (exact E1).
    destruct (IHl L1 s1 (HE.concatenation r1 result)) as (r2 & L2 & s2 & E2 & X2 & Hab2).
    + apply X1.
    + intros y Hy. etrans; [|apply Hht; by right]. apply height_mono, X1.
    + intros y Hy. destruct (Hor y ltac:(by right)) as [HyL|(c & Hc & Hm)].
      * destruct (decide (y ∈ L1)) as [|Hy1]; [by left|]. right.
        destruct (ex_out _ _ _ _ _ _ _ X1 y HyL Hy1) as (c & Hc & Hm & _). by exists c.
      * right. destruct (decide (y ∈ L)) as [HyL|HyL].
        -- assert (y < y)%N; [|lia]. apply Hlt; [done|by exists c|by right].
        -- exists c. by rewrite (ex_dead _ _ _ _ _ _ _ X1 y HyL).
    + intros m y Hm Hmm Hy. apply Hlt; [by apply (ex_sub _ _ _ _ _ _ _ X1)| |by right].
      by apply (marked_flags s s1 m (ex_flags _ _ _ _ _ _ _ X1 m Hm)).
    + exists (r2 ++ r1), L2, s2. split.
      { rewrite E2, HE_concatenation_app. by rewrite (assoc_L (++)). }
      split; [by apply (extracts_trans _ _ _ _ _ L1 s1)|].
      apply (above_split C L L1 L2); [done|apply X1|apply X2|done..].
  - destruct (Hor x ltac:(left)) as [|(b' & Hb' & Hm)]; [done|]. simplify_eq. rewrite Hm.
    destruct (IHl L s result Hinv) as (r2 & L2 & s2 & E2 & X2 & Hab2).
    + intros y Hy. apply Hht. by right.
    + intros y Hy. apply Hor. by right.
    + intros m y ? ? ?. apply Hlt; [done|done|by right].
    + exists r2, L2, s2. split; [done|]. split; [done|]. intros k Hk. rewrite (Hab2 k Hk).
      split; intros (y & Hy & HyL & Hyk); exists y.
      * split; [by right|done].
      * apply elem_of_cons in Hy as [->|Hy]; done.
Qed.

(** The live links that refer to an atom are those in its incoming set. *)
Lemma incoming_refers L s h a x :
  inv cs C L s -> h ∈ L -> atomOf (tlb s) h = Some a ->
  x ∈ a_incoming a <-> refers C L h x.
Proof.
  intros Hinv Hh Ha. rewrite occ_pos, (inv_incoming _ _ _ _ Hinv h a x Hh Ha).
  unfold refs, refers. split.
  - case_decide as Hx; [|lia]. destruct (C x) as [c|]; [|lia]. intros Ho.
    split; [done|]. exists c. split; [done|]. by apply occ_pos.
  - intros (Hx & c & Hc & Ht). rewrite decide_True, Hc by done. by apply occ_pos.
Qed.

Lemma elem_of_incoming_set l x : x ∈ sort_handles (remove_dups l) <-> x ∈ l.
Proof. by rewrite sort_handles_perm, elem_of_remove_dups. Qed.

Lemma extract_ok fuel : extract_spec fuel.
Proof.
  induction fuel as [|fuel IH]; intros L s h Hinv Hh Hnm Hlt Hfuel.
  { pose proof (height_pos L h Hh). lia. }
  destruct (live_atom _ _ _ _ _ Hinv Hh) as (a & c & Ha & Hc & Hac & Hok).
  pose proof Ha as Hpa. apply atomOf_Some in Hpa as (p & Hp & Hpa).
  cbn [extract]. step (done). unfold getAtom. rewrite Hp.
  step (unfold reads; rewrite Hpa; done).
  destruct (isMarkedForRemoval a) eqn:Em; [exfalso; apply Hnm; by exists a|].
  destruct (flags_ok cs C L s h a (fun a => N.lor (a_flags a) MARKED_FOR_REMOVAL) Hinv Ha)
    as (t1 & E1 & Hinv1 & Hm1 & Hb1 & Hat1).
  step (exact E1).
  assert (Hin : forall x, x ∈ sort_handles (remove_dups (a_incoming a)) <-> refers C L h x).
  { intros x. rewrite elem_of_incoming_set. by apply (incoming_refers L s). }
  assert (Hst : static cs C L) by apply Hinv.
  destruct (extract_each_ok fuel (sort_handles (remove_dups (a_incoming a))) IH L
              (set_tlb t1 s) [] Hinv1) as (rs & L1 & s2 & E2 & X2 & Hab).
  { intros x Hx%Hin. pose proof (height_lt L L h x (reflexivity _) Hh (refers_lt cs C L h x Hst Hx)).
    lia. }
  { intros x Hx%Hin. left. apply Hx. }
  { intros m x Hm (b & Hb & Hbm) Hx%Hin. pose proof (refers_lt cs C L h x Hst Hx).
    simpl in Hb. rewrite Hat1 in Hb. case_decide as Hmh; [by subst|].
    assert (m < h)%N; [|lia]. apply Hlt; [done|]. by exists b. }
  assert (Hh1 : h ∈ L1).
  { destruct (decide (h ∈ L1)) as [|Hn]; [done|]. exfalso.
    apply (Hab h Hh) in Hn as (x & Hx%Hin & HxL & Hxh).
    pose proof (refers_lt cs C L h x Hst Hx). pose proof (above_le cs C L x h Hst Hxh). lia. }
  step (exact E2).
  destruct (live_atom cs C L1 s2 h (ex_inv _ _ _ _ _ _ _ X2) Hh1)
    as (a2 & c2 & Ha2 & Hc2 & Hac2 & _).
  assert (Hp2 : handle_map (tlb s2) !! h = Some p).
  { rewrite (ex_map _ _ _ _ _ _ _ X2). simpl. by rewrite Hm1. }
  assert (Hpa2 : heap (tlb s2) !! p = Some a2).
  { apply atomOf_Some in Ha2 as (q & Hq & Hqa). by simplify_eq. }
  step (unfold reads; rewrite Hpa2; done).
  assert (Hnil : a_incoming a2 = []).
  { apply occ_all_0. intros k. apply occ_0. intros Hk.
    apply (incoming_refers L1 s2 h a2 k (ex_inv _ _ _ _ _ _ _ X2) Hh1 Ha2) in Hk.
    destruct Hk as [Hk Hr].
    assert (HkL : k ∈ L) by by apply (ex_sub _ _ _ _ _ _ _ X2).
    apply (proj2 (Hab k HkL)); [|done]. exists k. split; [by apply Hin|]. split; [done|].
    apply rtc_refl. }
  rewrite Hnil.
  destruct (unlink_ok cs string_hash C L1 s2 h p a2 (ex_inv _ _ _ _ _ _ _ X2) Hh1 Hp2 Hpa2 Hnil)
    as (s3 & E3 & Hinv3 & Hul).
  step (exact E3).
  exists (h :: rs), (L1 ∖ {[h]}), s3. split; [by rewrite app_nil_r|]. split.
  { by apply (extracts_finish cs C L s t1 rs L1 s2 s3 h a a2). }
  intros k Hk. rewrite elem_of_difference, elem_of_singleton. split.
  - intros Hn. destruct (decide (k = h)) as [->|Hne]; [apply rtc_refl|].
    assert (Hk1 : k ∉ L1) by tauto. apply (Hab k Hk) in Hk1 as (x & Hx%Hin & _ & Hxk).
    eapply rtc_l; [exact Hx|exact Hxk].
  - intros Habove [Hk1 Hne]. apply rtc_inv in Habove as [->|(x & Hx & Hxk)]; [done|].
    apply (proj2 (Hab k Hk)); [|done]. exists x. split; [by apply Hin|].
    split; [apply Hx|done].
Qed.

(** An unwanted extraction changes nothing. *)
Lemma extract_nonrecursive fuel L s h a :
  inv cs C L s -> atomOf (tlb s) h = Some a -> isMarkedForRemoval a = false ->
  a_incoming a <> [] -> (forall x, x ∈ a_incoming a -> is_Some (atomOf (tlb s) x)) ->
  extract string_hash (S fuel) false h s = (Ok [], s).
Proof.
  intros Hinv Ha Hm Hne Hinc.
  pose proof Ha as Hpa. apply atomOf_Some in Hpa as (p & Hp & Hpa).
  cbn [extract]. step (done). unfold getAtom. rewrite Hp.
  step (unfold reads; rewrite Hpa; done). rewrite Hm.
  assert (Hon : forall f s0 a0, handle_map (tlb s0) !! h = Some p -> heap (tlb s0) !! p = Some a0 ->
    on_tlb (on_atom h (fun a => Ok (f a))) s0 = (Ok tt, set_tlb (set_atom p (f a0) (tlb s0)) s0)).
  { intros f s0 a0 H1 H2. unfold on_tlb. apply modify_ok. unfold on_atom, getAtom.
    rewrite H1. simpl. rewrite H2. done. }
  step (apply Hon; done).
  step (done).
  step (unfold reads; simpl; rewrite lookup_insert_eq; done).
  cbn [a_incoming markForRemoval set_flags].
  destruct (a_incoming a) as [|x l] eqn:Ei; [done|].
  set (s1 := set_tlb _ s).
  assert (Hall : forall l', (forall y, y ∈ l' -> y ∈ a_incoming a) ->
    foreach (fun x => _ ← reads (fun s => of_opt (atomOf (tlb s) x)); mret tt) l' s1 = (Ok tt, s1)).
  { induction l' as [|y l' IHl]; intros Hl'; [done|]. cbn [foreach].
    destruct (Hinc y) as [b Hb]; [rewrite <- Ei; apply Hl'; left|].
    assert (Hb1 : is_Some (atomOf (tlb s1) y)).
    { unfold s1. simpl. rewrite (atomOf_set_atom _ h) by (done || apply Hinv). case_decide; eauto. }
    destruct Hb1 as [b1 Hb1].
    step (step (unfold reads; rewrite Hb1; done); done).
    apply IHl. intros z Hz. apply Hl'. by right. }
  step (apply Hall; intros y; rewrite Ei; done).
  step (apply Hon; unfold s1; simpl; [done|by rewrite lookup_insert_eq]).
  f_equal. unfold s1. destruct s as [[hp hm bk] ? ? ? ? ? ? ? ? ? ?]. unfold set_tlb, set_atom. simpl in *.
  rewrite unset_mark by done. rewrite insert_insert_eq, insert_id by done. done.
Qed.
End extract.

(** ** The extracted atoms are deleted *)
Lemma forget_ok cs L s h a :
  inv cs (coreOf (tlb s)) L s -> h ∉ L -> atomOf (tlb s) h = Some a -> a_incoming a = [] ->
  exists t', removeExtracted h s = (Ok tt, emit (RemoveAtomSignal h) (set_tlb t' s)) /\
    inv cs (coreOf t') L (emit (RemoveAtomSignal h) (set_tlb t' s)) /\
    handle_map t' = delete h (handle_map (tlb s)) /\ brk_uuid t' = brk_uuid (tlb s) /\
    (forall k, atomOf t' k = if decide (k = h) then None else atomOf (tlb s) k).
Proof.
  intros Hinv Hh Ha Hnil. pose proof (inv_tlb _ _ _ _ Hinv) as Hwf.
  pose proof Ha as Hpa. apply atomOf_Some in Hpa as (p & Hp & Hpa).
  destruct (TLB_removeAtom_ok (tlb s) h p a Hwf Hp Hpa) as (t1 & E1 & Hwf1 & Hm1 & Hb1 & Hhp1 & Hat1).
  set (t2 := mkTLB (delete p (heap t1)) (handle_map t1) (brk_uuid t1)).
  assert (E2 : delete_atom p t1 = Ok t2).
  { unfold delete_atom. replace (heap t1 !! p) with (Some (set_handle UNDEFINED a))
      by by rewrite Hhp1, lookup_insert_eq.
    simpl. by rewrite Hnil. }
  assert (Hnp : forall k q, handle_map t1 !! k = Some q -> q <> p).
  { intros k q Hk ->. rewrite Hm1 in Hk. apply lookup_delete_Some in Hk as [Hne Hk].
    apply Hne. by apply (handle_map_inj (tlb s) h k p). }
  assert (Hat2 : forall k, atomOf t2 k = if decide (k = h) then None else atomOf (tlb s) k).
  { intros k. rewrite <- Hat1. unfold atomOf, getAtom. simpl.
    destruct (handle_map t1 !! k) as [q|] eqn:Hk; [|done]. simpl.
    rewrite lookup_delete_ne; [done|]. intros ->. by apply (Hnp k q). }
  exists t2. split.
  { unfold removeExtracted. step (done).
    step (unfold reads; simpl; unfold getAtom; rewrite Hp; done).
    step (unfold on_tlb; apply modify_ok; simpl; rewrite E1; done).
    unfold on_tlb. apply modify_ok. simpl. by rewrite E2. }
  split; [|by split_and!].
  assert (HC : forall k, k ∈ L -> coreOf (tlb s) k = coreOf t2 k).
  { intros k Hk. unfold coreOf. rewrite Hat2, decide_False; [done|]. by intros ->. }
  destruct Hinv as [_ _ Hst Hidx Htab Hinc]. split.
  - split; simpl; [|apply Hwf1..]. intros k q Hk. rewrite lookup_delete_ne.
    + by apply (twf_live _ Hwf1).
    + intros <-. by apply (Hnp k p).
  - done.
  - by apply (static_ext _ (coreOf (tlb s))).
  - apply (indexed_ext _ (coreOf (tlb s))); [done..|]. destruct Hidx as [H1 H2 H3].
    split; [by destruct H1| |done]. intros key q. simpl. rewrite H2, Hm1.
    split; intros (k & c & Hk & Hq & Hr); exists k, c; (split; [done|]); (split; [|done]).
    + rewrite lookup_delete_ne; [done|]. by intros ->.
    + by apply lookup_delete_Some in Hq as [_ Hq].
  - intros k b Hk Hb. apply (Htab k b); [done|]. simpl in Hb. rewrite Hat2 in Hb. by case_decide.
  - intros k b x Hk Hb. rewrite <- (refs_ext (coreOf (tlb s)) (coreOf t2)) by done.
    apply Hinc; [done|]. simpl in Hb. rewrite Hat2 in Hb. by case_decide.
Qed.

Lemma removeExtracted_all_ok cs L l : NoDup l -> forall s,
  inv cs (coreOf (tlb s)) L s ->
  (forall k, k ∈ l -> (k ∉ L) /\ exists a, atomOf (tlb s) k = Some a /\ a_incoming a = []) ->
  exists s', foreach removeExtracted l s = (Ok tt, s') /\
    inv cs (coreOf (tlb s')) L s' /\
    dom (handle_map (tlb s')) = dom (handle_map (tlb s)) ∖ list_to_set l /\
    brk_uuid (tlb s') = brk_uuid (tlb s) /\ iterators s' = iterators s /\
    (forall k, atomOf (tlb s') k = if decide (k ∈ l) then None else atomOf (tlb s) k) /\
    signals s' = signals s ++ map RemoveAtomSignal l.
Proof.
  induction 1 as [|h l Hh Hnd IH]; intros s Hinv Hl; cbn [foreach].
  { exists s. split; [done|]. split; [done|]. split; [set_solver|].
    do 2 (split; [done|]). split; [|by rewrite app_nil_r].
    intros k. rewrite decide_False; [done|apply not_elem_of_nil]. }
  destruct (Hl h ltac:(left)) as (HhL & a & Ha & Hnil).
  destruct (forget_ok cs L s h a Hinv HhL Ha Hnil) as (t1 & E1 & Hinv1 & Hm1 & Hb1 & Hat1).
  step (exact E1). set (s1 := emit _ _) in *.
  destruct (IH s1 Hinv1) as (s' & E2 & Hinv' & Hdom & Hb & Hit & Hat & Hsig).
  { intros k Hk. destruct (Hl k ltac:(by right)) as (HkL & b & Hb & Hbn). split; [done|].
    exists b. split; [|done]. simpl. rewrite Hat1, decide_False; [done|]. by intros ->. }
  exists s'. split; [done|]. split; [done|]. split.
  { rewrite Hdom. simpl. rewrite Hm1, dom_delete_L. set_solver. }
  split; [by rewrite Hb|]. split; [done|]. split.
  { intros k. rewrite Hat. change (tlb s1) with t1. rewrite Hat1.
    destruct (decide (k = h)) as [->|Hne].
    - rewrite (decide_True (P := h ∈ h :: l)) by left. by case_decide.
    - apply decide_ext. rewrite elem_of_cons. tauto. }
  rewrite Hsig. simpl. by rewrite <- (assoc_L (++)).
Qed.

(** ** The operation [remove] *)

(** From [s] to [s'] exactly the atoms [rs] have been removed, in the order of
    the signals; the atoms that are left differ in incoming sets only. *)
Record removes (cs : ClassServer) (s : AtomTable) (rs : list Handle) (s' : AtomTable) : Prop := {
  rm_wf : table_wf cs s';
  rm_nodup : NoDup rs;
  rm_live : live s' = live s ∖ list_to_set rs;
  rm_rest : forall k, k ∈ live s' ->
    set_incoming [] <$> atomOf (tlb s') k = set_incoming [] <$> atomOf (tlb s) k;
  rm_brk : brk_uuid (tlb s') = brk_uuid (tlb s);
  rm_iterators : iterators s' = iterators s;
  rm_signals : signals s' = signals s ++ map RemoveAtomSignal rs
}.

Lemma strip_inj (o o' : option Atom) :
  strip <$> o' = strip <$> o -> a_flags <$> o' = a_flags <$> o ->
  set_incoming [] <$> o' = set_incoming [] <$> o.
Proof.
  destruct o as [[]|], o' as [[]|]; try done. unfold strip. simpl.
  intros [= -> -> -> -> -> ->] [= ->]. done.
Qed.

Lemma list_to_set_rev (l : list Handle) : list_to_set (rev l) =@{gset Handle} list_to_set l.
Proof. rewrite rev_reverse. apply list_to_set_perm_L, reverse_Permutation. Qed.

Lemma removes_extracted cs C s rs L' s1 :
  table_wf cs s -> extracts cs C (live s) s rs L' s1 ->
  exists s', removeExtractedHandles rs s1 = (Ok tt, s') /\ removes cs s (rev rs) s'.
Proof.
  intros Hwf X.
  assert (Hdead : live s = L' ∪ list_to_set rs).
  { apply set_eq. intros k. rewrite elem_of_union, elem_of_list_to_set, (ex_elem _ _ _ _ _ _ _ X).
    pose proof (ex_sub _ _ _ _ _ _ _ X k). destruct (decide (k ∈ L')); tauto. }
  assert (Hdisj : L' ## list_to_set rs).
  { intros k Hk [_ ?]%elem_of_list_to_set%(ex_elem _ _ _ _ _ _ _ X). done. }
  destruct (removeExtracted_all_ok cs L' (rev rs)) with (s := s1)
    as (s' & E & Hinv & Hdom & Hb & Hit & Hat & Hsig).
  { apply NoDup_rev, X. }
  { apply (inv_view cs C), X. }
  { intros k Hk. rewrite elem_of_rev in Hk.
    apply (ex_elem _ _ _ _ _ _ _ X) in Hk as [Hk Hn]. split; [done|].
    destruct (ex_out _ _ _ _ _ _ _ X k Hk Hn) as (a & Ha & _ & Hnil). eauto. }
  assert (Hlive : live s' = L').
  { unfold live. rewrite Hdom, (ex_map _ _ _ _ _ _ _ X). fold (live s). rewrite Hdead.
    rewrite list_to_set_rev. set_solver. }
  assert (Hrest : forall k, k ∈ L' -> set_incoming [] <$> atomOf (tlb s') k =
                                      set_incoming [] <$> atomOf (tlb s) k).
  { intros k Hk. rewrite Hat, decide_False.
    - apply strip_inj; [apply (ex_strip _ _ _ _ _ _ _ X)|by apply (ex_flags _ _ _ _ _ _ _ X)].
    - rewrite elem_of_rev, (ex_elem _ _ _ _ _ _ _ X). tauto. }
  exists s'. split; [unfold removeExtractedHandles; by rewrite HE_toHandleVector_id|]. split.
  - split; [by rewrite Hlive|]. intros k a Ha.
    assert (Hk : k ∈ L').
    { rewrite <- Hlive. apply elem_of_dom, atomOf_getAtom; [apply Hinv|eauto]. }
    specialize (Hrest k Hk). rewrite Ha in Hrest. symmetry in Hrest.
    apply fmap_Some in Hrest as (b & Hb0 & Heq).
    change (isMarkedForRemoval (set_incoming [] a) = false). rewrite Heq.
    exact (tw_marks _ _ Hwf k b Hb0).
  - apply NoDup_rev, X.
  - rewrite Hlive, Hdead, list_to_set_rev. set_solver.
  - by rewrite Hlive.
  - rewrite Hb. apply X.
  - rewrite Hit. apply X.
  - rewrite Hsig. f_equal. apply X.
Qed.
