(* ===== verification/TableAdd.v ===== *)
(** Creation and addition: the constructor and AtomTable::add of
    src/opencog/atomspace/AtomTable.cc keep the invariant of TableInv.v. *)
From S2P Require Import Prelude ClassServer TruthValue AttentionValue Atom TLB HandleEntry Index IndexSpec AtomTable TableInv.

(** ** The empty table *)
Lemma TLB_empty_wf : TLB_wf TLB_empty.
Proof.
  split; simpl; [|done| |unfold UNDEFINED; lia].
  - intros h p. by rewrite lookup_empty.
  - intros h. rewrite lookup_empty. by intros [].
Qed.

Lemma keyed_empty {K} `{Countable K} (key : Atom -> option K) n C :
  keyed_exact key n C ∅ (list.resize (N.to_nat n) ∅ []).
Proof.
  split; [by rewrite length_resize|]. intros ty k h. split.
  - unfold lookup2. rewrite resize_nil.
    destruct (replicate _ _ !! _) as [m|] eqn:E; [|done]. simpl.
    apply lookup_replicate in E as [-> _]. by rewrite lookup_empty.
  - by intros [?%not_elem_of_empty _].
Qed.

Lemma fixed_empty len P v :
  sv_len v = len -> sv_cells v = ∅ -> fixed_exact len P ∅ v.
Proof.
  intros Hl Hc. split; [done|]. intros i h. unfold sv_get. rewrite Hc, lookup_empty. simpl.
  set_solver.
Qed.

Lemma AtomTable_new_inv cs : table_wf cs (AtomTable_new cs TLB_empty).
Proof.
  assert (Hlive : live (AtomTable_new cs TLB_empty) = ∅) by apply dom_empty_L.
  split; [|intros h a (p & Hp & _)%atomOf_Some; simpl in Hp; by rewrite lookup_empty in Hp].
  rewrite Hlive. split.
  - apply TLB_empty_wf.
  - done.
  - split; intros h; [|intros c|intros c x]; by intros ?%not_elem_of_empty.
  - split; [split| |done].
    + apply keyed_empty.
    + apply keyed_empty.
    + split; [done|]. by apply fixed_empty.
    + split; [done|]. by apply fixed_empty.
    + by apply fixed_empty.
    + split; [done|done|simpl; lia|]. intros i h. unfold sv_get. simpl.
      rewrite map_filter_empty, lookup_empty. simpl. by intros ?%not_elem_of_empty.
    + intros key p. simpl. rewrite lookup_empty. split; [done|].
      intros (h & c & ?%not_elem_of_empty & _). done.
  - intros h a ?%not_elem_of_empty. done.
  - intros h a k ?%not_elem_of_empty. done.
Qed.

(** A new table on an empty store is well-formed: every index is as long as
    the class server demands and holds nothing, and the table is cleared. *)
Theorem AtomTable_new_wf cs hasNext :
  table_wf cs (AtomTable_new cs TLB_empty) /\
  live (AtomTable_new cs TLB_empty) = ∅ /\
  isCleared (AtomTable_new cs TLB_empty) hasNext = true.
Proof.
  split; [apply AtomTable_new_inv|]. split; [apply dom_empty_L|].
  unfold isCleared, FixedIntegerIndex.size. simpl. rewrite !map_filter_empty. done.
Qed.

(** ** Finding an atom *)

(** The same type and the same name or outgoing set. *)
Definition same_atom (a b : Atom) : Prop :=
  a_type a = a_type b /\ node_key a = node_key b /\ link_key a = link_key b.

Section find.
Context (cs : ClassServer).

Lemma keyed_get {K} `{Countable K} (key : Atom -> option K) n C L ix ty k :
  keyed_exact key n C L ix -> (ty < n)%N ->
  exists m, ix !! N.to_nat ty = Some m /\ forall h, m !! k = Some h <->
    h ∈ L /\ exists a, C h = Some a /\ a_type a = ty /\ key a = Some k.
Proof.
  intros [Hlen Hex] Hty.
  destruct (lookup_lt_is_Some_2 ix (N.to_nat ty)) as [m Hm]; [lia|].
  exists m. split; [done|]. intros h. rewrite <- (Hex ty k h). unfold lookup2. by rewrite Hm.
Qed.

(** The lookup of an atom finds the live atom that equals it, if any. *)
Lemma getHandle_atom_ok s a :
  table_wf cs s -> (a_type a < nTypes cs)%N ->
  (exists h b, getHandle_atom a s = Ok h /\ atomOf (tlb s) h = Some b /\ same_atom a b) \/
  (getHandle_atom a s = Ok UNDEFINED /\
   forall h b, atomOf (tlb s) h = Some b -> ~ same_atom a b).
Proof.
  intros Hwf Hty. pose proof (tw_inv _ _ Hwf) as Hinv.
  pose proof (ix_six _ _ _ _ (inv_indexed _ _ _ _ Hinv)) as Hsix.
  assert (Hlive : forall h b, atomOf (tlb s) h = Some b -> h ∈ live s /\ coreOf (tlb s) h = Some (core b)).
  { intros h b Hb. rewrite (elem_of_live cs) by done. unfold coreOf. rewrite Hb. eauto. }
  assert (Hback : forall h c, coreOf (tlb s) h = Some c ->
    exists b, atomOf (tlb s) h = Some b /\ c = core b).
  { intros h c (b & Hb & <-)%coreOf_Some. eauto. }
  unfold getHandle_atom. destruct (a_body a) as [n|o tr] eqn:Eb.
  - unfold getHandle_name, NodeIndex.getHandle, StringIndex.get.
    assert (Hk : node_key a = Some (c_str n) /\ link_key a = None).
    { unfold node_key, link_key, isNodeObj, isLinkObj, getName. by rewrite Eb. }
    destruct Hk as [Hk Hl].
    destruct (keyed_get node_key _ _ _ _ (a_type a) (c_str n) (ix_node _ _ _ _ Hsix) Hty)
      as (m & -> & Hm).
    rewrite c_str_idem. destruct (m !! c_str n) as [h|] eqn:E.
    + left. destruct (proj1 (Hm h) eq_refl) as (_ & c & (b & Hb & ->)%Hback & Ht & Hkb).
      exists h, b. split_and!; try done. change (node_key (core b)) with (node_key b) in Hkb.
      destruct (key_class b) as [(k & Hkb' & Hlb)|(k & Hlb & Hkb')]; [|congruence].
      split_and!; [exact (eq_sym Ht)|congruence..].
    + right. split; [done|]. intros h b Hb (Ht & Hkab & _).
      destruct (Hlive h b Hb) as [HL Hc].
      assert (None = Some h); [|done]. apply Hm. split; [done|].
      exists (core b). split_and!; try done. change (node_key (core b)) with (node_key b).
      congruence.
  - unfold getHandle_seq, LinkIndex.getHandle, HandleSeqIndex.get.
    assert (Hk : link_key a = Some o /\ node_key a = None).
    { unfold node_key, link_key, isNodeObj, isLinkObj, outgoing. by rewrite Eb. }
    destruct Hk as [Hk Hl].
    destruct (keyed_get link_key _ _ _ _ (a_type a) o (ix_link _ _ _ _ Hsix) Hty)
      as (m & -> & Hm).
    destruct (m !! o) as [h|] eqn:E.
    + left. destruct (proj1 (Hm h) eq_refl) as (_ & c & (b & Hb & ->)%Hback & Ht & Hkb).
      exists h, b. split_and!; try done. change (link_key (core b)) with (link_key b) in Hkb.
      destruct (key_class b) as [(k & Hkb' & Hlb)|(k & Hlb & Hkb')]; [congruence|].
      split_and!; [exact (eq_sym Ht)|congruence..].
    + right. split; [done|]. intros h b Hb (Ht & _ & Hkab).
      destruct (Hlive h b Hb) as [HL Hc].
      assert (None = Some h); [|done]. apply Hm. split; [done|].
      exists (core b). split_and!; try done. change (link_key (core b)) with (link_key b).
      congruence.
Qed.
End find.

(** ** Adding *)

(** An object that has just been created, as [Node_new] and [Link_new] return. *)
Record new_object (cs : ClassServer) (s : AtomTable) (p : positive) (a : Atom) : Prop := {
  no_heap : heap (tlb s) !! p = Some a;
  no_handle : a_handle a = UNDEFINED;
  no_table : a_inTable a = false;
  no_incoming : a_incoming a = [];
  no_mark : isMarkedForRemoval a = false;
  no_ok : atom_ok cs a
}.

(** From [s] to [s'] the object [a] has become the live atom [h]. *)
Record adds (cs : ClassServer) (s : AtomTable) (h : Handle) (a : Atom) (s' : AtomTable) : Prop := {
  ad_wf : table_wf cs s';
  ad_fresh : h ∉ live s;
  ad_live : live s' = {[h]} ∪ live s;
  ad_atom : atomOf (tlb s') h = Some (set_inTable true (set_handle h a));
  ad_rest : forall k, k ∈ live s ->
    set_incoming [] <$> atomOf (tlb s') k = set_incoming [] <$> atomOf (tlb s) k;
  ad_brk : brk_uuid (tlb s') = (brk_uuid (tlb s) + 1)%N;
  ad_iterators : iterators s' = iterators s;
  ad_signals : signals s' = signals s ++ [AddAtomSignal h]
}.

Lemma static_add cs C C1 L h c :
  static cs C L -> (forall k, k ∈ L -> C k = C1 k) -> C1 h = Some c -> atom_ok cs c ->
  (forall x, x ∈ outgoing c -> x ∈ L /\ (x < h)%N) -> static cs C1 ({[h]} ∪ L).
Proof.
  intros [H1 H2 H3] HC Hc Hok Hout. split.
  - intros k [->%elem_of_singleton|Hk]%elem_of_union; [by eauto|]. rewrite <- HC by done. auto.
  - intros k b [->%elem_of_singleton|Hk]%elem_of_union; [congruence|].
    rewrite <- HC by done. by apply H2.
  - intros k b x [->%elem_of_singleton|Hk]%elem_of_union Hb Hx.
    + simplify_eq. destruct (Hout x Hx) as [Hx1 Hx2]. split; [|done]. by apply elem_of_union_r.
    + rewrite <- HC in Hb by done. destruct (H3 k b x Hk Hb Hx) as [Hx1 Hx2].
      split; [|done]. by apply elem_of_union_r.
Qed.

Lemma refs_add C C1 L h c k x :
  (forall k, k ∈ L -> C k = C1 k) -> (h ∉ L) -> C1 h = Some c ->
  refs C1 ({[h]} ∪ L) k x = refs C L k x + (if decide (k = h) then occ x (targets c) else 0).
Proof.
  intros HC Hh Hc. unfold refs. destruct (decide (k = h)) as [->|Hne].
  - rewrite (decide_True (P := h ∈ _)) by set_solver.
    rewrite (decide_False (P := h ∈ _)) by done. by rewrite Hc.
  - destruct (decide (k ∈ L)) as [Hk|Hk].
    + rewrite (decide_True (P := k ∈ _)) by set_solver. rewrite HC by done. lia.
    + rewrite (decide_False (P := k ∈ _)) by set_solver. done.
Qed.

(** No two live atoms are equal. *)
Lemma keys_free s h b c :
  (forall h b, atomOf (tlb s) h = Some b -> ~ same_atom c b) ->
  coreOf (tlb s) h = Some b -> a_type b = a_type c ->
  (forall k, node_key c = Some k -> node_key b <> Some k) /\
  (forall k, link_key c = Some k -> link_key b <> Some k).
Proof.
  intros Hno (b' & Hb & <-)%coreOf_Some Ht. change (node_key (core b')) with (node_key b').
  change (link_key (core b')) with (link_key b'). change (a_type b' = a_type c) in Ht.
  destruct (key_class b') as [(k1 & K1 & K2)|(k1 & K1 & K2)],
    (key_class c) as [(k2 & K3 & K4)|(k2 & K3 & K4)]; split; intros k Hk Hk'; try congruence;
    apply (Hno h b' Hb); split_and!; congruence.
Qed.

Lemma atomSet_free cs s a :
  table_wf cs s -> (length (outgoing a) <= 64)%nat ->
  (forall h b, atomOf (tlb s) h = Some b -> ~ same_atom a b) -> atomSet s !! atom_key a = None.
Proof.
  intros Hwf Hl Hno. destruct (atomSet s !! atom_key a) as [q|] eqn:E; [|done]. exfalso.
  pose proof (tw_inv _ _ Hwf) as Hinv.
  apply (ix_set _ _ _ _ (inv_indexed _ _ _ _ Hinv)) in E as (h & c & Hh & _ & Hc & Hk).
  pose proof (st_atom _ _ _ (inv_static _ _ _ _ Hinv) h c Hh Hc) as Hok.
  apply coreOf_Some in Hc as (b & Hb & <-). apply (Hno h b Hb).
  change (atom_key b = atom_key a) in Hk. apply atom_key_inj in Hk as (K1 & K2 & K3).
  - by split_and!.
  - apply (ok_arity _ _ Hok).
  - done.
Qed.

Section add.
Context (cs : ClassServer) (string_hash : string -> N).
Context (s : AtomTable) (p : positive) (a : Atom).
Context (Hwf : table_wf cs s) (Hnew : new_object cs s p a).
Context (Hno : forall h b, atomOf (tlb s) h = Some b -> ~ same_atom a b).
Context (Hout : forall x, x ∈ outgoing a -> x ∈ live s).
Abbreviation h := (brk_uuid (tlb s)).
Abbreviation a1 := (set_handle h a).

Lemma fresh_not_live : h ∉ live s.
Proof.
  intros [q Hq]%elem_of_live_map.
  pose proof (twf_brk _ (inv_tlb _ _ _ _ (tw_inv _ _ Hwf)) h (mk_is_Some _ _ Hq)). lia.
Qed.

Lemma out_lt x : x ∈ outgoing a -> x ∈ live s /\ (x < h)%N.
Proof.
  intros Hx%Hout. split; [done|]. apply elem_of_live_map in Hx.
  apply (twf_brk _ (inv_tlb _ _ _ _ (tw_inv _ _ Hwf)) _ Hx).
Qed.

Lemma atomSet_add_ok C1 key q :
  (forall k, k ∈ live s -> coreOf (tlb s) k = C1 k) -> C1 h = Some (core a1) ->
  (<[atom_key a := p]> (atomSet s)) !! key = Some q <->
  exists k c, k ∈ {[h]} ∪ live s /\ (<[h := p]> (handle_map (tlb s))) !! k = Some q /\
              C1 k = Some c /\ atom_key c = key.
Proof.
  intros HC Hc. pose proof fresh_not_live as Hfr.
  pose proof (atomSet_free _ _ _ Hwf (ok_arity _ _ (no_ok _ _ _ _ Hnew)) Hno) as Hfree.
  pose proof (ix_set _ _ _ _ (inv_indexed _ _ _ _ (tw_inv _ _ Hwf))) as Hset.
  split.
  - destruct (decide (atom_key a = key)) as [<-|Hne].
    + rewrite lookup_insert_eq. intros [= <-]. exists h, (core a1).
      rewrite lookup_insert_eq. split_and!; [set_solver|done..].
    + rewrite lookup_insert_ne by done. intros (k & c & Hk & Hq & Hkc & Hkey)%Hset.
      exists k, c. rewrite lookup_insert_ne by (by intros <-). rewrite <- HC by done.
      split_and!; [set_solver|done..].
  - intros (k & c & [->%elem_of_singleton|Hk]%elem_of_union & Hq & Hkc & Hkey).
    + rewrite lookup_insert_eq in Hq. simplify_eq. by rewrite lookup_insert_eq.
    + rewrite lookup_insert_ne in Hq by (by intros <-). rewrite <- HC in Hkc by done.
      assert (Hin : atomSet s !! key = Some q) by (apply Hset; eauto 6).
      rewrite lookup_insert_ne; [done|]. intros <-. congruence.
Qed.

(** The stages of an addition: the atom enters the TLB in [t1], the indexes
    in [s4], the incoming lists of its targets in [t2], and is linked to the
    table in [t3]. *)
Section stages.
Context (t1 t2 t3 : TLB) (s4 : AtomTable).
Abbreviation s5 := (emit (AddAtomSignal h) (set_tlb t3 s4)).
Context (Hat1 : forall k, atomOf t1 k = if decide (k = h) then Some a1 else atomOf (tlb s) k).
Context (Hm1 : handle_map t1 = <[h := p]> (handle_map (tlb s))) (Hb1 : brk_uuid t1 = (h + 1)%N).
Context (O : only_incoming (added h (targets a)) t1 t2).
Context (Hwf3 : TLB_wf t3) (Hm3 : handle_map t3 = handle_map t2) (Hb3 : brk_uuid t3 = brk_uuid t2).
Context (Hat3 : forall k, atomOf t3 k = if decide (k = h) then Some (set_inTable true a1)
                                        else atomOf t2 k).

Lemma stage_live : live s5 = {[h]} ∪ live s.
Proof. unfold live. simpl. by rewrite Hm3, (oi_map _ _ _ O), Hm1, dom_insert_L. Qed.

Lemma stage_old k b :
  k <> h -> atomOf t3 k = Some b ->
  exists b0 l', atomOf (tlb s) k = Some b0 /\ b = set_incoming l' b0 /\
                added h (targets a) k (a_incoming b0) l'.
Proof.
  intros Hk. rewrite Hat3, decide_False by done. intros Hb.
  destruct (only_incoming_back _ _ _ _ _ O Hb) as (b0 & l' & Hb0 & Hr).
  rewrite Hat1, decide_False in Hb0 by done. eauto.
Qed.

Lemma stage_others k :
  k <> h -> set_incoming [] <$> atomOf t3 k = set_incoming [] <$> atomOf (tlb s) k.
Proof.
  intros Hk. rewrite Hat3, decide_False by done.
  by rewrite (only_incoming_strip _ _ _ k O), Hat1, decide_False.
Qed.

Lemma stage_core k : coreOf t3 k = coreOf t1 k.
Proof.
  rewrite <- (only_incoming_core _ _ _ k O). unfold coreOf. rewrite Hat3.
  destruct (decide (k = h)) as [->|]; [|done].
  pose proof (only_incoming_strip _ _ _ h O) as Hs. rewrite Hat1, decide_True in Hs by done.
  apply fmap_Some in Hs as (b & -> & Hb). simpl. f_equal. by destruct a, b; simplify_eq/=.
Qed.

Lemma stage_marks k b : atomOf t3 k = Some b -> isMarkedForRemoval b = false.
Proof.
  destruct (decide (k = h)) as [->|Hk].
  - rewrite Hat3, decide_True by done. intros [= <-]. apply (no_mark _ _ _ _ Hnew).
  - intros (b0 & l' & Hb0 & -> & _)%stage_old; [|done]. by apply (tw_marks _ _ Hwf k b0).
Qed.

(** The incoming list of every atom counts the links to it. *)
Lemma stage_incoming x b k :
  x ∈ {[h]} ∪ live s -> atomOf t3 x = Some b ->
  occ k (a_incoming b) = refs (coreOf t1) ({[h]} ∪ live s) k x.
Proof.
  intros Hx Hb. pose proof fresh_not_live as Hfr.
  rewrite (refs_add (coreOf (tlb s)) _ _ h (core a1)).
  2: { intros y Hy. unfold coreOf. rewrite Hat1, decide_False; [done|]. by intros ->. }
  2: done.
  2: { unfold coreOf. by rewrite Hat1, decide_True. }
  destruct (decide (x = h)) as [->|Hne].
  - rewrite Hat3, decide_True in Hb by done. simplify_eq.
    change (occ k (a_incoming a) = refs (coreOf (tlb s)) (live s) k h +
              (if decide (k = h) then occ h (targets a) else 0)).
    rewrite (no_incoming _ _ _ _ Hnew), occ_nil, (refs_dead cs) by (done || apply Hwf).
    case_decide; [|done]. symmetry. apply occ_0.
    rewrite targets_outgoing by exact (ok_arity _ _ (no_ok _ _ _ _ Hnew)). by intros ?%Hout.
  - apply elem_of_union in Hx as [?%elem_of_singleton|Hx]; [done|].
    destruct (stage_old x b Hne Hb) as (b0 & l' & Hb0 & -> & _ & Ho).
    cbn [a_incoming set_incoming].
    by rewrite Ho, (inv_incoming _ _ _ _ (tw_inv _ _ Hwf) x b0 k Hx Hb0).
Qed.

Lemma adds_finish :
  six cs (coreOf t1) ({[h]} ∪ live s) s4 -> static cs (coreOf t1) ({[h]} ∪ live s) ->
  at_size s4 = (at_size s + 1)%Z -> atomSet s4 = <[atom_key a := p]> (atomSet s) ->
  iterators s4 = iterators s -> signals s4 = signals s -> adds cs s h a s5.
Proof.
  intros Hsix Hst Hsz Hset Hit Hsig. pose proof fresh_not_live as Hfr.
  split; [|done|exact stage_live| | |simpl; by rewrite Hb3, (oi_brk _ _ _ O)|done|simpl; by rewrite Hsig].
  2: { simpl. by rewrite Hat3, decide_True. }
  2: { intros k Hk. apply stage_others. by intros ->. }
  split; [|exact stage_marks].
  rewrite stage_live. refine (inv_view cs (coreOf t1) _ s5 _). split; [done| |done| | |].
  - intros k. apply stage_core.
  - split; [by destruct Hsix| |].
    + intros key q. simpl. rewrite Hset, Hm3, (oi_map _ _ _ O), Hm1. apply atomSet_add_ok.
      * intros k Hk. unfold coreOf. rewrite Hat1, decide_False; [done|]. by intros ->.
      * unfold coreOf. by rewrite Hat1, decide_True.
    + simpl. rewrite Hsz, (ix_size _ _ _ _ (inv_indexed _ _ _ _ (tw_inv _ _ Hwf))).
      rewrite size_union, size_singleton by set_solver. lia.
  - intros k b Hk Hb. simpl in Hb. destruct (decide (k = h)) as [->|Hne].
    + rewrite Hat3, decide_True in Hb by done. by simplify_eq.
    + destruct (stage_old k b Hne Hb) as (b0 & l' & Hb0 & -> & _).
      apply (inv_table _ _ _ _ (tw_inv _ _ Hwf) k b0); [|done]. set_solver.
  - intros x b k. apply stage_incoming.
Qed.
End stages.

(** The checks of the outgoing set change nothing. *)
Lemma check_outgoing_ok l s1 :
  tlb s1 = tlb s -> (forall x, x ∈ l -> x ∈ live s) ->
  foreach (fun x => invalid ← asks (fun s => isInvalidHandle (tlb s) x);
                    if invalid : bool then throw RuntimeException else mret tt) l s1 = (Ok tt, s1).
Proof.
  intros Ht. induction l as [|x l IH]; intros Hl; [done|]. cbn [foreach].
  assert (Hx : isInvalidHandle (tlb s1) x = false).
  { rewrite Ht. apply negb_true_iff, isValidHandle_spec; [apply Hwf|].
    apply elem_of_live_map, Hl. left. }
  step (step (done); by rewrite Hx).
  apply IH. intros y Hy. apply Hl. by right.
Qed.

Lemma add_new_ok :
  (h < UNDEFINED)%N -> getHandle_atom a s = Ok UNDEFINED ->
  exists s', add string_hash p true s = (Ok h, s') /\ adds cs s h a s'.
Proof.
  intros Hmax Hfind. pose proof (no_ok _ _ _ _ Hnew) as Hok.
  pose proof (no_heap _ _ _ _ Hnew) as Hp. pose proof (tw_inv _ _ Hwf) as Hinv.
  pose proof (inv_tlb _ _ _ _ Hinv) as Ht.
  destruct (hashCode_ok string_hash a (ok_arity _ _ Hok)) as [n Hn].
  pose proof (atomSet_free cs s a Hwf (ok_arity _ _ Hok) Hno) as Hfree.
  destruct (TLB_addAtom_fresh (tlb s) p a Ht Hmax Hp (no_handle _ _ _ _ Hnew))
    as (t1 & E1 & Ht1 & _ & Hm1 & Hb1 & Hh1 & Hat1).
  assert (HC : forall k, k ∈ live s -> coreOf (tlb s) k = coreOf t1 k).
  { intros k Hk. unfold coreOf. rewrite Hat1, decide_False; [done|].
    intros ->. by apply fresh_not_live. }
  assert (HC1 : coreOf t1 h = Some (core a1)) by (unfold coreOf; by rewrite Hat1, decide_True).
  assert (Hst1 : static cs (coreOf t1) ({[h]} ∪ live s)).
  { apply (static_add cs (coreOf (tlb s)) _ _ _ (core a1)); [apply Hinv|done|done| |apply out_lt].
    by destruct Hok. }
  unfold add. step (unfold reads; rewrite Hp; done).
  rewrite (no_table _ _ _ _ Hnew).
  step (unfold reads; rewrite Hfind; done).
  step (done). rewrite UNDEFINED_invalid.
  step (done).
  step (unfold atomSet_insert; apply modify_ok; simpl; rewrite Hp; simpl;
                      unfold atomSet_find; rewrite Hn; simpl; rewrite Hfree; done).
  step (apply check_outgoing_ok; [done|]; intros x; rewrite elem_of_rev; apply Hout).
  step (done). rewrite (no_handle _ _ _ _ Hnew).
  change (isInvalidHandle _ UNDEFINED) with true. cbv iota.
  step (step (unfold reads; simpl; rewrite E1; done); done).
  simpl fst. simpl snd. set (s2 := set_atomSet _ _).
  destruct (insert_indexes_ok cs (coreOf t1) (live s) (set_tlb t1 s2) h (core a1))
    as (s4 & E4 & R4 & Hsix4); [done|done| |apply fresh_not_live|done| |].
  { pose proof (six_ext cs _ _ _ _ HC (inv_static _ _ _ _ Hinv)
                  (ix_six _ _ _ _ (inv_indexed _ _ _ _ Hinv))) as [].
    by split. }
  { intros k b Hk Hb Hty. rewrite <- HC in Hb by done.
    apply (keys_free s k b (core a1)); [|done..]. intros x y Hx. by apply (Hno x y). }
  step (exact E4).
  destruct (add_incoming_ok h (targets a) s4) as (t2 & E5 & O5).
  { by rewrite (sr_tlb _ _ R4). }
  { rewrite (sr_tlb _ _ R4). simpl. intros x Hx.
    rewrite targets_outgoing in Hx by apply Hok. rewrite Hat1. case_decide; [eauto|].
    by apply (elem_of_live cs), Hout. }
  step (exact E5). rewrite (sr_tlb _ _ R4) in O5. simpl in O5.
  pose proof (oi_atom _ _ _ O5 h) as Ha2. rewrite Hat1, decide_True in Ha2 by done.
  destruct Ha2 as (l' & Ha2 & Hl' & _).
  rewrite Hl' in Ha2.
  2: { rewrite targets_outgoing by apply Hok. intros Hx. by apply fresh_not_live, Hout. }
  rewrite set_incoming_same in Ha2.
  destruct (on_atom_ok t2 h (fun a => Ok (set_inTable true a)) _ _ (oi_wf _ _ _ O5) Ha2 eq_refl)
    as (t3 & E3 & Ht3 & Hm3 & Hb3 & Hat3); [done|].
  erewrite bind_ok.
  2: { unfold on_tlb. apply modify_ok. simpl. unfold on_atom, getAtom in E3.
       rewrite (oi_map _ _ _ O5), Hm1, lookup_insert_eq in E3. simpl in E3. rewrite E3. done. }
  step (done).
  eexists. split; [done|]. change (set_tlb t3 (set_tlb t2 s4)) with (set_tlb t3 s4).
  apply (adds_finish t1 t2); try done; rewrite ?(sr_size _ _ R4), ?(sr_set _ _ R4),
    ?(sr_iterators _ _ R4), ?(sr_signals _ _ R4); done.
Qed.
End add.

(** From [s] to [s'] the object at [p] has been merged into the live atom [h]:
    the atom has become [b], the object is gone, nothing else has changed. *)
Record merges (cs : ClassServer) (s : AtomTable) (h : Handle) (b : Atom) (p : positive)
    (s' : AtomTable) : Prop := {
  mg_wf : table_wf cs s';
  mg_map : handle_map (tlb s') = handle_map (tlb s);
  mg_atoms : forall k, atomOf (tlb s') k = if decide (k = h) then Some b else atomOf (tlb s) k;
  mg_gone : heap (tlb s') !! p = None;
  mg_brk : brk_uuid (tlb s') = brk_uuid (tlb s);
  mg_iterators : iterators s' = iterators s;
  mg_signals : signals s' = signals s ++ [MergeAtomSignal h]
}.

Lemma merge_tv_shape tv b b' :
  merge_tv tv b = Ok b' -> exists tv', b' = set_tv tv' b.
Proof.
  unfold merge_tv, setTruthValue. destruct (isNullTv tv).
  - intros [= <-]. exists (a_truthValue b). by destruct b.
  - destruct (isNullTv (a_truthValue b)).
    + destruct (clone tv) as [c| | |]; try done. intros [= <-]. eauto.
    + destruct (TruthValue.merge _ _) as [m| | |]; try done. simpl.
      destruct (clone m) as [c| | |]; try done. intros [= <-]. eauto.
Qed.

(** The names and the outgoing sets identify the live atoms. *)
Lemma same_atom_unique cs s h1 h2 b1 b2 :
  table_wf cs s -> atomOf (tlb s) h1 = Some b1 -> atomOf (tlb s) h2 = Some b2 ->
  same_atom b1 b2 -> h1 = h2.
Proof.
  intros Hwf H1 H2 (Ht & Hn & Hl). pose proof (tw_inv _ _ Hwf) as Hinv.
  pose proof (ix_six _ _ _ _ (inv_indexed _ _ _ _ Hinv)) as Hsix.
  assert (L1 : h1 ∈ live s) by (apply (elem_of_live cs); eauto).
  assert (L2 : h2 ∈ live s) by (apply (elem_of_live cs); eauto).
  assert (C1 : coreOf (tlb s) h1 = Some (core b1)) by (unfold coreOf; by rewrite H1).
  assert (C2 : coreOf (tlb s) h2 = Some (core b2)) by (unfold coreOf; by rewrite H2).
  destruct (key_class b1) as [(k & K & _)|(k & K & _)].
  - pose proof (proj2 (ix_node _ _ _ _ Hsix) (a_type b1) k) as Hex.
    assert (E1 : lookup2 (nodeIndex s) (a_type b1) k = Some h1).
    { apply Hex. split; [done|]. by exists (core b1). }
    assert (E2 : lookup2 (nodeIndex s) (a_type b1) k = Some h2).
    { apply Hex. split; [done|]. exists (core b2). rewrite Hn in K. by split_and!. }
    congruence.
  - pose proof (proj2 (ix_link _ _ _ _ Hsix) (a_type b1) k) as Hex.
    assert (E1 : lookup2 (linkIndex s) (a_type b1) k = Some h1).
    { apply Hex. split; [done|]. by exists (core b1). }
    assert (E2 : lookup2 (linkIndex s) (a_type b1) k = Some h2).
    { apply Hex. split; [done|]. exists (core b2). rewrite Hl in K. by split_and!. }
    congruence.
Qed.

Lemma add_existing_ok cs string_hash s p a h b b' dont_defer :
  table_wf cs s -> new_object cs s p a -> atomOf (tlb s) h = Some b -> same_atom a b ->
  merge_tv (a_truthValue a) b = Ok b' ->
  exists s', add string_hash p dont_defer s = (Ok h, s') /\ merges cs s h b' p s'.
Proof.
  intros Hwf Hnew Hb Hsame Hm. pose proof (tw_inv _ _ Hwf) as Hinv.
  pose proof (no_heap _ _ _ _ Hnew) as Hp. pose proof (inv_tlb _ _ _ _ Hinv) as Ht.
  assert (Hfind : getHandle_atom a s = Ok h).
  { destruct (getHandle_atom_ok cs s a Hwf (ok_type _ _ (no_ok _ _ _ _ Hnew)))
      as [(h' & b0 & E & Hb0 & Hs0)|[_ Hno]]; [|by destruct (Hno h b Hb)].
    rewrite E. f_equal. apply (same_atom_unique cs s h' h b0 b); [done..|].
    destruct Hsame as (? & ? & ?), Hs0 as (? & ? & ?). split_and!; congruence. }
  destruct (merge_tv_shape _ _ _ Hm) as [tv ->].
  destruct (on_atom_ok (tlb s) h (merge_tv (a_truthValue a)) b _ Ht Hb Hm)
    as (t1 & E1 & Ht1 & Hm1 & Hb1 & Hat1); [done|].
  assert (Hh1 : heap t1 !! p = Some a).
  { unfold on_atom, getAtom in E1. destruct (handle_map (tlb s) !! h) as [q|] eqn:Hq; [|done].
    simpl in E1. destruct (heap (tlb s) !! q) as [c|] eqn:Hc; [|done]. simpl in E1.
    destruct (merge_tv _ c) as [c'| | |]; try done. simpl in E1. injection E1 as <-. simpl.
    rewrite lookup_insert_ne; [done|]. intros ->.
    destruct (twf_live _ Ht _ _ Hq) as (d & Hd & Hdh). simplify_eq.
    rewrite (no_handle _ _ _ _ Hnew), (twf_def _ Ht) in Hq. done. }
  destruct (delete_unmapped_ok t1 p a Ht1 Hh1 (no_handle _ _ _ _ Hnew) (no_incoming _ _ _ _ Hnew))
    as (t2 & E2 & Ht2 & Hm2 & Hb2 & Hh2 & Hat2).
  assert (Hat : forall k, atomOf t2 k = if decide (k = h) then Some (set_tv tv b) else atomOf (tlb s) k).
  { intros k. by rewrite Hat2, Hat1. }
  unfold add. step (unfold reads; rewrite Hp; done).
  rewrite (no_table _ _ _ _ Hnew).
  step (unfold reads; rewrite Hfind; done).
  assert (Hv : isValidHandle (tlb s) h = true) by (apply isValidHandle_atomOf; eauto).
  step (done). rewrite Hv.
  erewrite bind_ok.
  2: { unfold merge. step (done). rewrite Hv.
       erewrite bind_ok; [done|]. unfold on_tlb. apply modify_ok. by rewrite E1. }
  step (unfold on_tlb; apply modify_ok; simpl; rewrite E2; done).
  eexists. split; [done|]. split; simpl; [|congruence|exact Hat| |congruence|done|done].
  2: { by rewrite Hh2, lookup_delete_eq. }
  assert (Hlive : dom (handle_map t2) = live s) by (unfold live; congruence).
  split.
  - unfold live. simpl. rewrite Hlive.
    refine (inv_view cs (coreOf (tlb s)) _
              (set_tlb t2 (emit (MergeAtomSignal h) (set_tlb t1 s))) _).
    change (inv cs (coreOf (tlb s)) (live s) (emit (MergeAtomSignal h) (set_tlb t2 s))).
    assert (Hinv2 : inv cs (coreOf (tlb s)) (live s) (set_tlb t2 s)).
    { apply inv_store; [done..|congruence|]. intros k. rewrite Hat.
      destruct (decide (k = h)) as [->|].
      - rewrite Hb. exists (a_flags b), tv. by destruct b.
      - destruct (atomOf (tlb s) k) as [c|]; [|done].
        exists (a_flags c), (a_truthValue c). by destruct c. }
    destruct Hinv2 as [? ? ? [[] ? ?] ? ?]. split; [done..| |done|done]. by split.
  - intros k c. rewrite Hat. case_decide; [|by apply (tw_marks _ _ Hwf)].
    intros [= <-]. by apply (tw_marks _ _ Hwf h b).
Qed.
