(* ===== verification/TableProps.v ===== *)
(** What the atom table promises to its users: the effect of AtomTable::add,
    AtomTable::remove, Atom::setAttentionValue and the lookups of
    src/opencog/atomspace/AtomTable.cc on a well-formed table. *)
From S2P Require Import Prelude ClassServer TruthValue AttentionValue Atom TLB HandleEntry Index IndexSpec AtomTable TableInv TableRemove TableAdd.

(** ** A small table to evaluate the operations on

    The nodes 1 and 2 and the link 3 from 1 to 2. *)

(** [new] followed by [add]. *)
Definition alloc (a : Atom) (s : AtomTable) : AtomTable :=
  set_tlb (snd (new_atom a (tlb s))) s.
Definition alloc_at (a : Atom) (s : AtomTable) : positive := fst (new_atom a (tlb s)).

Definition no_hash (name : string) : N := 0.

Definition put (a : Atom) (s : AtomTable) : AtomTable :=
  snd (add no_hash (alloc_at a s) true (alloc a s)).

Definition new_node (name : string) : Atom :=
  mkAtom UNDEFINED 3 false [] 0 DEFAULT_TV AV_factory (NodeBody name).
Definition new_list (o : list Handle) : Atom :=
  mkAtom UNDEFINED 6 false [] 0 DEFAULT_TV AV_factory (LinkBody o (Trail.mk 1000 None)).

Definition table0 : AtomTable := AtomTable_new small_cs TLB_empty.
Definition table1 : AtomTable := put (new_node "a") table0.
Definition table2 : AtomTable := put (new_node "b") table1.
Definition table3 : AtomTable := put (new_list [1; 2]%N) table2.

Section alloc.
Context (cs : ClassServer) (s : AtomTable) (a : Atom).
Context (Hwf : table_wf cs s) (Hok : atom_ok cs a).
Context (Hh : a_handle a = UNDEFINED) (Ht : a_inTable a = false) (Hi : a_incoming a = [])
        (Hm : isMarkedForRemoval a = false).

Lemma alloc_atoms k : atomOf (tlb (alloc a s)) k = atomOf (tlb s) k.
Proof.
  unfold atomOf, getAtom. simpl.
  destruct (handle_map (tlb s) !! k) as [q|] eqn:Hq; [|done]. simpl.
  rewrite lookup_insert_ne; [done|]. intros <-.
  destruct (twf_live _ (inv_tlb _ _ _ _ (tw_inv _ _ Hwf)) _ _ Hq) as (b & Hb & _).
  apply (is_fresh (dom (heap (tlb s)))), elem_of_dom. by exists b.
Qed.

Lemma alloc_wf : table_wf cs (alloc a s).
Proof.
  pose proof (tw_inv _ _ Hwf) as Hinv. split.
  - refine (inv_view cs (coreOf (tlb s)) _ (alloc a s) _). apply inv_store; [done| |done|].
    + pose proof (inv_tlb _ _ _ _ Hinv) as Ht0. split; simpl; [|apply Ht0..].
      intros k q Hq. destruct (twf_live _ Ht0 _ _ Hq) as (b & Hb & Hbk). exists b.
      rewrite lookup_insert_ne; [done|]. intros <-.
      apply (is_fresh (dom (heap (tlb s)))), elem_of_dom. by exists b.
    + intros k. rewrite (alloc_atoms k : atomOf (snd (new_atom a (tlb s))) k = _).
      destruct (atomOf (tlb s) k) as [b|]; [|done].
      exists (a_flags b), (a_truthValue b). by destruct b.
  - intros k b. rewrite alloc_atoms. apply (tw_marks _ _ Hwf).
Qed.

Lemma alloc_new : new_object cs (alloc a s) (alloc_at a s) a.
Proof. split; try done. simpl. by rewrite lookup_insert_eq. Qed.
End alloc.

Lemma find_nothing cs s a :
  table_wf cs s -> (a_type a < nTypes cs)%N -> getHandle_atom a s = Ok UNDEFINED ->
  forall h b, atomOf (tlb s) h = Some b -> ~ same_atom a b.
Proof.
  intros Hwf Hty Hf. destruct (getHandle_atom_ok cs s a Hwf Hty) as [(h & b & E & Hb & _)|[_ H]];
    [|done].
  assert (h = UNDEFINED) as -> by congruence. apply atomOf_Some in Hb as (p & Hp & _).
  by rewrite (twf_def _ (inv_tlb _ _ _ _ (tw_inv _ _ Hwf))) in Hp.
Qed.

Lemma put_ok cs s a h :
  table_wf cs s -> brk_uuid (tlb s) = h -> atom_ok cs a -> a_handle a = UNDEFINED -> a_inTable a = false ->
  a_incoming a = [] -> isMarkedForRemoval a = false -> getHandle_atom a s = Ok UNDEFINED ->
  (forall x, x ∈ outgoing a -> x ∈ live s) -> (h < UNDEFINED)%N ->
  adds cs (alloc a s) h a (put a s).
Proof.
  intros Hwf <- Hok Hh Ht Hi Hm Hf Hout Hmax. unfold put.
  destruct (add_new_ok cs no_hash (alloc a s) (alloc_at a s) a)
    as (s' & -> & Hs'); try done.
  - by apply alloc_wf.
  - by apply alloc_new.
  - apply (find_nothing cs); [by apply alloc_wf|apply Hok|done].
Qed.

Lemma new_node_ok name : atom_ok small_cs (new_node name).
Proof. split; [by split; vm_compute|vm_compute; done|simpl; lia|by vm_compute]. Qed.
Lemma new_list_ok o : (length o <= 64)%nat -> atom_ok small_cs (new_list o).
Proof. intros Ho. split; [by split; vm_compute|vm_compute; done|done|by vm_compute]. Qed.

Lemma table1_adds : adds small_cs (alloc (new_node "a") table0) 1 (new_node "a") table1.
Proof.
  apply put_ok; [apply AtomTable_new_inv|by vm_compute|apply new_node_ok|done..|by vm_compute| |done].
  intros x ?%not_elem_of_nil. done.
Qed.
Lemma table2_adds : adds small_cs (alloc (new_node "b") table1) 2 (new_node "b") table2.
Proof.
  apply put_ok; [apply table1_adds|by vm_compute|apply new_node_ok|done..|by vm_compute| |done].
  intros x ?%not_elem_of_nil. done.
Qed.
Lemma table3_adds : adds small_cs (alloc (new_list [1; 2]%N) table2) 3 (new_list [1; 2]%N) table3.
Proof.
  apply put_ok; [apply table2_adds|by vm_compute|apply new_list_ok; simpl; lia|done..|by vm_compute| |done].
  intros x Hx. apply elem_of_live_map. apply elem_of_cons in Hx as [->|Hx]; [by vm_compute; eexists|].
  apply list_elem_of_singleton in Hx as ->. by vm_compute; eexists.
Qed.
Definition table3_wf : table_wf small_cs table3 := ad_wf _ _ _ _ _ table3_adds.

(** ** Removal *)
Section remove.
Context (cs : ClassServer) (string_hash : string -> N) (s : AtomTable) (Hwf : table_wf cs s).

Lemma height_fuel h : (height (live s) h <= extract_fuel s)%nat.
Proof.
  unfold height, extract_fuel. rewrite <- size_dom. fold (live s).
  etrans; [|apply Nat.le_succ_diag_r]. apply subseteq_size.
  by intros k [_ Hk]%elem_of_filter.
Qed.

Lemma not_marked h : ~ marked s h.
Proof. intros (a & Ha & Hm). by rewrite (tw_marks _ _ Hwf h a Ha) in Hm. Qed.

Lemma table_extract h :
  h ∈ live s ->
  exists rs L' s', extract string_hash (extract_fuel s) true h s = (Ok rs, s') /\
    extracts cs (coreOf (tlb s)) (live s) s rs L' s' /\
    forall k, k ∈ live s -> k ∉ L' <-> above (coreOf (tlb s)) (live s) h k.
Proof.
  intros Hh. apply (extract_ok cs string_hash (coreOf (tlb s))).
  - apply (tw_inv _ _ Hwf).
  - done.
  - apply not_marked.
  - intros m _ Hm. by destruct (not_marked m).
  - apply height_fuel.
Qed.

(** Without incoming links the flag does not matter. *)
Lemma extract_flag fuel h a r :
  atomOf (tlb s) h = Some a -> a_incoming a = [] ->
  extract string_hash fuel r h s = extract string_hash fuel true h s.
Proof.
  intros Ha Hi. destruct fuel as [|fuel]; [done|]. destruct r; [done|].
  apply atomOf_Some in Ha as (p & Hp & Hpa). cbn [extract].
  unfold asks, mbind, st_bind, getAtom. rewrite Hp. unfold reads. rewrite Hpa. cbn [of_opt].
  by rewrite Hi.
Qed.

Lemma remove_ok h a r :
  atomOf (tlb s) h = Some a -> (r = true \/ a_incoming a = []) ->
  exists rs s', remove string_hash h r s = (Ok true, s') /\ removes cs s rs s' /\
    forall k, k ∈ rs <-> above (coreOf (tlb s)) (live s) h k.
Proof.
  intros Ha Hr. assert (Hh : h ∈ live s) by (apply (elem_of_live cs); eauto).
  destruct (table_extract h Hh) as (rs & L' & s1 & E1 & X & Hab).
  destruct (removes_extracted cs _ s rs L' s1 Hwf X) as (s' & E2 & Hrm).
  assert (Hrs : forall k, k ∈ rs <-> above (coreOf (tlb s)) (live s) h k).
  { intros k. rewrite (ex_elem _ _ _ _ _ _ _ X). split.
    - intros [Hk Hn]. by apply Hab.
    - intros Hk. assert (HkL : k ∈ live s) by (destruct (above_live _ _ _ _ Hk); by subst).
      split; [done|]. by apply Hab. }
  exists (rev rs), s'. split; [|split; [done|]; intros k; by rewrite elem_of_rev].
  unfold remove. step (done).
  assert (E : extract string_hash (extract_fuel s) r h s = (Ok rs, s1)).
  { destruct Hr as [->|Hi]; [done|]. by rewrite (extract_flag _ h a). }
  step (exact E).
  destruct rs as [|x rs].
  - assert (Hin : h ∈ @nil Handle) by (apply Hrs, rtc_refl). by apply not_elem_of_nil in Hin.
  - step (exact E2). done.
Qed.
End remove.

(** An object with an invalid target. *)
Lemma check_outgoing_throws l x s :
  x ∈ l -> isInvalidHandle (tlb s) x = true ->
  foreach (fun x => invalid ← asks (fun s => isInvalidHandle (tlb s) x);
                    if invalid : bool then throw RuntimeException else mret tt) l s
    = (Throw RuntimeException, s).
Proof.
  intros Hx Hi. induction l as [|y l IH]; [by apply not_elem_of_nil in Hx|]. cbn [foreach].
  unfold mbind, st_bind. unfold asks at 1.
  destruct (isInvalidHandle (tlb s) y) eqn:Ey; [done|]. simpl.
  apply elem_of_cons in Hx as [->|Hx]; [congruence|]. by apply IH.
Qed.

Lemma add_invalid_ok cs string_hash s p a x dont_defer :
  table_wf cs s -> new_object cs s p a ->
  (forall h b, atomOf (tlb s) h = Some b -> ~ same_atom a b) ->
  x ∈ outgoing a -> isInvalidHandle (tlb s) x = true ->
  exists s', add string_hash p dont_defer s = (Throw RuntimeException, s') /\
    tlb s' = tlb s /\ at_size s' = (at_size s + 1)%Z /\
    atomSet s' !! atom_key a = Some p /\ ~ table_wf cs s'.
Proof.
  intros Hwf Hnew Hno Hx Hi. pose proof (no_ok _ _ _ _ Hnew) as Hok.
  pose proof (no_heap _ _ _ _ Hnew) as Hp.
  destruct (hashCode_ok string_hash a (ok_arity _ _ Hok)) as [n Hn].
  pose proof (atomSet_free cs s a Hwf (ok_arity _ _ Hok) Hno) as Hfree.
  assert (Hfind : getHandle_atom a s = Ok UNDEFINED).
  { destruct (getHandle_atom_ok cs s a Hwf (ok_type _ _ Hok)) as [(h & b & _ & Hb & Hs)|[E _]];
      [by destruct (Hno h b Hb)|done]. }
  set (s' := set_atomSet (<[atom_key a := p]> (atomSet s)) (set_size (at_size s + 1) s)).
  exists s'. split.
  - unfold add. step (unfold reads; rewrite Hp; done).
    rewrite (no_table _ _ _ _ Hnew).
    step (unfold reads; rewrite Hfind; done).
    step (done). rewrite UNDEFINED_invalid.
    step (done).
    step (unfold atomSet_insert; apply modify_ok; simpl; rewrite Hp; simpl;
                        unfold atomSet_find; rewrite Hn; simpl; rewrite Hfree; done).
    unfold mbind at 1, st_bind at 1. fold s'.
    by rewrite (check_outgoing_throws _ x) by (by rewrite ?elem_of_rev).
  - split; [done|]. split; [done|]. split; [by apply lookup_insert_eq|]. intros Hwf'.
    pose proof (ix_size _ _ _ _ (inv_indexed _ _ _ _ (tw_inv _ _ Hwf))) as H1.
    pose proof (ix_size _ _ _ _ (inv_indexed _ _ _ _ (tw_inv _ _ Hwf'))) as H2.
    change (live s') with (live s) in H2. simpl in H2. lia.
Qed.

(** ** The operations on a well-formed table *)

(** C6. Adding a freshly created object to a well-formed table. When a live atom
    has the same type and the same name or outgoing set, and the truth values
    can be merged, the truth value of the atom is merged with that of the
    object, the object is deleted and the handle of the atom is returned. When
    there is no such atom, the targets are live, a handle is left and the
    incoming sets are not deferred, the object becomes a new live atom under
    the next unused handle, in all the indexes and in the incoming sets of its
    targets. In both cases the table stays well-formed and one signal is sent.
    When there is no such atom and a target is an invalid handle, the call
    throws, and it leaves a table that is not well-formed: the object is counted
    and in the hash set. *)
Theorem add_correct cs string_hash s p a :
  table_wf cs s -> new_object cs s p a ->
  (forall h b b' dont_defer, atomOf (tlb s) h = Some b -> same_atom a b ->
     merge_tv (a_truthValue a) b = Ok b' ->
     exists s', add string_hash p dont_defer s = (Ok h, s') /\ merges cs s h b' p s') /\
  ((forall h b, atomOf (tlb s) h = Some b -> ~ same_atom a b) ->
   ((forall x, x ∈ outgoing a -> x ∈ live s) -> (brk_uuid (tlb s) < UNDEFINED)%N ->
     exists s', add string_hash p true s = (Ok (brk_uuid (tlb s)), s') /\
                adds cs s (brk_uuid (tlb s)) a s') /\
   (forall x dont_defer, x ∈ outgoing a -> isInvalidHandle (tlb s) x = true ->
     exists s', add string_hash p dont_defer s = (Throw RuntimeException, s') /\
                tlb s' = tlb s /\ at_size s' = (at_size s + 1)%Z /\
                atomSet s' !! atom_key a = Some p /\ ~ table_wf cs s')).
Proof.
  intros Hwf Hnew. split; [|intros Hno; split].
  - intros h b b' d Hb Hsame Hm. by apply (add_existing_ok cs string_hash s p a h b).
  - intros Hout Hmax. apply add_new_ok; [done..|].
    destruct (getHandle_atom_ok cs s a Hwf (ok_type _ _ (no_ok _ _ _ _ Hnew)))
      as [(h & b & _ & Hb & Hs)|[E _]]; [by destruct (Hno h b Hb)|done].
  - intros x d. by apply add_invalid_ok.
Qed.

Lemma add_correct_witness :
  exists s', add no_hash (alloc_at (new_node "c") table3) true (alloc (new_node "c") table3)
               = (Ok 4%N, s') /\ adds small_cs (alloc (new_node "c") table3) 4 (new_node "c") s'.
Proof.
  destruct (add_correct small_cs no_hash (alloc (new_node "c") table3)
              (alloc_at (new_node "c") table3) (new_node "c")
              (alloc_wf _ _ _ table3_wf)
              (alloc_new _ _ _ (new_node_ok "c") eq_refl eq_refl eq_refl eq_refl)) as [_ H].
  apply H.
  - apply (find_nothing small_cs); [apply alloc_wf, table3_wf|done|by vm_compute].
  - intros x Hx. by apply not_elem_of_nil in Hx.
  - by vm_compute.
Defined.

(** C7. Removing an atom recursively from a well-formed table succeeds, and takes
    out exactly the atom and the links above it, directly or through other
    links, once each with one signal; every other atom stays as it is but for
    its incoming set, and the table stays well-formed. *)
Theorem remove_recursive_correct cs string_hash s h :
  table_wf cs s -> h ∈ live s ->
  exists rs s', remove string_hash h true s = (Ok true, s') /\ removes cs s rs s' /\
    forall k, k ∈ rs <-> above (coreOf (tlb s)) (live s) h k.
Proof.
  intros Hwf Hh. apply (elem_of_live cs) in Hh as [a Ha]; [|done].
  apply (remove_ok cs string_hash s Hwf h a); auto.
Qed.

Lemma remove_recursive_correct_witness :
  exists rs s', remove no_hash 1 true table3 = (Ok true, s') /\
    removes small_cs table3 rs s' /\
    forall k, k ∈ rs <-> above (coreOf (tlb table3)) (live table3) 1 k.
Proof.
  apply (remove_recursive_correct small_cs no_hash table3 1 table3_wf).
  apply elem_of_live_map. vm_compute. by eexists.
Defined.

Lemma remove_nonrecursive_ok cs string_hash s h a :
  table_wf cs s -> atomOf (tlb s) h = Some a ->
  (a_incoming a <> [] -> remove string_hash h false s = (Ok false, s)) /\
  (a_incoming a = [] ->
     exists s', remove string_hash h false s = (Ok true, s') /\ removes cs s [h] s').
Proof.
  intros Hwf Ha. pose proof (tw_inv _ _ Hwf) as Hinv.
  assert (Hh : h ∈ live s) by (apply (elem_of_live cs); eauto).
  split; intros Hi.
  - assert (E : extract string_hash (extract_fuel s) false h s = (Ok [], s)).
    2: { unfold remove. step (done). by step (exact E). }
    apply (extract_nonrecursive cs string_hash (coreOf (tlb s)) _ (live s) s h a); try done.
    + apply (tw_marks _ _ Hwf h a Ha).
    + intros x Hx. apply (elem_of_live cs); [done|].
      by apply (incoming_refers cs (coreOf (tlb s)) (live s) s h a x Hinv Hh Ha) in Hx as [Hx _].
  - destruct (remove_ok cs string_hash s Hwf h a false Ha (or_intror Hi))
      as (rs & s' & E & Hrm & Hrs).
    assert (Hrefs : forall k, k ∈ rs <-> k = h).
    { intros k. rewrite Hrs. split; [|intros ->; apply rtc_refl].
      intros [->|(x & Hx & _)]%rtc_inv; [done|].
      apply (incoming_refers cs (coreOf (tlb s)) (live s) s h a x Hinv Hh Ha) in Hx.
      rewrite Hi in Hx. by apply not_elem_of_nil in Hx. }
    assert (rs = [h]) as ->.
    { pose proof (rm_nodup _ _ _ _ Hrm) as Hnd. destruct rs as [|x rs].
      - exfalso. by apply (not_elem_of_nil h), Hrefs.
      - assert (x = h) as -> by (apply Hrefs; left). f_equal.
        destruct rs as [|y rs]; [done|]. assert (y = h) as -> by (apply Hrefs; right; left).
        apply NoDup_cons in Hnd as [Hn _]. exfalso. apply Hn. left. }
    eauto.
Qed.

(** C8. Removing an atom without the recursive flag: with incoming links nothing
    is removed, the call returns false and the table is unchanged, the mark
    put on the atom being taken back; without incoming links exactly the atom
    is removed. *)
Theorem remove_nonrecursive_correct cs string_hash s h a :
  table_wf cs s -> atomOf (tlb s) h = Some a ->
  (a_incoming a <> [] -> remove string_hash h false s = (Ok false, s)) /\
  (a_incoming a = [] ->
     exists s', remove string_hash h false s = (Ok true, s') /\ removes cs s [h] s').
Proof. apply remove_nonrecursive_ok. Qed.

Lemma remove_nonrecursive_correct_witness :
  remove no_hash 1 false table3 = (Ok false, table3) /\
  exists s', remove no_hash 3 false table3 = (Ok true, s') /\ removes small_cs table3 [3%N] s'.
Proof.
  split.
  - refine (proj1 (remove_nonrecursive_correct small_cs no_hash table3 1 _ table3_wf _) _);
      [vm_compute; reflexivity|discriminate].
  - refine (proj2 (remove_nonrecursive_correct small_cs no_hash table3 3 _ table3_wf _) _);
      [vm_compute; reflexivity|reflexivity].
Defined.

(** Adding a link with a target that is no valid handle throws, but only
    after the object has been counted and put into the hash set: the table the
    exception leaves behind is not well-formed any more. *)
Theorem add_invalid_outgoing cs string_hash s p a x dont_defer :
  table_wf cs s -> new_object cs s p a ->
  (forall h b, atomOf (tlb s) h = Some b -> ~ same_atom a b) ->
  x ∈ outgoing a -> isInvalidHandle (tlb s) x = true ->
  exists s', add string_hash p dont_defer s = (Throw RuntimeException, s') /\
    tlb s' = tlb s /\ at_size s' = (at_size s + 1)%Z /\
    atomSet s' !! atom_key a = Some p /\ ~ table_wf cs s'.
Proof. apply add_invalid_ok. Qed.

Lemma add_invalid_outgoing_witness :
  exists s', add no_hash (alloc_at (new_list [1; 9]%N) table3) true
               (alloc (new_list [1; 9]%N) table3) = (Throw RuntimeException, s') /\
             ~ table_wf small_cs s'.
Proof.
  assert (Hok : atom_ok small_cs (new_list [1; 9]%N)) by (apply new_list_ok; simpl; lia).
  destruct (add_invalid_outgoing small_cs no_hash (alloc (new_list [1; 9]%N) table3)
              (alloc_at (new_list [1; 9]%N) table3) (new_list [1; 9]%N) 9 true
              (alloc_wf _ _ _ table3_wf)
              (alloc_new _ _ _ Hok eq_refl eq_refl eq_refl eq_refl))
    as (s' & E & _ & _ & _ & Hn).
  - apply (find_nothing small_cs); [apply alloc_wf, table3_wf|done|by vm_compute].
  - right. left.
  - by vm_compute.
  - exists s'. exact (conj E Hn).
Defined.

(** Removing a handle that is not in the TLB returns false and changes
    nothing; an atom that is already in a table is returned by [add] as it is. *)
Theorem remove_unknown_add_again cs string_hash s :
  table_wf cs s ->
  (forall h r, getAtom (tlb s) h = None -> remove string_hash h r s = (Ok false, s)) /\
  (forall h p d, getAtom (tlb s) h = Some p -> add string_hash p d s = (Ok h, s)).
Proof.
  intros Hwf. pose proof (tw_inv _ _ Hwf) as Hinv. split.
  - intros h r Hh. unfold remove. step (done). unfold extract_fuel.
    assert (E : forall n, extract string_hash (S n) r h s = (Ok [], s)).
    { intros n. cbn [extract]. step (done). by rewrite Hh. }
    step (apply E). done.
  - intros h p d Hp. destruct (twf_live _ (inv_tlb _ _ _ _ Hinv) _ _ Hp) as (a & Ha & Hah).
    unfold add. step (unfold reads; rewrite Ha; done).
    assert (Hh : h ∈ live s) by (apply elem_of_live_map; eauto).
    rewrite (inv_table _ _ _ _ Hinv h a Hh) by (apply atomOf_Some; eauto).
    unfold lift, getHandle_tlb. rewrite Hah, (proj2 (N.eqb_neq _ _)); [done|].
    intros ->. unfold getAtom in Hp. by rewrite (twf_def _ (inv_tlb _ _ _ _ Hinv)) in Hp.
Qed.

Lemma remove_unknown_add_again_witness :
  remove no_hash 9 true table3 = (Ok false, table3) /\ add no_hash 1 true table3 = (Ok 1%N, table3).
Proof.
  destruct (remove_unknown_add_again small_cs no_hash table3 table3_wf) as [H1 H2]. split.
  - apply H1. by vm_compute.
  - apply H2. by vm_compute.
Defined.
