(* ===== verification/TableAttention.v ===== *)
(** Attention values in a table: Atom::setAttentionValue of
    src/opencog/atomspace/Atom.cc moves the atom between the bins of the
    importance index and touches nothing else. *)
From S2P Require Import Prelude ClassServer TruthValue AttentionValue Atom TLB HandleEntry Index IndexSpec AtomTable TableInv TableRemove TableAdd TableProps.

(** ** The view of the atoms under another attention value *)
Section revalue.
Context (C C' : Handle -> option Atom) (h : Handle) (c : Atom) (av : AttentionValue).
Context (Hc : C h = Some c) (Hc' : C' h = Some (set_av av c)).
Context (Hother : forall k, k <> h -> C' k = C k).

Lemma revalue_back k b' :
  C' k = Some b' -> exists b, C k = Some b /\ a_type b' = a_type b /\ a_body b' = a_body b.
Proof.
  destruct (decide (k = h)) as [->|Hne].
  - rewrite Hc'. intros [= <-]. by exists c.
  - rewrite Hother by done. intros Hb. by exists b'.
Qed.

Lemma revalue_forth k b :
  C k = Some b -> exists b', C' k = Some b' /\ a_type b' = a_type b /\ a_body b' = a_body b.
Proof.
  destruct (decide (k = h)) as [->|Hne].
  - rewrite Hc. intros [= <-]. rewrite Hc'. by eexists.
  - intros Hb. exists b. by rewrite Hother.
Qed.

Lemma revalue_type k : a_type <$> C' k = a_type <$> C k.
Proof.
  destruct (decide (k = h)) as [->|Hne]; [by rewrite Hc, Hc'|by rewrite Hother].
Qed.

Lemma keyed_revalue {K} `{Countable K} (key : Atom -> option K) n L ix :
  (forall a b, a_type a = a_type b -> a_body a = a_body b -> key a = key b) ->
  keyed_exact key n C L ix -> keyed_exact key n C' L ix.
Proof.
  intros Hkey [Hl Hex]. split; [done|]. intros ty k x. rewrite Hex.
  split; intros (HL & b & Hb & Ht & Hk); (split; [done|]).
  - destruct (revalue_forth x b Hb) as (b' & Hb' & Ht' & Hbody). exists b'.
    split; [done|]. split; [congruence|]. rewrite <- Hk. by apply Hkey.
  - destruct (revalue_back x b Hb) as (b' & Hb' & Ht' & Hbody). exists b'.
    split; [done|]. split; [congruence|]. rewrite <- Hk. by apply Hkey.
Qed.

Lemma targets_body a b : a_body a = a_body b -> targets a = targets b.
Proof. unfold targets, getArity, outgoing. by intros ->. Qed.

Lemma target_types_revalue a b :
  a_body a = a_body b -> target_types C' a = target_types C b.
Proof.
  intros Hb. unfold target_types. rewrite (targets_body a b Hb).
  apply list_omap_ext, Forall_Forall2_diag, Forall_true. intros x. apply revalue_type.
Qed.

(** All indexes but the one by importance stay exact. *)
Lemma six_revalue cs L s i :
  six cs C L s -> importance_exact C' L i -> six cs C' L (set_importanceIndex i s).
Proof.
  intros [H1 H2 [H3 H3'] [H4 H4'] _ H6] Hi. split; simpl; [| | | |done|done].
  - apply keyed_revalue; [|done]. intros a b _ Hb.
    unfold node_key, isNodeObj, isLinkObj, getName. by rewrite Hb.
  - apply keyed_revalue; [|done]. intros a b _ Hb.
    unfold link_key, isLinkObj, outgoing. by rewrite Hb.
  - split; [done|]. apply (fixed_ext _ (under a_type C)); [|done].
    intros j k _. unfold under. by rewrite revalue_type.
  - split; [done|]. apply (fixed_ext _ (has_target C)); [|done].
    intros j k _. unfold has_target. split; intros (b & Hb & Hl & Hj).
    + destruct (revalue_forth k b Hb) as (b' & Hb' & _ & Hbody). exists b'.
      split; [done|]. rewrite (target_types_revalue b' b) by done.
      split; [|done]. rewrite <- Hl. unfold isLinkObj. by rewrite Hbody.
    + destruct (revalue_back k b Hb) as (b' & Hb' & _ & Hbody). exists b'.
      split; [done|]. rewrite <- (target_types_revalue b b') by done.
      split; [|done]. rewrite <- Hl. unfold isLinkObj. by rewrite Hbody.
Qed.

Lemma importance_same L v :
  importance_exact C L v -> binN (set_av av c) = binN c -> importance_exact C' L v.
Proof.
  intros Hex Hb. apply (fixed_ext _ (under binN C)); [|done]. intros i k _. unfold under.
  destruct (decide (k = h)) as [->|Hne]; [|by rewrite Hother].
  rewrite Hc, Hc'. simpl. by rewrite Hb.
Qed.

Lemma importance_move L v :
  importance_exact C L v -> h ∈ L -> is_short (getSTI (a_attentionValue c)) ->
  is_short (getSTI av) ->
  exists v1, FixedIntegerIndex.remove (Z.of_N (binN c)) h v = Ok v1 /\
  exists v2, FixedIntegerIndex.insert (Z.of_N (binN (set_av av c))) h v1 = Ok v2 /\
    importance_exact C' L v2.
Proof.
  intros Hex Hh Hs Hs'. destruct (Hex) as [Hlen _]. eexists. split.
  { apply FII_remove_ok. rewrite Hlen. by apply binN_range. }
  eexists. split.
  { apply FII_insert_ok. simpl. rewrite Hlen. by apply binN_range. }
  assert (HL : L = {[h]} ∪ L ∖ {[h]}) by (by apply union_difference_singleton_L).
  rewrite HL. apply (under_insert binN C' _ (L ∖ {[h]}) _ h (set_av av c)); [|done].
  apply (fixed_ext _ (under binN C)).
  - intros i k Hk. unfold under. rewrite Hother by set_solver. done.
  - by apply (under_remove binN C _ L v h c).
Qed.

Lemma static_revalue cs L : AV_wf av -> static cs C L -> static cs C' L.
Proof.
  intros Hav [H1 H2 H3].
  assert (Hout : forall a b, a_body a = a_body b -> outgoing a = outgoing b).
  { unfold outgoing. by intros a b ->. }
  split.
  - intros k Hk. destruct (H1 k Hk) as [b Hb].
    destruct (revalue_forth k b Hb) as (b' & Hb' & _). eauto.
  - intros k b Hk Hb. destruct (decide (k = h)) as [->|Hne].
    + rewrite Hc' in Hb. simplify_eq. destruct (H2 h c Hk Hc). by split.
    + apply (H2 k); [done|]. by rewrite <- Hother.
  - intros k b x Hk Hb Hx. destruct (revalue_back k b Hb) as (b' & Hb' & _ & Hbody).
    apply (H3 k b'); [done..|]. by rewrite <- (Hout b b').
Qed.

Lemma refs_revalue L k x : refs C' L k x = refs C L k x.
Proof.
  unfold refs. case_decide; [|done]. destruct (decide (k = h)) as [->|Hne].
  - by rewrite Hc, Hc'.
  - by rewrite Hother.
Qed.
End revalue.

Lemma AV_eq_true av1 av2 : AV_eq av1 av2 = true -> av1 = av2.
Proof.
  unfold AV_eq, getSTI, getLTI, getVLTI. destruct av1, av2. simpl.
  rewrite !andb_true_iff, !Z.eqb_eq, N.eqb_eq. intuition congruence.
Qed.

(** From [s] to [s'] the atom [h] has got the attention value [av]. *)
Record revalues (cs : ClassServer) (s : AtomTable) (h : Handle) (a : Atom)
    (av : AttentionValue) (s' : AtomTable) : Prop := {
  rv_wf : table_wf cs s';
  rv_map : handle_map (tlb s') = handle_map (tlb s);
  rv_atoms : forall k, atomOf (tlb s') k = if decide (k = h) then Some (set_av av a)
                                           else atomOf (tlb s) k;
  rv_iterators : iterators s' = iterators s;
  rv_signals : signals s' = signals s
}.

Section set_av.
Context (cs : ClassServer) (s : AtomTable) (h : Handle) (p : positive) (a : Atom)
        (av : AttentionValue).
Context (Hwf : table_wf cs s) (Hp : getAtom (tlb s) h = Some p)
        (Ha : heap (tlb s) !! p = Some a) (Hav : AV_wf av).

Lemma atom_at : atomOf (tlb s) h = Some a.
Proof. apply atomOf_Some. eauto. Qed.

Lemma revalue_finish i :
  importance_exact (coreOf (set_atom p (set_av av a) (tlb s))) (live s) i ->
  revalues cs s h a av (set_importanceIndex i (set_tlb (set_atom p (set_av av a) (tlb s)) s)).
Proof.
  intros Hi. pose proof atom_at as Hat.
  pose proof (tw_inv _ _ Hwf) as [Ht _ Hst [Hsix Hset Hsz] Htab Hinc].
  assert (Hatoms : forall k, atomOf (set_atom p (set_av av a) (tlb s)) k =
    if decide (k = h) then Some (set_av av a) else atomOf (tlb s) k).
  { intros k. by apply atomOf_set_atom. }
  assert (Hc : coreOf (tlb s) h = Some (core a)) by (unfold coreOf; by rewrite Hat).
  assert (Hc' : coreOf (set_atom p (set_av av a) (tlb s)) h = Some (set_av av (core a))).
  { unfold coreOf. by rewrite Hatoms, decide_True. }
  assert (Ho : forall k, k <> h ->
    coreOf (set_atom p (set_av av a) (tlb s)) k = coreOf (tlb s) k).
  { intros k Hk. unfold coreOf. by rewrite Hatoms, decide_False. }
  split; [|done|done|done|done]. split.
  - split.
    + apply (set_atom_wf (tlb s) h); [done..|]. exact (atomOf_handle (tlb s) h a Ht Hat).
    + done.
    + by apply (static_revalue _ _ h (core a) av Hc Hc' Ho).
    + split.
      * apply (six_revalue _ _ h (core a) av Hc Hc' Ho); [|done]. by destruct Hsix.
      * intros key q. simpl. rewrite Hset.
        split; intros (k & c & Hk & Hq & Hkc & Hkey).
        -- destruct (revalue_forth _ _ h (core a) av Hc Hc' Ho k c Hkc) as (c' & Hc1 & Ht1 & Hb1).
           exists k, c'. split_and!; [done..|]. rewrite <- Hkey. unfold atom_key.
           by rewrite Ht1, Hb1, (targets_body c' c).
        -- destruct (revalue_back _ _ h (core a) av Hc Hc' Ho k c Hkc) as (c' & Hc1 & Ht1 & Hb1).
           exists k, c'. split_and!; [done..|]. rewrite <- Hkey. unfold atom_key.
           by rewrite Ht1, Hb1, (targets_body c c').
      * done.
    + intros k b Hk. simpl. rewrite Hatoms. case_decide as E; [|by apply Htab].
      intros [= <-]. rewrite E in Hk. by apply (Htab h a).
    + intros k b x Hk. simpl. rewrite Hatoms.
      rewrite (refs_revalue _ _ h (core a) av Hc Hc' Ho).
      case_decide as E; [|by apply Hinc]. intros [= <-]. rewrite E in *. by apply (Hinc h a).
  - intros k b. simpl. rewrite Hatoms. case_decide; [|by apply (tw_marks _ _ Hwf)].
    intros [= <-]. by apply (tw_marks _ _ Hwf h a).
Qed.
End set_av.

Lemma setAttentionValue_ok cs s h p a av :
  table_wf cs s -> getAtom (tlb s) h = Some p -> heap (tlb s) !! p = Some a -> AV_wf av ->
  exists s', setAttentionValue p av s = (Ok tt, s') /\ revalues cs s h a av s'.
Proof.
  intros Hwf Hp Ha Hav. pose proof (atom_at s h p a Hp Ha) as Hat.
  pose proof (tw_inv _ _ Hwf) as Hinv. pose proof (inv_tlb _ _ _ _ Hinv) as Ht.
  assert (Hh : h ∈ live s) by (apply elem_of_live_map; eauto).
  assert (Hc : coreOf (tlb s) h = Some (core a)) by (unfold coreOf; by rewrite Hat).
  pose proof (ok_av _ _ (st_atom _ _ _ (inv_static _ _ _ _ Hinv) h _ Hh Hc)) as Hav0.
  pose proof (ix_importance _ _ _ _ (ix_six _ _ _ _ (inv_indexed _ _ _ _ Hinv))) as Hix.
  unfold setAttentionValue. step (unfold reads; by rewrite Ha).
  destruct (AV_eq av (a_attentionValue a)) eqn:Eav.
  { apply AV_eq_true in Eav as ->. exists s. split; [done|].
    assert (Hs : set_av (a_attentionValue a) a = a) by by destruct a.
    split; [done|done| |done|done]. intros k. rewrite Hs. case_decide; [by subst|done]. }
  step (done).
  rewrite (inv_table _ _ _ _ Hinv h a Hh Hat). cbn [andb].
  set (t' := set_atom p (set_av av a) (tlb s)).
  assert (Hatoms : forall k, atomOf t' k =
    if decide (k = h) then Some (set_av av a) else atomOf (tlb s) k).
  { intros k. by apply atomOf_set_atom. }
  assert (Hc' : coreOf t' h = Some (set_av av (core a))).
  { unfold coreOf. by rewrite Hatoms, decide_True. }
  assert (Ho : forall k, k <> h -> coreOf t' k = coreOf (tlb s) k).
  { intros k Hk. unfold coreOf. by rewrite Hatoms, decide_False. }
  unfold ImportanceIndex.binOf. fold (binN a). fold (binN (set_av av a)).
  destruct (Z.eqb_spec (Z.of_N (binN a)) (Z.of_N (binN (set_av av a)))) as [E|E].
  - exists (set_importanceIndex (importanceIndex s) (set_tlb t' s)).
    split; [by destruct s|]. apply (revalue_finish cs s h p a av); [done..|].
    apply (importance_same (coreOf (tlb s)) _ h (core a) av); [done..|].
    apply N2Z.inj in E. by symmetry.
  - destruct (importance_move (coreOf (tlb s)) _ h (core a) av Hc Hc' Ho (live s) _ Hix Hh)
      as (v1 & E1 & v2 & E2 & Hv2); [apply Hav0|apply Hav|].
    exists (set_importanceIndex v2 (set_tlb t' s)).
    split; [|by apply (revalue_finish cs s h p a av)].
    unfold on_importanceIndex. apply modify_ok. unfold ImportanceIndex.updateImportance.
    unfold getHandle_tlb, ImportanceIndex.binOf. fold (binN a). fold (binN (set_av av a)).
    assert (Hah : a_handle (set_av av a) = h) by exact (atomOf_handle (tlb s) h a Ht Hat).
    rewrite Hah. rewrite (proj2 (N.eqb_neq _ _)).
    2: { intros ->. unfold getAtom in Hp. by rewrite (twf_def _ Ht) in Hp. }
    cbn [mbind res_bind]. rewrite (proj2 (Z.eqb_neq _ _)) by done.
    change (binN (core a)) with (binN a) in E1. simpl importanceIndex. rewrite E1.
    cbn [mbind res_bind]. change (binN (set_av av (core a))) with (binN (set_av av a)) in E2.
    by rewrite E2.
Qed.

(** C33. Setting the attention value of a live atom succeeds, changes that value
    only, and keeps the table well-formed: in particular the importance index
    has the atom in the bin of its new importance and in no other. *)
Theorem setAttentionValue_correct cs s h p a av :
  table_wf cs s -> getAtom (tlb s) h = Some p -> heap (tlb s) !! p = Some a -> AV_wf av ->
  exists s', setAttentionValue p av s = (Ok tt, s') /\ revalues cs s h a av s'.
Proof. apply setAttentionValue_ok. Qed.

Lemma setAttentionValue_correct_witness :
  exists s', setAttentionValue 1 (AV_new 200 0 0) table3 = (Ok tt, s') /\
    table_wf small_cs s'.
Proof.
  destruct (setAttentionValue_correct small_cs table3 1 1
              (set_incoming [3%N] (plain_node 1 3 "a" DEFAULT_TV)) (AV_new 200 0 0) table3_wf)
    as (s' & E & R).
  - vm_compute. reflexivity.
  - vm_compute. reflexivity.
  - split_and!; by vm_compute.
  - exists s'. split; [exact E|apply R].
Defined.
