(* ===== verification/TableQuery.v ===== *)
(** Lookups in a well-formed table: the getHandleSet family of
    src/opencog/atomspace/AtomTable.cc returns exactly the live atoms asked
    for, and runs past the end of its vector for one kind of question. *)
From S2P Require Import Prelude ClassServer TruthValue AttentionValue Atom TLB HandleEntry Index IndexSpec AtomTable TableInv TableRemove TableAdd TableProps.

(** Is the type of the atom the given one, or below it when asked? *)
Definition of_type (cs : ClassServer) (type : N) (sub : bool) (a : Atom) : Prop :=
  type = a_type a \/ (sub = true /\ isAb cs (a_type a) type = true).

(** What [filterSet(set, type, subclass)] keeps. *)
Definition kept (cs : ClassServer) (type : N) (sub : bool) (a : Atom) : bool :=
  (type =? ATOM cs)%N && sub || type_matches cs type sub (a_type a).

Section query.
Context (cs : ClassServer) (s : AtomTable) (Hwf : table_wf cs s).
Context (Hn : (nTypes cs + 1 < 2 ^ 16)%N).

Lemma live_object h : h ∈ live s -> exists a, atomOf (tlb s) h = Some a /\ atom_ok cs (core a).
Proof.
  intros Hh. destruct (live_atom _ _ _ _ _ (tw_inv _ _ Hwf) Hh) as (a & c & Ha & _ & <- & Hok).
  eauto.
Qed.

Lemma live_core h c : coreOf (tlb s) h = Some c ->
  exists a, atomOf (tlb s) h = Some a /\ c = core a /\ h ∈ live s.
Proof.
  intros (a & Ha & <-)%coreOf_Some. exists a. split_and!; [done..|].
  apply (elem_of_live cs); eauto.
Qed.

Lemma live_links h a x :
  atomOf (tlb s) h = Some a -> x ∈ targets a -> exists b, atomOf (tlb s) x = Some b /\ atom_ok cs (core b).
Proof.
  intros Ha Hx. assert (Hh : h ∈ live s) by (apply (elem_of_live cs); eauto).
  pose proof (inv_static _ _ _ _ (tw_inv _ _ Hwf)) as Hst.
  assert (Hc : coreOf (tlb s) h = Some (core a)) by (unfold coreOf; by rewrite Ha).
  apply live_object. apply (st_closed _ _ _ Hst h (core a) x Hh Hc).
  change (x ∈ targets (core a)) in Hx. rewrite targets_outgoing in Hx; [done|].
  apply (st_atom _ _ _ Hst h _ Hh Hc).
Qed.

Lemma filterSet_type_elem type sub set :
  (forall h, h ∈ set -> h ∈ live s) ->
  exists r, filterSet_type cs (tlb s) type sub set = Ok r /\
    forall h, h ∈ r <-> h ∈ set /\ exists a, atomOf (tlb s) h = Some a /\ kept cs type sub a = true.
Proof.
  intros Hset. rewrite filterSet_type_ok.
  2: { apply Forall_forall. intros h Hh. apply (elem_of_live cs); auto. }
  eexists. split; [done|]. intros h. unfold kept. destruct (_ && sub) eqn:E.
  - split; [|by intros [? _]]. intros Hh. split; [done|].
    destruct (live_object h (Hset h Hh)) as (a & Ha & _). by exists a.
  - rewrite list_elem_of_filter. unfold atom_sat. split.
    + intros [Hs Hh]. split; [done|]. destruct (atomOf (tlb s) h) as [a|]; [|done].
      by exists a.
    + intros (Hh & a & Ha & Hk). split; [|done]. by rewrite Ha.
Qed.
End query.

Lemma getHandleSet_type_ok `{SetOrder} cs s type sub :
  table_wf cs s -> (nTypes cs + 1 < 2 ^ 16)%N -> type <> (nTypes cs + 1)%N ->
  exists r, getHandleSet_type cs s type sub = Ok r /\ NoDup r /\
    forall h, h ∈ r <-> exists a, atomOf (tlb s) h = Some a /\ of_type cs type sub a.
Proof.
  intros Hwf Hn Hty. pose proof (tw_inv _ _ Hwf) as Hinv.
  destruct (ix_type _ _ _ _ (ix_six _ _ _ _ (inv_indexed _ _ _ _ Hinv))) as [_ Hex].
  destruct (getHandleSet_fixed cs _ (live s) _ type sub Hex Hn Hty) as (r & Hr & Hin & Hnd).
  { intros h i Hh (c & Hc & ->)%fmap_Some.
    pose proof (ok_type _ _ (st_atom _ _ _ (inv_static _ _ _ _ Hinv) h c Hh Hc)). lia. }
  exists r. split; [done|]. split; [apply Hnd; unfold under; naive_solver|].
  intros h. rewrite Hin. unfold under. split.
  - intros (Hh & i & Hs%selects_spec & (c & Hc & ->)%fmap_Some).
    apply coreOf_Some in Hc as (a & Ha & <-). by exists a.
  - intros (a & Ha & Hs). split; [apply (elem_of_live cs); eauto|].
    exists (a_type a). split; [by apply selects_spec|]. unfold coreOf. by rewrite Ha.
Qed.

(** C36. Lookup by type: the set returned has every live atom of the type once,
    with the atoms of the types below it when asked. *)
Theorem getHandleSet_type_correct `{SetOrder} cs s type sub :
  table_wf cs s -> (nTypes cs + 1 < 2 ^ 16)%N -> type <> (nTypes cs + 1)%N ->
  exists r, getHandleSet_type cs s type sub = Ok r /\ NoDup r /\
    forall h, h ∈ r <-> exists a, atomOf (tlb s) h = Some a /\ of_type cs type sub a.
Proof. apply getHandleSet_type_ok. Qed.

(** Lookup by the type of a target: the set returned has the live links, of
    the type asked for, that have a target of the target type asked for. *)
Theorem getHandleSet_target_correct `{SetOrder} cs s type ttype sub tsub :
  table_wf cs s -> (nTypes cs + 1 < 2 ^ 16)%N -> ttype <> (nTypes cs + 1)%N ->
  exists r, getHandleSet_target cs s type ttype sub tsub = Ok r /\
    forall h, h ∈ r <-> exists a x b, atomOf (tlb s) h = Some a /\ isLinkObj a = true /\
      kept cs type sub a = true /\ x ∈ targets a /\ atomOf (tlb s) x = Some b /\
      of_type cs ttype tsub b.
Proof.
  intros Hwf Hn Hty. pose proof (tw_inv _ _ Hwf) as Hinv.
  destruct (ix_target _ _ _ _ (ix_six _ _ _ _ (inv_indexed _ _ _ _ Hinv))) as [_ Hex].
  assert (Htt : forall h i, has_target (coreOf (tlb s)) i h <->
    exists a x b, atomOf (tlb s) h = Some a /\ isLinkObj a = true /\ x ∈ targets a /\
                  atomOf (tlb s) x = Some b /\ a_type b = i).
  { intros h i. unfold has_target, target_types. split.
    - intros (c & (a & Ha & <-)%coreOf_Some & Hl & (x & Hx & Hi)%list_elem_of_omap).
      apply fmap_Some in Hi as (c & Hc & ->). apply coreOf_Some in Hc as (b & Hb & <-).
      by exists a, x, b.
    - intros (a & x & b & Ha & Hl & Hx & Hb & Hi). exists (core a).
      split; [unfold coreOf; by rewrite Ha|]. split; [done|]. apply list_elem_of_omap.
      exists x. split; [done|]. unfold coreOf. rewrite Hb. simpl. by rewrite Hi. }
  destruct (getHandleSet_fixed cs _ (live s) _ ttype tsub Hex Hn Hty) as (r0 & Hr0 & Hin & _).
  { intros h i Hh (a & x & b & Ha & Hl & Hx & Hb & <-)%Htt.
    destruct (live_links cs s Hwf h a x Ha Hx) as (b' & Hb' & Hok). simplify_eq.
    pose proof (ok_type _ _ Hok) as Ht. simpl in Ht. lia. }
  destruct (filterSet_type_elem cs s Hwf type sub r0) as (r & Hr & Hin').
  { intros h [Hh _]%Hin. done. }
  exists r. split; [unfold getHandleSet_target; by rewrite Hr0|].
  intros h. rewrite Hin', Hin. split.
  - intros [(Hh & i & Hs%selects_spec & (a & x & b & Ha & Hl & Hx & Hb & <-)%Htt) (a' & Ha' & Hk)].
    simplify_eq. by exists a, x, b.
  - intros (a & x & b & Ha & Hl & Hk & Hx & Hb & Hs). split; [|eauto].
    split; [apply (elem_of_live cs); eauto|]. exists (a_type b).
    split; [by apply selects_spec|]. apply Htt. by exists a, x, b.
Qed.

(** Lookup by target: the set returned has the live links, of the type asked
    for, that refer to the given atom. *)
Theorem getHandleSet_incoming_correct cs s h type sub :
  table_wf cs s -> h ∈ live s ->
  exists r, getHandleSet_incoming cs s h type sub = Ok r /\
    forall k, k ∈ r <-> exists a, atomOf (tlb s) k = Some a /\ h ∈ targets a /\
                                  kept cs type sub a = true.
Proof.
  intros Hwf Hh. pose proof (tw_inv _ _ Hwf) as Hinv.
  destruct (live_object cs s Hwf h Hh) as (a & Ha & _).
  assert (Hinc : forall k, k ∈ a_incoming a <-> exists b, atomOf (tlb s) k = Some b /\ h ∈ targets b).
  { intros k. rewrite (incoming_refers cs _ _ s h a k Hinv Hh Ha). unfold refers. split.
    - intros (_ & c & (b & Hb & <-)%coreOf_Some & Hx). by exists b.
    - intros (b & Hb & Hx). split; [apply (elem_of_live cs); eauto|]. exists (core b).
      split; [unfold coreOf; by rewrite Hb|done]. }
  destruct (filterSet_type_elem cs s Hwf type sub (a_incoming a)) as (r & Hr & Hin).
  { intros k (b & Hb & _)%Hinc. apply (elem_of_live cs); eauto. }
  exists r. split; [unfold getHandleSet_incoming; rewrite Ha; simpl; by rewrite HE_clone_id|].
  intros k. rewrite Hin, Hinc. split.
  - intros [(b & Hb & Hx) (b' & Hb' & Hk)]. simplify_eq. by exists b.
  - intros (b & Hb & Hx & Hk). split; by exists b.
Qed.

(** The atom a node index holds for a name, if it is a live one. *)
Lemma node_lookup cs s name ty h :
  table_wf cs s -> lookup2 (nodeIndex s) ty (c_str name) = Some h <->
  exists a, atomOf (tlb s) h = Some a /\ isNodeObj a = true /\
            c_str (getName a) = c_str name /\ a_type a = ty.
Proof.
  intros Hwf. pose proof (tw_inv _ _ Hwf) as Hinv.
  rewrite (proj2 (ix_node _ _ _ _ (ix_six _ _ _ _ (inv_indexed _ _ _ _ Hinv)))). split.
  - intros (_ & c & (a & Ha & <-)%coreOf_Some & Ht' & Hk). exists a. split; [done|].
    unfold node_key in Hk. change (isNodeObj (core a)) with (isNodeObj a) in Hk.
    destruct (isNodeObj a); [|done]. injection Hk as Hk. done.
  - intros (a & Ha & Hnode & Hnm & Ht'). split; [apply (elem_of_live cs); eauto|].
    exists (core a). split; [unfold coreOf; by rewrite Ha|]. split; [done|].
    unfold node_key. change (isNodeObj (core a)) with (isNodeObj a). rewrite Hnode.
    by rewrite <- Hnm.
Qed.

Lemma node_get cs s name ty m h :
  table_wf cs s -> nodeIndex s !! N.to_nat ty = Some m ->
  isValidHandle (tlb s) h = true /\ StringIndex.get (c_str name) m = h <->
  exists a, atomOf (tlb s) h = Some a /\ isNodeObj a = true /\
            c_str (getName a) = c_str name /\ a_type a = ty.
Proof.
  intros Hwf Hm. pose proof (node_lookup cs s name ty h Hwf) as Hkey. rewrite <- Hkey.
  unfold lookup2, StringIndex.get in *. rewrite Hm in *. simpl in *. rewrite c_str_idem. split.
  - intros [Hv Hg]. destruct (m !! c_str name); [by subst|].
    subst. by rewrite UNDEFINED_invalid in Hv.
  - intros Hl. rewrite Hl. split; [|done].
    destruct (proj1 Hkey Hl) as (a & Ha & _).
    apply isValidHandle_atomOf; [apply (tw_inv _ _ Hwf)|eauto].
Qed.

(** Lookup by name: for a name that is not empty the set returned has the
    live nodes with that name (as a C string), of the type asked for. *)
Theorem getHandleSet_name_correct `{SetOrder} cs s name type sub :
  table_wf cs s -> (type < nTypes cs)%N -> c_str name <> EmptyString ->
  exists r, getHandleSet_name cs s (Some name) type sub = Ok r /\
    forall h, h ∈ r <-> exists a, atomOf (tlb s) h = Some a /\ isNodeObj a = true /\
      c_str (getName a) = c_str name /\
      (if sub then isAb cs (a_type a) type = true else a_type a = type).
Proof.
  intros Hwf Hty Hname. pose proof (tw_inv _ _ Hwf) as Hinv.
  pose proof (inv_tlb _ _ _ _ Hinv) as Ht.
  pose proof (ix_node _ _ _ _ (ix_six _ _ _ _ (inv_indexed _ _ _ _ Hinv))) as Hex.
  assert (Hget : forall ty m h, nodeIndex s !! N.to_nat ty = Some m ->
    isValidHandle (tlb s) h = true /\ StringIndex.get (c_str name) m = h <-> _)
    by (intros ty m h; apply (node_get cs s name ty m h Hwf)).
  unfold getHandleSet_name. simpl default. rewrite decide_False by done.
  unfold NodeIndex.getHandleSet. destruct sub.
  - destruct (subtype_handles_ok cs (tlb s) (StringIndex.get (c_str name)) type (nodeIndex s))
      as (r & Hr & Hin); [apply Hex|].
    exists r. split; [done|]. intros h. rewrite Hin. split.
    + intros (Hv & ty & m & Hlt & Hsub & Hm & Hg).
      destruct (proj1 (Hget ty m h Hm) (conj Hv Hg)) as (a & Ha & Hnode & Hnm & <-).
      by exists a.
    + intros (a & Ha & Hnode & Hnm & Hsub).
      destruct (live_object cs s Hwf h) as (a' & Ha' & Hok); [apply (elem_of_live cs); eauto|].
      simplify_eq. pose proof (ok_type _ _ Hok) as Hlt. simpl in Hlt.
      destruct (lookup_lt_is_Some_2 (nodeIndex s) (N.to_nat (a_type a))) as [m Hm].
      { rewrite (proj1 Hex). lia. }
      destruct (proj2 (Hget (a_type a) m h Hm)) as [Hv Hg]; [by exists a|].
      split; [done|]. exists (a_type a), m. done.
  - destruct (lookup_lt_is_Some_2 (nodeIndex s) (N.to_nat type)) as [m Hm].
    { rewrite (proj1 Hex). lia. }
    unfold NodeIndex.getHandle. rewrite Hm. cbn [mbind res_bind].
    eexists. split; [done|]. intros h. rewrite <- (Hget type m h Hm).
    destruct (isValidHandle (tlb s) (StringIndex.get (c_str name) m)) eqn:Ev.
    + rewrite list_elem_of_singleton. split; [intros ->; done|intros [_ <-]; done].
    + split; [by intros ?%not_elem_of_nil|]. intros [Hv <-]. congruence.
Qed.

(** The outgoing set a new link of the type gets. *)
Definition normal_outgoing (cs : ClassServer) (type : N) (handles : list Handle) : list Handle :=
  if isAb cs type (UNORDERED_LINK cs) then sort_handles handles else handles.

Lemma Link_new_outgoing cs type handles :
  isAb cs type (LINK cs) = true ->
  exists a, Link_new cs type handles NullTV = Ok a /\ a_type a = type /\
            isLinkObj a = true /\ outgoing a = normal_outgoing cs type handles.
Proof.
  intros Hl. unfold Link_new. change Trail.new with (Ok (Trail.mk 1000 None)). simpl.
  unfold Atom_init. simpl. rewrite Hl. simpl. unfold setOutgoingSet. simpl.
  eexists. split; [done|]. done.
Qed.

Lemma all_valid_live cs s handles : table_wf cs s -> (forall x, x ∈ handles -> x ∈ live s) ->
  forall n, (n <= length handles)%nat -> forall k, (k + n <= length handles)%nat ->
  all_valid s handles (seq k n) = Ok true.
Proof.
  intros Hwf Hl. induction n as [|n IH]; intros Hn k Hk; [done|]. cbn [seq all_valid].
  destruct (lookup_lt_is_Some_2 handles k) as [x Hx]; [lia|]. rewrite Hx.
  cbn [of_opt mbind res_bind].
  assert (Hv : isValidHandle (tlb s) x = true).
  { apply isValidHandle_spec; [apply Hwf|]. apply elem_of_live_map, Hl.
    by apply list_elem_of_lookup_2 in Hx. }
  rewrite Hv. apply IH; lia.
Qed.

(** The hash set of the table finds exactly the live link like [l]. *)
Lemma atomSet_link cs s l h p :
  table_wf cs s -> isLinkObj l = true -> (length (outgoing l) <= 64)%nat ->
  handle_map (tlb s) !! h = Some p ->
  atomSet s !! atom_key l = Some p <->
  exists a, atomOf (tlb s) h = Some a /\ a_type a = a_type l /\ isLinkObj a = true /\
            outgoing a = outgoing l.
Proof.
  intros Hwf Hk Hol Hp. pose proof (tw_inv _ _ Hwf) as Hinv.
  rewrite (ix_set _ _ _ _ (inv_indexed _ _ _ _ Hinv)). split.
  - intros (h' & c & _ & Hp' & (a & Ha & <-)%coreOf_Some & Hkey).
    assert (h' = h) as -> by (apply (handle_map_inj (tlb s) _ _ p); [apply Hinv|done..]).
    destruct (live_object cs s Hwf h) as (a' & Ha' & Hok); [apply elem_of_live_map; eauto|].
    rewrite Ha in Ha'. injection Ha' as <-. exists a. split; [done|].
    destruct (atom_key_inj a l (ok_arity _ _ Hok) Hol Hkey) as (K1 & K2 & K3).
    unfold link_key in K3. rewrite Hk in K3. destruct (isLinkObj a); [|done].
    split_and!; congruence.
  - intros (a & Ha & Hta & Hka & Hoa). exists h, (core a).
    split; [apply elem_of_live_map; eauto|]. split; [done|].
    split; [unfold coreOf; by rewrite Ha|]. change (atom_key a = atom_key l).
    unfold atom_key. unfold isLinkObj in Hka, Hk. unfold targets, getArity.
    rewrite Hoa, Hta. by destruct (a_body a), (a_body l).
Qed.

(** The object behind a pointer of the table knows its handle. *)
Lemma pointer_object cs s h p :
  table_wf cs s -> handle_map (tlb s) !! h = Some p ->
  exists a, heap (tlb s) !! p = Some a /\ getHandle_tlb a = Ok h /\
            isValidHandle (tlb s) h = true.
Proof.
  intros Hwf Hp. pose proof (inv_tlb _ _ _ _ (tw_inv _ _ Hwf)) as Ht.
  destruct (live_object cs s Hwf h) as (a & Ha & _); [apply elem_of_live_map; eauto|].
  exists a. assert (Hv : isValidHandle (tlb s) h = true) by (apply isValidHandle_spec; eauto).
  split; [apply atomOf_Some in Ha as (q & Hq & Hqa); by simplify_eq|]. split; [|done].
  unfold getHandle_tlb. rewrite (atomOf_handle (tlb s) h a Ht Ha), (proj2 (N.eqb_neq _ _)); [done|].
  intros ->. by rewrite UNDEFINED_invalid in Hv.
Qed.

Lemma getHandleSet_handles_ok `{SetOrder} cs string_hash s handles types subs type :
  table_wf cs s -> isAb cs type (LINK cs) = true ->
  (forall x, x ∈ handles -> x ∈ live s) -> (length handles <= 64)%nat ->
  exists r, getHandleSet_handles cs string_hash s handles types subs
              (N.of_nat (length handles)) type false = Ok r /\ (length r <= 1)%nat /\
    forall h, h ∈ r <-> exists a, atomOf (tlb s) h = Some a /\ a_type a = type /\
      isLinkObj a = true /\ outgoing a = normal_outgoing cs type handles.
Proof.
  intros Hwf Hl Hlive Hlen. pose proof (tw_inv _ _ Hwf) as Hinv.
  unfold getHandleSet_handles, exact_lookup. rewrite Hl.
  assert (Hc : (N.of_nat (length handles) =? 0)%N || negb (bool_decide (handles = [])) = true).
  { destruct handles; [done|]. apply orb_true_r. }
  rewrite Hc, Nat2N.id. cbn [andb]. rewrite (all_valid_live cs) by (done || lia).
  cbn [mbind res_bind andb negb].
  unfold find_link. destruct (Link_new_outgoing cs type handles Hl) as (l & E & Ht & Hk & Ho).
  rewrite E. cbn [mbind res_bind].
  assert (Hol : (length (outgoing l) <= 64)%nat).
  { rewrite Ho. unfold normal_outgoing. destruct (isAb cs type (UNORDERED_LINK cs)); [|done].
    etrans; [|exact Hlen]. apply Nat.eq_le_incl, Permutation_length, sort_handles_perm. }
  destruct (hashCode_ok string_hash l Hol) as [n Hhash]. unfold atomSet_find. rewrite Hhash.
  cbn [mbind res_bind].
  assert (Hkey : forall h p, handle_map (tlb s) !! h = Some p ->
    atomSet s !! atom_key l = Some p <->
    exists a, atomOf (tlb s) h = Some a /\ a_type a = type /\ isLinkObj a = true /\
              outgoing a = normal_outgoing cs type handles).
  { intros h p Hp. rewrite <- Ho, <- Ht. by apply (atomSet_link cs). }
  destruct (atomSet s !! atom_key l) as [p|] eqn:Ep.
  - destruct (proj1 (ix_set _ _ _ _ (inv_indexed _ _ _ _ Hinv) _ _) Ep) as (h & c & Hh & Hp & Hc' & _).
    destruct (pointer_object cs s h p Hwf Hp) as (a & Hpa & Hah & Hv).
    rewrite Hpa. cbn [of_opt mbind res_bind]. rewrite Hah.
    cbn [mbind res_bind]. rewrite Hv. exists [h]. split; [done|]. split; [done|].
    intros k. rewrite list_elem_of_singleton. split.
    + intros ->. by apply (Hkey h p).
    + intros Hex. assert (exists q, handle_map (tlb s) !! k = Some q) as [q Hq].
      { destruct Hex as (b & (q & Hq & _)%atomOf_Some & _). eauto. }
      apply (Hkey k q Hq) in Hex. simplify_eq.
      by apply (handle_map_inj (tlb s) _ _ q); [apply Hinv|..].
  - exists []. split; [done|]. split; [simpl; lia|]. intros k.
    split; [by intros ?%not_elem_of_nil|]. intros Hex.
    assert (exists q, handle_map (tlb s) !! k = Some q) as [q Hq].
    { destruct Hex as (b & (q & Hq & _)%atomOf_Some & _). eauto. }
    by apply (Hkey k q Hq) in Hex.
Qed.

(** C37. Lookup of one link by its outgoing set: when every handle is given and the
    type is a link type taken exactly, the hash set answers with the live link
    of that type over those handles (sorted for unordered links), if any. *)
Theorem getHandleSet_handles_exact `{SetOrder} cs string_hash s handles types subs type :
  table_wf cs s -> isAb cs type (LINK cs) = true ->
  (forall x, x ∈ handles -> x ∈ live s) -> (length handles <= 64)%nat ->
  exists r, getHandleSet_handles cs string_hash s handles types subs
              (N.of_nat (length handles)) type false = Ok r /\ (length r <= 1)%nat /\
    forall h, h ∈ r <-> exists a, atomOf (tlb s) h = Some a /\ a_type a = type /\
      isLinkObj a = true /\ outgoing a = normal_outgoing cs type handles.
Proof. apply getHandleSet_handles_ok. Qed.

(** A position that is left open breaks the lookup: asked for the list links
    whose first target is node 1 and whose second target is unspecified, the
    function shrinks its vector of sets to the one it has but goes on to filter
    as many sets as the arity, out of the range of the vector. *)
Theorem getHandleSet_handles_open_position :
  getHandleSet_handles (H := elements_order) small_cs no_hash table3 [1%N; UNDEFINED] None None
    2 6 false = Undef.
Proof. vm_compute. reflexivity. Qed.

(** ** Witnesses *)
Lemma getHandleSet_type_correct_witness :
  exists r, getHandleSet_type (H := elements_order) small_cs table3 1 true = Ok r /\ NoDup r.
Proof.
  destruct (getHandleSet_type_correct (H := elements_order) small_cs table3 1 true table3_wf)
    as (r & Hr & Hnd & _); [by vm_compute|by vm_compute|].
  exists r. exact (conj Hr Hnd).
Defined.

Lemma getHandleSet_target_correct_witness :
  exists r, getHandleSet_target (H := elements_order) small_cs table3 6 3 false false = Ok r.
Proof.
  destruct (getHandleSet_target_correct (H := elements_order) small_cs table3 6 3 false false
              table3_wf) as (r & Hr & _); [by vm_compute|by vm_compute|].
  exists r. exact Hr.
Defined.

Lemma getHandleSet_incoming_correct_witness :
  exists r, getHandleSet_incoming small_cs table3 1 2 true = Ok r /\
    (3%N ∈ r <-> exists a, atomOf (tlb table3) 3 = Some a /\ 1%N ∈ targets a /\
                           kept small_cs 2 true a = true).
Proof.
  destruct (getHandleSet_incoming_correct small_cs table3 1 2 true table3_wf) as (r & Hr & Hin).
  - apply elem_of_live_map. vm_compute. by eexists.
  - exists r. exact (conj Hr (Hin 3%N)).
Defined.

Lemma getHandleSet_name_correct_witness :
  exists r, getHandleSet_name (H := elements_order) small_cs table3 (Some "b"%string) 1 true = Ok r.
Proof.
  destruct (getHandleSet_name_correct (H := elements_order) small_cs table3 "b" 1 true table3_wf)
    as (r & Hr & _); [by vm_compute|by vm_compute|].
  exists r. exact Hr.
Defined.

Lemma getHandleSet_handles_exact_witness :
  exists r, getHandleSet_handles (H := elements_order) small_cs no_hash table3 [1; 2]%N None None
              2 6 false = Ok r /\ (length r <= 1)%nat.
Proof.
  destruct (getHandleSet_handles_exact (H := elements_order) small_cs no_hash table3 [1; 2]%N
              None None 6 table3_wf) as (r & Hr & Hl & _).
  - by vm_compute.
  - intros x Hx. apply elem_of_live_map. apply elem_of_cons in Hx as [->|Hx].
    + vm_compute. by eexists.
    + apply list_elem_of_singleton in Hx as ->. vm_compute. by eexists.
  - simpl. lia.
  - exists r. exact (conj Hr Hl).
Defined.
