(* ===== verification/Temporal.v ===== *)
(** Intervals of time: src/opencog/atomspace/Temporal.cc, and the search of
    src/opencog/atomspace/TemporalTable.cc through the sorted list of the
    times of one handle.

    [unsigned long] has 64 bits, [unsigned int] 32. A [const char*] is the
    string of the characters before its terminator. *)
From stdpp Require Import pretty.
From Stdlib Require Import Ascii.
From S2P Require Import Prelude.

Definition UINT_MAX : N := 4294967295.
Definition ULONG_MAX : N := 2 ^ 64 - 1.
Definition INT_MIN : Z := -2147483648.
Definition INT_MAX : Z := 2147483647.

(** ** Numbers in strings: what the C library does *)
Definition isspace (c : ascii) : bool :=
  let n := N_of_ascii c in (n =? 32)%N || ((9 <=? n)%N && (n <=? 13)%N).
Definition digit (c : ascii) : option N :=
  let n := N_of_ascii c in
  if (48 <=? n)%N && (n <=? 57)%N then Some (n - 48)%N else None.

Fixpoint skip_space (s : string) : string :=
  match s with String c s' => if isspace c then skip_space s' else s | EmptyString => s end.
Definition sign (s : string) : bool * string :=
  match s with
  | String c s' => if Ascii.eqb c "-" then (true, s')
                   else if Ascii.eqb c "+" then (false, s') else (false, s)
  | EmptyString => (false, s)
  end.
Fixpoint digits (s : string) (n : N) : N :=
  match s with
  | String c s' => match digit c with Some d => digits s' (10 * n + d) | None => n end
  | EmptyString => n
  end.

(** [strtoul(s, NULL, 10)]: [ULONG_MAX] when the number is too large. *)
Definition strtoul (s : string) : N :=
  let '(neg, s) := sign (skip_space s) in
  let n := digits s 0 in
  if (ULONG_MAX <? n)%N then ULONG_MAX else if neg : bool then wrap64 (2 ^ 64 - n) else n.

(** [atoi(s)]: undefined when the number is no [int]. *)
Definition atoi (s : string) : res Z :=
  let '(neg, s) := sign (skip_space s) in
  let n := Z.of_N (digits s 0) in
  let n := if neg : bool then Z.opp n else n in
  if (INT_MIN <=? n)%Z && (n <=? INT_MAX)%Z then Ok n else Undef.

(** [%lu] and, of a [bool], [%d]. *)
Definition lu (n : N) : string := pretty n.
Definition d_of_bool (b : bool) : string := if b then "1" else "0".

(** ** Temporals *)
Record Temporal := mkTemporal { t_normal : bool; t_a : N; t_b : N }.

#[export] Instance Temporal_eq_dec : EqDecision Temporal.
Proof. solve_decision. Defined.

Definition Temporal_init (a b : N) (normal : bool) : res Temporal :=
  if normal then
    if (a <? b)%N then Throw InvalidParamException
    else let sum := wrap64 (a + b) in
         if (UINT_MAX <? sum)%N then Throw InvalidParamException
         else Ok (mkTemporal normal a b)
  else if (b <? a)%N then Throw InvalidParamException
  else Ok (mkTemporal normal a b).

Definition Temporal_new (a b : N) (normal : bool) : res Temporal := Temporal_init a b normal.
Definition Temporal_at (timestamp : N) : res Temporal := Temporal_init timestamp timestamp false.

Definition UNDEFINED_A : N := UINT_MAX.
Definition UNDEFINED_B : N := UINT_MAX.
Definition UNDEFINED_NORMAL : bool := true.
Definition UNDEFINED_TEMPORAL : Temporal := mkTemporal UNDEFINED_NORMAL UNDEFINED_A UNDEFINED_B.

Definition isNormal (t : Temporal) : bool := t_normal t.
Definition getA (t : Temporal) : N := t_a t.
Definition getB (t : Temporal) : N := t_b t.
Definition getLowerBound (t : Temporal) : N :=
  if t_normal t then wrap64 (t_a t + 2 ^ 64 - t_b t) else t_a t.
Definition getUpperBound (t : Temporal) : N :=
  if t_normal t then wrap64 (t_a t + t_b t) else t_b t.

Definition compareTo (this other : Temporal) : Z :=
  let low1 := getLowerBound this in
  let low2 := getLowerBound other in
  if (low1 <? low2)%N then -1
  else if (low2 <? low1)%N then 1
  else
    let up1 := getUpperBound this in
    let up2 := getUpperBound other in
    if (up1 <? up2)%N then -1
    else if (up2 <? up1)%N then 1
    else if isNormal this then (if isNormal other then 0 else -1)
    else (if isNormal other then 1 else 0).

Definition T_lt (this rhs : Temporal) : bool := (compareTo this rhs <? 0)%Z.
Definition T_gt (this rhs : Temporal) : bool := (0 <? compareTo this rhs)%Z.
Definition T_le (this rhs : Temporal) : bool := negb (T_gt this rhs).
Definition T_ge (this rhs : Temporal) : bool := negb (T_lt this rhs).
Definition T_eq (this rhs : Temporal) : bool :=
  eqb (t_normal this) (isNormal rhs) && (t_a this =? getA rhs)%N && (t_b this =? getB rhs)%N.
Definition T_ne (this rhs : Temporal) : bool := negb (T_eq this rhs).

Definition Temporal_clone (this : Temporal) : res Temporal :=
  Temporal_new (t_a this) (t_b this) (t_normal this).

#[local] Open Scope string_scope.
Definition Temporal_toString (this : Temporal) : string :=
  if T_eq this UNDEFINED_TEMPORAL then "UNDEFINED_TEMPORAL"
  else "(" +:+ (if t_normal this then "NORMAL" else "UNIFORM") +:+ "," +:+ lu (t_a this)
         +:+ "," +:+ lu (t_b this) +:+ ")".

Definition getTimeNodeName (this : Temporal) : string :=
  if t_normal this then lu (t_a this) +:+ ":" +:+ lu (t_b this) +:+ ":" +:+ d_of_bool (t_normal this)
  else if (t_a this =? t_b this)%N then lu (t_a this)
  else lu (t_a this) +:+ ":" +:+ lu (t_b this).

Definition getTimeNodeName_at (timestamp : N) : string := lu timestamp.

(** The pointer walks to the next colon or to the end. *)
Fixpoint to_colon (nextToken : string) : string :=
  match nextToken with
  | EmptyString => nextToken
  | String c s => if Ascii.eqb c ":" then nextToken else to_colon s
  end.

Definition getFromTimeNodeName (timeNodeName : string) : res Temporal :=
  let nextToken := timeNodeName in
  let a := strtoul nextToken in
  match to_colon nextToken with
  | EmptyString => Temporal_at a
  | String _ nextToken =>
      let b := strtoul nextToken in
      match to_colon nextToken with
      | EmptyString => Temporal_new a b false
      | String _ nextToken =>
          n ← atoi nextToken;
          Temporal_new a b (negb (n =? 0)%Z)
      end
  end.
#[local] Close Scope string_scope.

(** ** The search of TemporalTable *)
Inductive TemporalRelationship :=
  | EXACT | STARTS_BEFORE | STARTS_WITHIN | STARTS_AFTER
  | ENDS_BEFORE | ENDS_WITHIN | ENDS_AFTER | OVERLAPS | INCLUDES
  | NEXT_AFTER_START_OF | NEXT_AFTER_END_OF
  | PREVIOUS_BEFORE_START_OF | PREVIOUS_BEFORE_END_OF.

(** The result and the new value of the argument [searchFinished]. *)
Definition matchesTimeCriterion (time t : Temporal) (criterion : TemporalRelationship)
    (searchFinished : bool) : bool * bool :=
  let l := getLowerBound time in let u := getUpperBound time in
  let l' := getLowerBound t in let u' := getUpperBound t in
  let finish matches (c : bool) := (matches, if negb matches && c then true else searchFinished) in
  let next (matches : bool) := (matches, if matches then true else searchFinished) in
  let previous (matches : bool) := (matches, if negb matches then true else searchFinished) in
  match criterion with
  | EXACT => next (T_eq t time)
  | OVERLAPS => finish ((l' <=? u)%N && (l <=? u')%N) (u' <? l)%N
  | INCLUDES => finish ((l <=? l')%N && (u' <=? u)%N) (l' <? l)%N
  | STARTS_BEFORE => finish (l <? l')%N (l' <=? l)%N
  | STARTS_WITHIN => finish ((l' <=? l)%N && (l <=? u')%N) (u' <? l)%N
  | STARTS_AFTER => ((u' <? l)%N, searchFinished)
  | ENDS_BEFORE => finish (u <? l')%N (l' <=? l)%N
  | ENDS_WITHIN => finish ((l' <=? u)%N && (u <=? u')%N) (u' <? l)%N
  | ENDS_AFTER => ((u' <? u)%N, searchFinished)
  | NEXT_AFTER_START_OF => next (l' <? l)%N
  | NEXT_AFTER_END_OF => next (u' <? l)%N
  | PREVIOUS_BEFORE_START_OF => previous (l <? l')%N
  | PREVIOUS_BEFORE_END_OF => previous (l <? u')%N
  end.

Definition is_previous (criterion : TemporalRelationship) : bool :=
  match criterion with
  | PREVIOUS_BEFORE_START_OF | PREVIOUS_BEFORE_END_OF => true | _ => false
  end.

(** The loop of [get(h, t, criterion)] over the time list [te] of [h]. *)
Fixpoint get_loop (h : Handle) (t : Temporal) (criterion : TemporalRelationship)
    (te : list Temporal) (searchFinished : bool) (result : list (Handle * Temporal))
    : list (Handle * Temporal) :=
  match te with
  | [] => result
  | time :: next =>
      if searchFinished then result
      else
        let '(matches, searchFinished) :=
          if T_eq t UNDEFINED_TEMPORAL then (true, searchFinished)
          else matchesTimeCriterion time t criterion searchFinished in
        let result :=
          if matches : bool then
            if T_ne t UNDEFINED_TEMPORAL && is_previous criterion then [(h, time)]
            else result ++ [(h, time)]
          else result in
        get_loop h t criterion next searchFinished result
  end.

Definition get_times (h : Handle) (t : Temporal) (criterion : TemporalRelationship)
    (te : list Temporal) : list (Handle * Temporal) :=
  get_loop h t criterion te false [].

(** ** What a temporal should be *)

(** The bounds do not overflow. *)
Definition t_wf (t : Temporal) : Prop :=
  if t_normal t then (t_b t <= t_a t)%N /\ (t_a t + t_b t <= UINT_MAX)%N
  else (t_a t <= t_b t)%N /\ (t_b t < 2 ^ 64)%N.

#[export] Instance t_wf_dec t : Decision (t_wf t).
Proof. unfold t_wf. destruct (t_normal t); apply _. Defined.

Lemma t_wf_bounds t :
  t_wf t -> getLowerBound t = (if t_normal t then t_a t - t_b t else t_a t)%N /\
            getUpperBound t = (if t_normal t then t_a t + t_b t else t_b t)%N.
Proof.
  unfold t_wf, getLowerBound, getUpperBound, wrap64, UINT_MAX. destruct (t_normal t); [|done].
  intros [H1 H2]. split; [|apply N.mod_small; lia].
  replace (t_a t + 2 ^ 64 - t_b t)%N with (t_a t - t_b t + 1 * 2 ^ 64)%N by lia.
  rewrite N.Div0.mod_add. apply N.mod_small. lia.
Qed.

Lemma t_wf_le t : t_wf t -> (getLowerBound t <= getUpperBound t)%N.
Proof.
  intros Hwf. destruct (t_wf_bounds t Hwf) as [-> ->]. unfold t_wf in Hwf.
  destruct (t_normal t); lia.
Qed.

Lemma T_eq_true t1 t2 : T_eq t1 t2 = true <-> t1 = t2.
Proof.
  unfold T_eq, isNormal, getA, getB.
  rewrite !andb_true_iff, !N.eqb_eq, eqb_true_iff.
  destruct t1, t2; simpl. split; [intros [[-> ->] ->]; done|by intros [= -> -> ->]].
Qed.

Lemma Temporal_new_decides a b normal :
  (a + b < 2 ^ 64)%N ->
  Temporal_new a b normal =
    if decide (t_wf (mkTemporal normal a b)) then Ok (mkTemporal normal a b)
    else Throw InvalidParamException.
Proof.
  intros Hab. unfold Temporal_new, Temporal_init, t_wf, wrap64. cbn [t_normal t_a t_b].
  destruct normal.
  - rewrite N.mod_small by done.
    destruct (N.ltb_spec a b); [rewrite decide_False by lia; done|].
    destruct (N.ltb_spec UINT_MAX (a + b)); [rewrite decide_False by lia|rewrite decide_True by lia]; done.
  - destruct (N.ltb_spec b a); [rewrite decide_False by lia|rewrite decide_True by lia]; done.
Qed.

Lemma Temporal_clone_ok t : t_wf t -> Temporal_clone t = Ok t.
Proof.
  unfold t_wf, Temporal_clone, Temporal_new, Temporal_init, wrap64, UINT_MAX.
  destruct t as [[|] a b]; cbn [t_normal t_a t_b]; intros [H1 H2].
  - rewrite N.mod_small by lia.
    by rewrite (proj2 (N.ltb_ge _ _)), (proj2 (N.ltb_ge _ _)) by lia.
  - by rewrite (proj2 (N.ltb_ge _ _)) by lia.
Qed.

Lemma t_wf_defined t : t_wf t -> T_eq t UNDEFINED_TEMPORAL = false.
Proof.
  intros Hwf. destruct (T_eq t UNDEFINED_TEMPORAL) eqn:E; [|done].
  apply T_eq_true in E as ->. destruct Hwf as [_ H]. by vm_compute in H.
Qed.

(** The two bounds and the distribution determine a temporal. *)
Lemma bounds_inj t1 t2 :
  t_wf t1 -> t_wf t2 -> getLowerBound t1 = getLowerBound t2 ->
  getUpperBound t1 = getUpperBound t2 -> t_normal t1 = t_normal t2 -> t1 = t2.
Proof.
  intros H1 H2. destruct (t_wf_bounds t1 H1) as [-> ->], (t_wf_bounds t2 H2) as [-> ->].
  unfold t_wf in *. destruct t1 as [n1 a1 b1], t2 as [n2 a2 b2]; simpl in *.
  intros HL HU <-. destruct n1; f_equal; lia.
Qed.

(** What [compareTo] compares: the bounds, then normal before uniform. *)
Definition before (t1 t2 : Temporal) : Prop :=
  (getLowerBound t1 < getLowerBound t2)%N \/
  (getLowerBound t1 = getLowerBound t2 /\
   ((getUpperBound t1 < getUpperBound t2)%N \/
    (getUpperBound t1 = getUpperBound t2 /\ t_normal t1 = true /\ t_normal t2 = false))).

Lemma compareTo_spec t1 t2 :
  (compareTo t1 t2 = -1 /\ before t1 t2)%Z \/ (compareTo t1 t2 = 1 /\ before t2 t1)%Z \/
  (compareTo t1 t2 = 0%Z /\ getLowerBound t1 = getLowerBound t2 /\
   getUpperBound t1 = getUpperBound t2 /\ t_normal t1 = t_normal t2).
Proof.
  unfold compareTo, before, isNormal.
  destruct (N.ltb_spec (getLowerBound t1) (getLowerBound t2)); [left; auto|].
  destruct (N.ltb_spec (getLowerBound t2) (getLowerBound t1)); [right; left; auto|].
  destruct (N.ltb_spec (getUpperBound t1) (getUpperBound t2)); [left; split; [done|]; right; lia|].
  destruct (N.ltb_spec (getUpperBound t2) (getUpperBound t1)); [right; left; split; [done|]; right; lia|].
  assert (getLowerBound t1 = getLowerBound t2) by lia.
  assert (getUpperBound t1 = getUpperBound t2) by lia.
  destruct (t_normal t1), (t_normal t2); intuition lia.
Qed.

Lemma before_irrefl t : ~ before t t.
Proof. unfold before. destruct (t_normal t); intuition (lia || congruence). Qed.

Lemma before_trans t1 t2 t3 : before t1 t2 -> before t2 t3 -> before t1 t3.
Proof. unfold before. intuition (lia || congruence). Qed.

Lemma compareTo_lt t1 t2 : (compareTo t1 t2 < 0)%Z <-> before t1 t2.
Proof.
  destruct (compareTo_spec t1 t2) as [[-> H]|[[-> H]|(-> & H1 & H2 & H3)]].
  - split; [done|lia].
  - split; [lia|]. intros H'. by destruct (before_irrefl t1 (before_trans _ _ _ H' H)).
  - split; [lia|]. unfold before. rewrite H1, H2, H3.
    destruct (t_normal t2); intuition (lia || congruence).
Qed.

Lemma compareTo_zero t1 t2 : t_wf t1 -> t_wf t2 -> compareTo t1 t2 = 0%Z <-> t1 = t2.
Proof.
  intros H1 H2.
  destruct (compareTo_spec t1 t2) as [[-> H]|[[-> H]|(-> & E1 & E2 & E3)]].
  - split; [done|intros ->; by apply before_irrefl in H].
  - split; [done|intros ->; by apply before_irrefl in H].
  - split; [|done]. intros _. by apply bounds_inj.
Qed.

Lemma compareTo_swap t1 t2 : compareTo t2 t1 = Z.opp (compareTo t1 t2).
Proof.
  unfold compareTo, isNormal.
  destruct (N.ltb_spec (getLowerBound t1) (getLowerBound t2)),
    (N.ltb_spec (getLowerBound t2) (getLowerBound t1)); try done; try lia.
  destruct (N.ltb_spec (getUpperBound t1) (getUpperBound t2)),
    (N.ltb_spec (getUpperBound t2) (getUpperBound t1)); try done; try lia.
  by destruct (t_normal t1), (t_normal t2).
Qed.

(** ** Decimal numerals *)
Lemma digit_char d : (d < 10)%N -> digit (pretty_N_char d) = Some d.
Proof.
  intros H.
  assert (Hd : d ∈ [0;1;2;3;4;5;6;7;8;9]%N) by (rewrite !elem_of_cons; lia).
  repeat (apply elem_of_cons in Hd as [->|Hd]; [reflexivity|]). by apply not_elem_of_nil in Hd.
Qed.

Lemma pretty_go_digits n : forall s m, exists k,
  digits (pretty_N_go n s) m = digits s (m * 10 ^ k + n).
Proof.
  induction (N.lt_wf_0 n) as [n _ IH]. intros s m.
  destruct (decide (n = 0)%N) as [->|Hn].
  { exists 0%N. rewrite pretty_N_go_0. f_equal. lia. }
  rewrite pretty_N_go_step by lia.
  destruct (IH (n `div` 10)%N (N.div_lt n 10 ltac:(lia) eq_refl)
              (String (pretty_N_char (n `mod` 10)) s) m) as [k ->].
  exists (k + 1)%N. cbn [digits]. rewrite digit_char by (apply N.mod_lt; lia).
  f_equal. rewrite N.pow_add_r. pose proof (N.div_mod n 10). lia.
Qed.

Lemma string_app_assoc (s1 s2 s3 : string) : (s1 +:+ s2) +:+ s3 = s1 +:+ s2 +:+ s3.
Proof. induction s1 as [|c s1 IH]; [done|]. exact (f_equal (String c) IH). Qed.

Lemma pretty_go_app n : forall s, pretty_N_go n s = pretty_N_go n "" +:+ s.
Proof.
  induction (N.lt_wf_0 n) as [n _ IH]. intros s.
  destruct (decide (n = 0)%N) as [->|Hn]; [done|].
  rewrite !(pretty_N_go_step n) by lia.
  assert (Hlt := N.div_lt n 10 ltac:(lia) eq_refl).
  rewrite (IH _ Hlt (String _ s)), (IH _ Hlt (String _ "")).
  by rewrite string_app_assoc.
Qed.

(** A numeral is made of digits. *)
Fixpoint all_digits (s : string) : Prop :=
  match s with EmptyString => True | String c s' => is_Some (digit c) /\ all_digits s' end.

Lemma pretty_go_all_digits n : forall s, all_digits s -> all_digits (pretty_N_go n s).
Proof.
  induction (N.lt_wf_0 n) as [n _ IH]. intros s Hs.
  destruct (decide (n = 0)%N) as [->|Hn]; [done|].
  rewrite pretty_N_go_step by lia. apply IH; [by apply N.div_lt; lia|].
  split; [|done]. rewrite digit_char by (apply N.mod_lt; lia). eauto.
Qed.

Lemma lu_all_digits n : all_digits (lu n).
Proof.
  unfold lu, pretty, pretty_N. case_decide; [by repeat split; eexists|].
  by apply pretty_go_all_digits.
Qed.

Lemma digits_lu n s : digits (lu n +:+ s) 0 = digits s n.
Proof.
  unfold lu, pretty, pretty_N. case_decide as Hn; [by subst|].
  rewrite <- pretty_go_app. by destruct (pretty_go_digits n s 0) as [k ->].
Qed.

Lemma lu_head n : exists c s, lu n = String c s /\ is_Some (digit c) /\ all_digits s.
Proof.
  pose proof (lu_all_digits n) as Had. destruct (lu n) as [|c s] eqn:E.
  - exfalso. revert E. unfold lu, pretty, pretty_N. case_decide as Hn; [done|].
    rewrite pretty_N_go_step, pretty_go_app by lia. by destruct (pretty_N_go _ _).
  - destruct Had. eauto.
Qed.

(** A digit is no space, no sign and no colon. *)
Lemma digit_plain c :
  is_Some (digit c) -> isspace c = false /\ Ascii.eqb c "-" = false /\
                       Ascii.eqb c "+" = false /\ Ascii.eqb c ":" = false.
Proof.
  unfold digit, isspace. intros [d Hd].
  destruct (N.leb_spec 48 (N_of_ascii c)), (N.leb_spec (N_of_ascii c) 57); try done. clear Hd.
  split.
  { destruct (N.eqb_spec (N_of_ascii c) 32), (N.leb_spec (N_of_ascii c) 13); simpl;
      rewrite ?andb_false_r; done || lia. }
  repeat split; apply Ascii.eqb_neq; intros ->; vm_compute in H, H0; congruence.
Qed.

Lemma unsigned_lu n s : sign (skip_space (lu n +:+ s)) = (false, lu n +:+ s).
Proof.
  destruct (lu_head n) as (c & r & -> & Hc & _).
  destruct (digit_plain c Hc) as (H1 & H2 & H3 & _). simpl. by rewrite H1; simpl; rewrite H2, H3.
Qed.

(** What stands after a numeral does not count. *)
Definition no_digit (s : string) : Prop :=
  match s with EmptyString => True | String c _ => digit c = None end.

Lemma digits_stop s n : no_digit s -> digits s n = n.
Proof. destruct s; simpl; [done|]. by intros ->. Qed.

Lemma strtoul_lu n s : (n <= ULONG_MAX)%N -> no_digit s -> strtoul (lu n +:+ s) = n.
Proof.
  intros Hn Hs. unfold strtoul. rewrite unsigned_lu, digits_lu, digits_stop by done.
  by rewrite (proj2 (N.ltb_ge _ _) Hn).
Qed.

Lemma to_colon_digits s r : all_digits s -> to_colon (s +:+ r) = to_colon r.
Proof.
  induction s as [|c s IH]; [done|]. intros [Hc Hs].
  destruct (digit_plain c Hc) as (_ & _ & _ & H). simpl. rewrite H. by apply IH.
Qed.

Lemma to_colon_lu n r : to_colon (lu n +:+ r) = to_colon r.
Proof. apply to_colon_digits, lu_all_digits. Qed.

Lemma to_colon_here r : to_colon (":" +:+ r) = String ":" r.
Proof. reflexivity. Qed.

Lemma string_app_nil s : s +:+ "" = s.
Proof. induction s as [|c s IH]; [done|]. exact (f_equal (String c) IH). Qed.

(** ** The search stops only when nothing more can match *)

(** The relations as the documentation of [TemporalRelationship] lists them;
    [T] is the time in the table and [T'] the argument of the search. *)
Definition related (criterion : TemporalRelationship) (T' T : Temporal) : bool :=
  let l := getLowerBound T in let u := getUpperBound T in
  let l' := getLowerBound T' in let u' := getUpperBound T' in
  match criterion with
  | EXACT => bool_decide (T = T')
  | STARTS_BEFORE => (l <? l')%N
  | STARTS_WITHIN => (l' <=? l)%N && (l <=? u')%N
  | STARTS_AFTER => (u' <? l)%N
  | ENDS_BEFORE => (u <? l')%N
  | ENDS_WITHIN => (l' <=? u)%N && (u <=? u')%N
  | ENDS_AFTER => (u' <? u)%N
  | OVERLAPS => (l' <=? u)%N && (l <=? u')%N
  | INCLUDES => (l <=? l')%N && (u' <=? u)%N
  | NEXT_AFTER_START_OF => (l' <? l)%N
  | NEXT_AFTER_END_OF => (u' <? l)%N
  | PREVIOUS_BEFORE_START_OF => (l <? l')%N
  | PREVIOUS_BEFORE_END_OF => (l <? u')%N
  end.

Definition is_next (criterion : TemporalRelationship) : bool :=
  match criterion with NEXT_AFTER_START_OF | NEXT_AFTER_END_OF => true | _ => false end.

(** Which of the related times are wanted: the first one for NEXT, the last
    one for PREVIOUS, else all of them. *)
Definition wanted (criterion : TemporalRelationship) (l : list Temporal) : list Temporal :=
  if is_next criterion then take 1 l
  else if is_previous criterion then option_list (last l) else l.

Lemma matches_related time t criterion fin :
  fst (matchesTimeCriterion time t criterion fin) = related criterion t time.
Proof.
  destruct criterion; try done. simpl. destruct (T_eq t time) eqn:E.
  - apply T_eq_true in E as ->. symmetry. by apply bool_decide_eq_true.
  - symmetry. apply bool_decide_eq_false. intros ->. rewrite (proj2 (T_eq_true t t)) in E; done.
Qed.

(** After a time at which the search stops nothing is related. *)
Lemma stop_sound x y t criterion :
  t_wf x -> t_wf y -> before x y ->
  snd (matchesTimeCriterion x t criterion false) = true -> is_next criterion = false ->
  related criterion t y = false.
Proof.
  intros Hx Hy Hxy. pose proof (t_wf_le x Hx) as Lx. pose proof (t_wf_le y Hy) as Ly.
  assert (Hlow : (getLowerBound x <= getLowerBound y)%N) by (unfold before in Hxy; lia).
  destruct criterion; simpl; try done;
    repeat match goal with
    | |- context [(?a <=? ?b)%N] => destruct (N.leb_spec a b)
    | |- context [(?a <? ?b)%N] => destruct (N.ltb_spec a b)
    end; simpl; try done; try lia.
  destruct (T_eq t x) eqn:E; [|done]. intros _ _. apply T_eq_true in E as ->.
  apply bool_decide_eq_false. intros ->. by apply (before_irrefl x).
Qed.

(** Searching is filtering: a search that is over adds nothing. *)
Lemma get_loop_done h t criterion l result : get_loop h t criterion l true result = result.
Proof. by destruct l. Qed.

Lemma nothing_after x l t criterion :
  t_wf x -> Forall t_wf l -> Forall (before x) l -> is_next criterion = false ->
  snd (matchesTimeCriterion x t criterion false) = true ->
  filter (fun T => related criterion t T) l = [].
Proof.
  intros Hx Hwf Hl Hn Hstop.
  induction Hl as [|y l Hy _ IH]; [done|]. apply Forall_cons in Hwf as [Hwy Hwf].
  rewrite filter_cons_False; [by apply IH|]. rewrite (stop_sound x y t criterion) by done. by intros [].
Qed.

Lemma search_all h t criterion l result :
  StronglySorted before l -> Forall t_wf l -> T_eq t UNDEFINED_TEMPORAL = false ->
  is_next criterion = false -> is_previous criterion = false ->
  get_loop h t criterion l false result =
    result ++ (pair h <$> filter (fun T => related criterion t T) l).
Proof.
  intros Hs Hwf Ht Hn Hp. revert result.
  induction Hs as [|x l Hs IH Hx]; intros result; [by rewrite app_nil_r|].
  apply Forall_cons in Hwf as [Hwx Hwf]. cbn [get_loop]. rewrite Ht.
  pose proof (matches_related x t criterion false) as Hm.
  pose proof (nothing_after x l t criterion Hwx Hwf Hx) as Hrest.
  destruct (matchesTimeCriterion x t criterion false) as [m fin]. simpl in Hm, Hrest. subst m.
  unfold T_ne. rewrite Ht, Hp. simpl. rewrite filter_cons.
  destruct fin; [rewrite get_loop_done, Hrest by (done || by destruct criterion)|rewrite IH by done];
    destruct (related criterion t x); simpl; by rewrite ?app_nil_r, <- ?app_assoc.
Qed.

Lemma search_next h t criterion l result :
  T_eq t UNDEFINED_TEMPORAL = false -> is_next criterion = true ->
  get_loop h t criterion l false result =
    result ++ (pair h <$> take 1 (filter (fun T => related criterion t T) l)).
Proof.
  intros Ht Hn. revert result. induction l as [|x l IH]; intros result; [by rewrite app_nil_r|].
  cbn [get_loop]. rewrite Ht. pose proof (matches_related x t criterion false) as Hm.
  assert (Hf : snd (matchesTimeCriterion x t criterion false) = related criterion t x).
  { destruct criterion; try done; simpl; by destruct (_ <? _)%N. }
  destruct (matchesTimeCriterion x t criterion false) as [m fin]. simpl in Hm, Hf. subst m fin.
  assert (Hp : is_previous criterion = false) by (by destruct criterion).
  unfold T_ne. rewrite Ht, Hp. rewrite filter_cons.
  destruct (related criterion t x); simpl; [by rewrite get_loop_done|by rewrite IH].
Qed.

Lemma search_previous h t criterion l result :
  StronglySorted before l -> Forall t_wf l -> T_eq t UNDEFINED_TEMPORAL = false ->
  is_previous criterion = true ->
  get_loop h t criterion l false result =
    match last (filter (fun T => related criterion t T) l) with
    | Some T => [(h, T)] | None => result
    end.
Proof.
  intros Hs Hwf Ht Hp. revert result.
  induction Hs as [|x l Hs IH Hx]; intros result; [done|].
  apply Forall_cons in Hwf as [Hwx Hwf]. cbn [get_loop]. rewrite Ht.
  pose proof (matches_related x t criterion false) as Hm.
  pose proof (nothing_after x l t criterion Hwx Hwf Hx) as Hrest.
  destruct (matchesTimeCriterion x t criterion false) as [m fin]. simpl in Hm, Hrest. subst m.
  unfold T_ne. rewrite Ht, Hp. simpl. rewrite filter_cons.
  destruct fin; [rewrite get_loop_done, Hrest by (done || by destruct criterion)|rewrite IH by done];
    destruct (related criterion t x); simpl; try done.
  rewrite last_cons. by destruct (last _).
Qed.

(** ** Names of time nodes *)
Lemma stamp_parses a : (a < 2 ^ 64)%N -> getFromTimeNodeName (lu a) = Ok (mkTemporal false a a).
Proof.
  intros Ha. unfold getFromTimeNodeName. rewrite <- (string_app_nil (lu a)).
  rewrite strtoul_lu, to_colon_lu by (done || (unfold ULONG_MAX; lia)).
  unfold Temporal_at, Temporal_init. by rewrite N.ltb_irrefl.
Qed.

(** The name of a temporal that the constructor accepts parses to it. *)
Lemma name_parses a b normal t :
  (a < 2 ^ 64)%N -> (b < 2 ^ 64)%N -> Temporal_new a b normal = Ok t ->
  getFromTimeNodeName (getTimeNodeName t) = Ok t.
Proof.
  intros Ha Hb Ht. assert (t = mkTemporal normal a b) as ->.
  { unfold Temporal_new, Temporal_init in Ht. repeat case_match; by simplify_eq. }
  unfold getTimeNodeName. cbn [t_normal t_a t_b]. unfold Temporal_new in *. destruct normal.
  - unfold getFromTimeNodeName. rewrite strtoul_lu, to_colon_lu by (done || (unfold ULONG_MAX; lia)).
    rewrite to_colon_here.
    rewrite strtoul_lu, to_colon_lu by (done || (unfold ULONG_MAX; lia)). exact Ht.
  - destruct (N.eqb_spec a b) as [->|Hne]; [by apply stamp_parses|].
    unfold getFromTimeNodeName. rewrite strtoul_lu, to_colon_lu by (done || (unfold ULONG_MAX; lia)).
    rewrite to_colon_here.
    rewrite <- (string_app_nil (lu b)).
    rewrite strtoul_lu, to_colon_lu by (done || (unfold ULONG_MAX; lia)). exact Ht.
Qed.

Lemma t_wf_accepted t :
  t_wf t -> (t_a t < 2 ^ 64)%N /\ (t_b t < 2 ^ 64)%N /\ Temporal_new (t_a t) (t_b t) (t_normal t) = Ok t.
Proof.
  intros Hwf. pose proof (Temporal_clone_ok t Hwf) as Hc. unfold t_wf, UINT_MAX in Hwf.
  destruct (t_normal t) eqn:E; (split; [lia|split; [lia|]]); unfold Temporal_clone in Hc; by rewrite E in Hc.
Qed.

Lemma wf_name_parses t : t_wf t -> getFromTimeNodeName (getTimeNodeName t) = Ok t.
Proof. intros (Ha & Hb & Ht)%t_wf_accepted. exact (name_parses _ _ _ t Ha Hb Ht). Qed.

(** Different times have different names. *)
Lemma name_inj t1 t2 :
  t_wf t1 -> t_wf t2 -> getTimeNodeName t1 = getTimeNodeName t2 -> t1 = t2.
Proof.
  intros H1 H2 E. apply wf_name_parses in H1, H2. rewrite E in H1. congruence.
Qed.

(** ** Properties *)

(** The search through the sorted time list of a handle, which stops as
    soon as it can, finds exactly the times that the documentation of the
    criterion relates to the argument: all of them, the first one for a NEXT
    criterion, the last one for a PREVIOUS criterion; and for the undefined
    temporal every time of the list. *)
Theorem get_times_exact h t criterion te :
  StronglySorted before te -> Forall t_wf te -> t_wf t ->
  get_times h t criterion te =
    (pair h <$> wanted criterion (filter (fun T => related criterion t T) te)) /\
  get_times h UNDEFINED_TEMPORAL criterion te = (pair h <$> te).
Proof.
  intros Hs Hwf Ht%t_wf_defined. unfold get_times. split.
  - unfold wanted. destruct (is_next criterion) eqn:Hn; [by apply search_next|].
    destruct (is_previous criterion) eqn:Hp; [|by apply search_all].
    rewrite search_previous by done. by destruct (last _).
  - change (pair h <$> te) with ([] ++ (pair h <$> te)). generalize (@nil (Handle * Temporal)).
    clear. induction te as [|x te IH]; intros result; [by rewrite app_nil_r|].
    cbn [get_loop]. simpl. rewrite IH. by rewrite <- app_assoc.
Qed.

(** [compareTo] orders the temporals totally: it is 0 exactly for equal
    ones, as [operator==] says, changes its sign when its arguments are
    swapped, and is transitive. *)
Theorem compareTo_total_order t1 t2 t3 :
  t_wf t1 -> t_wf t2 ->
  (compareTo t1 t2 = 0%Z <-> t1 = t2) /\ (T_eq t1 t2 = true <-> t1 = t2) /\
  compareTo t2 t1 = Z.opp (compareTo t1 t2) /\
  (T_lt t1 t2 = true -> T_lt t2 t3 = true -> T_lt t1 t3 = true).
Proof.
  intros H1 H2. split; [by apply compareTo_zero|]. split; [apply T_eq_true|split].
  - apply compareTo_swap.
  - unfold T_lt. rewrite !Z.ltb_lt, !compareTo_lt. apply before_trans.
Qed.

(** C39. The name of the time node of a temporal can be read back: for every
    temporal that the constructor accepts, the name parses to the temporal.
    Only the undefined temporal has a name that is refused. *)
Theorem timeNodeName_roundtrip a b normal t :
  (a < 2 ^ 64)%N -> (b < 2 ^ 64)%N -> Temporal_new a b normal = Ok t ->
  getFromTimeNodeName (getTimeNodeName t) = Ok t /\
  getFromTimeNodeName (getTimeNodeName_at a) = Ok (mkTemporal false a a) /\
  getFromTimeNodeName (getTimeNodeName UNDEFINED_TEMPORAL) = Throw InvalidParamException.
Proof.
  intros Ha Hb Ht. split; [by apply (name_parses a b normal)|]. split; [by apply stamp_parses|reflexivity].
Qed.


(** The constructor accepts exactly the intervals it documents (no
    negative lower bound, no reversed bounds, no upper bound over [UINT_MAX]
    for the normal distribution) as long as [a + b] fits in 64 bits. When it
    does not, the sum that the check computes wraps around, and an interval
    that ends before it begins is accepted. *)
Theorem Temporal_new_checks a b normal :
  (a + b < 2 ^ 64)%N ->
  (Temporal_new a b normal =
     if decide (t_wf (mkTemporal normal a b)) then Ok (mkTemporal normal a b)
     else Throw InvalidParamException) /\
  exists t, Temporal_new (2 ^ 63 + 1) (2 ^ 63 - 1) true = Ok t /\
    (getUpperBound t < getLowerBound t)%N.
Proof.
  intros Hab. split; [by apply Temporal_new_decides|by eexists].
Qed.

(** A time may overlap another without starting or ending within it. *)
Lemma overlaps_around :
  exists T T', t_wf T /\ t_wf T' /\ related OVERLAPS T' T = true /\
    related STARTS_WITHIN T' T = false /\ related ENDS_WITHIN T' T = false.
Proof. exists (mkTemporal false 0 10), (mkTemporal false 3 5). by vm_compute. Qed.

(** ** Witnesses *)
Definition three_times : list Temporal :=
  [mkTemporal false 1 4; mkTemporal true 7 2; mkTemporal false 6 9].

Lemma get_times_exact_witness :
  get_times 5 (mkTemporal false 3 5) OVERLAPS three_times =
    [(5%N, mkTemporal false 1 4); (5%N, mkTemporal true 7 2)].
Proof.
  assert (Hs : StronglySorted before three_times).
  { repeat constructor; unfold before; vm_compute; intuition done. }
  assert (Hwf : Forall t_wf three_times) by (repeat constructor; by vm_compute).
  assert (Ht : t_wf (mkTemporal false 3 5)) by by vm_compute.
  exact (proj1 (get_times_exact 5 (mkTemporal false 3 5) OVERLAPS three_times Hs Hwf Ht)).
Defined.

Lemma compareTo_total_order_witness :
  compareTo (mkTemporal true 7 2) (mkTemporal false 5 9) =
  Z.opp (compareTo (mkTemporal false 5 9) (mkTemporal true 7 2)).
Proof.
  apply (compareTo_total_order (mkTemporal false 5 9) (mkTemporal true 7 2) UNDEFINED_TEMPORAL);
    by vm_compute.
Defined.

Lemma timeNodeName_roundtrip_witness :
  getFromTimeNodeName (getTimeNodeName (mkTemporal true 70 20)) = Ok (mkTemporal true 70 20).
Proof.
  apply (timeNodeName_roundtrip 70 20 true (mkTemporal true 70 20)); by vm_compute.
Defined.

Lemma Temporal_new_checks_witness : Temporal_new 3 7 true = Throw InvalidParamException.
Proof. exact (proj1 (Temporal_new_checks 3 7 true eq_refl)). Defined.
