(* ===== verification/TemporalEntry.v ===== *)
(** Linked lists of times: src/opencog/atomspace/TemporalEntry.cc.

    The cells of these lists are shared: a table of the time server keeps
    pointers into the middle of a list. So the cells and the [Temporal]
    objects live in a memory, pointers are addresses, and a pointer that is
    null or whose object was deleted must not be followed. Addresses are not
    used twice, so the use of a deleted object is always visible. *)
From S2P Require Import Prelude Temporal.

(** [TemporalEntry]: the pointer [time] is never null. *)
Record Entry := mkEntry { time : positive; next : option positive }.

Record Mem := mkMem {
  temporals : gmap positive Temporal;
  entries : gmap positive Entry;
  next_addr : positive
}.

Abbreviation ptr := (option positive) (only parsing).

Definition Mem_empty : Mem := mkMem ∅ ∅ 1.

(** ** Objects *)
Definition temporal_at (p : positive) : ST Mem Temporal :=
  reads (fun m => of_opt (temporals m !! p)).
Definition entry_at (p : positive) : ST Mem Entry :=
  reads (fun m => of_opt (entries m !! p)).
Definition time_of (p : positive) : ST Mem Temporal :=
  e ← entry_at p; temporal_at (time e).

Definition new_temporal (t : Temporal) : ST Mem positive := fun m =>
  (Ok (next_addr m),
   mkMem (<[next_addr m := t]> (temporals m)) (entries m) (Pos.succ (next_addr m))).
Definition delete_temporal (p : positive) : ST Mem unit :=
  modify (fun m => _ ← of_opt (temporals m !! p);
                   Ok (mkMem (delete p (temporals m)) (entries m) (next_addr m))).

(** The constructor. *)
Definition new_entry (t : positive) : ST Mem positive := fun m =>
  (Ok (next_addr m),
   mkMem (temporals m) (<[next_addr m := mkEntry t None]> (entries m)) (Pos.succ (next_addr m))).
Definition set_next (p : positive) (q : ptr) : ST Mem unit :=
  modify (fun m => e ← of_opt (entries m !! p);
                   Ok (mkMem (temporals m) (<[p := mkEntry (time e) q]> (entries m)) (next_addr m))).
Definition free_entry (p : positive) : ST Mem unit :=
  modify (fun m => _ ← of_opt (entries m !! p);
                   Ok (mkMem (temporals m) (delete p (entries m)) (next_addr m))).

(** No list is longer than the number of live cells. *)
Definition chain_fuel (m : Mem) : nat := S (size (entries m)).

(** ** Operations *)
Module TE.
(** The destructor deletes the rest of the list, too. *)
Fixpoint delete_rest (fuel : nat) (q : positive) : ST Mem unit :=
  match fuel with
  | O => nofuel
  | S fuel' =>
      e ← entry_at q;
      match next e with
      | Some p => _ ← set_next q None; _ ← free_entry q; delete_rest fuel' p
      | None => free_entry q
      end
  end.
Definition delete (p : positive) : ST Mem unit :=
  e ← entry_at p;
  _ ← match next e with
      | Some q => fuel ← asks chain_fuel; delete_rest fuel q
      | None => mret tt
      end;
  free_entry p.

Fixpoint clone_rest (fuel : nat) (p : positive) (q : ptr) : ST Mem unit :=
  match fuel with
  | O => nofuel
  | S fuel' =>
      match q with
      | None => mret tt
      | Some q =>
          e ← entry_at q;
          n ← new_entry (time e);
          _ ← set_next p (Some n);
          clone_rest fuel' n (next e)
      end
  end.
Definition clone (this : ptr) : ST Mem ptr :=
  match this with
  | None => mret None
  | Some this =>
      e ← entry_at this;
      p ← new_entry (time e);
      fuel ← asks chain_fuel;
      _ ← clone_rest fuel p (next e);
      mret (Some p)
  end.

Fixpoint size_loop (fuel : nat) (current : ptr) (size : Z) : ST Mem Z :=
  match fuel with
  | O => nofuel
  | S fuel' =>
      match current with
      | None => mret size
      | Some c => e ← entry_at c; size_loop fuel' (next e) (size + 1)
      end
  end.
Definition getSize (this : ptr) : ST Mem Z := fuel ← asks chain_fuel; size_loop fuel this 0.

Fixpoint last_loop (fuel : nat) (current : positive) : ST Mem positive :=
  match fuel with
  | O => nofuel
  | S fuel' =>
      e ← entry_at current;
      match next e with Some n => last_loop fuel' n | None => mret current end
  end.
Definition last (this : positive) : ST Mem positive := fuel ← asks chain_fuel; last_loop fuel this.

(** [compare] of two [Temporal*] that may be null. *)
Definition compare (t1 t2 : option Temporal) : Z :=
  match t1, t2 with
  | None, Some _ => -1
  | None, None => 0
  | Some _, None => 1
  | Some t1, Some t2 => compareTo t1 t2
  end.

Fixpoint contains_loop (fuel : nat) (current : ptr) (t : positive) : ST Mem bool :=
  match fuel with
  | O => nofuel
  | S fuel' =>
      match current with
      | None => mret false
      | Some c =>
          e ← entry_at c;
          t1 ← temporal_at (time e);
          t2 ← temporal_at t;
          let comparison := compare (Some t1) (Some t2) in
          if (comparison =? 0)%Z then mret true
          else if (0 <? comparison)%Z then mret false
          else contains_loop fuel' (next e) t
      end
  end.
Definition contains (this : ptr) (t : positive) : ST Mem bool :=
  fuel ← asks chain_fuel; contains_loop fuel this t.

(** [remove], the first loop: the head of the list. *)
Fixpoint remove_head (fuel : nat) (set : ptr) (t : positive) : ST Mem ptr :=
  match fuel with
  | O => nofuel
  | S fuel' =>
      match set with
      | None => mret None
      | Some buffer =>
          e ← entry_at buffer;
          t1 ← temporal_at (time e);
          t2 ← temporal_at t;
          if T_eq t1 t2 then
            _ ← set_next buffer None;
            _ ← delete buffer;
            remove_head fuel' (next e) t
          else mret set
      end
  end.
(** The second loop: the cells after [set]. *)
Fixpoint remove_rest (fuel : nat) (set : positive) (t : positive) : ST Mem unit :=
  match fuel with
  | O => nofuel
  | S fuel' =>
      e ← entry_at set;
      match next e with
      | None => mret tt
      | Some buffer =>
          e2 ← entry_at buffer;
          t1 ← temporal_at (time e2);
          t2 ← temporal_at t;
          if T_eq t1 t2 then
            _ ← set_next set (next e2);
            _ ← set_next buffer None;
            _ ← delete buffer;
            remove_rest fuel' set t
          else remove_rest fuel' buffer t
      end
  end.
Definition remove (set : ptr) (t : positive) : ST Mem ptr :=
  fuel ← asks chain_fuel;
  set ← remove_head fuel set t;
  match set with
  | None => mret None
  | Some head =>
      fuel ← asks chain_fuel;
      _ ← remove_rest fuel head t;
      mret (Some head)
  end.

(** [add], the loop: [None] when the time is already in the list, else the
    pointers [previous] and [current]. *)
Fixpoint add_scan (fuel : nat) (current previous : ptr) (t : positive)
    : ST Mem (option (ptr * ptr)) :=
  match fuel with
  | O => nofuel
  | S fuel' =>
      match current with
      | None => mret (Some (previous, None))
      | Some c =>
          e ← entry_at c;
          t1 ← temporal_at (time e);
          t2 ← temporal_at t;
          let comparison := compare (Some t1) (Some t2) in
          if (comparison =? 0)%Z then mret None
          else if (0 <? comparison)%Z then mret (Some (previous, Some c))
          else add_scan fuel' (next e) (Some c) t
      end
  end.
Definition add (sortedSet : ptr) (t : positive) : ST Mem ptr :=
  fuel ← asks chain_fuel;
  pos ← add_scan fuel sortedSet None t;
  match pos with
  | None => mret sortedSet
  | Some (previous, current) =>
      newEntry ← new_entry t;
      _ ← set_next newEntry current;
      match previous with
      | Some previous => _ ← set_next previous (Some newEntry); mret sortedSet
      | None => mret (Some newEntry)
      end
  end.

Definition concatenation (set1 set2 : ptr) : ST Mem ptr :=
  match set1 with
  | None => mret set2
  | Some p =>
      fuel ← asks chain_fuel;
      current ← last_loop fuel p;
      _ ← set_next current set2;
      mret set1
  end.

Fixpoint to_vector_loop (fuel : nat) (current : ptr) (vector : list positive)
    : ST Mem (list positive) :=
  match fuel with
  | O => nofuel
  | S fuel' =>
      match current with
      | None => mret vector
      | Some c => e ← entry_at c; to_vector_loop fuel' (next e) (vector ++ [time e])
      end
  end.
Definition toTemporalVector (this : ptr) : ST Mem (list positive) :=
  n ← getSize this;
  fuel ← asks chain_fuel;
  vector ← to_vector_loop fuel this [];
  if (Z.of_nat (length vector) =? n)%Z then mret vector else throw InconsistenceException.

(** The array is read from its end. *)
Fixpoint from_vector_loop (vector : list positive) (ret : ptr) : ST Mem ptr :=
  match vector with
  | [] => mret ret
  | t :: rest => temp ← new_entry t; ret ← concatenation (Some temp) ret; from_vector_loop rest ret
  end.
Definition fromTemporalVector (vector : list positive) : ST Mem ptr :=
  from_vector_loop (rev vector) None.
End TE.

(** ** What a list holds *)
Record node := mkNode { n_cell : positive; n_time : positive; n_val : Temporal }.

#[export] Instance node_eq_dec : EqDecision node.
Proof. solve_decision. Defined.

Definition is_cell (m : Mem) (n : node) (q : ptr) : Prop :=
  entries m !! n_cell n = Some (mkEntry (n_time n) q) /\ temporals m !! n_time n = Some (n_val n).

(** From [p] the cells of [l] lead to [q]. *)
Fixpoint lseg (m : Mem) (p : ptr) (l : list node) (q : ptr) : Prop :=
  match l with
  | [] => p = q
  | n :: l' => p = Some (n_cell n) /\ exists p', is_cell m n p' /\ lseg m p' l' q
  end.

Definition first_cell (l : list node) (q : ptr) : ptr :=
  match l with [] => q | n :: _ => Some (n_cell n) end.

Lemma lseg_first m p l q : lseg m p l q -> p = first_cell l q.
Proof. destruct l; [done|]. by intros [-> _]. Qed.

Lemma lseg_app m p l1 l2 q :
  lseg m p (l1 ++ l2) q <-> exists r, lseg m p l1 r /\ lseg m r l2 q.
Proof.
  revert p. induction l1 as [|n l1 IH]; intros p; simpl.
  - split; [by exists p|]. by intros (r & -> & H).
  - split.
    + intros (-> & p' & Hc & (r & H1 & H2)%IH). exists r. eauto 6.
    + intros (r & (-> & p' & Hc & H1) & H2). split; [done|]. exists p'. split; [done|].
      apply IH. eauto.
Qed.

(** A list depends on its cells and their times only. *)
Lemma lseg_ext m m' p l q :
  (forall n, n ∈ l -> entries m' !! n_cell n = entries m !! n_cell n) ->
  (forall n, n ∈ l -> temporals m' !! n_time n = temporals m !! n_time n) ->
  lseg m p l q -> lseg m' p l q.
Proof.
  revert p. induction l as [|n l IH]; intros p He Ht; [done|].
  intros (-> & p' & [H1 H2] & H). split; [done|]. exists p'. split.
  - split; [rewrite He by left|rewrite Ht by left]; done.
  - apply IH; [| |done]; intros k Hk; [apply He|apply Ht]; by right.
Qed.

Lemma lseg_cell m p l q n :
  lseg m p l q -> n ∈ l ->
  exists p', is_cell m n p'.
Proof.
  revert p. induction l as [|k l IH]; intros p; [by intros _ ?%not_elem_of_nil|].
  intros (_ & p' & Hc & H) [->|Hn]%elem_of_cons; [eauto|by apply (IH p')].
Qed.

Lemma lseg_length m p l q :
  NoDup (n_cell <$> l) -> lseg m p l q -> length l <= size (entries m).
Proof.
  intros Hd Hl. rewrite <- (length_fmap n_cell l), <- size_dom.
  rewrite <- (size_list_to_set (C := gset positive) _ Hd). apply subseteq_size.
  intros c. rewrite elem_of_list_to_set. intros (n & -> & Hn)%list_elem_of_fmap.
  destruct (lseg_cell m p l q n Hl Hn) as (p' & He & _). by eapply elem_of_dom_2.
Qed.

(** Redirecting the last cell of a list. *)
Lemma lseg_redirect m m' p l n q r :
  NoDup (n_cell <$> (l ++ [n])) -> lseg m p (l ++ [n]) q ->
  entries m' = <[n_cell n := mkEntry (n_time n) r]> (entries m) -> temporals m' = temporals m ->
  lseg m' p (l ++ [n]) r.
Proof.
  rewrite fmap_app, NoDup_app. intros (_ & Hd & _) (s & H1 & H2)%lseg_app He Ht.
  apply lseg_app. exists s. split.
  - revert H1. apply lseg_ext; [|by rewrite Ht]. intros k Hk.
    rewrite He, lookup_insert_ne; [done|]. intros Heq. apply (Hd (n_cell k)).
    + by apply list_elem_of_fmap_2.
    + simpl. rewrite <- Heq. left.
  - destruct H2 as (-> & p' & [_ Hv] & ->). split; [done|]. exists r. split; [|done].
    split; [by rewrite He, lookup_insert_eq|by rewrite Ht].
Qed.

(** ** Memories and what an operation leaves alone *)
Record mem_wf (m : Mem) : Prop := {
  mw_entries : forall c, is_Some (entries m !! c) -> (c < next_addr m)%positive;
  mw_temporals : forall c, is_Some (temporals m !! c) -> (c < next_addr m)%positive
}.

Lemma fresh_entry m : mem_wf m -> entries m !! next_addr m = None.
Proof.
  intros Hwf. apply eq_None_not_Some. intros H%(mw_entries _ Hwf). lia.
Qed.

(** Only the cells [cs] differ; the times of the live cells never do. *)
Record touches (cs : list positive) (m m' : Mem) : Prop := {
  to_wf : mem_wf m';
  to_temporals : temporals m' = temporals m;
  to_addr : (next_addr m <= next_addr m')%positive;
  to_entries : forall c, c ∉ cs -> entries m' !! c = entries m !! c
}.

Lemma touches_lseg cs m m' p l q :
  touches cs m m' -> (forall n, n ∈ l -> n_cell n ∉ cs) -> lseg m p l q -> lseg m' p l q.
Proof.
  intros Ht Hd. apply lseg_ext.
  - intros n Hn. apply (to_entries _ _ _ Ht), Hd, Hn.
  - intros n _. by rewrite (to_temporals _ _ _ Ht).
Qed.

Lemma touches_trans cs1 cs2 m1 m2 m3 :
  touches cs1 m1 m2 -> touches cs2 m2 m3 -> touches (cs1 ++ cs2) m1 m3.
Proof.
  intros [W1 T1 A1 E1] [W2 T2 A2 E2]. split; [done|congruence|lia|].
  intros c Hc. rewrite E2, E1; set_solver.
Qed.

Lemma touches_mono cs cs' m m' : cs ⊆ cs' -> touches cs m m' -> touches cs' m m'.
Proof. intros Hs [W T A E]. split; try done. intros c Hc. apply E. auto. Qed.

(** ** Reading *)
Lemma entry_at_ok m n q : is_cell m n q -> entry_at (n_cell n) m = (Ok (mkEntry (n_time n) q), m).
Proof. intros [H _]. unfold entry_at, reads. by rewrite H. Qed.

Lemma temporal_at_ok m t v : temporals m !! t = Some v -> temporal_at t m = (Ok v, m).
Proof. intros H. unfold temporal_at, reads. by rewrite H. Qed.

Lemma last_ok m p l n :
  NoDup (n_cell <$> (l ++ [n])) -> lseg m (Some p) (l ++ [n]) None ->
  TE.last p m = (Ok (n_cell n), m).
Proof.
  intros Hd Hl. pose proof (lseg_length _ _ _ _ Hd Hl) as Hf.
  unfold TE.last. step (done). unfold chain_fuel.
  assert (Hfuel : length (l ++ [n]) < S (size (entries m))) by lia.
  generalize (S (size (entries m))) Hfuel. clear Hf Hfuel Hd. intros fuel. revert p fuel Hl.
  induction l as [|k l IH]; intros p fuel Hl Hfuel.
  - destruct Hl as ([= ->] & q & Hc & ->). destruct fuel as [|fuel]; simpl in Hfuel; [lia|].
    cbn [TE.last_loop]. step (by apply entry_at_ok). done.
  - destruct Hl as ([= ->] & q & Hc & Hl). destruct fuel as [|fuel]; simpl in Hfuel; [lia|].
    cbn [TE.last_loop]. step (by apply entry_at_ok). cbn [next].
    destruct q as [q|]; [apply IH; [done|lia]|]. by destruct l as [|? ?]; destruct Hl as [? _].
Qed.

(** ** Insertion *)
Definition sorted (l : list node) : Prop := StronglySorted before (n_val <$> l).
Definition all_wf (l : list node) : Prop := Forall (fun n => t_wf (n_val n)) l.

Lemma sorted_cons n l :
  sorted (n :: l) <-> sorted l /\ Forall (fun k => before (n_val n) (n_val k)) l.
Proof.
  unfold sorted. rewrite fmap_cons. split.
  - intros [Hs Hf]%StronglySorted_inv. split; [done|]. rewrite Forall_fmap in Hf. exact Hf.
  - intros [Hs Hf]. constructor; [done|]. apply Forall_fmap. exact Hf.
Qed.

(** What [add_scan] looks for. *)
Fixpoint scan (l : list node) (previous : ptr) (t : Temporal) : option (ptr * ptr) :=
  match l with
  | [] => Some (previous, None)
  | n :: l' =>
      if (compareTo (n_val n) t =? 0)%Z then None
      else if (0 <? compareTo (n_val n) t)%Z then Some (previous, Some (n_cell n))
      else scan l' (Some (n_cell n)) t
  end.

Lemma add_scan_ok m p l previous t v fuel :
  lseg m p l None -> temporals m !! t = Some v -> length l < fuel ->
  TE.add_scan fuel p previous t m = (Ok (scan l previous v), m).
Proof.
  intros Hl Ht. revert p previous fuel Hl.
  induction l as [|n l IH]; intros p previous [|fuel] Hl Hf; simpl in Hf; try lia.
  - rewrite Hl. done.
  - destruct Hl as (-> & q & Hc & Hl). cbn [TE.add_scan].
    step (by apply entry_at_ok). step (apply temporal_at_ok, Hc). step (by apply temporal_at_ok).
    cbn [TE.compare scan next]. repeat case_match; try done. apply IH; [done|lia].
Qed.

Lemma before_compare t1 t2 : before t1 t2 -> (compareTo t1 t2 < 0)%Z.
Proof. apply compareTo_lt. Qed.

Lemma scan_spec l previous t :
  sorted l -> all_wf l -> t_wf t ->
  (scan l previous t = None /\ exists n, n ∈ l /\ n_val n = t) \/
  (exists l1 l2, l = l1 ++ l2 /\ Forall (fun n => before (n_val n) t) l1 /\
     Forall (fun n => before t (n_val n)) l2 /\
     scan l previous t = Some (from_option (Some ∘ n_cell) previous (last l1), first_cell l2 None)).
Proof.
  intros Hs Hwf Ht. revert previous Hs.
  induction Hwf as [|n l Hn Hwf IH]; intros previous Hs; cbn [scan].
  { right. by exists [], []. }
  apply sorted_cons in Hs as [Hs Hall].
  destruct (compareTo_spec (n_val n) t) as [[E H]|[[E H]|(E & H1 & H2 & H3)]]; rewrite E; cbn [Z.eqb Z.ltb Z.compare].
  - destruct (IH (Some (n_cell n)) Hs) as [(-> & k & Hk & Hkt)|(l1 & l2 & -> & F1 & F2 & ->)].
    + left. split; [done|]. exists k. split; [by right|done].
    + right. exists (n :: l1), l2. split; [done|]. split; [by constructor|]. split; [done|].
      f_equal. f_equal. rewrite last_cons. by destruct (last l1).
  - right. exists [], (n :: l). split; [done|]. split; [done|]. split; [|done].
    constructor; [done|]. apply (Forall_impl _ _ _ Hall).
    intros k. by apply before_trans.
  - left. split; [done|]. exists n. split; [left|]. by apply bounds_inj.
Qed.

Lemma set_next_ok m p e q :
  mem_wf m -> entries m !! p = Some e ->
  exists m', set_next p q m = (Ok tt, m') /\ entries m' = <[p := mkEntry (time e) q]> (entries m) /\
             next_addr m' = next_addr m /\ touches [p] m m'.
Proof.
  intros Hwf Hp. eexists. split; [unfold set_next; apply modify_ok; by rewrite Hp|].
  split; [done|]. split; [done|]. split; simpl; [|done|lia|].
  - split; simpl; [|apply Hwf]. intros c [->|[_ ?]]%lookup_insert_is_Some;
      apply (mw_entries _ Hwf); eauto.
  - intros c Hc. rewrite lookup_insert_ne; [done|]. intros ->. apply Hc. left.
Qed.

Lemma new_entry_ok m t :
  mem_wf m ->
  exists m', new_entry t m = (Ok (next_addr m), m') /\
             entries m' = <[next_addr m := mkEntry t None]> (entries m) /\
             touches [next_addr m] m m'.
Proof.
  intros Hwf. eexists. split; [done|]. split; [done|]. split; simpl; [|done|lia|].
  - split; simpl.
    + intros c [<-|[_ H%(mw_entries _ Hwf)]]%lookup_insert_is_Some; lia.
    + intros c H%(mw_temporals _ Hwf). lia.
  - intros c Hc. rewrite lookup_insert_ne; [done|]. intros <-. apply Hc. left.
Qed.

(** [add]: the list is unchanged when it has the time, else one cell is
    inserted at its place. *)
Record inserted (m m' : Mem) (l1 : list node) (k : node) (l2 : list node) : Prop := {
  in_mem : touches (n_cell k :: (n_cell <$> l1)) m m';
  in_cell : n_cell k = next_addr m;
  in_before : Forall (fun n => before (n_val n) (n_val k)) l1;
  in_after : Forall (fun n => before (n_val k) (n_val n)) l2;
  in_list : lseg m' (first_cell (l1 ++ k :: l2) None) (l1 ++ k :: l2) None;
  in_dom : dom (entries m') = {[n_cell k]} ∪ dom (entries m)
}.

Lemma insert_cell_ok m p l1 l2 t v :
  mem_wf m -> NoDup (n_cell <$> (l1 ++ l2)) -> lseg m p (l1 ++ l2) None ->
  temporals m !! t = Some v ->
  Forall (fun n => before (n_val n) v) l1 -> Forall (fun n => before v (n_val n)) l2 ->
  let k := mkNode (next_addr m) t v in
  exists m',
    (newEntry ← new_entry t;
     _ ← set_next newEntry (first_cell l2 None);
     match from_option (Some ∘ n_cell) None (last l1) with
     | Some previous => _ ← set_next previous (Some newEntry); mret p
     | None => mret (Some newEntry)
     end) m = (Ok (first_cell (l1 ++ [k]) None), m') /\ inserted m m' l1 k l2.
Proof.
  intros Hwf Hd Hl Ht F1 F2 k. pose proof (fresh_entry m Hwf) as Hfr.
  assert (Hne : forall n, n ∈ l1 ++ l2 -> n_cell n <> next_addr m).
  { intros n Hn Heq. destruct (lseg_cell _ _ _ _ n Hl Hn) as (q & He & _). congruence. }
  apply lseg_app in Hl as (r & Hl1 & Hl2). pose proof (lseg_first _ _ _ _ Hl2) as ->.
  destruct (new_entry_ok m t Hwf) as (m1 & E1 & M1 & T1). step (exact E1).
  destruct (set_next_ok m1 (next_addr m) (mkEntry t None) (first_cell l2 None) (to_wf _ _ _ T1))
    as (m2 & E2 & M2 & _ & T2); [by rewrite M1, lookup_insert_eq|]. step (exact E2).
  rewrite M1, insert_insert_eq in M2. cbn [time] in M2.
  pose proof (touches_trans _ _ _ _ _ T1 T2) as T. simpl in T.
  assert (Hk : lseg m2 (Some (n_cell k)) (k :: l2) None).
  { split; [done|]. exists (first_cell l2 None). split.
    - split; [by rewrite M2, lookup_insert_eq|by rewrite (to_temporals _ _ _ T)].
    - apply (touches_lseg _ _ _ _ _ _ T); [|done]. intros n Hn.
      rewrite !not_elem_of_cons. pose proof (Hne n ltac:(set_solver)). split_and!; [done..|].
      apply not_elem_of_nil. }
  destruct l1 as [|n0 l0 _] using rev_ind.
  - exists m2. split; [done|]. split; try done; simpl; [|by rewrite M2, dom_insert_L].
    apply (touches_mono [next_addr m; next_addr m]); [set_solver|exact T].
  - rewrite last_snoc. cbn [from_option compose].
    assert (Hn0 : n_cell n0 <> next_addr m) by (apply Hne; set_solver).
    assert (Hl1' : lseg m2 p (l0 ++ [n0]) (first_cell l2 None)).
    { apply (touches_lseg _ _ _ _ _ _ T); [|done]. intros n Hn.
      pose proof (Hne n ltac:(set_solver)). set_solver. }
    pose proof (lseg_cell _ _ _ _ n0 Hl1' ltac:(set_solver)) as (q & [He _]).
    destruct (set_next_ok m2 (n_cell n0) _ (Some (next_addr m)) (to_wf _ _ _ T2) He)
      as (m3 & E3 & M3 & _ & T3).
    step (exact E3). rewrite fmap_app, fmap_app in Hd. apply NoDup_app in Hd as (Hd1 & Hd12 & _).
    rewrite <- fmap_app in Hd1, Hd12.
    assert (Hp : p = first_cell (l0 ++ [n0]) None) by (by destruct l0; destruct Hl1 as [-> _]).
    exists m3. split; [by destruct l0; subst p|]. split; [|done|done|done| |].
    + apply (touches_mono ([next_addr m; next_addr m] ++ [n_cell n0])).
      * rewrite fmap_app. simpl. set_solver.
      * apply (touches_trans _ _ _ _ _ T T3).
    + replace (first_cell _ _) with p by (by subst p; destruct l0).
      apply lseg_app. exists (Some (n_cell k)). split.
      * apply (lseg_redirect m2 m3 _ _ _ (first_cell l2 None)); [done..|exact M3|apply T3].
      * apply (touches_lseg _ _ _ _ _ _ T3); [|done].
        intros n [->|Hn]%elem_of_cons; [set_solver|]. intros Hc%list_elem_of_singleton.
        apply (Hd12 (n_cell n0)); [apply list_elem_of_fmap_2; set_solver|].
        rewrite <- Hc. by apply list_elem_of_fmap_2.
    + rewrite M3, M2, !dom_insert_L. apply elem_of_dom_2 in He. rewrite M2, dom_insert_L in He.
      set_solver.
Qed.

Lemma TE_add_ok m p l t v :
  mem_wf m -> NoDup (n_cell <$> l) -> lseg m p l None -> sorted l -> all_wf l ->
  temporals m !! t = Some v -> t_wf v ->
  (TE.add p t m = (Ok p, m) /\ exists n, n ∈ l /\ n_val n = v) \/
  (exists l1 l2 m', let k := mkNode (next_addr m) t v in
     l = l1 ++ l2 /\ TE.add p t m = (Ok (first_cell (l1 ++ [k]) None), m') /\
     inserted m m' l1 k l2).
Proof.
  intros Hwf Hd Hl Hs Hall Ht Hv.
  assert (Hscan : TE.add_scan (chain_fuel m) p None t m = (Ok (scan l None v), m)).
  { apply add_scan_ok; [done..|]. pose proof (lseg_length _ _ _ _ Hd Hl). unfold chain_fuel. lia. }
  unfold TE.add. step (done). step (exact Hscan).
  destruct (scan_spec l None v Hs Hall Hv) as [(-> & Hex)|(l1 & l2 & -> & F1 & F2 & ->)].
  - by left.
  - right. destruct (insert_cell_ok m p l1 l2 t v Hwf Hd Hl Ht F1 F2) as (m' & E & Hin).
    by exists l1, l2, m'.
Qed.

(** ** Deletion *)
Lemma free_entry_ok m p :
  mem_wf m -> is_Some (entries m !! p) ->
  exists m', free_entry p m = (Ok tt, m') /\ entries m' = delete p (entries m) /\ touches [p] m m'.
Proof.
  intros Hwf [e Hp]. eexists. split; [unfold free_entry; apply modify_ok; by rewrite Hp|].
  split; [done|]. split; simpl; [|done|lia|].
  - split; simpl; [|apply Hwf]. intros c [_ Hc]%lookup_delete_is_Some. by apply (mw_entries _ Hwf).
  - intros c Hc. rewrite lookup_delete_ne; [done|]. intros ->. apply Hc. left.
Qed.

(** A cell that is cut off from its list and deleted. *)
Lemma drop_cell_ok m c e :
  mem_wf m -> entries m !! c = Some e ->
  exists m', (_ ← set_next c None; TE.delete c) m = (Ok tt, m') /\
             entries m' = delete c (entries m) /\ touches [c] m m'.
Proof.
  intros Hwf Hc. destruct (set_next_ok m c e None Hwf Hc) as (m1 & E1 & M1 & _ & T1).
  step (exact E1).
  assert (Hc1 : entries m1 !! c = Some (mkEntry (time e) None)) by (by rewrite M1, lookup_insert_eq).
  unfold TE.delete. step (unfold entry_at, reads; by rewrite Hc1). step (done).
  destruct (free_entry_ok m1 c (to_wf _ _ _ T1)) as (m2 & E2 & M2 & T2); [eauto|].
  exists m2. split; [exact E2|]. split; [by rewrite M2, M1, delete_insert_eq|].
  apply (touches_mono ([c] ++ [c])); [set_solver|]. by apply (touches_trans _ _ _ _ _ T1 T2).
Qed.

(** The times other than [t] are kept. *)
Definition others (t : Temporal) (l : list node) : Prop := Forall (fun n => n_val n <> t) l.

Lemma T_eq_false t1 t2 : t1 <> t2 -> T_eq t1 t2 = false.
Proof. intros Hne. destruct (T_eq t1 t2) eqn:E; [|done]. by apply T_eq_true in E. Qed.

Lemma T_eq_refl t : T_eq t t = true.
Proof. by apply T_eq_true. Qed.

Lemma remove_rest_none m n l t v fuel :
  lseg m (Some (n_cell n)) (n :: l) None -> others v l -> temporals m !! t = Some v ->
  length l < fuel -> TE.remove_rest fuel (n_cell n) t m = (Ok tt, m).
Proof.
  intros Hl Ho Ht. revert n Hl fuel. induction Ho as [|k l Hk Ho IH]; intros n Hl [|fuel] Hf;
    simpl in Hf; try lia; destruct Hl as (_ & q & Hc & Hl); cbn [TE.remove_rest];
    step (by apply entry_at_ok); cbn [next].
  - simpl in Hl. by subst q.
  - destruct Hl as (-> & q' & Hc' & Hl). step (by apply entry_at_ok).
    step (apply temporal_at_ok, Hc'). step (by apply temporal_at_ok).
    rewrite T_eq_false by done. apply IH; [|lia]. split; [done|]. eauto.
Qed.

Lemma bind_seq {S A B D} (a : ST S A) (b : A -> ST S B) (f : B -> ST S D) s x s' :
  (y ← a; b y) s = (Ok x, s') -> (y ← a; z ← b y; f z) s = f x s'.
Proof. unfold mbind, st_bind. destruct (a s) as [[y| | |] s1]; intros H; try done. by rewrite H. Qed.

(** [remove]: the cell of the time is gone and its neighbours are joined. *)
Record removed_cell (m m' : Mem) (l1 : list node) (k : node) (l2 : list node) : Prop := {
  re_mem : touches (n_cell <$> (l1 ++ [k])) m m';
  re_list : lseg m' (first_cell (l1 ++ l2) None) (l1 ++ l2) None;
  re_dom : dom (entries m') = dom (entries m) ∖ {[n_cell k]}
}.

Lemma remove_rest_hit m n l1 k l2 t fuel :
  mem_wf m -> NoDup (n_cell <$> (n :: l1 ++ k :: l2)) ->
  lseg m (Some (n_cell n)) (n :: l1 ++ k :: l2) None ->
  others (n_val k) l1 -> others (n_val k) l2 -> temporals m !! t = Some (n_val k) ->
  length (n :: l1 ++ k :: l2) < fuel ->
  exists m', TE.remove_rest fuel (n_cell n) t m = (Ok tt, m') /\ removed_cell m m' (n :: l1) k l2.
Proof.
  intros Hwf Hd Hl Ho1 Ho2 Ht. revert n Hd Hl fuel.
  induction Ho1 as [|n1 l1 Hn1 Ho1 IH]; intros n Hd Hl [|fuel] Hf; simpl in Hf; try lia;
    pose proof Hl as Hall; destruct Hl as (_ & q & Hc & Hl); cbn [TE.remove_rest];
    step (by apply entry_at_ok); cbn [next].
  - destruct Hl as (-> & q' & Hc' & Hl). step (by apply entry_at_ok).
    step (apply temporal_at_ok, Hc'). step (by apply temporal_at_ok). rewrite T_eq_refl.
    cbn [app] in Hd. rewrite !fmap_cons, !NoDup_cons in Hd. destruct Hd as (Hnk & Hd & _).
    destruct (set_next_ok m (n_cell n) _ q' Hwf (proj1 Hc)) as (m1 & E1 & M1 & _ & T1).
    step (exact E1). cbn [time] in M1.
    assert (Hk1 : entries m1 !! n_cell k = Some (mkEntry (n_time k) q')).
    { rewrite M1, lookup_insert_ne; [apply Hc'|]. intros Heq. apply Hnk. rewrite Heq. left. }
    destruct (drop_cell_ok m1 (n_cell k) _ (to_wf _ _ _ T1) Hk1) as (m2 & E2 & M2 & T2).
    erewrite bind_seq; [|exact E2].
    pose proof (touches_trans _ _ _ _ _ T1 T2) as T. simpl in T.
    assert (Hl2 : lseg m2 (Some (n_cell n)) (n :: l2) None).
    { split; [done|]. exists q'. split.
      - split; [|rewrite (to_temporals _ _ _ T); apply Hc].
        rewrite M2, lookup_delete_ne, M1, lookup_insert_eq; [done|].
        intros Heq. apply Hnk. rewrite <- Heq. left.
      - apply (touches_lseg _ _ _ _ _ _ T); [|done]. intros j Hj%(list_elem_of_fmap_2 n_cell).
        rewrite !not_elem_of_cons. split_and!; [| |apply not_elem_of_nil];
          intros Heq; rewrite Heq in Hj; set_solver. }
    exists m2. split.
    + apply (remove_rest_none m2 n l2 t (n_val k)); [done..|by rewrite (to_temporals _ _ _ T)|lia].
    + split; [exact T|exact Hl2|]. rewrite M2, dom_delete_L, M1, dom_insert_L.
      pose proof (elem_of_dom_2 _ _ _ (proj1 Hc)). set_solver.
  - destruct Hl as (-> & q' & Hc' & Hl). step (by apply entry_at_ok).
    step (apply temporal_at_ok, Hc'). step (by apply temporal_at_ok).
    rewrite T_eq_false by done. cbn [n_cell].
    rewrite fmap_cons, NoDup_cons in Hd. destruct Hd as [Hn Hd].
    destruct (IH n1 Hd) with (fuel := fuel) as (m' & E & [T L D]); [by split; eauto|simpl; lia|].
    exists m'. split; [exact E|]. split; [|split; [done|]|done].
    + apply (touches_mono (n_cell <$> (n1 :: l1) ++ [k])); [|exact T]. cbn [app].
      rewrite !fmap_cons. set_solver.
    + exists (first_cell ((n1 :: l1) ++ l2) None). split; [|done].
      split; [rewrite (to_entries _ _ _ T); [apply Hc|]|rewrite (to_temporals _ _ _ T); apply Hc].
      intros Hin. apply Hn. revert Hin. rewrite !fmap_app, !fmap_cons. set_solver.
Qed.

Lemma remove_head_none m p l t v fuel :
  lseg m p l None -> others v l -> temporals m !! t = Some v ->
  TE.remove_head (S fuel) p t m = (Ok p, m).
Proof.
  intros Hl Ho Ht. cbn [TE.remove_head]. destruct Ho as [|n l Hn Ho]; [simpl in Hl; by subst p|].
  destruct Hl as (-> & q & Hc & Hl). step (by apply entry_at_ok).
  step (apply temporal_at_ok, Hc). step (by apply temporal_at_ok). by rewrite T_eq_false.
Qed.

(** The second loop after a head that stays. *)
Lemma remove_tail_none m p l t v :
  NoDup (n_cell <$> l) -> lseg m p l None -> others v l -> temporals m !! t = Some v ->
  match p with
  | None => mret None
  | Some head => fuel ← asks chain_fuel; _ ← TE.remove_rest fuel head t; mret (Some head)
  end m = (Ok p, m).
Proof.
  intros Hd Hl Ho Ht. pose proof (lseg_length _ _ _ _ Hd Hl) as Hlen.
  destruct Ho as [|n l Hn Ho]; [simpl in Hl; by subst p|].
  pose proof Hl as (-> & _). step (done).
  step (eapply remove_rest_none; [done..|]; unfold chain_fuel; simpl in Hlen; lia). done.
Qed.

Lemma TE_remove_ok m p l1 k l2 t :
  mem_wf m -> NoDup (n_cell <$> (l1 ++ k :: l2)) -> lseg m p (l1 ++ k :: l2) None ->
  others (n_val k) l1 -> others (n_val k) l2 -> temporals m !! t = Some (n_val k) ->
  exists m', TE.remove p t m = (Ok (first_cell (l1 ++ l2) None), m') /\
             removed_cell m m' l1 k l2.
Proof.
  intros Hwf Hd Hl Ho1 Ho2 Ht. pose proof (lseg_length _ _ _ _ Hd Hl) as Hlen.
  unfold TE.remove. step (done). destruct Ho1 as [|n l1 Hn Ho1].
  - cbn [app] in *. destruct Hl as (-> & q & Hc & Hl).
    rewrite fmap_cons, NoDup_cons in Hd. destruct Hd as [Hk Hd].
    destruct (drop_cell_ok m (n_cell k) _ Hwf (proj1 Hc)) as (m1 & E1 & M1 & T1).
    pose proof (lseg_first _ _ _ _ Hl) as ->.
    assert (Hl1 : lseg m1 (first_cell l2 None) l2 None).
    { apply (touches_lseg _ _ _ _ _ _ T1); [|done]. intros n Hn%(list_elem_of_fmap_2 n_cell).
      intros Heq%list_elem_of_singleton. by rewrite Heq in Hn. }
    assert (Ht1 : temporals m1 !! t = Some (n_val k)) by (by rewrite (to_temporals _ _ _ T1)).
    assert (Eh : TE.remove_head (S (size (entries m))) (Some (n_cell k)) t m =
                 (Ok (first_cell l2 None), m1)).
    { cbn [TE.remove_head]. step (by apply entry_at_ok). step (apply temporal_at_ok, Hc).
      step (by apply temporal_at_ok). rewrite T_eq_refl. erewrite bind_seq; [|exact E1].
      destruct (size (entries m)) eqn:Es; [simpl in Hlen; lia|].
      by apply (remove_head_none m1 _ l2 t (n_val k)). }
    step (exact Eh).
    exists m1. split; [by apply (remove_tail_none m1 _ l2 t (n_val k))|].
    split; [done|done|]. by rewrite M1, dom_delete_L.
  - assert (Eh : TE.remove_head (chain_fuel m) p t m = (Ok (Some (n_cell n)), m)).
    { destruct Hl as (-> & q & Hc & Hl). unfold chain_fuel. cbn [TE.remove_head].
      step (by apply entry_at_ok). step (apply temporal_at_ok, Hc).
      step (by apply temporal_at_ok). by rewrite T_eq_false. }
    step (exact Eh). cbv beta iota. step (done). destruct Hl as (-> & q & Hc & Hl).
    destruct (remove_rest_hit m n l1 k l2 t (chain_fuel m) Hwf Hd) as (m' & E & R);
      [by split; eauto|done..| |].
    { unfold chain_fuel. cbn [app] in Hlen |- *. lia. }
    step (exact E). by exists m'.
Qed.
