(* ===== verification/TimeSpec.v ===== *)
(** What the time server promises: a set of pairs of a handle and a time.

    The operations of [TimeServer] (src/opencog/atomspace/TimeServer.h) are
    specified on that set alone, without lists, maps and index; TimeRefine.v
    shows that the code implements them. *)
From stdpp Require Import sorting.
From S2P Require Import Prelude Temporal TemporalEntry.

#[export] Instance Temporal_countable : Countable Temporal.
Proof.
  refine (inj_countable' (fun t => (t_normal t, t_a t, t_b t))
            (fun x => mkTemporal x.1.1 x.1.2 x.2) _).
  by intros [].
Defined.

Abbreviation Pairs := (gset (Handle * Temporal)).

(** ** The times in their order *)
Definition not_later (t1 t2 : Temporal) : Prop := (compareTo t1 t2 <= 0)%Z.

#[export] Instance not_later_dec : RelDecision not_later.
Proof. intros t1 t2. apply Z_le_dec. Defined.

Lemma not_later_before t1 t2 : not_later t1 t2 <-> ~ before t2 t1.
Proof.
  unfold not_later. rewrite <- compareTo_lt, (compareTo_swap t1 t2). lia.
Qed.

#[export] Instance not_later_total : Total not_later.
Proof. intros t1 t2. unfold not_later. rewrite (compareTo_swap t1 t2). lia. Qed.

#[export] Instance not_later_trans : Transitive not_later.
Proof.
  intros t1 t2 t3. rewrite !not_later_before. unfold before.
  destruct (t_normal t1), (t_normal t2), (t_normal t3); intros; intuition (lia || done).
Qed.

Definition in_order (s : gset Temporal) : list Temporal := merge_sort not_later (elements s).

(** The times of a handle, and all times. *)
Definition times_of (A : Pairs) (h : Handle) : list Temporal :=
  in_order (set_map snd (filter (fun p => p.1 = h) A)).
Definition all_times (A : Pairs) : list Temporal := in_order (set_map snd A).

(** The handles of a time. *)
Definition handles_of (A : Pairs) (t : Temporal) : gset Handle :=
  set_map fst (filter (fun p => p.2 = t) A).

Lemma elem_of_in_order s t : t ∈ in_order s <-> t ∈ s.
Proof. unfold in_order. rewrite merge_sort_Permutation. apply elem_of_elements. Qed.

Lemma elem_of_times_of A h t : t ∈ times_of A h <-> (h, t) ∈ A.
Proof.
  unfold times_of. rewrite elem_of_in_order, elem_of_map. split.
  - intros ([h' t'] & -> & [Hh HA]%elem_of_filter). simpl in *. by subst.
  - intros HA. exists (h, t). split; [done|]. by apply elem_of_filter.
Qed.

Lemma elem_of_all_times A t : t ∈ all_times A <-> exists h, (h, t) ∈ A.
Proof.
  unfold all_times. rewrite elem_of_in_order, elem_of_map. split.
  - intros ([h t'] & -> & HA). by exists h.
  - intros [h HA]. by exists (h, t).
Qed.

Lemma elem_of_handles_of A h t : h ∈ handles_of A t <-> (h, t) ∈ A.
Proof.
  unfold handles_of. rewrite elem_of_map. split.
  - intros ([h' t'] & -> & [Ht HA]%elem_of_filter). simpl in *. by subst.
  - intros HA. exists (h, t). split; [done|]. by apply elem_of_filter.
Qed.

(** A list that is strictly sorted is determined by its elements. *)
Lemma sorted_unique l1 l2 :
  StronglySorted before l1 -> StronglySorted before l2 -> (forall t, t ∈ l1 <-> t ∈ l2) -> l1 = l2.
Proof.
  intros H1. revert l2. induction H1 as [|x l1 Hs1 IH Hx]; intros [|y l2] H2 Hin.
  - done.
  - destruct (not_elem_of_nil y). apply Hin. left.
  - destruct (not_elem_of_nil x). apply Hin. left.
  - apply StronglySorted_inv in H2 as [Hs2 Hy]. rewrite Forall_forall in Hx, Hy.
    assert (x = y) as ->.
    { destruct (proj1 (elem_of_cons _ _ _) (proj1 (Hin x) ltac:(left))) as [|Hxl]; [done|].
      destruct (proj1 (elem_of_cons _ _ _) (proj2 (Hin y) ltac:(left))) as [|Hyl]; [done|].
      by destruct (before_irrefl _ (before_trans _ _ _ (Hx y Hyl) (Hy x Hxl))). }
    f_equal. apply IH; [done|]. intros t. specialize (Hin t). rewrite !elem_of_cons in Hin.
    split; intros Ht.
    + destruct (proj1 Hin (or_intror Ht)) as [->|]; [|done]. by apply Hx, before_irrefl in Ht.
    + destruct (proj2 Hin (or_intror Ht)) as [->|]; [|done]. by apply Hy, before_irrefl in Ht.
Qed.

Lemma in_order_sorted s : set_Forall t_wf s -> StronglySorted before (in_order s).
Proof.
  intros Hwf. unfold in_order.
  pose proof (StronglySorted_merge_sort not_later (elements s)) as Hs.
  assert (Hd : NoDup (merge_sort not_later (elements s)))
    by (rewrite merge_sort_Permutation; apply NoDup_elements).
  assert (Hw : Forall t_wf (merge_sort not_later (elements s))).
  { rewrite merge_sort_Permutation. apply Forall_forall. intros t Ht%elem_of_elements. by apply Hwf. }
  induction Hs as [|x l Hs IH Hx]; constructor; apply NoDup_cons in Hd as [Hxl Hd];
    apply Forall_cons in Hw as [Hwx Hw]; [by apply IH|].
  rewrite Forall_forall in Hx, Hw |- *. intros y Hy. apply compareTo_lt.
  pose proof (Hx y Hy) as Hle. unfold not_later in Hle.
  destruct (decide (compareTo x y = 0)%Z) as [Hz|]; [|lia].
  apply (compareTo_zero x y Hwx (Hw y Hy)) in Hz as ->. done.
Qed.

(** ** The operations *)
Definition pairs_at `{SetOrder} (A : Pairs) (t : Temporal) : list (Handle * Temporal) :=
  (fun h => (h, t)) <$> set_order (handles_of A t).

(** The times that a search is to find. *)
Definition found (t : Temporal) (criterion : TemporalRelationship) (l : list Temporal) : list Temporal :=
  if T_eq t UNDEFINED_TEMPORAL then l
  else wanted criterion (filter (fun T => related criterion t T) l).

Record server := mkServer { pairs : Pairs; latest : N }.

Definition spec_new : server := mkServer ∅ 0.
Definition spec_add (h : Handle) (t : Temporal) (S : server) : server :=
  mkServer ({[(h, t)]} ∪ pairs S) (N.max (latest S) (getUpperBound t)).

Definition spec_get `{SetOrder} (h : Handle) (t : Temporal) (criterion : TemporalRelationship)
    (S : server) : list (Handle * Temporal) :=
  if (h =? UNDEFINED)%N then
    let l := found t criterion (all_times (pairs S)) ≫= pairs_at (pairs S) in
    match criterion with
    | EXACT => if T_eq t UNDEFINED_TEMPORAL then l else reverse l
    | _ => l
    end
  else pair h <$> found t criterion (times_of (pairs S) h).

Definition spec_remove `{SetOrder} (h : Handle) (t : Temporal) (criterion : TemporalRelationship)
    (S : server) : bool * server :=
  let l := spec_get h t criterion S in
  (match l with [] => false | _ => true end, mkServer (pairs S ∖ list_to_set l) (latest S)).

(** ** Removals that the code survives

    The code keeps a pointer to the last cell of each list of times. It stays
    right when the last time of a handle stays, or all of them go. *)
Definition safe_last (V l : list Temporal) : bool :=
  match last l with
  | Some u => bool_decide (u ∉ V) || bool_decide (Forall (fun u => u ∈ V) l)
  | None => true
  end.

Definition safe_remove (h : Handle) (t : Temporal) (criterion : TemporalRelationship) (S : server) : bool :=
  if (h =? UNDEFINED)%N then
    let V := found t criterion (all_times (pairs S)) in
    forallb (fun p => safe_last V (times_of (pairs S) p.1)) (elements (pairs S))
  else
    let l := times_of (pairs S) h in
    negb (T_ne t UNDEFINED_TEMPORAL && is_previous criterion) ||
    match last l with Some u => bool_decide (u ∉ found t criterion l) | None => true end.

(** ** Clients *)
Inductive command :=
  | Add (h : Handle) (t : Temporal)
  | Get (h : Handle) (t : Temporal) (criterion : TemporalRelationship)
  | Remove (h : Handle) (t : Temporal) (criterion : TemporalRelationship)
  | Latest
  | Clear.

Inductive answer :=
  | Nothing
  | Found (l : list (Handle * Temporal))
  | Removed (b : bool)
  | Timestamp (n : N).

Definition spec_step `{SetOrder} (c : command) (S : server) : answer * server :=
  match c with
  | Add h t => (Nothing, spec_add h t S)
  | Get h t criterion => (Found (spec_get h t criterion S), S)
  | Remove h t criterion => let r := spec_remove h t criterion S in (Removed r.1, r.2)
  | Latest => (Timestamp (latest S), S)
  | Clear => (Nothing, spec_new)
  end.

Fixpoint spec_run `{SetOrder} (cs : list command) (S : server) : list answer * server :=
  match cs with
  | [] => ([], S)
  | c :: cs => let r := spec_step c S in let r' := spec_run cs r.2 in (r.1 :: r'.1, r'.2)
  end.

Definition t_argb (t : Temporal) : bool :=
  bool_decide (t_wf t) || bool_decide (t = UNDEFINED_TEMPORAL).

(** The times are proper ones, and no removal leaves a pointer behind. *)
Definition admissible (c : command) (S : server) : bool :=
  match c with
  | Add h t => bool_decide (t_wf t)
  | Get h t criterion => t_argb t
  | Remove h t criterion => t_argb t && safe_remove h t criterion S
  | Latest | Clear => true
  end.

Fixpoint all_admissible `{SetOrder} (cs : list command) (S : server) : bool :=
  match cs with
  | [] => true
  | c :: cs => admissible c S && all_admissible cs (spec_step c S).2
  end.
