(* ===== verification/TemporalTable.v ===== *)
(** The tables of the time server: src/opencog/atomspace/TemporalTable.cc,
    TimeServer.cc and .h, with the containers they use: TemporalMap.cc,
    TemporalToHandleSetMap.cc, HandleToTemporalEntryMap.cc, HandleMap.h,
    HandleSet.cc and HandleTemporalPair.cc.

    A [HandleSet] belongs to one entry of one map and is a value here; a
    [HandleTemporalPairEntry*] returned to the caller is the list of its
    pairs. Mutexes are not used by these tables ([useMutex] is false). *)
From S2P Require Import Prelude Temporal TemporalEntry.

(** ** Maps *)

(** [hashTemporal] and [equalTemporal]: keys are equal when [compareTo] is 0,
    that is when they agree on what it compares. *)
Abbreviation TKey := (N * N * bool)%type.
Definition t_key (t : Temporal) : TKey := (getLowerBound t, getUpperBound t, isNormal t).

(** [TemporalToHandleSetMap]: key pointer and handle set by key. *)
Abbreviation TMap := (gmap TKey (positive * gset Handle)).
(** [HandleToTemporalEntryMap]. *)
Abbreviation HMap := (gmap Handle (option positive)).

Module HandleMap.
Definition contains (key : Handle) (m : HMap) : bool := bool_decide (is_Some (m !! key)).
(** [HandleToTemporalEntryMap::get]. *)
Definition get (key : Handle) (m : HMap) : ptr :=
  if contains key m then default None (m !! key) else None.
Definition remove (key : Handle) (m : HMap) : ptr * HMap := (default None (m !! key), delete key m).
(** [HandleToTemporalEntryMap::add] removes the key first. *)
Definition add (key : Handle) (element : ptr) (m : HMap) : HMap :=
  let m := if contains key m then snd (remove key m) else m in <[key := element]> m.
End HandleMap.

Record TemporalTable := mkTT {
  tt_mem : Mem;
  handleMap : HMap;
  tailHandleMap : HMap;
  temporalMap : TMap;
  sortedTemporalList : option positive;
  temporalIndexTable : list (option positive);
  indexTableSize : Z;
  indexTableCount : Z;
  pendingUpdateCount : Z
}.

Definition set_mem m s := mkTT m (handleMap s) (tailHandleMap s) (temporalMap s)
  (sortedTemporalList s) (temporalIndexTable s) (indexTableSize s) (indexTableCount s) (pendingUpdateCount s).
Definition set_handleMap m s := mkTT (tt_mem s) m (tailHandleMap s) (temporalMap s)
  (sortedTemporalList s) (temporalIndexTable s) (indexTableSize s) (indexTableCount s) (pendingUpdateCount s).
Definition set_tailHandleMap m s := mkTT (tt_mem s) (handleMap s) m (temporalMap s)
  (sortedTemporalList s) (temporalIndexTable s) (indexTableSize s) (indexTableCount s) (pendingUpdateCount s).
Definition set_temporalMap m s := mkTT (tt_mem s) (handleMap s) (tailHandleMap s) m
  (sortedTemporalList s) (temporalIndexTable s) (indexTableSize s) (indexTableCount s) (pendingUpdateCount s).
Definition set_sorted p s := mkTT (tt_mem s) (handleMap s) (tailHandleMap s) (temporalMap s)
  p (temporalIndexTable s) (indexTableSize s) (indexTableCount s) (pendingUpdateCount s).
Definition set_table l s := mkTT (tt_mem s) (handleMap s) (tailHandleMap s) (temporalMap s)
  (sortedTemporalList s) l (indexTableSize s) (indexTableCount s) (pendingUpdateCount s).
Definition set_tableSize z s := mkTT (tt_mem s) (handleMap s) (tailHandleMap s) (temporalMap s)
  (sortedTemporalList s) (temporalIndexTable s) z (indexTableCount s) (pendingUpdateCount s).
Definition set_count z s := mkTT (tt_mem s) (handleMap s) (tailHandleMap s) (temporalMap s)
  (sortedTemporalList s) (temporalIndexTable s) (indexTableSize s) z (pendingUpdateCount s).
Definition set_pending z s := mkTT (tt_mem s) (handleMap s) (tailHandleMap s) (temporalMap s)
  (sortedTemporalList s) (temporalIndexTable s) (indexTableSize s) (indexTableCount s) z.

Definition PENDING_UPDATE_RATE_THRESHOLD : Z := 8.
Definition INITIAL_INDEX_TABLE_SIZE : Z := 1.

(** The constructor, in a memory where other objects may live. *)
Definition TemporalTable_new (m : Mem) : TemporalTable :=
  mkTT m ∅ ∅ ∅ None (replicate (Z.to_nat INITIAL_INDEX_TABLE_SIZE) None)
       INITIAL_INDEX_TABLE_SIZE 0 0.

(** An operation on the memory. *)
Definition on_mem {A} (f : ST Mem A) : ST TemporalTable A := fun s =>
  let '(r, m) := f (tt_mem s) in (r, set_mem m s).

(** ** The map of the times *)
Definition tm_find (t : Temporal) (s : TemporalTable) : option (positive * gset Handle) :=
  temporalMap s !! t_key t.
(** [TemporalMap::getKey]. *)
Definition getKey (t : Temporal) (s : TemporalTable) : ptr := fst <$> tm_find t s.
Definition getCount (s : TemporalTable) : Z := Z.of_nat (size (temporalMap s)).
Definition tm_remove (t : Temporal) : ST TemporalTable unit :=
  modst (fun s => set_temporalMap (delete (t_key t) (temporalMap s)) s).
(** [TemporalToHandleSetMap::add] removes the key first. *)
Definition tm_add (key : positive) (t : Temporal) (hs : gset Handle) : ST TemporalTable unit :=
  modst (fun s => set_temporalMap (<[t_key t := (key, hs)]> (temporalMap s)) s).

(** [HandleSet::remove] of a set that is in the map. *)
Definition hs_remove (t : Temporal) (h : Handle) : ST TemporalTable unit :=
  e ← reads (fun s => of_opt (tm_find t s));
  if bool_decide (h ∈ e.2) then modst (fun s => set_temporalMap (<[t_key t := (e.1, e.2 ∖ {[h]})]> (temporalMap s)) s)
  else throw RuntimeException.

(** ** The index table *)

(** An element of the array; reading past it is undefined, and following an
    element that was never written is. *)
Definition index_at (pos : Z) : ST TemporalTable positive :=
  reads (fun s => if (pos <? 0)%Z then Undef
                  else match temporalIndexTable s !! Z.to_nat pos with
                       | Some (Some p) => Ok p
                       | _ => Undef
                       end).
Definition index_set (pos : Z) (p : positive) : ST TemporalTable unit :=
  modify (fun s => if (0 <=? pos)%Z && (Z.to_nat pos <? length (temporalIndexTable s))%nat
                   then Ok (set_table (<[Z.to_nat pos := Some p]> (temporalIndexTable s)) s)
                   else Undef).

(** [TemporalEntry::compare(temporalIndexTable[pos]->time, &t)]. *)
Definition index_compare (pos : Z) (t : Temporal) : ST TemporalTable Z :=
  p ← index_at pos;
  x ← on_mem (time_of p);
  mret (TE.compare (Some x) (Some t)).

Fixpoint index_search (fuel : nat) (low up : Z) (t : Temporal) : ST TemporalTable Z :=
  match fuel with
  | O => nofuel
  | S fuel' =>
      let pos := Z.quot (up + low) 2 in
      compare ← index_compare pos t;
      let again low up := if (low <=? up)%Z then index_search fuel' low up t else mret up in
      if (0 <? compare)%Z then again low (pos - 1)%Z
      else if (compare <? 0)%Z then again (pos + 1)%Z up
      else mret pos
  end.
Definition getTemporalIndexTablePos (t : Temporal) : ST TemporalTable Z :=
  count ← asks indexTableCount;
  index_search (S (Z.to_nat count)) 0 (count - 1) t.

Definition getPreviousTemporalEntry (t : Temporal) : ST TemporalTable (option positive) :=
  pos ← getTemporalIndexTablePos t;
  found ← (if (0 <=? pos)%Z then compare ← index_compare pos t; mret (compare =? 0)%Z
           else mret false);
  let pos := if found : bool then (pos - 1)%Z else pos in
  if (pos <? 0)%Z then mret None else p ← index_at pos; mret (Some p).

(** The loop of [updateIndexTable]. *)
Fixpoint index_fill (fuel : nat) (current : option positive) (i numEntries : Z)
    : ST TemporalTable Z :=
  match fuel with
  | O => nofuel
  | S fuel' =>
      match current with
      | Some c =>
          if (i <? numEntries)%Z then
            _ ← index_set i c;
            e ← on_mem (entry_at c);
            index_fill fuel' (next e) (i + 1) numEntries
          else mret i
      | None => mret i
      end
  end.
Definition updateIndexTable (numEntries : Z) : ST TemporalTable unit :=
  sz ← asks indexTableSize;
  _ ← (if (sz <? numEntries)%Z || (numEntries <? Z.quot sz 4)%Z then
         modst (fun s => set_table (replicate (Z.to_nat (numEntries * 2)) None)
                           (set_tableSize (numEntries * 2) s))
       else mret tt);
  current ← asks sortedTemporalList;
  fuel ← asks (fun s => chain_fuel (tt_mem s));
  i ← index_fill fuel current 0 numEntries;
  _ ← modst (set_count i);
  modst (set_pending 0).

(** What follows a change of the number of entries that the index misses. *)
Definition count_pending (numTemporalEntries : Z) : ST TemporalTable unit :=
  _ ← modst (fun s => set_pending (pendingUpdateCount s + 1) s);
  pending ← asks pendingUpdateCount;
  let pendingRate := Z.quot numTemporalEntries pending in
  if (pendingRate <? PENDING_UPDATE_RATE_THRESHOLD)%Z then updateIndexTable numTemporalEntries
  else mret tt.

(** The two loops of [replaceIndexTablePosition]. *)
Fixpoint replace_forward (fuel : nat) (fPos : Z) (oldEntry newEntry : positive) : ST TemporalTable unit :=
  match fuel with
  | O => nofuel
  | S fuel' =>
      count ← asks indexTableCount;
      if (fPos <? count)%Z then
        old ← on_mem (time_of oldEntry);
        compare ← index_compare fPos old;
        if (compare =? 0)%Z then
          _ ← index_set fPos newEntry;
          replace_forward fuel' (fPos + 1) oldEntry newEntry
        else mret tt
      else mret tt
  end.
Fixpoint replace_backward (fuel : nat) (bPos : Z) (oldEntry newEntry : positive) : ST TemporalTable Z :=
  match fuel with
  | O => nofuel
  | S fuel' =>
      if (0 <=? bPos)%Z then
        old ← on_mem (time_of oldEntry);
        compare ← index_compare bPos old;
        if (compare =? 0)%Z then
          _ ← index_set bPos newEntry;
          replace_backward fuel' (bPos - 1) oldEntry newEntry
        else mret bPos
      else mret bPos
  end.
Definition replaceIndexTablePosition (pos : Z) (newEntry : positive) : ST TemporalTable Z :=
  oldEntry ← index_at pos;
  _ ← index_set pos newEntry;
  count ← asks indexTableCount;
  _ ← replace_forward (S (Z.to_nat count)) (pos + 1) oldEntry newEntry;
  replace_backward (S (Z.to_nat count)) (pos - 1) oldEntry newEntry.

(** ** Removal from the sorted list *)

(** Backwards over the positions that hold [entry]. *)
Fixpoint back_over (fuel : nat) (pos : Z) (entry : positive) : ST TemporalTable Z :=
  match fuel with
  | O => nofuel
  | S fuel' =>
      if (0 <=? pos)%Z then
        p ← index_at pos;
        if bool_decide (p = entry) then back_over fuel' (pos - 1) entry else mret pos
      else mret pos
  end.

(** Taking the entry of [t] out of the index table; the position from which
    the list is searched. *)
Definition leave_index (t : Temporal) : ST TemporalTable Z :=
  pos ← getTemporalIndexTablePos t;
  found ← (if (0 <=? pos)%Z then compare ← index_compare pos t; mret (compare =? 0)%Z
           else mret false);
  if found : bool then
    entry ← index_at pos;
    e ← on_mem (entry_at entry);
    match next e with
    | Some n => replaceIndexTablePosition pos n
    | None =>
        pos ← back_over (S (Z.to_nat pos)) (pos - 1) entry;
        _ ← modst (set_count (pos + 1));
        mret pos
    end
  else mret pos.

(** The search of the linked list: [None] when [t] is not there, else the
    unlinked cell, which is null at the end of the list. *)
Fixpoint unlink_entry (fuel : nat) (previousTe currentTe : option positive) (t : Temporal)
    : ST TemporalTable (option (option positive)) :=
  match fuel with
  | O => nofuel
  | S fuel' =>
      match currentTe with
      | None => mret (Some None)
      | Some c =>
          x ← on_mem (time_of c);
          let compare := TE.compare (Some x) (Some t) in
          if (compare =? 0)%Z then
            e ← on_mem (entry_at c);
            _ ← match previousTe with
                | Some p => on_mem (set_next p (next e))
                | None => modst (set_sorted (next e))
                end;
            _ ← on_mem (set_next c None);
            mret (Some (Some c))
          else if (0 <? compare)%Z then mret None
          else
            e ← on_mem (entry_at c);
            unlink_entry fuel' (Some c) (next e) t
      end
  end.

Definition removeFromSortedEntries (t : Temporal) : ST TemporalTable unit :=
  pos ← leave_index t;
  start ← (if (pos <? 0)%Z then sorted ← asks sortedTemporalList; mret (None, sorted)
           else previousTe ← index_at pos;
                e ← on_mem (entry_at previousTe);
                mret (Some previousTe, next e));
  fuel ← asks (fun s => chain_fuel (tt_mem s));
  removed ← unlink_entry fuel start.1 start.2 t;
  match removed with
  | Some (Some currentTe) =>
      count ← asks indexTableCount;
      at_end ← (if (0 <? count)%Z then p ← index_at (count - 1); mret (bool_decide (currentTe = p))
                else mret false);
      _ ← (if at_end : bool then modst (set_count (count - 1))
           else numTemporalEntries ← asks getCount; count_pending numTemporalEntries);
      on_mem (TE.delete currentTe)
  | _ => mret tt
  end.

(** ** Addition *)

(** The time list of [h] from [timeEntry] and its last cell, with the time. *)
Definition add_to_entries (h : Handle) (t : positive) (timeEntry : option positive)
    : ST TemporalTable (option positive * option positive) :=
  tm ← asks tailHandleMap;
  if HandleMap.contains h tm then
    let '(tailTimeEntry, tm) := HandleMap.remove h tm in
    _ ← modst (set_tailHandleMap tm);
    tail ← lift (of_opt tailTimeEntry);
    x ← on_mem (temporal_at t);
    y ← on_mem (time_of tail);
    if (0 <? TE.compare (Some x) (Some y))%Z then
      _ ← on_mem (TE.add (Some tail) t);
      tail ← on_mem (TE.last tail);
      mret (timeEntry, Some tail)
    else
      timeEntry ← on_mem (TE.add timeEntry t);
      mret (timeEntry, Some tail)
  else
    timeEntry ← on_mem (TE.add timeEntry t);
    head ← lift (of_opt timeEntry);
    tail ← on_mem (TE.last head);
    mret (timeEntry, Some tail).

Definition addToMaps (h : Handle) (t : positive) : ST TemporalTable unit :=
  hm ← asks handleMap;
  let '(timeEntry, hm) :=
    if HandleMap.contains h hm then HandleMap.remove h hm else (None, hm) in
  _ ← modst (set_handleMap hm);
  entries ← add_to_entries h t timeEntry;
  _ ← modst (fun s => set_handleMap (HandleMap.add h entries.1 (handleMap s)) s);
  _ ← modst (fun s => set_tailHandleMap (HandleMap.add h entries.2 (tailHandleMap s)) s);
  x ← on_mem (temporal_at t);
  found ← asks (tm_find x);
  let handleSet := match found with Some e => e.2 | None => ∅ end in
  _ ← (if bool_decide (is_Some found) then tm_remove x else mret tt);
  tm_add t x ({[h]} ∪ handleSet).

(** The new entry, searched from the previous one. *)
Fixpoint find_entry (fuel : nat) (newEntry : option positive) (t : Temporal)
    : ST TemporalTable (option positive) :=
  match fuel with
  | O => nofuel
  | S fuel' =>
      match newEntry with
      | None => mret None
      | Some c =>
          x ← on_mem (time_of c);
          if (TE.compare (Some x) (Some t) =? 0)%Z then mret newEntry
          else e ← on_mem (entry_at c); find_entry fuel' (next e) t
      end
  end.

(** The insertion into the sorted list; [previousEntry]. *)
Definition insert_sorted (t : Temporal) (internal_t : positive) : ST TemporalTable (option positive) :=
  count ← asks indexTableCount;
  if (0 <? count)%Z then
    previousEntry ← getPreviousTemporalEntry t;
    match previousEntry with
    | None =>
        sorted ← asks sortedTemporalList;
        sorted ← on_mem (TE.add sorted internal_t);
        _ ← modst (set_sorted sorted);
        mret sorted
    | Some p => _ ← on_mem (TE.add (Some p) internal_t); mret (Some p)
    end
  else
    sorted ← asks sortedTemporalList;
    sorted ← on_mem (TE.add sorted internal_t);
    _ ← modst (set_sorted sorted);
    mret None.

Definition index_new_entry (t : Temporal) (previousEntry : option positive)
    (numTemporalEntries : Z) : ST TemporalTable unit :=
  count ← asks indexTableCount;
  size ← asks indexTableSize;
  at_end ← (if bool_decide (is_Some previousEntry) && (0 <? count)%Z && (count <? size)%Z then
              p ← index_at (count - 1);
              x ← on_mem (time_of p);
              mret (0 <? TE.compare (Some t) (Some x))%Z
            else mret false);
  if at_end : bool then
    fuel ← asks (fun s => chain_fuel (tt_mem s));
    newEntry ← find_entry fuel previousEntry t;
    match newEntry with
    | None => throw RuntimeException
    | Some newEntry => _ ← index_set count newEntry; modst (set_count (count + 1))
    end
  else count_pending numTemporalEntries.

Definition TT_add (h : Handle) (t : Temporal) : ST TemporalTable unit :=
  internal_t ← asks (getKey t);
  internal_t ← match internal_t with
               | Some p => mret p
               | None => t' ← lift (Temporal_clone t); on_mem (new_temporal t')
               end;
  oldNumTemporalEntries ← asks getCount;
  previousEntry ← insert_sorted t internal_t;
  _ ← addToMaps h internal_t;
  numTemporalEntries ← asks getCount;
  if (numTemporalEntries =? oldNumTemporalEntries)%Z then mret tt
  else index_new_entry t previousEntry numTemporalEntries.

(** ** Lookup *)
Abbreviation HandleTemporalPair := (Handle * positive)%type (only parsing).

Definition not_undefined_previous (t : Temporal) (criterion : TemporalRelationship) : bool :=
  T_ne t UNDEFINED_TEMPORAL && is_previous criterion.

(** Whether the time of an entry matches; the new [searchFinished]. *)
Definition entry_matches (e : Entry) (t : Temporal) (criterion : TemporalRelationship)
    (searchFinished : bool) : ST TemporalTable (bool * bool) :=
  if T_eq t UNDEFINED_TEMPORAL then mret (true, searchFinished)
  else x ← on_mem (temporal_at (time e));
       mret (matchesTimeCriterion x t criterion searchFinished).

(** The loop of [get(h, t, criterion)]. *)
Fixpoint get_handle_loop (fuel : nat) (h : Handle) (t : Temporal)
    (criterion : TemporalRelationship) (te : option positive) (searchFinished : bool)
    (result : list HandleTemporalPair) : ST TemporalTable (list HandleTemporalPair) :=
  match fuel with
  | O => nofuel
  | S fuel' =>
      match te with
      | None => mret result
      | Some c =>
          if searchFinished then mret result
          else
            e ← on_mem (entry_at c);
            m ← entry_matches e t criterion searchFinished;
            let result :=
              if fst (m : bool * bool) then
                if not_undefined_previous t criterion then [(h, time e)]
                else result ++ [(h, time e)]
              else result in
            get_handle_loop fuel' h t criterion (next e) m.2 result
      end
  end.

Section lookup.
Context `{SetOrder}.

(** The pairs of a time, in the order of its handle set. *)
Definition pairs_of (p : positive) (x : Temporal) : ST TemporalTable (list HandleTemporalPair) :=
  hs ← reads (fun s => of_opt (tm_find x s));
  mret ((fun h => (h, p)) <$> set_order hs.2).

Fixpoint get_all_loop (fuel : nat) (te : option positive) (result : list HandleTemporalPair)
    : ST TemporalTable (list HandleTemporalPair) :=
  match fuel with
  | O => nofuel
  | S fuel' =>
      match te with
      | None => mret result
      | Some c =>
          e ← on_mem (entry_at c);
          x ← on_mem (temporal_at (time e));
          l ← pairs_of (time e) x;
          get_all_loop fuel' (next e) (result ++ l)
      end
  end.

(** The internal object for [t], searched in the time list of a handle. *)
Fixpoint find_time (fuel : nat) (te : option positive) (t : Temporal)
    : ST TemporalTable (option positive) :=
  match fuel with
  | O => nofuel
  | S fuel' =>
      match te with
      | None => mret None
      | Some c =>
          e ← on_mem (entry_at c);
          x ← on_mem (temporal_at (time e));
          if (TE.compare (Some t) (Some x) =? 0)%Z then mret (Some (time e))
          else find_time fuel' (next e) t
      end
  end.
Fixpoint get_exact_loop (handles : list Handle) (t : Temporal) (time : option positive)
    (result : list HandleTemporalPair) : ST TemporalTable (list HandleTemporalPair) :=
  match handles with
  | [] => mret result
  | handle :: handles =>
      time ← match time with
             | Some _ => mret time
             | None => te ← asks (fun s => HandleMap.get handle (handleMap s));
                       fuel ← asks (fun s => chain_fuel (tt_mem s));
                       find_time fuel te t
             end;
      match time with
      | None => throw RuntimeException
      | Some p => get_exact_loop handles t time ((handle, p) :: result)
      end
  end.

(** The first entry, from [upperLimitEntry] on, that starts after [t]. *)
Fixpoint upper_limit (fuel : nat) (upperLimitEntry : option positive) (t : Temporal)
    : ST TemporalTable (option positive) :=
  match fuel with
  | O => nofuel
  | S fuel' =>
      match upperLimitEntry with
      | None => mret None
      | Some c =>
          e ← on_mem (entry_at c);
          x ← on_mem (temporal_at (time e));
          if (getUpperBound t <? getLowerBound x)%N then mret upperLimitEntry
          else upper_limit fuel' (next e) t
      end
  end.
Definition overlaps_limit (t : Temporal) : ST TemporalTable (option positive) :=
  upperLimitEntry ← getPreviousTemporalEntry t;
  sorted ← asks sortedTemporalList;
  fuel ← asks (fun s => chain_fuel (tt_mem s));
  upper_limit fuel (match upperLimitEntry with Some p => Some p | None => sorted end) t.

Fixpoint get_overlaps_loop (fuel : nat) (currentEntry upperLimitEntry : option positive)
    (t : Temporal) (result : list HandleTemporalPair)
    : ST TemporalTable (list HandleTemporalPair) :=
  match fuel with
  | O => nofuel
  | S fuel' =>
      if bool_decide (currentEntry = upperLimitEntry) then mret result
      else
        c ← lift (of_opt currentEntry);
        e ← on_mem (entry_at c);
        x ← on_mem (temporal_at (time e));
        l ← (if (getLowerBound t <=? getUpperBound x)%N then pairs_of (time e) x else mret []);
        get_overlaps_loop fuel' (next e) upperLimitEntry t (result ++ l)
  end.

Fixpoint get_criterion_loop (fuel : nat) (te : option positive) (t : Temporal)
    (criterion : TemporalRelationship) (searchFinished : bool) (previousTime : option positive)
    (result : list HandleTemporalPair)
    : ST TemporalTable (option positive * list HandleTemporalPair) :=
  match fuel with
  | O => nofuel
  | S fuel' =>
      match te with
      | None => mret (previousTime, result)
      | Some c =>
          if searchFinished then mret (previousTime, result)
          else
            e ← on_mem (entry_at c);
            x ← on_mem (temporal_at (time e));
            let m := if T_eq t UNDEFINED_TEMPORAL then (true, searchFinished)
                     else matchesTimeCriterion x t criterion searchFinished in
            if m.1 then
              if not_undefined_previous t criterion then
                get_criterion_loop fuel' (next e) t criterion m.2 (Some (time e)) result
              else
                l ← pairs_of (time e) x;
                get_criterion_loop fuel' (next e) t criterion m.2 previousTime (result ++ l)
            else get_criterion_loop fuel' (next e) t criterion m.2 previousTime result
      end
  end.

(** [get(t, criterion)]. *)
Definition TT_get_time (t : Temporal) (criterion : TemporalRelationship)
    : ST TemporalTable (list HandleTemporalPair) :=
  sorted ← asks sortedTemporalList;
  fuel ← asks (fun s => chain_fuel (tt_mem s));
  if T_eq t UNDEFINED_TEMPORAL then get_all_loop fuel sorted []
  else
    match criterion with
    | EXACT =>
        found ← asks (tm_find t);
        match found with
        | Some hs => get_exact_loop (set_order hs.2) t None []
        | None => mret []
        end
    | OVERLAPS =>
        match sorted with
        | None => mret []
        | Some _ =>
            upperLimitEntry ← overlaps_limit t;
            get_overlaps_loop fuel sorted upperLimitEntry t []
        end
    | _ =>
        r ← get_criterion_loop fuel sorted t criterion false None [];
        match r.1 with
        | None => mret r.2
        | Some p => x ← on_mem (temporal_at p); l ← pairs_of p x; mret (r.2 ++ l)
        end
    end.

(** [get(h, t, criterion)]. *)
Definition TT_get (h : Handle) (t : Temporal) (criterion : TemporalRelationship)
    : ST TemporalTable (list HandleTemporalPair) :=
  if (h =? UNDEFINED)%N then TT_get_time t criterion
  else
    te ← asks (fun s => HandleMap.get h (handleMap s));
    fuel ← asks (fun s => chain_fuel (tt_mem s));
    get_handle_loop fuel h t criterion te false [].
End lookup.

(** ** Removal *)

(** [h] leaves the handle set of the time at [p]; a time without handles
    leaves the map and the sorted list, and is to be deleted. *)
Definition drop_handle (h : Handle) (p : positive) (toBeDeleted : gset positive)
    : ST TemporalTable (gset positive) :=
  x ← on_mem (temporal_at p);
  _ ← hs_remove x h;
  e ← reads (fun s => of_opt (tm_find x s));
  if bool_decide (size e.2 = 0) then
    _ ← tm_remove x;
    _ ← removeFromSortedEntries x;
    mret ({[p]} ∪ toBeDeleted)
  else mret toBeDeleted.

Record handle_removal := mkHR {
  hr_te : option positive;
  hr_previousTe : option positive;
  hr_result : bool;
  hr_toBeDeleted : gset positive
}.

(** The loop of [remove(h, t, criterion)]. *)
Fixpoint remove_handle_loop (fuel : nat) (h : Handle) (t : Temporal)
    (criterion : TemporalRelationship) (tailTe currentTe : option positive)
    (searchFinished : bool) (r : handle_removal) : ST TemporalTable handle_removal :=
  match fuel with
  | O => nofuel
  | S fuel' =>
      match currentTe with
      | None => mret r
      | Some c =>
          if searchFinished then mret r
          else
            e ← on_mem (entry_at c);
            m ← entry_matches e t criterion searchFinished;
            if fst (m : bool * bool) then
              if not_undefined_previous t criterion then
                remove_handle_loop fuel' h t criterion tailTe (next e) m.2
                  (mkHR (hr_te r) (Some c) true (hr_toBeDeleted r))
              else
                toBeDeleted ← drop_handle h (time e) (hr_toBeDeleted r);
                e ← on_mem (entry_at c);
                _ ← (if bool_decide (tailTe = Some c)
                     then modst (fun s => set_tailHandleMap (snd (HandleMap.remove h (tailHandleMap s))) s)
                     else mret tt);
                te ← on_mem (TE.remove (hr_te r) (time e));
                remove_handle_loop fuel' h t criterion tailTe (next e) m.2
                  (mkHR te (hr_previousTe r) true toBeDeleted)
            else remove_handle_loop fuel' h t criterion tailTe (next e) m.2 r
      end
  end.

Definition delete_temporals (l : gset positive) : ST TemporalTable unit :=
  foreach (fun p => on_mem (delete_temporal p)) (elements l).

(** Up to the update of [handleMap]. *)
Definition remove_handle_times (h : Handle) (t : Temporal) (criterion : TemporalRelationship)
    : ST TemporalTable handle_removal :=
  te ← asks (fun s => HandleMap.get h (handleMap s));
  tailTe ← asks (fun s => HandleMap.get h (tailHandleMap s));
  fuel ← asks (fun s => chain_fuel (tt_mem s));
  r ← remove_handle_loop fuel h t criterion tailTe te false (mkHR te None false ∅);
  match hr_previousTe r with
  | None => mret r
  | Some previousTe =>
      e ← on_mem (entry_at previousTe);
      toBeDeleted ← drop_handle h (time e) (hr_toBeDeleted r);
      te ← on_mem (TE.remove (hr_te r) (time e));
      mret (mkHR te (Some previousTe) (hr_result r) toBeDeleted)
  end.

Definition TT_remove_handle (h : Handle) (t : Temporal) (criterion : TemporalRelationship)
    : ST TemporalTable bool :=
  r ← remove_handle_times h t criterion;
  _ ← modst (fun s => set_handleMap (snd (HandleMap.remove h (handleMap s))) s);
  _ ← match hr_te r with
      | None => mret tt
      | Some _ => modst (fun s => set_handleMap (HandleMap.add h (hr_te r) (handleMap s)) s)
      end;
  _ ← delete_temporals (hr_toBeDeleted r);
  mret (hr_result r).

Section removal.
Context `{SetOrder}.

(** One handle of the time [internal_t] that is removed. *)
Definition remove_from_handle (internal_t : positive) (handle : Handle) : ST TemporalTable unit :=
  hm ← asks handleMap;
  let '(te, hm) := HandleMap.remove handle hm in
  _ ← modst (set_handleMap hm);
  tailTe ← asks (fun s => HandleMap.get handle (tailHandleMap s));
  _ ← (if bool_decide (is_Some tailTe) && bool_decide (tailTe = te)
       then modst (fun s => set_tailHandleMap (snd (HandleMap.remove handle (tailHandleMap s))) s)
       else mret tt);
  te ← on_mem (TE.remove te internal_t);
  match te with
  | None => mret tt
  | Some _ => modst (fun s => set_handleMap (HandleMap.add handle te (handleMap s)) s)
  end.

Definition remove_exact (t : Temporal) : ST TemporalTable bool :=
  internal_t ← asks (getKey t);
  match internal_t with
  | None => mret false
  | Some p =>
      x ← on_mem (temporal_at p);
      hs ← reads (fun s => of_opt (tm_find x s));
      _ ← tm_remove x;
      _ ← foreach (remove_from_handle p) (set_order hs.2);
      _ ← removeFromSortedEntries t;
      _ ← on_mem (delete_temporal p);
      mret true
  end.

(** The loops of [remove(t, criterion)]; [rec] is the recursive call. *)
Fixpoint remove_all_loop (rec : Temporal -> ST TemporalTable bool) (fuel : nat)
    (te : option positive) : ST TemporalTable unit :=
  match fuel with
  | O => nofuel
  | S fuel' =>
      match te with
      | None => mret tt
      | Some c =>
          e ← on_mem (entry_at c);
          x ← on_mem (temporal_at (time e));
          _ ← rec x;
          remove_all_loop rec fuel' (next e)
      end
  end.

Fixpoint remove_overlaps_loop (rec : Temporal -> ST TemporalTable bool) (fuel : nat)
    (currentEntry upperLimitEntry : option positive) (t : Temporal) (result : bool)
    : ST TemporalTable bool :=
  match fuel with
  | O => nofuel
  | S fuel' =>
      if bool_decide (currentEntry = upperLimitEntry) then mret result
      else
        c ← lift (of_opt currentEntry);
        e ← on_mem (entry_at c);
        x ← on_mem (temporal_at (time e));
        if (getLowerBound t <=? getUpperBound x)%N then
          _ ← rec x;
          remove_overlaps_loop rec fuel' (next e) upperLimitEntry t true
        else remove_overlaps_loop rec fuel' (next e) upperLimitEntry t result
  end.

Fixpoint remove_criterion_loop (rec : Temporal -> ST TemporalTable bool) (fuel : nat)
    (te : option positive) (t : Temporal) (criterion : TemporalRelationship)
    (searchFinished : bool) (previousTime : option positive) (result : bool)
    : ST TemporalTable (option positive * bool) :=
  match fuel with
  | O => nofuel
  | S fuel' =>
      match te with
      | None => mret (previousTime, result)
      | Some c =>
          if searchFinished then mret (previousTime, result)
          else
            e ← on_mem (entry_at c);
            x ← on_mem (temporal_at (time e));
            let m := matchesTimeCriterion x t criterion searchFinished in
            if m.1 then
              if is_previous criterion then
                remove_criterion_loop rec fuel' (next e) t criterion m.2 (Some (time e)) true
              else
                _ ← rec x;
                remove_criterion_loop rec fuel' (next e) t criterion m.2 previousTime true
            else remove_criterion_loop rec fuel' (next e) t criterion m.2 previousTime result
      end
  end.

(** [remove(t, criterion)]; it calls itself with [EXACT]. *)
Fixpoint TT_remove_time (depth : nat) (t : Temporal) (criterion : TemporalRelationship)
    : ST TemporalTable bool :=
  match depth with
  | O => nofuel
  | S depth' =>
      let rec x := TT_remove_time depth' x EXACT in
      sorted ← asks sortedTemporalList;
      fuel ← asks (fun s => chain_fuel (tt_mem s));
      if T_eq t UNDEFINED_TEMPORAL then
        _ ← remove_all_loop rec fuel sorted;
        mret (bool_decide (is_Some sorted))
      else
        match criterion with
        | EXACT => remove_exact t
        | OVERLAPS =>
            match sorted with
            | None => mret false
            | Some _ =>
                upperLimitEntry ← overlaps_limit t;
                remove_overlaps_loop rec fuel sorted upperLimitEntry t false
            end
        | _ =>
            r ← remove_criterion_loop rec fuel sorted t criterion false None false;
            _ ← match fst (r : option positive * bool) with
                | None => mret tt
                | Some p => x ← on_mem (temporal_at p); _ ← rec x; mret tt
                end;
            mret r.2
        end
  end.

(** A stored time is never [UNDEFINED_TEMPORAL], so the calls go one deep. *)
Definition remove_depth : nat := 2.

(** [remove(h, t, criterion)]. *)
Definition TT_remove (h : Handle) (t : Temporal) (criterion : TemporalRelationship)
    : ST TemporalTable bool :=
  if (h =? UNDEFINED)%N then TT_remove_time remove_depth t criterion
  else TT_remove_handle h t criterion.

(** The destructor. *)
Definition delete_list (p : option positive) : ST TemporalTable unit :=
  match p with None => mret tt | Some p => on_mem (TE.delete p) end.
Definition TT_delete : ST TemporalTable unit :=
  _ ← modst (set_tailHandleMap ∅);
  hm ← asks handleMap;
  _ ← foreach delete_list (snd <$> map_to_list hm);
  toBeDeleted ← asks (fun s => list_to_set (fst <$> (snd <$> map_to_list (temporalMap s))) : gset positive);
  sorted ← asks sortedTemporalList;
  _ ← delete_list sorted;
  delete_temporals toBeDeleted.

(** ** The time server *)
Record TimeServer := mkTS { table : TemporalTable; latestTimestamp : N }.

Definition on_table {A} (f : ST TemporalTable A) : ST TimeServer A := fun s =>
  let '(r, t) := f (table s) in (r, mkTS t (latestTimestamp s)).

Definition TimeServer_init (m : Mem) : TimeServer := mkTS (TemporalTable_new m) 0.
Definition TimeServer_new : TimeServer := TimeServer_init Mem_empty.

Definition TS_add (h : Handle) (t : Temporal) : ST TimeServer unit :=
  _ ← on_table (TT_add h t);
  modst (fun s => if (latestTimestamp s <? getUpperBound t)%N
                  then mkTS (table s) (getUpperBound t) else s).

(** The pairs are handed over with the values of their times. *)
Definition TS_get (h : Handle) (t : Temporal) (criterion : TemporalRelationship)
    : ST TimeServer (list HandleTemporalPair) := on_table (TT_get h t criterion).

Definition TS_remove (h : Handle) (t : Temporal) (criterion : TemporalRelationship)
    : ST TimeServer bool := on_table (TT_remove h t criterion).

Definition getLatestTimestamp (s : TimeServer) : N := latestTimestamp s.

Definition TS_clear : ST TimeServer unit :=
  _ ← on_table TT_delete;
  modst (fun s => TimeServer_init (tt_mem (table s))).
End removal.
