(* ===== verification/TimeIndex.v ===== *)
(** The index table of the time server: the array of pointers into the sorted
    list that src/opencog/atomspace/TemporalTable.cc searches by halving.

    [I] is the list of the cells that the array points to. They are cells of
    the sorted list [S] in its order, possibly repeated, and the number of the
    cells of [S] that are missing is bounded by [pendingUpdateCount]. *)
From S2P Require Import Prelude Temporal TemporalEntry TemporalTable.

(** ** Running operations of the memory *)
Lemma set_mem_id s : set_mem (tt_mem s) s = s.
Proof. by destruct s. Qed.

Lemma on_mem_ok {A} (f : ST Mem A) s a m :
  f (tt_mem s) = (Ok a, m) -> on_mem f s = (Ok a, set_mem m s).
Proof. unfold on_mem. by intros ->. Qed.

Lemma on_mem_read {A} (f : ST Mem A) s a :
  f (tt_mem s) = (Ok a, tt_mem s) -> on_mem f s = (Ok a, s).
Proof. intros H. rewrite (on_mem_ok _ _ _ _ H). by rewrite set_mem_id. Qed.

Definition live_cell (m : Mem) (n : node) : Prop := exists q, is_cell m n q.

Lemma time_of_ok m n : live_cell m n -> time_of (n_cell n) m = (Ok (n_val n), m).
Proof. intros [q Hc]. unfold time_of. step (by apply entry_at_ok). by apply temporal_at_ok, Hc. Qed.

(** ** The array *)
Record points_to (s : TemporalTable) (I : list node) : Prop := {
  pt_count : Z.of_nat (length I) = indexTableCount s;
  pt_size : Z.of_nat (length (temporalIndexTable s)) = indexTableSize s;
  pt_at : forall i n, I !! i = Some n -> temporalIndexTable s !! i = Some (Some (n_cell n))
}.

Definition not_after (n k : node) : Prop := n = k \/ before (n_val n) (n_val k).

Lemma index_at_ok s I i n :
  points_to s I -> I !! i = Some n -> index_at (Z.of_nat i) s = (Ok (n_cell n), s).
Proof.
  intros Hp Hi. unfold index_at, reads. rewrite (proj2 (Z.ltb_ge _ _)) by lia.
  by rewrite Nat2Z.id, (pt_at _ _ Hp i n Hi).
Qed.

Lemma index_compare_ok s I i n t :
  points_to s I -> I !! i = Some n -> live_cell (tt_mem s) n ->
  index_compare (Z.of_nat i) t s = (Ok (compareTo (n_val n) t), s).
Proof.
  intros Hp Hi Hc. unfold index_compare. step (by eapply index_at_ok).
  step (by apply on_mem_read, time_of_ok). done.
Qed.

Lemma index_set_ok s I i k :
  points_to s I -> i < length I ->
  exists s', index_set (Z.of_nat i) (n_cell k) s = (Ok tt, s') /\
             s' = set_table (<[i := Some (n_cell k)]> (temporalIndexTable s)) s /\
             points_to s' (<[i := k]> I).
Proof.
  intros Hp Hi. eexists. split; [|split; [reflexivity|]].
  - unfold index_set. apply modify_ok. rewrite Nat2Z.id.
    destruct (lookup_lt_is_Some_2 I i Hi) as [n Hn].
    pose proof (lookup_lt_Some _ _ _ (pt_at _ _ Hp i n Hn)).
    rewrite (proj2 (Z.leb_le _ _)), (proj2 (Nat.ltb_lt _ _)) by lia. done.
  - split; [rewrite length_insert; apply Hp|simpl; rewrite length_insert; apply Hp|].
    intros j n Hj. cbn [temporalIndexTable set_table].
    destruct (decide (i = j)) as [->|Hne].
    + rewrite list_lookup_insert_eq in Hj by done. simplify_eq.
      destruct (lookup_lt_is_Some_2 I j Hi) as [n' Hn'].
      apply list_lookup_insert_eq, (lookup_lt_Some _ _ _ (pt_at _ _ Hp j n' Hn')).
    + rewrite list_lookup_insert_ne in Hj by done. rewrite list_lookup_insert_ne by done. by apply (pt_at _ _ Hp).
Qed.

(** ** Binary search *)
Section search.
Context (s : TemporalTable) (I : list node) (t : Temporal).
Context (Hp : points_to s I) (Hlive : Forall (live_cell (tt_mem s)) I).
Context (Hsorted : forall i j n k, i <= j -> I !! i = Some n -> I !! j = Some k -> not_after n k).
Context (Hwf : Forall (fun n => t_wf (n_val n)) I) (Ht : t_wf t).

(** Everything up to [pos] is before [t], everything behind it after [t]. *)
Definition splits (pos : Z) : Prop :=
  (-1 <= pos < Z.of_nat (length I))%Z /\
  (forall i n, (Z.of_nat i <= pos)%Z -> I !! i = Some n -> before (n_val n) t) /\
  (forall i n, (pos < Z.of_nat i)%Z -> I !! i = Some n -> before t (n_val n)).

Definition found_at (pos : Z) : Prop :=
  exists i n, pos = Z.of_nat i /\ I !! i = Some n /\ n_val n = t.

Lemma compare_cases i n :
  I !! i = Some n ->
  (compareTo (n_val n) t < 0 /\ before (n_val n) t)%Z \/
  (0 < compareTo (n_val n) t /\ before t (n_val n))%Z \/
  (compareTo (n_val n) t = 0%Z /\ n_val n = t).
Proof.
  intros Hn. rewrite Forall_forall in Hwf.
  pose proof (Hwf n (list_elem_of_lookup_2 _ _ _ Hn)) as Hwn.
  destruct (compareTo_spec (n_val n) t) as [[E H]|[[E H]|(E & H1 & H2 & H3)]]; [left|right; left|right; right].
  - split; [lia|done].
  - split; [lia|done].
  - split; [done|]. by apply bounds_inj.
Qed.

Lemma index_search_ok fuel low up :
  (0 <= low <= up)%Z -> (up < Z.of_nat (length I))%Z -> (up - low < Z.of_nat fuel)%Z ->
  (forall i n, (Z.of_nat i < low)%Z -> I !! i = Some n -> before (n_val n) t) ->
  (forall i n, (up < Z.of_nat i)%Z -> I !! i = Some n -> before t (n_val n)) ->
  exists pos, index_search fuel low up t s = (Ok pos, s) /\ (found_at pos \/ splits pos).
Proof.
  revert low up. induction fuel as [|fuel IH]; intros low up Hlow Hup Hf Hb Ha; [lia|].
  cbn [index_search]. set (pos := Z.quot (up + low) 2).
  assert (Hpos : (low <= pos <= up)%Z).
  { unfold pos. pose proof (Z.quot_rem' (up + low) 2).
    pose proof (Z.rem_bound_pos (up + low) 2 ltac:(lia) ltac:(lia)). lia. }
  destruct (lookup_lt_is_Some_2 I (Z.to_nat pos) ltac:(lia)) as [n Hn].
  pose proof (Hn) as Hlv. rewrite Forall_forall in Hlive.
  assert (Ec : index_compare pos t s = (Ok (compareTo (n_val n) t), s)).
  { replace pos with (Z.of_nat (Z.to_nat pos)) by lia.
    apply (index_compare_ok s I _ n); [done..|].
    apply Hlive, (list_elem_of_lookup_2 _ _ _ Hn). }
  step (exact Ec).
  destruct (compare_cases _ _ Hn) as [[H1 H2]|[[H1 H2]|[H1 H2]]].
  - rewrite (proj2 (Z.ltb_ge _ _)), (proj2 (Z.ltb_lt _ _)) by lia.
    assert (Hb' : forall i k, (Z.of_nat i < pos + 1)%Z -> I !! i = Some k -> before (n_val k) t).
    { intros i k Hi Hk. destruct (Hsorted i (Z.to_nat pos) k n ltac:(lia) Hk Hn) as [->|H]; [done|].
      by apply (before_trans _ _ _ H). }
    destruct (Z.leb_spec (pos + 1) up) as [Hle|Hgt]; [apply IH; try done; lia|].
    exists up. split; [done|]. right. split; [lia|]. split; [|done].
    intros i k Hi. apply Hb'. lia.
  - rewrite (proj2 (Z.ltb_lt _ _)) by lia.
    assert (Ha' : forall i k, (pos - 1 < Z.of_nat i)%Z -> I !! i = Some k -> before t (n_val k)).
    { intros i k Hi Hk. destruct (Hsorted (Z.to_nat pos) i n k ltac:(lia) Hn Hk) as [<-|H]; [done|].
      by apply (before_trans _ _ _ H2). }
    destruct (Z.leb_spec low (pos - 1)) as [Hle|Hgt]; [apply IH; try done; lia|].
    exists (pos - 1)%Z. split; [done|]. right. split; [lia|]. split; [|done].
    intros i k Hi. apply Hb. lia.
  - rewrite H1. exists pos. split; [done|]. left. exists (Z.to_nat pos), n.
    split; [lia|]. done.
Qed.

Lemma getTemporalIndexTablePos_ok :
  I <> [] ->
  exists pos, getTemporalIndexTablePos t s = (Ok pos, s) /\ (found_at pos \/ splits pos).
Proof.
  intros Hne. unfold getTemporalIndexTablePos. step (done).
  assert (0 < length I) by (destruct I; simpl; [done|lia]).
  rewrite <- (pt_count _ _ Hp). apply index_search_ok; try lia.
  intros i n Hi Hn%lookup_lt_Some. lia.
Qed.

(** The entry from which the list is searched is not after [t]. *)
Lemma getPreviousTemporalEntry_ok :
  I <> [] ->
  getPreviousTemporalEntry t s = (Ok None, s) \/
  exists n, n ∈ I /\ getPreviousTemporalEntry t s = (Ok (Some (n_cell n)), s) /\
            (before (n_val n) t \/ n_val n = t).
Proof.
  intros Hne. destruct (getTemporalIndexTablePos_ok Hne) as (pos & E & Hpos).
  unfold getPreviousTemporalEntry. step (exact E). rewrite Forall_forall in Hlive.
  assert (Hlv : forall i n, I !! i = Some n -> live_cell (tt_mem s) n)
    by (intros i n Hn; apply Hlive, (list_elem_of_lookup_2 _ _ _ Hn)).
  destruct Hpos as [(i & n & -> & Hn & Hnt)|(Hr & Hb & Ha)].
  - step (rewrite (proj2 (Z.leb_le _ _)) by lia; step (by eapply index_compare_ok; eauto); done).
    destruct (compare_cases _ _ Hn) as [[H1 H2]|[[H1 H2]|[H1 H2]]];
      [subst t; by apply before_irrefl in H2..|]. rewrite H1. simpl.
    destruct (Z.ltb_spec (Z.of_nat i - 1) 0) as [Hi|Hi]; [by left|]. right.
    destruct (lookup_lt_is_Some_2 I (i - 1)) as [k Hk]; [apply lookup_lt_Some in Hn; lia|].
    exists k. split; [by apply list_elem_of_lookup_2 in Hk|].
    replace (Z.of_nat i - 1)%Z with (Z.of_nat (i - 1)) by lia.
    split; [step (by eapply index_at_ok); done|].
    destruct (Hsorted (i - 1) i k n ltac:(lia) Hk Hn) as [->|H]; [by right|left]. by rewrite <- Hnt.
  - destruct (Z.leb_spec 0 pos) as [H0|H0].
    + destruct (lookup_lt_is_Some_2 I (Z.to_nat pos) ltac:(lia)) as [n Hn].
      pose proof (Hb (Z.to_nat pos) n ltac:(lia) Hn) as Hbn.
      replace pos with (Z.of_nat (Z.to_nat pos)) by lia.
      step (step (by eapply index_compare_ok; eauto); done).
      rewrite (proj2 (Z.eqb_neq _ _)) by (pose proof (before_compare _ _ Hbn); lia).
      rewrite (proj2 (Z.ltb_ge _ _)) by lia. right. exists n.
      split; [by apply list_elem_of_lookup_2 in Hn|]. split; [|by left].
      step (by eapply index_at_ok). done.
    + step (done). left. by rewrite (proj2 (Z.ltb_lt _ _)) by lia.
Qed.
End search.

(** ** The invariant of the index table *)

(** How many cells of the sorted list the array lacks. *)
Definition missing (I S : list node) : nat := length (filter (fun n => n ∉ I) S).

Record idx (s : TemporalTable) (S I : list node) : Prop := {
  ix_points : points_to s I;
  ix_in : forall n, n ∈ I -> n ∈ S;
  ix_order : forall i j n k, i <= j -> I !! i = Some n -> I !! j = Some k -> not_after n k;
  ix_missing : (Z.of_nat (missing I S) <= pendingUpdateCount s)%Z;
  ix_rate : (8 * pendingUpdateCount s <= Z.of_nat (length S))%Z
}.

Lemma missing_nil S : missing [] S = length S.
Proof.
  unfold missing. induction S as [|n S IH]; [done|].
  rewrite filter_cons_True by apply not_elem_of_nil. cbn [length]. f_equal. exact IH.
Qed.

Lemma missing_self S : missing S S = 0.
Proof.
  unfold missing. destruct (filter (fun n => n ∉ S) S) as [|n l] eqn:E; [done|].
  assert (Hn : n ∈ filter (fun n => n ∉ S) S) by (rewrite E; left).
  by apply list_elem_of_filter in Hn as [? ?].
Qed.

(** A table that has times has an index to search. *)
Lemma idx_nonempty s S I : idx s S I -> S <> [] -> I <> [].
Proof.
  intros Hi Hne ->. pose proof (ix_missing _ _ _ Hi) as Hm. rewrite missing_nil in Hm.
  pose proof (ix_rate _ _ _ Hi). destruct S; [done|cbn [length] in *; lia].
Qed.

(** Only the index table and its counters differ. *)
Record same_but_index (s s' : TemporalTable) : Prop := {
  sb_mem : tt_mem s' = tt_mem s;
  sb_handleMap : handleMap s' = handleMap s;
  sb_tail : tailHandleMap s' = tailHandleMap s;
  sb_map : temporalMap s' = temporalMap s;
  sb_sorted : sortedTemporalList s' = sortedTemporalList s
}.

Lemma same_but_index_trans s1 s2 s3 :
  same_but_index s1 s2 -> same_but_index s2 s3 -> same_but_index s1 s3.
Proof. intros [] []. split; congruence. Qed.

(** ** Rebuilding the index *)
Lemma index_fill_ok l : forall fuel s p i done_ n,
  lseg (tt_mem s) p l None -> length l < fuel ->
  (forall j k, done_ !! j = Some k -> temporalIndexTable s !! j = Some (Some (n_cell k))) ->
  i = Z.of_nat (length done_) -> n = Z.of_nat (length (done_ ++ l)) ->
  (n <= Z.of_nat (length (temporalIndexTable s)))%Z ->
  exists s', index_fill fuel p i n s = (Ok n, s') /\ same_but_index s s' /\
    indexTableSize s' = indexTableSize s /\
    length (temporalIndexTable s') = length (temporalIndexTable s) /\
    (forall j k, (done_ ++ l) !! j = Some k -> temporalIndexTable s' !! j = Some (Some (n_cell k))).
Proof.
  induction l as [|k l IH]; intros [|fuel] s p i done_ n Hl Hf Hd -> -> Hlen; simpl in Hf; try lia.
  - simpl in Hl. subst p. exists s. rewrite app_nil_r. cbn [index_fill]. done.
  - destruct Hl as (-> & q & Hc & Hl). cbn [index_fill].
    rewrite length_app in Hlen. simpl in Hlen.
    rewrite (proj2 (Z.ltb_lt _ _)) by (rewrite length_app; simpl; lia).
    set (s1 := set_table (<[length done_ := Some (n_cell k)]> (temporalIndexTable s)) s).
    assert (E : index_set (Z.of_nat (length done_)) (n_cell k) s = (Ok tt, s1)).
    { unfold index_set. apply modify_ok. rewrite Nat2Z.id.
      rewrite (proj2 (Z.leb_le _ _)), (proj2 (Nat.ltb_lt _ _)) by lia. done. }
    step (exact E). step (apply on_mem_read; by apply entry_at_ok).
    destruct (IH fuel s1 q (Z.of_nat (length done_) + 1)%Z (done_ ++ [k]) 
                (Z.of_nat (length (done_ ++ k :: l)))) as (s' & E' & Hsb & Hsz & Hlen' & Hat).
    + done.
    + lia.
    + intros j x Hj. unfold s1. cbn [temporalIndexTable set_table].
      destruct (decide (length done_ = j)) as [<-|Hne].
      * rewrite list_lookup_insert_eq by lia. by rewrite lookup_app_r, Nat.sub_diag in Hj; [simplify_eq/=|].
      * rewrite list_lookup_insert_ne by done. apply Hd.
        pose proof (lookup_lt_Some _ _ _ Hj) as Hlt. rewrite length_app in Hlt. simpl in Hlt.
        by rewrite lookup_app_l in Hj by lia.
    + rewrite length_app. simpl. lia.
    + by rewrite <- (assoc_L (++)).
    + unfold s1. cbn [temporalIndexTable set_table]. rewrite length_insert, length_app. simpl. lia.
    + exists s'. split; [exact E'|]. split; [by destruct Hsb; split|]. split; [done|].
      split; [rewrite Hlen'; apply length_insert|]. by rewrite <- (assoc_L (++)) in Hat.
Qed.

Lemma sorted_order l i j n k :
  sorted l -> i <= j -> l !! i = Some n -> l !! j = Some k -> not_after n k.
Proof.
  intros Hs Hij Hn Hk. destruct (decide (i = j)) as [->|Hne]; [left; congruence|right].
  assert (Hlt : i < j) by lia. clear Hne Hij. revert i j Hlt Hn Hk.
  induction l as [|x l IH]; intros [|i] [|j] Hlt Hn Hk; simplify_eq/=; try lia.
  - apply sorted_cons in Hs as [_ Hf]. rewrite Forall_forall in Hf.
    apply Hf, (list_elem_of_lookup_2 _ _ _ Hk).
  - apply sorted_cons in Hs as [Hs _]. apply (IH Hs i j); [lia|done..].
Qed.

Lemma sorted_app l1 l2 :
  sorted (l1 ++ l2) <->
  (forall n m, n ∈ l1 -> m ∈ l2 -> before (n_val n) (n_val m)) /\ sorted l1 /\ sorted l2.
Proof.
  unfold sorted. rewrite fmap_app, StronglySorted_app. split; intros (H & ? & ?); (split; [|done]).
  - intros n m Hn Hm. by apply H; apply list_elem_of_fmap_2.
  - intros ? ? (n & -> & Hn)%list_elem_of_fmap (m & -> & Hm)%list_elem_of_fmap. by apply H.
Qed.

Lemma updateIndexTable_ok s S :
  lseg (tt_mem s) (sortedTemporalList s) S None -> NoDup (n_cell <$> S) -> sorted S ->
  Z.of_nat (length (temporalIndexTable s)) = indexTableSize s ->
  exists s', updateIndexTable (Z.of_nat (length S)) s = (Ok tt, s') /\
             same_but_index s s' /\ idx s' S S.
Proof.
  intros Hl Hd Hs Hlen. unfold updateIndexTable. set (n := Z.of_nat (length S)).
  step (done). set (grow := (_ || _)%bool).
  set (s1 := if grow then set_table (replicate (Z.to_nat (n * 2)) None) (set_tableSize (n * 2) s) else s).
  step (instantiate (1 := s1); instantiate (1 := tt); unfold s1; by destruct grow).
  assert (H1 : same_but_index s s1) by (unfold s1; by destruct grow).
  assert (Hlen1 : Z.of_nat (length (temporalIndexTable s1)) = indexTableSize s1 /\
                  (n <= indexTableSize s1)%Z).
  { unfold s1. destruct grow eqn:Eg; simpl.
    - rewrite length_replicate. lia.
    - split; [done|]. unfold grow in Eg. apply orb_false_iff in Eg as [Eg _].
      apply Z.ltb_ge in Eg. lia. }
  step (done). step (done).
  destruct (index_fill_ok S (chain_fuel (tt_mem s1)) s1 (sortedTemporalList s1) 0 [] n)
    as (s2 & E & H2 & Hsz & Hlen2 & Hat); try done.
  { by rewrite (sb_mem _ _ H1), (sb_sorted _ _ H1). }
  { rewrite (sb_mem _ _ H1). pose proof (lseg_length _ _ _ _ Hd Hl). unfold chain_fuel. lia. }
  { lia. }
  step (exact E). step (done). eexists. split; [done|]. split.
  - apply (same_but_index_trans _ _ _ H1). by destruct H2; split.
  - split; simpl; try done.
    + split; simpl; [done| |done]. rewrite Hlen2, Hsz. apply Hlen1.
    + intros i j a b. by apply sorted_order.
    + by rewrite missing_self.
    + lia.
Qed.

Lemma count_pending_ok s S I :
  lseg (tt_mem s) (sortedTemporalList s) S None -> NoDup (n_cell <$> S) -> sorted S ->
  points_to s I -> (forall n, n ∈ I -> n ∈ S) ->
  (forall i j n k, i <= j -> I !! i = Some n -> I !! j = Some k -> not_after n k) ->
  (Z.of_nat (missing I S) <= pendingUpdateCount s + 1)%Z -> (0 <= pendingUpdateCount s)%Z ->
  exists s' I', count_pending (Z.of_nat (length S)) s = (Ok tt, s') /\
                same_but_index s s' /\ idx s' S I'.
Proof.
  intros Hl Hd Hs Hp Hin Hord Hm Hpos. unfold count_pending. step (done). step (done).
  cbn [pendingUpdateCount set_pending].
  destruct (Z.ltb_spec (Z.of_nat (length S) ÷ (pendingUpdateCount s + 1))%Z PENDING_UPDATE_RATE_THRESHOLD)
    as [_|Hge].
  - destruct (updateIndexTable_ok (set_pending (pendingUpdateCount s + 1) s) S)
      as (s' & E & Hsb & Hix); [done..|apply Hp|].
    exists s', S. split; [exact E|]. split; [|done]. by destruct Hsb; split.
  - eexists _, I. split; [done|]. split; [done|]. split; try done.
    + by destruct Hp; split.
    + simpl. unfold PENDING_UPDATE_RATE_THRESHOLD in Hge.
      pose proof (Z.mul_quot_le (Z.of_nat (length S)) (pendingUpdateCount s + 1) ltac:(lia) ltac:(lia)).
      nia.
Qed.

(** ** An entry leaves the index *)

(** [k] is replaced by [k2] in the list the array points to. *)
Definition replaced (k k2 : node) (I : list node) : list node :=
  (fun n => if decide (n = k) then k2 else n) <$> I.

Section leave.
Context (S I : list node) (k : node).
Context (Hsorted : sorted S) (Hwf : all_wf S) (Hk : k ∈ S).
Context (Hin : forall n, n ∈ I -> n ∈ S).
Context (Hord : forall i j n m, i <= j -> I !! i = Some n -> I !! j = Some m -> not_after n m).

Lemma in_S_wf n : n ∈ S -> t_wf (n_val n).
Proof. intros Hn. unfold all_wf in Hwf. rewrite Forall_forall in Hwf. by apply Hwf. Qed.

(** A time stands in one cell of the sorted list. *)
Lemma val_unique n m : n ∈ S -> m ∈ S -> n_val n = n_val m -> n = m.
Proof.
  intros [i Hi]%list_elem_of_lookup [j Hj]%list_elem_of_lookup Heq.
  destruct (decide (i <= j)) as [Hle|Hle].
  - destruct (sorted_order S i j n m Hsorted Hle Hi Hj) as [|H]; [done|].
    rewrite Heq in H. by apply before_irrefl in H.
  - destruct (sorted_order S j i m n Hsorted ltac:(lia) Hj Hi) as [|H]; [done|].
    rewrite Heq in H. by apply before_irrefl in H.
Qed.

Lemma compare_k n :
  n ∈ S -> (compareTo (n_val n) (n_val k) =? 0)%Z = bool_decide (n = k).
Proof.
  intros Hn. pose proof (compareTo_zero (n_val n) (n_val k) (in_S_wf n Hn) (in_S_wf k Hk)) as Hz.
  case_bool_decide as Hnk.
  - subst n. by rewrite (proj2 Hz).
  - apply Z.eqb_neq. intros H%Hz. apply Hnk. by apply val_unique.
Qed.

(** The occurrences of [k] are contiguous. *)
Lemma occurrences_end i j n : I !! i = Some k -> i <= j -> I !! j = Some n -> n <> k ->
  forall l, j <= l -> I !! l <> Some k.
Proof.
  intros Hi Hij Hn Hne l Hl Hlk.
  destruct (Hord i j k n Hij Hi Hn) as [->|H1]; [done|].
  destruct (Hord j l n k Hl Hn Hlk) as [->|H2]; [done|].
  by apply (before_irrefl (n_val k)), (before_trans _ _ _ H1).
Qed.
Lemma occurrences_start i j n : I !! i = Some k -> j <= i -> I !! j = Some n -> n <> k ->
  forall l, l <= j -> I !! l <> Some k.
Proof.
  intros Hi Hij Hn Hne l Hl Hlk.
  destruct (Hord j i n k Hij Hn Hi) as [->|H1]; [done|].
  destruct (Hord l j k n Hl Hlk Hn) as [->|H2]; [done|].
  by apply (before_irrefl (n_val k)), (before_trans _ _ _ H2).
Qed.

(** What the loops do to the positions they have passed. *)
Definition replaced_at (k2 : node) (done_ : nat -> Prop) (J : list node) : Prop :=
  length J = length I /\
  forall i n, I !! i = Some n ->
    (done_ i -> J !! i = Some (if decide (n = k) then k2 else n)) /\
    (~ done_ i -> J !! i = Some n).

Lemma replace_forward_ok k2 fuel : forall s J f i0,
  points_to s J -> (forall n, n ∈ S -> live_cell (tt_mem s) n) ->
  replaced_at k2 (fun i => i0 <= i < f) J -> I !! i0 = Some k -> i0 < f -> length I - f < fuel ->
  exists s' J', replace_forward fuel (Z.of_nat f) (n_cell k) (n_cell k2) s = (Ok tt, s') /\
    same_but_index s s' /\ pendingUpdateCount s' = pendingUpdateCount s /\
    points_to s' J' /\ replaced_at k2 (fun i => i0 <= i) J'.
Proof.
  induction fuel as [|fuel IH]; intros s J f i0 Hp Hlive [HlenJ HJ] Hi0 Hf Hfuel; [lia|].
  cbn [replace_forward]. step (done). rewrite <- (pt_count _ _ Hp), HlenJ.
  assert (Hrest : forall P, (forall l n, f <= l -> I !! l = Some n -> n <> k) ->
            (forall i, P i <-> i0 <= i) -> replaced_at k2 P J).
  { intros P Hno HP. split; [done|]. intros i n Hn. destruct (HJ i n Hn) as [H1 H2].
    rewrite HP. split; [|intros; apply H2; lia]. intros Hi.
    destruct (decide (i < f)) as [|Hif]; [apply H1; lia|].
    rewrite decide_False by (apply (Hno i); [lia|done]). apply H2. lia. }
  destruct (Z.ltb_spec (Z.of_nat f) (Z.of_nat (length I))) as [Hlt|Hge].
  2: { exists s, J. split; [done|]. split; [done|]. split; [done|]. split; [done|].
       apply Hrest; [|done]. intros l n Hl Hn%lookup_lt_Some. lia. }
  destruct (lookup_lt_is_Some_2 I f ltac:(lia)) as [n Hn].
  pose proof (Hin n (list_elem_of_lookup_2 _ _ _ Hn)) as HnS.
  assert (HJf : J !! f = Some n) by (apply (HJ f n Hn); lia).
  step (by apply on_mem_read, time_of_ok, Hlive). step (by eapply index_compare_ok; eauto).
  rewrite compare_k by done. case_bool_decide as Hnk.
  - subst n. pose proof (lookup_lt_Some _ _ _ HJf) as HltJ.
    destruct (index_set_ok s J f k2 Hp HltJ) as (s1 & E1 & -> & Hp1). step (exact E1).
    destruct (IH _ (<[f := k2]> J) (f + 1) i0 Hp1) as (s' & J' & E & Hsb & Hpd & Hp' & HJ').
    + done.
    + split; [by rewrite length_insert|]. intros i n Hni. destruct (HJ i n Hni) as [H1 H2].
      destruct (decide (i = f)) as [->|Hif].
      * rewrite list_lookup_insert_eq by done. split; [|lia]. intros _.
        rewrite Hn in Hni. injection Hni as <-. by rewrite decide_True.
      * rewrite list_lookup_insert_ne by done. split; intros; [apply H1|apply H2]; lia.
    + done.
    + lia.
    + lia.
    + exists s', J'. replace (Z.of_nat f + 1)%Z with (Z.of_nat (f + 1)) by lia.
      split; [exact E|]. split; [by destruct Hsb; split|]. done.
  - exists s, J. split; [done|]. split; [done|]. split; [done|]. split; [done|].
    apply Hrest; [|done]. intros l m Hl Hm ->.
    by apply (occurrences_end i0 f n Hi0 ltac:(lia) Hn Hnk l).
Qed.
(** Where a backward loop stops. *)
Definition stops_at (b : Z) : Prop :=
  (-1 <= b < Z.of_nat (length I))%Z /\
  forall i n, (Z.of_nat i <= b)%Z -> I !! i = Some n -> before (n_val n) (n_val k).

Lemma stops_before i0 b n :
  I !! i0 = Some k -> b < i0 -> I !! b = Some n -> n <> k -> stops_at (Z.of_nat b).
Proof.
  intros Hi0 Hb Hn Hne. split; [pose proof (lookup_lt_Some _ _ _ Hn); lia|].
  intros i m Hi Hm. destruct (Hord b i0 n k ltac:(lia) Hn Hi0) as [->|H1]; [done|].
  destruct (Hord i b m n ltac:(lia) Hm Hn) as [->|H2]; [done|]. by apply (before_trans _ _ _ H2).
Qed.

Lemma replace_backward_ok k2 fuel : forall s J b i0,
  points_to s J -> (forall n, n ∈ S -> live_cell (tt_mem s) n) ->
  replaced_at k2 (fun i => (b < Z.of_nat i)%Z) J -> I !! i0 = Some k -> (-1 <= b < Z.of_nat i0)%Z ->
  (b + 1 < Z.of_nat fuel)%Z ->
  exists s' b', replace_backward fuel b (n_cell k) (n_cell k2) s = (Ok b', s') /\
    same_but_index s s' /\ pendingUpdateCount s' = pendingUpdateCount s /\
    points_to s' (replaced k k2 I) /\ stops_at b'.
Proof.
  induction fuel as [|fuel IH]; intros s J b i0 Hp Hlive [HlenJ HJ] Hi0 Hb Hfuel; [lia|].
  cbn [replace_backward]. pose proof (lookup_lt_Some _ _ _ Hi0) as Hlt0.
  assert (Hrest : (forall l n, (Z.of_nat l <= b)%Z -> I !! l = Some n -> n <> k) ->
            J = replaced k k2 I).
  { intros Hno. apply list_eq. intros i. unfold replaced. rewrite list_lookup_fmap.
    destruct (I !! i) as [n|] eqn:Hn; simpl.
    - destruct (HJ i n Hn) as [H1 H2]. destruct (decide (b < Z.of_nat i)%Z); [by apply H1|].
      rewrite decide_False by (apply (Hno i); [lia|done]). by apply H2.
    - apply lookup_ge_None. apply lookup_ge_None in Hn. lia. }
  destruct (Z.leb_spec 0 b) as [H0|H0].
  2: { exists s, b. split; [done|]. split; [done|]. split; [done|].
       split; [rewrite <- Hrest; [done|]; intros l n Hl; lia|]. split; [lia|]. intros i n Hi. lia. }
  set (f := Z.to_nat b). assert (Hbf : b = Z.of_nat f) by (unfold f; lia).
  destruct (lookup_lt_is_Some_2 I f ltac:(lia)) as [n Hn].
  pose proof (Hin n (list_elem_of_lookup_2 _ _ _ Hn)) as HnS.
  assert (HJf : J !! f = Some n) by (apply (HJ f n Hn); lia). rewrite Hbf.
  step (by apply on_mem_read, time_of_ok, Hlive). step (by eapply index_compare_ok; eauto).
  rewrite compare_k by done. case_bool_decide as Hnk.
  - subst n. pose proof (lookup_lt_Some _ _ _ HJf) as HltJ.
    destruct (index_set_ok s J f k2 Hp HltJ) as (s1 & E1 & -> & Hp1). step (exact E1).
    destruct (IH _ (<[f := k2]> J) (Z.of_nat f - 1)%Z i0 Hp1) as (s' & b' & E & Hsb & Hpd & Hp' & Hst).
    + done.
    + split; [by rewrite length_insert|]. intros i n Hni. destruct (HJ i n Hni) as [H1 H2].
      destruct (decide (i = f)) as [->|Hif].
      * rewrite list_lookup_insert_eq by done. split; [|lia]. intros _.
        rewrite Hn in Hni. injection Hni as <-. by rewrite decide_True.
      * rewrite list_lookup_insert_ne by done. split; intros; [apply H1|apply H2]; lia.
    + done.
    + lia.
    + lia.
    + exists s', b'. split; [exact E|]. split; [by destruct Hsb; split|]. done.
  - pose proof (stops_before i0 f n Hi0 ltac:(lia) Hn Hnk) as Hst.
    exists s, (Z.of_nat f). split; [done|]. split; [done|]. split; [done|].
    split; [|done]. rewrite <- Hrest; [done|]. intros l m Hl Hm ->. destruct Hst as [_ Hst].
    pose proof (Hst l k ltac:(lia) Hm) as Hkk. by apply before_irrefl in Hkk.
Qed.
End leave.

Lemma missing_cons I n S : missing I (n :: S) = (if decide (n ∈ I) then 0 else 1) + missing I S.
Proof.
  unfold missing. rewrite filter_cons. repeat case_decide; try done.
Qed.

Lemma missing_app I S1 S2 : missing I (S1 ++ S2) = missing I S1 + missing I S2.
Proof. unfold missing. by rewrite filter_app, length_app. Qed.

Lemma missing_mono I I' S : (forall n, n ∈ S -> n ∈ I -> n ∈ I') -> missing I' S <= missing I S.
Proof.
  induction S as [|n S IH]; intros H; [done|]. rewrite !missing_cons.
  assert (missing I' S <= missing I S) by (apply IH; intros; apply H; [by right|done]).
  destruct (decide (n ∈ I)) as [Hn|Hn], (decide (n ∈ I')) as [Hn'|Hn']; try lia.
  exfalso. apply Hn', H; [left|done].
Qed.

Lemma missing_remove I I' S1 k S2 :
  (forall n, n ∈ S1 ++ S2 -> n ∈ I -> n ∈ I') ->
  missing I' (S1 ++ S2) <= missing I (S1 ++ k :: S2).
Proof.
  intros H%missing_mono. rewrite !missing_app in *. rewrite missing_cons. lia.
Qed.

(** ** Removal of an entry from the index *)
Section leave_index.
Context (S1 S2 I : list node) (k : node).
Abbreviation S0 := (S1 ++ k :: S2).
Context (Hsorted : sorted S0) (Hwf : all_wf S0) (Hnd : NoDup (n_cell <$> S0)).

Lemma around n : n ∈ S0 -> n = k \/ (n ∈ S1 /\ before (n_val n) (n_val k)) \/
                           (n ∈ S2 /\ before (n_val k) (n_val n)).
Proof.
  pose proof Hsorted as (H12 & _ & [_ Hf]%sorted_cons)%sorted_app. rewrite Forall_forall in Hf.
  intros [Hn|[->|Hn]%elem_of_cons]%elem_of_app; [right; left|by left|right; right]; (split; [done|]).
  - apply H12; [done|left].
  - by apply Hf.
Qed.
(** The index after [k] has left it, and where the list is to be searched. *)
Record left_index (s s' : TemporalTable) (I' : list node) (pos : Z) : Prop := {
  li_same : same_but_index s s';
  li_pending : pendingUpdateCount s' = pendingUpdateCount s;
  li_points : points_to s' I';
  li_in : forall n, n ∈ I' -> n ∈ S1 ++ S2;
  li_order : forall i j n m, i <= j -> I' !! i = Some n -> I' !! j = Some m -> not_after n m;
  li_missing : missing I' (S1 ++ S2) <= missing I S0;
  li_pos : (pos < 0)%Z \/ exists i n, pos = Z.of_nat i /\ I' !! i = Some n /\
                                    before (n_val n) (n_val k)
}.

Lemma k_not_twice n : n ∈ S1 ++ S2 -> n <> k.
Proof.
  intros Hn ->. rewrite fmap_app, fmap_cons, NoDup_app, NoDup_cons in Hnd.
  destruct Hnd as (_ & H1 & H2 & _). apply (list_elem_of_fmap_2 n_cell) in Hn.
  rewrite fmap_app in Hn. apply elem_of_app in Hn as [Hn|Hn]; [|done].
  apply (H1 _ Hn). left.
Qed.

Lemma in_rest n : n ∈ S0 -> n <> k -> n ∈ S1 ++ S2.
Proof. set_solver. Qed.

Context (Hin : forall n, n ∈ I -> n ∈ S0).
Context (Hord : forall i j n m, i <= j -> I !! i = Some n -> I !! j = Some m -> not_after n m).

Lemma replaced_order k2 l i j n m :
  S2 = k2 :: l -> i <= j -> replaced k k2 I !! i = Some n -> replaced k k2 I !! j = Some m ->
  not_after n m.
Proof.
  intros HS Hij Hn Hm. unfold replaced in *. rewrite list_lookup_fmap in Hn, Hm.
  apply fmap_Some in Hn as (n0 & Hn & ->). apply fmap_Some in Hm as (m0 & Hm & ->).
  pose proof (Hord i j n0 m0 Hij Hn Hm) as Hnm.
  pose proof (around m0 (Hin _ (list_elem_of_lookup_2 _ _ _ Hm))) as Ham.
  pose proof Hsorted as (_ & _ & [Hs2 Hf]%sorted_cons)%sorted_app. rewrite Forall_forall in Hf.
  assert (Hk2 : before (n_val k) (n_val k2)) by (apply Hf; subst S2; left).
  destruct (decide (n0 = k)) as [->|Hn0], (decide (m0 = k)) as [->|Hm0]; [by left| | |done].
  - destruct Hnm as [->|Hb]; [done|]. destruct Ham as [->|[[_ Ha]|[Hm2 _]]]; [done| |].
    + by destruct (before_irrefl _ (before_trans _ _ _ Hb Ha)).
    + rewrite HS in Hm2. apply elem_of_cons in Hm2 as [->|Hm2]; [by left|right].
      rewrite HS in Hs2. apply sorted_cons in Hs2 as [_ Hf2].
      rewrite Forall_forall in Hf2. by apply Hf2.
  - right. destruct Hnm as [->|Hb]; [done|]. by apply (before_trans _ _ _ Hb).
Qed.
Lemma live_S0 s p n : lseg (tt_mem s) p S0 None -> n ∈ S0 -> live_cell (tt_mem s) n.
Proof. intros Hl Hn. by apply (lseg_cell _ _ _ _ _ Hl Hn). Qed.

Lemma cell_inj n m : n ∈ S0 -> m ∈ S0 -> n_cell n = n_cell m -> n = m.
Proof.
  intros [i Hi]%list_elem_of_lookup [j Hj]%list_elem_of_lookup Heq.
  assert (i = j) as ->; [|congruence].
  apply (NoDup_lookup (n_cell <$> S0) i j (n_cell n)); [done|by rewrite list_lookup_fmap, Hi|].
  by rewrite list_lookup_fmap, Hj, Heq.
Qed.

(** Backwards over the positions of the last entry. *)
Lemma back_over_ok s fuel b i0 :
  points_to s I -> I !! i0 = Some k -> (-1 <= b < Z.of_nat i0)%Z -> (b + 1 < Z.of_nat fuel)%Z ->
  (forall i, (b < Z.of_nat i)%Z -> i <= i0 -> I !! i = Some k) ->
  exists b', back_over fuel b (n_cell k) s = (Ok b', s) /\ (-1 <= b' <= b)%Z /\
    (forall i n, (Z.of_nat i <= b')%Z -> I !! i = Some n -> before (n_val n) (n_val k)) /\
    (forall i, (b' < Z.of_nat i)%Z -> i <= i0 -> I !! i = Some k).
Proof.
  intros Hp Hi0. revert b. induction fuel as [|fuel IH]; intros b Hb Hf Hk; [lia|].
  cbn [back_over]. destruct (Z.leb_spec 0 b) as [H0|H0].
  2: { exists b. split; [done|]. split; [lia|]. split; [|done]. intros i n Hi. lia. }
  pose proof (lookup_lt_Some _ _ _ Hi0) as Hlt0.
  destruct (lookup_lt_is_Some_2 I (Z.to_nat b) ltac:(lia)) as [n Hn].
  assert (E : index_at b s = (Ok (n_cell n), s)).
  { replace b with (Z.of_nat (Z.to_nat b)) by lia. by eapply index_at_ok. }
  step (exact E). pose proof (list_elem_of_lookup_2 _ _ _ Hn) as HnI.
  case_bool_decide as Heq.
  - assert (n = k) as -> by (apply cell_inj; [by apply Hin|set_solver|done]).
    destruct (IH (b - 1)%Z) as (b' & E' & Hb' & Hb1 & Hb2); [lia|lia| |].
    + intros i Hi Hii. destruct (decide (i = Z.to_nat b)) as [->|]; [done|]. apply Hk; [lia|done].
    + exists b'. split; [exact E'|]. split; [lia|done].
  - assert (Hnk : n <> k) by (by intros ->).
    exists b. split; [done|]. split; [lia|]. split; [|done].
    destruct (stops_before I k Hord i0 (Z.to_nat b) n Hi0 ltac:(lia) Hn Hnk) as [_ Hst].
    intros i m Hi. apply Hst. lia.
Qed.

(** The index when the last entry of the list has left it. *)
Lemma truncated s i0 b :
  S2 = [] -> points_to s I -> I !! i0 = Some k -> (-1 <= b < Z.of_nat i0)%Z ->
  (forall i n, (Z.of_nat i <= b)%Z -> I !! i = Some n -> before (n_val n) (n_val k)) ->
  (forall i, (b < Z.of_nat i)%Z -> i <= i0 -> I !! i = Some k) ->
  left_index s (set_count (b + 1) s) (take (Z.to_nat (b + 1)) I) b.
Proof.
  intros HS Hp Hi0 Hb Hbef Hks. pose proof (lookup_lt_Some _ _ _ Hi0) as Hlt0.
  assert (Htake : forall i n, take (Z.to_nat (b + 1)) I !! i = Some n ->
            I !! i = Some n /\ (Z.of_nat i <= b)%Z).
  { intros i n Hi. apply lookup_take_Some in Hi as [Hi Hlt]. split; [done|lia]. }
  split; try done.
  - split; simpl; [rewrite length_take; lia|apply Hp|].
    intros i n [Hi _]%Htake. by apply (pt_at _ _ Hp).
  - intros n [i Hi]%list_elem_of_lookup. apply Htake in Hi as [Hi Hib].
    apply in_rest; [by apply Hin, (list_elem_of_lookup_2 _ i)|]. intros ->.
    by apply (before_irrefl (n_val k)), (Hbef i k).
  - intros i j n m Hij [Hi _]%Htake [Hj _]%Htake. by apply (Hord i j).
  - apply missing_remove. intros n Hn HnI. pose proof (k_not_twice n Hn) as Hnk.
    apply list_elem_of_lookup in HnI as [i Hi]. apply (list_elem_of_lookup_2 _ i).
    apply lookup_take_Some. split; [done|].
    destruct (decide (Z.of_nat i <= b)%Z); [lia|]. exfalso. apply Hnk.
    destruct (decide (i <= i0)); [pose proof (Hks i ltac:(lia) l); congruence|].
    destruct (Hord i0 i k n ltac:(lia) Hi0 Hi) as [|Ha]; [done|].
    destruct (around n) as [->|[[_ Hb']|[Hn2 _]]]; [|done| |].
    + by apply Hin, (list_elem_of_lookup_2 _ i).
    + by destruct (before_irrefl _ (before_trans _ _ _ Ha Hb')).
    + rewrite HS in Hn2. by apply not_elem_of_nil in Hn2.
  - destruct (decide (b < 0)%Z) as [|Hb0]; [by left|right].
    destruct (lookup_lt_is_Some_2 I (Z.to_nat b) ltac:(lia)) as [n Hn].
    exists (Z.to_nat b), n. split; [lia|]. split; [apply lookup_take_Some; split; [done|lia]|].
    apply (Hbef (Z.to_nat b)); [lia|done].
Qed.
(** The entry is replaced by the next one of the list. *)
Lemma replaceIndexTablePosition_ok s i0 k2 l :
  S2 = k2 :: l -> points_to s I -> (forall n, n ∈ S0 -> live_cell (tt_mem s) n) ->
  I !! i0 = Some k ->
  exists s' b, replaceIndexTablePosition (Z.of_nat i0) (n_cell k2) s = (Ok b, s') /\
               left_index s s' (replaced k k2 I) b.
Proof.
  intros HS Hp Hlive Hi0. pose proof (lookup_lt_Some _ _ _ Hi0) as Hlt0.
  assert (HkS : k ∈ S0) by set_solver.
  unfold replaceIndexTablePosition. step (by eapply index_at_ok).
  destruct (index_set_ok s I i0 k2 Hp Hlt0) as (s1 & E1 & -> & Hp1). step (exact E1). step (done).
  set (s1 := set_table _ s) in *.
  assert (Hc1 : indexTableCount s1 = Z.of_nat (length I)) by (symmetry; apply Hp).
  rewrite Hc1, Nat2Z.id.
  destruct (replace_forward_ok S0 I k Hsorted Hwf HkS Hin Hord k2 (S (length I)) s1
              (<[i0 := k2]> I) (i0 + 1) i0 Hp1) as (s2 & J & E2 & Hsb2 & Hpd2 & Hp2 & HJ);
    [done| |done|lia|lia|].
  { split; [by rewrite length_insert|]. intros i n Hn. destruct (decide (i = i0)) as [->|Hne].
    - rewrite list_lookup_insert_eq by done. split; [|lia]. intros _.
      rewrite Hi0 in Hn. injection Hn as <-. by rewrite decide_True.
    - rewrite list_lookup_insert_ne by done. split; [lia|done]. }
  replace (Z.of_nat i0 + 1)%Z with (Z.of_nat (i0 + 1)) by lia. step (exact E2).
  destruct (replace_backward_ok S0 I k Hsorted Hwf HkS Hin Hord k2 (S (length I)) s2 J
              (Z.of_nat i0 - 1) i0 Hp2) as (s3 & b & E3 & Hsb3 & Hpd3 & Hp3 & Hst);
    [by rewrite (sb_mem _ _ Hsb2)| |done|lia|lia|].
  { destruct HJ as [H1 H2]. split; [done|]. intros i n Hn. destruct (H2 i n Hn) as [Ha Hb].
    split; intros; [apply Ha|apply Hb]; lia. }
  exists s3, b. split; [exact E3|].
  assert (Hk2 : k2 ∈ S1 ++ S2) by (rewrite HS; set_solver).
  split.
  - apply (same_but_index_trans _ s2); [|done]. by destruct Hsb2; split.
  - by rewrite Hpd3, Hpd2.
  - done.
  - unfold replaced. intros n (m & -> & Hm)%list_elem_of_fmap. case_decide; [done|].
    apply in_rest; [by apply Hin|done].
  - intros i j n m. by apply (replaced_order k2 l).
  - apply missing_remove. intros n Hn HnI. unfold replaced. apply list_elem_of_fmap.
    exists n. split; [|done]. rewrite decide_False; [done|by apply k_not_twice].
  - destruct (decide (b < 0)%Z) as [|Hb0]; [by left|right]. destruct Hst as [Hr Hst].
    destruct (lookup_lt_is_Some_2 I (Z.to_nat b) ltac:(lia)) as [n Hn].
    pose proof (Hst (Z.to_nat b) n ltac:(lia) Hn) as Hbn.
    exists (Z.to_nat b), n. split; [lia|]. split; [|done].
    unfold replaced. rewrite list_lookup_fmap, Hn. simpl. rewrite decide_False; [done|].
    intros ->. by apply before_irrefl in Hbn.
Qed.

Lemma leave_index_ok s :
  idx s S0 I -> lseg (tt_mem s) (sortedTemporalList s) S0 None ->
  exists s' I' pos, leave_index (n_val k) s = (Ok pos, s') /\ left_index s s' I' pos.
Proof.
  intros Hix Hl. pose proof (ix_points _ _ _ Hix) as Hp.
  assert (Hlive : forall n, n ∈ S0 -> live_cell (tt_mem s) n) by (intros n; by apply (live_S0 s (sortedTemporalList s) n)).
  assert (HliveI : Forall (live_cell (tt_mem s)) I) by (apply Forall_forall; intros n Hn; by apply Hlive, Hin).
  assert (HwfI : Forall (fun n => t_wf (n_val n)) I).
  { apply Forall_forall. intros n Hn. by apply (in_S_wf S0 Hwf), Hin. }
  assert (HkS : k ∈ S0) by set_solver. pose proof (in_S_wf S0 Hwf k HkS) as Hkw.
  assert (HI : I <> []) by (apply (idx_nonempty s S0 I Hix); by destruct S1).
  destruct (getTemporalIndexTablePos_ok s I (n_val k) Hp HliveI Hord HwfI Hkw HI)
    as (pos & E & Hpos).
  unfold leave_index. step (exact E). destruct Hpos as [(i0 & n & -> & Hn & Hnk)|(Hr & Hb & Ha)].
  - pose proof (list_elem_of_lookup_2 _ _ _ Hn) as HnI.
    assert (n = k) as -> by (apply (val_unique S0 Hsorted n k); [by apply Hin|done|done]).
    step (rewrite (proj2 (Z.leb_le _ _)) by lia; step (eapply index_compare_ok; eauto); done).
    rewrite (compare_k S0 k Hsorted Hwf HkS k HkS), bool_decide_true by done.
    step (by eapply index_at_ok).
    apply lseg_app in Hl as (r & _ & (_ & q & Hc & Hl2)). step (apply on_mem_read; by apply entry_at_ok).
    cbn [next]. pose proof (lseg_first _ _ _ _ Hl2) as ->.
    assert (HS : S2 = [] \/ exists k2 l, S2 = k2 :: l) by (destruct S2; eauto).
    destruct HS as [HS|(k2 & l & HS)].
    + replace (first_cell S2 None) with (@None positive) by (by rewrite HS).
      pose proof (lookup_lt_Some _ _ _ Hn) as Hlt0.
      destruct (back_over_ok s (S (Z.to_nat (Z.of_nat i0))) (Z.of_nat i0 - 1) i0 Hp Hn)
        as (b & E' & Hb & Hbb & Hbk); [lia|lia| |].
      { intros i Hi Hii. by replace i with i0 by lia. }
      step (exact E'). step (done). eexists _, _, b. split; [done|].
      apply (truncated s i0); [done|done|done|lia|done|done].
    + replace (first_cell S2 None) with (Some (n_cell k2)) by (by rewrite HS).
      destruct (replaceIndexTablePosition_ok s i0 k2 l) as (s' & b & E' & H'); [done..|].
      exists s', (replaced k k2 I), b. done.
  - exists s, I, pos.
    assert (Hno : forall i n, I !! i = Some n -> n <> k).
    { intros i n Hn ->. destruct (decide (Z.of_nat i <= pos)%Z) as [Hi|Hi].
      - by apply (before_irrefl (n_val k)), (Hb i k).
      - apply (before_irrefl (n_val k)), (Ha i k); [lia|done]. }
    split.
    + destruct (Z.leb_spec 0 pos) as [H0|H0].
      * destruct (lookup_lt_is_Some_2 I (Z.to_nat pos) ltac:(lia)) as [n Hn].
        pose proof (Hin _ (list_elem_of_lookup_2 _ _ _ Hn)) as HnS.
        replace pos with (Z.of_nat (Z.to_nat pos)) by lia.
        step (step (eapply index_compare_ok; eauto); done).
        rewrite (compare_k S0 k Hsorted Hwf HkS n HnS).
        rewrite bool_decide_false by (by apply (Hno _ n Hn)). done.
      * by step (done).
    + split; try done.
      * intros n Hn. apply in_rest; [by apply Hin|]. apply list_elem_of_lookup in Hn as [i Hi].
        by apply (Hno i).
      * by apply missing_remove.
      * destruct (decide (pos < 0)%Z) as [|Hp0]; [by left|right].
        destruct (lookup_lt_is_Some_2 I (Z.to_nat pos) ltac:(lia)) as [n Hn].
        exists (Z.to_nat pos), n. split; [lia|]. split; [done|]. apply (Hb (Z.to_nat pos)); [lia|done].
Qed.
End leave_index.
