(* ===== verification/TimeInv.v ===== *)
(** The invariant of the tables of the time server (src/opencog/atomspace/
    TemporalTable.cc): what the sorted list, the list of each handle, the map
    of the times and the index table hold.

    The lists are a family [L]: [L None] is the sorted list of all the times
    and [L (Some h)] the list of the handle [h]. *)
From S2P Require Import Prelude Temporal TemporalEntry TemporalTable TimeIndex.

Definition root (s : TemporalTable) (i : option Handle) : ptr :=
  match i with
  | None => sortedTemporalList s
  | Some h => HandleMap.get h (handleMap s)
  end.

Abbreviation lists := (option Handle -> list node).
Definition upd (i : option Handle) (l : list node) (L : lists) : lists :=
  fun j => if decide (j = i) then l else L j.

Lemma upd_eq i l L : upd i l L i = l.
Proof. unfold upd. by rewrite decide_True. Qed.
Lemma upd_ne i j l L : j <> i -> upd i l L j = L j.
Proof. intros H. unfold upd. by rewrite decide_False. Qed.

(** The lists are sorted and every cell is in one of them. *)
Record lists_ok (s : TemporalTable) (L : lists) : Prop := {
  lo_mem : mem_wf (tt_mem s);
  lo_list : forall i, lseg (tt_mem s) (root s i) (L i) None;
  lo_nodup : forall i, NoDup (n_cell <$> L i);
  lo_sep : forall i j n k, n ∈ L i -> k ∈ L j -> n_cell n = n_cell k -> i = j;
  lo_sorted : forall i, sorted (L i);
  lo_wf : forall i, all_wf (L i);
  lo_own : forall c, is_Some (entries (tt_mem s) !! c) -> exists i n, n ∈ L i /\ n_cell n = c
}.

(** The map has the times of the sorted list with their handles; the live
    [Temporal] objects are those of the list and the ones in [G]. *)
Record maps_ok (s : TemporalTable) (L : lists) (G : gset positive) : Prop := {
  mo_time : forall i n, n ∈ L i ->
    exists k, k ∈ L None /\ n_time k = n_time n /\ n_val k = n_val n;
  mo_find : forall n, n ∈ L None -> exists hs,
    temporalMap s !! t_key (n_val n) = Some (n_time n, hs) /\ hs <> ∅ /\
    forall h, h ∈ hs <-> n_val n ∈ (n_val <$> L (Some h));
  mo_dom : forall key, is_Some (temporalMap s !! key) ->
    exists n, n ∈ L None /\ t_key (n_val n) = key;
  mo_live : forall p, is_Some (temporals (tt_mem s) !! p) ->
    (exists n, n ∈ L None /\ n_time n = p) \/ p ∈ G;
  mo_garbage : forall n, n ∈ L None -> n_time n ∉ G;
  mo_dead : forall p, p ∈ G -> is_Some (temporals (tt_mem s) !! p)
}.

Record TT_inv (s : TemporalTable) (L : lists) (I : list node) : Prop := {
  ti_lists : lists_ok s L;
  ti_maps : maps_ok s L ∅;
  ti_idx : idx s (L None) I
}.

(** The pointer to the last cell of the list of [h], where there is one. *)
Definition tail_ok (s : TemporalTable) (L : lists) (h : Handle) : Prop :=
  forall p, tailHandleMap s !! h = Some p ->
  exists n, last (L (Some h)) = Some n /\ p = Some (n_cell n).

(** ** Changing one list *)
Lemma lists_update s s' L i l' cs :
  lists_ok s L -> touches cs (tt_mem s) (tt_mem s') ->
  (forall c, c ∈ cs -> entries (tt_mem s) !! c = None \/ c ∈ (n_cell <$> L i)) ->
  lseg (tt_mem s') (root s' i) l' None -> NoDup (n_cell <$> l') -> sorted l' -> all_wf l' ->
  (forall n, n ∈ l' -> n_cell n ∈ (n_cell <$> L i) \/ entries (tt_mem s) !! n_cell n = None) ->
  (forall j, j <> i -> root s' j = root s j) ->
  (forall c, is_Some (entries (tt_mem s') !! c) ->
     c ∈ (n_cell <$> l') \/ (is_Some (entries (tt_mem s) !! c) /\ c ∉ (n_cell <$> L i))) ->
  lists_ok s' (upd i l' L).
Proof.
  intros Hlo Ht Hcs Hl Hnd Hs Hwf Hin Hroot Hown.
  assert (Hlive : forall j n, n ∈ L j -> is_Some (entries (tt_mem s) !! n_cell n)).
  { intros j n Hn. destruct (lseg_cell _ _ _ _ n (lo_list _ _ Hlo j) Hn) as (q & He & _). eauto. }
  assert (Hout : forall j n, j <> i -> n ∈ L j ->
            (n_cell n ∉ (n_cell <$> L i)) /\ entries (tt_mem s) !! n_cell n <> None).
  { intros j n Hj Hn. split; [|by apply not_eq_None_Some, (Hlive j)].
    intros (k & Hk & HkL)%list_elem_of_fmap. apply Hj. by apply (lo_sep _ _ Hlo j i n k). }
  split.
  - apply Ht.
  - intros j. destruct (decide (j = i)) as [->|Hj]; [by rewrite upd_eq|].
    rewrite upd_ne, Hroot by done. apply (touches_lseg _ _ _ _ _ _ Ht); [|apply Hlo].
    intros n Hn Hc. destruct (Hout j n Hj Hn) as [H1 H2]. by destruct (Hcs _ Hc).
  - intros j. destruct (decide (j = i)) as [->|Hj]; [by rewrite upd_eq|].
    rewrite upd_ne by done. apply Hlo.
  - intros a b n k. unfold upd. repeat case_decide; subst; intros Hn Hk Heq; try done.
    + exfalso. destruct (Hout b k) as [H1 H2]; [done..|]. rewrite <- Heq in H1, H2.
      by destruct (Hin n Hn).
    + exfalso. destruct (Hout a n) as [H1 H2]; [done..|]. rewrite Heq in H1, H2.
      by destruct (Hin k Hk).
    + by apply (lo_sep _ _ Hlo a b n k).
  - intros j. destruct (decide (j = i)) as [->|Hj]; [by rewrite upd_eq|].
    rewrite upd_ne by done. apply Hlo.
  - intros j. destruct (decide (j = i)) as [->|Hj]; [by rewrite upd_eq|].
    rewrite upd_ne by done. apply Hlo.
  - intros c Hc. destruct (Hown c Hc) as [(n & -> & Hn)%list_elem_of_fmap|[Hc' Hno]].
    + exists i, n. by rewrite upd_eq.
    + destruct (lo_own _ _ Hlo c Hc') as (j & n & Hn & <-). exists j, n. split; [|done].
      rewrite upd_ne; [done|]. intros ->. apply Hno. by apply list_elem_of_fmap_2.
Qed.

Lemma sorted_insert l0 l1 k l2 :
  sorted (l0 ++ l1 ++ l2) -> (l0 <> [] -> l1 <> []) ->
  Forall (fun n => before (n_val n) (n_val k)) l1 ->
  Forall (fun n => before (n_val k) (n_val n)) l2 ->
  sorted (l0 ++ l1 ++ k :: l2).
Proof.
  intros Hs Hne F1 F2. rewrite Forall_forall in F1. pose proof F2 as F2'.
  rewrite Forall_forall in F2. apply sorted_app in Hs as (H0 & Hs0 & (H1 & Hs1 & Hs2)%sorted_app).
  apply sorted_app. split; [|split; [done|]].
  - intros n x Hn. rewrite elem_of_app, elem_of_cons. intros [Hx|[->|Hx]]; [apply H0; set_solver| |apply H0; set_solver].
    destruct l1 as [|n1 l1]; [by destruct l0; [apply not_elem_of_nil in Hn|destruct (Hne ltac:(done))]|].
    apply (before_trans _ (n_val n1)); [apply H0; set_solver|apply F1; left].
  - apply sorted_app. split; [|split; [done|by apply sorted_cons]].
    intros n x Hn [->|Hx]%elem_of_cons; [by apply F1|by apply H1].
Qed.

Lemma nodup_insert l0 l1 k l2 :
  NoDup (n_cell <$> l0 ++ l1 ++ l2) -> (forall n, n ∈ l0 ++ l1 ++ l2 -> n_cell n <> n_cell k) ->
  NoDup (n_cell <$> l0 ++ l1 ++ k :: l2).
Proof.
  intros Hnd Hnot.
  replace (l0 ++ l1 ++ k :: l2) with ((l0 ++ l1) ++ k :: l2) by (by rewrite <- app_assoc).
  rewrite fmap_app, fmap_cons.
  apply NoDup_Permutation_proper with (n_cell k :: (n_cell <$> ((l0 ++ l1) ++ l2))).
  { rewrite !fmap_app. symmetry. apply Permutation_middle. }
  rewrite <- app_assoc. constructor; [|done]. intros (n & Heq & Hn)%list_elem_of_fmap.
  by apply (Hnot n Hn).
Qed.

(** A cell is inserted in the list [i]. *)
Lemma lists_insert s s' L i l0 l1 k l2 m' :
  lists_ok s L -> tt_mem s' = m' -> L i = l0 ++ l1 ++ l2 -> (l0 <> [] -> l1 <> []) ->
  inserted (tt_mem s) m' l1 k l2 -> t_wf (n_val k) ->
  root s' i = first_cell (l0 ++ l1 ++ k :: l2) None ->
  (forall j, j <> i -> root s' j = root s j) ->
  lists_ok s' (upd i (l0 ++ l1 ++ k :: l2) L).
Proof.
  intros Hlo <- HL Hne Hins Hk Hroot Hother.
  pose proof (fresh_entry _ (lo_mem _ _ Hlo)) as Hfr. rewrite <- (in_cell _ _ _ _ _ Hins) in Hfr.
  pose proof (lo_nodup _ _ Hlo i) as Hnd. pose proof (lo_list _ _ Hlo i) as Hl.
  pose proof (lo_sorted _ _ Hlo i) as Hs. pose proof (lo_wf _ _ Hlo i) as Hw.
  rewrite HL in Hnd, Hl, Hs, Hw.
  assert (Hnot : forall n, n ∈ l0 ++ l1 ++ l2 -> n_cell n <> n_cell k).
  { intros n Hn Heq. destruct (lseg_cell _ _ _ _ n Hl Hn) as (q & He & _).
    rewrite Heq, Hfr in He. done. }
  apply (lists_update s s' L i _ _ Hlo (in_mem _ _ _ _ _ Hins)).
  - intros c [->|Hc]%elem_of_cons; [by left|right]. rewrite HL, !fmap_app. set_solver.
  - rewrite Hroot. apply lseg_app in Hl as (r & Hl0 & Hl12).
    destruct l1 as [|n1 l1].
    { destruct l0 as [|n0 l0]; [|by destruct (Hne ltac:(done))]. apply (in_list _ _ _ _ _ Hins). }
    pose proof (lseg_first _ _ _ _ Hl12) as ->. apply lseg_app. exists (Some (n_cell n1)). split.
    + replace (first_cell _ None) with (first_cell (l0 ++ n1 :: l1 ++ l2) None) by (by destruct l0).
      pose proof (lseg_first _ _ _ _ Hl0) as Hf.
      replace (first_cell (l0 ++ n1 :: l1 ++ l2) None) with (first_cell l0 (Some (n_cell n1)))
        by (by destruct l0).
      apply (touches_lseg _ _ _ _ _ _ (in_mem _ _ _ _ _ Hins)).
      * intros n Hn. rewrite fmap_app, NoDup_app in Hnd. destruct Hnd as (_ & Hd & _).
        pose proof (Hnot n ltac:(set_solver)).
        pose proof (Hd _ (list_elem_of_fmap_2 n_cell _ _ Hn)) as Hd'.
        rewrite fmap_app in Hd'. set_solver.
      * by rewrite Hf in Hl0.
    + apply (in_list _ _ _ _ _ Hins).
  - by apply nodup_insert.
  - apply (sorted_insert l0 l1 k l2); [done..| |]; apply Hins.
  - unfold all_wf in *. rewrite !Forall_app, Forall_cons. rewrite !Forall_app in Hw. tauto.
  - intros n Hn. rewrite HL. destruct (decide (n = k)) as [->|]; [by right|left].
    apply list_elem_of_fmap_2. set_solver.
  - done.
  - intros c Hc. apply elem_of_dom in Hc. rewrite (in_dom _ _ _ _ _ Hins) in Hc.
    destruct (decide (c ∈ (n_cell <$> l0 ++ l1 ++ k :: l2))) as [|Hno]; [by left|right].
    rewrite HL. split; [|rewrite !fmap_app in *; rewrite fmap_cons in Hno; set_solver].
    apply elem_of_dom. apply elem_of_union in Hc as [->%elem_of_singleton|]; [|done].
    exfalso. apply Hno. rewrite !fmap_app, fmap_cons. set_solver.
Qed.
