(* ===== verification/TimeAdd.v ===== *)
(** Adding a time to the tables of the time server: [add] of src/opencog/
    atomspace/TemporalTable.cc keeps the invariant and adds one pair. *)
From S2P Require Import Prelude Temporal TemporalEntry TemporalTable TimeIndex TimeInv.

(** ** Maps *)
Lemma get_lookup key m : HandleMap.get key m = default None (m !! key).
Proof.
  unfold HandleMap.get, HandleMap.contains. case_bool_decide as H; [done|].
  by apply eq_None_not_Some in H as ->.
Qed.

Lemma get_add_eq key e m : HandleMap.get key (HandleMap.add key e m) = e.
Proof. rewrite get_lookup. unfold HandleMap.add. by rewrite lookup_insert_eq. Qed.

Lemma lookup_add_ne key key' e m :
  key' <> key -> HandleMap.add key e m !! key' = m !! key'.
Proof.
  intros Hne. unfold HandleMap.add. rewrite lookup_insert_ne by done.
  destruct (HandleMap.contains key m); [|done]. simpl. by rewrite lookup_delete_ne.
Qed.

Lemma lookup_add_eq key e m : HandleMap.add key e m !! key = Some e.
Proof. unfold HandleMap.add. by rewrite lookup_insert_eq. Qed.

Lemma t_key_inj t1 t2 : t_wf t1 -> t_wf t2 -> t_key t1 = t_key t2 -> t1 = t2.
Proof. intros H1 H2 [= HL HU HN]. by apply bounds_inj. Qed.

(** ** Insertion, seen from the values *)

(** The list [l'] is [l] with the time [v] at [t], for which a cell was made
    if there was none. *)
Definition with_time (m m' : Mem) (l l' : list node) (t : positive) (v : Temporal) : Prop :=
  (m' = m /\ l' = l /\ exists n, n ∈ l /\ n_val n = v) \/
  (exists l0 l1 l2, let k := mkNode (next_addr m) t v in
     l = l0 ++ l1 ++ l2 /\ l' = l0 ++ l1 ++ k :: l2 /\ (l0 <> [] -> l1 <> []) /\
     (forall n, n ∈ l -> n_val n <> v) /\ inserted m m' l1 k l2).

Lemma with_time_vals m m' l l' t v u :
  with_time m m' l l' t v -> u ∈ (n_val <$> l') <-> u = v \/ u ∈ (n_val <$> l).
Proof.
  intros [(-> & -> & n & Hn & <-)|(l0 & l1 & l2 & -> & -> & _)].
  - split; [by right|]. intros [->|]; [by apply list_elem_of_fmap_2|done].
  - rewrite !fmap_app, fmap_cons. rewrite !elem_of_app, elem_of_cons. simpl. tauto.
Qed.

Lemma with_time_temporals m m' l l' t v :
  with_time m m' l l' t v -> temporals m' = temporals m.
Proof.
  intros [(-> & _)|(l0 & l1 & l2 & _ & _ & _ & _ & Hin)]; [done|].
  apply (in_mem _ _ _ _ _ Hin).
Qed.

(** The list begins with a time that is not after [v]. *)
Definition begins_before (l : list node) (v : Temporal) : Prop :=
  exists n l', l = n :: l' /\ (before (n_val n) v \/ n_val n = v).

(** [add] at a cell of the list that is not after the time. *)
Lemma TE_add_at m p l0 l t v :
  mem_wf m -> NoDup (n_cell <$> (l0 ++ l)) -> lseg m p l None -> sorted (l0 ++ l) ->
  all_wf (l0 ++ l) -> temporals m !! t = Some v -> t_wf v ->
  (l0 <> [] -> begins_before l v) ->
  exists l' m', with_time m m' (l0 ++ l) (l0 ++ l') t v /\ (exists k, k ∈ l' /\ n_val k = v) /\
    lseg m' (first_cell l' None) l' None /\
    TE.add p t m = (Ok (first_cell l' None), m') /\ (begins_before l v -> first_cell l' None = p).
Proof.
  intros Hwf Hd Hl Hs Hall Ht Hv Hfirst. pose proof (lseg_first _ _ _ _ Hl) as Hp.
  pose proof Hs as Hs'. pose proof Hall as Hall'. pose proof Hd as Hd'.
  apply sorted_app in Hs as (H0 & _ & Hsl). apply Forall_app in Hall as [_ Hall].
  rewrite fmap_app, NoDup_app in Hd. destruct Hd as (_ & _ & Hd).
  destruct (TE_add_ok m p l t v Hwf Hd Hl Hsl Hall Ht Hv)
    as [(E & n & Hn & Hnv)|(l1 & l2 & m' & -> & E & Hin)].
  - exists l, m. split; [left; split_and!; [done..|exists n; split; [set_solver|done]]|].
    split; [by exists n|]. by rewrite <- Hp.
  - exists (l1 ++ mkNode (next_addr m) t v :: l2), m'.
    pose proof (in_before _ _ _ _ _ Hin) as F1. pose proof (in_after _ _ _ _ _ Hin) as F2.
    cbn [n_val] in F1, F2. rewrite Forall_forall in F1, F2.
    assert (Hne : begins_before (l1 ++ l2) v -> exists n l1', l1 = n :: l1').
    { intros (n & l' & Heq & Hnv).
      destruct l1 as [|n1 l1]; [|by eauto]. cbn [app] in Heq. subst l2.
      pose proof (F2 n ltac:(left)) as Hb. destruct Hnv as [Hnv|Hnv].
      - by destruct (before_irrefl _ (before_trans _ _ _ Hb Hnv)).
      - rewrite Hnv in Hb. by apply before_irrefl in Hb. }
    assert (Hnov : forall n, n ∈ l1 ++ l2 -> n_val n <> v).
    { intros n [Hn|Hn]%elem_of_app Heq; [apply F1 in Hn|apply F2 in Hn]; rewrite Heq in Hn;
        by apply before_irrefl in Hn. }
    split.
    { right. exists l0, l1, l2. split_and!; [done|done| | |done].
      - intros (n & l1' & ->)%Hfirst%Hne. done.
      - intros n [Hn|Hn]%elem_of_app; [|by apply Hnov]. intros Hnv.
        destruct (Hfirst ltac:(by intros ->; apply not_elem_of_nil in Hn)) as (n1 & l' & Heq & Hb).
        pose proof (H0 n n1 Hn) as Hb'. rewrite Heq in Hb'. specialize (Hb' ltac:(left)).
        rewrite Hnv in Hb'. destruct Hb as [Hb|Hb].
        + by destruct (before_irrefl _ (before_trans _ _ _ Hb Hb')).
        + rewrite Hb in Hb'. by apply before_irrefl in Hb'. }
    split; [by eexists; split; [apply elem_of_app; right; left|]|].
    split; [apply Hin|]. split; [rewrite E; by destruct l1|].
    intros (n & l1' & ->)%Hne. by rewrite Hp.
Qed.

(** The state with the changed list. *)
Lemma lists_ext s s' L L' :
  lists_ok s L -> tt_mem s' = tt_mem s -> (forall i, root s' i = root s i) ->
  (forall i, L' i = L i) -> lists_ok s' L'.
Proof.
  intros Hlo Hm Hr HL. split; intros *; rewrite ?Hm, ?Hr, ?HL; try apply Hlo.
  intros Hc. destruct (lo_own _ _ Hlo c Hc) as (i & n & Hn & <-). exists i, n. by rewrite HL.
Qed.

Lemma with_time_lists s s' L i l' t v :
  lists_ok s L ->
  with_time (tt_mem s) (tt_mem s') (L i) l' t v -> t_wf v ->
  root s' i = first_cell l' None -> (forall j, j <> i -> root s' j = root s j) ->
  lists_ok s' (upd i l' L).
Proof.
  intros Hlo [(Hm & -> & _)|(l0 & l1 & l2 & HL & -> & Hne & _ & Hin)] Hv Hroot Hother.
  - apply (lists_ext s s' L); [done..| |].
    + intros j. destruct (decide (j = i)) as [->|]; [|by apply Hother].
      rewrite Hroot. symmetry. apply (lseg_first (tt_mem s)), Hlo.
    + intros j. unfold upd. by case_decide as Hj; [rewrite Hj|].
  - by apply (lists_insert s s' L i l0 l1 _ l2 (tt_mem s')).
Qed.

(** A new object for a time; no list has it yet. *)
Lemma new_temporal_ok s L v :
  lists_ok s L -> let p := next_addr (tt_mem s) in exists s',
    on_mem (new_temporal v) s = (Ok p, s') /\ lists_ok s' L /\
    s' = set_mem (tt_mem s') s /\ temporals (tt_mem s) !! p = None /\
    temporals (tt_mem s') = <[p := v]> (temporals (tt_mem s)) /\
    entries (tt_mem s') = entries (tt_mem s).
Proof.
  intros Hlo p. pose proof (lo_mem _ _ Hlo) as Hwf.
  assert (Hfr : temporals (tt_mem s) !! next_addr (tt_mem s) = None).
  { apply eq_None_not_Some. intros H%(mw_temporals _ Hwf). lia. }
  eexists. split; [by apply on_mem_ok|]. split; [|by simpl].
  split; try apply Hlo; simpl.
  - split; simpl; intros c.
    + intros H%(mw_entries _ Hwf). lia.
    + intros [->|[_ H%(mw_temporals _ Hwf)]]%lookup_insert_is_Some; lia.
  - intros i. replace (root _ i) with (root s i) by (by destruct i).
    apply (lseg_ext (tt_mem s)); [done| |apply (lo_list _ _ Hlo)].
    intros n Hn. simpl. rewrite lookup_insert_ne; [done|]. intros Heq.
    destruct (lseg_cell _ _ _ _ n (lo_list _ _ Hlo i) Hn) as (q & _ & Ht). congruence.
Qed.

(** ** The sorted list *)
Definition reaches (S : list node) (p : positive) (k : node) : Prop :=
  exists S0 n S1, S = S0 ++ n :: S1 /\ p = n_cell n /\ k ∈ n :: S1.

(** [insert_sorted] finds the place of the time; from the entry it returns the
    cell of the time is reached. *)
Lemma insert_sorted_ok s L I t v :
  lists_ok s L -> idx s (L None) I -> temporals (tt_mem s) !! t = Some v -> t_wf v ->
  exists S' m' r prev, insert_sorted v t s = (Ok prev, set_sorted r (set_mem m' s)) /\
    with_time (tt_mem s) m' (L None) S' t v /\ r = first_cell S' None /\
    (forall p, prev = Some p -> exists k, k ∈ S' /\ n_val k = v /\ reaches S' p k).
Proof.
  intros Hlo Hix Ht Hv.
  pose proof (lo_list _ _ Hlo None) as Hl. cbn [root] in Hl.
  pose proof (lo_sorted _ _ Hlo None) as Hs. pose proof (lo_nodup _ _ Hlo None) as Hd.
  pose proof (lo_wf _ _ Hlo None) as Hw. pose proof (ix_points _ _ _ Hix) as Hp.
  assert (Hwhole : exists S' m', with_time (tt_mem s) m' (L None) S' t v /\
            TE.add (sortedTemporalList s) t (tt_mem s) = (Ok (first_cell S' None), m')).
  { destruct (TE_add_at (tt_mem s) (sortedTemporalList s) [] (L None) t v) as (S' & m' & W & _ & _ & E & _);
      [apply Hlo|done..|]. by exists S', m'. }
  assert (Hreach : forall S' m' p, with_time (tt_mem s) m' (L None) S' t v ->
            first_cell S' None = Some p -> exists k, k ∈ S' /\ n_val k = v /\ reaches S' p k).
  { intros S' m' p W Hf. pose proof (proj2 (with_time_vals _ _ _ _ _ _ v W) (or_introl eq_refl)) as Hin.
    apply list_elem_of_fmap in Hin as (k & Hkv & Hk). exists k. split; [done|]. split; [done|].
    destruct S' as [|n S']; [by apply not_elem_of_nil in Hk|]. injection Hf as <-.
    by exists [], n, S'. }
  unfold insert_sorted. step (done). destruct (Z.ltb_spec 0 (indexTableCount s)) as [Hc|Hc].
  - assert (Hne : I <> []) by (intros ->; rewrite <- (pt_count _ _ Hp) in Hc; simpl in Hc; lia).
    assert (HIS : forall n, n ∈ I -> live_cell (tt_mem s) n /\ t_wf (n_val n)).
    { intros n Hn%(ix_in _ _ _ Hix). split; [apply (lseg_cell _ _ _ _ n Hl Hn)|].
      unfold all_wf in Hw. rewrite Forall_forall in Hw. by apply Hw. }
    destruct (getPreviousTemporalEntry_ok s I v Hp) as [E|(n & HnI & E & Hnv)]; [| | |done|done| |].
    { apply Forall_forall. intros n Hn. by apply HIS. }
    { apply (ix_order _ _ _ Hix). }
    { apply Forall_forall. intros n Hn. by apply HIS. }
    + step (exact E). destruct Hwhole as (S' & m' & W & E'). step (done).
      step (apply on_mem_ok, E'). step (done). eexists S', m', _, _. split; [done|].
      split; [done|]. split; [done|]. intros p Hp'. by apply (Hreach S' m').
    + step (exact E). cbv iota beta.
      apply (ix_in _ _ _ Hix) in HnI. apply list_elem_of_split in HnI as (S0 & S1 & HS).
      rewrite HS in Hd, Hl, Hs, Hw. pose proof Hl as (q & Hl0 & Hl1)%lseg_app.
      pose proof (lseg_first _ _ _ _ Hl1) as ->. cbn [first_cell] in Hl1.
      assert (Hbb : begins_before (n :: S1) v) by (by exists n, S1).
      destruct (TE_add_at (tt_mem s) (Some (n_cell n)) S0 (n :: S1) t v)
        as (S1' & m' & W & (k & Hk & Hkv) & _ & E' & Hsame); [apply Hlo|done..|].
      step (apply on_mem_ok, E'). eexists (S0 ++ S1'), m', (sortedTemporalList s), _.
      split; [by destruct s|]. rewrite HS. split; [exact W|]. split.
      * rewrite (lseg_first _ _ _ _ Hl0). destruct S0; [|done]. simpl. by rewrite (Hsame Hbb).
      * intros p [= <-]. exists k. split; [set_solver|]. split; [done|].
        specialize (Hsame Hbb). destruct S1' as [|n1 S1']; [done|]. injection Hsame as Heq.
        by exists S0, n1, S1'.
  - destruct Hwhole as (S' & m' & W & E). step (done).
    step (apply on_mem_ok, E). step (done). eexists S', m', _, None.
    split; [done|]. split; [done|]. split; [done|]. done.
Qed.

(** ** The time list of a handle *)
Definition tail_at (s : TemporalTable) (h : Handle) (l : list node) : Prop :=
  forall p, tailHandleMap s !! h = Some p -> exists n, last l = Some n /\ p = Some (n_cell n).

Lemma with_time_last m m' l l' t v :
  with_time m m' l l' t v -> exists n, last l' = Some n.
Proof.
  intros W. pose proof (proj2 (with_time_vals _ _ _ _ _ _ v W) (or_introl eq_refl)) as Hin.
  apply list_elem_of_fmap in Hin as (k & _ & Hk).
  destruct (last l') as [n|] eqn:E; [by exists n|]. apply last_None in E as ->.
  by apply not_elem_of_nil in Hk.
Qed.

(** A time that is not after the last one does not change the last cell. *)
Lemma with_time_keeps_last m m' l n l' t v :
  with_time m m' (l ++ [n]) l' t v -> ~ before (n_val n) v -> last l' = Some n.
Proof.
  intros [(_ & -> & _)|(l0 & l1 & l2 & HL & -> & Hne & _ & Hin)] Hb; [apply last_snoc|].
  destruct l2 as [|x l2 _] using rev_ind.
  - exfalso. apply Hb. pose proof (in_before _ _ _ _ _ Hin) as F. rewrite Forall_forall in F.
    apply F. rewrite app_nil_r in HL.
    destruct l1 as [|y l1 _] using rev_ind.
    { destruct l0; [by destruct l|by destruct (Hne ltac:(done))]. }
    rewrite app_assoc in HL. apply app_inj_tail in HL as [_ ->]. set_solver.
  - rewrite !app_assoc in HL. apply app_inj_tail in HL as [_ ->].
    rewrite app_comm_cons, !app_assoc. apply last_snoc.
Qed.

Lemma with_time_nodup m m' p l l' t v :
  mem_wf m -> lseg m p l None -> NoDup (n_cell <$> l) -> with_time m m' l l' t v ->
  NoDup (n_cell <$> l').
Proof.
  intros Hwf Hl Hd [(_ & -> & _)|(l0 & l1 & l2 & -> & -> & _ & _ & Hin)]; [done|].
  apply nodup_insert; [done|]. intros n Hn Heq.
  destruct (lseg_cell _ _ _ _ n Hl Hn) as (q & He & _).
  rewrite Heq, (in_cell _ _ _ _ _ Hin), fresh_entry in He by done. done.
Qed.

(** [add] at the last cell of a list. *)
Lemma TE_add_end m n t v :
  mem_wf m -> t_wf (n_val n) -> lseg m (Some (n_cell n)) [n] None ->
  temporals m !! t = Some v -> t_wf v -> before (n_val n) v ->
  exists m', TE.add (Some (n_cell n)) t m = (Ok (Some (n_cell n)), m') /\
             inserted m m' [n] (mkNode (next_addr m) t v) [].
Proof.
  intros Hwf Hw Hl Ht Hv Hb.
  destruct (TE_add_ok m (Some (n_cell n)) [n] t v)
    as [(E & x & ->%list_elem_of_singleton & Hxv)|(l1 & l2 & m' & HL & E & Hin)];
    [done|apply NoDup_singleton|done|by repeat constructor|by repeat constructor|done|done| |].
  - rewrite Hxv in Hb. by apply before_irrefl in Hb.
  - destruct l1 as [|x l1]; simpl in HL.
    + subst l2. pose proof (Forall_inv (in_after _ _ _ _ _ Hin)) as F. cbn [n_val] in F.
      by destruct (before_irrefl _ (before_trans _ _ _ Hb F)).
    + injection HL as <- HL. symmetry in HL. apply app_eq_nil in HL as [-> ->]. by exists m'.
Qed.

Lemma add_to_entries_ok s h p l t v :
  mem_wf (tt_mem s) -> NoDup (n_cell <$> l) -> lseg (tt_mem s) p l None -> sorted l -> all_wf l ->
  temporals (tt_mem s) !! t = Some v -> t_wf v -> tail_at s h l ->
  exists l' m', add_to_entries h t p s =
    (Ok (first_cell l' None, n_cell <$> last l'),
     set_mem m' (set_tailHandleMap (delete h (tailHandleMap s)) s)) /\
    with_time (tt_mem s) m' l l' t v.
Proof.
  intros Hwf Hd Hl Hs Hw Ht Hv Htail. unfold add_to_entries. step (done).
  destruct (TE_add_at (tt_mem s) p [] l t v) as (l' & m' & W & _ & Hl' & E & _); [done..|].
  cbn [app] in W. pose proof (with_time_nodup _ _ _ _ _ _ _ Hwf Hl Hd W) as Hd'.
  destruct (with_time_last _ _ _ _ _ _ W) as [n' Hn'].
  unfold HandleMap.contains, tail_at in *. destruct (tailHandleMap s !! h) as [q|] eqn:Eq.
  - rewrite bool_decide_true by eauto. destruct (Htail q eq_refl) as (n & Hn & ->).
    cbn [HandleMap.remove]. rewrite Eq. step (done). step (done).
    apply last_Some in Hn as (l0 & ->). pose proof Hl as (r & _ & Hln)%lseg_app.
    pose proof Hln as (-> & q & Hc & _).
    step (by apply on_mem_read, temporal_at_ok). step (apply on_mem_read, time_of_ok; by exists q).
    cbn [TE.compare]. destruct (Z.ltb_spec 0 (compareTo v (n_val n))) as [Hlt|Hge].
    + assert (Hnv : before (n_val n) v) by (apply compareTo_lt; rewrite compareTo_swap; lia).
      destruct (TE_add_end (tt_mem s) n t v) as (m1 & E1 & Hin);
        [done|exact (Forall_inv (proj2 (proj1 (Forall_app _ _ _) Hw)))|exact Hln|done..|].
      step (apply on_mem_ok, E1). pose proof (in_list _ _ _ _ _ Hin) as Hl1.
      set (k := mkNode _ t v) in *.
      assert (Hnk : n_cell n <> n_cell k).
      { intros Heq. pose proof (fresh_entry _ Hwf) as Hf. destruct Hc as [He _].
        rewrite Heq in He. cbn [n_cell k] in He. congruence. }
      assert (Hd1 : NoDup (n_cell <$> [n] ++ [k])).
      { apply NoDup_cons. split; [by intros Heq%list_elem_of_singleton|apply NoDup_singleton]. }
      step (apply on_mem_read; by apply (last_ok m1 _ [n] k)).
      exists (l0 ++ [n] ++ [k]), m1. rewrite app_assoc, last_snoc. split.
      * rewrite (lseg_first _ _ _ _ Hl). by destruct l0.
      * right. exists l0, [n], []. fold k. rewrite app_nil_r. split_and!; [done|by rewrite app_assoc|done| |done].
        intros x Hx Heq. apply (before_irrefl v). rewrite <- Heq at 1.
        destruct (decide (x = n)) as [->|]; [done|]. apply (before_trans _ (n_val n)); [|done].
        apply sorted_app in Hs as (H0 & _). apply H0; set_solver.
    + step (apply on_mem_ok, E). exists l', m'. split; [|done].
      rewrite (with_time_keeps_last _ _ _ _ _ _ _ W); [done|].
      intros Hb%compareTo_lt. rewrite compareTo_swap in Hb. lia.
  - rewrite bool_decide_false by (by intros [? ?]). exists l', m'. split; [|done].
    rewrite delete_id by done. step (apply on_mem_ok, E).
    destruct l' as [|n0 l1]; [done|]. cbn [first_cell]. step (done).
    pose proof Hn' as (l0 & Heq)%last_Some.
    step (apply on_mem_read; apply (last_ok m' _ l0 n'); rewrite <- Heq; [exact Hd'|exact Hl']).
    rewrite Hn'. by destruct s.
Qed.

(** ** The maps *)
Definition handles_at (s : TemporalTable) (v : Temporal) : gset Handle :=
  match temporalMap s !! t_key v with Some e => e.2 | None => ∅ end.

(** The handle [h] got the list [l'], and the time [v] at [t] the handle. *)
Record mapped (s s' : TemporalTable) (h : Handle) (t : positive) (v : Temporal)
    (l' : list node) : Prop := {
  mp_map : temporalMap s' = <[t_key v := (t, {[h]} ∪ handles_at s v)]> (temporalMap s);
  mp_list : HandleMap.get h (handleMap s') = first_cell l' None;
  mp_lists : forall h', h' <> h -> handleMap s' !! h' = handleMap s !! h';
  mp_tail : tailHandleMap s' !! h = Some (n_cell <$> last l');
  mp_tails : forall h', h' <> h -> tailHandleMap s' !! h' = tailHandleMap s !! h';
  mp_sorted : sortedTemporalList s' = sortedTemporalList s;
  mp_table : temporalIndexTable s' = temporalIndexTable s;
  mp_size : indexTableSize s' = indexTableSize s;
  mp_count : indexTableCount s' = indexTableCount s;
  mp_pending : pendingUpdateCount s' = pendingUpdateCount s
}.

Lemma addToMaps_ok s L h t v :
  lists_ok s L -> temporals (tt_mem s) !! t = Some v -> t_wf v -> tail_ok s L h ->
  exists l' s', addToMaps h t s = (Ok tt, s') /\
    with_time (tt_mem s) (tt_mem s') (L (Some h)) l' t v /\ mapped s s' h t v l'.
Proof.
  intros Hlo Ht Hv Htail. unfold addToMaps. step (done).
  set (hm := if HandleMap.contains h (handleMap s) then delete h (handleMap s) else handleMap s).
  assert (Epair : (if HandleMap.contains h (handleMap s) then HandleMap.remove h (handleMap s)
                   else (None, handleMap s)) = (root s (Some h), hm)).
  { cbn [root]. rewrite get_lookup. unfold hm, HandleMap.contains, HandleMap.remove.
    case_bool_decide as H; [done|]. by apply eq_None_not_Some in H as ->. }
  rewrite Epair. step (done).
  destruct (add_to_entries_ok (set_handleMap hm s) h (root s (Some h)) (L (Some h)) t v)
    as (l' & m' & E & W); [apply Hlo..|done|done|exact Htail|].
  step (exact E). step (done). step (done).
  assert (Ht' : temporals m' !! t = Some v) by (by rewrite (with_time_temporals _ _ _ _ _ _ W)).
  step (by apply on_mem_read, temporal_at_ok). step (done).
  exists l'. unfold tm_find. cbn [temporalMap set_temporalMap set_handleMap set_tailHandleMap set_mem].
  assert (Hhm : forall h', h' <> h -> hm !! h' = handleMap s !! h').
  { intros h' Hne. unfold hm. destruct (HandleMap.contains _ _); [|done]. by rewrite lookup_delete_ne. }
  set (s2 := if bool_decide _ then _ else _ : ST TemporalTable unit).
  assert (E2 : forall s3 hs, temporalMap s3 = temporalMap s ->
            (_ ← s2; tm_add t v hs) s3 = (Ok tt, set_temporalMap (<[t_key v := (t, hs)]> (temporalMap s)) s3)).
  { intros s3 hs H3. unfold s2. case_bool_decide; step (done); unfold tm_add, modst; simpl; rewrite H3;
      [by rewrite insert_delete_eq|done]. }
  eexists. split; [by apply E2|]. split; [exact W|].
  split; simpl; try done.
  - by rewrite get_add_eq.
  - intros h' Hne. by rewrite lookup_add_ne, Hhm.
  - by rewrite lookup_add_eq.
  - intros h' Hne. by rewrite lookup_add_ne, lookup_delete_ne.
Qed.

Lemma with_time_nodes m m' l l' t v :
  with_time m m' l l' t v -> (forall n, n ∈ l -> n_val n = v -> n_time n = t) ->
  (forall n, n ∈ l -> n ∈ l') /\
  (forall n, n ∈ l' -> n ∈ l \/ (n_val n = v /\ n_time n = t)) /\
  exists k, k ∈ l' /\ n_val k = v /\ n_time k = t.
Proof.
  intros [(-> & -> & n & Hn & Hnv)|(l0 & l1 & l2 & -> & -> & _)] Ht.
  - split; [done|]. split; [by left|]. exists n. by auto.
  - split; [set_solver|]. split.
    + intros n. rewrite !elem_of_app, elem_of_cons. intros [?|[?|[->|?]]]; by auto.
    + exists (mkNode (next_addr m) t v). split; [set_solver|done].
Qed.

Lemma maps_ok_same s s' L G :
  maps_ok s L G -> temporalMap s' = temporalMap s ->
  temporals (tt_mem s') = temporals (tt_mem s) -> maps_ok s' L G.
Proof. intros [] Hm Ht. split; try rewrite Hm; try rewrite Ht; done. Qed.

Section maps_add.
Context (s s' : TemporalTable) (L : lists) (G : gset positive) (h : Handle).
Context (t : positive) (v : Temporal) (S' l' : list node) (mA mA' mB mB' : Mem).
Context (Hmo : maps_ok s L G) (HG : forall p, p ∈ G -> p = t).
Context (Hwf : forall i, all_wf (L i)) (Hv : t_wf v).
Context (Hobj : forall k, k ∈ L None -> n_val k = v -> n_time k = t).
Context (WS : with_time mA mA' (L None) S' t v) (Wl : with_time mB mB' (L (Some h)) l' t v).
Context (Hmp : mapped s s' h t v l').
Context (Hmem : temporals (tt_mem s') = temporals (tt_mem s)).

Let L' : lists := upd (Some h) l' (upd None S' L).

Lemma in_list_wf i n : n ∈ L i -> t_wf (n_val n).
Proof. intros Hn. pose proof (Hwf i) as Hw. unfold all_wf in Hw. rewrite Forall_forall in Hw. by apply Hw. Qed.

Lemma handle_obj n : n ∈ L (Some h) -> n_val n = v -> n_time n = t.
Proof.
  intros Hn Hnv. destruct (mo_time _ _ _ Hmo _ n Hn) as (k & Hk & <- & Hkv).
  apply Hobj; [done|congruence].
Qed.

(** The handles of [v] before. *)
Lemma handles_at_ok h' : h' ∈ handles_at s v <-> v ∈ (n_val <$> L (Some h')).
Proof.
  unfold handles_at. destruct (temporalMap s !! t_key v) as [e|] eqn:E.
  - destruct (mo_dom _ _ _ Hmo _ (mk_is_Some _ _ E)) as (n & Hn & Hkey).
    apply t_key_inj in Hkey; [|by apply (in_list_wf None)|done]. subst v.
    destruct (mo_find _ _ _ Hmo n Hn) as (hs & Eh & _ & Hhs). rewrite E in Eh.
    injection Eh as ->. apply Hhs.
  - split; [set_solver|]. intros (n & -> & Hn)%list_elem_of_fmap.
    destruct (mo_time _ _ _ Hmo _ n Hn) as (k & Hk & _ & Hkv).
    destruct (mo_find _ _ _ Hmo k Hk) as (hs & Eh & _). rewrite Hkv in Eh. congruence.
Qed.

Lemma handle_vals h' u : u ∈ (n_val <$> L' (Some h')) <->
  (u = v /\ h' = h) \/ u ∈ (n_val <$> L (Some h')).
Proof.
  unfold L'. destruct (decide (h' = h)) as [->|Hne].
  - rewrite upd_eq, (with_time_vals _ _ _ _ _ _ u Wl). tauto.
  - rewrite !upd_ne by congruence. tauto.
Qed.

Lemma maps_add : maps_ok s' L' ∅.
Proof.
  destruct (with_time_nodes _ _ _ _ _ _ WS Hobj) as (Hincl & Hnew & k & Hk & Hkv & Hkt).
  destruct (with_time_nodes _ _ _ _ _ _ Wl handle_obj) as (_ & Hnewl & _).
  assert (HL : L' None = S') by (unfold L'; by rewrite upd_ne, upd_eq).
  split; rewrite ?HL.
  - assert (Hold : forall i n, n ∈ L i -> exists k, k ∈ S' /\ n_time k = n_time n /\ n_val k = n_val n).
    { intros i n Hn. destruct (mo_time _ _ _ Hmo i n Hn) as (k' & ? & ? & ?). eauto. }
    intros [h'|] n; [|rewrite HL; by exists n]. unfold L'. destruct (decide (h' = h)) as [->|Hne].
    + rewrite upd_eq. intros [Hn|[-> ->]]%Hnewl; [by apply (Hold _ n Hn)|by exists k].
    + rewrite !upd_ne by congruence. by apply Hold.
  - intros n Hn. rewrite (mp_map _ _ _ _ _ _ Hmp). destruct (decide (n_val n = v)) as [Hnv|Hnv].
    + assert (Hnt : n_time n = t) by (destruct (Hnew n Hn) as [?|[_ ?]]; [by apply Hobj|done]).
      rewrite Hnv, Hnt, lookup_insert_eq. eexists. split; [done|]. split; [set_solver|].
      intros h'. rewrite handle_vals, elem_of_union, elem_of_singleton, handles_at_ok. tauto.
    + destruct (Hnew n Hn) as [Hn'|[? _]]; [|done].
      rewrite lookup_insert_ne by (intros Hkey%t_key_inj; [by symmetry in Hkey|done|by apply (in_list_wf None)]).
      destruct (mo_find _ _ _ Hmo n Hn') as (hs & Eh & Hne & Hhs). exists hs.
      split; [done|]. split; [done|]. intros h'. rewrite handle_vals, Hhs. tauto.
  - intros key. rewrite (mp_map _ _ _ _ _ _ Hmp).
    intros [<-|[_ (n & Hn & <-)%(mo_dom _ _ _ Hmo)]]%lookup_insert_is_Some; [|by eauto].
    exists k. by rewrite Hkv.
  - intros p. rewrite Hmem. intros [(n & Hn & <-)|Hp]%(mo_live _ _ _ Hmo); left; [by eauto|].
    exists k. split; [done|]. rewrite Hkt. symmetry. by apply HG.
  - intros n Hn. apply not_elem_of_empty.
  - intros p []%not_elem_of_empty.
Qed.
End maps_add.

(** ** The index *)
Lemma find_entry_ok s p l k fuel :
  lseg (tt_mem s) p l None -> sorted l -> all_wf l -> k ∈ l -> length l < fuel ->
  find_entry fuel p (n_val k) s = (Ok (Some (n_cell k)), s).
Proof.
  intros Hl Hs Hw Hk. revert p fuel Hl.
  induction l as [|n l IH]; intros p [|fuel] Hl Hf; simpl in Hf; try lia;
    [by apply not_elem_of_nil in Hk|].
  destruct Hl as (-> & q & Hc & Hl). cbn [find_entry].
  step (apply on_mem_read, time_of_ok; by exists q). cbn [TE.compare].
  rewrite (compare_k (n :: l) k Hs Hw Hk n) by left.
  apply sorted_cons in Hs as [Hs Hall]. apply Forall_cons in Hw as [_ Hw].
  case_bool_decide as Hnk; [by subst|]. step (apply on_mem_read; by apply entry_at_ok). cbn [next].
  apply IH; [done|done|set_solver|done|lia].
Qed.

Lemma missing_grow I S k : k ∈ S -> k ∉ I -> missing (I ++ [k]) S < missing I S.
Proof.
  intros (S1 & S2 & ->)%list_elem_of_split Hk. rewrite !missing_app, !missing_cons.
  rewrite decide_True by set_solver. rewrite decide_False by done.
  pose proof (missing_mono I (I ++ [k]) S1 ltac:(set_solver)).
  pose proof (missing_mono I (I ++ [k]) S2 ltac:(set_solver)). lia.
Qed.

Section new_entry.
Context (s : TemporalTable) (S I : list node) (v : Temporal).
Context (Hl : lseg (tt_mem s) (sortedTemporalList s) S None) (Hd : NoDup (n_cell <$> S)).
Context (Hs : sorted S) (Hw : all_wf S) (Hp : points_to s I).
Context (Hin : forall n, n ∈ I -> n ∈ S).
Context (Hord : forall i j n k, i <= j -> I !! i = Some n -> I !! j = Some k -> not_after n k).
Context (Hm : (Z.of_nat (missing I S) <= pendingUpdateCount s + 1)%Z).
Context (Hrate : (0 <= 8 * pendingUpdateCount s <= Z.of_nat (length S))%Z).

(** The new last entry is written behind the others. *)
Lemma append_index_ok k n :
  k ∈ S -> last I = Some n -> before (n_val n) (n_val k) ->
  (indexTableCount s < indexTableSize s)%Z ->
  exists s', (_ ← index_set (indexTableCount s) (n_cell k); modst (set_count (indexTableCount s + 1))) s
               = (Ok tt, s') /\ same_but_index s s' /\ idx s' S (I ++ [k]).
Proof.
  intros Hk Hn Hb Hc. apply last_Some in Hn as (I0 & HI).
  assert (HbI : forall x, x ∈ I -> before (n_val x) (n_val k)).
  { intros x [i Hi]%list_elem_of_lookup. pose proof (lookup_lt_Some _ _ _ Hi) as Hlt.
    rewrite HI, length_app in Hlt. simpl in Hlt.
    destruct (Hord i (length I0) x n) as [->|]; [lia|done| |done|by apply (before_trans _ (n_val n))].
    by rewrite HI, lookup_app_r, Nat.sub_diag by lia. }
  assert (HkI : k ∉ I) by (intros H%HbI; by apply before_irrefl in H).
  pose proof (pt_count _ _ Hp) as Hcount. pose proof (pt_size _ _ Hp) as Hsize.
  assert (E : index_set (indexTableCount s) (n_cell k) s =
              (Ok tt, set_table (<[length I := Some (n_cell k)]> (temporalIndexTable s)) s)).
  { unfold index_set. apply modify_ok. rewrite <- Hcount, Nat2Z.id.
    rewrite (proj2 (Z.leb_le _ _)), (proj2 (Nat.ltb_lt _ _)) by lia. done. }
  step (exact E). eexists. split; [done|]. split; [done|]. split; simpl; [| | | |lia].
  - split; simpl; [rewrite length_app; simpl; lia|by rewrite length_insert|].
    intros i x Hi. apply lookup_snoc_Some in Hi as [[Hi Hx]|[-> ->]].
    + rewrite list_lookup_insert_ne by lia. by apply (pt_at _ _ Hp).
    + apply list_lookup_insert_eq. lia.
  - intros x. rewrite elem_of_app, list_elem_of_singleton. intros [?| ->]; auto.
  - intros i j x y Hij Hx Hy. apply lookup_snoc_Some in Hx as [[Hi Hx]|[-> ->]];
      apply lookup_snoc_Some in Hy as [[Hj Hy]|[-> ->]]; [by apply (Hord i j)| |lia|by left].
    right. by apply HbI, (list_elem_of_lookup_2 _ i).
  - pose proof (missing_grow I S k Hk HkI). lia.
Qed.

Lemma index_new_entry_ok prev :
  (forall p, prev = Some p -> exists k, k ∈ S /\ n_val k = v /\ reaches S p k) ->
  exists s' I', index_new_entry v prev (Z.of_nat (length S)) s = (Ok tt, s') /\
                same_but_index s s' /\ idx s' S I'.
Proof.
  intros Hprev. unfold index_new_entry. step (done). step (done).
  assert (Hpend : exists s' I', count_pending (Z.of_nat (length S)) s = (Ok tt, s') /\
            same_but_index s s' /\ idx s' S I') by (apply (count_pending_ok s S I); done || lia).
  destruct (bool_decide (is_Some prev) && (0 <? indexTableCount s)%Z
            && (indexTableCount s <? indexTableSize s)%Z) eqn:Ec; [|by step (done)].
  apply andb_true_iff in Ec as [Ec Hc%Z.ltb_lt].
  apply andb_true_iff in Ec as [Hp'%bool_decide_eq_true H0%Z.ltb_lt]. destruct Hp' as [p ->].
  pose proof (pt_count _ _ Hp) as Hcount.
  destruct (last I) as [n|] eqn:En; [|apply last_None in En; rewrite En in Hcount; simpl in Hcount; lia].
  pose proof En as (I0 & HI)%last_Some.
  assert (Hlast : I !! (length I0) = Some n) by (rewrite HI, lookup_app_r, Nat.sub_diag by lia; done).
  replace (indexTableCount s - 1)%Z with (Z.of_nat (length I0))
    by (rewrite <- Hcount, HI, length_app; simpl; lia).
  step (step (by eapply index_at_ok); step (apply on_mem_read, time_of_ok, (lseg_cell _ _ _ _ n Hl);
    apply Hin, (list_elem_of_lookup_2 _ _ _ Hlast)); done).
  cbn [TE.compare]. destruct (Z.ltb_spec 0 (compareTo v (n_val n))) as [Hlt|]; [|done].
  destruct (Hprev p eq_refl) as (k & Hk & <- & S0 & n0 & S1 & HS & -> & Hk1).
  step (done). pose proof Hl as Hl'. rewrite HS in Hl'. apply lseg_app in Hl' as (q & _ & Hl').
  pose proof (lseg_first _ _ _ _ Hl') as ->. cbn [first_cell] in Hl'.
  pose proof Hs as Hs'. rewrite HS in Hs'. apply sorted_app in Hs' as (_ & _ & Hs').
  pose proof Hw as Hw'. rewrite HS in Hw'. apply Forall_app in Hw' as [_ Hw'].
  pose proof (lseg_length _ _ _ _ Hd Hl) as Hlen. rewrite HS, length_app in Hlen.
  step (apply (find_entry_ok s _ (n0 :: S1)); [done..|]; unfold chain_fuel; lia).
  destruct (append_index_ok k n Hk En) as (s' & E & Hsb & Hix); [|done|].
  - apply compareTo_lt. rewrite compareTo_swap. lia.
  - exists s', (I ++ [k]). done.
Qed.
End new_entry.

(** ** The number of times *)
Lemma sorted_vals_nodup l : sorted l -> NoDup (n_val <$> l).
Proof.
  induction l as [|n l IH]; [constructor|]. intros [Hs Hn]%sorted_cons. rewrite fmap_cons.
  constructor; [|by apply IH]. intros (k & Heq & Hk)%list_elem_of_fmap.
  rewrite Forall_forall in Hn. pose proof (Hn k Hk) as Hb. rewrite Heq in Hb.
  by apply before_irrefl in Hb.
Qed.

Lemma map_size s L G : lists_ok s L -> maps_ok s L G -> size (temporalMap s) = length (L None).
Proof.
  intros Hlo Hmo. rewrite <- (length_fmap (t_key ∘ n_val) (L None)), <- size_dom.
  rewrite <- (size_list_to_set (C := gset TKey)).
  - f_equal. apply set_eq. intros key. rewrite elem_of_dom, elem_of_list_to_set, list_elem_of_fmap.
    split.
    + intros (n & Hn & <-)%(mo_dom _ _ _ Hmo). by exists n.
    + intros (n & -> & Hn). destruct (mo_find _ _ _ Hmo n Hn) as (hs & Eh & _). by eexists.
  - rewrite list_fmap_compose. apply NoDup_fmap_2_strong; [|apply sorted_vals_nodup, Hlo].
    intros x y (n & -> & Hn)%list_elem_of_fmap (k & -> & Hk)%list_elem_of_fmap.
    apply t_key_inj; by apply (in_list_wf L (lo_wf _ _ Hlo) None).
Qed.

(** Finding or making the object of a time. *)
Lemma internal_time_ok s L I v :
  TT_inv s L I -> t_wf v -> exists t s1 G,
    (internal_t ← asks (getKey v);
     match internal_t with
     | Some p => mret p
     | None => t' ← lift (Temporal_clone v); on_mem (new_temporal t')
     end) s = (Ok t, s1) /\
    lists_ok s1 L /\ maps_ok s1 L G /\ s1 = set_mem (tt_mem s1) s /\
    (forall p, p ∈ G -> p = t) /\ (forall k, k ∈ L None -> n_val k = v -> n_time k = t) /\
    temporals (tt_mem s1) !! t = Some v.
Proof.
  intros [Hlo Hmo Hix] Hv. step (done). unfold getKey, tm_find.
  destruct (temporalMap s !! t_key v) as [[t hs]|] eqn:E; cbn [fmap option_fmap option_map fst].
  - exists t, s, ∅. split; [done|]. split; [done|]. split; [done|]. split; [by rewrite set_mem_id|].
    split; [set_solver|].
    assert (Hobj : forall k, k ∈ L None -> n_val k = v -> n_time k = t).
    { intros k Hk <-. destruct (mo_find _ _ _ Hmo k Hk) as (hs' & Eh & _). congruence. }
    split; [done|]. destruct (mo_dom _ _ _ Hmo _ (mk_is_Some _ _ E)) as (n & Hn & Hkey).
    apply t_key_inj in Hkey; [|by apply (in_list_wf L (lo_wf _ _ Hlo) None)|done].
    rewrite <- (Hobj n Hn Hkey).
    destruct (lseg_cell _ _ _ _ n (lo_list _ _ Hlo None) Hn) as (q & _ & Ht). congruence.
  - step (by rewrite Temporal_clone_ok).
    destruct (new_temporal_ok s L v Hlo) as (s1 & E1 & Hlo1 & Hs1 & Hfr & Ht1 & _).
    eexists _, s1, {[next_addr (tt_mem s)]}. split; [exact E1|]. split; [done|].
    assert (Hnot : forall n, n ∈ L None -> n_time n <> next_addr (tt_mem s)).
    { intros n Hn Heq. destruct (lseg_cell _ _ _ _ n (lo_list _ _ Hlo None) Hn) as (q & _ & Ht). congruence. }
    split; [|split; [done|]; split; [set_solver|]; split; [|by rewrite Ht1, lookup_insert_eq]].
    + split; [apply Hmo|rewrite Hs1; apply Hmo|rewrite Hs1; apply Hmo| | |].
      * intros p. rewrite Ht1. intros [<-|[_ [?|[]%not_elem_of_empty]%(mo_live _ _ _ Hmo)]]%lookup_insert_is_Some;
          [right; set_solver|by left].
      * intros n Hn. rewrite elem_of_singleton. by apply Hnot.
      * intros p ->%elem_of_singleton. rewrite Ht1, lookup_insert_eq. by eexists.
    + intros k Hk Hkv. destruct (mo_find _ _ _ Hmo k Hk) as (hs & Eh & _). rewrite Hkv in Eh. congruence.
Qed.

(** ** [add] *)

(** The index of the sorted list after one time may have been added. *)
Lemma index_after_add s1 s3 S S' I t v prev mA mA' :
  idx s1 S I -> points_to s3 I -> pendingUpdateCount s3 = pendingUpdateCount s1 ->
  lseg (tt_mem s3) (sortedTemporalList s3) S' None -> NoDup (n_cell <$> S') ->
  sorted S' -> all_wf S' -> with_time mA mA' S S' t v ->
  (forall p, prev = Some p -> exists k, k ∈ S' /\ n_val k = v /\ reaches S' p k) ->
  exists s' I', (if (Z.of_nat (length S') =? Z.of_nat (length S))%Z then mret tt
                 else index_new_entry v prev (Z.of_nat (length S'))) s3 = (Ok tt, s') /\
                same_but_index s3 s' /\ idx s' S' I'.
Proof.
  intros Hix Hp Hpend Hl Hd Hs Hw [(-> & -> & n & Hn & _)|(l0 & l1 & l2 & -> & -> & _)] Hprev.
  - rewrite Z.eqb_refl. exists s3, I. split; [done|]. split; [done|].
    destruct Hix. split; rewrite ?Hpend; done.
  - destruct Hix as [_ Hin Hord Hm Hr]. set (k := mkNode (next_addr mA) t v) in *.
    assert (Hlen : length (l0 ++ l1 ++ k :: l2) = S (length (l0 ++ l1 ++ l2)))
      by (rewrite !length_app; simpl; lia).
    rewrite (proj2 (Z.eqb_neq _ _)) by lia.
    apply (index_new_entry_ok s3 _ I v Hl Hd Hs Hw Hp); [|done| | |done]; rewrite ?Hpend, ?Hlen.
    + intros x Hx%Hin. set_solver.
    + rewrite !missing_app, missing_cons in *. case_decide; lia.
    + lia.
Qed.

Lemma TT_add_ok s L I h v :
  TT_inv s L I -> tail_ok s L h -> t_wf v -> exists s' L' I',
    TT_add h v s = (Ok tt, s') /\ TT_inv s' L' I' /\
    (forall h' u, u ∈ (n_val <$> L' (Some h')) <->
       (u = v /\ h' = h) \/ u ∈ (n_val <$> L (Some h'))) /\
    tail_ok s' L' h /\ (forall h', tail_ok s L h' -> tail_ok s' L' h').
Proof.
  intros Hinv Htail Hv. pose proof Hinv as [Hlo Hmo Hix].
  destruct (internal_time_ok s L I v Hinv Hv) as (t & s1 & G & E1 & Hlo1 & Hmo1 & Hs1 & HG & Hobj & Ht).
  unfold TT_add. erewrite bind_seq; [|exact E1]. step (done).
  assert (Hix1 : idx s1 (L None) I) by (rewrite Hs1; by destruct Hix as [[] ? ? ? ?]; split).
  destruct (insert_sorted_ok s1 L I t v Hlo1 Hix1 Ht Hv) as (S' & m' & r & prev & E2 & WS & Hr & Hprev).
  step (exact E2). set (s2 := set_sorted r (set_mem m' s1)) in *.
  assert (Hlo2 : lists_ok s2 (upd None S' L)).
  { apply (with_time_lists s1 s2 L None S' t v); [done|exact WS|done|exact Hr|].
    intros [h'|] Hne; [|done]. done. }
  assert (Ht2 : temporals (tt_mem s2) = temporals (tt_mem s1)) by apply (with_time_temporals _ _ _ _ _ _ WS).
  assert (Htail2 : tail_ok s2 (upd None S' L) h).
  { unfold tail_ok. rewrite upd_ne by done. cbn. rewrite Hs1. exact Htail. }
  destruct (addToMaps_ok s2 (upd None S' L) h t v) as (l' & s3 & E3 & Wl & Hmp);
    [done|by rewrite Ht2|done|done|].
  rewrite upd_ne in Wl by done. step (exact E3). step (done).
  pose proof (with_time_temporals _ _ _ _ _ _ Wl) as Ht3.
  set (L' := upd (Some h) l' (upd None S' L)).
  assert (Hlo3 : lists_ok s3 L').
  { apply (with_time_lists s2 s3 (upd None S' L) (Some h) l' t v); [done|by rewrite upd_ne|done|apply Hmp|].
    intros [h'|] Hne; cbn [root]; [|apply Hmp]. rewrite !get_lookup.
    by rewrite (mp_lists _ _ _ _ _ _ Hmp) by congruence. }
  assert (Hmo3 : maps_ok s3 L' ∅).
  { apply (maps_add s2 s3 L G h t v S' l' (tt_mem s1) m' (tt_mem s2) (tt_mem s3)); try done; [|apply Hlo].
    by apply (maps_ok_same s1). }
  assert (HL' : L' None = S') by (unfold L'; by rewrite upd_ne, upd_eq).
  assert (Hc1 : getCount s1 = Z.of_nat (length (L None))) by (unfold getCount; by rewrite (map_size _ _ _ Hlo1 Hmo1)).
  assert (Hc3 : getCount s3 = Z.of_nat (length S')) by (unfold getCount; by rewrite (map_size _ _ _ Hlo3 Hmo3), HL').
  rewrite Hc1, Hc3.
  pose proof (lo_list _ _ Hlo3 None) as Hl3. pose proof (lo_nodup _ _ Hlo3 None) as Hd3.
  pose proof (lo_sorted _ _ Hlo3 None) as Hs3. pose proof (lo_wf _ _ Hlo3 None) as Hw3.
  rewrite HL' in Hl3, Hd3, Hs3, Hw3. pose proof (ix_points _ _ _ Hix1) as [P1 P2 P3].
  destruct (index_after_add s1 s3 (L None) S' I t v prev (tt_mem s1) m') as (s4 & I' & E4 & Hsb & Hix4);
    try done; [|apply Hmp|].
  { by split; rewrite ?(mp_count _ _ _ _ _ _ Hmp), ?(mp_size _ _ _ _ _ _ Hmp), ?(mp_table _ _ _ _ _ _ Hmp). }
  exists s4, L', I'. split; [exact E4|]. split.
  { split; [|apply (maps_ok_same s3); [done|apply Hsb|by rewrite (sb_mem _ _ Hsb)]|by rewrite HL'].
    apply (lists_ext s3 s4 L'); [done|apply Hsb| |done].
    intros [h'|]; cbn [root]; [by rewrite (sb_handleMap _ _ Hsb)|apply Hsb]. }
  split; [intros h' u; by apply (handle_vals L h t v S' l' (tt_mem s2) (tt_mem s3) Wl)|].
  assert (Htail_h : tail_ok s4 L' h).
  { intros p. rewrite (sb_tail _ _ Hsb), (mp_tail _ _ _ _ _ _ Hmp). unfold L'. rewrite upd_eq.
    destruct (with_time_last _ _ _ _ _ _ Wl) as [n ->]. intros [= <-]. by exists n. }
  split; [done|]. intros h' Hh'. destruct (decide (h' = h)) as [->|Hne]; [done|]. intros p.
  rewrite (sb_tail _ _ Hsb), (mp_tails _ _ _ _ _ _ Hmp) by done. unfold L'.
  rewrite !upd_ne by congruence. cbn. rewrite Hs1. apply Hh'.
Qed.
