(* ===== verification/TimeRemove.v ===== *)
(** Removing times from the tables of the time server: [remove] of
    src/opencog/atomspace/TemporalTable.cc, for one handle and for one time. *)
From S2P Require Import Prelude Temporal TemporalEntry TemporalTable TimeIndex TimeInv TimeAdd.

(** ** A cell leaves the sorted list *)

(** Cutting the cell [c] with the successor [q] off its predecessor. *)
Definition cut (previousTe : option positive) (c : positive) (q : option positive)
    : ST TemporalTable (option (option positive)) :=
  _ ← match previousTe with
      | Some p => on_mem (set_next p q)
      | None => modst (set_sorted q)
      end;
  _ ← on_mem (set_next c None);
  mret (Some (Some c)).

Lemma unlink_entry_ok s B k S2 prev cur q fuel :
  lseg (tt_mem s) cur (B ++ k :: S2) None -> is_cell (tt_mem s) k q ->
  Forall (fun n => before (n_val n) (n_val k)) B -> length B < fuel ->
  unlink_entry fuel prev cur (n_val k) s =
    cut (match last B with Some n => Some (n_cell n) | None => prev end) (n_cell k) q s.
Proof.
  intros Hl Hk HB. revert prev cur fuel Hl. induction HB as [|n B Hn HB IH];
    intros prev cur [|fuel] Hl Hf; simpl in Hf; try lia; destruct Hl as (-> & q' & Hc & Hl);
    cbn [unlink_entry]; step (apply on_mem_read, time_of_ok; by exists q'); cbn [TE.compare].
  - assert (Hz : compareTo (n_val k) (n_val k) = 0%Z).
    { pose proof (compareTo_swap (n_val k) (n_val k)). lia. }
    rewrite Hz. cbn [Z.eqb]. step (apply on_mem_read; by apply entry_at_ok).
    assert (q' = q) as -> by (destruct Hc, Hk; congruence). done.
  - pose proof (before_compare _ _ Hn).
    rewrite (proj2 (Z.eqb_neq _ _)), (proj2 (Z.ltb_ge _ _)) by lia.
    step (apply on_mem_read; by apply entry_at_ok). cbn [next].
    rewrite (IH _ _ fuel) by (done || lia). rewrite last_cons. by destruct (last B).
Qed.

(** The list without the cell, which is on its own now. *)
Record cut_off (m m' : Mem) (l1 : list node) (k : node) (l2 : list node) : Prop := {
  co_mem : touches (n_cell <$> (l1 ++ [k])) m m';
  co_list : lseg m' (first_cell (l1 ++ l2) None) (l1 ++ l2) None;
  co_dom : dom (entries m') = dom (entries m);
  co_cell : entries m' !! n_cell k = Some (mkEntry (n_time k) None)
}.

Lemma set_next_cell m n q r :
  mem_wf m -> is_cell m n q ->
  exists m', set_next (n_cell n) r m = (Ok tt, m') /\
    entries m' = <[n_cell n := mkEntry (n_time n) r]> (entries m) /\ touches [n_cell n] m m' /\
    dom (entries m') = dom (entries m).
Proof.
  intros Hwf [He _]. destruct (set_next_ok m (n_cell n) _ r Hwf He) as (m' & E & M & _ & T).
  exists m'. split; [done|]. split; [done|]. split; [done|]. rewrite M.
  apply dom_insert_lookup_L. by eexists.
Qed.

Lemma cut_ok s S1 k S2 q :
  mem_wf (tt_mem s) -> NoDup (n_cell <$> S1 ++ k :: S2) ->
  lseg (tt_mem s) (sortedTemporalList s) (S1 ++ k :: S2) None -> is_cell (tt_mem s) k q ->
  exists m', cut (n_cell <$> last S1) (n_cell k) q s =
    (Ok (Some (Some (n_cell k))), set_sorted (first_cell (S1 ++ S2) None) (set_mem m' s)) /\
    cut_off (tt_mem s) m' S1 k S2.
Proof.
  intros Hwf Hd Hl Hk. pose proof (lseg_app (tt_mem s) (sortedTemporalList s) S1 (k :: S2) None) as Happ.
  apply Happ in Hl as (r & Hl1 & -> & q' & Hc & Hl2).
  assert (q' = q) as -> by (destruct Hc, Hk; congruence).
  pose proof (lseg_first _ _ _ _ Hl2) as ->. pose proof (lseg_first _ _ _ _ Hl1) as Hsorted.
  rewrite fmap_app, fmap_cons, NoDup_app, NoDup_cons in Hd. destruct Hd as (Hd1 & Hd12 & Hk2 & Hd2).
  unfold cut. destruct S1 as [|p S1 _] using rev_ind.
  - cbn [last fmap option_fmap option_map]. step (done).
    destruct (set_next_cell (tt_mem s) k (first_cell S2 None) None Hwf Hk) as (m' & E & M & T & D).
    step (by apply on_mem_ok). exists m'. split; [by destruct s|].
    split; [exact T| |done|by rewrite M, lookup_insert_eq].
    apply (touches_lseg _ _ _ _ _ _ T); [|done]. intros n Hn Heq%list_elem_of_singleton.
    apply Hk2. rewrite <- Heq. by apply list_elem_of_fmap_2.
  - rewrite last_snoc. cbn [fmap option_fmap option_map].
    destruct (lseg_cell _ _ _ _ p Hl1 ltac:(set_solver)) as (r & Hp).
    destruct (set_next_cell (tt_mem s) p r (first_cell S2 None) Hwf Hp) as (m1 & E1 & M1 & T1 & D1).
    step (by apply on_mem_ok).
    assert (Hpk : n_cell p <> n_cell k).
    { intros Heq. apply (Hd12 (n_cell p)); [apply list_elem_of_fmap_2; set_solver|]. rewrite Heq. left. }
    assert (Hk1 : is_cell m1 k (first_cell S2 None)).
    { split; [rewrite M1, lookup_insert_ne by done; apply Hk|rewrite (to_temporals _ _ _ T1); apply Hk]. }
    destruct (set_next_cell m1 k _ None (to_wf _ _ _ T1) Hk1) as (m2 & E2 & M2 & T2 & D2).
    step (by apply on_mem_ok). pose proof (touches_trans _ _ _ _ _ T1 T2) as T. exists m2. split.
    { replace (first_cell _ _) with (sortedTemporalList s) by (rewrite Hsorted; by destruct S1).
      by destruct s. }
    split; [| |congruence|by rewrite M2, lookup_insert_eq].
    + apply (touches_mono ([n_cell p] ++ [n_cell k])); [|done]. rewrite !fmap_app. set_solver.
    + apply lseg_app. exists (first_cell S2 None). split.
      * apply (touches_lseg _ _ _ _ _ _ T2).
        { intros n Hn Heq%list_elem_of_singleton. apply (Hd12 (n_cell n)); [by apply list_elem_of_fmap_2|].
          rewrite Heq. left. }
        replace (first_cell _ None) with (sortedTemporalList s) by (rewrite Hsorted; by destruct S1).
        by apply (lseg_redirect (tt_mem s) m1 _ _ _ (Some (n_cell k))); [..|apply T1].
      * apply (touches_lseg _ _ _ _ _ _ T); [|done].
        intros n Hn%(list_elem_of_fmap_2 n_cell) Heq. apply elem_of_app in Heq as [Heq|Heq];
          apply list_elem_of_singleton in Heq; rewrite Heq in Hn; [|done].
        apply (Hd12 (n_cell p)); [apply list_elem_of_fmap_2; set_solver|by right].
Qed.

Lemma nodup_remove (l1 : list node) k l2 :
  NoDup (n_cell <$> l1 ++ k :: l2) ->
  NoDup (n_cell <$> l1 ++ l2) /\ n_cell k ∉ (n_cell <$> l1 ++ l2).
Proof.
  rewrite !fmap_app, fmap_cons, !NoDup_app, NoDup_cons. intros (H1 & H12 & Hk & H2).
  split; [split_and!; try done|].
  - intros c Hc Hc2. apply (H12 c Hc). by right.
  - rewrite elem_of_app. intros [Hc|Hc]; [|done]. apply (H12 _ Hc). left.
Qed.

Lemma sorted_remove l1 k l2 : sorted (l1 ++ k :: l2) -> sorted (l1 ++ l2).
Proof.
  rewrite !sorted_app, sorted_cons. intros (H & Hs1 & Hs2 & _). split; [|done].
  intros n m Hn Hm. apply H; [done|by right].
Qed.

(** A cell leaves the list [i]. *)
Lemma lists_remove s s' L i l1 k l2 :
  lists_ok s L -> L i = l1 ++ k :: l2 -> removed_cell (tt_mem s) (tt_mem s') l1 k l2 ->
  root s' i = first_cell (l1 ++ l2) None -> (forall j, j <> i -> root s' j = root s j) ->
  lists_ok s' (upd i (l1 ++ l2) L).
Proof.
  intros Hlo HL Hre Hroot Hother.
  pose proof (lo_nodup _ _ Hlo i) as Hd. pose proof (lo_sorted _ _ Hlo i) as Hs.
  pose proof (lo_wf _ _ Hlo i) as Hw. rewrite HL in Hd, Hs, Hw.
  destruct (nodup_remove _ _ _ Hd) as [Hd' Hk].
  apply (lists_update s s' L i _ _ Hlo (re_mem _ _ _ _ _ Hre)); try done.
  - intros c Hc. right. rewrite HL. revert Hc. rewrite !fmap_app, !fmap_cons. set_solver.
  - rewrite Hroot. apply (re_list _ _ _ _ _ Hre).
  - by apply (sorted_remove _ k).
  - unfold all_wf in *. rewrite Forall_app, Forall_cons in Hw. rewrite Forall_app. tauto.
  - intros n Hn%(list_elem_of_fmap_2 n_cell). left. rewrite HL. revert Hn.
    rewrite !fmap_app, fmap_cons. set_solver.
  - intros c Hc%elem_of_dom. rewrite (re_dom _ _ _ _ _ Hre) in Hc.
    apply elem_of_difference in Hc as [Hc%elem_of_dom Hck].
    destruct (decide (c ∈ (n_cell <$> l1 ++ l2))) as [|Hno]; [by left|right].
    split; [done|]. rewrite HL. revert Hno Hck. rewrite !fmap_app, fmap_cons. set_solver.
Qed.

(** Deleting the cell that was cut off. *)
Lemma cut_off_delete m m' l1 k l2 :
  NoDup (n_cell <$> l1 ++ k :: l2) -> cut_off m m' l1 k l2 ->
  exists m2, TE.delete (n_cell k) m' = (Ok tt, m2) /\ removed_cell m m2 l1 k l2.
Proof.
  intros Hd [T Hl Hdom He]. destruct (nodup_remove _ _ _ Hd) as [_ Hk].
  unfold TE.delete. step (unfold entry_at, reads; by rewrite He). step (done).
  destruct (free_entry_ok m' (n_cell k)) as (m2 & E & M & T2); [apply T|by eexists|].
  exists m2. split; [exact E|]. split.
  - apply (touches_mono ((n_cell <$> l1 ++ [k]) ++ [n_cell k])); [rewrite fmap_app; set_solver|].
    by apply (touches_trans _ _ _ _ _ T).
  - apply (touches_lseg _ _ _ _ _ _ T2); [|done]. intros n Hn%(list_elem_of_fmap_2 n_cell).
    intros Heq%list_elem_of_singleton. by rewrite Heq in Hn.
  - by rewrite M, dom_delete_L, Hdom.
Qed.

(** Only the sorted list and the index differ. *)
Record same_maps (s s' : TemporalTable) : Prop := {
  sm_handleMap : handleMap s' = handleMap s;
  sm_tail : tailHandleMap s' = tailHandleMap s;
  sm_map : temporalMap s' = temporalMap s;
  sm_temporals : temporals (tt_mem s') = temporals (tt_mem s)
}.

(** Where the list is searched from, once [k] has left the index. *)
Lemma search_start_ok s I S1 k S2 pos :
  lseg (tt_mem s) (sortedTemporalList s) (S1 ++ k :: S2) None -> sorted (S1 ++ k :: S2) ->
  points_to s I -> (forall n, n ∈ I -> n ∈ S1 ++ S2) ->
  ((pos < 0)%Z \/ exists i n, pos = Z.of_nat i /\ I !! i = Some n /\ before (n_val n) (n_val k)) ->
  exists prev cur B,
    (if (pos <? 0)%Z then sorted ← asks sortedTemporalList; mret (None, sorted)
     else previousTe ← index_at pos;
          e ← on_mem (entry_at previousTe);
          mret (Some previousTe, next e)) s = (Ok (prev, cur), s) /\
    lseg (tt_mem s) cur (B ++ k :: S2) None /\ Forall (fun n => before (n_val n) (n_val k)) B /\
    length B <= length S1 /\
    match last B with Some n => Some (n_cell n) | None => prev end = n_cell <$> last S1.
Proof.
  intros Hl Hs Hp Hin Hpos. pose proof Hs as (H12 & _ & [_ Hk2]%sorted_cons)%sorted_app.
  assert (Hall : Forall (fun n => before (n_val n) (n_val k)) S1).
  { apply Forall_forall. intros n Hn. apply H12; [done|left]. }
  destruct Hpos as [Hneg|(i & n & -> & Hi & Hb)].
  - exists None, (sortedTemporalList s), S1. rewrite (proj2 (Z.ltb_lt _ _)) by done.
    split_and!; [by step (done)|done|done|done|by destruct (last S1)].
  - pose proof (Hin n (list_elem_of_lookup_2 _ _ _ Hi)) as Hn.
    assert (HnS : n ∈ S1).
    { apply elem_of_app in Hn as [|Hn]; [done|]. rewrite Forall_forall in Hk2.
      by destruct (before_irrefl _ (before_trans _ _ _ Hb (Hk2 n Hn))). }
    apply list_elem_of_split in HnS as (A & B & ->). rewrite <- app_assoc in Hl. cbn [app] in Hl.
    apply lseg_app in Hl as (r & _ & -> & q & Hc & Hl). apply Forall_app in Hall as [_ Hall].
    exists (Some (n_cell n)), q, B. rewrite (proj2 (Z.ltb_ge _ _)) by lia. split_and!.
    + step (by eapply index_at_ok). step (apply on_mem_read; by apply entry_at_ok). done.
    + done.
    + by apply Forall_cons in Hall as [_ Hall].
    + rewrite length_app. simpl. lia.
    + rewrite last_app, last_cons. by destruct (last B).
Qed.

Lemma bind_seq2 {S A B D E} (a : ST S A) (b : ST S B) (c : A -> B -> ST S D) (f : D -> ST S E) s x s' :
  (y ← a; z ← b; c y z) s = (Ok x, s') -> (y ← a; z ← b; w ← c y z; f w) s = f x s'.
Proof.
  unfold mbind, st_bind. destruct (a s) as [[y| | |] s1]; try done.
  destruct (b s1) as [[z| | |] s2]; try done. intros H. by rewrite H.
Qed.

Section sorted_entries.
Context (S1 S2 : list node) (k : node).
Context (Hd : NoDup (n_cell <$> S1 ++ k :: S2)) (Hs : sorted (S1 ++ k :: S2)).
Context (Hw : all_wf (S1 ++ k :: S2)).

(** The cell is found and cut off. *)
Lemma unlink_from_index s I pos :
  mem_wf (tt_mem s) -> lseg (tt_mem s) (sortedTemporalList s) (S1 ++ k :: S2) None ->
  points_to s I -> (forall n, n ∈ I -> n ∈ S1 ++ S2) ->
  ((pos < 0)%Z \/ exists i n, pos = Z.of_nat i /\ I !! i = Some n /\ before (n_val n) (n_val k)) ->
  exists m',
    (start ← (if (pos <? 0)%Z then sorted ← asks sortedTemporalList; mret (None, sorted)
              else previousTe ← index_at pos;
                   e ← on_mem (entry_at previousTe);
                   mret (Some previousTe, next e));
     fuel ← asks (fun s => chain_fuel (tt_mem s));
     unlink_entry fuel start.1 start.2 (n_val k)) s =
    (Ok (Some (Some (n_cell k))), set_sorted (first_cell (S1 ++ S2) None) (set_mem m' s)) /\
    cut_off (tt_mem s) m' S1 k S2.
Proof.
  intros Hwf Hl Hp Hin Hpos.
  destruct (search_start_ok s I S1 k S2 pos Hl Hs Hp Hin Hpos)
    as (prev & cur & B & E & HlB & HB & HlenB & Hlast).
  step (exact E). step (done). cbn [fst snd].
  destruct (lseg_cell _ _ _ _ k Hl ltac:(set_solver)) as (q & Hk).
  destruct (cut_ok s S1 k S2 q Hwf Hd Hl Hk) as (m' & E' & Hco). exists m'. split; [|done].
  pose proof (lseg_length _ _ _ _ Hd Hl) as Hlen. rewrite length_app in Hlen.
  rewrite (unlink_entry_ok s B k S2 prev cur q) by (done || (unfold chain_fuel; lia)).
  rewrite Hlast. exact E'.
Qed.

(** The index does not end with the cell any more. *)
Lemma not_at_end s I :
  points_to s I -> (forall n, n ∈ I -> n ∈ S1 ++ S2) ->
  (if (0 <? indexTableCount s)%Z
   then p ← index_at (indexTableCount s - 1); mret (bool_decide (n_cell k = p))
   else mret false) s = (Ok false, s).
Proof.
  intros Hp Hin. destruct (Z.ltb_spec 0 (indexTableCount s)) as [H0|]; [|done].
  rewrite <- (pt_count _ _ Hp) in *.
  destruct (lookup_lt_is_Some_2 I (length I - 1) ltac:(lia)) as [n Hn].
  replace (Z.of_nat (length I) - 1)%Z with (Z.of_nat (length I - 1)) by lia.
  step (by eapply index_at_ok). rewrite bool_decide_false; [done|]. intros Heq.
  destruct (nodup_remove _ _ _ Hd) as [_ HkS]. apply HkS.
  rewrite Heq. apply list_elem_of_fmap_2, Hin, (list_elem_of_lookup_2 _ _ _ Hn).
Qed.

Lemma removeFromSortedEntries_ok s I :
  mem_wf (tt_mem s) -> lseg (tt_mem s) (sortedTemporalList s) (S1 ++ k :: S2) None ->
  idx s (S1 ++ k :: S2) I -> size (temporalMap s) = length (S1 ++ S2) ->
  exists s' I', removeFromSortedEntries (n_val k) s = (Ok tt, s') /\
    removed_cell (tt_mem s) (tt_mem s') S1 k S2 /\
    sortedTemporalList s' = first_cell (S1 ++ S2) None /\
    same_maps s s' /\ idx s' (S1 ++ S2) I'.
Proof.
  intros Hwf Hl Hix Hsize. unfold removeFromSortedEntries.
  destruct (leave_index_ok S1 S2 I k Hs Hw Hd (ix_in _ _ _ Hix) (ix_order _ _ _ Hix) s Hix Hl)
    as (s1 & I1 & pos & E1 & [Hsb Hpend Hp1 Hin1 Hord1 Hm1 Hpos]).
  step (exact E1). pose proof (ix_missing _ _ _ Hix) as Hmiss.
  destruct (unlink_from_index s1 I1 pos) as (m2 & E2 & Hco);
    [by rewrite (sb_mem _ _ Hsb)|by rewrite (sb_mem _ _ Hsb), (sb_sorted _ _ Hsb)|done..|].
  erewrite bind_seq2; [|exact E2]. cbv iota beta. set (s2 := set_sorted _ (set_mem m2 s1)). step (done).
  assert (Hp2 : points_to s2 I1) by (by destruct Hp1; split).
  step (by apply (not_at_end s2 I1)). cbv iota.
  assert (Hcount : getCount s2 = Z.of_nat (length (S1 ++ S2))).
  { unfold getCount, s2. cbn. by rewrite (sb_map _ _ Hsb), Hsize. }
  destruct (count_pending_ok s2 (S1 ++ S2) I1) as (s3 & I3 & E3 & Hsb3 & Hix3);
    [apply (co_list _ _ _ _ _ Hco)|apply (nodup_remove _ _ _ Hd)|by apply (sorted_remove _ k)|done..| | |].
  { cbn [pendingUpdateCount s2 set_sorted set_mem]. lia. }
  { cbn [pendingUpdateCount s2 set_sorted set_mem]. lia. }
  step (step (done); rewrite Hcount; exact E3).
  destruct (cut_off_delete _ _ _ _ _ Hd Hco) as (m4 & E4 & Hre).
  exists (set_mem m4 s3), I3. split; [apply on_mem_ok; by rewrite (sb_mem _ _ Hsb3)|].
  rewrite (sb_mem _ _ Hsb) in Hre. split; [exact Hre|]. split; [apply Hsb3|].
  split; [|by destruct Hix3 as [[] ? ? ? ?]; split].
  pose proof (to_temporals _ _ _ (re_mem _ _ _ _ _ Hre)).
  destruct Hsb3 as [_ H1 H2 H3 _], Hsb. cbn in H1, H2, H3. split; cbn; congruence.
Qed.
End sorted_entries.

(** ** A time leaves some lists *)
Lemma list_wf s L i n : lists_ok s L -> n ∈ L i -> t_wf (n_val n).
Proof. intros Hlo. apply (in_list_wf L (lo_wf _ _ Hlo) i). Qed.

(** The time of [k] stays with the handles [keep] only; without any, it leaves
    the map and the sorted list, and its object waits for its deletion. *)
Section shrink.
Context (s s' : TemporalTable) (L L' : lists) (G : gset positive) (k : node) (keep : gset Handle).
Context (Hlo : lists_ok s L) (Hmo : maps_ok s L G) (Hk : k ∈ L None).
Context (Hsub : forall i n, n ∈ L' i -> n ∈ L i).
Context (Hrest : forall i n, n ∈ L i -> n_val n <> n_val k -> n ∈ L' i).
Context (Hkeep : forall h, h ∈ keep <-> n_val k ∈ (n_val <$> L' (Some h))).
Context (Hsorted : if decide (keep = ∅) then k ∉ L' None else k ∈ L' None).
Context (Hmap : temporalMap s' =
  if decide (keep = ∅) then delete (t_key (n_val k)) (temporalMap s)
  else <[t_key (n_val k) := (n_time k, keep)]> (temporalMap s)).
Context (Hmem : temporals (tt_mem s') = temporals (tt_mem s)).

Lemma same_time n : n ∈ L None -> n_val n = n_val k -> n = k.
Proof. intros Hn. by apply (val_unique (L None) (lo_sorted _ _ Hlo None)). Qed.

Lemma key_of n : n ∈ L None -> t_key (n_val n) = t_key (n_val k) -> n = k.
Proof.
  intros Hn Hkey. apply same_time; [done|].
  apply t_key_inj in Hkey; [done|by eapply list_wf|by eapply list_wf].
Qed.

Lemma live_val n : n ∈ L None -> temporals (tt_mem s) !! n_time n = Some (n_val n).
Proof.
  intros Hn. destruct (lseg_cell _ _ _ _ n (lo_list _ _ Hlo None) Hn) as (q & _ & Ht). done.
Qed.

Lemma maps_shrink :
  maps_ok s' L' (if decide (keep = ∅) then {[n_time k]} ∪ G else G).
Proof.
  assert (Hlook : forall n, n ∈ L None -> n <> k ->
            temporalMap s' !! t_key (n_val n) = temporalMap s !! t_key (n_val n)).
  { intros n Hn Hne. rewrite Hmap. case_decide.
    - rewrite lookup_delete_ne; [done|]. intros Hkey. by apply Hne, key_of.
    - rewrite lookup_insert_ne; [done|]. intros Hkey. by apply Hne, key_of. }
  assert (Hval : forall n, n ∈ L None -> n <> k -> n_val n <> n_val k).
  { intros n Hn Hne Heq. by apply Hne, same_time. }
  split.
  - intros [h|] n Hn; [|by exists n].
    destruct (mo_time _ _ _ Hmo _ n (Hsub _ n Hn)) as (n' & Hn' & Ht' & Hv'). exists n'.
    split; [|done]. destruct (decide (n' = k)) as [->|Hne].
    + assert (Hh : h ∈ keep) by (apply Hkeep; rewrite Hv'; by apply list_elem_of_fmap_2).
      rewrite decide_False in Hsorted; [done|]. set_solver.
    + apply Hrest; [done|]. by apply Hval.
  - intros n Hn. pose proof (Hsub _ n Hn) as HnL.
    destruct (mo_find _ _ _ Hmo n HnL) as (hs & Eh & Hne & Hhs).
    destruct (decide (n = k)) as [->|Hnk].
    + rewrite Hmap. case_decide as Hempty; [done|]. exists keep. by rewrite lookup_insert_eq.
    + exists hs. rewrite Hlook by done. split; [done|]. split; [done|]. intros h. rewrite Hhs.
      split; intros (m & Hm & HmL)%list_elem_of_fmap; rewrite Hm; apply list_elem_of_fmap_2.
      * apply Hrest; [done|]. rewrite <- Hm. by apply Hval.
      * by apply Hsub.
  - intros key Hkey. assert (Hold : is_Some (temporalMap s !! key) /\ (keep = ∅ -> key <> t_key (n_val k))).
    { rewrite Hmap in Hkey. destruct (mo_find _ _ _ Hmo k Hk) as (hs & Eh & _). case_decide.
      - apply lookup_delete_is_Some in Hkey as [? ?]. by split.
      - apply lookup_insert_is_Some in Hkey as [<-|[_ ?]]; [by eauto|by split]. }
    destruct Hold as [(n & Hn & <-)%(mo_dom _ _ _ Hmo) Hnk]. exists n. split; [|done].
    destruct (decide (n = k)) as [->|Hne]; [|by apply Hrest, Hval].
    case_decide; [by destruct (Hnk ltac:(done))|done].
  - intros p. rewrite Hmem. intros [(n & Hn & <-)|Hp]%(mo_live _ _ _ Hmo).
    + destruct (decide (n = k)) as [->|Hne]; [|left; exists n; split; [by apply Hrest, Hval|done]].
      case_decide; [right; set_solver|left; by exists k].
    + right. case_decide; set_solver.
  - intros n Hn. pose proof (Hsub _ n Hn) as HnL. pose proof (mo_garbage _ _ _ Hmo n HnL) as HnG.
    case_decide as Hempty; [|done]. rewrite elem_of_union, elem_of_singleton. intros [Heq|]; [|done].
    apply Hsorted. replace k with n; [done|]. apply same_time; [done|].
    pose proof (live_val n HnL) as H1. rewrite Heq, (live_val k Hk) in H1. congruence.
  - intros p Hp. rewrite Hmem. case_decide; [|by apply (mo_dead _ _ _ Hmo)].
    apply elem_of_union in Hp as [->%elem_of_singleton|]; [|by apply (mo_dead _ _ _ Hmo)].
    rewrite (live_val k Hk). by eexists.
Qed.
End shrink.

(** ** [remove(h, t, criterion)] *)

(** While it runs, the list of the handle begins at [te], whatever the map
    still says. *)
Definition virt (h : Handle) (te : option positive) (s : TemporalTable) : TemporalTable :=
  set_handleMap (HandleMap.add h te (handleMap s)) s.

Lemma virt_root h te s i : root (virt h te s) i =
  if decide (i = Some h) then te else root s i.
Proof.
  destruct i as [h'|]; cbn [root]; [|done].
  change (handleMap (virt h te s)) with (HandleMap.add h te (handleMap s)).
  case_decide as Hh; [injection Hh as ->; apply get_add_eq|].
  rewrite !get_lookup, lookup_add_ne; [done|]. congruence.
Qed.

(** The sorted list without the time of [k], if no handle keeps it. *)
Record shrunk (S S' : list node) (k : node) (gone : bool) : Prop := {
  sh_sub : forall m, m ∈ S' -> m ∈ S;
  sh_rest : forall m, m ∈ S -> n_val m <> n_val k -> m ∈ S';
  sh_self : if gone then k ∉ S' else k ∈ S'
}.

Lemma shrunk_remove S1 k S2 :
  sorted (S1 ++ k :: S2) -> shrunk (S1 ++ k :: S2) (S1 ++ S2) k true.
Proof.
  intros Hs. pose proof (sorted_vals_nodup _ Hs) as Hd.
  rewrite fmap_app, fmap_cons, NoDup_app, NoDup_cons in Hd. destruct Hd as (_ & H1 & H2 & _). split.
  - set_solver.
  - intros m. rewrite !elem_of_app, elem_of_cons. intros [?|[->|?]]; by auto.
  - rewrite elem_of_app. intros [Hm|Hm]; apply (list_elem_of_fmap_2 n_val) in Hm; [|done].
    apply (H1 _ Hm). left.
Qed.

Lemma hs_remove_ok s v t hs h :
  temporalMap s !! t_key v = Some (t, hs) -> h ∈ hs ->
  hs_remove v h s = (Ok tt, set_temporalMap (<[t_key v := (t, hs ∖ {[h]})]> (temporalMap s)) s).
Proof.
  intros E Hh. unfold hs_remove, tm_find. step (unfold reads; by rewrite E).
  cbn [snd fst]. by rewrite bool_decide_true.
Qed.

Lemma size_zero (hs : gset Handle) : bool_decide (size hs = 0) = bool_decide (hs = ∅).
Proof. apply bool_decide_ext. rewrite size_empty_iff. split; [apply leibniz_equiv|by intros ->]. Qed.

Lemma drop_handle_ok s h te L G I n :
  lists_ok (virt h te s) L -> maps_ok (virt h te s) L G -> idx s (L None) I -> n ∈ L (Some h) ->
  exists k (hs : gset Handle) s1 I1 S', let keep := hs ∖ {[h]} in let gone := bool_decide (keep = ∅) in
    k ∈ L None /\ n_val k = n_val n /\ n_time k = n_time n /\
    temporalMap s !! t_key (n_val k) = Some (n_time k, hs) /\
    drop_handle h (n_time n) G s = (Ok (if gone then {[n_time n]} ∪ G else G), s1) /\
    temporalMap s1 = (if gone then delete (t_key (n_val k)) (temporalMap s)
                      else <[t_key (n_val k) := (n_time k, keep)]> (temporalMap s)) /\
    lists_ok (virt h te s1) (upd None S' L) /\ shrunk (L None) S' k gone /\ idx s1 S' I1 /\
    handleMap s1 = handleMap s /\ tailHandleMap s1 = tailHandleMap s /\
    temporals (tt_mem s1) = temporals (tt_mem s).
Proof.
  intros Hlo Hmo Hix Hn.
  destruct (mo_time _ _ _ Hmo _ n Hn) as (k & Hk & Hkt & Hkv).
  destruct (mo_find _ _ _ Hmo k Hk) as (hs & Eh & _ & Hhs). cbn in Eh.
  assert (Hh : h ∈ hs) by (apply Hhs; rewrite Hkv; by apply list_elem_of_fmap_2).
  destruct (lseg_cell _ _ _ _ n (lo_list _ _ Hlo _) Hn) as (q & _ & Ht). cbn in Ht.
  exists k, hs. unfold drop_handle. set (keep := hs ∖ {[h]}).
  step (by apply on_mem_read, temporal_at_ok). rewrite <- Hkv, <- Hkt.
  step (by eapply hs_remove_ok). fold keep.
  set (s0 := set_temporalMap (<[t_key (n_val k) := (n_time k, keep)]> (temporalMap s)) s).
  step (unfold reads, tm_find; cbn [temporalMap s0 set_temporalMap]; by rewrite lookup_insert_eq).
  cbn [snd]. rewrite size_zero. case_bool_decide as Hkeep.
  - step (done). set (s1 := set_temporalMap (delete _ _) s0).
    assert (Hmap : temporalMap s1 = delete (t_key (n_val k)) (temporalMap s)) by apply delete_insert_eq.
    pose proof Hk as (S1 & S2 & HS)%list_elem_of_split.
    pose proof (lo_list _ _ Hlo None) as Hl. pose proof (lo_nodup _ _ Hlo None) as Hd.
    pose proof (lo_sorted _ _ Hlo None) as Hs. pose proof (lo_wf _ _ Hlo None) as Hw.
    rewrite virt_root, decide_False in Hl by done. cbn [root] in Hl.
    pose proof (map_size _ _ _ Hlo Hmo) as Hsize. rewrite HS in *.
    destruct (removeFromSortedEntries_ok S1 S2 k Hd Hs Hw s1 I) as (s2 & I2 & E & Hre & Hroot & Hsm & Hix2).
    + apply Hlo.
    + exact Hl.
    + by destruct Hix as [[] ? ? ? ?]; split.
    + rewrite Hmap, map_size_delete_Some by by eexists. cbn in Hsize. rewrite Hsize, !length_app. simpl. lia.
    + step (exact E). exists s2, I2, (S1 ++ S2). split_and!; try done.
      * rewrite (sm_map _ _ Hsm). exact Hmap.
      * apply (lists_remove (virt h te s) (virt h te s2) L None S1 k S2 Hlo HS Hre).
        -- by rewrite virt_root, decide_False.
        -- intros [h'|] Hne; [|done]. rewrite !virt_root. case_decide; [done|]. cbn [root].
           by rewrite (sm_handleMap _ _ Hsm).
      * by apply shrunk_remove.
      * apply (sm_handleMap _ _ Hsm).
      * apply (sm_tail _ _ Hsm).
      * apply (sm_temporals _ _ Hsm).
  - exists s0, I, (L None). split_and!; try done.
    + apply (lists_ext (virt h te s) _ L); [done|done| |].
      * intros i. by rewrite !virt_root.
      * intros i. unfold upd. by case_decide as Hi; [rewrite Hi|].
    + by destruct Hix as [[] ? ? ? ?]; split.
Qed.

(** What holds while times of [h] are removed: [te] is the list of [h], and the
    objects in [G] are to be deleted. *)
Record removing (h : Handle) (te : option positive) (s : TemporalTable) (L : lists)
    (I : list node) (G : gset positive) : Prop := {
  rm_lists : lists_ok (virt h te s) L;
  rm_maps : maps_ok (virt h te s) L G;
  rm_idx : idx s (L None) I
}.

Lemma removing_ext h te s s' L I G :
  removing h te s L I G -> tt_mem s' = tt_mem s -> handleMap s' = handleMap s ->
  temporalMap s' = temporalMap s -> sortedTemporalList s' = sortedTemporalList s ->
  temporalIndexTable s' = temporalIndexTable s -> indexTableSize s' = indexTableSize s ->
  indexTableCount s' = indexTableCount s -> pendingUpdateCount s' = pendingUpdateCount s ->
  removing h te s' L I G.
Proof.
  intros [Hlo Hmo Hix] E1 E2 E3 E4 E5 E6 E7 E8. split.
  - apply (lists_ext (virt h te s) _ L); [done|done| |done].
    intros i. rewrite !virt_root. destruct i; cbn [root]; by rewrite ?E2, ?E4.
  - apply (maps_ok_same (virt h te s)); [done|exact E3|exact (f_equal temporals E1)].
  - destruct Hix as [[] ? ? ? ?]. split; [split|..]; rewrite ?E5, ?E6, ?E7, ?E8; done.
Qed.

Lemma sorted_others l1 n l2 :
  sorted (l1 ++ n :: l2) -> others (n_val n) l1 /\ others (n_val n) l2.
Proof.
  intros Hs. pose proof (sorted_vals_nodup _ Hs) as Hd.
  rewrite fmap_app, fmap_cons, NoDup_app, NoDup_cons in Hd. destruct Hd as (_ & H1 & H2 & _).
  split; apply Forall_forall; intros m Hm Heq; apply (list_elem_of_fmap_2 n_val) in Hm.
  - rewrite Heq in Hm. apply (H1 _ Hm). left.
  - by rewrite Heq in Hm.
Qed.

(** One time of the handle is removed: from the handle set of the time, and
    from the list. *)
Lemma drop_time_ok s h te L G I l1 n l2 :
  removing h te s L I G -> L (Some h) = l1 ++ n :: l2 ->
  exists s1 te' s' L' I' G', drop_handle h (n_time n) G s = (Ok G', s1) /\
    entry_at (n_cell n) (tt_mem s1) = (Ok (mkEntry (n_time n) (first_cell l2 None)), tt_mem s1) /\
    (forall tm, on_mem (TE.remove te (n_time n)) (set_tailHandleMap tm s1)
                = (Ok te', set_tailHandleMap tm s')) /\
    handleMap s' = handleMap s /\ tailHandleMap s1 = tailHandleMap s /\
    tailHandleMap s' = tailHandleMap s /\
    removing h te' s' L' I' G' /\ L' (Some h) = l1 ++ l2 /\
    (forall h', h' <> h -> L' (Some h') = L (Some h')).
Proof.
  intros [Hlo Hmo Hix] HL.
  destruct (drop_handle_ok s h te L G I n Hlo Hmo Hix) as
    (k & hs & s1 & I1 & S' & Hk & Hkv & Hkt & Eh & E & Emap & Hlo1 & Hsh & Hix1 & Ehm & Etm & Etemp);
    [rewrite HL; set_solver|].
  set (keep := hs ∖ {[h]}) in *.
  pose proof (lo_list _ _ Hlo1 (Some h)) as Hl. rewrite virt_root, decide_True, upd_ne, HL in Hl by done.
  pose proof (lo_nodup _ _ Hlo1 (Some h)) as Hd. pose proof (lo_sorted _ _ Hlo1 (Some h)) as Hs.
  rewrite upd_ne, HL in Hd, Hs by done. destruct (sorted_others _ _ _ Hs) as [Ho1 Ho2].
  pose proof Hl as (r & _ & -> & q & Hc & Hl2)%lseg_app. pose proof (lseg_first _ _ _ _ Hl2) as ->.
  destruct (TE_remove_ok (tt_mem s1) te l1 n l2 (n_time n)) as (m' & E' & Hre);
    [apply Hlo1|done..|apply Hc|].
  set (te' := first_cell (l1 ++ l2) None) in *. set (s' := set_mem m' s1).
  set (L' := upd (Some h) (l1 ++ l2) (upd None S' L)).
  assert (HLh : L' (Some h) = l1 ++ l2) by apply upd_eq.
  assert (HLo : forall h', h' <> h -> L' (Some h') = L (Some h'))
    by (intros h' Hne; unfold L'; by rewrite !upd_ne by congruence).
  assert (HLn : L' None = S') by (unfold L'; by rewrite upd_ne, upd_eq).
  exists s1, te', s', L', I1, (if bool_decide (keep = ∅) then {[n_time n]} ∪ G else G).
  split; [exact E|]. split; [by apply entry_at_ok|].
  split; [intros tm; exact (on_mem_ok _ (set_tailHandleMap tm s1) _ _ E')|]. split_and!; try done.
  assert (Hlo' : lists_ok (virt h te' s') L').
  { apply (lists_remove (virt h te s1) (virt h te' s') _ (Some h) l1 n l2); [done|by rewrite upd_ne|exact Hre| |].
    - by rewrite virt_root, decide_True.
    - intros j Hj. rewrite !virt_root, !decide_False by done. by destruct j. }
  split; [done| |by rewrite HLn; destruct Hix1 as [[] ? ? ? ?]; split].
  rewrite <- Hkt, bool_decide_decide.
  replace (if if decide (keep = ∅) then true else false then _ else G)
    with (if decide (keep = ∅) then {[n_time k]} ∪ G else G) by (by case_decide).
  apply (maps_shrink (virt h te s) (virt h te' s') L L' G k keep Hlo Hmo Hk).
  - intros [h'|] m; [|rewrite HLn; apply Hsh].
    destruct (decide (h' = h)) as [->|Hne]; [rewrite HLh, HL; set_solver|by rewrite HLo].
  - intros [h'|] m; [|rewrite HLn; apply Hsh].
    destruct (decide (h' = h)) as [->|Hne]; [|by rewrite HLo]. rewrite HLh, HL, Hkv.
    rewrite !elem_of_app, elem_of_cons. intros [?|[->|?]]; by auto.
  - destruct (mo_find _ _ _ Hmo k Hk) as (hs' & Eh' & _ & Hhs). cbn in Eh'.
    assert (hs' = hs) as -> by congruence. intros h'. unfold keep.
    rewrite elem_of_difference, elem_of_singleton, Hhs.
    destruct (decide (h' = h)) as [->|Hne]; [|rewrite HLo by done; tauto].
    split; [by intros []|]. rewrite HLh, Hkv. intros (m & Hm & HmL)%list_elem_of_fmap.
    unfold others in *. rewrite Forall_forall in Ho1, Ho2.
    apply elem_of_app in HmL as [HmL|HmL]; [by apply Ho1 in HmL|by apply Ho2 in HmL].
  - rewrite HLn. destruct Hsh as [_ _ Hself]. case_bool_decide; case_decide; done.
  - cbn. rewrite Emap. case_bool_decide; case_decide; done.
  - cbn. rewrite (to_temporals _ _ _ (re_mem _ _ _ _ _ Hre)). exact Etemp.
Qed.

(** Whether the loop takes the time [x], and whether it goes on. *)
Definition taken (t : Temporal) (criterion : TemporalRelationship) (x : Temporal) (fin : bool)
    : bool * bool :=
  if T_eq t UNDEFINED_TEMPORAL then (true, fin) else matchesTimeCriterion x t criterion fin.

(** The cells that the loop leaves. *)
Fixpoint left_by (t : Temporal) (criterion : TemporalRelationship) (l : list node) (fin : bool)
    : list node :=
  match l with
  | [] => []
  | n :: l' =>
      if fin then l
      else let m := taken t criterion (n_val n) fin in
           if m.1 then left_by t criterion l' m.2 else n :: left_by t criterion l' m.2
  end.

Lemma left_by_done t criterion l : left_by t criterion l true = l.
Proof. by destruct l. Qed.

Lemma left_by_length t criterion l fin : length (left_by t criterion l fin) <= length l.
Proof.
  revert fin. induction l as [|n l IH]; intros fin; simpl; [lia|]. destruct fin; [done|].
  destruct (taken t criterion (n_val n) false) as [[|] fin']; simpl; specialize (IH fin'); lia.
Qed.

Lemma entry_matches_ok s n q t criterion fin :
  is_cell (tt_mem s) n q ->
  entry_matches (mkEntry (n_time n) q) t criterion fin s = (Ok (taken t criterion (n_val n) fin), s).
Proof.
  intros [_ Ht]. unfold entry_matches, taken. destruct (T_eq t UNDEFINED_TEMPORAL); [done|].
  by step (by apply on_mem_read, temporal_at_ok).
Qed.

(** The pointer to the last cell is forgotten when that cell goes. *)
Definition tail_kept (tailTe : option positive) (h : Handle) (l l' : list node) (s s' : TemporalTable) : Prop :=
  tailHandleMap s' = delete h (tailHandleMap s) \/
  (tailHandleMap s' = tailHandleMap s /\
   forall n, n ∈ l -> tailTe = Some (n_cell n) -> n ∈ l').

Lemma remove_handle_loop_ok h t criterion tailTe prev l : forall fuel s te L I G l1 fin res,
  not_undefined_previous t criterion = false ->
  removing h te s L I G -> L (Some h) = l1 ++ l -> length l < fuel ->
  exists s' te' L' I' G',
    remove_handle_loop fuel h t criterion tailTe (first_cell l None) fin (mkHR te prev res G) s =
      (Ok (mkHR te' prev (res || negb (bool_decide (left_by t criterion l fin = l))) G'), s') /\
    removing h te' s' L' I' G' /\ L' (Some h) = l1 ++ left_by t criterion l fin /\
    (forall h', h' <> h -> L' (Some h') = L (Some h')) /\ handleMap s' = handleMap s /\
    tail_kept tailTe h l (left_by t criterion l fin) s s'.
Proof.
  induction l as [|n l IH]; intros [|fuel] s te L I G l1 fin res Hnp Hrm HL Hf; simpl in Hf; try lia.
  { exists s, te, L, I, G. simpl. rewrite orb_false_r. split_and!; try done. right. done. }
  cbn [remove_handle_loop first_cell].
  destruct fin.
  { exists s, te, L, I, G. rewrite left_by_done, bool_decide_true, orb_false_r by done.
    split_and!; try done. by right. }
  pose proof (lo_list _ _ (rm_lists _ _ _ _ _ _ Hrm) (Some h)) as Hl. rewrite HL in Hl.
  pose proof Hl as (r & _ & -> & q & Hc & Hl2)%lseg_app. pose proof (lseg_first _ _ _ _ Hl2) as ->.
  step (apply on_mem_read; by apply entry_at_ok). step (by apply entry_matches_ok).
  rewrite Hnp. cbn [next hr_te hr_previousTe hr_result hr_toBeDeleted].
  cbn [left_by]. destruct (taken t criterion (n_val n) false) as [[|] fin']; cbn [fst snd].
  - destruct (drop_time_ok s h te L G I l1 n l Hrm HL)
      as (s1 & te' & s' & L' & I' & G' & E1 & Ee & E2 & Ehm & Etm & Etm' & Hrm' & HL' & Hoth).
    step (exact E1). step (apply on_mem_read; exact Ee). cbn [next time].
    set (tm := if bool_decide (tailTe = Some (n_cell n)) then delete h (tailHandleMap s)
               else tailHandleMap s).
    step (instantiate (1 := set_tailHandleMap tm s1); instantiate (1 := tt); unfold tm;
          case_bool_decide; [unfold modst; by rewrite Etm|by rewrite <- Etm; destruct s1]).
    step (apply E2).
    destruct (IH fuel (set_tailHandleMap tm s') te' L' I' G' l1 fin' true)
      as (s2 & te2 & L2 & I2 & G2 & E & Hrm2 & HL2 & Hoth2 & Ehm2 & Htl); [done| |done|lia|].
    { by apply (removing_ext h te' s'). }
    exists s2, te2, L2, I2, G2. rewrite E. split.
    { rewrite (bool_decide_false (left_by _ _ _ _ = n :: l)).
      - by rewrite orb_true_r.
      - intros Heq. apply (f_equal length) in Heq. simpl in Heq.
        pose proof (left_by_length t criterion l fin'). lia. }
    split; [done|]. split; [done|]. split.
    { intros h' Hne. by rewrite Hoth2, Hoth. }
    split; [by rewrite Ehm2|]. destruct Htl as [Htl|[Htl Hin]]; cbn in Htl; unfold tm in Htl;
      case_bool_decide as Hc'; rewrite ?delete_delete_eq in Htl; [by left..|by left|right].
    split; [done|]. intros m [->|Hm]%elem_of_cons Hmt; [done|by apply Hin].
  - destruct (IH fuel s te L I G (l1 ++ [n]) fin' res) as (s' & te' & L' & I' & G' & E & Hrm' & HL' & Hoth & Ehm & Htl);
      [done|done|by rewrite <- app_assoc|lia|].
    exists s', te', L', I', G'. rewrite E. split; [|split; [done|]].
    + do 4 f_equal. f_equal. f_equal. apply bool_decide_ext. split; [by intros ->|by intros [=]].
    + rewrite <- app_assoc in HL'. split_and!; try done.
      destruct Htl as [?|[? Htl]]; [by left|right; split; [done|]].
      intros m [->|Hm]%elem_of_cons ?; [left|right; by apply Htl].
Qed.

(** [PREVIOUS] criteria: the last time taken. *)
Fixpoint last_taken (t : Temporal) (criterion : TemporalRelationship) (l : list node) (fin : bool)
    : option node :=
  match l with
  | [] => None
  | n :: l' =>
      if fin then None
      else let m := taken t criterion (n_val n) fin in
           let rest := last_taken t criterion l' m.2 in
           if m.1 then Some (default n rest) else rest
  end.

Lemma last_taken_in t criterion l fin n : last_taken t criterion l fin = Some n -> n ∈ l.
Proof.
  revert fin. induction l as [|k l IH]; intros fin; cbn [last_taken]; [done|]. destruct fin; [done|].
  destruct (taken t criterion (n_val k) false) as [m fin']; cbn [fst snd].
  destruct (last_taken t criterion l fin') as [x|] eqn:E; destruct m; simpl; intros [= <-];
    try left; right; by apply (IH fin').
Qed.

Lemma remove_handle_loop_previous h t criterion tailTe l s q r : forall fuel fin prev res,
  lseg (tt_mem s) (first_cell l q) l None -> not_undefined_previous t criterion = true ->
  length l < fuel ->
  remove_handle_loop fuel h t criterion tailTe (first_cell l None) fin
      (mkHR (hr_te r) prev res (hr_toBeDeleted r)) s =
    (Ok (match last_taken t criterion l fin with
         | Some n => mkHR (hr_te r) (Some (n_cell n)) true (hr_toBeDeleted r)
         | None => mkHR (hr_te r) prev res (hr_toBeDeleted r)
         end), s).
Proof.
  revert q. induction l as [|n l IH]; intros q [|fuel] fin prev res Hl Hp Hf; simpl in Hf; try lia;
    [done|].
  cbn [remove_handle_loop first_cell last_taken]. destruct fin; [done|].
  destruct Hl as (_ & q' & Hc & Hl). pose proof (lseg_first _ _ _ _ Hl) as ->.
  step (apply on_mem_read; by apply entry_at_ok). step (by apply entry_matches_ok).
  rewrite Hp. cbn [next hr_te hr_previousTe hr_result hr_toBeDeleted].
  destruct (taken t criterion (n_val n) false) as [[|] fin']; cbn [fst snd];
    rewrite (IH None) by (done || lia); by destruct (last_taken t criterion l fin').
Qed.

(** The objects that wait for their deletion are deleted. *)
Lemma delete_temporal_ok s L G p :
  lists_ok s L -> maps_ok s L ({[p]} ∪ G) -> p ∉ G -> exists m',
    on_mem (delete_temporal p) s = (Ok tt, set_mem m' s) /\
    lists_ok (set_mem m' s) L /\ maps_ok (set_mem m' s) L G.
Proof.
  intros Hlo Hmo Hp. destruct (mo_dead _ _ _ Hmo p) as [v Hv]; [set_solver|].
  assert (Hnot : forall i n, n ∈ L i -> n_time n <> p).
  { intros i n Hn Heq. destruct (mo_time _ _ _ Hmo i n Hn) as (k & Hk & Hkt & _).
    apply (mo_garbage _ _ _ Hmo k Hk). set_solver. }
  exists (mkMem (delete p (temporals (tt_mem s))) (entries (tt_mem s)) (next_addr (tt_mem s))).
  split; [apply on_mem_ok; unfold delete_temporal; apply modify_ok; by rewrite Hv|]. split.
  - split; try apply Hlo.
    + split; [apply Hlo|]. simpl. intros c [_ Hc]%lookup_delete_is_Some.
      by apply (mw_temporals _ (lo_mem _ _ Hlo)).
    + intros i. replace (root _ i) with (root s i) by (by destruct i).
      apply (lseg_ext (tt_mem s)); [done| |apply (lo_list _ _ Hlo)].
      intros n Hn. simpl. rewrite lookup_delete_ne; [done|]. intros Heq. by apply (Hnot i n).
  - split; try apply Hmo; simpl.
    + intros c [Hne Hc]%lookup_delete_is_Some. destruct (mo_live _ _ _ Hmo c Hc) as [?|?]; [by left|right].
      set_solver.
    + intros n Hn HG. apply (mo_garbage _ _ _ Hmo n Hn). set_solver.
    + intros c Hc. rewrite lookup_delete_ne by (by intros ->).
      apply (mo_dead _ _ _ Hmo). set_solver.
Qed.

Lemma delete_temporals_ok s L G :
  lists_ok s L -> maps_ok s L G -> exists m',
    delete_temporals G s = (Ok tt, set_mem m' s) /\
    lists_ok (set_mem m' s) L /\ maps_ok (set_mem m' s) L ∅.
Proof.
  unfold delete_temporals. rewrite <- (list_to_set_elements_L G) at 1.
  pose proof (NoDup_elements G) as Hd. revert Hd. generalize (elements G). clear G.
  intros gs Hd. revert s. induction Hd as [|p gs Hp Hd IH]; intros s Hlo Hmo.
  { exists (tt_mem s). by rewrite set_mem_id. }
  destruct (delete_temporal_ok s L (list_to_set gs) p Hlo Hmo) as (m1 & E1 & Hlo1 & Hmo1).
  { by rewrite elem_of_list_to_set. }
  destruct (IH (set_mem m1 s) Hlo1 Hmo1) as (m' & E & H').
  exists m'. cbn [foreach]. step (exact E1). split; [exact E|exact H'].
Qed.

(** The new list is put into the map. *)
Lemma removing_finish h te s L I G :
  removing h te s L I G -> exists s',
    (_ ← modst (fun s => set_handleMap (snd (HandleMap.remove h (handleMap s))) s);
     _ ← match te with
         | None => mret tt
         | Some _ => modst (fun s => set_handleMap (HandleMap.add h te (handleMap s)) s)
         end;
     delete_temporals G) s = (Ok tt, s') /\
    TT_inv s' L I /\ tailHandleMap s' = tailHandleMap s.
Proof.
  intros [Hlo Hmo Hix]. step (done). cbn [HandleMap.remove snd].
  set (hm := match te with Some _ => HandleMap.add h te (delete h (handleMap s))
                         | None => delete h (handleMap s) end).
  step (instantiate (1 := set_handleMap hm s); instantiate (1 := tt); unfold hm; by destruct te).
  assert (Hroot : forall i, root (set_handleMap hm s) i = root (virt h te s) i).
  { intros i. rewrite virt_root. destruct i as [h'|]; cbn [root]; [|done].
    cbn [handleMap set_handleMap]. rewrite !get_lookup. unfold hm. case_decide as Hh.
    - injection Hh as ->. destruct te; [by rewrite lookup_add_eq|by rewrite lookup_delete_eq].
    - destruct te; rewrite ?lookup_add_ne, lookup_delete_ne by congruence; done. }
  destruct (delete_temporals_ok (set_handleMap hm s) L G) as (m' & E & Hlo' & Hmo').
  - by apply (lists_ext (virt h te s) _ L).
  - by apply (maps_ok_same (virt h te s)).
  - eexists. split; [exact E|]. split; [|done]. split; [done|done|].
    by destruct Hix as [[] ? ? ? ?]; split.
Qed.

(** What a removal leaves of the list of the handle. *)
Definition left_times (t : Temporal) (criterion : TemporalRelationship) (l : list node) : list node :=
  if not_undefined_previous t criterion then
    match last_taken t criterion l false with
    | Some n => filter (fun k => k <> n) l
    | None => l
    end
  else left_by t criterion l false.

Lemma filter_out (l1 : list node) n l2 :
  NoDup (n_cell <$> l1 ++ n :: l2) -> filter (fun k => k <> n) (l1 ++ n :: l2) = l1 ++ l2.
Proof.
  intros [_ Hn]%nodup_remove. rewrite filter_app, filter_cons_False by (intros H; by apply H).
  rewrite fmap_app, elem_of_app in Hn.
  rewrite !filter_keep; [done|..]; apply Forall_forall; intros k Hk ->; apply Hn; [right|left];
    by apply list_elem_of_fmap_2.
Qed.

Lemma left_times_sub t criterion l n : n ∈ left_times t criterion l -> n ∈ l.
Proof.
  unfold left_times. destruct (not_undefined_previous t criterion).
  - destruct (last_taken t criterion l false); [|done]. by intros [_ ?]%list_elem_of_filter.
  - generalize false. induction l as [|k l IH]; intros fin; [done|]. cbn [left_by].
    destruct fin; [done|]. destruct (taken t criterion (n_val k) false) as [[|] fin']; cbn [fst snd];
      [intros; right; by apply (IH fin')|]. intros [->|?]%elem_of_cons; [left|right; by apply (IH fin')].
Qed.

Lemma removing_start s L I h : TT_inv s L I -> removing h (root s (Some h)) s L I ∅.
Proof.
  intros [Hlo Hmo Hix]. split; [|by apply (maps_ok_same s)|done].
  apply (lists_ext s _ L); [done|done| |done]. intros i. rewrite virt_root. by case_decide as Hi; [rewrite Hi|].
Qed.

(** The pointer to the last cell stays right, if the last time stays. *)
Definition safe_removal (t : Temporal) (criterion : TemporalRelationship) (l : list node) : Prop :=
  not_undefined_previous t criterion = true ->
  forall n, last_taken t criterion l false = Some n -> last l <> Some n.

Lemma last_stays (l l' : list node) n :
  sublist l' l -> NoDup l -> last l = Some n -> n ∈ l' -> last l' = Some n.
Proof.
  intros Hsub Hd (l0 & ->)%last_Some Hn.
  apply sublist_app_r in Hsub as (k1 & k2 & -> & Hk1 & Hk2).
  apply sublist_cons_r in Hk2 as [Hk2|(k2' & -> & Hk2)].
  - apply sublist_nil_r in Hk2 as ->. exfalso. rewrite app_nil_r in Hn.
    apply NoDup_app in Hd as (_ & Hd & _). apply (Hd n); [by eapply sublist_subseteq|left].
  - apply sublist_nil_r in Hk2 as ->. apply last_snoc.
Qed.

Lemma left_times_sublist t criterion l : sublist (left_times t criterion l) l.
Proof.
  unfold left_times. destruct (not_undefined_previous t criterion).
  - destruct (last_taken t criterion l false); [apply sublist_filter|done].
  - generalize false. induction l as [|k l IH]; intros fin; [done|]. cbn [left_by].
    destruct fin; [done|]. destruct (taken t criterion (n_val k) false) as [[|] fin']; cbn [fst snd];
      [by apply sublist_cons|by apply sublist_skip].
Qed.

Lemma tail_after s s' L L' h :
  tail_ok s L h -> NoDup (n_cell <$> L (Some h)) -> sublist (L' (Some h)) (L (Some h)) ->
  tail_kept (HandleMap.get h (tailHandleMap s)) h (L (Some h)) (L' (Some h)) s s' ->
  tail_ok s' L' h.
Proof.
  intros Htail Hd Hsub [Htm|[Htm Hin]] p; rewrite Htm; [by rewrite lookup_delete_eq|].
  intros Hp. destruct (Htail p Hp) as (n & Hn & ->). exists n. split; [|done].
  apply (last_stays (L (Some h))); [done|by eapply NoDup_fmap_1|done|]. apply Hin.
  - by apply last_Some_elem_of in Hn.
  - by rewrite get_lookup, Hp.
Qed.

Lemma cell_inj' l n m :
  NoDup (n_cell <$> l) -> n ∈ l -> m ∈ l -> n_cell n = n_cell m -> n = m.
Proof.
  intros Hd (l1 & l2 & ->)%list_elem_of_split Hm Heq.
  apply nodup_remove in Hd as [_ Hn]. destruct (decide (n = m)) as [|Hne]; [done|]. exfalso.
  apply Hn. rewrite Heq. apply list_elem_of_fmap_2. set_solver.
Qed.

(** The times are taken out of the list of the handle. *)
Lemma remove_handle_times_ok s L I h t criterion :
  TT_inv s L I -> let l := L (Some h) in exists r s' L' I',
    remove_handle_times h t criterion s = (Ok r, s') /\
    hr_result r = negb (bool_decide (left_times t criterion l = l)) /\
    removing h (hr_te r) s' L' I' (hr_toBeDeleted r) /\
    L' (Some h) = left_times t criterion l /\
    (forall h', h' <> h -> L' (Some h') = L (Some h')) /\
    (if not_undefined_previous t criterion then tailHandleMap s' = tailHandleMap s
     else tail_kept (HandleMap.get h (tailHandleMap s)) h l (L' (Some h)) s s').
Proof.
  intros Hinv l. pose proof (removing_start s L I h Hinv) as Hrm.
  pose proof (lo_list _ _ (ti_lists _ _ _ Hinv) (Some h)) as Hl. cbn [root] in Hl.
  pose proof (lo_nodup _ _ (ti_lists _ _ _ Hinv) (Some h)) as Hd.
  pose proof (lseg_first _ _ _ _ Hl) as Hfirst. pose proof (lseg_length _ _ _ _ Hd Hl) as Hlen.
  unfold remove_handle_times. step (done). step (done). step (done). cbn [root] in Hrm. rewrite Hfirst in *.
  set (tailTe := HandleMap.get h (tailHandleMap s)). fold l in Hl, Hd, Hrm, Hlen |- *.
  assert (Hfuel : length l < chain_fuel (tt_mem s)) by (unfold chain_fuel; lia).
  unfold left_times. destruct (not_undefined_previous t criterion) eqn:Hprev.
  - step (apply (remove_handle_loop_previous h t criterion tailTe l s None
                   (mkHR (first_cell l None) None false ∅)); done).
    destruct (last_taken t criterion l false) as [n|] eqn:En; cbn [hr_previousTe hr_te hr_toBeDeleted hr_result].
    + pose proof (last_taken_in _ _ _ _ _ En) as (l1 & l2 & HL)%list_elem_of_split.
      destruct (lseg_cell _ _ _ _ n Hl ltac:(rewrite HL; set_solver)) as (q & Hc).
      destruct (drop_time_ok s h _ L ∅ I l1 n l2 Hrm HL)
        as (s1 & te' & s' & L' & I' & G' & E1 & _ & E2 & Ehm & Etm & Etm' & Hrm' & HL' & Hoth).
      step (apply on_mem_read; by apply entry_at_ok). step (exact E1). cbn [time].
      specialize (E2 (tailHandleMap s1)).
      replace (set_tailHandleMap (tailHandleMap s1) s1) with s1 in E2 by (by destruct s1).
      step (exact E2). eexists _, _, L', I'. split; [done|]. cbn [hr_te hr_result hr_toBeDeleted].
      rewrite HL in Hd. split.
      { rewrite HL, filter_out by done. rewrite bool_decide_false; [done|].
        intros Heq%(f_equal length). rewrite !length_app in Heq. simpl in Heq. lia. }
      split; [by apply (removing_ext h te' s')|]. rewrite HL, filter_out by done.
      split; [done|]. split; [done|exact Etm].
    + eexists _, s, L, I. split; [done|]. cbn. by rewrite bool_decide_true.
  - destruct (remove_handle_loop_ok h t criterion tailTe None l (chain_fuel (tt_mem s)) s
                (first_cell l None) L I ∅ [] false false Hprev Hrm)
      as (s' & te' & L' & I' & G' & E & Hrm' & HL' & Hoth & Ehm & Htl); [done|done|].
    step (exact E). cbn [hr_previousTe]. eexists _, s', L', I'. split; [done|].
    cbn [hr_te hr_result hr_toBeDeleted]. cbn [app] in HL'. rewrite HL'. split_and!; done.
Qed.

Lemma TT_remove_handle_ok s L I h t criterion :
  TT_inv s L I -> exists s' L' I',
    TT_remove_handle h t criterion s =
      (Ok (negb (bool_decide (left_times t criterion (L (Some h)) = L (Some h)))), s') /\
    TT_inv s' L' I' /\ L' (Some h) = left_times t criterion (L (Some h)) /\
    (forall h', h' <> h -> L' (Some h') = L (Some h')) /\
    (forall h', h' <> h -> tail_ok s L h' -> tail_ok s' L' h') /\
    (tail_ok s L h -> safe_removal t criterion (L (Some h)) -> tail_ok s' L' h).
Proof.
  intros Hinv.
  destruct (remove_handle_times_ok s L I h t criterion Hinv)
    as (r & s1 & L' & I' & E1 & <- & Hrm & HL' & Hoth & Htl).
  unfold TT_remove_handle. step (exact E1).
  destruct (removing_finish _ _ _ _ _ _ Hrm) as (s' & E2 & Hinv' & Htm').
  erewrite bind_seq2; [|exact E2].
  exists s', L', I'. split; [done|]. split; [done|]. split; [done|]. split; [done|].
  assert (Htm : tailHandleMap s' = tailHandleMap s \/ tailHandleMap s' = delete h (tailHandleMap s)).
  { rewrite Htm'. destruct (not_undefined_previous t criterion); [by left|].
    destruct Htl as [?|[? _]]; by auto. }
  split.
  - intros h' Hne Hok p. rewrite Hoth by done.
    destruct Htm as [->| ->]; [|rewrite lookup_delete_ne by done]; apply Hok.
  - intros Hok Hsafe. apply (tail_after s s' L L' h); [done|apply (lo_nodup _ _ (ti_lists _ _ _ Hinv))| |].
    { rewrite HL'. apply left_times_sublist. }
    unfold tail_kept in *. rewrite Htm'.
    destruct (not_undefined_previous t criterion) eqn:Hprev; [right|done].
    split; [done|]. intros n Hn Htail. rewrite get_lookup in Htail.
    destruct (tailHandleMap s !! h) as [p|] eqn:Ep; [|done]. cbn in Htail. subst p.
    destruct (Hok _ Ep) as (m & Hm & [= Heq]).
    pose proof (lo_nodup _ _ (ti_lists _ _ _ Hinv) (Some h)) as Hd.
    assert (n = m) as -> by (apply (cell_inj' (L (Some h))); [done|done|by apply last_Some_elem_of|done]).
    rewrite HL'. unfold left_times. rewrite Hprev.
    destruct (last_taken t criterion (L (Some h)) false) as [k|] eqn:Ek; [|done].
    apply list_elem_of_filter. split; [|done]. intros ->. by apply (Hsafe Hprev k Ek).
Qed.

(** ** [remove(t, EXACT)] *)

(** The list without the time [v]. *)
Definition without (v : Temporal) (l : list node) : list node := filter (fun n => n_val n <> v) l.

Lemma without_split (v : Temporal) l1 n l2 :
  sorted (l1 ++ n :: l2) -> n_val n = v -> without v (l1 ++ n :: l2) = l1 ++ l2.
Proof.
  intros [Ho1 Ho2]%sorted_others <-. unfold without.
  rewrite filter_app, filter_cons_False by (intros H; by apply H).
  by rewrite !filter_keep.
Qed.

Lemma without_none v l : v ∉ (n_val <$> l) -> without v l = l.
Proof.
  intros Hv. apply filter_keep, Forall_forall. intros n Hn Heq. apply Hv. rewrite <- Heq.
  by apply list_elem_of_fmap_2.
Qed.

(** The lists of the handles [hs] lose the time. *)
Definition lists_without (v : Temporal) (hs : list Handle) (L : lists) : lists := fun i =>
  match i with
  | Some h => if decide (h ∈ hs) then without v (L i) else L i
  | None => L i
  end.

(** Whether the pointer to the last cell of [h] is forgotten. *)
Definition forgets (s : TemporalTable) (h : Handle) : bool :=
  let tailTe := HandleMap.get h (tailHandleMap s) in
  bool_decide (is_Some tailTe) && bool_decide (tailTe = HandleMap.get h (handleMap s)).

(** Only the time lists of handles, and the pointers to their ends, differ. *)
Record same_times (s s' : TemporalTable) : Prop := {
  st_temporals : temporals (tt_mem s') = temporals (tt_mem s);
  st_map : temporalMap s' = temporalMap s;
  st_sorted : sortedTemporalList s' = sortedTemporalList s;
  st_table : temporalIndexTable s' = temporalIndexTable s;
  st_size : indexTableSize s' = indexTableSize s;
  st_count : indexTableCount s' = indexTableCount s;
  st_pending : pendingUpdateCount s' = pendingUpdateCount s
}.

Lemma remove_from_handle_ok s L h p n l1 l2 :
  lists_ok s L -> L (Some h) = l1 ++ n :: l2 -> temporals (tt_mem s) !! p = Some (n_val n) ->
  exists s', remove_from_handle p h s = (Ok tt, s') /\
    lists_ok s' (upd (Some h) (l1 ++ l2) L) /\ same_times s s' /\
    (forall h', h' <> h -> handleMap s' !! h' = handleMap s !! h') /\
    tailHandleMap s' = (if forgets s h then delete h (tailHandleMap s) else tailHandleMap s).
Proof.
  intros Hlo HL Ht. unfold remove_from_handle. step (done). cbn [HandleMap.remove].
  rewrite <- get_lookup. step (done). step (done).
  cbn [tailHandleMap set_handleMap]. fold (forgets s h).
  set (tm := if forgets s h then delete h (tailHandleMap s) else tailHandleMap s).
  set (s1 := set_tailHandleMap tm (set_handleMap (delete h (handleMap s)) s)).
  step (instantiate (1 := s1); instantiate (1 := tt); unfold s1, tm; by destruct (forgets s h), s).
  pose proof (lo_list _ _ Hlo (Some h)) as Hl. pose proof (lo_nodup _ _ Hlo (Some h)) as Hd.
  pose proof (lo_sorted _ _ Hlo (Some h)) as Hs. cbn [root] in Hl. rewrite HL in Hl, Hd, Hs.
  destruct (sorted_others _ _ _ Hs) as [Ho1 Ho2].
  destruct (TE_remove_ok (tt_mem s) _ l1 n l2 p (lo_mem _ _ Hlo) Hd Hl Ho1 Ho2 Ht) as (m' & E & Hre).
  step (exact (on_mem_ok _ s1 _ _ E)).
  set (te := first_cell (l1 ++ l2) None) in *.
  set (hm := match te with Some _ => HandleMap.add h te (delete h (handleMap s))
                         | None => delete h (handleMap s) end).
  assert (Hhm : forall h', h' <> h -> hm !! h' = handleMap s !! h').
  { intros h' Hne. unfold hm. destruct te; rewrite ?lookup_add_ne, lookup_delete_ne by done; done. }
  exists (set_handleMap hm (set_mem m' s1)). split; [unfold hm; by destruct te|]. split; [|split; [|done]].
  - apply (lists_remove s (set_handleMap hm (set_mem m' s1)) L (Some h) l1 n l2 Hlo HL Hre).
    + cbn [root handleMap set_handleMap]. rewrite get_lookup. unfold hm. fold te.
      destruct te; [by rewrite lookup_add_eq|by rewrite lookup_delete_eq].
    + intros [h'|] Hne; [|done]. cbn [root handleMap set_handleMap]. rewrite !get_lookup, Hhm; [done|congruence].
  - split; try done. apply (re_mem _ _ _ _ _ Hre).
Qed.

Lemma same_times_trans s1 s2 s3 : same_times s1 s2 -> same_times s2 s3 -> same_times s1 s3.
Proof. intros [] []. split; congruence. Qed.

Definition tail_left (s : TemporalTable) (h : Handle) : option (option positive) :=
  if forgets s h then None else tailHandleMap s !! h.

Lemma forgets_ext s s' h :
  handleMap s' !! h = handleMap s !! h -> tailHandleMap s' !! h = tailHandleMap s !! h ->
  tail_left s' h = tail_left s h.
Proof. intros H1 H2. unfold tail_left, forgets. by rewrite !get_lookup, H1, H2. Qed.

Lemma remove_from_handles_ok p v hs : NoDup hs -> forall s L,
  lists_ok s L -> temporals (tt_mem s) !! p = Some v ->
  (forall h, h ∈ hs -> v ∈ (n_val <$> L (Some h))) ->
  exists s', foreach (remove_from_handle p) hs s = (Ok tt, s') /\
    lists_ok s' (lists_without v hs L) /\ same_times s s' /\
    forall h, tailHandleMap s' !! h = if decide (h ∈ hs) then tail_left s h else tailHandleMap s !! h.
Proof.
  induction 1 as [|h hs Hh Hd IH]; intros s L Hlo Ht Hin.
  { exists s. split; [done|]. split; [|split; [done|]].
    - apply (lists_ext s _ L); [done..|]. intros [h|]; [|done]. unfold lists_without.
      rewrite decide_False; [done|apply not_elem_of_nil].
    - intros h. rewrite decide_False; [done|apply not_elem_of_nil]. }
  destruct (list_elem_of_fmap_1 _ _ _ (Hin h ltac:(left))) as (n & Hnv & Hn).
  apply list_elem_of_split in Hn as (l1 & l2 & HL).
  destruct (remove_from_handle_ok s L h p n l1 l2 Hlo HL) as (s1 & E1 & Hlo1 & Hst & Hhm & Htm);
    [by rewrite <- Hnv|].
  destruct (IH s1 (upd (Some h) (l1 ++ l2) L) Hlo1) as (s' & E2 & Hlo' & Hst' & Htm').
  { by rewrite (st_temporals _ _ Hst). }
  { intros h' Hh'. rewrite upd_ne; [apply Hin; by right|]. intros [= ->]. done. }
  exists s'. cbn [foreach]. step (exact E1). split; [exact E2|]. split; [|split].
  - apply (lists_ext s' s' (lists_without v hs (upd (Some h) (l1 ++ l2) L))); [done..|].
    intros [h'|]; cbn [lists_without]; [|by rewrite upd_ne].
    destruct (decide (h' = h)) as [->|Hne].
    + rewrite (decide_True (P := h ∈ h :: hs)) by left. rewrite decide_False by done.
      rewrite upd_eq, HL. apply without_split; [|done]. rewrite <- HL. apply Hlo.
    + rewrite upd_ne by congruence. repeat case_decide; try done; set_solver.
  - by apply (same_times_trans _ s1).
  - assert (Hsame : forall h', h' <> h -> tailHandleMap s1 !! h' = tailHandleMap s !! h').
    { intros h' Hne. rewrite Htm. destruct (forgets s h); [|done]. by rewrite lookup_delete_ne. }
    intros h'. rewrite Htm'. destruct (decide (h' = h)) as [->|Hne].
    + rewrite (decide_True (P := h ∈ h :: hs)) by left. rewrite decide_False by done.
      rewrite Htm. unfold tail_left. destruct (forgets s h); [|done]. by rewrite lookup_delete_eq.
    + assert (Hf : tail_left s1 h' = tail_left s h') by (apply forgets_ext; auto).
      repeat case_decide; rewrite ?Hf, ?Hsame by done; try done; set_solver.
Qed.

(** The pointer to the last cell stays right, unless the time is the last of
    several: the code compares the pointer with the first cell. *)
Definition safe_exact (v : Temporal) (l : list node) : Prop :=
  v ∈ (n_val <$> l) -> length l = 1 \/ (forall n, last l = Some n -> n_val n <> v).

Lemma tail_after_exact s s' L h v :
  lists_ok s L -> tail_ok s L h -> safe_exact v (L (Some h)) -> v ∈ (n_val <$> L (Some h)) ->
  tailHandleMap s' !! h = tail_left s h ->
  forall p, tailHandleMap s' !! h = Some p ->
  exists n, last (without v (L (Some h))) = Some n /\ p = Some (n_cell n).
Proof.
  intros Hlo Htail Hsafe Hv Htm p. rewrite Htm. unfold tail_left.
  destruct (forgets s h) eqn:Hf; [done|]. intros Hp. destruct (Htail p Hp) as (n & Hn & ->).
  exists n. split; [|done]. destruct (Hsafe Hv) as [Hone|Hlast].
  - exfalso. destruct (L (Some h)) as [|x [|]] eqn:HL; try done. injection Hn as ->.
    pose proof (lseg_first _ _ _ _ (lo_list _ _ Hlo (Some h))) as Hfirst.
    rewrite HL in Hfirst. cbn [root first_cell] in Hfirst. revert Hf. unfold forgets.
    rewrite (get_lookup h (tailHandleMap s)), Hp, Hfirst. simpl.
    by rewrite !bool_decide_true by eauto.
  - apply (last_stays (L (Some h))); [apply sublist_filter|eapply NoDup_fmap_1, (lo_nodup _ _ Hlo)|done|].
    apply list_elem_of_filter. split; [by apply Hlast|by apply last_Some_elem_of].
Qed.

Section exact.
Context `{SetOrder}.

Lemma remove_exact_none s L I v :
  TT_inv s L I -> t_wf v -> v ∉ (n_val <$> L None) -> remove_exact v s = (Ok false, s).
Proof.
  intros [Hlo Hmo _] Hv Hno. unfold remove_exact. step (done). unfold getKey, tm_find.
  destruct (temporalMap s !! t_key v) as [e|] eqn:E; [|done]. exfalso.
  destruct (mo_dom _ _ _ Hmo _ (mk_is_Some _ _ E)) as (n & Hn & Hkey).
  apply t_key_inj in Hkey; [|by eapply list_wf|done]. subst v. apply Hno. by apply list_elem_of_fmap_2.
Qed.

Lemma remove_exact_ok s L I v :
  TT_inv s L I -> v ∈ (n_val <$> L None) -> exists s' L' I',
    remove_exact v s = (Ok true, s') /\ TT_inv s' L' I' /\
    (forall i, L' i = without v (L i)) /\
    (forall h, tail_ok s L h -> safe_exact v (L (Some h)) -> tail_ok s' L' h).
Proof.
  intros [Hlo Hmo Hix] (k & -> & Hk)%list_elem_of_fmap. set (v := n_val k).
  destruct (mo_find _ _ _ Hmo k Hk) as (hs & Eh & _ & Hhs). fold v in Eh, Hhs.
  pose proof (live_val s L Hlo k Hk) as Ht. fold v in Ht.
  unfold remove_exact. step (done). unfold getKey, tm_find. rewrite Eh. cbn [fmap option_fmap option_map fst].
  step (by apply on_mem_read, temporal_at_ok). step (unfold reads; by rewrite Eh). step (done). cbn [snd].
  set (s1 := set_temporalMap (delete (t_key v) (temporalMap s)) s).
  assert (Hlo1 : lists_ok s1 L) by (apply (lists_ext s _ L); [done|done|by intros []|done]).
  destruct (remove_from_handles_ok (n_time k) v (set_order hs)) with (s := s1) (L := L)
    as (s2 & E2 & Hlo2 & Hst & Htm); [apply NoDup_set_order|done|done| |].
  { intros h Hh%elem_of_set_order. by apply Hhs. }
  step (exact E2). set (L2 := lists_without v (set_order hs) L) in *.
  assert (HL2 : forall h, L2 (Some h) = without v (L (Some h))).
  { intros h. unfold L2, lists_without. case_decide as Hh; [done|]. symmetry. apply without_none.
    intros Hv%Hhs. by apply Hh, elem_of_set_order. }
  pose proof Hk as (S1 & S2 & HS)%list_elem_of_split.
  pose proof (lo_sorted _ _ Hlo None) as Hs. pose proof (lo_nodup _ _ Hlo None) as Hd.
  pose proof (lo_wf _ _ Hlo None) as Hw. pose proof (lo_list _ _ Hlo2 None) as Hl2.
  change (L2 None) with (L None) in Hl2. pose proof (map_size _ _ _ Hlo Hmo) as Hsize.
  rewrite HS in Hix, Hs, Hd, Hw, Hl2, Hsize.
  destruct (removeFromSortedEntries_ok S1 S2 k Hd Hs Hw s2 I (lo_mem _ _ Hlo2) Hl2)
    as (s3 & I3 & E3 & Hre & Hroot & Hsm & Hix3).
  { destruct Hix as [[P1 P2 P3] ? ? ? ?], Hst. cbn in *. split; [split|..]; try congruence; try done.
    intros i n Hi. rewrite st_table0. by apply P3. }
  { rewrite (st_map _ _ Hst). cbn [temporalMap s1 set_temporalMap].
    rewrite map_size_delete_Some by by eexists. rewrite Hsize, !length_app. simpl. lia. }
  step (exact E3). set (L3 := upd None (S1 ++ S2) L2).
  assert (Hlo3 : lists_ok s3 L3).
  { apply (lists_remove s2 s3 L2 None S1 k S2 Hlo2 HS Hre Hroot).
    intros [h|] Hne; [|done]. cbn [root]. by rewrite (sm_handleMap _ _ Hsm). }
  assert (HL3 : forall i, L3 i = without v (L i)).
  { intros [h|]; unfold L3; [by rewrite upd_ne|]. by rewrite upd_eq, HS, (without_split v S1 k S2). }
  assert (Hmo3 : maps_ok s3 L3 ({[n_time k]} ∪ ∅)).
  { change ({[n_time k]} ∪ ∅) with (if decide (@empty (gset Handle) _ = ∅) then {[n_time k]} ∪ ∅ else ∅ : gset positive).
    apply (maps_shrink s s3 L L3 ∅ k ∅ Hlo Hmo Hk).
    - intros i n. rewrite HL3. by intros [_ ?]%list_elem_of_filter.
    - intros i n Hn Hne. rewrite HL3. by apply list_elem_of_filter.
    - intros h. rewrite HL3. split; [set_solver|]. intros (n & Hnv & [Hne _]%list_elem_of_filter)%list_elem_of_fmap.
      by destruct Hne.
    - rewrite decide_True by done. rewrite HL3. intros [Hne _]%list_elem_of_filter. by apply Hne.
    - rewrite decide_True by done. by rewrite (sm_map _ _ Hsm), (st_map _ _ Hst).
    - by rewrite (sm_temporals _ _ Hsm), (st_temporals _ _ Hst). }
  destruct (delete_temporal_ok s3 L3 ∅ (n_time k) Hlo3 Hmo3) as (m' & E4 & Hlo4 & Hmo4); [set_solver|].
  step (exact E4). exists (set_mem m' s3), L3, I3. split; [done|]. split; [split; [done|done|]|].
  { unfold L3. rewrite upd_eq. by destruct Hix3 as [[] ? ? ? ?]; split. }
  split; [done|]. intros h Htail Hsafe p. rewrite HL3. cbn [tailHandleMap set_mem].
  rewrite (sm_tail _ _ Hsm). destruct (decide (h ∈ set_order hs)) as [Hh|Hh].
  - intros Hp. apply (tail_after_exact s s2 L h v); try done; [by apply Hhs, elem_of_set_order|].
    rewrite Htm. by rewrite decide_True.
  - rewrite Htm, decide_False by done. intros Hp. rewrite without_none; [by apply Htail|].
    intros Hv%Hhs. by apply Hh, elem_of_set_order.
Qed.
End exact.
