(* ===== verification/TimeGet.v ===== *)
(** The lookups of the time server: [get] of src/opencog/atomspace/
    TemporalTable.cc finds the times and handles that the specification asks
    for. *)
From S2P Require Import Prelude Temporal TemporalEntry TimeSpec TemporalTable TimeIndex TimeInv TimeAdd TimeRemove.

(** ** The cells that a search finds *)
Fixpoint hits (t : Temporal) (criterion : TemporalRelationship) (l : list node) (fin : bool)
    : list node :=
  match l with
  | [] => []
  | n :: l' =>
      if fin then []
      else let m := taken t criterion (n_val n) fin in
           if m.1 then n :: hits t criterion l' m.2 else hits t criterion l' m.2
  end.

Definition chosen (t : Temporal) (criterion : TemporalRelationship) (l : list node) : list node :=
  if not_undefined_previous t criterion then option_list (last (hits t criterion l false))
  else hits t criterion l false.

Lemma hits_in t criterion l fin n : n ∈ hits t criterion l fin -> n ∈ l.
Proof.
  revert fin. induction l as [|k l IH]; intros fin; [done|]. cbn [hits]. destruct fin; [set_solver|].
  destruct (taken t criterion (n_val k) false) as [[|] fin']; cbn [fst snd].
  - intros [->|?]%elem_of_cons; [left|right; by apply (IH fin')].
  - intros ?. right. by apply (IH fin').
Qed.

Lemma chosen_in t criterion l n : n ∈ chosen t criterion l -> n ∈ l.
Proof.
  unfold chosen. destruct (not_undefined_previous t criterion); [|apply hits_in].
  destruct (last (hits t criterion l false)) as [k|] eqn:E; [|by intros ?%not_elem_of_nil].
  intros ->%list_elem_of_singleton. apply (hits_in t criterion l false). by apply last_Some_elem_of.
Qed.

(** An argument of a search. *)
Definition t_arg (t : Temporal) : Prop := t_wf t \/ t = UNDEFINED_TEMPORAL.

Lemma hits_undefined criterion l : hits UNDEFINED_TEMPORAL criterion l false = l.
Proof. induction l as [|n l IH]; [done|]. cbn [hits]. simpl. by rewrite IH. Qed.

Lemma get_loop_hits h t criterion l : forall fin result,
  get_loop h t criterion (n_val <$> l) fin result =
    if not_undefined_previous t criterion then
      match last (hits t criterion l fin) with Some n => [(h, n_val n)] | None => result end
    else result ++ ((fun n => (h, n_val n)) <$> hits t criterion l fin).
Proof.
  induction l as [|n l IH]; intros fin result; [simpl; rewrite app_nil_r; by destruct (not_undefined_previous _ _)|].
  rewrite fmap_cons. cbn [get_loop hits]. destruct fin; [simpl; rewrite app_nil_r; by destruct (not_undefined_previous _ _)|].
  fold (taken t criterion (n_val n) false).
  destruct (taken t criterion (n_val n) false) as [[|] fin']; cbn [fst snd]; rewrite IH; [|done].
  fold (not_undefined_previous t criterion). destruct (not_undefined_previous t criterion).
  - rewrite last_cons. by destruct (last (hits t criterion l fin')).
  - by rewrite fmap_cons, <- app_assoc.
Qed.

Lemma chosen_vals t criterion l :
  sorted l -> all_wf l -> t_arg t -> n_val <$> chosen t criterion l = found t criterion (n_val <$> l).
Proof.
  intros Hs Hw [Ht| ->].
  2: { unfold chosen, found. rewrite hits_undefined. done. }
  pose proof (t_wf_defined t Ht) as Hd. unfold found. rewrite Hd.
  apply (inj (fmap (pair UNDEFINED))).
  assert (Hw' : Forall t_wf (n_val <$> l)) by (apply Forall_fmap; exact Hw).
  pose proof (get_loop_hits UNDEFINED t criterion l false []) as Hloop.
  assert (Hp : not_undefined_previous t criterion = is_previous criterion)
    by (unfold not_undefined_previous, T_ne; by rewrite Hd).
  unfold chosen. rewrite Hp in *. unfold wanted. destruct (is_next criterion) eqn:Hn.
  - assert (Hip : is_previous criterion = false) by (by destruct criterion).
    rewrite Hip in *. rewrite search_next in Hloop by done. rewrite <- list_fmap_compose. done.
  - destruct (is_previous criterion) eqn:Hip.
    + rewrite search_previous in Hloop by done.
      destruct (last (hits t criterion l false)) as [n|]; cbn [option_list fmap list_fmap];
        destruct (last (filter _ _)); simplify_eq; try done.
    + rewrite search_all in Hloop by done. rewrite <- list_fmap_compose. done.
Qed.

(** The single time of [EXACT]. *)
Lemma wanted_exact t l : NoDup l -> t ∈ l -> filter (fun T => related EXACT t T) l = [t].
Proof.
  intros Hd (l1 & l2 & ->)%list_elem_of_split. apply NoDup_app in Hd as (_ & H1 & [H2 _]%NoDup_cons).
  assert (Hno : forall l', t ∉ l' -> filter (fun T => related EXACT t T) l' = []).
  { intros l' Hl'. induction l' as [|x l' IH]; [done|]. rewrite filter_cons_False; [set_solver|].
    cbn [related]. rewrite bool_decide_false; [by intros []|]. intros ->. apply Hl'. left. }
  rewrite filter_app, filter_cons_True by (cbn [related]; by rewrite bool_decide_true).
  rewrite !Hno; [done|done|]. intros Ht. apply (H1 t Ht). left.
Qed.

Lemma found_exact t l :
  NoDup l -> t_wf t -> found t EXACT l = if decide (t ∈ l) then [t] else [].
Proof.
  intros Hd Ht. unfold found, wanted. rewrite t_wf_defined by done. cbn [is_next is_previous].
  case_decide as Hin; [by apply wanted_exact|].
  induction l as [|x l IH]; [done|]. apply NoDup_cons in Hd as [_ Hd].
  rewrite filter_cons_False; [apply IH; [done|set_solver]|]. cbn [related].
  rewrite bool_decide_false; [by intros []|]. intros ->. apply Hin. left.
Qed.

(** The times of [OVERLAPS] start by the end of the interval. *)
Definition starts_by (t : Temporal) (n : node) : Prop := (getLowerBound (n_val n) <= getUpperBound t)%N.

Lemma before_lower t1 t2 : before t1 t2 -> (getLowerBound t1 <= getLowerBound t2)%N.
Proof. unfold before. lia. Qed.

Lemma overlaps_found t P Q :
  Forall (starts_by t) P -> Forall (fun n => ~ starts_by t n) Q -> t_wf t ->
  found t OVERLAPS (n_val <$> P ++ Q) =
    n_val <$> filter (fun n => (getLowerBound t <=? getUpperBound (n_val n))%N) P.
Proof.
  intros HP HQ Ht. unfold found, wanted. rewrite t_wf_defined by done. cbn [is_next is_previous].
  rewrite fmap_app, filter_app.
  assert (HQ0 : filter (fun T => related OVERLAPS t T) (n_val <$> Q) = []).
  { clear HP. induction HQ as [|n Q Hn _ IH]; [done|]. rewrite fmap_cons, filter_cons_False; [done|].
    unfold starts_by in Hn. cbn [related].
    rewrite (proj2 (N.leb_gt (getLowerBound (n_val n)) _)) by lia. rewrite andb_false_r. by intros []. }
  rewrite HQ0, app_nil_r. clear HQ0 HQ. induction HP as [|n P Hn _ IH]; [done|].
  unfold starts_by in Hn. rewrite fmap_cons, !filter_cons. cbn [related].
  rewrite (proj2 (N.leb_le (getLowerBound (n_val n)) _)), andb_true_r by done.
  destruct (getLowerBound t <=? getUpperBound (n_val n))%N; [|exact IH].
  rewrite !decide_True by done. rewrite fmap_cons. f_equal. exact IH.
Qed.

(** ** A table and the set it stands for *)
Record holds (s : TemporalTable) (L : lists) (I : list node) (A : Pairs) : Prop := {
  ho_inv : TT_inv s L I;
  ho_pairs : forall h t, (h, t) ∈ A <-> t ∈ (n_val <$> L (Some h))
}.

(** A list of pairs of the code, whose times are pointers, and its values. *)
Definition shows (s : TemporalTable) (r : list HandleTemporalPair) (l : list (Handle * Temporal)) : Prop :=
  Forall2 (fun p q => p.1 = q.1 /\ temporals (tt_mem s) !! p.2 = Some q.2) r l.

Section view.
Context (s : TemporalTable) (L : lists) (I : list node) (A : Pairs).
Context (Hho : holds s L I A).

Let Hlo : lists_ok s L := ti_lists _ _ _ (ho_inv _ _ _ _ Hho).
Let Hmo : maps_ok s L ∅ := ti_maps _ _ _ (ho_inv _ _ _ _ Hho).

Lemma pair_wf h t : (h, t) ∈ A -> t_wf t.
Proof. rewrite (ho_pairs _ _ _ _ Hho). intros (n & -> & Hn)%list_elem_of_fmap. by eapply list_wf. Qed.

Lemma times_of_list h : n_val <$> L (Some h) = times_of A h.
Proof.
  apply sorted_unique; [apply Hlo| |].
  - apply in_order_sorted. intros t Ht%elem_of_in_order%elem_of_times_of. by eapply pair_wf.
  - intros t. by rewrite elem_of_times_of, (ho_pairs _ _ _ _ Hho).
Qed.

Lemma all_times_list : n_val <$> L None = all_times A.
Proof.
  apply sorted_unique; [apply Hlo| |].
  - apply in_order_sorted. intros t Ht%elem_of_in_order%elem_of_all_times. destruct Ht as [h Ht].
    by eapply pair_wf.
  - intros t. rewrite elem_of_all_times. split.
    + intros (n & -> & Hn)%list_elem_of_fmap. destruct (mo_find _ _ _ Hmo n Hn) as (hs & _ & Hne & Hhs).
      apply set_choose_L in Hne as [h Hh]. exists h. by apply (ho_pairs _ _ _ _ Hho), Hhs.
    + intros [h (n & -> & Hn)%(ho_pairs _ _ _ _ Hho)%list_elem_of_fmap].
      destruct (mo_time _ _ _ Hmo _ n Hn) as (k & Hk & _ & <-). by apply list_elem_of_fmap_2.
Qed.

Lemma tm_find_ok n : n ∈ L None -> tm_find (n_val n) s = Some (n_time n, handles_of A (n_val n)).
Proof.
  intros Hn. destruct (mo_find _ _ _ Hmo n Hn) as (hs & Eh & _ & Hhs). unfold tm_find. rewrite Eh.
  do 2 f_equal. apply set_eq. intros h. by rewrite Hhs, elem_of_handles_of, (ho_pairs _ _ _ _ Hho).
Qed.

Lemma live_time i n : n ∈ L i -> temporals (tt_mem s) !! n_time n = Some (n_val n).
Proof. intros Hn. destruct (lseg_cell _ _ _ _ n (lo_list _ _ Hlo i) Hn) as (q & _ & Ht). done. Qed.

(** *** get(h, t, criterion) *)
Lemma get_handle_loop_ok h t criterion l : forall fuel fin result,
  lseg (tt_mem s) (first_cell l None) l None -> length l < fuel ->
  get_handle_loop fuel h t criterion (first_cell l None) fin result s =
    (Ok (if not_undefined_previous t criterion then
           match last (hits t criterion l fin) with Some n => [(h, n_time n)] | None => result end
         else result ++ ((fun n => (h, n_time n)) <$> hits t criterion l fin)), s).
Proof.
  induction l as [|n l IH]; intros [|fuel] fin result Hl Hf; simpl in Hf; try lia; cbn [get_handle_loop first_cell hits].
  { rewrite app_nil_r. by destruct (not_undefined_previous _ _). }
  destruct fin; [simpl; rewrite app_nil_r; by destruct (not_undefined_previous _ _)|].
  destruct Hl as (_ & q & Hc & Hl). pose proof (lseg_first _ _ _ _ Hl) as ->.
  step (apply on_mem_read; by apply entry_at_ok). step (by apply entry_matches_ok).
  cbn [next time]. destruct (taken t criterion (n_val n) false) as [[|] fin']; cbn [fst snd];
    rewrite IH by (done || lia); [|done].
  destruct (not_undefined_previous t criterion).
  - rewrite last_cons. by destruct (last (hits t criterion l fin')).
  - by rewrite fmap_cons, <- app_assoc.
Qed.

Lemma shows_nodes h (l : list node) :
  (forall n, n ∈ l -> exists i, n ∈ L i) ->
  shows s ((fun n => (h, n_time n)) <$> l) (pair h <$> (n_val <$> l)).
Proof.
  induction l as [|n l IH]; intros Hl; [constructor|]. rewrite !fmap_cons. constructor.
  - split; [done|]. destruct (Hl n ltac:(left)) as [i Hi]. by apply (live_time i).
  - apply IH. intros k Hk. apply Hl. by right.
Qed.

Lemma TT_get_handle_ok `{SetOrder} h t criterion :
  h <> UNDEFINED -> t_arg t -> exists r,
    TT_get h t criterion s = (Ok r, s) /\ shows s r (pair h <$> found t criterion (times_of A h)).
Proof.
  intros Hh Ht. unfold TT_get. rewrite (proj2 (N.eqb_neq _ _)) by done. step (done). step (done).
  pose proof (lo_list _ _ Hlo (Some h)) as Hl. pose proof (lo_nodup _ _ Hlo (Some h)) as Hd.
  cbn [root] in Hl. pose proof (lseg_length _ _ _ _ Hd Hl) as Hlen.
  pose proof (lseg_first _ _ _ _ Hl) as Hfirst. rewrite Hfirst in *.
  exists ((fun n => (h, n_time n)) <$> chosen t criterion (L (Some h))). split.
  - rewrite get_handle_loop_ok by (done || (unfold chain_fuel; lia)). unfold chosen.
    destruct (not_undefined_previous t criterion); [|done].
    by destruct (last (hits t criterion (L (Some h)) false)).
  - rewrite <- times_of_list, <- chosen_vals by (done || apply Hlo).
    apply shows_nodes. intros n Hn%chosen_in. by exists (Some h).
Qed.

(** *** The end of a search for overlaps *)
Lemma upper_limit_ok t l : forall fuel,
  lseg (tt_mem s) (first_cell l None) l None -> sorted l -> length l < fuel ->
  exists P Q, l = P ++ Q /\ Forall (starts_by t) P /\ Forall (fun n => ~ starts_by t n) Q /\
    upper_limit fuel (first_cell l None) t s = (Ok (first_cell Q None), s).
Proof.
  induction l as [|n l IH]; intros [|fuel] Hl Hs Hf; simpl in Hf; try lia; cbn [upper_limit first_cell].
  { by exists [], []. }
  destruct Hl as (_ & q & Hc & Hl). pose proof (lseg_first _ _ _ _ Hl) as ->.
  apply sorted_cons in Hs as [Hs Hall].
  step (apply on_mem_read; by apply entry_at_ok). step (apply on_mem_read, temporal_at_ok, Hc). cbn [next].
  destruct (N.ltb_spec (getUpperBound t) (getLowerBound (n_val n))) as [Hlt|Hle].
  - exists [], (n :: l). split_and!; try done. unfold starts_by. constructor; [lia|].
    apply (Forall_impl _ _ _ Hall). intros k Hk%before_lower. lia.
  - destruct (IH fuel Hl Hs ltac:(lia)) as (P & Q & -> & HP & HQ & E).
    exists (n :: P), Q. split_and!; try done. by constructor.
Qed.

(** From the entry that the index gives nothing is skipped. *)
Lemma overlaps_limit_ok t :
  L None <> [] -> t_wf t -> exists P Q, L None = P ++ Q /\
    Forall (starts_by t) P /\ Forall (fun n => ~ starts_by t n) Q /\
    overlaps_limit t s = (Ok (first_cell Q None), s).
Proof.
  intros Hne Ht. pose proof (ti_idx _ _ _ (ho_inv _ _ _ _ Hho)) as Hix.
  pose proof (lo_list _ _ Hlo None) as Hl. cbn [root] in Hl. pose proof (lseg_first _ _ _ _ Hl) as Hfirst.
  pose proof (lseg_length _ _ _ _ (lo_nodup _ _ Hlo None) Hl) as Hlen.
  unfold overlaps_limit. rewrite Hfirst in Hl.
  destruct (getPreviousTemporalEntry_ok s I t (ix_points _ _ _ Hix)) as [E|(n & Hn & E & Hnt)];
    [|apply (ix_order _ _ _ Hix)| |done|by apply (idx_nonempty s (L None))| |].
  - apply Forall_forall. intros n Hn%(ix_in _ _ _ Hix). by apply (lseg_cell _ _ _ _ n Hl).
  - apply Forall_forall. intros n Hn%(ix_in _ _ _ Hix). by eapply list_wf.
  - step (exact E). step (done). step (done). rewrite Hfirst.
    destruct (upper_limit_ok t (L None) (chain_fuel (tt_mem s))) as (P & Q & HPQ & HP & HQ & E');
      [done|apply Hlo|unfold chain_fuel; lia|]. by exists P, Q.
  - step (exact E). step (done). step (done).
    pose proof (ix_in _ _ _ Hix n Hn) as (S0 & S1 & HS)%list_elem_of_split.
    pose proof (lo_sorted _ _ Hlo None) as Hs. rewrite HS in Hl, Hs, Hlen. rewrite length_app in Hlen.
    apply sorted_app in Hs as (H01 & _ & Hs1). apply lseg_app in Hl as (r & _ & Hl1).
    pose proof (lseg_first _ _ _ _ Hl1) as ->.
    destruct (upper_limit_ok t (n :: S1) (chain_fuel (tt_mem s))) as (P & Q & HPQ & HP & HQ & E');
      [done|done|unfold chain_fuel; lia|].
    exists (S0 ++ P), Q. split_and!; [by rewrite HS, HPQ, app_assoc| |done|exact E'].
    apply Forall_app. split; [|done]. apply Forall_forall. intros k Hk. unfold starts_by.
    pose proof (before_lower _ _ (H01 k n Hk ltac:(left))). pose proof (t_wf_le t Ht).
    destruct Hnt as [Hnt%before_lower| <-]; lia.
Qed.

(** *** get(t, criterion) *)
Section order.
Context `{SetOrder}.

Definition node_pairs (n : node) : list HandleTemporalPair :=
  (fun h => (h, n_time n)) <$> set_order (handles_of A (n_val n)).

Lemma pairs_of_ok n : n ∈ L None -> pairs_of (n_time n) (n_val n) s = (Ok (node_pairs n), s).
Proof. intros Hn. unfold pairs_of. step (unfold reads; by rewrite (tm_find_ok n Hn)). done. Qed.

Lemma shows_pairs l :
  (forall n, n ∈ l -> n ∈ L None) -> shows s (l ≫= node_pairs) ((n_val <$> l) ≫= pairs_at A).
Proof.
  induction l as [|n l IH]; intros Hl; [constructor|].
  rewrite fmap_cons, !bind_cons. apply Forall2_app; [|apply IH; intros k Hk; apply Hl; by right].
  unfold node_pairs, pairs_at. induction (set_order (handles_of A (n_val n))) as [|h hs IHh]; [constructor|].
  rewrite !fmap_cons. constructor; [|done]. split; [done|]. apply (live_time None), Hl. left.
Qed.

Lemma get_all_loop_ok l : forall fuel result,
  lseg (tt_mem s) (first_cell l None) l None -> (forall n, n ∈ l -> n ∈ L None) -> length l < fuel ->
  get_all_loop fuel (first_cell l None) result s = (Ok (result ++ (l ≫= node_pairs)), s).
Proof.
  induction l as [|n l IH]; intros [|fuel] result Hl Hin Hf; simpl in Hf; try lia; cbn [get_all_loop first_cell].
  { by rewrite app_nil_r. }
  destruct Hl as (_ & q & Hc & Hl). pose proof (lseg_first _ _ _ _ Hl) as ->.
  step (apply on_mem_read; by apply entry_at_ok). step (apply on_mem_read, temporal_at_ok, Hc).
  cbn [time next]. step (apply pairs_of_ok, Hin; left).
  rewrite IH by (done || lia || (intros k Hk; apply Hin; by right)). by rewrite bind_cons, <- app_assoc.
Qed.

Lemma get_criterion_loop_ok t criterion l : forall fuel fin previousTime result,
  lseg (tt_mem s) (first_cell l None) l None -> (forall n, n ∈ l -> n ∈ L None) -> length l < fuel ->
  get_criterion_loop fuel (first_cell l None) t criterion fin previousTime result s =
    (Ok (if not_undefined_previous t criterion then
           (match last (hits t criterion l fin) with Some n => Some (n_time n) | None => previousTime end, result)
         else (previousTime, result ++ (hits t criterion l fin ≫= node_pairs))), s).
Proof.
  induction l as [|n l IH]; intros [|fuel] fin previousTime result Hl Hin Hf; simpl in Hf; try lia;
    cbn [get_criterion_loop first_cell hits].
  { rewrite app_nil_r. by destruct (not_undefined_previous _ _). }
  destruct fin; [simpl; rewrite app_nil_r; by destruct (not_undefined_previous _ _)|].
  destruct Hl as (_ & q & Hc & Hl). pose proof (lseg_first _ _ _ _ Hl) as ->.
  assert (Hin' : forall k, k ∈ l -> k ∈ L None) by (intros k Hk; apply Hin; by right).
  step (apply on_mem_read; by apply entry_at_ok). step (apply on_mem_read, temporal_at_ok, Hc).
  cbn [time next]. fold (taken t criterion (n_val n) false).
  destruct (taken t criterion (n_val n) false) as [[|] fin']; cbn [fst snd]; [|by rewrite IH by (done || lia)].
  destruct (not_undefined_previous t criterion) eqn:Hp.
  - rewrite IH by (done || lia). rewrite last_cons. by destruct (last (hits t criterion l fin')).
  - step (apply pairs_of_ok, Hin; left). rewrite IH by (done || lia). by rewrite bind_cons, <- app_assoc.
Qed.

(** The exact time is searched in the list of a handle that has it. *)
Lemma find_time_ok t l n : forall fuel,
  lseg (tt_mem s) (first_cell l None) l None -> all_wf l -> t_wf t -> n ∈ l -> n_val n = t ->
  length l < fuel ->
  exists k, k ∈ l /\ n_val k = t /\ find_time fuel (first_cell l None) t s = (Ok (Some (n_time k)), s).
Proof.
  induction l as [|x l IH]; intros [|fuel] Hl Hw Ht Hn Hnt Hf; simpl in Hf; try lia;
    [by apply not_elem_of_nil in Hn|]. cbn [find_time first_cell].
  destruct Hl as (_ & q & Hc & Hl). pose proof (lseg_first _ _ _ _ Hl) as ->.
  apply Forall_cons in Hw as [Hwx Hw].
  step (apply on_mem_read; by apply entry_at_ok). step (apply on_mem_read, temporal_at_ok, Hc).
  cbn [TE.compare time next]. destruct (Z.eqb_spec (compareTo t (n_val x)) 0) as [Hz|Hz].
  - apply compareTo_zero in Hz; [|done|done]. exists x. split; [left|done].
  - apply elem_of_cons in Hn as [->|Hn].
    + destruct Hz. by apply compareTo_zero.
    + destruct (IH fuel) as (k & Hk & Hkt & E); try done; [lia|]. exists k. split; [by right|done].
Qed.

Lemma get_exact_loop_ok n hs : forall time result,
  n ∈ L None -> (forall h, h ∈ hs -> h ∈ handles_of A (n_val n)) ->
  (time = None \/ time = Some (n_time n)) ->
  get_exact_loop hs (n_val n) time result s =
    (Ok (reverse ((fun h => (h, n_time n)) <$> hs) ++ result), s).
Proof.
  induction hs as [|h hs IH]; intros time result Hn Hhs Htime; [done|]. cbn [get_exact_loop].
  assert (Hfind : (fuel ← asks (fun s => chain_fuel (tt_mem s));
                   find_time fuel (HandleMap.get h (handleMap s)) (n_val n)) s = (Ok (Some (n_time n)), s)).
  { step (done). pose proof (proj1 (elem_of_handles_of _ _ _) (Hhs h ltac:(left))) as Hp.
    apply (ho_pairs _ _ _ _ Hho), list_elem_of_fmap in Hp as (x & Hx & HxL).
    pose proof (lo_list _ _ Hlo (Some h)) as Hl. cbn [root] in Hl.
    pose proof (lseg_length _ _ _ _ (lo_nodup _ _ Hlo (Some h)) Hl) as Hlen.
    pose proof (lseg_first _ _ _ _ Hl) as Hfirst. rewrite Hfirst in *.
    destruct (find_time_ok (n_val n) (L (Some h)) x (chain_fuel (tt_mem s))) as (k & Hk & Hkt & E);
      [done|apply Hlo|by eapply list_wf|done|done|unfold chain_fuel; lia|].
    rewrite E. do 3 f_equal. destruct (mo_time _ _ _ Hmo _ k Hk) as (k' & Hk' & <- & Hkv).
    f_equal. apply (val_unique (L None) (lo_sorted _ _ Hlo None)); congruence. }
  step (instantiate (1 := s); instantiate (1 := Some (n_time n));
        destruct Htime as [->| ->]; [exact Hfind|done]).
  cbv iota beta. rewrite (IH (Some (n_time n))); [|done|intros h' Hh'; apply Hhs; by right|by right].
  by rewrite fmap_cons, reverse_cons, <- app_assoc.
Qed.

Lemma get_overlaps_loop_ok t P Q : forall fuel result,
  lseg (tt_mem s) (first_cell (P ++ Q) None) (P ++ Q) None -> NoDup (n_cell <$> P ++ Q) ->
  (forall n, n ∈ P -> n ∈ L None) -> length P < fuel ->
  get_overlaps_loop fuel (first_cell (P ++ Q) None) (first_cell Q None) t result s =
    (Ok (result ++ (filter (fun n => (getLowerBound t <=? getUpperBound (n_val n))%N) P ≫= node_pairs)), s).
Proof.
  induction P as [|n P IH]; intros [|fuel] result Hl Hd Hin Hf; simpl in Hf; try lia; cbn [app get_overlaps_loop].
  { rewrite bool_decide_true by done. by rewrite app_nil_r. }
  cbn [app first_cell] in *. rewrite fmap_cons, NoDup_cons in Hd. destruct Hd as [Hn Hd].
  rewrite bool_decide_false.
  2: { destruct Q as [|x Q]; [done|]. intros [= Heq]. apply Hn. rewrite Heq.
       apply list_elem_of_fmap_2. set_solver. }
  destruct Hl as (_ & q & Hc & Hl). pose proof (lseg_first _ _ _ _ Hl) as ->.
  step (done). step (apply on_mem_read; by apply entry_at_ok). step (apply on_mem_read, temporal_at_ok, Hc).
  cbn [time next]. rewrite filter_cons.
  destruct (getLowerBound t <=? getUpperBound (n_val n))%N; cbn [Is_true decide].
  - step (apply pairs_of_ok, Hin; left).
    rewrite IH by (done || lia || (intros k Hk; apply Hin; by right)). by rewrite <- app_assoc.
  - step (done). rewrite app_nil_r. apply IH; [done|done| |lia]. intros k Hk; apply Hin; by right.
Qed.

Lemma shows_reverse r l : shows s r l -> shows s (reverse r) (reverse l).
Proof. apply Forall2_reverse. Qed.

Lemma TT_get_exact_ok t :
  t_wf t -> exists r, TT_get_time t EXACT s = (Ok r, s) /\
    shows s r (reverse (found t EXACT (all_times A) ≫= pairs_at A)).
Proof.
  intros Ht. unfold TT_get_time. step (done). step (done). rewrite t_wf_defined by done. step (done).
  unfold found, wanted. rewrite t_wf_defined by done. cbn [is_next is_previous].
  pose proof (sorted_vals_nodup _ (lo_sorted _ _ Hlo None)) as Hd. rewrite all_times_list in Hd.
  destruct (decide (t ∈ all_times A)) as [Hin|Hno].
  - rewrite wanted_exact by done. rewrite <- all_times_list in Hin.
    apply list_elem_of_fmap in Hin as (n & -> & Hn). rewrite (tm_find_ok n Hn). cbn [snd].
    rewrite (get_exact_loop_ok n (set_order (handles_of A (n_val n))));
      [|done|intros h Hh; by apply elem_of_set_order|by left].
    eexists. split; [done|]. rewrite app_nil_r. apply shows_reverse.
    fold (node_pairs n). rewrite <- (app_nil_r (node_pairs n)).
    apply (shows_pairs [n]). by intros k ->%list_elem_of_singleton.
  - assert (Hnone : tm_find t s = None).
    { unfold tm_find. destruct (temporalMap s !! t_key t) as [e|] eqn:E; [|done]. exfalso. apply Hno.
      destruct (mo_dom _ _ _ Hmo _ (mk_is_Some _ _ E)) as (n & Hn & Hkey).
      apply t_key_inj in Hkey as <-; [|by eapply list_wf|done]. rewrite <- all_times_list.
      by apply list_elem_of_fmap_2. }
    rewrite Hnone. exists []. split; [done|].
    replace (filter (fun T => related EXACT t T) (all_times A)) with (@nil Temporal); [constructor|].
    clear Hd. induction (all_times A) as [|x l IH]; [done|]. rewrite filter_cons_False; [set_solver|].
    cbn [related]. rewrite bool_decide_false; [by intros []|]. intros ->. apply Hno. left.
Qed.

Lemma TT_get_overlaps_ok t :
  t_wf t -> exists r, TT_get_time t OVERLAPS s = (Ok r, s) /\
    shows s r (found t OVERLAPS (all_times A) ≫= pairs_at A).
Proof.
  intros Ht. unfold TT_get_time. step (done). step (done). rewrite t_wf_defined by done.
  pose proof (lo_list _ _ Hlo None) as Hl. pose proof (lo_nodup _ _ Hlo None) as Hd. cbn [root] in Hl.
  pose proof (lseg_length _ _ _ _ Hd Hl) as Hlen. pose proof (lseg_first _ _ _ _ Hl) as Hfirst.
  destruct (decide (L None = [])) as [HL|HL].
  - rewrite Hfirst, HL. cbn [first_cell]. exists []. split; [done|].
    rewrite <- all_times_list, HL. unfold found. rewrite t_wf_defined by done. constructor.
  - destruct (overlaps_limit_ok t HL Ht) as (P & Q & HPQ & HP & HQ & E).
    rewrite Hfirst in Hl |- *. rewrite HPQ in *. destruct (first_cell (P ++ Q) None) as [c|] eqn:Ec; [|by destruct P, Q].
    step (exact E). rewrite <- Ec in *. rewrite length_app in Hlen.
    rewrite get_overlaps_loop_ok; [|done|done|rewrite HPQ; set_solver|unfold chain_fuel; lia].
    eexists. split; [done|]. cbn [app]. rewrite <- all_times_list, HPQ, overlaps_found by done.
    apply shows_pairs. intros n [_ Hn]%list_elem_of_filter. rewrite HPQ. set_solver.
Qed.

Lemma TT_get_other_ok t criterion :
  t_arg t -> criterion <> EXACT \/ t = UNDEFINED_TEMPORAL -> criterion <> OVERLAPS \/ t = UNDEFINED_TEMPORAL ->
  exists r, TT_get_time t criterion s = (Ok r, s) /\
    shows s r (found t criterion (all_times A) ≫= pairs_at A).
Proof.
  intros Ht He Ho. unfold TT_get_time. step (done). step (done).
  pose proof (lo_list _ _ Hlo None) as Hl. pose proof (lo_nodup _ _ Hlo None) as Hd. cbn [root] in Hl.
  pose proof (lseg_length _ _ _ _ Hd Hl) as Hlen. pose proof (lseg_first _ _ _ _ Hl) as Hfirst.
  rewrite Hfirst in *. rewrite <- all_times_list, <- chosen_vals by (done || apply Hlo).
  assert (Hshow : shows s (chosen t criterion (L None) ≫= node_pairs)
                    ((n_val <$> chosen t criterion (L None)) ≫= pairs_at A)).
  { apply shows_pairs. apply chosen_in. }
  exists (chosen t criterion (L None) ≫= node_pairs). split; [|done].
  destruct (T_eq t UNDEFINED_TEMPORAL) eqn:Hu.
  - apply T_eq_true in Hu as ->. rewrite get_all_loop_ok by (done || (unfold chain_fuel; lia)).
    unfold chosen. rewrite hits_undefined. done.
  - assert (Hne : t <> UNDEFINED_TEMPORAL) by (intros ->; done).
    destruct He as [He|]; [|done]. destruct Ho as [Ho|]; [|done].
    assert (Hc : forall b, match criterion with EXACT => b | OVERLAPS => b | _ => true end = true)
      by (intros b; by destruct criterion).
    transitivity ((r ← get_criterion_loop (chain_fuel (tt_mem s)) (first_cell (L None) None) t criterion false None [];
        match r.1 with
        | None => mret r.2
        | Some p => x ← on_mem (temporal_at p); l ← pairs_of p x; mret (r.2 ++ l)
        end) s); [by destruct criterion|].
    step (apply get_criterion_loop_ok; [done|done|unfold chain_fuel; lia]). unfold chosen.
    destruct (not_undefined_previous t criterion); [|done].
    destruct (last (hits t criterion (L None) false)) as [n|] eqn:En; [|done]. cbn [fst snd].
    assert (Hn : n ∈ L None) by (by apply (hits_in t criterion _ false), last_Some_elem_of).
    step (apply on_mem_read, temporal_at_ok; by apply (live_time None)). step (by apply pairs_of_ok).
    change (option_list (Some n)) with [n]. by rewrite bind_cons, app_nil_r.
Qed.

Lemma TT_get_ok h t criterion S :
  t_arg t -> pairs S = A -> exists r,
    TT_get h t criterion s = (Ok r, s) /\ shows s r (spec_get h t criterion S).
Proof.
  intros Ht HS. unfold spec_get. rewrite HS. destruct (N.eqb_spec h UNDEFINED) as [->|Hh]; [|by apply TT_get_handle_ok].
  unfold TT_get. rewrite N.eqb_refl. destruct Ht as [Ht| ->].
  - destruct criterion; try (apply TT_get_other_ok; [by left|by left|by left]).
    + rewrite t_wf_defined by done. by apply TT_get_exact_ok.
    + by apply TT_get_overlaps_ok.
  - destruct criterion; apply TT_get_other_ok; by (by right).
Qed.
End order.
End view.
