(* ===== verification/TimeRemoveAll.v ===== *)
(** Removing times for all handles: [remove(t, criterion)] of src/opencog/
    atomspace/TemporalTable.cc takes out the times it finds one after the
    other, in their order. *)
From S2P Require Import Prelude Temporal TemporalEntry TimeSpec TemporalTable TimeIndex TimeInv TimeAdd TimeRemove TimeGet.

(** ** What is left of a list *)
Definition without_all (V : list Temporal) (l : list node) : list node := filter (fun n => n_val n ∉ V) l.

Lemma without_all_nil l : without_all [] l = l.
Proof. apply filter_keep, Forall_forall. intros n _. apply not_elem_of_nil. Qed.

Lemma without_all_cons v V l : without_all (v :: V) l = without_all V (without v l).
Proof.
  unfold without_all, without. rewrite list_filter_filter. apply list_filter_iff. intros n.
  rewrite not_elem_of_cons. tauto.
Qed.

Lemma without_all_vals V l u : u ∈ (n_val <$> without_all V l) <-> u ∈ (n_val <$> l) /\ u ∉ V.
Proof.
  rewrite !list_elem_of_fmap. split.
  - intros (n & -> & [Hv Hn]%list_elem_of_filter). split; [by exists n|done].
  - intros [(n & -> & Hn) Hv]. exists n. split; [done|]. by apply list_elem_of_filter.
Qed.

Lemma left_by_hits t criterion l : forall fin, NoDup l ->
  left_by t criterion l fin = filter (fun n => n ∉ hits t criterion l fin) l.
Proof.
  induction l as [|n l IH]; intros fin Hd; [done|]. apply NoDup_cons in Hd as [Hn Hd].
  cbn [left_by hits]. destruct fin.
  { rewrite filter_keep; [done|]. apply Forall_forall. intros k _. apply not_elem_of_nil. }
  destruct (taken t criterion (n_val n) false) as [[|] fin']; cbn [fst snd].
  - rewrite filter_cons_False by (intros H; apply H; left). rewrite IH by done.
    apply filter_iff_in. intros k Hk. rewrite not_elem_of_cons. split; [|tauto].
    intros Hh. split; [by intros ->|done].
  - rewrite filter_cons_True by (intros H%hits_in; done). by rewrite IH.
Qed.

Lemma last_taken_hits t criterion l : forall fin,
  last_taken t criterion l fin = last (hits t criterion l fin).
Proof.
  induction l as [|n l IH]; intros fin; [done|]. cbn [last_taken hits]. destruct fin; [done|].
  destruct (taken t criterion (n_val n) false) as [[|] fin']; cbn [fst snd]; rewrite IH; [|done].
  rewrite last_cons. by destruct (last (hits t criterion l fin')).
Qed.

Lemma left_times_chosen t criterion l : NoDup l ->
  left_times t criterion l = filter (fun n => n ∉ chosen t criterion l) l.
Proof.
  intros Hd. unfold left_times, chosen. destruct (not_undefined_previous t criterion); [|by apply left_by_hits].
  rewrite last_taken_hits. destruct (last (hits t criterion l false)) as [n|].
  - change (option_list (Some n)) with [n].
    apply list_filter_iff. intros k. by rewrite list_elem_of_singleton.
  - symmetry. apply filter_keep, Forall_forall. intros k _. apply not_elem_of_nil.
Qed.

(** ** Removing several times one after the other *)

(** The last time of the list stays, or all times go. *)
Definition safe_times (V : list Temporal) (l : list node) : Prop :=
  (exists n, last l = Some n /\ n_val n ∉ V) \/ Forall (fun n => n_val n ∈ V) l.

Lemma safe_times_exact v V l :
  sorted l -> Forall (before v) V -> safe_times (v :: V) l -> safe_exact v l.
Proof.
  intros Hs HV [(n & Hn & Hv)|Hall] Hin.
  - right. intros m Hm. rewrite Hn in Hm. injection Hm as <-. set_solver.
  - destruct l as [|x l] using rev_ind; [by apply not_elem_of_nil in Hin|]. clear IHl.
    destruct (decide (n_val x = v)) as [Hx|Hx].
    + left. destruct l as [|y l]; [done|]. exfalso.
      rewrite Forall_forall in HV. rewrite Forall_forall in Hall. apply sorted_app in Hs as (Hyx & _).
      pose proof (Hyx y x ltac:(left) ltac:(left)) as Hb. rewrite Hx in Hb.
      destruct (proj1 (elem_of_cons _ _ _) (Hall y ltac:(left))) as [Hy|Hy].
      * rewrite Hy in Hb. by apply before_irrefl in Hb.
      * by destruct (before_irrefl _ (before_trans _ _ _ Hb (HV _ Hy))).
    + right. intros m Hm. rewrite last_snoc in Hm. by injection Hm as <-.
Qed.

Lemma safe_times_next v V l :
  NoDup l -> safe_times (v :: V) l -> safe_times V (without v l).
Proof.
  intros Hd [(n & Hn & Hv)|Hall].
  - left. exists n. rewrite not_elem_of_cons in Hv. destruct Hv as [Hne HV]. split; [|done].
    apply (last_stays l); [apply sublist_filter|done|done|].
    apply list_elem_of_filter. split; [done|by apply last_Some_elem_of].
  - right. apply Forall_forall. intros n [Hne Hn]%list_elem_of_filter.
    rewrite Forall_forall in Hall. specialize (Hall n Hn). set_solver.
Qed.

Lemma sorted_sublist (l' l : list node) : sublist l' l -> sorted l -> sorted l'.
Proof.
  induction 1 as [|n l' l Hsub IH|n l' l Hsub IH]; [done|..]; intros [Hs Hf]%sorted_cons; [|by apply IH].
  apply sorted_cons. split; [by apply IH|]. rewrite Forall_forall in Hf |- *.
  intros k Hk. apply Hf. by eapply sublist_subseteq.
Qed.

(** The times [V] are to be removed. *)
Record removable (s : TemporalTable) (L : lists) (I : list node) (V : list Temporal) : Prop := {
  rv_inv : TT_inv s L I;
  rv_tail : forall h, tail_ok s L h;
  rv_safe : forall h, safe_times V (L (Some h))
}.

Lemma nodup_list s L I i : TT_inv s L I -> NoDup (L i).
Proof. intros Hinv. eapply NoDup_fmap_1, (lo_nodup _ _ (ti_lists _ _ _ Hinv)). Qed.

Section removal.
Context `{SetOrder}.

Lemma removable_step s L I v V :
  removable s L I (v :: V) -> StronglySorted before (v :: V) -> v ∈ (n_val <$> L None) ->
  exists s' L' I', remove_exact v s = (Ok true, s') /\ removable s' L' I' V /\
    forall i, L' i = without v (L i).
Proof.
  intros [Hinv Htail Hsafe] [HsV HV]%StronglySorted_inv Hv.
  destruct (remove_exact_ok s L I v Hinv Hv) as (s' & L' & I' & E & Hinv' & HL' & Htail').
  exists s', L', I'. split; [done|]. split; [split; [done| |]|done].
  - intros h. apply Htail'; [done|]. apply (safe_times_exact v V); [apply (ti_lists _ _ _ Hinv)|done|done].
  - intros h. rewrite HL'. apply safe_times_next; [by eapply nodup_list|done].
Qed.

(** The recursive call. *)
Definition rec (v : Temporal) : ST TemporalTable bool := TT_remove_time 1 v EXACT.

Lemma rec_ok v s : t_wf v -> rec v s = remove_exact v s.
Proof. intros Hv. unfold rec. cbn [TT_remove_time]. step (done). step (done). by rewrite t_wf_defined. Qed.

Definition all_without (V : list Temporal) (L L' : lists) : Prop := forall i, L' i = without_all V (L i).

Lemma all_without_step v V L L1 L2 :
  (forall i, L1 i = without v (L i)) -> all_without V L1 L2 -> all_without (v :: V) L L2.
Proof. intros H1 H2 i. by rewrite H2, H1, without_all_cons. Qed.

Lemma all_without_nil L : all_without [] L L.
Proof. intros i. by rewrite without_all_nil. Qed.

(** A time of the sorted list is removed while the list is traversed. *)
Lemma removal_step s L I K n l V :
  removable s L I (n_val n :: V) -> StronglySorted before (n_val n :: V) -> L None = K ++ n :: l ->
  exists s' L' I', rec (n_val n) s = (Ok true, s') /\ removable s' L' I' V /\
    L' None = K ++ l /\ (forall i, L' i = without (n_val n) (L i)).
Proof.
  intros Hrv HV HL. pose proof (ti_lists _ _ _ (rv_inv _ _ _ _ Hrv)) as Hlo.
  destruct (removable_step s L I (n_val n) V Hrv HV) as (s' & L' & I' & E & Hrv' & HL').
  { rewrite HL. apply list_elem_of_fmap_2. set_solver. }
  exists s', L', I'. split; [|split; [done|split; [|done]]].
  - rewrite rec_ok; [done|]. eapply (list_wf s L None n Hlo). rewrite HL. set_solver.
  - rewrite HL', HL. apply without_split; [|done]. rewrite <- HL. apply Hlo.
Qed.

(** The suffix of the sorted list that a loop still has to visit. *)
Lemma suffix_cell s L I V K n l :
  removable s L I V -> L None = K ++ n :: l ->
  is_cell (tt_mem s) n (first_cell l None).
Proof.
  intros Hrv HL. pose proof (lo_list _ _ (ti_lists _ _ _ (rv_inv _ _ _ _ Hrv)) None) as Hl.
  rewrite HL in Hl. apply lseg_app in Hl as (r & _ & _ & q & Hc & Hl). by apply lseg_first in Hl as ->.
Qed.

Lemma remove_all_loop_ok l : forall fuel s L I K,
  removable s L I (n_val <$> l) -> L None = K ++ l -> sorted l -> length l < fuel ->
  exists s' L' I', remove_all_loop rec fuel (first_cell l None) s = (Ok tt, s') /\
    removable s' L' I' [] /\ all_without (n_val <$> l) L L'.
Proof.
  induction l as [|n l IH]; intros [|fuel] s L I K Hrv HL Hs Hf; simpl in Hf; try lia;
    cbn [remove_all_loop first_cell].
  { exists s, L, I. split; [done|]. split; [done|apply all_without_nil]. }
  pose proof (suffix_cell _ _ _ _ _ _ _ Hrv HL) as Hc.
  step (apply on_mem_read; by apply entry_at_ok). step (apply on_mem_read, temporal_at_ok, Hc).
  destruct (removal_step s L I K n l _ Hrv Hs HL) as (s1 & L1 & I1 & E1 & Hrv1 & HL1 & Hw1).
  step (exact E1). cbn [next]. apply sorted_cons in Hs as [Hs _].
  destruct (IH fuel s1 L1 I1 K Hrv1 HL1 Hs ltac:(lia)) as (s2 & L2 & I2 & E2 & Hrv2 & Hw2).
  exists s2, L2, I2. split; [exact E2|]. split; [done|]. rewrite fmap_cons.
  by apply (all_without_step _ _ _ L1).
Qed.

Lemma remove_overlaps_loop_ok t Q P : forall fuel s L I K res,
  let V := n_val <$> filter (fun n => (getLowerBound t <=? getUpperBound (n_val n))%N) P in
  removable s L I V -> L None = K ++ P ++ Q -> length P < fuel ->
  exists s' L' I',
    remove_overlaps_loop rec fuel (first_cell (P ++ Q) None) (first_cell Q None) t res s =
      (Ok (res || negb (bool_decide (V = []))), s') /\
    removable s' L' I' [] /\ all_without V L L'.
Proof.
  induction P as [|n P IH]; intros [|fuel] s L I K res V Hrv HL Hf; simpl in Hf; try lia;
    cbn [app remove_overlaps_loop].
  { exists s, L, I. rewrite bool_decide_true by done. unfold V. rewrite bool_decide_true, orb_false_r by done.
    split; [done|]. split; [done|apply all_without_nil]. }
  pose proof (ti_lists _ _ _ (rv_inv _ _ _ _ Hrv)) as Hlo.
  pose proof (lo_nodup _ _ Hlo None) as Hd. pose proof (lo_sorted _ _ Hlo None) as Hs. rewrite HL in Hd, Hs.
  cbn [first_cell]. rewrite bool_decide_false.
  2: { destruct Q as [|x Q]; [done|]. intros [= Heq]. apply nodup_remove in Hd as [_ Hn]. apply Hn.
       rewrite Heq. apply list_elem_of_fmap_2. set_solver. }
  pose proof (suffix_cell _ _ _ _ K n (P ++ Q) Hrv HL) as Hc.
  step (done). step (apply on_mem_read; by apply entry_at_ok). step (apply on_mem_read, temporal_at_ok, Hc).
  cbn [next]. unfold V in *. rewrite filter_cons in *.
  destruct (getLowerBound t <=? getUpperBound (n_val n))%N eqn:Eb; cbn [Is_true] in *.
  - rewrite decide_True in Hrv |- * by done. rewrite fmap_cons in Hrv |- *.
    destruct (removal_step s L I K n (P ++ Q) _ Hrv) as (s1 & L1 & I1 & E1 & Hrv1 & HL1 & Hw1);
      [|done|].
    { apply (sorted_sublist (n :: filter _ P) (K ++ n :: P ++ Q)); [|done].
      apply sublist_inserts_l, sublist_skip, sublist_inserts_r, sublist_filter. }
    step (exact E1).
    destruct (IH fuel s1 L1 I1 K true Hrv1 HL1 ltac:(lia)) as (s2 & L2 & I2 & E2 & Hrv2 & Hw2).
    exists s2, L2, I2. rewrite E2, orb_true_r. split; [done|]. split; [done|].
    by apply (all_without_step _ _ _ L1).
  - rewrite decide_False in Hrv |- * by (by intros []).
    apply (IH fuel s L I (K ++ [n]) res Hrv); [by rewrite <- app_assoc|lia].
Qed.

Lemma hits_sublist t criterion l fin : sublist (hits t criterion l fin) l.
Proof.
  revert fin. induction l as [|n l IH]; intros fin; [done|]. cbn [hits]. destruct fin; [apply sublist_nil_l|].
  destruct (taken t criterion (n_val n) false) as [[|] fin']; cbn [fst snd];
    [by apply sublist_skip|by apply sublist_cons].
Qed.

Lemma remove_criterion_loop_ok t criterion l : forall fuel s L I K fin prev res,
  T_eq t UNDEFINED_TEMPORAL = false -> is_previous criterion = false ->
  let V := n_val <$> hits t criterion l fin in
  removable s L I V -> L None = K ++ l -> length l < fuel ->
  exists s' L' I',
    remove_criterion_loop rec fuel (first_cell l None) t criterion fin prev res s =
      (Ok (prev, res || negb (bool_decide (V = []))), s') /\
    removable s' L' I' [] /\ all_without V L L'.
Proof.
  induction l as [|n l IH]; intros [|fuel] s L I K fin prev res Ht Hp V Hrv HL Hf; simpl in Hf; try lia;
    cbn [remove_criterion_loop first_cell]; unfold V in *; cbn [hits] in *.
  { exists s, L, I. rewrite bool_decide_true, orb_false_r by done.
    split; [done|]. split; [done|apply all_without_nil]. }
  destruct fin.
  { exists s, L, I. rewrite bool_decide_true, orb_false_r by done.
    split; [done|]. split; [done|apply all_without_nil]. }
  pose proof (lo_sorted _ _ (ti_lists _ _ _ (rv_inv _ _ _ _ Hrv)) None) as Hs. rewrite HL in Hs.
  pose proof (suffix_cell _ _ _ _ _ _ _ Hrv HL) as Hc.
  step (apply on_mem_read; by apply entry_at_ok). step (apply on_mem_read, temporal_at_ok, Hc).
  cbn [next]. assert (Htk : taken t criterion (n_val n) false = matchesTimeCriterion (n_val n) t criterion false)
    by (unfold taken; by rewrite Ht). rewrite <- Htk.
  destruct (taken t criterion (n_val n) false) as [[|] fin']; cbn [fst snd] in *.
  - rewrite Hp. rewrite fmap_cons in Hrv |- *.
    destruct (removal_step s L I K n l _ Hrv) as (s1 & L1 & I1 & E1 & Hrv1 & HL1 & Hw1); [|done|].
    { apply (sorted_sublist (n :: hits t criterion l fin') (K ++ n :: l)); [|done].
      apply sublist_inserts_l, sublist_skip, hits_sublist. }
    step (exact E1).
    destruct (IH fuel s1 L1 I1 K fin' prev true Ht Hp Hrv1 HL1 ltac:(lia)) as (s2 & L2 & I2 & E2 & Hrv2 & Hw2).
    exists s2, L2, I2. rewrite E2, orb_true_r. split; [done|]. split; [done|].
    by apply (all_without_step _ _ _ L1).
  - apply (IH fuel s L I (K ++ [n]) fin' prev res Ht Hp Hrv); [by rewrite <- app_assoc|lia].
Qed.

Lemma remove_criterion_loop_previous t criterion s l : forall fuel fin prev res,
  T_eq t UNDEFINED_TEMPORAL = false -> is_previous criterion = true ->
  lseg (tt_mem s) (first_cell l None) l None -> length l < fuel ->
  remove_criterion_loop rec fuel (first_cell l None) t criterion fin prev res s =
    (Ok (match last (hits t criterion l fin) with Some n => (Some (n_time n), true) | None => (prev, res) end), s).
Proof.
  induction l as [|n l IH]; intros [|fuel] fin prev res Ht Hp Hl Hf; simpl in Hf; try lia; [done|].
  cbn [remove_criterion_loop first_cell hits]. destruct fin; [done|].
  destruct Hl as (_ & q & Hc & Hl). pose proof (lseg_first _ _ _ _ Hl) as ->.
  step (apply on_mem_read; by apply entry_at_ok). step (apply on_mem_read, temporal_at_ok, Hc).
  cbn [time next]. assert (Htk : taken t criterion (n_val n) false = matchesTimeCriterion (n_val n) t criterion false)
    by (unfold taken; by rewrite Ht). rewrite <- Htk.
  destruct (taken t criterion (n_val n) false) as [[|] fin']; cbn [fst snd]; rewrite ?Hp;
    rewrite IH by (done || lia); [|done].
  rewrite last_cons. by destruct (last (hits t criterion l fin')).
Qed.

Section by_time.
Context (s : TemporalTable) (L : lists) (I : list node) (t : Temporal).

Definition removes (criterion : TemporalRelationship) : Prop :=
  let V := found t criterion (n_val <$> L None) in
  exists s' L' I', TT_remove_time remove_depth t criterion s = (Ok (negb (bool_decide (V = []))), s') /\
    removable s' L' I' [] /\ all_without V L L'.

Lemma remove_time_exact :
  t_wf t -> removable s L I (found t EXACT (n_val <$> L None)) -> removes EXACT.
Proof.
  intros Ht Hrv. unfold removes, remove_depth. cbn [TT_remove_time]. step (done). step (done).
  rewrite t_wf_defined by done. pose proof (rv_inv _ _ _ _ Hrv) as Hinv.
  pose proof (sorted_vals_nodup _ (lo_sorted _ _ (ti_lists _ _ _ Hinv) None)) as Hd.
  rewrite found_exact in * by done. case_decide as Hin.
  - destruct (removable_step s L I t [] Hrv) as (s' & L' & I' & E & Hrv' & HL'); [by repeat constructor|done|].
    exists s', L', I'. split; [exact E|]. split; [done|].
    apply (all_without_step _ _ _ L'); [done|apply all_without_nil].
  - exists s, L, I. split; [by apply (remove_exact_none s L I)|]. split; [done|apply all_without_nil].
Qed.

Lemma remove_time_overlaps :
  t_wf t -> removable s L I (found t OVERLAPS (n_val <$> L None)) ->
  (exists A, holds s L I A) -> removes OVERLAPS.
Proof.
  intros Ht Hrv [A Hho]. unfold removes, remove_depth. cbn [TT_remove_time]. step (done). step (done).
  rewrite t_wf_defined by done. pose proof (ti_lists _ _ _ (rv_inv _ _ _ _ Hrv)) as Hlo.
  pose proof (lo_list _ _ Hlo None) as Hl. cbn [root] in Hl.
  pose proof (lseg_length _ _ _ _ (lo_nodup _ _ Hlo None) Hl) as Hlen.
  pose proof (lseg_first _ _ _ _ Hl) as Hfirst. rewrite Hfirst.
  destruct (decide (L None = [])) as [HL|HL].
  - rewrite HL in *. exists s, L, I. unfold found in *. rewrite t_wf_defined in * by done.
    split; [done|]. split; [done|apply all_without_nil].
  - destruct (overlaps_limit_ok s L I A Hho t HL Ht) as (P & Q & HPQ & HP & HQ & E).
    rewrite HPQ in *. rewrite overlaps_found in * by done.
    destruct (first_cell (P ++ Q) None) as [c|] eqn:Ec; [|by destruct P, Q].
    step (exact E). rewrite <- Ec. rewrite length_app in Hlen.
    destruct (remove_overlaps_loop_ok t Q P (chain_fuel (tt_mem s)) s L I [] false Hrv HPQ)
      as (s' & L' & I' & E' & H'); [unfold chain_fuel; lia|]. by exists s', L', I'.
Qed.

Lemma remove_time_all criterion :
  t = UNDEFINED_TEMPORAL -> removable s L I (found t criterion (n_val <$> L None)) -> removes criterion.
Proof.
  intros Heq Hrv. rewrite Heq in Hrv. unfold removes, remove_depth. rewrite Heq. cbn [TT_remove_time]. step (done). step (done).
  change (T_eq UNDEFINED_TEMPORAL UNDEFINED_TEMPORAL) with true. cbv iota.
  pose proof (ti_lists _ _ _ (rv_inv _ _ _ _ Hrv)) as Hlo.
  pose proof (lo_list _ _ Hlo None) as Hl. cbn [root] in Hl.
  pose proof (lseg_length _ _ _ _ (lo_nodup _ _ Hlo None) Hl) as Hlen.
  pose proof (lseg_first _ _ _ _ Hl) as Hfirst. rewrite Hfirst.
  change (found UNDEFINED_TEMPORAL criterion (n_val <$> L None)) with (n_val <$> L None) in *.
  destruct (remove_all_loop_ok (L None) (chain_fuel (tt_mem s)) s L I [] Hrv)
    as (s' & L' & I' & E & H'); [done|apply Hlo|unfold chain_fuel; lia|].
  step (exact E). exists s', L', I'. split; [|exact H'].
  destruct (L None) as [|n l]; [done|]. cbn [first_cell]. rewrite bool_decide_true by eauto.
  by rewrite bool_decide_false.
Qed.

Lemma remove_time_other criterion :
  t_wf t -> criterion <> EXACT -> criterion <> OVERLAPS ->
  removable s L I (found t criterion (n_val <$> L None)) -> removes criterion.
Proof.
  intros Ht He Ho Hrv. unfold removes, remove_depth. pose proof (ti_lists _ _ _ (rv_inv _ _ _ _ Hrv)) as Hlo.
  assert (Hv : found t criterion (n_val <$> L None) = n_val <$> chosen t criterion (L None)).
  { symmetry. apply chosen_vals; [apply Hlo|apply Hlo|by left]. }
  rewrite Hv in *. pose proof (t_wf_defined t Ht) as Hd.
  pose proof (lo_list _ _ Hlo None) as Hl. cbn [root] in Hl.
  pose proof (lseg_length _ _ _ _ (lo_nodup _ _ Hlo None) Hl) as Hlen.
  pose proof (lseg_first _ _ _ _ Hl) as Hfirst.
  assert (Hrun : TT_remove_time 2 t criterion s =
    (r ← remove_criterion_loop rec (chain_fuel (tt_mem s)) (sortedTemporalList s) t criterion false None false;
     _ ← match fst (r : option positive * bool) with
         | None => mret tt
         | Some p => x ← on_mem (temporal_at p); _ ← rec x; mret tt
         end;
     mret r.2) s).
  { unfold rec. cbn [TT_remove_time]. step (done). step (done). rewrite Hd. by destruct criterion. }
  rewrite Hrun, Hfirst. unfold chosen, not_undefined_previous, T_ne in *. rewrite Hd in *. cbn [negb andb] in *.
  destruct (is_previous criterion) eqn:Hp.
  - step (apply remove_criterion_loop_previous; [done|done|by rewrite <- Hfirst|unfold chain_fuel; lia]).
    destruct (last (hits t criterion (L None) false)) as [n|] eqn:En; cbn [fst snd].
    + assert (Hn : n ∈ L None) by (by apply (hits_in t criterion _ false), last_Some_elem_of).
      destruct (lseg_cell _ _ _ _ n Hl Hn) as (q & _ & Hnt).
      destruct (removable_step s L I (n_val n) [] Hrv) as (s' & L' & I' & E & Hrv' & HL');
        [by repeat constructor|by apply list_elem_of_fmap_2|].
      step (step (by apply on_mem_read, temporal_at_ok);
            step (rewrite rec_ok by (by eapply list_wf); exact E); done).
      exists s', L', I'. split; [done|]. split; [done|].
      apply (all_without_step _ _ _ L'); [done|apply all_without_nil].
    + step (done). exists s, L, I. split; [done|]. split; [done|apply all_without_nil].
  - destruct (remove_criterion_loop_ok t criterion (L None) (chain_fuel (tt_mem s)) s L I [] false None false Hd Hp Hrv)
      as (s' & L' & I' & E & H'); [done|unfold chain_fuel; lia|].
    step (exact E). cbn [fst snd]. step (done). exists s', L', I'. split; [done|exact H'].
Qed.

Lemma TT_remove_time_ok criterion :
  t_arg t -> removable s L I (found t criterion (n_val <$> L None)) ->
  (exists A, holds s L I A) -> removes criterion.
Proof.
  intros [Ht|Ht] Hrv HA; [|by apply remove_time_all].
  destruct criterion; try (by apply remove_time_other);
    [by apply remove_time_exact|by apply remove_time_overlaps].
Qed.
End by_time.
End removal.
