(* ===== verification/TimeDelete.v ===== *)
(** The destructor of src/opencog/atomspace/TemporalTable.cc: it deletes every
    list, every cell and every object once. *)
From S2P Require Import Prelude Temporal TemporalEntry TimeSpec TemporalTable TimeIndex TimeInv TimeAdd TimeRemove TimeGet.

(** The cells [cs] are free, nothing else changed. *)
Record freed (cs : list positive) (m m' : Mem) : Prop := {
  fr_touch : touches cs m m';
  fr_dom : dom (entries m') = dom (entries m) ∖ list_to_set cs
}.

Lemma freed_trans cs1 cs2 m1 m2 m3 : freed cs1 m1 m2 -> freed cs2 m2 m3 -> freed (cs1 ++ cs2) m1 m3.
Proof.
  intros [T1 D1] [T2 D2]. split; [by apply (touches_trans _ _ _ m2)|].
  rewrite D2, D1, list_to_set_app_L. set_solver.
Qed.

Lemma free_entry_freed m c :
  mem_wf m -> is_Some (entries m !! c) -> exists m', free_entry c m = (Ok tt, m') /\ freed [c] m m'.
Proof.
  intros Hwf Hc. destruct (free_entry_ok m c Hwf Hc) as (m' & E & M & T). exists m'. split; [done|].
  split; [done|]. rewrite M, dom_delete_L. set_solver.
Qed.

(** The cells of a list that starts with [n], from [n] on. *)
Lemma delete_rest_ok l : forall n m fuel,
  mem_wf m -> lseg m (Some (n_cell n)) (n :: l) None -> NoDup (n_cell <$> n :: l) ->
  length l < fuel ->
  exists m', TE.delete_rest fuel (n_cell n) m = (Ok tt, m') /\ freed (n_cell <$> n :: l) m m'.
Proof.
  induction l as [|k l IH]; intros n m [|fuel] Hwf (_ & q & Hc & Hl) Hd Hf; simpl in Hf; try lia;
    cbn [TE.delete_rest]; step (by apply entry_at_ok); cbn [next].
  - simpl in Hl. subst q. apply free_entry_freed; [done|]. destruct Hc as [He _]. by eexists.
  - pose proof (lseg_first _ _ _ _ Hl) as ->. cbn [first_cell] in *.
    rewrite fmap_cons, NoDup_cons in Hd. destruct Hd as [Hn Hd].
    destruct (set_next_cell m n _ None Hwf Hc) as (m1 & E1 & M1 & T1 & D1). step (exact E1).
    destruct (free_entry_freed m1 (n_cell n)) as (m2 & E2 & F2);
      [apply T1|rewrite M1, lookup_insert_eq; by eexists|]. step (exact E2).
    assert (F : freed [n_cell n] m m2).
    { destruct F2 as [T2 D2]. split; [|by rewrite D2, D1].
      apply (touches_mono ([n_cell n] ++ [n_cell n])); [set_solver|by apply (touches_trans _ _ _ m1)]. }
    destruct (IH k m2 fuel) as (m3 & E3 & F3); [apply F| |done|lia|].
    { apply (touches_lseg _ _ _ _ _ _ (fr_touch _ _ _ F)); [|done].
      intros x Hx%(list_elem_of_fmap_2 n_cell) Heq%list_elem_of_singleton. by rewrite Heq in Hx. }
    exists m3. split; [exact E3|]. by apply (freed_trans [n_cell n] _ _ m2).
Qed.

Lemma TE_delete_ok m n l :
  mem_wf m -> lseg m (Some (n_cell n)) (n :: l) None -> NoDup (n_cell <$> n :: l) ->
  exists m', TE.delete (n_cell n) m = (Ok tt, m') /\ freed (n_cell <$> n :: l) m m'.
Proof.
  intros Hwf Hall Hd. pose proof (lseg_length _ _ _ _ Hd Hall) as Hlen.
  destruct Hall as (_ & q & Hc & Hl). unfold TE.delete. step (by apply entry_at_ok). cbn [next].
  pose proof (lseg_first _ _ _ _ Hl) as ->. rewrite fmap_cons, NoDup_cons in Hd. destruct Hd as [Hn Hd].
  destruct l as [|k l]; cbn [first_cell] in *.
  - step (done). apply free_entry_freed; [done|]. destruct Hc as [He _]. by eexists.
  - destruct (delete_rest_ok l k m (chain_fuel m) Hwf Hl Hd) as (m1 & E1 & F1);
      [unfold chain_fuel; simpl in Hlen; lia|].
    step (step (done); exact E1).
    destruct (free_entry_freed m1 (n_cell n)) as (m2 & E2 & F2); [apply F1| |].
    { rewrite (to_entries _ _ _ (fr_touch _ _ _ F1)) by done. destruct Hc as [He _]. by eexists. }
    exists m2. split; [exact E2|]. pose proof (freed_trans _ _ _ _ _ F1 F2) as [T D].
    split; [|rewrite D, list_to_set_app_L, (fmap_cons n_cell n); cbn [list_to_set]; set_solver].
    apply (touches_mono ((n_cell <$> k :: l) ++ [n_cell n])); [|done].
    rewrite (fmap_cons n_cell n). set_solver.
Qed.

Lemma delete_list_ok s p l :
  mem_wf (tt_mem s) -> lseg (tt_mem s) p l None -> NoDup (n_cell <$> l) ->
  exists m', delete_list p s = (Ok tt, set_mem m' s) /\ freed (n_cell <$> l) (tt_mem s) m'.
Proof.
  intros Hwf Hl Hd. pose proof (lseg_first _ _ _ _ Hl) as ->. destruct l as [|n l].
  - exists (tt_mem s). split; [by rewrite set_mem_id|]. split; [by split|]. set_solver.
  - destruct (TE_delete_ok _ n l Hwf Hl Hd) as (m' & E & F). exists m'. split; [|done].
    cbn [first_cell delete_list]. by apply on_mem_ok.
Qed.

(** Lists that share no cell. *)
Lemma delete_lists_ok (L : lists) : forall (ps : list (Handle * option positive)) s,
  mem_wf (tt_mem s) ->
  (forall h p, (h, p) ∈ ps -> lseg (tt_mem s) p (L (Some h)) None) ->
  (forall h, NoDup (n_cell <$> L (Some h))) -> NoDup ps.*1 ->
  (forall h h' n k, n ∈ L (Some h) -> k ∈ L (Some h') -> n_cell n = n_cell k -> h = h') ->
  exists m', foreach delete_list ps.*2 s = (Ok tt, set_mem m' s) /\
    freed (ps ≫= fun x => n_cell <$> L (Some x.1)) (tt_mem s) m'.
Proof.
  induction ps as [|[h p] ps IH]; intros s Hwf Hl Hd Hnd Hsep.
  { exists (tt_mem s). split; [by rewrite set_mem_id|]. split; [by split|]. set_solver. }
  rewrite fmap_cons, NoDup_cons in Hnd. destruct Hnd as [Hh Hnd]. simpl in Hh.
  destruct (delete_list_ok s p (L (Some h)) Hwf) as (m1 & E1 & F1); [apply Hl; left|done|].
  destruct (IH (set_mem m1 s)) as (m2 & E2 & F2); [apply F1| |done|done|done|].
  - intros h' p' Hp'. apply (touches_lseg _ _ _ _ _ _ (fr_touch _ _ _ F1)); [|apply Hl; by right].
    intros n Hn (k & Hk & HkL)%list_elem_of_fmap. apply Hh.
    rewrite <- (Hsep h' h n k Hn HkL Hk). by apply (list_elem_of_fmap_2 fst) in Hp'.
  - exists m2. rewrite fmap_cons, bind_cons. cbn [foreach]. step (exact E1). split; [exact E2|].
    by apply (freed_trans _ _ _ m1).
Qed.

Lemma delete_objects_ok gs : forall s,
  mem_wf (tt_mem s) -> NoDup gs -> (forall p, p ∈ gs -> is_Some (temporals (tt_mem s) !! p)) ->
  exists m', foreach (fun p => on_mem (delete_temporal p)) gs s = (Ok tt, set_mem m' s) /\
    mem_wf m' /\ entries m' = entries (tt_mem s) /\
    dom (temporals m') = dom (temporals (tt_mem s)) ∖ list_to_set gs.
Proof.
  induction gs as [|p gs IH]; intros s Hwf Hd Hlive.
  { exists (tt_mem s). split; [by rewrite set_mem_id|]. split; [done|]. split; [done|]. set_solver. }
  apply NoDup_cons in Hd as [Hp Hd]. destruct (Hlive p ltac:(left)) as [v Hv].
  set (m1 := mkMem (delete p (temporals (tt_mem s))) (entries (tt_mem s)) (next_addr (tt_mem s))).
  destruct (IH (set_mem m1 s)) as (m2 & E & Hwf2 & He & Ht); [|done| |].
  - split; [apply Hwf|]. simpl. intros c [_ Hc]%lookup_delete_is_Some. by apply (mw_temporals _ Hwf).
  - intros c Hc. simpl. rewrite lookup_delete_ne by (intros ->; done). apply Hlive. by right.
  - exists m2. cbn [foreach]. step (apply on_mem_ok; unfold delete_temporal; apply modify_ok; by rewrite Hv).
    split; [exact E|]. split; [done|]. split; [done|]. rewrite Ht. simpl. rewrite dom_delete_L. set_solver.
Qed.

(** The objects that the map of the times has. *)
Definition stored (s : TemporalTable) : gset positive :=
  list_to_set (fst <$> (snd <$> map_to_list (temporalMap s))).

Lemma stored_times s L G p :
  maps_ok s L G -> p ∈ stored s <-> exists n, n ∈ L None /\ n_time n = p.
Proof.
  intros Hmo. unfold stored. rewrite elem_of_list_to_set, list_elem_of_fmap. split.
  - intros ([q hs] & -> & ([key e] & -> & E%elem_of_map_to_list)%list_elem_of_fmap). simpl.
    destruct (mo_dom _ _ _ Hmo key) as (n & Hn & <-); [by eexists|].
    destruct (mo_find _ _ _ Hmo n Hn) as (hs' & E' & _). exists n. split; [done|].
    rewrite E' in E. by injection E as <-.
  - intros (n & Hn & <-). destruct (mo_find _ _ _ Hmo n Hn) as (hs & E & _).
    exists (n_time n, hs). split; [done|]. apply list_elem_of_fmap. eexists (_, _). split; [done|].
    by apply elem_of_map_to_list.
Qed.

(** Every cell is in the sorted list or in the list of a handle of the map. *)
Lemma all_cells s L c :
  lists_ok s L -> is_Some (entries (tt_mem s) !! c) ->
  c ∈ (map_to_list (handleMap s) ≫= fun x => n_cell <$> L (Some x.1)) ++ (n_cell <$> L None).
Proof.
  intros Hlo Hc. destruct (lo_own _ _ Hlo c Hc) as (i & n & Hn & <-). apply elem_of_app.
  destruct i as [h|]; [left|right; by apply list_elem_of_fmap_2].
  pose proof (lseg_first _ _ _ _ (lo_list _ _ Hlo (Some h))) as Hf. cbn [root] in Hf.
  rewrite get_lookup in Hf. destruct (handleMap s !! h) as [p|] eqn:E.
  - apply list_elem_of_bind. exists (h, p). split; [by apply list_elem_of_fmap_2|].
    by apply elem_of_map_to_list.
  - destruct (L (Some h)); [by apply not_elem_of_nil in Hn|done].
Qed.

(** After the destructor nothing of the table is left in the memory. *)
Lemma TT_delete_ok s L I :
  TT_inv s L I -> exists s', TT_delete s = (Ok tt, s') /\
    mem_wf (tt_mem s') /\ entries (tt_mem s') = ∅ /\ temporals (tt_mem s') = ∅.
Proof.
  intros [Hlo Hmo _]. unfold TT_delete. step (done). step (done). cbn [handleMap set_tailHandleMap].
  set (s0 := set_tailHandleMap ∅ s). set (hm := map_to_list (handleMap s)).
  destruct (delete_lists_ok L hm s0) as (m1 & E1 & F1).
  - apply Hlo.
  - intros h p Hp%elem_of_map_to_list. pose proof (lo_list _ _ Hlo (Some h)) as Hl. cbn [root] in Hl.
    rewrite get_lookup, Hp in Hl. exact Hl.
  - intros h. apply Hlo.
  - apply NoDup_fst_map_to_list.
  - intros h h' n k Hn Hk Heq. pose proof (lo_sep _ _ Hlo _ _ n k Hn Hk Heq). congruence.
  - step (exact E1). step (done). step (done).
    destruct (delete_list_ok (set_mem m1 s0) (sortedTemporalList s) (L None)) as (m2 & E2 & F2).
    + apply F1.
    + apply (touches_lseg _ _ _ _ _ _ (fr_touch _ _ _ F1)); [|apply (lo_list _ _ Hlo None)].
      intros n Hn (x & Hc & Hx)%list_elem_of_bind.
      apply list_elem_of_fmap in Hc as (k & Hk & HkL).
      by pose proof (lo_sep _ _ Hlo _ _ n k Hn HkL Hk).
    + apply Hlo.
    + step (exact E2).
      pose proof (freed_trans _ _ _ _ _ F1 F2) as [T D].
      change (temporalMap s0) with (temporalMap s). fold (stored s).
      destruct (delete_objects_ok (elements (stored s)) (set_mem m2 (set_mem m1 s0)))
        as (m3 & E3 & Hwf3 & He & Ht); [apply T|apply NoDup_elements| |].
      * intros p (n & Hn & <-)%elem_of_elements%(stored_times s L ∅ _ Hmo). cbn.
        rewrite (to_temporals _ _ _ T). cbn. rewrite (live_val s L Hlo n Hn). by eexists.
      * eexists. split; [exact E3|]. split; [done|]. cbn. split.
        -- rewrite He. cbn. apply dom_empty_inv_L. rewrite D. apply set_eq. intros c.
           split; [|set_solver]. intros [Hc%elem_of_dom Hno]%elem_of_difference. destruct Hno.
           apply elem_of_list_to_set. by apply (all_cells s L c Hlo).
        -- apply dom_empty_inv_L. rewrite Ht, list_to_set_elements_L. cbn.
           rewrite (to_temporals _ _ _ T). apply set_eq. intros p. split; [|set_solver].
           intros [Hp%elem_of_dom Hno]%elem_of_difference. destruct Hno.
           apply (stored_times s L ∅ _ Hmo).
           by destruct (mo_live _ _ _ Hmo p Hp) as [?|[]%not_elem_of_empty].
Qed.
