(* ===== verification/TimeRefine.v ===== *)
(** The time server (src/opencog/atomspace/TimeServer.cc) implements its
    specification: every operation takes tables that hold a set of pairs to
    tables that hold the set of the specification, and answers what the
    specification answers. *)
From S2P Require Import Prelude Temporal TemporalEntry TimeSpec TemporalTable TimeIndex TimeInv TimeAdd TimeRemove TimeGet TimeRemoveAll TimeDelete.

Definition represents (s : TimeServer) (S : server) : Prop :=
  (exists L I, holds (table s) L I (pairs S) /\ forall h, tail_ok (table s) L h) /\
  latestTimestamp s = latest S.

(** ** A new server *)
Lemma empty_table_ok m :
  mem_wf m -> entries m = ∅ -> temporals m = ∅ ->
  holds (TemporalTable_new m) (fun _ => []) [] ∅ /\ forall h, tail_ok (TemporalTable_new m) (fun _ => []) h.
Proof.
  intros Hwf He Ht. split; [|by intros h p]. split; [|intros h t; split; [set_solver|by intros ?%not_elem_of_nil]].
  split.
  - split; simpl; try done.
    + intros [h|]; [|done]. cbn [root]. by rewrite get_lookup.
    + intros i. constructor.
    + intros i j n k Hn. by apply not_elem_of_nil in Hn.
    + intros i. constructor.
    + intros i. constructor.
    + intros c. rewrite He. by intros [? ?].
  - split; simpl.
    + intros i n Hn. by apply not_elem_of_nil in Hn.
    + intros n Hn. by apply not_elem_of_nil in Hn.
    + intros key [? ?]. done.
    + intros p. rewrite Ht. by intros [? ?].
    + intros n Hn. by apply not_elem_of_nil in Hn.
    + intros p. set_solver.
  - split; simpl; done.
Qed.

Lemma new_represents m :
  mem_wf m -> entries m = ∅ -> temporals m = ∅ -> represents (TimeServer_init m) spec_new.
Proof.
  intros Hwf He Ht. split; [|done]. exists (fun _ => []), []. by apply empty_table_ok.
Qed.

Lemma on_table_ok {A} (f : ST TemporalTable A) s a t :
  f (table s) = (Ok a, t) -> on_table f s = (Ok a, mkTS t (latestTimestamp s)).
Proof. unfold on_table. by intros ->. Qed.

(** ** add *)
Lemma add_refines s S h t :
  represents s S -> t_wf t -> exists s', TS_add h t s = (Ok tt, s') /\ represents s' (spec_add h t S).
Proof.
  intros [(L & I & [Hinv Hp] & Htail) Hlat] Ht.
  destruct (TT_add_ok (table s) L I h t Hinv (Htail h) Ht)
    as (t' & L' & I' & E & Hinv' & Hvals & _ & Htail').
  unfold TS_add. step (apply on_table_ok, E). eexists. split; [done|]. cbn [latestTimestamp table].
  assert (Hrep : forall n, n = N.max (latest S) (getUpperBound t) ->
            represents (mkTS t' n) (spec_add h t S)).
  { intros n ->. split; [|done]. exists L', I'. split; [|intros h'; by apply Htail'].
    split; [done|]. intros h' u. cbn [pairs spec_add]. rewrite elem_of_union, elem_of_singleton, Hvals, Hp.
    cbn [table]. split; [intros [[= -> ->]|]; by auto|intros [[-> ->]|]; by auto]. }
  rewrite Hlat. destruct (N.ltb_spec (latest S) (getUpperBound t)); apply Hrep; lia.
Qed.

(** ** get *)
Section order.
Context `{SetOrder}.

Lemma get_refines s S h t criterion :
  represents s S -> t_arg t -> exists r,
    TS_get h t criterion s = (Ok r, s) /\ shows (table s) r (spec_get h t criterion S).
Proof.
  intros [(L & I & Hho & _) _] Ht.
  destruct (TT_get_ok (table s) L I (pairs S) Hho h t criterion S Ht eq_refl) as (r & E & Hr).
  exists r. split; [|done]. unfold TS_get. rewrite (on_table_ok _ _ _ _ E). by destruct s.
Qed.

(** ** remove *)
Lemma safe_last_list V l : safe_last V (n_val <$> l) = true -> safe_times V l.
Proof.
  unfold safe_last, safe_times. rewrite fmap_last. destruct (last l) as [n|] eqn:En; cbn [fmap option_fmap option_map].
  - intros [Hn%bool_decide_eq_true|Hall%bool_decide_eq_true]%orb_true_iff; [left; by exists n|right].
    by apply Forall_fmap in Hall.
  - intros _. apply last_None in En as ->. by right.
Qed.

Lemma elem_of_spec_get_all t criterion S h u :
  (h, u) ∈ spec_get UNDEFINED t criterion S <->
  (h, u) ∈ pairs S /\ u ∈ found t criterion (all_times (pairs S)).
Proof.
  unfold spec_get. rewrite N.eqb_refl.
  assert (Hl : (h, u) ∈ (found t criterion (all_times (pairs S)) ≫= pairs_at (pairs S)) <->
          (h, u) ∈ pairs S /\ u ∈ found t criterion (all_times (pairs S))).
  { rewrite list_elem_of_bind. unfold pairs_at. split.
    - intros (v & (h' & [= -> ->] & Hh)%list_elem_of_fmap & Hv).
      by apply elem_of_set_order, elem_of_handles_of in Hh.
    - intros [Hp Hu]. exists u. split; [|done]. apply list_elem_of_fmap. exists h. split; [done|].
      by apply elem_of_set_order, elem_of_handles_of. }
  destruct criterion; try done. destruct (T_eq t UNDEFINED_TEMPORAL); [done|].
  by rewrite elem_of_reverse.
Qed.

Lemma elem_of_found_in t criterion l u : u ∈ found t criterion l -> u ∈ l.
Proof.
  unfold found, wanted. destruct (T_eq t UNDEFINED_TEMPORAL); [done|].
  destruct (is_next criterion); [|destruct (is_previous criterion)].
  - intros Hu. apply elem_of_take in Hu as (i & Hu & _). apply list_elem_of_lookup_2 in Hu.
    by apply list_elem_of_filter in Hu as [_ ?].
  - destruct (last _) as [x|] eqn:E; [|by intros ?%not_elem_of_nil].
    intros ->%list_elem_of_singleton. apply last_Some_elem_of in E. by apply list_elem_of_filter in E as [_ ?].
  - by intros [_ ?]%list_elem_of_filter.
Qed.

Lemma answered (l : list (Handle * Temporal)) :
  negb (bool_decide (l = [])) = match l with [] => false | _ => true end.
Proof. by destruct l. Qed.

Lemma spec_get_all_nil t criterion S :
  spec_get UNDEFINED t criterion S = [] <-> found t criterion (all_times (pairs S)) = [].
Proof.
  split.
  - intros E. destruct (found t criterion (all_times (pairs S))) as [|u V] eqn:EV; [done|]. exfalso.
    assert (Hu : u ∈ found t criterion (all_times (pairs S))) by (rewrite EV; left).
    pose proof (elem_of_found_in _ _ _ _ Hu) as [h Hh]%elem_of_all_times.
    pose proof (proj2 (elem_of_spec_get_all t criterion S h u) (conj Hh Hu)) as Hin.
    rewrite E in Hin. by apply not_elem_of_nil in Hin.
  - intros E. unfold spec_get. rewrite N.eqb_refl, E. destruct criterion; try done.
    by destruct (T_eq t UNDEFINED_TEMPORAL).
Qed.

Lemma TT_remove_all_ok s L I A t criterion S :
  holds s L I A -> (forall h, tail_ok s L h) -> pairs S = A -> t_arg t ->
  safe_remove UNDEFINED t criterion S = true ->
  exists s' L' I',
    TT_remove UNDEFINED t criterion s = (Ok (spec_remove UNDEFINED t criterion S).1, s') /\
    holds s' L' I' (pairs (spec_remove UNDEFINED t criterion S).2) /\ forall h, tail_ok s' L' h.
Proof.
  intros Hho Htail HA Ht Hsafe. pose proof (ho_inv _ _ _ _ Hho) as Hinv.
  set (V := found t criterion (n_val <$> L None)).
  assert (HV : V = found t criterion (all_times (pairs S))) by (unfold V; by rewrite HA, (all_times_list s L I A Hho)).
  assert (Hrv : removable s L I V).
  { split; [done|done|]. intros h. apply safe_last_list. rewrite (times_of_list s L I A Hho), HV, <- HA.
    unfold safe_remove in Hsafe. rewrite N.eqb_refl, forallb_forall in Hsafe.
    destruct (times_of (pairs S) h) as [|u l] eqn:E; [done|]. rewrite <- E.
    apply (Hsafe (h, u)), list_elem_of_In, elem_of_elements, elem_of_times_of. rewrite E. left. }
  destruct (TT_remove_time_ok s L I t criterion Ht Hrv (ex_intro _ A Hho)) as (s' & L' & I' & E & Hrv' & HL').
  exists s', L', I'. unfold TT_remove. rewrite N.eqb_refl. fold V in E, HL'. split; [|split].
  - rewrite E. do 2 f_equal. unfold spec_remove. cbn [fst]. rewrite <- answered.
    do 2 f_equal. apply bool_decide_ext. by rewrite spec_get_all_nil, HV.
  - split; [apply Hrv'|]. intros h u. cbn [spec_remove snd pairs].
    rewrite HL', without_all_vals, elem_of_difference, elem_of_list_to_set, elem_of_spec_get_all, HV, HA.
    rewrite (ho_pairs _ _ _ _ Hho). tauto.
  - apply (rv_tail _ _ _ _ Hrv').
Qed.

(** The objects of the times that stay are the same ones. *)
Definition keeps_times (s s' : TemporalTable) (A : Pairs) : Prop :=
  forall p x u, (x, u) ∈ A -> temporals (tt_mem s) !! p = Some u -> temporals (tt_mem s') !! p = Some u.

Lemma nodes_keep s L I A s' L' I' A' :
  holds s L I A -> holds s' L' I' A' -> A' ⊆ A ->
  (forall x n, n ∈ L (Some x) -> (x, n_val n) ∈ A' -> n ∈ L' (Some x)) -> keeps_times s s' A'.
Proof.
  intros Hho Hho' Hsub HL p x u Hxu Hp.
  pose proof (ti_lists _ _ _ (ho_inv _ _ _ _ Hho)) as Hlo. pose proof (ti_maps _ _ _ (ho_inv _ _ _ _ Hho)) as Hmo.
  destruct (mo_live _ _ _ Hmo p (mk_is_Some _ _ Hp)) as [(n & Hn & Hnp)|Hno]; [|by apply not_elem_of_empty in Hno].
  destruct (lseg_cell _ _ _ _ n (lo_list _ _ Hlo None) Hn) as (q & _ & Hv). rewrite Hnp, Hp in Hv. injection Hv as Hv.
  pose proof (proj1 (ho_pairs _ _ _ _ Hho x u) (Hsub _ Hxu)) as (k & Hku & Hk)%list_elem_of_fmap.
  destruct (mo_time _ _ _ Hmo (Some x) k Hk) as (k0 & Hk0 & Ht0 & Hv0).
  assert (k0 = n) as -> by (apply (val_unique (L None) (lo_sorted _ _ Hlo None)); [done|done|congruence]).
  assert (Hk' : k ∈ L' (Some x)) by (apply HL; [done|by rewrite <- Hku]).
  destruct (lseg_cell _ _ _ _ k (lo_list _ _ (ti_lists _ _ _ (ho_inv _ _ _ _ Hho')) (Some x)) Hk') as (q' & _ & Hv').
  rewrite <- Ht0, Hnp, <- Hku in Hv'. exact Hv'.
Qed.

Lemma TT_remove_one_ok s L I A h t criterion S :
  holds s L I A -> (forall h, tail_ok s L h) -> pairs S = A -> t_arg t -> h <> UNDEFINED ->
  safe_remove h t criterion S = true ->
  exists s' L' I',
    TT_remove h t criterion s = (Ok (spec_remove h t criterion S).1, s') /\
    holds s' L' I' (pairs (spec_remove h t criterion S).2) /\ (forall h, tail_ok s' L' h) /\
    keeps_times s s' (pairs (spec_remove h t criterion S).2).
Proof.
  intros Hho Htail HA Ht Hh Hsafe. pose proof (ho_inv _ _ _ _ Hho) as Hinv.
  pose proof (ti_lists _ _ _ Hinv) as Hlo. pose proof (nodup_list s L I (Some h) Hinv) as Hd.
  assert (HV : n_val <$> chosen t criterion (L (Some h)) = found t criterion (times_of (pairs S) h)).
  { rewrite HA, <- (times_of_list s L I A Hho). by apply chosen_vals; [apply Hlo|apply Hlo|]. }
  destruct (TT_remove_handle_ok s L I h t criterion Hinv)
    as (s' & L' & I' & E & Hinv' & HLh & HLo & Htail' & Htailh).
  rewrite left_times_chosen in E, HLh by done.
  assert (Hho' : holds s' L' I' (pairs (spec_remove h t criterion S).2)).
  { unfold spec_remove, spec_get. rewrite (proj2 (N.eqb_neq _ _)) by done. cbn [snd pairs].
    split; [done|]. intros h' u. rewrite elem_of_difference, elem_of_list_to_set, <- HV, HA, (ho_pairs _ _ _ _ Hho).
    destruct (decide (h' = h)) as [->|Hne].
    + rewrite HLh. split.
      * intros [(n & -> & Hn)%list_elem_of_fmap Hno]. apply list_elem_of_fmap_2, list_elem_of_filter.
        split; [|done]. intros Hc. apply Hno. by apply list_elem_of_fmap_2, list_elem_of_fmap_2.
      * intros (n & -> & [Hc Hn]%list_elem_of_filter)%list_elem_of_fmap.
        split; [by apply list_elem_of_fmap_2|].
        intros (v & [= Hv] & (k & -> & Hk)%list_elem_of_fmap)%list_elem_of_fmap. apply Hc.
        replace n with k; [done|]. symmetry.
        apply (val_unique (L (Some h)) (lo_sorted _ _ Hlo _)); [done| |done]. by apply (chosen_in t criterion).
    + rewrite HLo by done. split; [by intros [? _]|]. intros Hu. split; [done|].
      intros (v & [= -> ->] & _)%list_elem_of_fmap. done. }
  exists s', L', I'. split; [|split; [exact Hho'|split]].
  - unfold TT_remove, spec_remove, spec_get. rewrite (proj2 (N.eqb_neq _ _)) by done. cbn [fst].
    rewrite E. do 2 f_equal. rewrite <- HV, <- answered. f_equal. apply bool_decide_ext.
    destruct (chosen t criterion (L (Some h))) as [|n V] eqn:EV.
    + split; [done|]. intros _. apply filter_keep, Forall_forall. intros n _. apply not_elem_of_nil.
    + split; [|done]. intros Heq.
      assert (Hn : n ∈ L (Some h)) by (apply (chosen_in t criterion); rewrite EV; left).
      rewrite <- Heq in Hn. apply list_elem_of_filter in Hn as [Hn _]. destruct Hn. left.
  - intros h'. destruct (decide (h' = h)) as [->|Hne]; [|by apply Htail'].
    apply Htailh; [done|]. intros Hp n Hn Hlast.
    unfold safe_remove in Hsafe. rewrite (proj2 (N.eqb_neq _ _)) in Hsafe by done.
    rewrite HA, <- (times_of_list s L I A Hho), fmap_last, Hlast in Hsafe.
    unfold not_undefined_previous in Hp. rewrite Hp in Hsafe. cbn in Hsafe.
    apply bool_decide_eq_true in Hsafe. apply Hsafe.
    rewrite <- chosen_vals; [|apply Hlo|apply Hlo|done]. apply list_elem_of_fmap_2.
    unfold chosen, not_undefined_previous. rewrite Hp, <- last_taken_hits, Hn. left.
  - apply (nodes_keep s L I A s' L' I' _ Hho Hho').
    { unfold spec_remove. cbn [snd pairs]. rewrite HA. set_solver. }
    intros x n Hn Hp. destruct (decide (x = h)) as [->|Hne]; [|by rewrite HLo].
    pose proof (proj1 (ho_pairs _ _ _ _ Hho' h (n_val n)) Hp) as (k & Hk & HkL)%list_elem_of_fmap.
    replace n with k; [done|]. rewrite HLh in HkL. apply list_elem_of_filter in HkL as [_ HkL].
    by apply (val_unique (L (Some h)) (lo_sorted _ _ Hlo _)).
Qed.

Lemma remove_refines s S h t criterion :
  represents s S -> t_arg t -> safe_remove h t criterion S = true -> exists s',
    TS_remove h t criterion s = (Ok (spec_remove h t criterion S).1, s') /\
    represents s' (spec_remove h t criterion S).2 /\
    (h <> UNDEFINED -> keeps_times (table s) (table s') (pairs (spec_remove h t criterion S).2)).
Proof.
  intros [(L & I & Hho & Htail) Hlat] Ht Hsafe.
  assert (Hrun : exists t' L' I',
    TT_remove h t criterion (table s) = (Ok (spec_remove h t criterion S).1, t') /\
    holds t' L' I' (pairs (spec_remove h t criterion S).2) /\ (forall h, tail_ok t' L' h) /\
    (h <> UNDEFINED -> keeps_times (table s) t' (pairs (spec_remove h t criterion S).2))).
  { destruct (decide (h = UNDEFINED)) as [->|Hh].
    - destruct (TT_remove_all_ok (table s) L I (pairs S) t criterion S) as (t' & L' & I' & E & H1 & H2); try done.
      by exists t', L', I'.
    - destruct (TT_remove_one_ok (table s) L I (pairs S) h t criterion S) as (t' & L' & I' & E & H1 & H2 & H3); try done.
      by exists t', L', I'. }
  destruct Hrun as (t' & L' & I' & E & Hho' & Htail' & Hk).
  eexists. split; [apply on_table_ok, E|]. split; [|exact Hk]. split; [|exact Hlat]. by exists L', I'.
Qed.

(** ** clear *)
Lemma clear_refines s S :
  represents s S -> exists s', TS_clear s = (Ok tt, s') /\ represents s' spec_new /\
    entries (tt_mem (table s')) = ∅ /\ temporals (tt_mem (table s')) = ∅.
Proof.
  intros [(L & I & Hho & _) _].
  destruct (TT_delete_ok (table s) L I (ho_inv _ _ _ _ Hho)) as (t' & E & Hwf & He & Ht).
  unfold TS_clear. step (apply on_table_ok, E). eexists. split; [done|].
  split; [by apply new_represents|done].
Qed.

(** ** Clients *)

(** The client reads the values of the times it was handed. *)
Fixpoint read_times (l : list HandleTemporalPair) : ST TimeServer (list (Handle * Temporal)) :=
  match l with
  | [] => mret []
  | p :: l =>
      x ← on_table (on_mem (temporal_at p.2));
      r ← read_times l;
      mret ((p.1, x) :: r)
  end.

Definition run_step (c : command) : ST TimeServer answer :=
  match c with
  | Add h t => _ ← TS_add h t; mret Nothing
  | Get h t criterion => l ← TS_get h t criterion; r ← read_times l; mret (Found r)
  | Remove h t criterion => b ← TS_remove h t criterion; mret (Removed b)
  | Latest => n ← asks getLatestTimestamp; mret (Timestamp n)
  | Clear => _ ← TS_clear; mret Nothing
  end.

Fixpoint run (cs : list command) : ST TimeServer (list answer) :=
  match cs with
  | [] => mret []
  | c :: cs => a ← run_step c; r ← run cs; mret (a :: r)
  end.

Lemma read_times_ok s r l : shows (table s) r l -> read_times r s = (Ok l, s).
Proof.
  induction 1 as [|[h p] [h' x] r l [Hh Hx] _ IH]; [done|]. cbn [read_times fst snd] in *. subst h'.
  step (rewrite (on_table_ok _ _ x (table s)); [by destruct s|by apply on_mem_read, temporal_at_ok]).
  by step (exact IH).
Qed.

Lemma t_argb_ok t : t_argb t = true -> t_arg t.
Proof. by intros [?%bool_decide_eq_true|?%bool_decide_eq_true]%orb_true_iff; [left|right]. Qed.

Lemma step_refines c s S :
  represents s S -> admissible c S = true -> exists s',
    run_step c s = (Ok (spec_step c S).1, s') /\ represents s' (spec_step c S).2.
Proof.
  intros Hrep. destruct c as [h t|h t criterion|h t criterion| |]; cbn [admissible run_step spec_step fst snd].
  - intros Ht%bool_decide_eq_true. destruct (add_refines s S h t Hrep Ht) as (s' & E & Hrep').
    exists s'. by step (exact E).
  - intros Ht%t_argb_ok. destruct (get_refines s S h t criterion Hrep Ht) as (r & E & Hr).
    exists s. step (exact E). by step (by apply read_times_ok).
  - intros [Ht%t_argb_ok Hsafe]%andb_true_iff.
    destruct (remove_refines s S h t criterion Hrep Ht Hsafe) as (s' & E & Hrep' & _).
    exists s'. by step (exact E).
  - intros _. exists s. step (done). split; [|done]. unfold getLatestTimestamp. by rewrite (proj2 Hrep).
  - intros _. destruct (clear_refines s S Hrep) as (s' & E & Hrep' & _). exists s'. by step (exact E).
Qed.

Lemma run_refines cs : forall s S,
  represents s S -> all_admissible cs S = true -> exists s',
    run cs s = (Ok (spec_run cs S).1, s') /\ represents s' (spec_run cs S).2.
Proof.
  induction cs as [|c cs IH]; intros s S Hrep; [by exists s|]. cbn [all_admissible run spec_run fst snd].
  intros [Hc Hcs]%andb_true_iff. destruct (step_refines c s S Hrep Hc) as (s1 & E1 & Hrep1).
  destruct (IH s1 _ Hrep1 Hcs) as (s2 & E2 & Hrep2). exists s2.
  step (exact E1). by step (exact E2).
Qed.
End order.
