(* ===== verification/TimeProps.v ===== *)
(** What the time server (src/opencog/atomspace/TimeServer.cc and
    TemporalTable.cc) promises, and where it breaks its promise, with runs on
    small tables. *)
From stdpp Require Import sorting.
From S2P Require Import Prelude Temporal TemporalEntry TimeSpec TemporalTable TimeIndex TimeInv TimeAdd TimeRemove TimeGet TimeRemoveAll TimeDelete TimeRefine.

(** ** A client sees the specification *)

(** C9. The time server refines its specification, a set of pairs of a handle
    and a time with the latest upper bound: any sequence of additions,
    lookups with any criterion, removals and clearings runs to its end, without
    exception and without undefined behaviour, and its answers are those of the
    specification. The sequence only has to use proper times, and no removal
    may leave a dangling pointer to the end of a list, which [admissible]
    excludes. *)
Theorem time_server_refines `{SetOrder} cs :
  all_admissible cs spec_new = true -> exists s',
    run cs TimeServer_new = (Ok (spec_run cs spec_new).1, s') /\
    represents s' (spec_run cs spec_new).2.
Proof. apply run_refines, new_represents; [split; by intros c [? ?]|done|done]. Qed.

(** ** Lookups *)
Lemma nodup_pairs `{SetOrder} A l : NoDup l -> NoDup (l ≫= pairs_at A).
Proof.
  induction 1 as [|t l Ht Hd IH]; [constructor|]. rewrite bind_cons. apply NoDup_app. split; [|split; [|done]].
  - unfold pairs_at. apply NoDup_fmap_2; [by intros h h' [= ->]|apply NoDup_set_order].
  - intros [h u] (h' & [= -> ->] & _)%list_elem_of_fmap (v & Hv & Hvl)%list_elem_of_bind.
    apply list_elem_of_fmap in Hv as (h'' & [= _ ->] & _). done.
Qed.

Lemma before_not_later x y : before x y -> not_later x y.
Proof. intros Hxy. apply not_later_before. intros Hyx. by apply (before_irrefl x), (before_trans x y x). Qed.

Lemma not_later_refl x : not_later x x.
Proof. apply not_later_before, before_irrefl. Qed.

(** The wanted times of a sorted list: all of them, the first, or the last. *)
Lemma elem_of_wanted criterion l u :
  StronglySorted before l -> u ∈ wanted criterion l <-> u ∈ l /\
    (is_next criterion = true -> forall v, v ∈ l -> not_later u v) /\
    (is_previous criterion = true -> forall v, v ∈ l -> not_later v u).
Proof.
  intros Hs. unfold wanted. destruct (is_next criterion) eqn:En.
  - assert (Ep : is_previous criterion = false) by by destruct criterion. rewrite Ep.
    destruct l as [|x l]; [by split; [intros ?%not_elem_of_nil|intros [?%not_elem_of_nil _]]|].
    apply StronglySorted_inv in Hs as [_ Hx]. rewrite Forall_forall in Hx.
    simpl. rewrite list_elem_of_singleton. split.
    + intros ->. split; [left|]. split; [|done]. intros _ v [->|Hv]%elem_of_cons; [apply not_later_refl|]. by apply before_not_later, Hx.
    + intros (Hu & Hmin & _). apply elem_of_cons in Hu as [->|Hu]; [done|].
      destruct (proj1 (not_later_before u x) (Hmin eq_refl x ltac:(left)) (Hx u Hu)).
  - destruct (is_previous criterion) eqn:Ep; [|by split; [|intros [? _]]]. clear En Ep.
    induction l as [|x l _] using rev_ind; [by split; [intros ?%not_elem_of_nil|intros [?%not_elem_of_nil _]]|].
    assert (Hx : forall v, v ∈ l -> before v x) by (intros v Hv; apply (StronglySorted_app_1_elem_of _ l [x] v x Hs Hv); left).
    rewrite last_snoc. simpl. rewrite list_elem_of_singleton. split.
    + intros ->. split; [apply elem_of_app; right; left|]. split; [done|].
      intros _ v [Hv| ->%list_elem_of_singleton]%elem_of_app; [by apply before_not_later, Hx|apply not_later_refl].
    + intros (Hu & _ & Hmax). apply elem_of_app in Hu as [Hu| ->%list_elem_of_singleton]; [|done].
      destruct (proj1 (not_later_before x u) (Hmax eq_refl x ltac:(apply elem_of_app; right; left)) (Hx u Hu)).
Qed.

Lemma elem_of_found t criterion l u :
  t_wf t -> StronglySorted before l -> u ∈ found t criterion l <->
    u ∈ l /\ related criterion t u = true /\
    (is_next criterion = true -> forall v, v ∈ l -> related criterion t v = true -> not_later u v) /\
    (is_previous criterion = true -> forall v, v ∈ l -> related criterion t v = true -> not_later v u).
Proof.
  intros Ht Hs. unfold found. rewrite t_wf_defined, elem_of_wanted by (done || by apply StronglySorted_filter).
  setoid_rewrite list_elem_of_filter. setoid_rewrite Is_true_true. naive_solver.
Qed.

Lemma found_sorted t criterion l : StronglySorted before l -> StronglySorted before (found t criterion l).
Proof.
  intros Hs. unfold found, wanted. destruct (T_eq _ _); [done|].
  pose proof (StronglySorted_filter before (fun T => related criterion t T) l Hs) as Hf.
  destruct (is_next criterion); [|destruct (is_previous criterion); [|done]].
  - destruct (filter _ l); simpl; repeat constructor.
  - destruct (last _); simpl; repeat constructor.
Qed.

Lemma before_nodup l : StronglySorted before l -> NoDup l.
Proof.
  induction 1 as [|x l Hs IH Hx]; constructor; [|done]. intros Hin. rewrite Forall_forall in Hx.
  by apply (before_irrefl x), Hx.
Qed.

Lemma same_sorted (l : list Temporal) t : (forall u, u ∈ l -> u = t) -> StronglySorted not_later l.
Proof.
  induction l as [|x l IH]; intros Hl; constructor; [apply IH; intros u Hu; apply Hl; by right|].
  apply Forall_forall. intros y Hy. rewrite (Hl x), (Hl y) by (by left || by right).
  apply not_later_refl.
Qed.

(** The pairs at sorted times are in the order of these. *)
Lemma pairs_sorted `{SetOrder} A l :
  StronglySorted before l -> StronglySorted not_later (snd <$> (l ≫= pairs_at A)).
Proof.
  assert (Hat : forall t u, u ∈ snd <$> pairs_at A t -> u = t).
  { intros t u (p & -> & (h & -> & _)%list_elem_of_fmap)%list_elem_of_fmap. done. }
  induction 1 as [|t l Hs IH Ht]; [constructor|]. rewrite bind_cons, fmap_app.
  apply StronglySorted_app_2; [|by apply (same_sorted _ t), Hat|done]. intros u v ->%Hat Hv.
  apply list_elem_of_fmap in Hv as (p & -> & (w & Hp & Hw)%list_elem_of_bind).
  rewrite Forall_forall in Ht. rewrite (Hat w p.2) by (by apply list_elem_of_fmap_2).
  by apply before_not_later, Ht.
Qed.

Section view.
Context `{SetOrder} (s : TimeServer) (S : server) (Hrep : represents s S).

Lemma times_wf h u : (h, u) ∈ pairs S -> t_wf u.
Proof. destruct Hrep as [(L & I & Hho & _) _]. by apply (pair_wf _ _ _ _ Hho). Qed.

Lemma times_of_sorted h : StronglySorted before (times_of (pairs S) h).
Proof. apply in_order_sorted. intros u ([h' v] & -> & [_ Hv]%elem_of_filter)%elem_of_map. by eapply times_wf. Qed.

Lemma all_times_sorted : StronglySorted before (all_times (pairs S)).
Proof. apply in_order_sorted. intros u ([h v] & -> & Hv)%elem_of_map. by eapply times_wf. Qed.

(** The answer is sorted, and has no pair twice. *)
Lemma spec_get_sorted h t criterion :
  t_wf t -> StronglySorted not_later (snd <$> spec_get h t criterion S) /\ NoDup (spec_get h t criterion S).
Proof.
  intros Ht. unfold spec_get. destruct (h =? UNDEFINED)%N.
  - pose proof (found_sorted t criterion _ all_times_sorted) as Hs.
    pose proof (pairs_sorted (pairs S) _ Hs) as Hp. pose proof (nodup_pairs (pairs S) _ (before_nodup _ Hs)) as Hd.
    destruct criterion; try done. rewrite t_wf_defined by done. split; [|by rewrite reverse_Permutation].
    apply (same_sorted _ t). intros u. rewrite fmap_reverse, elem_of_reverse.
    intros (p & -> & (v & Hv & Hf)%list_elem_of_bind)%list_elem_of_fmap.
    apply list_elem_of_fmap in Hv as (h' & -> & _).
    apply elem_of_found in Hf as (_ & Hr & _); [|done|apply all_times_sorted].
    by apply bool_decide_eq_true in Hr.
  - pose proof (found_sorted t criterion _ (times_of_sorted h)) as Hs. split.
    + rewrite <- list_fmap_compose, list_fmap_id.
      induction Hs as [|x l _ IH Hx]; constructor; [done|].
      eapply Forall_impl; [exact Hx|]. apply before_not_later.
    + apply NoDup_fmap_2; [by intros u v [= ->]|by apply before_nodup].
Qed.
End view.

(** C10. A lookup answers with exactly the pairs asked for, each once and in the
    order of the times, and changes nothing. Asked for are the pairs of the
    given handle, or of every handle for [Handle::UNDEFINED], whose time is
    related to the argument as the documentation of the criterion says; of
    these NEXT takes those at the earliest time, and PREVIOUS those at the
    latest one. The pointers it hands out are live objects with these times. *)
Theorem lookup_exact `{SetOrder} s S h t criterion :
  represents s S -> t_wf t ->
  exists r l, TS_get h t criterion s = (Ok r, s) /\ shows (table s) r l /\ NoDup l /\
    StronglySorted not_later (snd <$> l) /\
    let asked h' u := (h = UNDEFINED \/ h' = h) /\ (h', u) ∈ pairs S /\ related criterion t u = true in
    forall h' u, (h', u) ∈ l <-> asked h' u /\
      (is_next criterion = true -> forall k v, asked k v -> not_later u v) /\
      (is_previous criterion = true -> forall k v, asked k v -> not_later v u).
Proof.
  intros Hrep Ht. destruct (get_refines s S h t criterion Hrep (or_introl Ht)) as (r & E & Hr).
  destruct (spec_get_sorted s S Hrep h t criterion Ht) as [Hs Hd].
  exists r, (spec_get h t criterion S). do 4 (split; [done|]). intros asked h' u. unfold asked.
  destruct (decide (h = UNDEFINED)) as [->|Hh].
  - rewrite elem_of_spec_get_all, elem_of_found by (done || by apply (all_times_sorted s)).
    setoid_rewrite elem_of_all_times. naive_solver.
  - unfold spec_get. rewrite (proj2 (N.eqb_neq _ _)) by done. rewrite list_elem_of_fmap.
    setoid_rewrite elem_of_found; [|done|by apply (times_of_sorted s)].
    setoid_rewrite elem_of_times_of. naive_solver.
Qed.

(** C38. [clear] deletes every list cell and every [Temporal] exactly once:
    nothing of the old tables is left in the memory, no object is deleted
    twice, and the server is like a new one. *)
Theorem clear_frees_everything s S :
  represents s S -> exists s', TS_clear s = (Ok tt, s') /\
    entries (tt_mem (table s')) = ∅ /\ temporals (tt_mem (table s')) = ∅ /\
    represents s' spec_new.
Proof.
  intros Hrep. destruct (clear_refines s S Hrep) as (s' & E & Hrep' & He & Ht). by exists s'.
Qed.

(** The index table in a state that stores [times]: its array, whose first
    elements point to the cells [I], in the order of the times, of the sorted
    list [l] of all times. *)
Definition index_in_bounds (T : TemporalTable) (times : list Temporal) : Prop :=
  exists l I, lseg (tt_mem T) (sortedTemporalList T) l None /\ n_val <$> l = times /\
  Z.of_nat (length I) = indexTableCount T /\
  (indexTableCount T <= indexTableSize T)%Z /\
  Z.of_nat (length (temporalIndexTable T)) = indexTableSize T /\
  (0 <= 8 * pendingUpdateCount T <= Z.of_nat (length times))%Z /\
  (times <> [] -> I <> []) /\
  (forall i n, I !! i = Some n -> n ∈ l /\ temporalIndexTable T !! i = Some (Some (n_cell n))) /\
  (forall i j n k, i <= j -> I !! i = Some n -> I !! j = Some k -> not_later (n_val n) (n_val k)).

Lemma represents_index s S : represents s S -> index_in_bounds (table s) (all_times (pairs S)).
Proof.
  intros [(L & I & Hho & _) _]. set (T := table s). pose proof (ho_inv _ _ _ _ Hho) as [Hlo Hmo Hix].
  pose proof (ix_points _ _ _ Hix) as [Hc Hs Hat]. pose proof (ix_missing _ _ _ Hix) as Hm.
  pose proof (ix_rate _ _ _ Hix) as Hr. exists (L None), I.
  rewrite <- (all_times_list _ _ _ _ Hho), length_fmap. fold T in Hc, Hs, Hat, Hm, Hr |- *.
  assert (Hle : length I <= length (temporalIndexTable T)).
  { destruct I as [|n I _] using rev_ind; [simpl; lia|].
    pose proof (lookup_lt_Some _ _ _ (Hat (length I) n (list_lookup_middle I [] n _ eq_refl))) as Hlt.
    rewrite length_app. simpl. lia. }
  split; [apply (lo_list _ _ Hlo None)|]. split; [done|]. split; [done|]. split; [lia|]. split; [done|].
  split; [lia|]. split.
  { intros Hne. apply (idx_nonempty T (L None)); [done|]. intros HL. by rewrite HL in Hne. }
  split.
  - intros i n Hn. split; [|by apply Hat]. apply (ix_in _ _ _ Hix). by eapply list_elem_of_lookup_2.
  - intros i j n k Hij Hn Hk. destruct (ix_order _ _ _ Hix i j n k Hij Hn Hk) as [->|Hb].
    + apply not_later_refl.
    + by apply before_not_later.
Qed.

(** C11. The index table stays within its bounds and is never far behind the
    sorted list: after any admissible sequence of commands the count is at most
    the size, which is the length of the array; the elements below the count
    point to cells of the sorted list of all stored times, in its order;
    whenever times are stored the index is not empty, and the updates it has
    not seen are at most an eighth of the stored times. *)
Theorem index_table_bounds `{SetOrder} cs r s :
  all_admissible cs spec_new = true -> run cs TimeServer_new = (r, s) ->
  index_in_bounds (table s) (all_times (pairs (spec_run cs spec_new).2)).
Proof.
  intros Ha E. apply represents_index. destruct (run_refines cs TimeServer_new spec_new) as (s' & E' & Hrep).
  - apply new_represents; [split; by intros c [? ?]|done|done].
  - done.
  - rewrite E in E'. by injection E' as _ ->.
Qed.

(** ** Added times stay *)
Definition only_adds (c : command) : bool :=
  match c with Remove _ _ _ | Clear => false | _ => true end.

Lemma only_adds_keep `{SetOrder} cs : forall S h t,
  Forall (fun c => only_adds c = true) cs -> (h, t) ∈ pairs S -> (h, t) ∈ pairs (spec_run cs S).2.
Proof.
  induction cs as [|c cs IH]; intros S h t Hcs Hp; [done|].
  apply Forall_cons in Hcs as [Hc Hcs]. cbn [spec_run snd]. apply IH; [done|].
  destruct c; try done. simpl. set_solver.
Qed.

Lemma run_app `{SetOrder} cs1 cs2 s a s' :
  run cs1 s = (Ok a, s') -> run (cs1 ++ cs2) s = (r ← run cs2; mret (a ++ r)) s'.
Proof.
  revert s a. induction cs1 as [|c cs1 IH]; intros s a E.
  - injection E as <- <-. cbn [app]. unfold mbind, st_bind. by destruct (run cs2 s) as [[]].
  - cbn [app run] in *. unfold mbind, st_bind in *. destruct (run_step c s) as [[b| | |] s1]; try done.
    destruct (run cs1 s1) as [[r| | |] s2] eqn:E1; try done. injection E as <- ->.
    rewrite (IH _ _ E1). by destruct (run cs2 s') as [[]].
Qed.

(** A time that was added is found: after any sequence of further
    additions and lookups, the server answers the exact lookup of the handle
    and the time with that pair. *)
Theorem added_time_is_found `{SetOrder} s S h t cs :
  represents s S -> t_wf t -> h <> UNDEFINED ->
  Forall (fun c => only_adds c = true) cs -> all_admissible cs (spec_add h t S) = true ->
  exists answers s', run (Add h t :: cs ++ [Get h t EXACT]) s = (Ok (answers ++ [Found [(h, t)]]), s').
Proof.
  intros Hrep Ht Hh Hcs Hadm.
  destruct (run_refines (Add h t :: cs) s S Hrep) as (s1 & E1 & Hrep1).
  { cbn [all_admissible admissible spec_step snd]. by rewrite bool_decide_true. }
  destruct (run_refines [Get h t EXACT] s1 _ Hrep1) as (s2 & E2 & _).
  { simpl. unfold t_argb. by rewrite bool_decide_true. }
  eexists _, s2. change (Add h t :: cs ++ [Get h t EXACT]) with ((Add h t :: cs) ++ [Get h t EXACT]).
  rewrite (run_app _ _ _ _ _ E1). step (exact E2). cbn [spec_run fst snd spec_step].
  unfold mret, st_ret. do 5 f_equal. unfold spec_get. rewrite (proj2 (N.eqb_neq _ _)) by done.
  set (A := pairs _).
  assert (Hin : t ∈ times_of A h).
  { apply elem_of_times_of. cbn [spec_run spec_step snd] in *. apply only_adds_keep; [done|]. simpl. set_solver. }
  rewrite found_exact by (done || by eapply before_nodup, times_of_sorted). by rewrite decide_True.
Qed.

(** ** Refused times *)
Lemma undefined_not_stored s L A I : holds s L I A -> tm_find UNDEFINED_TEMPORAL s = None.
Proof.
  intros Hho. pose proof (ho_inv _ _ _ _ Hho) as [Hlo Hmo _]. unfold tm_find.
  destruct (temporalMap s !! t_key UNDEFINED_TEMPORAL) as [e|] eqn:E; [|done]. exfalso.
  destruct (mo_dom _ _ _ Hmo _ (mk_is_Some _ _ E)) as (n & Hn & Hkey).
  pose proof (list_wf _ _ _ _ Hlo Hn) as Hw. destruct (t_wf_bounds _ Hw) as [_ HU].
  unfold t_key in Hkey. injection Hkey as _ Hup Hnorm.
  assert (Hu : getUpperBound UNDEFINED_TEMPORAL = (2 * UINT_MAX)%N) by reflexivity.
  cbn in Hnorm. unfold isNormal in Hnorm. rewrite HU, Hnorm, Hu in Hup.
  unfold t_wf in Hw. rewrite Hnorm in Hw. unfold UNDEFINED_NORMAL, UINT_MAX in *. lia.
Qed.

(** The undefined temporal cannot be added: the copy that [add] makes of it
    is refused with [InvalidParamException] before anything is changed. *)
Theorem add_undefined_throws s S h :
  represents s S -> TS_add h UNDEFINED_TEMPORAL s = (Throw InvalidParamException, s).
Proof.
  intros [(L & I & Hho & _) _]. unfold TS_add.
  assert (E : TT_add h UNDEFINED_TEMPORAL (table s) = (Throw InvalidParamException, table s)).
  { unfold TT_add. step (done). unfold getKey. rewrite (undefined_not_stored _ _ _ _ Hho). reflexivity. }
  unfold mbind, st_bind, on_table. rewrite E. by destruct s.
Qed.

(** ** Runs *)
Definition uniform (a b : N) : Temporal := mkTemporal false a b.

Definition demo : list command :=
  [Add 1 (uniform 1 4); Add 1 (uniform 2 9); Add 2 (uniform 1 4); Add 2 (mkTemporal true 5 3);
   Get UNDEFINED (uniform 3 4) OVERLAPS; Get 1 UNDEFINED_TEMPORAL EXACT;
   Get UNDEFINED (uniform 2 9) PREVIOUS_BEFORE_END_OF; Remove UNDEFINED (uniform 1 4) EXACT;
   Get 2 (uniform 0 9) STARTS_WITHIN; Remove 1 (uniform 2 2) STARTS_WITHIN; Latest; Clear;
   Add 3 (uniform 6 7); Get UNDEFINED UNDEFINED_TEMPORAL EXACT].

Definition demo_add : list command :=
  [Add 1 (uniform 1 4); Add 1 (uniform 2 9); Add 2 (uniform 1 4); Add 2 (mkTemporal true 5 3)].
#[local] Existing Instance elements_order.
Definition demo_server : TimeServer := (run demo_add TimeServer_new).2.
Definition demo_spec : server := (spec_run demo_add spec_new).2.

Lemma demo_represents : represents demo_server demo_spec.
Proof.
  assert (Hnew : represents TimeServer_new spec_new)
    by (apply new_represents; [split; by intros c [? ?]|done|done]).
  destruct (run_refines demo_add TimeServer_new spec_new Hnew) as (s' & E & Hrep); [by vm_compute|].
  unfold demo_server. by rewrite E.
Qed.

(** Two removals leave a dangling pointer behind, so that the next addition
    for the handle follows it, which is undefined: removing the last of several
    times of a handle by its time, and removing the last time of a handle by a
    PREVIOUS criterion. The lookups before are right in both cases, and these
    removals are the ones that [admissible] excludes. *)
Theorem removal_leaves_dangling_tail :
  let by_time := [Add 1 (uniform 1 4); Add 1 (uniform 2 9); Remove UNDEFINED (uniform 2 9) EXACT] in
  let previous := [Add 1 (uniform 1 4); Remove 1 (uniform 5 6) PREVIOUS_BEFORE_START_OF] in
  (run by_time TimeServer_new).1 = Ok [Nothing; Nothing; Removed true] /\
  (run (by_time ++ [Add 1 (uniform 3 3)]) TimeServer_new).1 = Undef /\
  all_admissible by_time spec_new = false /\
  (run previous TimeServer_new).1 = Ok [Nothing; Removed true] /\
  (run (previous ++ [Add 1 (uniform 3 3)]) TimeServer_new).1 = Undef /\
  all_admissible previous spec_new = false.
Proof. by vm_compute. Qed.

(** ** Witnesses *)
Lemma time_server_refines_witness :
  (run demo TimeServer_new).1 =
  Ok [Nothing; Nothing; Nothing; Nothing;
      Found [(2%N, uniform 1 4); (1%N, uniform 1 4); (2%N, mkTemporal true 5 3); (1%N, uniform 2 9)];
      Found [(1%N, uniform 1 4); (1%N, uniform 2 9)];
      Found [(1%N, uniform 2 9)]; Removed true; Found [(2%N, mkTemporal true 5 3)]; Removed true;
      Timestamp 9; Nothing; Nothing; Found [(3%N, uniform 6 7)]].
Proof.
  destruct (time_server_refines demo) as (s' & E & _); [by vm_compute|].
  rewrite E. vm_compute. reflexivity.
Defined.

Lemma lookup_exact_witness :
  exists r l, TS_get UNDEFINED (uniform 3 4) OVERLAPS demo_server = (Ok r, demo_server) /\
    shows (table demo_server) r l /\ NoDup l /\ (2%N, uniform 1 4) ∈ l.
Proof.
  destruct (lookup_exact demo_server demo_spec UNDEFINED (uniform 3 4) OVERLAPS demo_represents)
    as (r & l & E & Hr & Hd & _ & Hl); [by vm_compute|].
  exists r, l. split; [exact E|]. split; [exact Hr|]. split; [exact Hd|].
  apply Hl. split; [|split; discriminate]. split; [by left|]. split; [|reflexivity].
  apply (bool_decide_unpack _). vm_compute. exact I.
Defined.

Lemma clear_frees_everything_witness :
  exists s', TS_clear demo_server = (Ok tt, s') /\ entries (tt_mem (table s')) = ∅.
Proof.
  destruct (clear_frees_everything demo_server demo_spec demo_represents) as (s' & E & He & _).
  exists s'. split; [exact E|exact He].
Defined.

Lemma index_table_bounds_witness :
  (indexTableCount (table demo_server) <= indexTableSize (table demo_server))%Z /\
  exists n, temporalIndexTable (table demo_server) !! 0 = Some (Some (n_cell n)).
Proof.
  destruct (index_table_bounds demo_add (run demo_add TimeServer_new).1 demo_server)
    as (l & I & _ & _ & Hc & Hle & _ & _ & Hne & Hat & _); [by vm_compute| |].
  { unfold demo_server. by destruct (run demo_add TimeServer_new). }
  split; [exact Hle|]. destruct I as [|n I].
  - by destruct Hne; [vm_compute|].
  - exists n. by apply (Hat 0 n).
Defined.

Lemma added_time_is_found_witness :
  exists answers s', run [Add 7 (uniform 4 8); Add 7 (uniform 1 4); Latest; Get 7 (uniform 4 8) EXACT] demo_server =
    (Ok (answers ++ [Found [(7%N, uniform 4 8)]]), s').
Proof.
  apply (added_time_is_found demo_server demo_spec 7 (uniform 4 8) [Add 7 (uniform 1 4); Latest] demo_represents);
    [by vm_compute|done|by repeat constructor|by vm_compute].
Defined.

Lemma add_undefined_throws_witness :
  TS_add 1 UNDEFINED_TEMPORAL demo_server = (Throw InvalidParamException, demo_server).
Proof. exact (add_undefined_throws demo_server demo_spec 1 demo_represents). Defined.
