(* ===== verification/SpaceServer.v ===== *)
(** The space server: src/opencog/atomspace/SpaceServer.cc and .h.

    A [LocalSpaceMap2D] (src/opencog/spatial) is a geometric index that the
    server only calls: it is the class [SpaceMap]. The object that owns the
    server and is told about its maps is the class [SpaceServerContainer], as
    in SpaceServerContainer.h; its state holds the server, because the
    container may call it back. *)
From S2P Require Import Prelude TruthValue.

(** [ObjectMetaData] of LocalSpaceMap2DUtil.h; [double] as in TruthValue.v. *)
Record ObjectMetadata := mkMetadata {
  centerX : float; centerY : float; centerZ : float;
  md_length : float; md_width : float; md_height : float; yaw : float
}.
Definition metadata_eq (x y : ObjectMetadata) : bool :=
  feq (centerX x) (centerX y) && feq (centerY x) (centerY y) && feq (centerZ x) (centerZ y) &&
  feq (md_length x) (md_length y) && feq (md_width x) (md_width y) &&
  feq (md_height x) (md_height y) && feq (yaw x) (yaw y).

(** The methods of [LocalSpaceMap2D] that the server calls. *)
Class SpaceMap (M : Type) := {
  map_new : forall (xMin xMax : float) (xDim : N) (yMin yMax : float) (yDim : N) (radius : float), M;
  map_clone : M -> M;
  map_eq : M -> M -> bool;
  map_xMin : M -> float;
  map_xMax : M -> float;
  map_yMin : M -> float;
  map_yMax : M -> float;
  copyObjects : M -> ST M unit;
  containsObject : string -> M -> bool;
  (** The position, the sizes and the roll of [getEntity(id)]. *)
  entityMetadata : string -> M -> res ObjectMetadata;
  map_isObstacle : string -> M -> bool;
  map_updateObject : string -> ObjectMetadata -> bool -> ST M unit;
  map_addObject : string -> ObjectMetadata -> bool -> ST M unit;
  map_removeObject : string -> ST M unit
}.

Record SpaceServer (M : Type) := mkSpaceServer {
  spaceMaps : gmap Handle M;
  sortedMapHandles : list Handle;
  persistentMapHandles : gset Handle;
  xMin : float; yMin : float; xMax : float; yMax : float;
  xDim : N; yDim : N;
  agentRadius : float
}.
Arguments mkSpaceServer {M}.
Arguments spaceMaps {M}.
Arguments sortedMapHandles {M}.
Arguments persistentMapHandles {M}.
Arguments xMin {M}.
Arguments yMin {M}.
Arguments xMax {M}.
Arguments yMax {M}.
Arguments xDim {M}.
Arguments yDim {M}.
Arguments agentRadius {M}.

Definition set_maps {M} (m : gmap Handle M) (s : SpaceServer M) := mkSpaceServer m (sortedMapHandles s)
  (persistentMapHandles s) (xMin s) (yMin s) (xMax s) (yMax s) (xDim s) (yDim s) (agentRadius s).
Definition set_sortedMaps {M} l (s : SpaceServer M) := mkSpaceServer (spaceMaps s) l
  (persistentMapHandles s) (xMin s) (yMin s) (xMax s) (yMax s) (xDim s) (yDim s) (agentRadius s).
Definition set_persistent {M} p (s : SpaceServer M) := mkSpaceServer (spaceMaps s) (sortedMapHandles s)
  p (xMin s) (yMin s) (xMax s) (yMax s) (xDim s) (yDim s) (agentRadius s).

(** ** The server alone *)
Section server.
Context {M : Type} `{SpaceMap M}.

(** 0.25 and 256 as [double]s. *)
Definition c_0_25 : float := f64_div (f64_of_Z 1) (f64_of_Z 4).
Definition SpaceServer_new : SpaceServer M :=
  mkSpaceServer ∅ [] ∅ f0 f0 (f64_of_Z 256) (f64_of_Z 256) 1024 1024 c_0_25.

Definition setAgentRadius (radius : float) (s : SpaceServer M) : SpaceServer M :=
  if negb (feq (agentRadius s) radius)
  then mkSpaceServer (spaceMaps s) (sortedMapHandles s) (persistentMapHandles s)
         (xMin s) (yMin s) (xMax s) (yMax s) (xDim s) (yDim s) radius
  else s.

Definition setMapBoundaries (x0 x1 y0 y1 : float) (dx dy : N) (s : SpaceServer M) : SpaceServer M :=
  mkSpaceServer (spaceMaps s) (sortedMapHandles s) (persistentMapHandles s)
    x0 y0 x1 y1 dx dy (agentRadius s).

Definition containsMap (h : Handle) (s : SpaceServer M) : bool :=
  bool_decide (is_Some (spaceMaps s !! h)).
Definition isLatestMapValid (s : SpaceServer M) : bool :=
  negb (bool_decide (sortedMapHandles s = [])).
Definition getLatestMapHandle (s : SpaceServer M) : Handle :=
  default UNDEFINED (last (sortedMapHandles s)).
(** The iterator that [find] returns is followed without a test. *)
Definition getLatestMap (s : SpaceServer M) : res M :=
  if isLatestMapValid s then of_opt (spaceMaps s !! getLatestMapHandle s)
  else Throw AssertionException.
Definition getOlderMapHandle (s : SpaceServer M) : Handle :=
  default UNDEFINED (head (sortedMapHandles s)).

(** [std::lower_bound]: the first position whose element is not below [h].
    The range must have the elements below [h] in front. *)
Fixpoint not_below (h : Handle) (l : list Handle) : nat :=
  match l with x :: l' => if (x <? h)%N then S (not_below h l') else O | [] => O end.
Definition lower_bound (l : list Handle) (h : Handle) : res nat :=
  let i := not_below h l in
  if forallb (fun x => (h <=? x)%N) (drop i l) then Ok i else Undef.

Definition getPreviousMapHandle (h : Handle) (s : SpaceServer M) : res Handle :=
  if (h =? UNDEFINED)%N then Ok UNDEFINED
  else
    itr ← lower_bound (sortedMapHandles s) h;
    match itr with
    | O => Ok UNDEFINED
    | S i => x ← of_opt (sortedMapHandles s !! itr);
             if (x =? h)%N then of_opt (sortedMapHandles s !! i) else Ok UNDEFINED
    end.
Definition getNextMapHandle (h : Handle) (s : SpaceServer M) : res Handle :=
  if (h =? UNDEFINED)%N then Ok UNDEFINED
  else
    itr ← lower_bound (sortedMapHandles s) h;
    x ← of_opt (sortedMapHandles s !! itr);
    if (x =? h)%N then Ok (default UNDEFINED (sortedMapHandles s !! S itr)) else Ok UNDEFINED.

(** [std::find] and [erase]; [None] when it is not there. *)
Fixpoint erase_first (h : Handle) (l : list Handle) : option (list Handle) :=
  match l with
  | [] => None
  | x :: l' => if (x =? h)%N then Some l' else r ← erase_first h l'; Some (x :: r)
  end.

(** [*itr_map] is read before the iterator is compared with the end. *)
Definition removeMap (h : Handle) (s : SpaceServer M) : res (SpaceServer M) :=
  match spaceMaps s !! h with
  | None => Ok s
  | Some _ => l ← of_opt (erase_first h (sortedMapHandles s));
              Ok (set_maps (delete h (spaceMaps s)) (set_sortedMaps l s))
  end.

Definition isMapPersistent (h : Handle) (s : SpaceServer M) : bool :=
  bool_decide (h ∈ persistentMapHandles s).
Definition getSpaceMapsSize (s : SpaceServer M) : nat := size (spaceMaps s).

(** Only the maps are cleared. *)
Definition SS_clear (s : SpaceServer M) : SpaceServer M := set_maps ∅ s.

(** An operation on the map of [h]. *)
Definition on_map {A} (h : Handle) (f : ST M A) : ST (SpaceServer M) A := fun s =>
  match spaceMaps s !! h with
  | None => (Undef, s)
  | Some m => let '(r, m') := f m in (r, set_maps (<[h := m']> (spaceMaps s)) s)
  end.

(** [std::map] is iterated in the order of its keys. *)
Definition removeObject (objectId : string) : ST (SpaceServer M) unit :=
  hs ← asks (fun s => merge_sort N.le (fst <$> map_to_list (spaceMaps s)));
  foreach (fun h => on_map h (map_removeObject objectId)) hs.
End server.

(** ** The server and its container *)

(** [printAtom h] stands for [TLB::getAtom(h)->toString()], which the log
    messages evaluate: it follows the pointer. *)
Class SpaceServerContainer (S M : Type) := {
  space_server : S -> SpaceServer M;
  set_space_server : SpaceServer M -> S -> S;
  mapRemoved : Handle -> ST S unit;
  mapPersisted : Handle -> ST S unit;
  printAtom : Handle -> ST S unit
}.

Section container.
Context {S M : Type} `{SpaceMap M} `{SpaceServerContainer S M}.

Definition on_server {A} (f : ST (SpaceServer M) A) : ST S A := fun s =>
  let '(r, ss) := f (space_server s) in (r, set_space_server ss s).

(** The messages print the atom of the handle, also the one of the exception. *)
Definition getMap (h : Handle) : ST S M :=
  _ ← (if (h =? UNDEFINED)%N then mret tt else printAtom h);
  found ← asks (fun s => spaceMaps (space_server s) !! h);
  match found with Some m => mret m | None => _ ← printAtom h; throw RuntimeException end.

(** The latest map leaves the server; the container is told. *)
Definition forgetMap (latestMapHandle : Handle) : ST S unit :=
  _ ← on_server (modst (fun ss =>
        set_maps (delete latestMapHandle (spaceMaps ss))
          (set_sortedMaps (removelast (sortedMapHandles ss)) ss)));
  mapRemoved latestMapHandle.

Definition persistMap (h : Handle) : ST S unit :=
  _ ← on_server (modst (fun ss => set_persistent ({[h]} ∪ persistentMapHandles ss) ss));
  mapPersisted h.

(** [*(sortedMapHandles.end() - 2)]. *)
Definition last_but_one (l : list Handle) : option Handle := last (removelast l).

(** When the dimensions match: whether the latest map object becomes the new
    map, and what happens to its old handle. *)
Definition reuse_latest (keepPreviousMap : bool) (spaceMapHandle latestMapHandle : Handle)
    (latestMap : M) : ST S bool :=
  sorted ← asks (fun s => sortedMapHandles (space_server s));
  persistent ← asks (fun s => isMapPersistent latestMapHandle (space_server s));
  let persist_latest :=
    _ ← persistMap latestMapHandle; _ ← printAtom latestMapHandle; mret false in
  if keepPreviousMap then
    if (1 <? length sorted)%nat && negb persistent then
      lastButOneMapHandle ← lift (of_opt (last_but_one sorted));
      lastButOneMap ← reads (fun s => of_opt (spaceMaps (space_server s) !! lastButOneMapHandle));
      if map_eq latestMap lastButOneMap then
        _ ← printAtom latestMapHandle;
        _ ← printAtom spaceMapHandle;
        _ ← forgetMap latestMapHandle;
        _ ← persistMap lastButOneMapHandle;
        _ ← printAtom lastButOneMapHandle;
        mret true
      else persist_latest
    else persist_latest
  else if negb persistent then
    _ ← printAtom latestMapHandle;
    _ ← printAtom spaceMapHandle;
    _ ← forgetMap latestMapHandle;
    mret true
  else mret false.

Definition fresh_map (ss : SpaceServer M) : M :=
  map_new (xMin ss) (xMax ss) (xDim ss) (yMin ss) (yMax ss) (yDim ss) (agentRadius ss).

(** The map for a handle that has none yet. *)
Definition make_map (keepPreviousMap : bool) (spaceMapHandle : Handle) : ST S M :=
  ss ← asks space_server;
  match last (sortedMapHandles ss) with
  | Some latestMapHandle =>
      latestMap ← lift (of_opt (spaceMaps ss !! latestMapHandle));
      if feq (map_xMin latestMap) (xMin ss) && feq (map_xMax latestMap) (xMax ss) &&
         feq (map_yMin latestMap) (yMin ss) && feq (map_yMax latestMap) (yMax ss) then
        mapReused ← reuse_latest keepPreviousMap spaceMapHandle latestMapHandle latestMap;
        if mapReused : bool then mret latestMap
        else _ ← printAtom spaceMapHandle; _ ← printAtom latestMapHandle; mret (map_clone latestMap)
      else
        _ ← printAtom spaceMapHandle;
        let '(r, map) := copyObjects latestMap (fresh_map ss) in
        _ ← lift r;
        _ ← (if keepPreviousMap then mret tt
             else _ ← printAtom latestMapHandle; forgetMap latestMapHandle);
        mret map
  | None => _ ← printAtom spaceMapHandle; mret (fresh_map ss)
  end.

(** The map is the one of [spaceMapHandle] afterwards. *)
Definition addOrGetSpaceMap (keepPreviousMap : bool) (spaceMapHandle : Handle) : ST S unit :=
  found ← asks (fun s => containsMap spaceMapHandle (space_server s));
  if found : bool then mret tt
  else
    map ← make_map keepPreviousMap spaceMapHandle;
    _ ← on_server (modst (fun ss =>
          set_maps (<[spaceMapHandle := map]> (spaceMaps ss))
            (set_sortedMaps (sortedMapHandles ss ++ [spaceMapHandle]) ss)));
    mapPersisted spaceMapHandle.

Definition SS_add_object (keepPreviousMap : bool) (spaceMapHandle : Handle) (objectId : string)
    (metadata : ObjectMetadata) (isObstacle : bool) : ST S bool :=
  _ ← addOrGetSpaceMap keepPreviousMap spaceMapHandle;
  map ← reads (fun s => of_opt (spaceMaps (space_server s) !! spaceMapHandle));
  let mapContainsObject := containsObject objectId map in
  needUpdate ← (if mapContainsObject then
                  oldMetadata ← lift (entityMetadata objectId map);
                  mret (negb (metadata_eq metadata oldMetadata) ||
                        negb (eqb isObstacle (map_isObstacle objectId map)))
                else mret false);
  if negb mapContainsObject || needUpdate then
    _ ← on_server (on_map spaceMapHandle
          (if mapContainsObject then map_updateObject objectId metadata isObstacle
           else map_addObject objectId metadata isObstacle));
    mret true
  else mret false.

Definition SS_add_map (spaceMapHandle : Handle) (map : M) : ST S unit :=
  _ ← printAtom spaceMapHandle;
  on_server (modst (fun ss =>
    set_maps (<[spaceMapHandle := map]> (spaceMaps ss))
      (set_sortedMaps (sortedMapHandles ss ++ [spaceMapHandle]) ss))).

Definition SS_remove (keepPreviousMap : bool) (spaceMapHandle : Handle) (objectId : string) : ST S unit :=
  _ ← addOrGetSpaceMap keepPreviousMap spaceMapHandle;
  map ← reads (fun s => of_opt (spaceMaps (space_server s) !! spaceMapHandle));
  if containsObject objectId map
  then on_server (on_map spaceMapHandle (map_removeObject objectId)) else mret tt.

Definition markMapAsPersistent (spaceMapHandle : Handle) : ST S unit :=
  found ← asks (fun s => containsMap spaceMapHandle (space_server s));
  if found : bool then persistMap spaceMapHandle
  else _ ← printAtom spaceMapHandle; throw RuntimeException.
End container.
