(* ===== verification/AtomSpace.v ===== *)
(** The atom space: src/opencog/atomspace/AtomSpace.cc and AtomSpace.h, the
    object that clients of the store hold. It joins an atom table, a time
    server and a space server, listens to the signals of the table, and keeps
    the funds of importance.

    The funds are [long]s; a sum of 16-bit importances overflows one only with
    more than 2^47 atoms, so they are integers here. *)
From S2P Require Import Prelude ClassServer TruthValue AttentionValue Atom TLB HandleEntry Index AtomTable Temporal TemporalEntry TemporalTable SpaceServer.
From Stdlib Require Import SpecFloat.

(** ** recent_val.h *)

(** The member [decay] is never written. *)
Record recent_val := mkRecent { rv_val : Z; rv_recent : float; rv_decay : float }.
Definition c_0_5 : float := f32_div (f32_of_Z 1) (f32_of_Z 2).
Definition recent_new : recent_val := mkRecent 0 f0 c_0_5.
Definition recent_update (x : Z) (r : recent_val) : recent_val :=
  mkRecent x (f32_add (f32_mul (rv_decay r) (f32_of_Z x))
                (f32_mul (f32_sub (f32_of_Z 1) (rv_decay r)) (rv_recent r)))
           (rv_decay r).

(** Conversion of a [float] to [short]: towards zero, undefined when the
    value does not fit. *)
Definition ftrunc (x : float) : option Z :=
  match x with
  | S754_zero _ => Some 0%Z
  | S754_finite s m e =>
      let z := (if (0 <=? e)%Z then Zpos m * 2 ^ e else Zpos m / 2 ^ (- e))%Z in
      Some (if s then Z.opp z else z)
  | _ => None
  end.
Definition short_of_float (x : float) : res Z :=
  match ftrunc x with
  | Some z => if (SHRT_MIN <=? z)%Z && (z <=? SHRT_MAX)%Z then Ok z else Undef
  | None => Undef
  end.

(** [std::min] and [std::max] of two floats. *)
Definition fmin (a b : float) : float := if flt b a then b else a.
Definition fmax (a b : float) : float := if flt a b then b else a.

(** ** The backing store

    BackingStore.h: what a persistent store does for the atom space. It may
    create objects; the result is a pointer, null when the store has no such
    atom. *)
Record BackingStore := mkStore {
  bs_getNode : N -> string -> ST TLB (option positive);
  bs_getLink : N -> list Handle -> ST TLB (option positive);
  bs_getAtom : Handle -> ST TLB (option positive);
  bs_getIncomingSet : Handle -> ST TLB (list Handle);
  bs_storeAtom : Handle -> ST TLB unit
}.

Record AtomSpace (M : Type) := mkAtomSpace {
  timeServer : TimeServer;
  atomTable : AtomTable;
  spaceServer : SpaceServer M;
  attentionalFocusBoundary : Z;
  maxSTI : recent_val;
  minSTI : recent_val;
  fundsSTI : Z;
  fundsLTI : Z;
  backing_store : option positive
}.
Arguments mkAtomSpace {M}.
Arguments timeServer {M}.
Arguments atomTable {M}.
Arguments spaceServer {M}.
Arguments attentionalFocusBoundary {M}.
Arguments maxSTI {M}.
Arguments minSTI {M}.
Arguments fundsSTI {M}.
Arguments fundsLTI {M}.
Arguments backing_store {M}.

Definition set_timeServer {M} x (s : AtomSpace M) := mkAtomSpace x (atomTable s) (spaceServer s)
  (attentionalFocusBoundary s) (maxSTI s) (minSTI s) (fundsSTI s) (fundsLTI s) (backing_store s).
Definition set_atomTable {M} x (s : AtomSpace M) := mkAtomSpace (timeServer s) x (spaceServer s)
  (attentionalFocusBoundary s) (maxSTI s) (minSTI s) (fundsSTI s) (fundsLTI s) (backing_store s).
Definition set_spaceServer {M} (x : SpaceServer M) (s : AtomSpace M) := mkAtomSpace (timeServer s) (atomTable s) x
  (attentionalFocusBoundary s) (maxSTI s) (minSTI s) (fundsSTI s) (fundsLTI s) (backing_store s).
Definition set_boundary {M} x (s : AtomSpace M) := mkAtomSpace (timeServer s) (atomTable s) (spaceServer s)
  x (maxSTI s) (minSTI s) (fundsSTI s) (fundsLTI s) (backing_store s).
Definition set_maxSTI {M} x (s : AtomSpace M) := mkAtomSpace (timeServer s) (atomTable s) (spaceServer s)
  (attentionalFocusBoundary s) x (minSTI s) (fundsSTI s) (fundsLTI s) (backing_store s).
Definition set_minSTI {M} x (s : AtomSpace M) := mkAtomSpace (timeServer s) (atomTable s) (spaceServer s)
  (attentionalFocusBoundary s) (maxSTI s) x (fundsSTI s) (fundsLTI s) (backing_store s).
Definition set_funds {M} sti lti (s : AtomSpace M) := mkAtomSpace (timeServer s) (atomTable s) (spaceServer s)
  (attentionalFocusBoundary s) (maxSTI s) (minSTI s) sti lti (backing_store s).
Definition set_store {M} x (s : AtomSpace M) := mkAtomSpace (timeServer s) (atomTable s) (spaceServer s)
  (attentionalFocusBoundary s) (maxSTI s) (minSTI s) (fundsSTI s) (fundsLTI s) x.

(** Operations of the parts. *)
Definition on_at {M A} (f : ST AtomTable A) : ST (AtomSpace M) A := fun s =>
  let '(r, t) := f (atomTable s) in (r, set_atomTable t s).
Definition on_ts {M A} (f : ST TimeServer A) : ST (AtomSpace M) A := fun s =>
  let '(r, t) := f (timeServer s) in (r, set_timeServer t s).
Definition on_ss {M A} (f : ST (SpaceServer M) A) : ST (AtomSpace M) A := fun s =>
  let '(r, t) := f (spaceServer s) in (r, set_spaceServer t s).
Definition on_tlb_of {M A} (f : ST TLB A) : ST (AtomSpace M) A :=
  on_at (fun s => let '(r, t) := f (tlb s) in (r, set_tlb t s)).

Module AS.
Section space.
Context `{SetOrder} (cs : ClassServer) (string_hash : string -> N).
Context {M : Type} `{SpaceMap M} (stores : positive -> BackingStore).

Definition SPACE_MAP_NODE_NAME : string := "SpaceMap".
Definition AT_TIME_LINK : N := ClassServer.getType cs "AtTimeLink".
Definition TIME_NODE : N := ClassServer.getType cs "TimeNode".
Definition CONCEPT_NODE : N := ClassServer.getType cs "ConceptNode".
Definition OBJECT_NODE : N := ClassServer.getType cs "ObjectNode".
Definition VARIABLE_NODE : N := ClassServer.getType cs "VariableNode".
Definition LIST_LINK : N := ClassServer.getType cs "ListLink".

(** The constructor; the funds come from the configuration. *)
Definition AtomSpace_new (t : TLB) (STARTING_STI_FUNDS STARTING_LTI_FUNDS : Z) : AtomSpace M :=
  mkAtomSpace TimeServer_new (AtomTable_new cs t) SpaceServer_new
    1 recent_new recent_new STARTING_STI_FUNDS STARTING_LTI_FUNDS None.

Definition registerBackingStore (bs : positive) : ST (AtomSpace M) unit := modst (set_store (Some bs)).
Definition unregisterBackingStore (bs : positive) : ST (AtomSpace M) unit :=
  modst (fun s => if bool_decide (backing_store s = Some bs) then set_store None s else s).
Definition storeAtom (h : Handle) : ST (AtomSpace M) unit :=
  bs ← asks backing_store;
  match bs with Some bs => on_tlb_of (bs_storeAtom (stores bs) h) | None => mret tt end.

(** *** Reading atoms *)
Definition the_tlb (s : AtomSpace M) : TLB := tlb (atomTable s).

(** [TLB::getAtom(h)->...]. *)
Definition atom (h : Handle) (s : AtomSpace M) : res Atom := of_opt (atomOf (the_tlb s) h).
(** A [dynamic_cast] of [TLB::getAtom(h)] to [Link] or [Node]: [None] is null. *)
Definition cast (ok : Atom -> bool) (h : Handle) (s : AtomSpace M) : res (option Atom) :=
  match getAtom (the_tlb s) h with
  | None => Ok None
  | Some p => a ← of_opt (heap (the_tlb s) !! p); Ok (if ok a then Some a else None)
  end.
Definition as_link := cast isLinkObj.
Definition as_node := cast isNodeObj.

Definition isValid (h : Handle) (s : AtomSpace M) : bool := isValidHandle (the_tlb s) h.

Definition getType (h : Handle) (s : AtomSpace M) : res N := a ← atom h s; Ok (a_type a).
Definition getName (h : Handle) (s : AtomSpace M) : res string :=
  o ← as_node h s; Ok match o with Some n => Atom.getName n | None => EmptyString end.
Definition getArity (h : Handle) (s : AtomSpace M) : res Z :=
  o ← as_link h s; Ok match o with Some l => Z.of_N (Atom.getArity l) | None => 0%Z end.
Definition getOutgoing_at (h : Handle) (idx : Z) (s : AtomSpace M) : res Handle :=
  o ← as_link h s;
  match o with
  | None => Throw ThrownPointer
  | Some l => if (Z.of_N (Atom.getArity l) <=? idx)%Z then Throw ThrownPointer
              else if (idx <? 0)%Z then Undef else of_opt (outgoing l !! Z.to_nat idx)
  end.
Definition getOutgoing (h : Handle) (s : AtomSpace M) : res (list Handle) :=
  o ← as_link h s; Ok match o with Some l => outgoing l | None => [] end.
Definition getIncoming (h : Handle) (s : AtomSpace M) : res (list Handle) :=
  a ← atom h s; Ok (HE.toHandleVector (a_incoming a)).
Definition setName (h : Handle) (name : string) : ST (AtomSpace M) unit :=
  o ← reads (as_node h);
  match o with
  | None => throw AssertionException
  | Some _ => on_at (on_tlb (on_atom h (Atom.setName name)))
  end.

Definition inheritsType (t1 t2 : N) : res bool := isA cs t1 t2.
Definition isNode (t : N) : res bool := inheritsType t (NODE cs).
Definition isVar (h : Handle) (s : AtomSpace M) : res bool := t ← getType h s; inheritsType t VARIABLE_NODE.
Definition isList (h : Handle) (s : AtomSpace M) : res bool := t ← getType h s; inheritsType t LIST_LINK.

(** The loop stops at the first member that contains a variable. *)
Fixpoint contains_loop (containsVar : Handle -> res bool) (l : list Handle) : res bool :=
  match l with
  | [] => Ok false
  | x :: l' => b ← containsVar x; if b : bool then Ok true else contains_loop containsVar l'
  end.
Fixpoint containsVar (fuel : nat) (h : Handle) (s : AtomSpace M) : res bool :=
  match fuel with
  | O => Fuel
  | S fuel' =>
      nnn ← as_node h s;
      match nnn with
      | Some _ => isVar h s
      | None => o ← as_link h s;
                contains_loop (fun x => containsVar fuel' x s)
                  match o with Some l => targets l | None => [] end
      end
  end.

Definition getHandle_node (t : N) (str : string) (s : AtomSpace M) : res Handle :=
  getHandle_name (c_str str) t (atomTable s).
Definition getHandle_link (t : N) (outg : list Handle) (s : AtomSpace M) : res Handle :=
  getHandle_seq t outg (atomTable s).

(** *** Truth values *)
Definition isInvalid (s : AtomSpace M) (h : Handle) : bool := isInvalidHandle (the_tlb s) h.

Definition getTV (h : Handle) (vh : VersionHandle) (s : AtomSpace M) : res TruthValue :=
  if isInvalid s h then Ok NullTV
  else
    a ← atom h s;
    if isNullVersionHandle (isInvalid s) vh then Ok (a_truthValue a)
    else
      t ← getType_tv (a_truthValue a);
      if (t =? COMPOSITE_TRUTH_VALUE)%Z then
        match a_truthValue a with
        | CompositeTV p vs => getVersionedTV (isInvalid s) vh p vs
        | _ => Undef
        end
      else Ok NullTV.

(** [TLB::getAtom(h)->setTruthValue(tv)]. *)
Definition put_tv (h : Handle) (tv : TruthValue) : ST (AtomSpace M) unit :=
  on_at (on_tlb (on_atom h (setTruthValue tv))).

(** A composite value with [tv] for the version [vh]. *)
Definition with_version (s : AtomSpace M) (tv : TruthValue) (vh : VersionHandle) (ctv : TruthValue)
    : res TruthValue :=
  match ctv with
  | CompositeTV p vs => r ← setVersionedTV (isInvalid s) tv vh p vs; Ok (CompositeTV r.1 r.2)
  | _ => Undef
  end.

Definition setTV (h : Handle) (tv : TruthValue) (vh : VersionHandle) : ST (AtomSpace M) unit :=
  currentTv ← reads (getTV h NULL_VERSION_HANDLE);
  nullvh ← asks (fun s => isNullVersionHandle (isInvalid s) vh);
  ct ← lift (getType_tv currentTv);
  if negb nullvh then
    ctv ← reads (fun s => c ← (if (ct =? COMPOSITE_TRUTH_VALUE)%Z then clone currentTv
                               else composite_init (isInvalid s) currentTv NULL_VERSION_HANDLE);
                          with_version s tv vh c);
    put_tv h ctv
  else if (ct =? COMPOSITE_TRUTH_VALUE)%Z then
    t ← lift (getType_tv tv);
    if negb (t =? COMPOSITE_TRUTH_VALUE)%Z then
      ctv ← reads (fun s => c ← clone currentTv; with_version s tv vh c);
      put_tv h ctv
    else put_tv h tv
  else put_tv h tv.

(** [setMean] of a simple or an indefinite value. *)
Definition tv_setMean (mean : float) (tv : TruthValue) : res TruthValue :=
  match tv with
  | SimpleTV _ c => Ok (SimpleTV mean c)
  | IndefiniteTV i => Ok (IndefiniteTV (itv_setMean mean i))
  | NullTV => Throw RuntimeException
  | _ => Throw InvalidParamException
  end.
Definition setMean (h : Handle) (mean : float) : ST (AtomSpace M) unit :=
  tv ← reads (getTV h NULL_VERSION_HANDLE);
  newTv ← lift (clone tv);
  newTv ← reads (fun s =>
    match newTv with
    | CompositeTV p vs =>
        primaryTv ← getVersionedTV (isInvalid s) NULL_VERSION_HANDLE p vs;
        primaryTv ← clone primaryTv;
        primaryTv ← tv_setMean mean primaryTv;
        with_version s primaryTv NULL_VERSION_HANDLE newTv
    | _ => tv_setMean mean newTv
    end);
  setTV h newTv NULL_VERSION_HANDLE.

Definition containsVersionedTV (h : Handle) (vh : VersionHandle) (s : AtomSpace M) : res bool :=
  if isNullVersionHandle (isInvalid s) vh then Ok true
  else
    tv ← getTV h NULL_VERSION_HANDLE s;
    if isNullTv tv then Ok false
    else match tv with
         | CompositeTV p vs => v ← getVersionedTV (isInvalid s) vh p vs; Ok (negb (isNullTv v))
         | _ => Ok false
         end.

Definition do_merge_tv (h : Handle) (tvn : TruthValue) : ST (AtomSpace M) unit :=
  currentTV ← reads (getTV h NULL_VERSION_HANDLE);
  if isNullTv currentTV then setTV h tvn NULL_VERSION_HANDLE
  else mergedTV ← lift (TruthValue.merge currentTV tvn); setTV h mergedTV NULL_VERSION_HANDLE.

(** *** Attention values *)
Definition holder (p : positive) (s : AtomSpace M) : res AttentionValue :=
  a ← of_opt (heap (the_tlb s) !! p); Ok (a_attentionValue a).
(** The handle variants start with [TLB::getAtom(h)]. *)
Definition pointer (h : Handle) (s : AtomSpace M) : res positive := of_opt (getAtom (the_tlb s) h).

Definition setAV (p : positive) (av : AttentionValue) : ST (AtomSpace M) unit :=
  oldAV ← reads (holder p);
  _ ← modst (fun s => set_funds (fundsSTI s + (getSTI oldAV - getSTI av))
                        (fundsLTI s + (getLTI oldAV - getLTI av)) s);
  on_at (setAttentionValue p av).
Definition setAV_at (h : Handle) (av : AttentionValue) : ST (AtomSpace M) unit :=
  p ← reads (pointer h); setAV p av.

Definition setSTI (h : Handle) (stiValue : Z) : ST (AtomSpace M) unit :=
  p ← reads (pointer h);
  currentAv ← reads (holder p);
  setAV p (AV_new stiValue (getLTI currentAv) (getVLTI currentAv)).
Definition setLTI (h : Handle) (ltiValue : Z) : ST (AtomSpace M) unit :=
  p ← reads (pointer h);
  currentAv ← reads (holder p);
  setAV p (AV_new (getSTI currentAv) ltiValue (getVLTI currentAv)).
Definition setVLTI (h : Handle) (vltiValue : N) : ST (AtomSpace M) unit :=
  p ← reads (pointer h);
  currentAv ← reads (holder p);
  setAV p (AV_new (getSTI currentAv) (getLTI currentAv) vltiValue).

Definition getAV (h : Handle) (s : AtomSpace M) : res AttentionValue := p ← pointer h s; holder p s.
Definition getSTI_at (h : Handle) (s : AtomSpace M) : res Z := av ← getAV h s; Ok (getSTI av).
Definition getLTI_at (h : Handle) (s : AtomSpace M) : res Z := av ← getAV h s; Ok (getLTI av).
Definition getVLTI_at (h : Handle) (s : AtomSpace M) : res N := av ← getAV h s; Ok (getVLTI av).

Definition setAttentionalFocusBoundary (b : Z) : ST (AtomSpace M) Z :=
  _ ← modst (set_boundary b); mret b.
Definition updateMaxSTI (m : Z) : ST (AtomSpace M) unit :=
  modst (fun s => set_maxSTI (recent_update m (maxSTI s)) s).
Definition updateMinSTI (m : Z) : ST (AtomSpace M) unit :=
  modst (fun s => set_minSTI (recent_update m (minSTI s)) s).
Definition recent_get (average : bool) (r : recent_val) : res Z :=
  if average then short_of_float (rv_recent r) else Ok (rv_val r).
Definition getMaxSTI (average : bool) (s : AtomSpace M) : res Z := recent_get average (maxSTI s).
Definition getMinSTI (average : bool) (s : AtomSpace M) : res Z := recent_get average (minSTI s).

(** The quotient, clipped to the interval from [lo] to 1. *)
Definition normalised (clip : bool) (lo num normaliser : Z) : float :=
  if (normaliser =? 0)%Z then f0
  else
    let val := f32_div (f32_of_Z num) (f32_of_Z normaliser) in
    if clip then fmax (f32_of_Z lo) (fmin val (f32_of_Z 1)) else val.
Definition getNormalisedSTI (h : Handle) (average clip : bool) (s : AtomSpace M) : res float :=
  sti ← getSTI_at h s;
  let b := attentionalFocusBoundary s in
  if (b <? sti)%Z then
    m ← getMaxSTI average s; Ok (normalised clip (-1) (sti - b) (m - b))
  else
    m ← getMinSTI average s; Ok (normalised clip (-1) (sti + b) (- (m + b))).
Definition getNormalisedZeroToOneSTI (h : Handle) (average clip : bool) (s : AtomSpace M) : res float :=
  sti ← getSTI_at h s;
  mx ← getMaxSTI average s;
  mn ← getMinSTI average s;
  Ok (normalised clip 0 (sti - mn) (mx - mn)).

(** The sum over all atoms, in [long]. *)
Definition total (f : Handle -> AtomSpace M -> res Z) (s : AtomSpace M) : res Z :=
  hs ← getHandleSet_type cs (atomTable s) (ATOM cs) true;
  rfold (fun sum h => v ← f h s; Ok (sum + v)%Z) 0%Z hs.
Definition getTotalSTI : AtomSpace M -> res Z := total getSTI_at.
Definition getTotalLTI : AtomSpace M -> res Z := total getLTI_at.
Definition Nodes (vh : VersionHandle) (s : AtomSpace M) : res nat :=
  hs ← getHandleSet_type_vh cs (atomTable s) (NODE cs) true vh; Ok (length hs).
Definition Links (vh : VersionHandle) (s : AtomSpace M) : res nat :=
  hs ← getHandleSet_type_vh cs (atomTable s) (LINK cs) true vh; Ok (length hs).

(** *** The handlers of the signals *)
Definition atomAdded (h : Handle) : ST (AtomSpace M) unit :=
  type ← reads (getType h);
  if (type =? AT_TIME_LINK)%N then
    arity ← reads (getArity h);
    if (arity =? 2)%Z then
      timeNode ← reads (getOutgoing_at h 0);
      ttype ← reads (getType timeNode);
      if (ttype =? TIME_NODE)%N then
        timeNodeName ← reads (getName timeNode);
        t ← lift (getFromTimeNodeName (c_str timeNodeName));
        timed_h ← reads (getOutgoing_at h 1);
        on_ts (TS_add timed_h t)
      else mret tt
    else mret tt
  else mret tt.

Definition atomRemoved (h : Handle) : ST (AtomSpace M) unit :=
  type ← reads (getType h);
  if (type =? AT_TIME_LINK)%N then
    arity ← reads (getArity h);
    if negb (arity =? 2)%Z then throw AssertionException
    else
      timeNode ← reads (getOutgoing_at h 0);
      ttype ← reads (getType timeNode);
      if negb (ttype =? TIME_NODE)%N then throw AssertionException
      else
        timedAtom ← reads (getOutgoing_at h 1);
        node ← reads (atom timeNode);
        t ← lift (getFromTimeNodeName (c_str (Atom.getName node)));
        _ ← on_ts (TS_remove timedAtom t EXACT);
        spaceMapNode ← reads (getHandle_node CONCEPT_NODE SPACE_MAP_NODE_NAME);
        if (spaceMapNode =? timedAtom)%N
        then on_ss (modify (removeMap h)) else mret tt
  else
    isObject ← lift (inheritsType type OBJECT_NODE);
    if isObject : bool then name ← reads (getName h); on_ss (removeObject name)
    else mret tt.

(** [atomTable.add(p)]. The table sends its signal as the last thing it does,
    so the handler runs on the state it leaves. *)
Definition table_add (p : positive) : ST (AtomSpace M) Handle :=
  sent ← asks (fun s => length (signals (atomTable s)));
  h ← on_at (AtomTable.add string_hash p true);
  new ← asks (fun s => drop sent (signals (atomTable s)));
  _ ← foreach (fun sig => match sig with AddAtomSignal x => atomAdded x | _ => mret tt end) new;
  mret h.

(** One round of [removeExtractedHandles]: the signal is sent before the atom
    leaves the TLB, so the handler still sees it. *)
Definition table_removeExtracted (h : Handle) : ST (AtomSpace M) unit :=
  _ ← atomRemoved h; on_at (removeExtracted h).

(** *** Adding and removing atoms *)
Definition removeAtom (h : Handle) (recursive : bool) : ST (AtomSpace M) bool :=
  fuel ← asks (fun s => extract_fuel (atomTable s));
  extractedHandles ← on_at (extract string_hash fuel recursive h);
  match extractedHandles with
  | [] => mret false
  | _ =>
      _ ← foreach (fun x =>
            sti ← reads (getSTI_at x);
            lti ← reads (getLTI_at x);
            modst (fun s => set_funds (fundsSTI s + sti) (fundsLTI s + lti) s)) extractedHandles;
      _ ← foreach table_removeExtracted (rev (HE.toHandleVector extractedHandles));
      mret true
  end.

(** [new Node(...)], [new Link(...)]. *)
Definition new_object (a : res Atom) : ST (AtomSpace M) positive :=
  a ← lift a; on_tlb_of (fun t => let '(p, t) := new_atom a t in (Ok p, t)).

(** What the backing store knows. *)
Definition from_store (query : BackingStore -> ST TLB (option positive)) : ST (AtomSpace M) (option positive) :=
  bs ← asks backing_store;
  match bs with Some bs => on_tlb_of (query (stores bs)) | None => mret None end.

(** An atom that is not in the table yet, from the store or new. *)
Definition add_atom (query : BackingStore -> ST TLB (option positive)) (a : res Atom) (tvn : TruthValue)
    : ST (AtomSpace M) Handle :=
  _ ← modst (fun s => set_funds (fundsSTI s - DEFAULTATOMSTI) (fundsLTI s - DEFAULTATOMLTI) s);
  stored ← from_store query;
  match stored with
  | Some p =>
      obj ← reads (fun s => of_opt (heap (the_tlb s) !! p));
      result ← lift (getHandle_tlb obj);
      _ ← (if negb (isNullTv tvn) then do_merge_tv result tvn else mret tt);
      table_add p
  | None => p ← new_object a; table_add p
  end.

Definition addNode (t : N) (name : string) (tvn : TruthValue) : ST (AtomSpace M) Handle :=
  result ← reads (getHandle_node t name);
  valid ← asks (isValid result);
  if valid : bool then _ ← on_at (AtomTable.merge result tvn); mret result
  else add_atom (fun bs => bs_getNode bs t (c_str name)) (Node_new cs t name tvn) tvn.

Definition addLink (t : N) (outg : list Handle) (tvn : TruthValue) : ST (AtomSpace M) Handle :=
  result ← reads (getHandle_link t outg);
  valid ← asks (isValid result);
  if valid : bool then _ ← on_at (AtomTable.merge result tvn); mret result
  else add_atom (fun bs => bs_getLink bs t outg) (Link_new cs t outg tvn) tvn.

Definition createHandle_node (t : N) (str : string) : ST (AtomSpace M) Handle :=
  h ← reads (getHandle_node t str);
  valid ← asks (isValid h);
  if valid : bool then mret h else addNode t str NullTV.
Definition createHandle_link (t : N) (outg : list Handle) : ST (AtomSpace M) Handle :=
  h ← reads (getHandle_link t outg);
  valid ← asks (isValid h);
  if valid : bool then mret h else addLink t outg NullTV.

(** The truth value of an atom that is there already. *)
Definition add_real_tv (result : Handle) (newTV : TruthValue) : ST (AtomSpace M) Handle :=
  currentTV ← reads (getTV result NULL_VERSION_HANDLE);
  _ ← (if isNullTv currentTV then setTV result newTV NULL_VERSION_HANDLE
       else mergedTV ← lift (TruthValue.merge currentTV newTV);
            setTV result mergedTV NULL_VERSION_HANDLE);
  mret result.
Definition addRealAtom (a : Atom) (tvn : TruthValue) : ST (AtomSpace M) Handle :=
  let newTV := if isNullTv tvn then a_truthValue a else tvn in
  match a_body a with
  | NodeBody name =>
      result ← reads (getHandle_node (a_type a) name);
      valid ← asks (isValid result);
      if valid : bool then add_real_tv result newTV else addNode (a_type a) name newTV
  | LinkBody outg _ =>
      result ← reads (getHandle_link (a_type a) outg);
      valid ← asks (isValid result);
      if valid : bool then add_real_tv result newTV else addLink (a_type a) outg newTV
  end.

(** [fetchAtom]: the atoms of an outgoing set come first. *)
Fixpoint fetch_all (fetchAtom : Handle -> ST (AtomSpace M) Handle) (ogs : list Handle)
    : ST (AtomSpace M) unit :=
  match ogs with
  | [] => mret tt
  | x :: ogs' =>
      oh ← fetchAtom x;
      if negb (oh =? x)%N then throw ThrownPointer else fetch_all fetchAtom ogs'
  end.
Fixpoint fetchAtom (fuel : nat) (h : Handle) : ST (AtomSpace M) Handle :=
  match fuel with
  | O => nofuel
  | S fuel' =>
      let fetch p :=
        a ← reads (fun s => of_opt (heap (the_tlb s) !! p));
        _ ← fetch_all (fetchAtom fuel') (outgoing a);
        table_add p in
      held ← reads (fun s => AtomTable.holds h (atomTable s));
      if held : bool then mret h
      else
        valid ← asks (isValid h);
        if valid : bool then p ← reads (pointer h); fetch p
        else
          stored ← from_store (fun bs => bs_getAtom bs h);
          match stored with Some p => fetch p | None => mret UNDEFINED end
  end.

Fixpoint fetchIncomingSet (fuel : nat) (h : Handle) (recursive : bool) : ST (AtomSpace M) Handle :=
  match fuel with
  | O => nofuel
  | S fuel' =>
      base ← fetchAtom fuel h;
      if (base =? UNDEFINED)%N then mret UNDEFINED
      else
        bs ← asks backing_store;
        _ ← match bs with
            | None => mret tt
            | Some bs =>
                iset ← on_tlb_of (bs_getIncomingSet (stores bs) h);
                foreach (fun hi => _ ← (if recursive then fetchIncomingSet fuel' hi true
                                        else fetchAtom fuel hi); mret tt) iset
            end;
        mret base
  end.

Definition AS_decayShortTermImportance (minSTI : Z) : ST (AtomSpace M) unit :=
  on_at (decayShortTermImportance string_hash minSTI).

(** *** Times *)
Definition addTimeInfo_name (h : Handle) (timeNodeName : string) (tv : TruthValue) : ST (AtomSpace M) Handle :=
  timeNode ← addNode TIME_NODE (c_str timeNodeName) DEFAULT_TV;
  addLink AT_TIME_LINK [timeNode; h] tv.
Definition addTimeInfo_at (h : Handle) (timestamp : N) (tv : TruthValue) : ST (AtomSpace M) Handle :=
  valid ← asks (isValid h);
  if negb valid then throw AssertionException
  else addTimeInfo_name h (getTimeNodeName_at timestamp) tv.
Definition addTimeInfo (h : Handle) (t : Temporal) (tv : TruthValue) : ST (AtomSpace M) Handle :=
  valid ← asks (isValid h);
  if negb valid then throw AssertionException
  else if negb (T_ne t UNDEFINED_TEMPORAL) then throw AssertionException
  else addTimeInfo_name h (getTimeNodeName t) tv.

Definition getTimeInfo (h : Handle) (t : Temporal) (criterion : TemporalRelationship)
    : ST (AtomSpace M) (list HandleTemporalPair) := on_ts (TS_get h t criterion).

(** The name of the time is read through the pointer of the pair. *)
Definition getAtTimeLink (htp : HandleTemporalPair) (s : AtomSpace M) : res Handle :=
  t ← of_opt (temporals (tt_mem (table (timeServer s))) !! htp.2);
  timeNode ← getHandle_node TIME_NODE (c_str (getTimeNodeName t)) s;
  if isValid timeNode s then
    atTimeLinks ← getHandleSet_handles_vh cs string_hash (atomTable s) [timeNode; htp.1] None None 2
                    AT_TIME_LINK false NULL_VERSION_HANDLE;
    Ok (default UNDEFINED (head atTimeLinks))
  else Ok UNDEFINED.

(** One round of the loop of [removeTimeInfo]: whether the link was removed. *)
Definition remove_time_link (htp : HandleTemporalPair) (removeDisconnectedTimeNodes recursive : bool)
    : ST (AtomSpace M) bool :=
  atTimeLink ← reads (getAtTimeLink htp);
  valid ← asks (isValid atTimeLink);
  if valid : bool then
    timeNode ← reads (getOutgoing_at atTimeLink 0);
    arity ← reads (getArity atTimeLink);
    if negb (arity =? 2)%Z then throw AssertionException
    else
      ok ← reads (fun s => if isValid timeNode s
                           then t ← getType timeNode s; Ok (t =? TIME_NODE)%N else Ok false);
      if negb ok then throw AssertionException
      else
        removed ← removeAtom atTimeLink recursive;
        if removed : bool then
          _ ← (if removeDisconnectedTimeNodes then
                 incoming ← reads (getIncoming timeNode);
                 match incoming with
                 | [] => _ ← removeAtom timeNode false; mret tt
                 | _ => mret tt
                 end
               else mret tt);
          mret true
        else mret false
  else mret false.

Fixpoint remove_time_links (l : list HandleTemporalPair) (removeDisconnectedTimeNodes recursive result : bool)
    : ST (AtomSpace M) bool :=
  match l with
  | [] => mret result
  | htp :: l' =>
      removed ← remove_time_link htp removeDisconnectedTimeNodes recursive;
      remove_time_links l' removeDisconnectedTimeNodes recursive (if removed : bool then result else false)
  end.
Definition removeTimeInfo (h : Handle) (t : Temporal) (criterion : TemporalRelationship)
    (removeDisconnectedTimeNodes recursive : bool) : ST (AtomSpace M) bool :=
  existingEntries ← getTimeInfo h t criterion;
  remove_time_links existingEntries removeDisconnectedTimeNodes recursive
    (negb (bool_decide (existingEntries = []))).
Definition removeTimeInfo_at (h : Handle) (timestamp : N) (criterion : TemporalRelationship)
    (removeDisconnectedTimeNodes recursive : bool) : ST (AtomSpace M) bool :=
  t ← lift (Temporal_at timestamp);
  removeTimeInfo h t criterion removeDisconnectedTimeNodes recursive.

(** *** Maps of space *)
Definition getSpaceMapNode : ST (AtomSpace M) Handle :=
  result ← reads (getHandle_node CONCEPT_NODE SPACE_MAP_NODE_NAME);
  if (result =? UNDEFINED)%N then
    result ← addNode CONCEPT_NODE SPACE_MAP_NODE_NAME DEFAULT_TV;
    _ ← setLTI result 1; mret result
  else
    lti ← reads (getLTI_at result);
    _ ← (if (lti <? 1)%Z then setLTI result 1 else mret tt); mret result.

(** The atom space as the container of its space server. *)
#[export] Instance container : SpaceServerContainer (AtomSpace M) M := {
  space_server := spaceServer;
  set_space_server := set_spaceServer;
  mapRemoved := fun mapId => _ ← removeAtom mapId false; mret tt;
  mapPersisted := fun mapId => setLTI mapId 1;
  printAtom := fun h => _ ← reads (atom h); mret tt
}.
Definition getMapIdString (mapHandle : Handle) (s : AtomSpace M) : res string :=
  x ← getOutgoing_at mapHandle 0 s; getName x s.

(** The node of the maps and the link that stands for the map of a time. *)
Definition space_map_link (timestamp : N) : ST (AtomSpace M) Handle :=
  spaceMapNode ← getSpaceMapNode; addTimeInfo_at spaceMapNode timestamp NullTV.
Definition addSpaceInfo (keepPreviousMap : bool) (objectNode : Handle) (timestamp : N)
    (obj : ObjectMetadata) (isObstacle : bool) : ST (AtomSpace M) bool :=
  l ← space_map_link timestamp;
  name ← reads (getName objectNode);
  SS_add_object keepPreviousMap l name obj isObstacle.
Definition addSpaceMap (timestamp : N) (spaceMap : M) : ST (AtomSpace M) Handle :=
  l ← space_map_link timestamp;
  _ ← SS_add_map l spaceMap; mret l.
Definition removeSpaceInfo (keepPreviousMap : bool) (objectNode : Handle) (timestamp : N)
    : ST (AtomSpace M) Handle :=
  l ← space_map_link timestamp;
  name ← reads (getName objectNode);
  _ ← SS_remove keepPreviousMap l name; mret l.

(** Without pairs the bound [pairs.size() - 1] wraps around and the first
    access is out of range. *)
Definition cleanup_map (htp : HandleTemporalPair) : ST (AtomSpace M) unit :=
  mapHandle ← reads (getAtTimeLink htp);
  ss ← asks spaceServer;
  if negb (containsMap mapHandle ss) || negb (isMapPersistent mapHandle ss) then
    _ ← reads (atom mapHandle);
    _ ← removeAtom mapHandle true; mret tt
  else mret tt.
Definition cleanupSpaceServer : ST (AtomSpace M) unit :=
  n ← asks (fun s => getSpaceMapsSize (spaceServer s));
  if (n <? 1)%nat then mret tt
  else
    spaceMapNode ← getSpaceMapNode;
    pairs ← getTimeInfo spaceMapNode UNDEFINED_TEMPORAL EXACT;
    match pairs with [] => undef | _ => foreach cleanup_map (removelast pairs) end.

Definition getMapHandles (startMoment endMoment : N) : ST (AtomSpace M) (list Handle) :=
  t ← lift (Temporal_new startMoment endMoment false);
  spaceMapNode ← reads (getHandle_node CONCEPT_NODE SPACE_MAP_NODE_NAME);
  if negb (spaceMapNode =? UNDEFINED)%N then
    before ← getTimeInfo spaceMapNode t PREVIOUS_BEFORE_START_OF;
    inside ← getTimeInfo spaceMapNode t STARTS_WITHIN;
    reads (fun s => rfold (fun out htp => x ← getAtTimeLink htp s; Ok (out ++ [x])) [] (before ++ inside))
  else mret [].

(** *** clear *)
Definition AS_clear : ST (AtomSpace M) unit :=
  allAtoms ← reads (fun s => getHandleSet_type_vh cs (atomTable s) (ATOM cs) true NULL_VERSION_HANDLE);
  _ ← foreach (fun h => _ ← removeAtom h true; mret tt) allAtoms;
  rest ← reads (fun s => getHandleSet_type_vh cs (atomTable s) (ATOM cs) true NULL_VERSION_HANDLE);
  (* the [assert] at the end stops the program *)
  match rest with [] => mret tt | _ => undef end.
End space.
End AS.
