(* ===== verification/SpaceInv.v ===== *)
(** The invariant of an atom space (src/opencog/atomspace/AtomSpace.cc): what
    joins the atom table, the time server and the space server, and what the
    facade reads from a state.

    The time server holds exactly the pairs of the live AtTimeLinks, which the
    handlers of the signals keep so, and the funds with the importance of all
    live atoms add up to what the space started with. *)
From S2P Require Import Prelude ClassServer TruthValue AttentionValue Atom TLB HandleEntry Index IndexSpec AtomTable TableInv TableRemove TableAdd TableProps Temporal TemporalEntry TimeSpec TemporalTable TimeRefine SpaceServer AtomSpace.

(** ** Sums over the live atoms *)
Definition zsum (f : Handle -> Z) (l : list Handle) : Z := foldr (fun h z => (f h + z)%Z) 0%Z l.
Definition gsum (f : Handle -> Z) (X : gset Handle) : Z := zsum f (elements X).

Lemma zsum_app f l1 l2 : zsum f (l1 ++ l2) = (zsum f l1 + zsum f l2)%Z.
Proof. induction l1 as [|x l1 IH]; [done|]. simpl. rewrite IH. lia. Qed.

#[export] Instance zsum_perm f : Proper ((≡ₚ) ==> eq) (zsum f).
Proof. intros l1 l2 H. unfold zsum. apply (foldr_permutation_proper eq); [apply _|lia|done]. Qed.

Lemma zsum_ext f g l : (forall h, h ∈ l -> f h = g h) -> zsum f l = zsum g l.
Proof.
  induction l as [|x l IH]; intros H; [done|]. simpl. rewrite (H x ltac:(left)). f_equal.
  apply IH. intros h Hh. apply H. by right.
Qed.

Lemma gsum_ext f g X : (forall h, h ∈ X -> f h = g h) -> gsum f X = gsum g X.
Proof. intros H. apply zsum_ext. intros h Hh%elem_of_elements. by apply H. Qed.

Lemma gsum_insert f h X : h ∉ X -> gsum f ({[h]} ∪ X) = (f h + gsum f X)%Z.
Proof. intros Hh. unfold gsum. by rewrite elements_union_singleton. Qed.

Lemma gsum_split f l X :
  NoDup l -> (forall h, h ∈ l -> h ∈ X) -> gsum f X = (zsum f l + gsum f (X ∖ list_to_set l))%Z.
Proof.
  intros Hd Hl. assert (HX : X = list_to_set l ∪ X ∖ list_to_set l).
  { apply union_difference_L. intros h Hh%elem_of_list_to_set. by apply Hl. }
  unfold gsum. rewrite HX at 1. rewrite elements_disj_union by set_solver.
  by rewrite zsum_app, elements_list_to_set.
Qed.

Lemma gsum_update f g h X :
  h ∈ X -> (forall k, k ∈ X -> k <> h -> f k = g k) -> gsum f X = (gsum g X + f h - g h)%Z.
Proof.
  intros Hh Hk. rewrite !(gsum_split _ [h] X) by
    (repeat constructor || (by intros k ->%list_elem_of_singleton) || apply not_elem_of_nil).
  simpl. rewrite (gsum_ext f g); [lia|]. set_solver.
Qed.

(** ** The types that the facade uses *)
Record types_ok (cs : ClassServer) : Prop := {
  ty_wf : CS_wf cs;
  ty_atoms : forall t, (t < nTypes cs)%N -> isAb cs t (ATOM cs) = true;
  ty_apart : forall t, isAb cs t (NODE cs) = true -> isAb cs t (LINK cs) = false;
  ty_link : isAb cs (AS.AT_TIME_LINK cs) (LINK cs) = true;
  ty_ordered : isAb cs (AS.AT_TIME_LINK cs) (UNORDERED_LINK cs) = false;
  ty_time : isAb cs (AS.TIME_NODE cs) (NODE cs) = true;
  ty_concept : isAb cs (AS.CONCEPT_NODE cs) (NODE cs) = true
}.

Lemma isAb_ok cs t u : CS_wf cs -> isA cs t u = Ok (isAb cs t u).
Proof.
  intros Hwf. unfold isAb, isA. destruct (_ || _) eqn:E; [done|].
  apply orb_false_iff in E as [Hs%N.leb_gt Hp%N.leb_gt].
  by rewrite (mget_square _ _ _ _ (wf_rec _ Hwf)).
Qed.

Lemma isAb_bound cs t u : isAb cs t u = true -> (t < nTypes cs)%N /\ (u < nTypes cs)%N.
Proof.
  unfold isAb, isA. destruct (_ || _) eqn:E; [done|].
  apply orb_false_iff in E as [Hs%N.leb_gt Hp%N.leb_gt]. done.
Qed.

(** ** Names without null characters *)
Lemma c_str_digits s r : all_digits s -> c_str (s +:+ r) = s +:+ c_str r.
Proof.
  induction s as [|c s IH]; [done|]. intros [Hc Hs]. change (String c s +:+ r) with (String c (s +:+ r)).
  cbn [c_str]. rewrite IH by done. case_decide as E; [|done]. subst c. by destruct Hc.
Qed.

Lemma c_str_name t : c_str (getTimeNodeName t) = getTimeNodeName t.
Proof.
  assert (Hlu : forall n r, c_str (lu n +:+ r) = lu n +:+ c_str r)
    by (intros n r; apply c_str_digits, lu_all_digits).
  assert (Hn : forall n, c_str (lu n) = lu n).
  { intros n. rewrite <- (string_app_nil (lu n)) at 1. rewrite Hlu. apply string_app_nil. }
  assert (Hcolon : forall r, c_str (":" +:+ r) = ":" +:+ c_str r) by done.
  unfold getTimeNodeName. destruct (t_normal t) eqn:E.
  - by rewrite Hlu, Hcolon, Hlu, Hcolon.
  - destruct (t_a t =? t_b t)%N; [done|]. by rewrite Hlu, Hcolon, Hn.
Qed.

(** ** AtTimeLinks and the time server *)
Section sync.
Context (cs : ClassServer).

(** [n] is a node with the name of the time [u]. *)
Definition time_node (t : TLB) (n : Handle) (u : Temporal) : Prop :=
  exists b, atomOf t n = Some b /\ a_type b = AS.TIME_NODE cs /\ isNodeObj b = true /\
    c_str (getName b) = getTimeNodeName u /\ t_wf u.

(** [l] is an AtTimeLink that says that [x] is at the time [u]. *)
Definition time_link (t : TLB) (l x : Handle) (u : Temporal) : Prop :=
  exists a n, atomOf t l = Some a /\ a_type a = AS.AT_TIME_LINK cs /\ outgoing a = [n; x] /\
    time_node t n u.

(** The atoms of the TLB and the pairs of the time server. *)
Record in_sync (t : TLB) (A : Pairs) : Prop := {
  sy_bound : forall h a, atomOf t h = Some a -> (a_type a < nTypes cs)%N;
  sy_closed : forall h a x, atomOf t h = Some a -> x ∈ outgoing a -> is_Some (atomOf t x);
  sy_shape : forall h a, atomOf t h = Some a -> a_type a = AS.AT_TIME_LINK cs ->
    exists x u, time_link t h x u;
  sy_unique : forall l l' x u, time_link t l x u -> time_link t l' x u -> l = l';
  sy_pairs : forall x u, (x, u) ∈ A <-> exists l, time_link t l x u
}.

(** The class of an atom, its name and its outgoing set are all that counts. *)
Definition bone (a : Atom) : N * AtomBody := (a_type a, a_body a).
Definition same_bones (t t' : TLB) : Prop := forall k, bone <$> atomOf t' k = bone <$> atomOf t k.

Lemma bone_at t t' k a :
  same_bones t t' -> atomOf t k = Some a -> exists a', atomOf t' k = Some a' /\ bone a' = bone a.
Proof.
  intros H Ha. specialize (H k). rewrite Ha in H. apply fmap_Some in H as (a' & Ha' & Heq). eauto.
Qed.

Lemma bone_fields a a' : bone a' = bone a ->
  a_type a' = a_type a /\ outgoing a' = outgoing a /\ isNodeObj a' = isNodeObj a /\ getName a' = getName a.
Proof.
  unfold bone, outgoing, isNodeObj, isLinkObj, getName. destruct a, a'. simpl. intros [= -> ->]. done.
Qed.

Lemma time_node_bone t t' n u : same_bones t t' -> time_node t n u -> time_node t' n u.
Proof.
  intros H (b & Hb & Ht & Hn & Hnm & Hu). destruct (bone_at _ _ _ _ H Hb) as (b' & Hb' & Heq).
  apply bone_fields in Heq as (E1 & _ & E2 & E3). exists b'. by rewrite E1, E2, E3.
Qed.

Lemma time_link_bone t t' l x u : same_bones t t' -> time_link t l x u -> time_link t' l x u.
Proof.
  intros H (a & n & Ha & Ht & Ho & Hn). destruct (bone_at _ _ _ _ H Ha) as (a' & Ha' & Heq).
  apply bone_fields in Heq as (E1 & E2 & _). exists a', n. rewrite E1, E2.
  do 3 (split; [done|]). by apply (time_node_bone t).
Qed.

Lemma in_sync_bone t t' A : same_bones t t' -> in_sync t A -> in_sync t' A.
Proof.
  intros H [B C S U P]. assert (Hs : same_bones t' t) by (intros k; by rewrite H).
  split.
  - intros h a' Ha'. destruct (bone_at _ _ _ _ Hs Ha') as (a & Ha & (<- & _)%bone_fields). by apply (B h).
  - intros h a' x Ha' Hx. destruct (bone_at _ _ _ _ Hs Ha') as (a & Ha & (_ & E & _)%bone_fields).
    rewrite <- E in Hx. destruct (C h a x Ha Hx) as [b Hb].
    destruct (bone_at _ _ _ _ H Hb) as (b' & Hb' & _). eauto.
  - intros h a' Ha' Ht. destruct (bone_at _ _ _ _ Hs Ha') as (a & Ha & (E & _)%bone_fields).
    rewrite <- E in Ht. destruct (S h a Ha Ht) as (x & u & Hl). exists x, u. by apply (time_link_bone t).
  - intros l l' x u Hl Hl'. by apply (U l l' x u); apply (time_link_bone t').
  - intros x u. rewrite P. split; intros [l Hl]; exists l; [by apply (time_link_bone t)|by apply (time_link_bone t')].
Qed.

Lemma in_sync_strip t t' A :
  (forall k, strip <$> atomOf t' k = strip <$> atomOf t k) -> in_sync t A -> in_sync t' A.
Proof.
  intros H. apply in_sync_bone. intros k. change bone with (bone ∘ strip). by rewrite !option_fmap_compose, H.
Qed.

(** A link stands for one pair. *)
Lemma time_link_fun t l x x' u u' : time_link t l x u -> time_link t l x' u' -> x = x' /\ u = u'.
Proof.
  intros (a & n & Ha & _ & Ho & b & Hb & _ & _ & Hn & Hu) (a' & n' & Ha' & _ & Ho' & b' & Hb' & _ & _ & Hn' & Hu').
  simplify_eq. rewrite Ho in Ho'. simplify_eq. split; [done|]. apply name_inj; [done|done|congruence].
Qed.

Lemma time_link_live t l x u : time_link t l x u -> is_Some (atomOf t l).
Proof. intros (a & n & Ha & _). eauto. Qed.

(** In a table no two links stand for the same pair. *)
Lemma time_link_unique T l l' x u :
  table_wf cs T -> time_link (tlb T) l x u -> time_link (tlb T) l' x u -> l = l'.
Proof.
  intros Hwf (a & n & Ha & Ht & Ho & b & Hb & Htb & Hob & Hn & Hu)
    (a' & n' & Ha' & Ht' & Ho' & b' & Hb' & Htb' & Hob' & Hn' & _).
  assert (n = n') as ->.
  { apply (same_atom_unique cs T n n' b b' Hwf Hb Hb'). split_and!; [congruence| |].
    - unfold node_key. by rewrite Hob, Hob', Hn, Hn'.
    - unfold link_key, isNodeObj in *. destruct (isLinkObj b), (isLinkObj b'); done. }
  assert (Hlink : forall c, outgoing c = [n'; x] -> node_key c = None /\ link_key c = Some [n'; x]).
  { intros c Hc. unfold node_key, link_key, isNodeObj, isLinkObj, outgoing in *. destruct (a_body c); [done|].
    by rewrite Hc. }
  apply (same_atom_unique cs T l l' a a' Hwf Ha Ha').
  unfold same_atom. destruct (Hlink a Ho) as [-> ->], (Hlink a' Ho') as [-> ->]. split_and!; congruence || done.
Qed.
End sync.

(** ** The space server in step *)

(** Every map is listed. *)
Definition maps_listed {M} (ss : SpaceServer M) : Prop :=
  forall h, is_Some (spaceMaps ss !! h) -> h ∈ sortedMapHandles ss.

Lemma erase_first_some h l : h ∈ l -> exists l', erase_first h l = Some l' /\ forall x, x ∈ l -> x <> h -> x ∈ l'.
Proof.
  induction l as [|y l IH]; [by intros ?%not_elem_of_nil|]. cbn [erase_first].
  destruct (N.eqb_spec y h) as [->|Hne].
  - intros _. exists l. split; [done|]. intros x [->|Hx]%elem_of_cons Hxh; done.
  - intros [->|Hh]%elem_of_cons; [done|]. destruct (IH Hh) as (l' & -> & Hl'). exists (y :: l').
    split; [done|]. intros x [->|Hx]%elem_of_cons Hxh; [left|]. right. auto.
Qed.

Lemma removeMap_ok {M} (ss : SpaceServer M) h :
  maps_listed ss -> exists ss', removeMap h ss = Ok ss' /\ maps_listed ss' /\
    spaceMaps ss' = delete h (spaceMaps ss).
Proof.
  intros Hl. unfold removeMap. destruct (spaceMaps ss !! h) as [m|] eqn:Em.
  - destruct (erase_first_some h (sortedMapHandles ss)) as (l' & -> & Hl'); [apply Hl; eauto|].
    eexists. split; [done|]. split; [|done]. intros k. simpl. intros [Hk Hm]%lookup_delete_is_Some. apply Hl'; [by apply Hl|done].
  - exists ss. split; [done|]. split; [done|]. by rewrite delete_id.
Qed.

(** What the server relies on: removing an object from a map succeeds, also
    when it is not there. *)
Class SpaceMapLaws (M : Type) `{SpaceMap M} : Prop := {
  removeObject_ok : forall name m, exists m', map_removeObject name m = (Ok tt, m')
}.

Lemma removeObject_listed `{SpaceMapLaws M} name ss :
  exists ss', removeObject name ss = (Ok tt, ss') /\
    dom (spaceMaps ss') = dom (spaceMaps ss) /\ sortedMapHandles ss' = sortedMapHandles ss.
Proof.
  unfold removeObject. step (done).
  assert (Hl : forall h, h ∈ merge_sort N.le (fst <$> map_to_list (spaceMaps ss)) -> h ∈ dom (spaceMaps ss)).
  { intros h. rewrite merge_sort_Permutation. intros ([k m] & -> & Hm)%list_elem_of_fmap.
    apply elem_of_map_to_list in Hm. apply elem_of_dom. eauto. }
  revert Hl. generalize (merge_sort N.le (fst <$> map_to_list (spaceMaps ss))) as l. intros l. revert ss.
  induction l as [|h l IH]; intros ss Hl; [by exists ss|]. cbn [foreach].
  pose proof (Hl h ltac:(left)) as [m Hm]%elem_of_dom.
  destruct (removeObject_ok name m) as (m' & Em).
  set (ss1 := set_maps (<[h := m']> (spaceMaps ss)) ss).
  assert (Hd : dom (spaceMaps ss1) = dom (spaceMaps ss)).
  { simpl. rewrite dom_insert_lookup_L; [done|eauto]. }
  destruct (IH ss1) as (ss' & E & Hdom & Hs).
  { intros k Hk. rewrite Hd. apply Hl. by right. }
  exists ss'. step (unfold on_map; rewrite Hm, Em; done). split; [exact E|]. split; [congruence|done].
Qed.

(** ** Reading a state *)
Section space.
Context {M : Type} (cs : ClassServer).
Implicit Types s : AtomSpace M.

Section reads.
Context s (h : Handle) (a : Atom) (Ha : atomOf (AS.the_tlb s) h = Some a).

Lemma atom_read : AS.atom h s = Ok a.
Proof. unfold AS.atom. by rewrite Ha. Qed.

Lemma type_read : AS.getType h s = Ok (a_type a).
Proof. unfold AS.getType. by rewrite atom_read. Qed.

Lemma cast_read ok : AS.cast ok h s = Ok (if ok a then Some a else None).
Proof.
  unfold AS.cast. apply atomOf_Some in Ha as (p & Hp & Hpa). unfold getAtom. rewrite Hp. simpl.
  by rewrite Hpa.
Qed.

Lemma name_read : isNodeObj a = true -> AS.getName h s = Ok (getName a).
Proof. intros Hn. unfold AS.getName, AS.as_node. rewrite cast_read, Hn. done. Qed.

Lemma any_name_read : exists name, AS.getName h s = Ok name.
Proof. unfold AS.getName, AS.as_node. rewrite cast_read. eexists. done. Qed.

Lemma pointer_read : exists p, AS.pointer h s = Ok p /\ getAtom (AS.the_tlb s) h = Some p /\
  heap (AS.the_tlb s) !! p = Some a.
Proof. apply atomOf_Some in Ha as (p & Hp & Hpa). exists p. unfold AS.pointer, getAtom. by rewrite Hp. Qed.

Lemma av_read : AS.getAV h s = Ok (a_attentionValue a).
Proof.
  destruct pointer_read as (p & E & Hp & Hpa). unfold AS.getAV. rewrite E. cbn [mbind res_bind].
  unfold AS.holder. by rewrite Hpa.
Qed.

Context (o : list Handle) (Ho : outgoing a = o) (Hne : o <> []) (Hlen : length o <= 64).

Lemma is_link : isLinkObj a = true.
Proof. subst o. unfold outgoing, isLinkObj in *. by destruct (a_body a). Qed.

Lemma arity_eq : getArity a = N.of_nat (length o).
Proof. unfold getArity. rewrite Ho. unfold wrap16. apply N.mod_small. lia. Qed.

Lemma arity_read : AS.getArity h s = Ok (Z.of_nat (length o)).
Proof.
  unfold AS.getArity, AS.as_link. rewrite cast_read, is_link. cbn [mbind res_bind].
  rewrite arity_eq. f_equal. lia.
Qed.

Lemma outgoing_read i x : o !! i = Some x -> AS.getOutgoing_at h (Z.of_nat i) s = Ok x.
Proof.
  intros Hi. unfold AS.getOutgoing_at, AS.as_link. rewrite cast_read, is_link. cbn [mbind res_bind].
  rewrite arity_eq. pose proof (lookup_lt_Some _ _ _ Hi).
  rewrite (proj2 (Z.leb_gt _ _)), (proj2 (Z.ltb_ge _ _)) by lia. by rewrite Ho, Nat2Z.id, Hi.
Qed.
End reads.

Lemma valid_read s h : table_wf cs (atomTable s) ->
  AS.isValid h s = bool_decide (is_Some (atomOf (AS.the_tlb s) h)).
Proof.
  intros Hwf. unfold AS.isValid. pose proof (isValidHandle_atomOf (tlb (atomTable s)) h
    (inv_tlb _ _ _ _ (tw_inv _ _ Hwf))) as Hv. fold (AS.the_tlb s) in Hv.
  case_bool_decide as Hs; [by apply Hv|]. apply not_true_is_false. by rewrite Hv.
Qed.

(** ** The invariant *)
Record space_ok s (S : server) : Prop := {
  so_table : table_wf cs (atomTable s);
  so_tv : forall h a, atomOf (AS.the_tlb s) h = Some a -> tv_ok (a_truthValue a);
  so_sync : in_sync cs (AS.the_tlb s) (pairs S);
  so_time : represents (timeServer s) S;
  so_maps : maps_listed (spaceServer s);
  so_store : backing_store s = None
}.

(** The importance that the live atoms hold, and with the funds. *)
Definition sti_of (t : TLB) (h : Handle) : Z :=
  match atomOf t h with Some a => getSTI (a_attentionValue a) | None => 0 end.
Definition lti_of (t : TLB) (h : Handle) : Z :=
  match atomOf t h with Some a => getLTI (a_attentionValue a) | None => 0 end.
Definition wealthSTI s : Z := (fundsSTI s + gsum (sti_of (AS.the_tlb s)) (live (atomTable s)))%Z.
Definition wealthLTI s : Z := (fundsLTI s + gsum (lti_of (AS.the_tlb s)) (live (atomTable s)))%Z.
Definition same_wealth s s' : Prop := wealthSTI s' = wealthSTI s /\ wealthLTI s' = wealthLTI s.

Lemma in_sync_table (T : AtomTable) A :
  table_wf cs T ->
  (forall h a, atomOf (tlb T) h = Some a -> a_type a = AS.AT_TIME_LINK cs ->
     exists x u, time_link cs (tlb T) h x u) ->
  (forall x u, (x, u) ∈ A <-> exists l, time_link cs (tlb T) l x u) -> in_sync cs (tlb T) A.
Proof.
  intros Hwf Hshape Hpairs. pose proof (tw_inv _ _ Hwf) as Hinv.
  assert (Hat : forall h a, atomOf (tlb T) h = Some a -> h ∈ live T /\ coreOf (tlb T) h = Some (core a)).
  { intros h a Ha. split; [apply (elem_of_live cs); eauto|]. unfold coreOf. by rewrite Ha. }
  split; [| |done| |done].
  - intros h a [Hl Hc]%Hat. exact (ok_type _ _ (st_atom _ _ _ (inv_static _ _ _ _ Hinv) h _ Hl Hc)).
  - intros h a x [Hl Hc]%Hat Hx. apply (elem_of_live cs); [done|].
    by apply (st_closed _ _ _ (inv_static _ _ _ _ Hinv) h (core a) x Hl Hc).
  - intros l l' x u. by apply time_link_unique.
Qed.
End space.
