(* ===== verification/SpaceRemove.v ===== *)
(** Removing atoms from an atom space (AtomSpace::removeAtom, atomRemoved and
    clear of src/opencog/atomspace/AtomSpace.cc): the handler of the signal
    takes the pairs of the removed AtTimeLinks out of the time server while the
    links and their time nodes are still there, and the funds get back the
    importance of what is removed. *)
From stdpp Require Import sorting.
From S2P Require Import Prelude ClassServer TruthValue AttentionValue Atom TLB HandleEntry Index IndexSpec AtomTable TableInv TableRemove TableAdd TableProps TableQuery Temporal TemporalEntry TimeSpec TemporalTable TimeGet TimeRefine SpaceServer AtomSpace SpaceInv.

Section parts.
Context {M A : Type}.
Implicit Types s : AtomSpace M.

Lemma on_at_ok (f : ST AtomTable A) s x t : f (atomTable s) = (Ok x, t) -> on_at f s = (Ok x, set_atomTable t s).
Proof. unfold on_at. by intros ->. Qed.
Lemma on_ts_ok (f : ST TimeServer A) s x t : f (timeServer s) = (Ok x, t) -> on_ts f s = (Ok x, set_timeServer t s).
Proof. unfold on_ts. by intros ->. Qed.
Lemma on_ss_ok (f : ST (SpaceServer M) A) s x t : f (spaceServer s) = (Ok x, t) -> on_ss f s = (Ok x, set_spaceServer t s).
Proof. unfold on_ss. by intros ->. Qed.
Lemma reads_ok (f : AtomSpace M -> res A) s x : f s = Ok x -> reads f s = (Ok x, s).
Proof. unfold reads. by intros ->. Qed.
End parts.

Lemma StronglySorted_rev {A} (R : A -> A -> Prop) l :
  StronglySorted R l -> StronglySorted (fun x y => R y x) (rev l).
Proof.
  induction 1 as [|x l Hs IH Hx]; [constructor|]. simpl. apply StronglySorted_app_2; [done|by repeat constructor|].
  intros a b Ha ->%list_elem_of_singleton. rewrite elem_of_rev in Ha. by rewrite Forall_forall in Hx; apply Hx.
Qed.

(** Pairs have left the time server, the times of the others are the same
    objects. *)
Record shrinks (ts : TimeServer) (S : server) (ts' : TimeServer) (S' : server) : Prop := {
  sh_pairs : pairs S' ⊆ pairs S;
  sh_times : keeps_times (table ts) (table ts') (pairs S')
}.

Lemma shrinks_refl ts S : shrinks ts S ts S.
Proof. split; [done|]. by intros p x u. Qed.

Lemma shrinks_trans ts S ts1 S1 ts2 S2 :
  shrinks ts S ts1 S1 -> shrinks ts1 S1 ts2 S2 -> shrinks ts S ts2 S2.
Proof.
  intros [P1 K1] [P2 K2]. split; [set_solver|]. intros p x u Hx Hp. apply (K2 p x u Hx), (K1 p x u); [|done].
  by apply P2.
Qed.

(** The exact removal of one pair. *)
Lemma remove_pair_ok `{SetOrder} ts S h u :
  represents ts S -> t_wf u -> h <> UNDEFINED -> exists b ts' S',
    TS_remove h u EXACT ts = (Ok b, ts') /\ represents ts' S' /\ pairs S' = pairs S ∖ {[(h, u)]} /\
    shrinks ts S ts' S'.
Proof.
  intros Hrep Hu Hh.
  destruct (remove_refines ts S h u EXACT Hrep (or_introl Hu)) as (ts' & E & Hrep' & Hk).
  { unfold safe_remove. rewrite (proj2 (N.eqb_neq _ _)) by done. cbn [is_previous]. by rewrite andb_false_r. }
  eexists _, ts', _. split; [exact E|]. split; [exact Hrep'|]. split.
  2: { split; [cbn [spec_remove snd pairs]; set_solver|by apply Hk]. }
  cbn [spec_remove snd pairs]. unfold spec_get. rewrite (proj2 (N.eqb_neq _ _)) by done.
  rewrite found_exact; [|unfold times_of, in_order; rewrite merge_sort_Permutation; apply NoDup_elements|done].
  apply set_eq. intros p. case_decide as Hin; simpl; [set_solver|].
  rewrite elem_of_times_of in Hin. rewrite !elem_of_difference. set_solver.
Qed.

(** A node is looked up without an exception. *)
Lemma node_found cs C L T ty name :
  inv cs C L T -> (ty < nTypes cs)%N -> exists h, getHandle_name name ty T = Ok h.
Proof.
  intros Hinv Hty.
  destruct (keyed_get node_key _ _ _ _ ty (c_str name)
              (ix_node _ _ _ _ (ix_six _ _ _ _ (inv_indexed _ _ _ _ Hinv))) Hty) as (m & Hm & _).
  unfold getHandle_name, NodeIndex.getHandle, StringIndex.get. rewrite Hm. eexists. done.
Qed.

Section remove.
Context `{SetOrder} (cs : ClassServer) (string_hash : string -> N).
Context {M : Type} `{SpaceMapLaws M} (Hty : types_ok cs).
Implicit Types s : AtomSpace M.

(** Nothing but the two servers differs. *)
Record same_atoms s s' : Prop := {
  sa_table : atomTable s' = atomTable s;
  sa_sti : fundsSTI s' = fundsSTI s;
  sa_lti : fundsLTI s' = fundsLTI s;
  sa_store : backing_store s' = backing_store s
}.

(** ** The handler *)
Lemma removed_link_ok s L S h x u :
  inv cs (coreOf (AS.the_tlb s)) L (atomTable s) -> represents (timeServer s) S ->
  maps_listed (spaceServer s) -> time_link cs (AS.the_tlb s) h x u -> is_Some (atomOf (AS.the_tlb s) x) ->
  exists s' S', AS.atomRemoved cs h s = (Ok tt, s') /\ same_atoms s s' /\ maps_listed (spaceServer s') /\
    represents (timeServer s') S' /\ pairs S' = pairs S ∖ {[(x, u)]} /\
    shrinks (timeServer s) S (timeServer s') S'.
Proof.
  intros Hinv Hrep Hmaps (a & n & Ha & Ht & Ho & b & Hb & Htb & Hob & Hn & Hu) [c Hc].
  pose proof (inv_tlb _ _ _ _ Hinv) as Hwf.
  assert (Hx : x <> UNDEFINED).
  { intros ->. apply atomOf_Some in Hc as (p & Hp & _). by rewrite (twf_def _ Hwf : handle_map (AS.the_tlb s) !! _ = _) in Hp. }
  destruct (remove_pair_ok (timeServer s) S x u Hrep Hu Hx) as (r & ts' & S' & E & Hrep' & HS' & Hk).
  destruct (node_found cs _ L (atomTable s) (AS.CONCEPT_NODE cs) (c_str AS.SPACE_MAP_NODE_NAME) Hinv)
    as [m Hm]; [by apply (isAb_bound cs _ (NODE cs)), ty_concept|].
  unfold AS.atomRemoved. step (by apply reads_ok, type_read). rewrite Ht, N.eqb_refl.
  assert (Hlen : length [n; x] <= 64) by (simpl; lia).
  step (by apply reads_ok, (arity_read s h a Ha [n; x] Ho)).
  change (negb (Z.of_nat (length [n; x]) =? 2)%Z) with false. cbv iota.
  step (by apply reads_ok, (outgoing_read s h a Ha [n; x] Ho) with (i := 0)).
  step (by apply reads_ok, (type_read s n b)). rewrite Htb, N.eqb_refl. cbn [negb].
  step (by apply reads_ok, (outgoing_read s h a Ha [n; x] Ho) with (i := 1)).
  step (by apply reads_ok, (atom_read s n b)).
  step (unfold lift; rewrite Hn, wf_name_parses by done; done).
  step (by apply on_ts_ok). step (by apply reads_ok).
  destruct (m =? x)%N.
  - destruct (removeMap_ok (spaceServer s) h Hmaps) as (ss' & Ess & Hl & _).
    eexists _, S'. split; [apply on_ss_ok, modify_ok; exact Ess|]. split; [done|]. split; [done|]. done.
  - eexists _, S'. split; [done|]. split; [done|]. done.
Qed.

Lemma removed_other_ok s S h a :
  represents (timeServer s) S -> maps_listed (spaceServer s) ->
  atomOf (AS.the_tlb s) h = Some a -> a_type a <> AS.AT_TIME_LINK cs ->
  exists s', AS.atomRemoved cs h s = (Ok tt, s') /\ same_atoms s s' /\ maps_listed (spaceServer s') /\
    timeServer s' = timeServer s.
Proof.
  intros Hrep Hmaps Ha Ht. unfold AS.atomRemoved. step (by apply reads_ok, type_read).
  rewrite (proj2 (N.eqb_neq _ _)) by done.
  step (unfold lift, AS.inheritsType; rewrite isAb_ok by apply Hty; done).
  destruct (isAb _ _ _); [|by exists s].
  destruct (any_name_read s h a Ha) as [name Hname]. step (by apply reads_ok).
  destruct (removeObject_listed name (spaceServer s)) as (ss' & E & Hd & Hl).
  eexists. split; [by apply on_ss_ok|]. split; [done|]. split; [|done].
  intros k Hk%elem_of_dom. simpl in *. rewrite Hl. rewrite Hd in Hk. by apply Hmaps, elem_of_dom.
Qed.

Lemma atomRemoved_ok s L S h :
  inv cs (coreOf (AS.the_tlb s)) L (atomTable s) -> in_sync cs (AS.the_tlb s) (pairs S) ->
  represents (timeServer s) S -> maps_listed (spaceServer s) -> is_Some (atomOf (AS.the_tlb s) h) ->
  exists s' S', AS.atomRemoved cs h s = (Ok tt, s') /\ same_atoms s s' /\ maps_listed (spaceServer s') /\
    represents (timeServer s') S' /\ shrinks (timeServer s) S (timeServer s') S' /\
    forall x u, (x, u) ∈ pairs S' <-> (x, u) ∈ pairs S /\ ~ time_link cs (AS.the_tlb s) h x u.
Proof.
  intros Hinv Hsy Hrep Hmaps [a Ha].
  destruct (decide (a_type a = AS.AT_TIME_LINK cs)) as [Ht|Ht].
  - destruct (sy_shape _ _ _ Hsy h a Ha Ht) as (x & u & Hl).
    pose proof Hl as (a' & n & Ha' & _ & Ho & _). simplify_eq.
    destruct (removed_link_ok s L S h x u Hinv Hrep Hmaps Hl) as (s' & S' & E & Hs & Hm & Hr & HS' & Hk).
    { apply (sy_closed _ _ _ Hsy h a x Ha). rewrite Ho. right. left. }
    exists s', S'. do 5 (split; [done|]). intros y v. rewrite HS', elem_of_difference, elem_of_singleton.
    split; intros [Hp Hn]; (split; [done|]); [|by intros [= -> ->]].
    intros Hl'. destruct (time_link_fun cs _ _ _ _ _ _ Hl Hl') as [-> ->]. done.
  - destruct (removed_other_ok s S h a Hrep Hmaps Ha Ht) as (s' & E & Hs & Hm & Htime).
    exists s', S. do 3 (split; [done|]). rewrite Htime. split; [done|]. split; [apply shrinks_refl|]. intros x u. split; [|by intros [? _]].
    intros Hp. split; [done|]. intros (a' & n & Ha' & Ht' & _). congruence.
Qed.

(** ** The loop over the extracted atoms *)

(** What is known of an atom space while the atoms of [l] wait to be deleted. *)
Record clearing s (l : list Handle) (S : server) : Prop := {
  cl_inv : exists L, inv cs (coreOf (AS.the_tlb s)) L (atomTable s) /\
    (forall k, is_Some (atomOf (AS.the_tlb s) k) <-> k ∈ L \/ k ∈ l) /\ (forall k, k ∈ l -> k ∉ L);
  cl_nodup : NoDup l;
  cl_incoming : forall k, k ∈ l -> exists a, atomOf (AS.the_tlb s) k = Some a /\ a_incoming a = [];
  cl_order : StronglySorted (fun x y => forall c, atomOf (AS.the_tlb s) y = Some c -> x ∉ outgoing c) l;
  cl_sync : in_sync cs (AS.the_tlb s) (pairs S);
  cl_time : represents (timeServer s) S;
  cl_maps : maps_listed (spaceServer s)
}.

(** The store forgets [h], which nothing refers to. *)
Lemma in_sync_forget (t t' : TLB) A A' h :
  in_sync cs t A -> (forall k, atomOf t' k = if decide (k = h) then None else atomOf t k) ->
  (forall k a, k <> h -> atomOf t k = Some a -> h ∉ outgoing a) ->
  (forall x u, (x, u) ∈ A' <-> (x, u) ∈ A /\ ~ time_link cs t h x u) -> in_sync cs t' A'.
Proof.
  intros [B C Sh U P] Hat Hno HA'.
  assert (Hback : forall k a, atomOf t' k = Some a -> k <> h /\ atomOf t k = Some a).
  { intros k a. rewrite Hat. by case_decide. }
  assert (Hforth : forall k a, k <> h -> atomOf t k = Some a -> atomOf t' k = Some a).
  { intros k a Hk. by rewrite Hat, decide_False. }
  assert (Hlink : forall l x u, time_link cs t' l x u <-> l <> h /\ time_link cs t l x u).
  { intros l x u. split.
    - intros (a & n & [Hl Ha]%Hback & Ht & Ho & b & [_ Hb]%Hback & Hr). split; [done|].
      exists a, n. do 3 (split; [done|]). by exists b.
    - intros [Hl (a & n & Ha & Ht & Ho & b & Hb & Hr)]. exists a, n. split; [by apply Hforth|].
      do 2 (split; [done|]). exists b. split; [|done]. apply Hforth; [|done]. intros ->.
      apply (Hno l a Hl Ha). rewrite Ho. left. }
  split.
  - intros k a [_ Ha]%Hback. by apply (B k).
  - intros k a x [Hk Ha]%Hback Hx. destruct (C k a x Ha Hx) as [b Hb]. exists b. apply Hforth; [|done].
    intros ->. by apply (Hno k a Hk Ha).
  - intros k a [Hk Ha]%Hback Ht. destruct (Sh k a Ha Ht) as (x & u & Hl). exists x, u. by apply Hlink.
  - intros l l' x u [_ Hl]%Hlink [_ Hl']%Hlink. by apply (U l l' x u).
  - intros x u. rewrite HA', P. split.
    + intros [[l Hl] Hn]. exists l. apply Hlink. split; [|done]. by intros ->.
    + intros [l [Hl Hlu]%Hlink]. split; [by exists l|]. intros Hh. apply Hl. by apply (U l h x u).
Qed.

Lemma forget_next_ok s h l S :
  clearing s (h :: l) S -> exists s' S',
    AS.table_removeExtracted cs h s = (Ok tt, s') /\
    removeExtracted h (atomTable s) = (Ok tt, atomTable s') /\ clearing s' l S' /\
    shrinks (timeServer s) S (timeServer s') S' /\
    fundsSTI s' = fundsSTI s /\ fundsLTI s' = fundsLTI s /\ backing_store s' = backing_store s.
Proof.
  intros [(L & Hinv & Hdom & HL) Hd Hinc Ho Hsy Hrep Hmaps].
  destruct (Hinc h ltac:(left)) as (a & Ha & Hnil).
  destruct (atomRemoved_ok s L S h Hinv Hsy Hrep Hmaps) as (s1 & S1 & E1 & [T1 F1 G1 B1] & Hm1 & Hr1 & Hk1 & HS1); [eauto|].
  destruct (forget_ok cs L (atomTable s) h a Hinv (HL h ltac:(left)) Ha Hnil)
    as (t2 & E2 & Hinv2 & _ & _ & Hat2).
  set (T2 := set_tlb t2 (emit (RemoveAtomSignal h) (atomTable s))) in *.
  exists (set_atomTable T2 s1), S1. split; [|split; [done|split; [|split; [exact Hk1|done]]]].
  { unfold AS.table_removeExtracted. step (exact E1). apply on_at_ok. by rewrite T1. }
  apply NoDup_cons in Hd as [Hh Hd]. apply StronglySorted_inv in Ho as [Ho Hoh]. rewrite Forall_forall in Hoh.
  assert (Hne : forall k, k ∈ l -> k <> h) by (by intros k Hk ->).
  change (AS.the_tlb (set_atomTable T2 s1)) with t2 in *.
  split; try done; change (AS.the_tlb (set_atomTable T2 s1)) with t2.
  - exists L. split; [done|]. split; [|intros k Hk; apply HL; by right].
    intros k. rewrite Hat2. case_decide as Hk.
    + subst. split; [by intros []|]. intros [Hk|Hk]; [by destruct (HL h ltac:(left))|done].
    + rewrite Hdom, elem_of_cons. tauto.
  - intros k Hk. destruct (Hinc k ltac:(by right)) as (b & Hb & Hbn). exists b.
    rewrite Hat2, decide_False by auto. done.
  - clear -Ho Hat2 Hh. induction Ho as [|x l Ho IH Hx]; constructor.
    + apply IH. intros Hl. apply Hh. by right.
    + rewrite Forall_forall in Hx |- *. intros y Hy c. rewrite Hat2. case_decide; [done|]. by apply Hx.
  - apply (in_sync_forget (AS.the_tlb s) t2 (pairs S) _ h Hsy Hat2); [|done].
    intros k b Hk Hb Hhb. destruct (proj1 (Hdom k) (mk_is_Some _ _ Hb)) as [HkL|[->|Hkl]%elem_of_cons]; [|done|].
    + apply (HL h ltac:(left)).
      apply (st_closed _ _ _ (inv_static _ _ _ _ Hinv) k (core b) h HkL); [|done].
      unfold coreOf. by rewrite Hb.
    + by apply (Hoh k Hkl b).
Qed.

Lemma clear_extracted_ok l : forall s S,
  clearing s l S -> exists s' S',
    foreach (AS.table_removeExtracted cs) l s = (Ok tt, s') /\
    foreach removeExtracted l (atomTable s) = (Ok tt, atomTable s') /\ clearing s' [] S' /\
    shrinks (timeServer s) S (timeServer s') S' /\
    fundsSTI s' = fundsSTI s /\ fundsLTI s' = fundsLTI s /\ backing_store s' = backing_store s.
Proof.
  induction l as [|h l IH]; intros s S Hc; [exists s, S; split_and!; try done; apply shrinks_refl|].
  destruct (forget_next_ok s h l S Hc) as (s1 & S1 & E1 & T1 & Hc1 & K1 & F1 & G1 & B1).
  destruct (IH s1 S1 Hc1) as (s2 & S2 & E2 & T2 & Hc2 & K2 & F2 & G2 & B2).
  exists s2, S2. cbn [foreach]. step (exact E1). step (exact T1).
  do 3 (split; [done|]). split; [by apply (shrinks_trans _ _ (timeServer s1) S1)|].
  split; [congruence|]. split; congruence.
Qed.

(** ** removeAtom *)
Lemma sti_read s h a : atomOf (AS.the_tlb s) h = Some a -> AS.getSTI_at h s = Ok (sti_of (AS.the_tlb s) h).
Proof. intros Ha. unfold AS.getSTI_at, sti_of. by rewrite (av_read s h a Ha), Ha. Qed.
Lemma lti_read s h a : atomOf (AS.the_tlb s) h = Some a -> AS.getLTI_at h s = Ok (lti_of (AS.the_tlb s) h).
Proof. intros Ha. unfold AS.getLTI_at, lti_of. by rewrite (av_read s h a Ha), Ha. Qed.

Lemma refund_ok rs : forall s,
  (forall x, x ∈ rs -> is_Some (atomOf (AS.the_tlb s) x)) ->
  foreach (fun x =>
    sti ← reads (AS.getSTI_at x);
    lti ← reads (AS.getLTI_at x);
    modst (fun s => set_funds (fundsSTI s + sti) (fundsLTI s + lti) s)) rs s =
  (Ok tt, set_funds (fundsSTI s + zsum (sti_of (AS.the_tlb s)) rs)
            (fundsLTI s + zsum (lti_of (AS.the_tlb s)) rs) s).
Proof.
  induction rs as [|x rs IH]; intros s Hrs; cbn [foreach zsum foldr].
  { rewrite !Z.add_0_r. by destruct s. }
  destruct (Hrs x ltac:(left)) as [a Ha].
  step (step (by eapply reads_ok, sti_read; exact Ha); step (by eapply reads_ok, lti_read; exact Ha); done).
  rewrite IH by (intros y Hy; apply Hrs; by right).
  change (AS.the_tlb (set_funds _ _ s)) with (AS.the_tlb s). cbn [fundsSTI fundsLTI set_funds].
  unfold set_funds, zsum. simpl. by rewrite !Z.add_assoc.
Qed.

(** The atoms that an extraction took out wait to be deleted. *)
Lemma extracted_clearing s S rs L' T :
  table_wf cs (atomTable s) -> in_sync cs (AS.the_tlb s) (pairs S) -> represents (timeServer s) S ->
  maps_listed (spaceServer s) ->
  extracts cs (coreOf (AS.the_tlb s)) (live (atomTable s)) (atomTable s) rs L' T ->
  forall f g, clearing (set_funds f g (set_atomTable T s)) (rev rs) S.
Proof.
  intros Hwf Hsy Hrep Hmaps X f g. pose proof (tw_inv _ _ Hwf) as Hinv.
  assert (Hst : forall k, strip <$> atomOf (tlb T) k = strip <$> atomOf (AS.the_tlb s) k)
    by apply (ex_strip _ _ _ _ _ _ _ X).
  split; change (AS.the_tlb (set_funds f g (set_atomTable T s))) with (tlb T); try done.
  - exists L'. split; [exact (inv_view _ _ _ _ (ex_inv _ _ _ _ _ _ _ X))|]. split.
    + intros k. rewrite elem_of_rev, (ex_elem _ _ _ _ _ _ _ X).
      pose proof (ex_sub _ _ _ _ _ _ _ X k) as Hsub.
      assert (Hk : is_Some (atomOf (tlb T) k) <-> k ∈ live (atomTable s)).
      { rewrite (elem_of_live cs _ _ Hwf). specialize (Hst k). unfold AS.the_tlb in Hst.
        destruct (atomOf (tlb T) k), (atomOf (tlb (atomTable s)) k); by simpl in Hst. }
      rewrite Hk. destruct (decide (k ∈ L')); tauto.
    + intros k. rewrite elem_of_rev, (ex_elem _ _ _ _ _ _ _ X). tauto.
  - apply NoDup_rev, X.
  - intros k. rewrite elem_of_rev, (ex_elem _ _ _ _ _ _ _ X). intros [Hk Hn].
    destruct (ex_out _ _ _ _ _ _ _ X k Hk Hn) as (a & Ha & _ & Hnil). eauto.
  - apply (StronglySorted_rev (fun x y => forall c, atomOf (tlb T) x = Some c -> y ∉ outgoing c)).
    pose proof (ex_order _ _ _ _ _ _ _ X) as Ho. pose proof (ex_elem _ _ _ _ _ _ _ X) as Hel.
    assert (Hrs : forall k, k ∈ rs -> k ∈ live (atomTable s)) by (intros k [Hk _]%Hel; done). clear Hel X.
    induction Ho as [|x l Ho IH Hx]; constructor.
    { apply IH. intros k Hk. apply Hrs. by right. }
    rewrite Forall_forall in Hx |- *. intros y Hy c Hc.
    destruct (live_atom _ _ _ _ x Hinv (Hrs x ltac:(left))) as (a & b & Ha & Hb & Hab & Hok).
    specialize (Hx y Hy b Hb). rewrite targets_outgoing in Hx by apply Hok. intros Hyc. apply Hx.
    specialize (Hst x). rewrite Hc in Hst. unfold AS.the_tlb in Hst. rewrite Ha in Hst.
    subst b. destruct a, c. unfold strip, outgoing in *. simpl in *. by simplify_eq.
  - by apply (in_sync_strip cs (AS.the_tlb s)).
Qed.

(** What a removal does to an atom space. *)
Record space_removes s (S : server) (rs : list Handle) s' (S' : server) : Prop := {
  sr_ok : space_ok cs s' S';
  sr_table : removes cs (atomTable s) rs (atomTable s');
  sr_wealth : same_wealth s s';
  sr_times : shrinks (timeServer s) S (timeServer s') S'
}.

Lemma removed_sum (f : TLB -> Handle -> Z) (g : AttentionValue -> Z) T T' rs :
  (forall t h, f t h = match atomOf t h with Some a => g (a_attentionValue a) | None => 0%Z end) ->
  removes cs T rs T' -> (forall k, k ∈ rs -> k ∈ live T) ->
  (gsum (f (tlb T)) (live T) = zsum (f (tlb T)) rs + gsum (f (tlb T')) (live T'))%Z.
Proof.
  intros Hf R Hrs. rewrite (gsum_split _ rs _ (rm_nodup _ _ _ _ R) Hrs). f_equal.
  rewrite (rm_live _ _ _ _ R). apply gsum_ext. intros k Hk. rewrite !Hf.
  rewrite <- (rm_live _ _ _ _ R) in Hk. apply (rm_rest _ _ _ _ R) in Hk.
  destruct (atomOf (tlb T') k) as [[]|], (atomOf (tlb T) k) as [[]|]; simpl in Hk; try done.
  by simplify_eq/=.
Qed.

Lemma removes_space_ok s S s' S' rs :
  space_ok cs s S -> removes cs (atomTable s) rs (atomTable s') -> clearing s' [] S' ->
  backing_store s' = backing_store s ->
  (forall k, k ∈ rs -> k ∈ live (atomTable s)) ->
  fundsSTI s' = (fundsSTI s + zsum (sti_of (AS.the_tlb s)) rs)%Z ->
  fundsLTI s' = (fundsLTI s + zsum (lti_of (AS.the_tlb s)) rs)%Z ->
  shrinks (timeServer s) S (timeServer s') S' ->
  space_removes s S rs s' S'.
Proof.
  intros [Hwf Htv _ _ _ Hbs] R [_ _ _ _ Hsy Hrep Hmaps] Hb Hrs Hf Hg Hk. split; [|done| |done].
  - split; [apply R| |done|done|done|congruence].
    intros h a Ha.
    assert (Hh : h ∈ live (atomTable s')) by (apply (elem_of_live cs); [apply R|by eexists]).
    apply (rm_rest _ _ _ _ R) in Hh. unfold AS.the_tlb in Ha. rewrite Ha in Hh. symmetry in Hh.
    apply fmap_Some in Hh as (b & Hb' & Heq). specialize (Htv h b Hb').
    destruct a, b. by simplify_eq/=.
  - unfold same_wealth, wealthSTI, wealthLTI, AS.the_tlb in *. rewrite Hf, Hg.
    rewrite (removed_sum sti_of getSTI _ _ _ (fun _ _ => eq_refl) R Hrs).
    rewrite (removed_sum lti_of getLTI _ _ _ (fun _ _ => eq_refl) R Hrs). lia.
Qed.

Lemma removeAtom_ok s S h a r :
  space_ok cs s S -> atomOf (AS.the_tlb s) h = Some a -> (r = true \/ a_incoming a = []) ->
  exists rs s' S', AS.removeAtom cs string_hash h r s = (Ok true, s') /\ space_removes s S rs s' S' /\
    forall k, k ∈ rs <-> above (coreOf (AS.the_tlb s)) (live (atomTable s)) h k.
Proof.
  intros Hok Ha Hr. pose proof Hok as [Hwf _ Hsy Hrep Hmaps Hbs].
  assert (Hh : h ∈ live (atomTable s)) by (apply (elem_of_live cs); eauto).
  destruct (table_extract cs string_hash (atomTable s) Hwf h Hh) as (rs & L' & T & E & X & Hab).
  assert (Hel : forall k, k ∈ rs <-> above (coreOf (AS.the_tlb s)) (live (atomTable s)) h k).
  { intros k. rewrite (ex_elem _ _ _ _ _ _ _ X). split.
    - intros [Hk Hn]. by apply Hab.
    - intros Hk. assert (HkL : k ∈ live (atomTable s)) by (destruct (above_live _ _ _ _ Hk); by subst).
      split; [done|]. by apply Hab. }
  destruct (removes_extracted cs _ (atomTable s) rs L' T Hwf X) as (T' & E' & R).
  set (f := (fundsSTI s + zsum (sti_of (tlb T)) rs)%Z). set (g := (fundsLTI s + zsum (lti_of (tlb T)) rs)%Z).
  destruct (clear_extracted_ok (rev rs) _ S (extracted_clearing s S rs L' T Hwf Hsy Hrep Hmaps X f g))
    as (s' & S' & Es & Et & Hc & Hk & Hf & Hg & Hb).
  assert (HT : atomTable s' = T').
  { unfold removeExtractedHandles in E'. rewrite HE_toHandleVector_id in E'. cbn [atomTable set_funds set_atomTable] in Et.
    congruence. }
  assert (Hsum : zsum (sti_of (tlb T)) rs = zsum (sti_of (AS.the_tlb s)) rs /\
                 zsum (lti_of (tlb T)) rs = zsum (lti_of (AS.the_tlb s)) rs).
  { split; apply zsum_ext; intros k _; unfold sti_of, lti_of, AS.the_tlb;
      pose proof (ex_strip _ _ _ _ _ _ _ X k) as Hkk;
      destruct (atomOf (tlb T) k) as [[]|], (atomOf (tlb (atomTable s)) k) as [[]|]; simpl in Hkk; try done;
      by simplify_eq/=. }
  exists (rev rs), s', S'. split; [|split].
  - unfold AS.removeAtom. step (done).
    assert (E1 : extract string_hash (extract_fuel (atomTable s)) r h (atomTable s) = (Ok rs, T)).
    { destruct Hr as [->|Hi]; [done|]. by rewrite (extract_flag _ _ _ h a). }
    step (by apply on_at_ok; exact E1).
    destruct rs as [|x rs]; [by destruct (not_elem_of_nil h); apply Hel, rtc_refl|].
    rewrite HE_toHandleVector_id.
    step (apply refund_ok; intros k [HkL _]%(ex_elem _ _ _ _ _ _ _ X)).
    2: { apply (elem_of_live cs) in HkL as [b Hb']; [|done]. pose proof (ex_strip _ _ _ _ _ _ _ X k) as Hs.
         rewrite Hb' in Hs. apply fmap_Some in Hs as (b' & Hb2 & _). by exists b'. }
    by step (exact Es).
  - rewrite <- HT in R. apply (removes_space_ok s S s' S' (rev rs)); try done.
    + intros k. rewrite elem_of_rev, (ex_elem _ _ _ _ _ _ _ X). tauto.
    + rewrite Hf. cbn [fundsSTI set_funds]. unfold f. f_equal. rewrite (proj1 Hsum), rev_reverse. by rewrite reverse_Permutation.
    + rewrite Hg. cbn [fundsLTI set_funds]. unfold g. f_equal. rewrite (proj2 Hsum), rev_reverse. by rewrite reverse_Permutation.
  - intros k. by rewrite elem_of_rev.
Qed.

(** An atom that links refer to is not removed without the flag, and nothing
    changes; nor does for a handle that is not there. *)
Lemma removeAtom_refused s h a :
  table_wf cs (atomTable s) -> atomOf (AS.the_tlb s) h = Some a -> a_incoming a <> [] ->
  AS.removeAtom cs string_hash h false s = (Ok false, s).
Proof.
  intros Hwf Ha Hi. pose proof (tw_inv _ _ Hwf) as Hinv.
  assert (Hh : h ∈ live (atomTable s)) by (apply (elem_of_live cs); eauto).
  assert (E : extract string_hash (extract_fuel (atomTable s)) false h (atomTable s) = (Ok [], atomTable s)).
  { apply (extract_nonrecursive cs string_hash (coreOf (tlb (atomTable s))) _ (live (atomTable s)) _ h a); try done.
    - apply (tw_marks _ _ Hwf h a Ha).
    - intros x Hx. apply (elem_of_live cs); [done|].
      by apply (incoming_refers cs (coreOf (tlb (atomTable s))) (live (atomTable s)) _ h a x Hinv Hh Ha) in Hx as [Hx _]. }
  unfold AS.removeAtom. step (done). step (apply on_at_ok; exact E). by destruct s.
Qed.

Lemma removeAtom_unknown s h r :
  getAtom (AS.the_tlb s) h = None -> AS.removeAtom cs string_hash h r s = (Ok false, s).
Proof.
  intros Hh. unfold AS.removeAtom. step (done). unfold extract_fuel.
  assert (E : extract string_hash (Datatypes.S (size (handle_map (tlb (atomTable s))))) r h (atomTable s) = (Ok [], atomTable s)).
  { cbn [extract]. step (done). unfold AS.the_tlb in Hh. by rewrite Hh. }
  step (apply on_at_ok; exact E). by destruct s.
Qed.

(** ** clear *)
Lemma all_live_atoms s :
  table_wf cs (atomTable s) -> exists r,
    getHandleSet_type cs (atomTable s) (ATOM cs) true = Ok r /\ NoDup r /\
    forall h, h ∈ r <-> h ∈ live (atomTable s).
Proof.
  intros Hwf. pose proof (wf_range _ (ty_wf _ Hty)) as Hn. unfold NOTYPE in Hn.
  assert (HA : (ATOM cs < nTypes cs)%N).
  { destruct (isAb_bound cs _ _ (ty_time _ Hty)) as [Ht _].
    by destruct (isAb_bound cs _ _ (ty_atoms _ Hty _ Ht)). }
  destruct (getHandleSet_type_ok cs (atomTable s) (ATOM cs) true Hwf) as (r & E & Hnd & Hr); [lia|lia|].
  exists r. split; [done|]. split; [done|].
  intros h. rewrite Hr, (elem_of_live cs _ _ Hwf). split; [intros (a & Ha & _); eauto|].
  intros [a Ha]. exists a. split; [done|]. right. split; [done|]. apply (ty_atoms _ Hty).
  destruct (live_object cs _ Hwf h) as (a' & Ha' & Hok); [apply (elem_of_live cs); eauto|].
  simplify_eq. exact (ok_type _ _ Hok).
Qed.

Lemma all_atoms s :
  table_wf cs (atomTable s) -> exists r,
    getHandleSet_type_vh cs (atomTable s) (ATOM cs) true NULL_VERSION_HANDLE = Ok r /\
    forall h, h ∈ r <-> h ∈ live (atomTable s).
Proof.
  intros Hwf. destruct (all_live_atoms s Hwf) as (r & E & _ & Hr).
  exists r. split; [unfold getHandleSet_type_vh, with_version; by rewrite E|done].
Qed.

Lemma remove_each_ok l : forall s S, space_ok cs s S -> exists s' S',
  foreach (fun h => _ ← AS.removeAtom cs string_hash h true; mret tt) l s = (Ok tt, s') /\
  space_ok cs s' S' /\ same_wealth s s' /\ live (atomTable s') ⊆ live (atomTable s) /\
  forall h, h ∈ l -> h ∉ live (atomTable s').
Proof.
  induction l as [|h l IH]; intros s S Hok.
  { exists s, S. split; [done|]. split; [done|]. split; [done|]. split; [done|].
    by intros h ?%not_elem_of_nil. }
  assert (Hstep : exists b s1 S1, AS.removeAtom cs string_hash h true s = (Ok b, s1) /\ space_ok cs s1 S1 /\
            same_wealth s s1 /\ live (atomTable s1) ⊆ live (atomTable s) /\ (h ∉ live (atomTable s1))).
  { pose proof (so_table _ _ _ Hok) as Hwf. destruct (atomOf (AS.the_tlb s) h) as [a|] eqn:Ha.
    - destruct (removeAtom_ok s S h a true Hok Ha (or_introl eq_refl)) as (rs & s1 & S1 & E & [K R W _] & Hrs).
      exists true, s1, S1. do 3 (split; [done|]). rewrite (rm_live _ _ _ _ R).
      split; [set_solver|]. assert (h ∈ rs) by apply Hrs, rtc_refl. set_solver.
    - assert (Hh : h ∉ live (atomTable s)).
      { rewrite (elem_of_live cs _ _ Hwf). unfold AS.the_tlb in Ha. rewrite Ha. by intros []. }
      exists false, s, S. split; [|by split_and!]. apply removeAtom_unknown.
      destruct (getAtom (AS.the_tlb s) h) as [p|] eqn:Hp; [|done].
      destruct Hh. apply elem_of_live_map. by exists p. }
  destruct Hstep as (b & s1 & S1 & E1 & Hok1 & [W1 W1'] & Hsub & Hh).
  destruct (IH s1 S1 Hok1) as (s2 & S2 & E2 & Hok2 & [W2 W2'] & Hsub2 & Hl).
  exists s2, S2. cbn [foreach]. split; [step (by step (exact E1)); exact E2|]. split; [done|].
  split; [split; congruence|]. split; [set_solver|]. intros k [->|Hk]%elem_of_cons; [set_solver|auto].
Qed.

(** An empty atom space has no times, and the funds have it all. *)
Lemma empty_space s S :
  space_ok cs s S -> live (atomTable s) = ∅ ->
  pairs S = ∅ /\ fundsSTI s = wealthSTI s /\ fundsLTI s = wealthLTI s.
Proof.
  intros Hok Hl. unfold wealthSTI, wealthLTI. rewrite Hl. unfold gsum. rewrite elements_empty. simpl.
  split; [|lia]. apply set_eq. intros [x u]. rewrite (sy_pairs _ _ _ (so_sync _ _ _ Hok)).
  split; [|by intros ?%not_elem_of_empty]. intros [l [a Ha]%time_link_live].
  assert (Hin : l ∈ live (atomTable s)) by (apply (elem_of_live cs); [apply Hok|by exists a]).
  rewrite Hl in Hin. by apply not_elem_of_empty in Hin.
Qed.

Lemma AS_clear_ok s S :
  space_ok cs s S -> exists s' S', AS.AS_clear cs string_hash s = (Ok tt, s') /\ space_ok cs s' S' /\
    live (atomTable s') = ∅ /\ same_wealth s s'.
Proof.
  intros Hok. destruct (all_atoms s (so_table _ _ _ Hok)) as (r & E & Hr).
  destruct (remove_each_ok r s S Hok) as (s' & S' & E' & Hok' & W & Hsub & Hgone).
  assert (Hlive : live (atomTable s') = ∅).
  { apply set_eq. intros h. split; [|by intros ?%not_elem_of_empty]. intros Hh.
    destruct (Hgone h); [|done]. by apply Hr, Hsub. }
  destruct (all_atoms s' (so_table _ _ _ Hok')) as (r' & Er & Hr').
  exists s', S'. split; [|done]. unfold AS.AS_clear. step (by apply reads_ok). step (exact E').
  step (by apply reads_ok). destruct r' as [|h r']; [done|].
  assert (Hh : h ∈ live (atomTable s')) by (apply Hr'; left). rewrite Hlive in Hh.
  by apply not_elem_of_empty in Hh.
Qed.
End remove.
