(* ===== verification/SpaceAdd.v ===== *)
(** Adding atoms to an atom space (AtomSpace::addNode, addLink, atomAdded and
    addTimeInfo of src/opencog/atomspace/AtomSpace.cc) and changing attention
    values: the handler of the signal puts the pair of a new AtTimeLink into the
    time server, and the funds pay for every change of importance. *)
From S2P Require Import Prelude ClassServer TruthValue AttentionValue Atom TLB HandleEntry Index IndexSpec AtomTable TableInv TableRemove TableAdd TableProps TableAttention TableQuery Temporal TemporalEntry TimeSpec TemporalTable TimeGet TimeRefine SpaceServer AtomSpace SpaceInv SpaceRemove.

(** ** New objects *)
Definition fresh_atom (t : N) (tv : TruthValue) (body : AtomBody) : Atom :=
  mkAtom UNDEFINED t false [] 0 tv AV_factory body.
Definition tv_arg (tv : TruthValue) : Prop := tv_ok tv \/ tv = NullTV.

Lemma fresh_tv tv : tv_arg tv -> exists tv',
  (if isNullTv tv then clone DEFAULT_TV else clone tv) = Ok tv' /\ tv_ok tv'.
Proof.
  intros Htv. destruct (clone_default tv Htv) as [tv' E]. exists tv'. split; [done|].
  destruct Htv as [Hok| ->]; [|by injection E as <-].
  apply (clone_Ok_ok tv); [done|]. by destruct tv.
Qed.

Lemma fresh_node cs t name tv :
  isAb cs t (NODE cs) = true -> tv_arg tv -> exists tv',
    Node_new cs t name tv = Ok (fresh_atom t tv' (NodeBody name)) /\ tv_ok tv'.
Proof.
  intros Ht Htv. destruct (fresh_tv tv Htv) as (tv' & E & Hok). exists tv'. split; [|done].
  unfold Node_new, Atom_init. rewrite E. simpl. by rewrite Ht.
Qed.

Lemma fresh_link cs t outg tv :
  isAb cs t (LINK cs) = true -> tv_arg tv -> exists tv',
    Link_new cs t outg tv = Ok (fresh_atom t tv' (LinkBody (normal_outgoing cs t outg) (Trail.mk 1000 None))) /\ tv_ok tv'.
Proof.
  intros Ht Htv. destruct (fresh_tv tv Htv) as (tv' & E & Hok). exists tv'. split; [|done].
  unfold Link_new. change Trail.new with (Ok (Trail.mk 1000 None)). simpl.
  unfold Atom_init. rewrite E. simpl. rewrite Ht. simpl. by unfold setOutgoingSet, normal_outgoing.
Qed.

Lemma node_atom_ok cs t tv name :
  types_ok cs -> isAb cs t (NODE cs) = true -> atom_ok cs (fresh_atom t tv (NodeBody name)).
Proof.
  intros Hty Ht. split; [|by apply (isAb_bound cs _ (NODE cs))|simpl; lia|by vm_compute].
  split; [exact Ht|exact (ty_apart _ Hty t Ht)].
Qed.

Lemma link_atom_ok cs t tv outg tr :
  types_ok cs -> isAb cs t (LINK cs) = true -> length outg <= 64 -> atom_ok cs (fresh_atom t tv (LinkBody outg tr)).
Proof.
  intros Hty Ht Hl. split; [|by apply (isAb_bound cs _ (LINK cs))|done|by vm_compute].
  split; [|exact Ht]. unfold isNode. simpl. apply not_true_is_false. intros Hn.
  rewrite (ty_apart _ Hty t Hn) in Ht. done.
Qed.

Lemma normal_outgoing_perm cs t outg : normal_outgoing cs t outg ≡ₚ outg.
Proof. unfold normal_outgoing. destruct (isAb _ _ _); [apply sort_handles_perm|done]. Qed.

(** ** The time that a new link brings *)
Section times.
Context (cs : ClassServer).

Definition new_time (t : TLB) (a : Atom) (x : Handle) (u : Temporal) : Prop :=
  a_type a = AS.AT_TIME_LINK cs /\ exists n, outgoing a = [n; x] /\ time_node cs t n u.

(** A link of that type is over a time node and an atom. *)
Definition time_shape (t : TLB) (a : Atom) : Prop :=
  a_type a = AS.AT_TIME_LINK cs -> exists x u, new_time t a x u.

Lemma new_time_alloc T b a x u :
  table_wf cs T -> new_time (tlb (alloc b T)) a x u <-> new_time (tlb T) a x u.
Proof.
  intros Hwf. unfold new_time, time_node.
  split; intros (Ht & n & Ho & c & Hc & Hr); (split; [done|]); exists n; (split; [done|]); exists c;
    (split; [|done]); [rewrite (alloc_atoms cs) in Hc by done|rewrite (alloc_atoms cs) by done]; done.
Qed.

Section added.
Context (T T' : AtomTable) (h : Handle) (a : Atom).
Context (Hwf : table_wf cs T) (Hadd : adds cs T h a T') (Hout : forall x, x ∈ outgoing a -> x ∈ live T).

Lemma added_old k : k ∈ live T -> bone <$> atomOf (tlb T') k = bone <$> atomOf (tlb T) k.
Proof.
  intros Hk. change bone with (bone ∘ set_incoming []). rewrite !option_fmap_compose.
  by rewrite (ad_rest _ _ _ _ _ Hadd).
Qed.

Lemma added_split k b : atomOf (tlb T') k = Some b -> k = h \/ k ∈ live T /\ k <> h.
Proof.
  intros Hb. assert (Hk : k ∈ live T') by (apply (elem_of_live cs); [apply Hadd|eauto]).
  rewrite (ad_live _ _ _ _ _ Hadd) in Hk. apply elem_of_union in Hk as [->%elem_of_singleton|Hk]; [by left|right].
  split; [done|]. intros ->. by apply (ad_fresh _ _ _ _ _ Hadd).
Qed.

Lemma added_node n u : n ∈ live T -> time_node cs (tlb T') n u <-> time_node cs (tlb T) n u.
Proof.
  intros Hn. pose proof (added_old n Hn) as E.
  split; intros (b & Hb & Ht & Ho & Hnm & Hu); rewrite Hb in E; [symmetry in E|];
    apply fmap_Some in E as (b' & Hb' & Heq); exists b'; (split; [done|]);
    [symmetry in Heq|]; symmetry in Heq; apply bone_fields in Heq as (E1 & _ & E2 & E3);
    rewrite ?E1, ?E2, ?E3 in *; split_and!; congruence.
Qed.

Lemma added_link l x u :
  time_link cs (tlb T') l x u <-> time_link cs (tlb T) l x u \/ l = h /\ new_time (tlb T) a x u.
Proof.
  pose proof (tw_inv _ _ Hwf) as Hinv. split.
  - intros (b & n & Hb & Ht & Ho & Hn). destruct (added_split l b Hb) as [->|[Hl Hlh]].
    + rewrite (ad_atom _ _ _ _ _ Hadd) in Hb. injection Hb as <-. right. split; [done|]. split; [done|].
      exists n. split; [done|]. apply added_node; [|done]. apply Hout.
      change (outgoing a = [n; x]) in Ho. rewrite Ho. left.
    + left. pose proof (added_old l Hl) as E. rewrite Hb in E. symmetry in E.
      apply fmap_Some in E as (c & Hc & Heq). apply bone_fields in Heq as (E1 & E2 & _).
      exists c, n. split; [done|]. split; [congruence|]. split; [congruence|].
      apply added_node; [|done]. rewrite E2 in Ho.
      apply (st_closed _ _ _ (inv_static _ _ _ _ Hinv) l (core c) n Hl).
      * unfold coreOf. by rewrite Hc.
      * change (n ∈ outgoing c). rewrite Ho. left.
  - intros [(b & n & Hb & Ht & Ho & Hn)|[-> (Ht & n & Ho & Hn)]].
    + assert (Hl : l ∈ live T) by (apply (elem_of_live cs); eauto).
      pose proof (added_old l Hl) as E. rewrite Hb in E.
      apply fmap_Some in E as (c & Hc & Heq). symmetry in Heq. apply bone_fields in Heq as (E1 & E2 & _).
      exists c, n. split; [done|]. split; [congruence|]. split; [congruence|].
      apply added_node; [|done]. destruct Hn as (d & Hd & _). apply (elem_of_live cs); eauto.
    + exists (set_inTable true (set_handle h a)), n. split; [apply Hadd|]. do 2 (split; [done|]).
      apply added_node; [|done]. apply Hout. rewrite Ho. left.
Qed.

Lemma adds_sync A A' :
  in_sync cs (tlb T) A -> time_shape (tlb T) a ->
  (forall x u, (x, u) ∈ A' <-> (x, u) ∈ A \/ new_time (tlb T) a x u) -> in_sync cs (tlb T') A'.
Proof.
  intros Hsy Hsh HA'. apply in_sync_table; [apply Hadd| |].
  - intros k b Hb Ht. destruct (added_split k b Hb) as [->|[Hk _]].
    + rewrite (ad_atom _ _ _ _ _ Hadd) in Hb. injection Hb as <-.
      destruct (Hsh Ht) as (x & u & Hn). exists x, u. apply added_link. by right.
    + pose proof (added_old k Hk) as E. rewrite Hb in E. symmetry in E.
      apply fmap_Some in E as (c & Hc & Heq). apply bone_fields in Heq as (E1 & _).
      destruct (sy_shape _ _ _ Hsy k c Hc) as (x & u & Hl); [congruence|].
      exists x, u. apply added_link. by left.
  - intros x u. rewrite HA', (sy_pairs _ _ _ Hsy). split.
    + intros [[l Hl]|Hn]; [exists l|exists h]; apply added_link; by auto.
    + intros [l [Hl|[_ Hn]]%added_link]; [left; by exists l|by right].
Qed.
End added.
End times.

(** ** Values that are merged *)
Lemma merge_tv_total tv b : tv_arg tv -> tv_ok (a_truthValue b) -> exists tv',
  merge_tv tv b = Ok (set_tv tv' b) /\ tv_ok tv'.
Proof.
  intros Htv Hb. unfold merge_tv, setTruthValue.
  destruct Htv as [Hok| ->]; [|exists (a_truthValue b); split; [by destruct b|done]].
  assert (Hn : isNullTv tv = false) by by destruct tv. rewrite Hn.
  assert (Hnb : isNullTv (a_truthValue b) = false) by by destruct (a_truthValue b). rewrite Hnb.
  destruct (merge_ok _ _ Hb Hok) as (r & _ & _ & _ & E & _). rewrite E. cbn [mbind res_bind].
  pose proof (merge_tv_ok _ _ _ Hb Hok E) as Hr. destruct (clone_ok r Hr) as (Ec & Hc & _).
  exists (cl r). by rewrite Ec.
Qed.

Section space.
Context `{SetOrder} (cs : ClassServer) (string_hash : string -> N).
Context {M : Type} `{SpaceMapLaws M} (Hty : types_ok cs).
Implicit Types s : AtomSpace M.

(** From [s] to [s'] the atom [h] is there with the type and the name or the
    outgoing set of [a]; everything else stays. *)
Record space_adds s (S : server) (a : Atom) (h : Handle) s' (S' : server) : Prop := {
  sp_ok : space_ok cs s' S';
  sp_wealth : same_wealth s s';
  sp_live : live (atomTable s') = {[h]} ∪ live (atomTable s);
  sp_atom : exists b, atomOf (AS.the_tlb s') h = Some b /\ same_atom a b;
  sp_old : forall k b, atomOf (AS.the_tlb s) k = Some b -> exists b', atomOf (AS.the_tlb s') k = Some b' /\
    bone b' = bone b /\ a_attentionValue b' = a_attentionValue b;
  sp_pairs : forall x u, (x, u) ∈ pairs S' <-> (x, u) ∈ pairs S \/ new_time cs (AS.the_tlb s) a x u;
  sp_brk : (brk_uuid (AS.the_tlb s') <= brk_uuid (AS.the_tlb s) + 1)%N
}.

(** ** The handler *)
Lemma atomAdded_ok s S h b :
  atomOf (AS.the_tlb s) h = Some b -> represents (timeServer s) S -> time_shape cs (AS.the_tlb s) b ->
  exists ts' S', AS.atomAdded cs h s = (Ok tt, set_timeServer ts' s) /\ represents ts' S' /\
    forall x u, (x, u) ∈ pairs S' <-> (x, u) ∈ pairs S \/ new_time cs (AS.the_tlb s) b x u.
Proof.
  intros Hb Hrep Hsh. unfold AS.atomAdded. step (by apply reads_ok, type_read).
  destruct (N.eqb_spec (a_type b) (AS.AT_TIME_LINK cs)) as [Ht|Ht].
  2: { exists (timeServer s), S. split; [by destruct s|]. split; [done|]. intros x u. split; [by left|].
       by intros [?|[? _]]. }
  destruct (Hsh Ht) as (x & u & _ & n & Ho & c & Hc & Htc & Hoc & Hn & Hu).
  assert (Hlen : length [n; x] <= 64) by (simpl; lia).
  destruct (add_refines (timeServer s) S x u Hrep Hu) as (ts' & E & Hrep').
  exists ts', (spec_add x u S). split; [|split; [done|]].
  - step (by apply reads_ok, (arity_read s h b Hb [n; x] Ho)).
    change (Z.of_nat (length [n; x]) =? 2)%Z with true. cbv iota.
    step (by apply reads_ok, (outgoing_read s h b Hb [n; x] Ho) with (i := 0)).
    step (by apply reads_ok, (type_read s n c)). rewrite Htc, N.eqb_refl.
    step (by apply reads_ok, (name_read s n c)).
    step (unfold lift; rewrite Hn, wf_name_parses by done; done).
    step (by apply reads_ok, (outgoing_read s h b Hb [n; x] Ho) with (i := 1)).
    by apply on_ts_ok.
  - intros y v. cbn [spec_add pairs]. rewrite elem_of_union, elem_of_singleton. split.
    + intros [[= -> ->]|Hp]; [right|by left]. split; [done|]. exists n. split; [done|]. by exists c.
    + intros [Hp|(_ & n' & Ho' & c' & Hc' & _ & _ & Hn' & Hv)]; [by right|left]. simplify_eq.
      rewrite Ho in Ho'. simplify_eq. f_equal. apply name_inj; [done|done|congruence].
Qed.

(** ** New atoms *)
Lemma AV_factory_none t h b :
  atomOf t h = Some b -> a_attentionValue b = AV_factory -> sti_of t h = 0%Z /\ lti_of t h = 0%Z.
Proof. intros Hb Ha. unfold sti_of, lti_of. by rewrite Hb, Ha. Qed.

Lemma added_sum (f : TLB -> Handle -> Z) (g : AttentionValue -> Z) T T' h a :
  (forall t h, f t h = match atomOf t h with Some a => g (a_attentionValue a) | None => 0%Z end) ->
  adds cs T h a T' -> g (a_attentionValue a) = 0%Z ->
  gsum (f (tlb T')) (live T') = gsum (f (tlb T)) (live T).
Proof.
  intros Hf R Hg. rewrite (ad_live _ _ _ _ _ R), gsum_insert by apply (ad_fresh _ _ _ _ _ R).
  rewrite Hf, (ad_atom _ _ _ _ _ R). simpl. rewrite Hg. simpl. apply gsum_ext. intros k Hk. rewrite !Hf.
  apply (ad_rest _ _ _ _ _ R) in Hk.
  destruct (atomOf (tlb T') k) as [[]|], (atomOf (tlb T) k) as [[]|]; simpl in Hk; try done. by simplify_eq/=.
Qed.

Lemma put_new_ok s S t tv body :
  space_ok cs s S -> atom_ok cs (fresh_atom t tv body) -> tv_ok tv ->
  (forall h b, atomOf (AS.the_tlb s) h = Some b -> ~ same_atom (fresh_atom t tv body) b) ->
  (forall x, x ∈ outgoing (fresh_atom t tv body) -> x ∈ live (atomTable s)) ->
  (brk_uuid (AS.the_tlb s) < UNDEFINED)%N -> time_shape cs (AS.the_tlb s) (fresh_atom t tv body) ->
  exists h s' S', (p ← AS.new_object (Ok (fresh_atom t tv body)); AS.table_add cs string_hash p) s = (Ok h, s') /\
    space_adds s S (fresh_atom t tv body) h s' S'.
Proof.
  set (a := fresh_atom t tv body). intros [Hwf Htv Hsy Hrep Hmaps Hbs] Hok Htvok Hno Hout Hmax Hsh.
  set (T := alloc a (atomTable s)). set (h := brk_uuid (tlb T)).
  assert (HwfT : table_wf cs T) by by apply alloc_wf.
  assert (Hat : forall k, atomOf (tlb T) k = atomOf (AS.the_tlb s) k) by (intros k; by apply (alloc_atoms cs)).
  assert (HnoT : forall k b, atomOf (tlb T) k = Some b -> ~ same_atom a b) by (intros k b; rewrite Hat; apply Hno).
  destruct (add_new_ok cs string_hash T (alloc_at a (atomTable s)) a) as (T' & E & Hadd); try done.
  { by apply alloc_new. }
  { destruct (getHandle_atom_ok cs T a HwfT (ok_type _ _ Hok)) as [(k & b & _ & Hb & Hs)|[E _]]; [|done].
    by destruct (HnoT k b Hb). }
  fold h in E, Hadd. set (s1 := set_atomTable T' s).
  destruct (atomAdded_ok s1 S h (set_inTable true (set_handle h a))) as (ts' & S' & Ea & Hrep' & HS').
  { apply Hadd. }
  { done. }
  { intros Ht. destruct (Hsh Ht) as (x & u & _ & n & Ho & Hn). exists x, u. split; [done|]. exists n.
    split; [done|]. apply (added_node cs T T' h a Hadd); [|by apply (time_node_bone _ (AS.the_tlb s)); [intros k; by rewrite Hat|]].
    apply Hout. rewrite Ho. left. }
  assert (HnT : forall x u, new_time cs (tlb T') (set_inTable true (set_handle h a)) x u <-> new_time cs (AS.the_tlb s) a x u).
  { intros x u. rewrite <- (new_time_alloc cs (atomTable s) a a x u Hwf). fold T. unfold new_time.
    split; intros (Ht & n & Ho & Hn); (split; [done|]); exists n; (split; [done|]);
      apply (added_node cs T T' h a Hadd n u); try done; apply Hout; change (outgoing a = [n; x]) in Ho; rewrite Ho; left. }
  exists h, (set_timeServer ts' s1), S'. split.
  { unfold AS.new_object. step (step (done); done). unfold AS.table_add. step (done).
    change (set_atomTable _ s) with (set_atomTable T s). step (apply on_at_ok; exact E).
    step (done). cbn [atomTable set_atomTable]. rewrite (ad_signals _ _ _ _ _ Hadd).
    change (signals T) with (signals (atomTable s)). rewrite drop_app_length. cbn [foreach].
    step (step (exact Ea); done). done. }
  assert (Hpairs : forall x u, (x, u) ∈ pairs S' <-> (x, u) ∈ pairs S \/ new_time cs (AS.the_tlb s) a x u).
  { intros x u. rewrite HS'. by rewrite <- HnT. }
  split; try done.
  - split; [apply Hadd| | |done|done|done].
    + intros k b Hb. change (atomOf (tlb T') k = Some b) in Hb.
      destruct (added_split cs T T' h a Hadd k b Hb) as [->|[Hk _]].
      * rewrite (ad_atom _ _ _ _ _ Hadd) in Hb. by injection Hb as <-.
      * apply (ad_rest _ _ _ _ _ Hadd) in Hk. rewrite Hb, Hat in Hk. symmetry in Hk.
        apply fmap_Some in Hk as (c & Hc & Heq). specialize (Htv k c Hc). destruct b, c. by simplify_eq/=.
    + change (in_sync cs (tlb T') (pairs S')). apply (adds_sync cs T T' h a HwfT Hadd Hout (pairs S)).
      * apply (in_sync_bone cs (AS.the_tlb s)); [|done]. intros k. by rewrite Hat.
      * intros Ht. destruct (Hsh Ht) as (x & u & Hn). exists x, u. by apply new_time_alloc.
      * intros x u. rewrite Hpairs. by rewrite <- (new_time_alloc cs (atomTable s) a a x u Hwf).
  - assert (Hsum : forall f g, (forall t h, f t h = match atomOf t h with Some a => g (a_attentionValue a) | None => 0%Z end) ->
      g AV_factory = 0%Z -> gsum (f (tlb T')) (live T') = gsum (f (AS.the_tlb s)) (live (atomTable s))).
    { intros f g Hf Hg. rewrite (added_sum f g T T' h a Hf Hadd Hg). apply gsum_ext. intros k _. by rewrite !Hf, Hat. }
    unfold same_wealth, wealthSTI, wealthLTI. split; f_equal; [by apply (Hsum sti_of getSTI)|by apply (Hsum lti_of getLTI)].
  - exact (ad_live _ _ _ _ _ Hadd).
  - eexists. split; [apply Hadd|done].
  - intros k b Hb. change (AS.the_tlb (set_timeServer ts' s1)) with (tlb T').
    assert (Hk : k ∈ live T) by (apply (elem_of_live cs); [done|]; exists b; by rewrite Hat).
    apply (ad_rest _ _ _ _ _ Hadd) in Hk. rewrite Hat, Hb in Hk.
    apply fmap_Some in Hk as (c & Hc & Heq). exists c. split; [done|]. by destruct b, c; simplify_eq/=.
  - change (brk_uuid (tlb T') <= h + 1)%N. rewrite (ad_brk _ _ _ _ _ Hadd). fold h. lia.
Qed.

(** ** Atoms that are there already *)

(** The atom [h] has got another truth value. *)
Lemma revalue_space s S a h b tv' T' :
  space_ok cs s S -> atomOf (AS.the_tlb s) h = Some b -> same_atom a b -> tv_ok tv' -> table_wf cs T' ->
  (forall k, atomOf (tlb T') k = if decide (k = h) then Some (set_tv tv' b) else atomOf (AS.the_tlb s) k) ->
  brk_uuid (tlb T') = brk_uuid (AS.the_tlb s) ->
  space_adds s S a h (set_atomTable T' s) S.
Proof.
  intros [Hwf Htv Hsy Hrep Hmaps Hbs] Hb Hab Htv' HwfT Hat Hbrk.
  assert (Hbones : same_bones (AS.the_tlb s) (tlb T')).
  { intros k. rewrite Hat. case_decide as Hk; [subst; by rewrite Hb|done]. }
  assert (Hlive : live T' = live (atomTable s)).
  { apply set_eq. intros k. rewrite !(elem_of_live cs) by done. rewrite Hat. unfold AS.the_tlb in *.
    case_decide as Hk; [subst; rewrite Hb; split; eauto|done]. }
  assert (Hav : forall f g, (forall t k, f t k = match atomOf t k with Some a => g (a_attentionValue a) | None => 0%Z end) ->
            gsum (f (tlb T')) (live T') = gsum (f (AS.the_tlb s)) (live (atomTable s))).
  { intros f g Hf. rewrite Hlive. apply gsum_ext. intros k _. rewrite !Hf, Hat.
    case_decide as Hk; [subst; by rewrite Hb|done]. }
  split; change (AS.the_tlb (set_atomTable T' s)) with (tlb T').
  - split; try done; change (AS.the_tlb (set_atomTable T' s)) with (tlb T').
    + intros k c. rewrite Hat. case_decide; [by intros [= <-]|apply Htv].
    + by apply (in_sync_bone cs (AS.the_tlb s)).
  - unfold same_wealth, wealthSTI, wealthLTI. split; f_equal; [by apply (Hav sti_of getSTI)|by apply (Hav lti_of getLTI)].
  - change (live T' = {[h]} ∪ live (atomTable s)). rewrite Hlive. apply set_eq. intros k.
    rewrite elem_of_union, elem_of_singleton. split; [by right|]. intros [->|Hk]; [|done].
    apply (elem_of_live cs); [done|]. eauto.
  - exists (set_tv tv' b). split; [by rewrite Hat, decide_True|done].
  - intros k c Hc. rewrite Hat. case_decide as Hk; [subst|by exists c].
    rewrite Hb in Hc. injection Hc as <-. by exists (set_tv tv' b).
  - intros x u. split; [by left|]. intros [?|(Ht & n & Ho & Hn)]; [done|]. apply (sy_pairs _ _ _ Hsy). exists h, b, n.
    destruct Hab as (Et & Ek & El). split; [done|]. split; [congruence|]. split; [|done].
    unfold link_key, isLinkObj, outgoing in *. destruct (a_body a), (a_body b); try done. congruence.
  - rewrite Hbrk. lia.
Qed.

Lemma put_existing_ok s S t tv body h b :
  space_ok cs s S -> atom_ok cs (fresh_atom t tv body) -> tv_ok tv ->
  atomOf (AS.the_tlb s) h = Some b -> same_atom (fresh_atom t tv body) b ->
  exists s', (p ← AS.new_object (Ok (fresh_atom t tv body)); AS.table_add cs string_hash p) s = (Ok h, s') /\
    space_adds s S (fresh_atom t tv body) h s' S.
Proof.
  set (a := fresh_atom t tv body). intros Hsp Hok Htvok Hb Hab. pose proof Hsp as [Hwf Htv Hsy Hrep Hmaps Hbs].
  set (T := alloc a (atomTable s)). assert (HwfT : table_wf cs T) by by apply alloc_wf.
  assert (Hat : forall k, atomOf (tlb T) k = atomOf (AS.the_tlb s) k) by (intros k; by apply (alloc_atoms cs)).
  destruct (merge_tv_total tv b (or_introl Htvok) (Htv h b Hb)) as (tv' & Em & Htv').
  destruct (add_existing_ok cs string_hash T (alloc_at a (atomTable s)) a h b (set_tv tv' b) true HwfT
              (alloc_new _ _ _ Hok eq_refl eq_refl eq_refl eq_refl))
    as (T' & E & R); [by rewrite Hat|done|exact Em|].
  exists (set_atomTable T' s). split.
  - unfold AS.new_object. step (step (done); done). unfold AS.table_add. step (done).
    step (apply (on_at_ok _ (set_atomTable T s)); exact E).
    step (done). cbn [atomTable set_atomTable]. rewrite (mg_signals _ _ _ _ _ _ R).
    change (signals T) with (signals (atomTable s)). rewrite drop_app_length. done.
  - apply (revalue_space s S a h b tv'); try done; [apply R| |].
    + intros k. rewrite (mg_atoms _ _ _ _ _ _ R). case_decide; [done|apply Hat].
    + rewrite (mg_brk _ _ _ _ _ _ R). done.
Qed.

(** [AtomTable::merge] on a live atom. *)
Lemma merge_space_ok s S a h b tv :
  space_ok cs s S -> tv_arg tv -> atomOf (AS.the_tlb s) h = Some b -> same_atom a b ->
  exists s', on_at (AtomTable.merge h tv) s = (Ok tt, s') /\ space_adds s S a h s' S.
Proof.
  intros Hsp Htvarg Hb Hab. pose proof Hsp as [Hwf Htv Hsy Hrep Hmaps Hbs].
  pose proof (tw_inv _ _ Hwf) as Hinv. pose proof (inv_tlb _ _ _ _ Hinv) as Ht.
  destruct (merge_tv_total tv b Htvarg (Htv h b Hb)) as (tv' & Em & Htv').
  destruct (on_atom_ok (AS.the_tlb s) h (merge_tv tv) b _ Ht Hb Em) as (t1 & E1 & Ht1 & Hm1 & Hb1 & Hat1); [done|].
  assert (Hv : isValidHandle (tlb (atomTable s)) h = true) by (apply isValidHandle_atomOf; eauto).
  set (T' := emit (MergeAtomSignal h) (set_tlb t1 (atomTable s))).
  exists (set_atomTable T' s). split.
  { apply on_at_ok. unfold AtomTable.merge. step (done). rewrite Hv.
    step (unfold on_tlb; apply modify_ok; unfold AS.the_tlb in E1; rewrite E1; done). done. }
  apply (revalue_space s S a h b tv'); try done.
  assert (Hinv2 : inv cs (coreOf (tlb (atomTable s))) (live (atomTable s)) (set_tlb t1 (atomTable s))).
  { apply inv_store; [done..|]. intros k. rewrite Hat1. unfold AS.the_tlb in *.
    destruct (decide (k = h)) as [->|].
    - rewrite Hb. exists (a_flags b), tv'. by destruct b.
    - destruct (atomOf (tlb (atomTable s)) k) as [c|]; [|done].
      exists (a_flags c), (a_truthValue c). by destruct c. }
  assert (Hl : live T' = live (atomTable s)) by (unfold live; simpl; by rewrite Hm1).
  split.
  - rewrite Hl. refine (inv_view cs (coreOf (tlb (atomTable s))) _ T' _).
    destruct Hinv2 as [? ? ? [[] ? ?] ? ?]. split; [done..| |done|done]. by split.
  - intros k c. change (tlb T') with t1. rewrite Hat1. case_decide; [|by apply (tw_marks _ _ Hwf)].
    intros [= <-]. by apply (tw_marks _ _ Hwf h b).
Qed.

(** ** addNode and addLink *)
Definition node_like (t : N) (name : string) : Atom := fresh_atom t DEFAULT_TV (NodeBody name).
Definition link_like (t : N) (outg : list Handle) : Atom :=
  fresh_atom t DEFAULT_TV (LinkBody outg (Trail.mk 1000 None)).

Lemma space_adds_tv s S t tv body h s' S' :
  space_adds s S (fresh_atom t tv body) h s' S' -> space_adds s S (fresh_atom t DEFAULT_TV body) h s' S'.
Proof. by intros []. Qed.

(** The object that is created becomes a new atom or is merged into the one
    that equals it. *)
Lemma put_atom_ok s S t tv body :
  space_ok cs s S -> atom_ok cs (fresh_atom t tv body) -> tv_ok tv ->
  (forall x, x ∈ outgoing (fresh_atom t tv body) -> x ∈ live (atomTable s)) ->
  (brk_uuid (AS.the_tlb s) < UNDEFINED)%N -> time_shape cs (AS.the_tlb s) (fresh_atom t tv body) ->
  exists h s' S', (p ← AS.new_object (Ok (fresh_atom t tv body)); AS.table_add cs string_hash p) s = (Ok h, s') /\
    space_adds s S (fresh_atom t DEFAULT_TV body) h s' S'.
Proof.
  intros Hsp Hok Htv Hout Hmax Hsh.
  destruct (getHandle_atom_ok cs (atomTable s) (fresh_atom t tv body) (so_table _ _ _ Hsp) (ok_type _ _ Hok))
    as [(h & b & _ & Hb & Hs)|[_ Hno]].
  - destruct (put_existing_ok s S t tv body h b Hsp Hok Htv Hb Hs) as (s' & E & R).
    exists h, s', S. split; [exact E|]. by apply space_adds_tv in R.
  - destruct (put_new_ok s S t tv body Hsp Hok Htv Hno Hout Hmax Hsh) as (h & s' & S' & E & R).
    exists h, s', S'. split; [exact E|]. by apply space_adds_tv in R.
Qed.

Context (stores : positive -> BackingStore).

Lemma add_atom_run s query a tv :
  backing_store s = None ->
  AS.add_atom cs string_hash stores query a tv s = (p ← AS.new_object a; AS.table_add cs string_hash p) s.
Proof.
  intros Hb. unfold AS.add_atom. step (done).
  assert (Hs : set_funds (fundsSTI s - DEFAULTATOMSTI) (fundsLTI s - DEFAULTATOMLTI) s = s).
  { unfold DEFAULTATOMSTI, DEFAULTATOMLTI. rewrite !Z.sub_0_r. by destruct s. }
  rewrite Hs. step (unfold AS.from_store; step (done); rewrite Hb; done). done.
Qed.

Lemma addNode_ok s S t name tv :
  space_ok cs s S -> isAb cs t (NODE cs) = true -> tv_arg tv -> (brk_uuid (AS.the_tlb s) < UNDEFINED)%N ->
  exists h s' S', AS.addNode cs string_hash stores t name tv s = (Ok h, s') /\
    space_adds s S (node_like t name) h s' S'.
Proof.
  intros Hsp Ht Htv Hmax. pose proof (node_atom_ok cs t DEFAULT_TV name Hty Ht) as Hok.
  unfold AS.addNode.
  destruct (getHandle_atom_ok cs (atomTable s) (node_like t name) (so_table _ _ _ Hsp) (ok_type _ _ Hok))
    as [(h & b & E & Hb & Hs)|[E _]]; (step (apply reads_ok; exact E)); step (done).
  - rewrite (valid_read cs s h (so_table _ _ _ Hsp)), bool_decide_true by eauto.
    destruct (merge_space_ok s S _ h b tv Hsp Htv Hb Hs) as (s' & Em & R).
    exists h, s', S. split; [by step (exact Em)|done].
  - change (AS.isValid UNDEFINED s) with false. cbv iota. rewrite add_atom_run by apply Hsp.
    destruct (fresh_node cs t name tv Ht Htv) as (tv' & -> & Htv'). apply put_atom_ok; try done.
    + by apply node_atom_ok.
    + by intros x ?%not_elem_of_nil.
    + intros Hat. exfalso. pose proof (ty_apart _ Hty t Ht) as Hl. change (t = AS.AT_TIME_LINK cs) in Hat.
      rewrite Hat, (ty_link _ Hty) in Hl. done.
Qed.

Lemma addLink_ok s S t outg tv :
  space_ok cs s S -> isAb cs t (LINK cs) = true -> length outg <= 64 ->
  (forall x, x ∈ outg -> x ∈ live (atomTable s)) -> tv_arg tv -> (brk_uuid (AS.the_tlb s) < UNDEFINED)%N ->
  time_shape cs (AS.the_tlb s) (link_like t outg) ->
  exists o h s' S', AS.addLink cs string_hash stores t outg tv s = (Ok h, s') /\
    (o = outg \/ o = normal_outgoing cs t outg) /\ space_adds s S (link_like t o) h s' S'.
Proof.
  intros Hsp Ht Hlen Hout Htv Hmax Hsh.
  pose proof (link_atom_ok cs t DEFAULT_TV outg (Trail.mk 1000 None) Hty Ht Hlen) as Hok.
  unfold AS.addLink.
  destruct (getHandle_atom_ok cs (atomTable s) (link_like t outg) (so_table _ _ _ Hsp) (ok_type _ _ Hok))
    as [(h & b & E & Hb & Hs)|[E _]]; (step (apply reads_ok; exact E)); step (done).
  - rewrite (valid_read cs s h (so_table _ _ _ Hsp)), bool_decide_true by eauto.
    destruct (merge_space_ok s S _ h b tv Hsp Htv Hb Hs) as (s' & Em & R).
    exists outg, h, s', S. split; [by step (exact Em)|]. split; [by left|done].
  - change (AS.isValid UNDEFINED s) with false. cbv iota. rewrite add_atom_run by apply Hsp.
    destruct (fresh_link cs t outg tv Ht Htv) as (tv' & -> & Htv').
    pose proof (normal_outgoing_perm cs t outg) as Hp.
    destruct (put_atom_ok s S t tv' (LinkBody (normal_outgoing cs t outg) (Trail.mk 1000 None)) Hsp) as (h & s' & S' & Ep & R);
      [|done| |done| |].
    + apply link_atom_ok; [done|done|]. by rewrite Hp.
    + intros x Hx. apply Hout. change (x ∈ normal_outgoing cs t outg) in Hx. by rewrite Hp in Hx.
    + intros Hat. change (t = AS.AT_TIME_LINK cs) in Hat. destruct (Hsh Hat) as (x & u & Hn). exists x, u.
      assert (Hno : normal_outgoing cs t outg = outg) by (unfold normal_outgoing; by rewrite Hat, (ty_ordered _ Hty)).
      rewrite Hno. exact Hn.
    + exists (normal_outgoing cs t outg), h, s', S'. split; [exact Ep|]. split; [by right|done].
Qed.

(** ** addTimeInfo *)
Lemma addTimeInfo_ok s S h u tv :
  space_ok cs s S -> h ∈ live (atomTable s) -> t_wf u -> tv_arg tv ->
  (brk_uuid (AS.the_tlb s) + 1 < UNDEFINED)%N ->
  exists l s' S', AS.addTimeInfo cs string_hash stores h u tv s = (Ok l, s') /\ space_ok cs s' S' /\
    same_wealth s s' /\ pairs S' = {[(h, u)]} ∪ pairs S /\ time_link cs (AS.the_tlb s') l h u /\
    live (atomTable s) ⊆ live (atomTable s').
Proof.
  intros Hsp Hh Hu Htv Hmax. pose proof (so_table _ _ _ Hsp) as Hwf.
  unfold AS.addTimeInfo. step (done). rewrite (valid_read cs s h Hwf), bool_decide_true by by apply (elem_of_live cs).
  cbn [negb]. unfold T_ne. rewrite (t_wf_defined u Hu). cbn [negb]. unfold AS.addTimeInfo_name.
  destruct (addNode_ok s S (AS.TIME_NODE cs) (c_str (getTimeNodeName u)) DEFAULT_TV Hsp (ty_time _ Hty))
    as (n & s1 & S1 & E1 & [Hsp1 W1 L1 (b & Hb & Hs) O1 P1 B1]); [by left|lia|].
  step (exact E1).
  assert (Hn : time_node cs (AS.the_tlb s1) n u).
  { exists b. destruct Hs as (Et & Ek & _). split; [done|]. split; [by rewrite <- Et|].
    change (Some (c_str (c_str (getTimeNodeName u))) = node_key b) in Ek. rewrite !c_str_name in Ek.
    unfold node_key, isNodeObj, isLinkObj, getName in *. destruct (a_body b); [|done].
    split; [done|]. injection Ek as Ek. split; [done|done]. }
  assert (Hlive : forall x, x ∈ [n; h] -> x ∈ live (atomTable s1)).
  { intros x Hx. rewrite L1. set_solver. }
  assert (Hsh : time_shape cs (AS.the_tlb s1) (link_like (AS.AT_TIME_LINK cs) [n; h])).
  { intros _. exists h, u. split; [done|]. by exists n. }
  destruct (addLink_ok s1 S1 (AS.AT_TIME_LINK cs) [n; h] tv Hsp1 (ty_link _ Hty))
    as (o & l & s2 & S2 & E2 & Ho & [Hsp2 W2 L2 (c & Hc & Hs2) O2 P2 B2]); [simpl; lia|done|done|lia|done|].
  assert (o = [n; h]) as ->.
  { destruct Ho as [->| ->]; [done|]. unfold normal_outgoing. by rewrite (ty_ordered _ Hty). }
  exists l, s2, S2. split; [exact E2|]. split; [done|]. split; [|split; [|split]].
  - destruct W1, W2. split; congruence.
  - apply set_eq. intros [x v]. rewrite P2, P1, elem_of_union, elem_of_singleton. split.
    + intros [[Hp|[Hat _]]|(_ & n' & Hnx & Hv)]; [by right| |].
      * exfalso. pose proof (ty_apart _ Hty _ (ty_time _ Hty)) as Hl. change (AS.TIME_NODE cs = AS.AT_TIME_LINK cs) in Hat.
        rewrite Hat, (ty_link _ Hty) in Hl. done.
      * injection Hnx as -> ->. left. f_equal. destruct Hn as (b1 & Hb1 & _ & _ & N1 & _), Hv as (b2 & Hb2 & _ & _ & N2 & Hv2).
        apply name_inj; [done|done|congruence].
    + intros [[= -> ->]|Hp]; [|by left; left]. right. split; [done|]. by exists n.
  - exists c, n. destruct Hs2 as (Et & _ & El). split; [done|]. split; [by rewrite <- Et|]. split.
    + unfold link_key, link_like, isLinkObj, outgoing in *. simpl in El. destruct (a_body c); [done|congruence].
    + destruct Hn as (b1 & Hb1 & Ht1 & Ho1 & N1 & _). destruct (O2 n b1 Hb1) as (b2 & Hb2 & Hbone & _).
      apply bone_fields in Hbone as (F1 & _ & F2 & F3). exists b2. rewrite F1, F2, F3. done.
  - rewrite L2, L1. set_solver.
Qed.

(** ** Attention values *)
Lemma setAV_ok s S h a av :
  space_ok cs s S -> atomOf (AS.the_tlb s) h = Some a -> AV_wf av ->
  exists s', AS.setAV_at h av s = (Ok tt, s') /\ space_ok cs s' S /\ same_wealth s s' /\
    revalues cs (atomTable s) h a av (atomTable s') /\
    fundsSTI s' = (fundsSTI s + (getSTI (a_attentionValue a) - getSTI av))%Z.
Proof.
  intros [Hwf Htv Hsy Hrep Hmaps Hbs] Ha Hav. destruct (pointer_read s h a Ha) as (p & Ep & Hp & Hpa).
  destruct (setAttentionValue_ok cs (atomTable s) h p a av Hwf Hp Hpa Hav) as (T' & E & R).
  unfold AS.setAV_at. step (by apply reads_ok). unfold AS.setAV.
  step (apply reads_ok; unfold AS.holder; rewrite Hpa; done). step (done).
  set (s1 := set_funds _ _ s). exists (set_atomTable T' s1). split; [by apply on_at_ok|].
  assert (Hat : forall k, atomOf (tlb T') k = if decide (k = h) then Some (set_av av a) else atomOf (AS.the_tlb s) k)
    by apply (rv_atoms _ _ _ _ _ _ R).
  assert (Hl : live T' = live (atomTable s)) by (unfold live; by rewrite (rv_map _ _ _ _ _ _ R)).
  assert (Hh : h ∈ live (atomTable s)) by (apply (elem_of_live cs); eauto).
  split; [|split; [|split; [done|done]]].
  - split; try done; change (AS.the_tlb (set_atomTable T' s1)) with (tlb T').
    + apply R.
    + intros k b. rewrite Hat. case_decide; [|apply Htv]. intros [= <-]. exact (Htv h a Ha).
    + apply (in_sync_bone cs (AS.the_tlb s)); [|done]. intros k. rewrite Hat.
      case_decide as Hk; [subst; by rewrite Ha|done].
  - assert (Hsum : forall f g, (forall t k, f t k = match atomOf t k with Some a => g (a_attentionValue a) | None => 0%Z end) ->
      gsum (f (tlb T')) (live T') = (gsum (f (AS.the_tlb s)) (live (atomTable s)) + g av - g (a_attentionValue a))%Z).
    { intros f g Hf. rewrite Hl, (gsum_update _ (f (AS.the_tlb s)) h); [|done|].
      - rewrite !Hf, Hat, decide_True, Ha by done. done.
      - intros k _ Hk. by rewrite !Hf, Hat, decide_False. }
    unfold same_wealth, wealthSTI, wealthLTI. change (AS.the_tlb (set_atomTable T' s1)) with (tlb T').
    change (atomTable (set_atomTable T' s1)) with T'.
    rewrite (Hsum sti_of getSTI (fun _ _ => eq_refl)), (Hsum lti_of getLTI (fun _ _ => eq_refl)). simpl. lia.
Qed.
End space.
