(* ===== verification/SpaceTime.v ===== *)
(** Times of atoms (AtomSpace::getTimeInfo, getAtTimeLink and removeTimeInfo of
    src/opencog/atomspace/AtomSpace.cc): the pointers of a lookup lead to the
    AtTimeLinks, and removing the links one after the other leaves the pointers
    that are still needed alone. *)
From S2P Require Import Prelude ClassServer TruthValue AttentionValue Atom TLB HandleEntry Index IndexSpec AtomTable TableInv TableRemove TableAdd TableProps TableQuery Temporal TemporalEntry TimeSpec TemporalTable TimeGet TimeRefine SpaceServer AtomSpace SpaceInv SpaceRemove.

Section time.
Context `{SetOrder} (cs : ClassServer) (string_hash : string -> N).
Context {M : Type} `{SpaceMapLaws M} (Hty : types_ok cs).
Implicit Types s : AtomSpace M.

(** The pair [p] that a lookup returned stands for the time [u] of [h]. *)
Definition points_to s (p : HandleTemporalPair) (h : Handle) (u : Temporal) : Prop :=
  p.1 = h /\ temporals (tt_mem (table (timeServer s))) !! p.2 = Some u.

(** ** The link of a pair *)
Lemma time_node_found s n u :
  table_wf cs (atomTable s) -> time_node cs (AS.the_tlb s) n u ->
  AS.getHandle_node (AS.TIME_NODE cs) (c_str (getTimeNodeName u)) s = Ok n.
Proof.
  intros Hwf (b & Hb & Ht & Ho & Hn & Hu).
  set (a := mkAtom UNDEFINED (AS.TIME_NODE cs) false [] 0 DEFAULT_TV AV_factory (NodeBody (c_str (getTimeNodeName u)))).
  assert (Hab : same_atom a b).
  { split_and!; [done| |].
    - unfold node_key. rewrite Ho. change (Some (c_str (c_str (getTimeNodeName u))) = Some (c_str (getName b))).
      by rewrite !c_str_name, Hn.
    - unfold link_key, isNodeObj in *. by destruct (isLinkObj b). }
  destruct (getHandle_atom_ok cs (atomTable s) a Hwf) as [(h & b' & E & Hb' & Hs)|[_ Hno]].
  - apply (isAb_bound cs _ (NODE cs)), Hty.
  - change (AS.getHandle_node (AS.TIME_NODE cs) (c_str (getTimeNodeName u)) s = Ok h) in E.
    rewrite E. f_equal. apply (same_atom_unique cs (atomTable s) h n b' b Hwf Hb' Hb).
    destruct Hab as (A1 & A2 & A3), Hs as (B1 & B2 & B3). split_and!; congruence.
  - by destruct (Hno n b Hb).
Qed.

Lemma getAtTimeLink_ok s S p h u :
  space_ok cs s S -> points_to s p h u -> (h, u) ∈ pairs S ->
  exists l, AS.getAtTimeLink cs string_hash p s = Ok l /\ time_link cs (AS.the_tlb s) l h u.
Proof.
  intros Hok [Hp1 Hp2] Hp. pose proof (so_table _ _ _ Hok) as Hwf. pose proof (so_sync _ _ _ Hok) as Hsy.
  apply (sy_pairs _ _ _ Hsy) in Hp as [l Hl]. pose proof Hl as (a & n & Ha & Ht & Ho & Hn).
  assert (Hlive : forall x, x ∈ [n; h] -> x ∈ live (atomTable s)).
  { intros x Hx. apply (elem_of_live cs); [done|]. apply (sy_closed _ _ _ Hsy l a x Ha). by rewrite Ho. }
  destruct (getHandleSet_handles_ok cs string_hash (atomTable s) [n; h] None None (AS.AT_TIME_LINK cs) Hwf
              (ty_link _ Hty) Hlive) as (r & E & Hlen & Hr); [simpl; lia|].
  exists l. split; [|done]. unfold AS.getAtTimeLink. rewrite Hp2, Hp1. cbn [of_opt mbind res_bind].
  rewrite (time_node_found s n u Hwf Hn). cbn [mbind res_bind].
  rewrite (valid_read cs s n Hwf), bool_decide_true by (apply (elem_of_live cs), Hlive; [done|left]).
  unfold getHandleSet_handles_vh, with_version. change 2%N with (N.of_nat (length [n; h])). rewrite E. cbn [mbind res_bind].
  change (filterSet_version (tlb (atomTable s)) NULL_VERSION_HANDLE r) with (Ok r). cbn [mbind res_bind]. f_equal.
  assert (Hlr : l ∈ r).
  { apply Hr. exists a. split; [done|]. split; [done|]. split.
    - unfold isLinkObj, outgoing in *. by destruct (a_body a).
    - unfold normal_outgoing. by rewrite (ty_ordered _ Hty). }
  destruct r as [|k [|k' r]]; [by apply not_elem_of_nil in Hlr| |simpl in Hlen; lia].
  apply list_elem_of_singleton in Hlr. done.
Qed.

(** ** Which links a removal leaves *)
Lemma removed_links s S rs s' S' l x u :
  space_ok cs s S -> space_removes cs s S rs s' S' ->
  time_link cs (AS.the_tlb s') l x u <-> time_link cs (AS.the_tlb s) l x u /\ (l ∉ rs).
Proof.
  intros Hok [Hok' R _ _]. pose proof (so_table _ _ _ Hok) as Hwf. pose proof (so_table _ _ _ Hok') as Hwf'.
  assert (Hin : forall k, k ∈ live (atomTable s') <-> k ∈ live (atomTable s) /\ k ∉ rs).
  { intros k. rewrite (rm_live _ _ _ _ R). set_solver. }
  assert (Hrest : forall k, k ∈ live (atomTable s') -> bone <$> atomOf (AS.the_tlb s') k = bone <$> atomOf (AS.the_tlb s) k).
  { intros k Hk. change bone with (bone ∘ set_incoming []). rewrite !option_fmap_compose.
    unfold AS.the_tlb. by rewrite (rm_rest _ _ _ _ R). }
  assert (Hnode : forall n, n ∈ live (atomTable s') -> time_node cs (AS.the_tlb s') n u <-> time_node cs (AS.the_tlb s) n u).
  { intros n Hn. pose proof (Hrest n Hn) as E.
    split; intros (b & Hb & Ht & Ho & Hnm & Hu); rewrite Hb in E; [symmetry in E|];
      apply fmap_Some in E as (b' & Hb' & Heq); exists b'; (split; [done|]);
      [symmetry in Heq|]; symmetry in Heq; apply bone_fields in Heq as (E1 & _ & E2 & E3);
      rewrite ?E1, ?E2, ?E3 in *; split_and!; congruence. }
  split.
  - intros (a & n & Ha & Ht & Ho & Hn). assert (Hl : l ∈ live (atomTable s')) by (apply (elem_of_live cs); eauto).
    split; [|by apply Hin in Hl as [_ ?]]. pose proof (Hrest l Hl) as E. rewrite Ha in E. symmetry in E.
    apply fmap_Some in E as (b & Hb & Heq). apply bone_fields in Heq as (E1 & E2 & _).
    exists b, n. split; [done|]. split; [congruence|]. split; [congruence|]. apply Hnode; [|done].
    apply (elem_of_live cs); [done|]. destruct Hn as (c & Hc & _). by exists c.
  - intros [(a & n & Ha & Ht & Ho & Hn) Hnrs].
    assert (Hl : l ∈ live (atomTable s')) by (apply Hin; split; [apply (elem_of_live cs); eauto|done]).
    pose proof (Hrest l Hl) as E. rewrite Ha in E. apply fmap_Some in E as (b & Hb & Heq). symmetry in Heq.
    apply bone_fields in Heq as (E1 & E2 & _). exists b, n. split; [done|]. split; [congruence|]. split; [congruence|].
    apply Hnode; [|done]. apply (elem_of_live cs); [done|].
    apply (sy_closed _ _ _ (so_sync _ _ _ Hok') l b n Hb). rewrite E2, Ho. left.
Qed.

(** Above an AtTimeLink there is neither its time nor its atom nor another
    AtTimeLink of that atom. *)
Lemma not_above s S l x u k b :
  space_ok cs s S -> time_link cs (AS.the_tlb s) l x u -> atomOf (AS.the_tlb s) k = Some b ->
  above (coreOf (AS.the_tlb s)) (live (atomTable s)) l k ->
  k <> x /\ a_type b <> AS.TIME_NODE cs /\ forall v, time_link cs (AS.the_tlb s) k x v -> k = l.
Proof.
  intros Hok Hl Hb Hk. pose proof (so_table _ _ _ Hok) as Hwf. pose proof (tw_inv _ _ Hwf) as Hinv.
  pose proof (inv_static _ _ _ _ Hinv) as Hst. pose proof Hl as (a & n & Ha & Ht & Ho & Hn).
  assert (Hcore : forall y c, atomOf (AS.the_tlb s) y = Some c -> y ∈ live (atomTable s) /\ coreOf (AS.the_tlb s) y = Some (core c)).
  { intros y c Hc. split; [apply (elem_of_live cs); eauto|]. unfold coreOf. by rewrite Hc. }
  destruct (Hcore l a Ha) as [HlL Hlc].
  assert (Hxl : (x < l)%N).
  { apply (st_closed _ _ _ Hst l (core a) x HlL Hlc). change (x ∈ outgoing a). rewrite Ho. right. left. }
  pose proof (above_le _ _ _ _ _ Hst Hk) as Hle.
  assert (Hkx : k <> x) by lia. split; [done|].
  assert (Hdiff : AS.TIME_NODE cs <> AS.AT_TIME_LINK cs).
  { intros E. pose proof (ty_apart _ Hty _ (ty_time _ Hty)) as Hap. rewrite E, (ty_link _ Hty) in Hap. done. }
  assert (Hnode : forall y c, atomOf (AS.the_tlb s) y = Some c -> a_type c = AS.TIME_NODE cs -> outgoing c = []).
  { intros y c [HyL Hyc]%Hcore Htc. destruct (st_atom _ _ _ Hst y _ HyL Hyc) as [[Hnc _] _ _ _].
    unfold isNode in Hnc. change (a_type (core c)) with (a_type c) in Hnc. rewrite Htc, (ty_time _ Hty) in Hnc.
    unfold isNodeObj, isLinkObj, outgoing in *. simpl in Hnc. by destruct (a_body c). }
  apply rtc_inv_r in Hk. destruct Hk as [<-|(z & Hlz & HkL & c & Hc & Hz)].
  { split; [congruence|done]. }
  apply coreOf_Some in Hc as (c' & Hc' & <-).
  assert (c' = b) as -> by congruence. assert (Hzo : z ∈ outgoing b).
  { change (z ∈ targets b) in Hz. unfold targets in Hz. apply elem_of_take in Hz as (j & Hj & _).
    by apply list_elem_of_lookup_2 in Hj. }
  split.
  - intros Htb. rewrite (Hnode k b Hb Htb) in Hzo. by apply not_elem_of_nil in Hzo.
  - intros v (b' & n' & Hb' & _ & Ho' & c2 & Hc2 & Htc2 & _). assert (b' = b) as -> by congruence.
    rewrite Ho' in Hzo. exfalso. apply elem_of_cons in Hzo as [->| ->%list_elem_of_singleton].
    + apply rtc_inv_r in Hlz. destruct Hlz as [<-|(y & _ & _ & d & Hd & Hy)]; [congruence|].
      apply coreOf_Some in Hd as (d' & Hd' & <-). assert (d' = c2) as -> by congruence.
      change (y ∈ targets c2) in Hy. unfold targets in Hy. rewrite (Hnode n' c2 Hc2 Htc2) in Hy.
      rewrite take_nil in Hy. by apply not_elem_of_nil in Hy.
    + pose proof (above_le _ _ _ _ _ Hst Hlz). lia.
Qed.

(** ** removeTimeInfo *)
Lemma incoming_read s h a : atomOf (AS.the_tlb s) h = Some a -> AS.getIncoming h s = Ok (a_incoming a).
Proof. intros Ha. unfold AS.getIncoming. rewrite (atom_read s h a Ha). cbn [mbind res_bind]. by rewrite HE_toHandleVector_id. Qed.

(** The times of [h] are the old ones but for [u]. *)
Record drops_time s (S : server) (h : Handle) (u : Temporal) s' (S' : server) : Prop := {
  dt_ok : space_ok cs s' S';
  dt_wealth : same_wealth s s';
  dt_times : shrinks (timeServer s) S (timeServer s') S';
  dt_pairs : forall v, (h, v) ∈ pairs S' <-> (h, v) ∈ pairs S /\ v <> u
}.

(** Removing the link. *)
Lemma remove_the_link s S l n h u :
  space_ok cs s S -> time_link cs (AS.the_tlb s) l h u -> (exists a, atomOf (AS.the_tlb s) l = Some a /\ outgoing a = [n; h]) ->
  exists s' S', AS.removeAtom cs string_hash l true s = (Ok true, s') /\ drops_time s S h u s' S' /\
    exists b, atomOf (AS.the_tlb s') n = Some b /\ a_type b = AS.TIME_NODE cs.
Proof.
  intros Hok Hl (a & Ha & Ho). pose proof (so_table _ _ _ Hok) as Hwf.
  destruct (removeAtom_ok cs string_hash Hty s S l a true Hok Ha (or_introl eq_refl)) as (rs & s' & S' & E & R & Hrs).
  pose proof R as [Hok' Rt W K]. exists s', S'. split; [exact E|]. split.
  - split; [done|done|done|]. intros v.
    rewrite (sy_pairs _ _ _ (so_sync _ _ _ Hok')), (sy_pairs _ _ _ (so_sync _ _ _ Hok)). split.
    + intros [l' [Hl' Hn]%(removed_links s S rs s' S')]; [|done|done]. split; [by exists l'|]. intros ->. apply Hn.
      rewrite (sy_unique _ _ _ (so_sync _ _ _ Hok) l' l h u Hl' Hl). apply Hrs, rtc_refl.
    + intros [[l' Hl'] Hv]. exists l'. apply (removed_links s S rs s' S'); [done|done|]. split; [done|].
      intros Hin%Hrs. destruct (time_link_live _ _ _ _ _ Hl') as [b Hb].
      destruct (not_above s S l h u l' b Hok Hl Hb Hin) as (_ & _ & Hu).
      assert (l' = l) as -> by by apply (Hu v). apply Hv. by apply (time_link_fun cs _ _ _ _ _ _ Hl' Hl).
  - pose proof Hl as (a' & n' & Ha' & _ & Ho' & c & Hc & Htc & _). assert (a' = a) as -> by congruence.
    assert (n' = n) as -> by congruence.
    assert (Hn : n ∉ rs).
    { intros Hin%Hrs. by destruct (not_above s S l h u n c Hok Hl Hc Hin) as (_ & Ht & _). }
    assert (HnL : n ∈ live (atomTable s')).
    { rewrite (rm_live _ _ _ _ Rt). apply elem_of_difference. rewrite elem_of_list_to_set. split; [|done].
      apply (elem_of_live cs); eauto. }
    pose proof (rm_rest _ _ _ _ Rt n HnL) as Hr. unfold AS.the_tlb in *. rewrite Hc in Hr.
    apply fmap_Some in Hr as (d & Hd & Heq). exists d. split; [done|]. destruct c, d. by simplify_eq/=.
Qed.

(** Removing a time node to which no link refers. *)
Lemma remove_the_node s S n b h u s0 S0 :
  drops_time s0 S0 h u s S -> atomOf (AS.the_tlb s) n = Some b -> a_type b = AS.TIME_NODE cs -> a_incoming b = [] ->
  exists s' S', AS.removeAtom cs string_hash n false s = (Ok true, s') /\ drops_time s0 S0 h u s' S'.
Proof.
  intros [Hok W K P] Hb Ht Hi. pose proof (so_table _ _ _ Hok) as Hwf.
  assert (Hn : n ∈ live (atomTable s)) by (apply (elem_of_live cs); eauto).
  destruct (removeAtom_ok cs string_hash Hty s S n b false Hok Hb (or_intror Hi)) as (rs & s' & S' & E & R & Hrs).
  pose proof R as [Hok' _ [W1 W2] K']. exists s', S'. split; [exact E|]. split; [done| | |].
  - destruct W. split; congruence.
  - by apply (shrinks_trans _ _ (timeServer s) S).
  - intros v. rewrite <- P. rewrite (sy_pairs _ _ _ (so_sync _ _ _ Hok')), (sy_pairs _ _ _ (so_sync _ _ _ Hok)).
    split; intros [l Hl]; exists l; [by apply (removed_links s S rs s' S') in Hl as [? _]|].
    apply (removed_links s S rs s' S'); [done|done|]. split; [done|].
    intros [->|(z & Hz & _)]%Hrs%rtc_inv.
    + destruct Hl as (a & m & Ha & Hta & _). assert (a = b) as -> by congruence.
      pose proof (ty_apart _ Hty _ (ty_time _ Hty)) as Hap. rewrite <- Ht, Hta, (ty_link _ Hty) in Hap. done.
    + apply (incoming_refers cs _ _ (atomTable s) n b z (tw_inv _ _ Hwf) Hn Hb) in Hz. rewrite Hi in Hz.
      by apply not_elem_of_nil in Hz.
Qed.

Lemma remove_time_link_ok s S p h u drop :
  space_ok cs s S -> points_to s p h u -> (h, u) ∈ pairs S ->
  exists s' S', AS.remove_time_link cs string_hash p drop true s = (Ok true, s') /\ drops_time s S h u s' S'.
Proof.
  intros Hok Hpt Hp. pose proof (so_table _ _ _ Hok) as Hwf.
  destruct (getAtTimeLink_ok s S p h u Hok Hpt Hp) as (l & E & Hl).
  pose proof Hl as (a & n & Ha & Ht & Ho & c & Hc & Htc & _).
  destruct (remove_the_link s S l n h u Hok Hl) as (s1 & S1 & E1 & D & b & Hb & Htb); [by exists a|].
  assert (Hlen : length [n; h] <= 64) by (simpl; lia).
  assert (Hdrop : exists s' S', (if drop then
      incoming ← reads (AS.getIncoming n);
      match incoming with [] => _ ← AS.removeAtom cs string_hash n false; mret tt | _ => mret tt end
    else mret tt) s1 = (Ok tt, s') /\ drops_time s S h u s' S').
  { destruct drop; [|by exists s1, S1].
    destruct (a_incoming b) as [|y l'] eqn:Ei.
    - destruct (remove_the_node s1 S1 n b h u s S D Hb Htb Ei) as (s' & S' & E2 & D').
      exists s', S'. split; [|done]. step (by apply reads_ok, incoming_read). rewrite Ei. by step (exact E2).
    - exists s1, S1. split; [|done]. step (by apply reads_ok, incoming_read). by rewrite Ei. }
  destruct Hdrop as (s' & S' & E2 & D'). exists s', S'. split; [|done].
  unfold AS.remove_time_link. step (apply reads_ok; exact E). step (done).
  rewrite (valid_read cs s l Hwf), bool_decide_true by eauto.
  step (by apply reads_ok, (outgoing_read s l a Ha [n; h] Ho) with (i := 0)).
  step (by apply reads_ok, (arity_read s l a Ha [n; h] Ho)).
  change (negb (Z.of_nat (length [n; h]) =? 2)%Z) with false. cbv iota.
  step (apply reads_ok; rewrite (valid_read cs s n Hwf), bool_decide_true, (type_read s n c Hc) by eauto; done).
  rewrite Htc, N.eqb_refl. cbn [negb]. step (exact E1). cbv iota. by step (exact E2).
Qed.

Lemma remove_time_links_ok h drop r : forall s S us result,
  space_ok cs s S -> Forall2 (fun p u => points_to s p h u) r us -> NoDup us ->
  (forall u, u ∈ us -> (h, u) ∈ pairs S) ->
  exists s' S', AS.remove_time_links cs string_hash r drop true result s = (Ok result, s') /\
    space_ok cs s' S' /\ same_wealth s s' /\ pairs S' ⊆ pairs S /\
    forall v, (h, v) ∈ pairs S' <-> (h, v) ∈ pairs S /\ (v ∉ us).
Proof.
  induction r as [|p r IH]; intros s S us result Hok HF Hd Hin.
  { apply Forall2_nil_inv_l in HF as ->. exists s, S. split_and!; try done. intros v.
    split; [intros ?; split; [done|apply not_elem_of_nil]|by intros [? _]]. }
  apply Forall2_cons_inv_l in HF as (u & us' & Hp & HF & ->). apply NoDup_cons in Hd as [Hu Hd].
  destruct (remove_time_link_ok s S p h u drop Hok Hp (Hin u ltac:(left))) as (s1 & S1 & E1 & [Hok1 [W1 W1'] [Ksub K1] P1]).
  assert (Hin1 : forall v, v ∈ us' -> (h, v) ∈ pairs S1).
  { intros v Hv. apply P1. split; [apply Hin; by right|]. by intros ->. }
  destruct (IH s1 S1 us' result Hok1) as (s' & S' & E & Hok' & [W W'] & Hsub & HP'); [|done|done|].
  { apply Forall2_same_length_lookup in HF as [Hlen HF]. apply Forall2_same_length_lookup. split; [done|].
    intros i q v Hq Hv. destruct (HF i q v Hq Hv) as [Hq1 Hq2]. split; [done|].
    apply (K1 q.2 h v); [|done]. by apply Hin1, (list_elem_of_lookup_2 _ i). }
  exists s', S'. cbn [AS.remove_time_links]. split; [by step (exact E1)|]. split; [done|].
  split; [split; congruence|]. split; [set_solver|]. intros v. rewrite HP', P1, not_elem_of_cons. tauto.
Qed.

(** The pairs of one handle that a lookup returns. *)
Lemma lookup_points s S h u criterion :
  space_ok cs s S -> t_arg u -> h <> UNDEFINED -> exists r,
    TS_get h u criterion (timeServer s) = (Ok r, timeServer s) /\
    Forall2 (fun p v => points_to s p h v) r (found u criterion (times_of (pairs S) h)).
Proof.
  intros Hok Hu Hh. destruct (get_refines (timeServer s) S h u criterion (so_time _ _ _ Hok) Hu) as (r & E & Hr).
  exists r. split; [done|]. unfold spec_get in Hr. rewrite (proj2 (N.eqb_neq _ _)) in Hr by done.
  apply Forall2_fmap_r in Hr. done.
Qed.

Lemma found_nodup u criterion l : NoDup l -> NoDup (found u criterion l).
Proof.
  intros Hd. unfold found, wanted. destruct (T_eq _ _); [done|].
  assert (Hf : NoDup (filter (fun T => related criterion u T) l)) by by apply NoDup_filter.
  destruct (is_next criterion).
  - destruct (filter _ l) as [|x l']; [constructor|]. simpl. apply NoDup_singleton.
  - destruct (is_previous criterion); [|done]. destruct (last _); [apply NoDup_singleton|constructor].
Qed.

Lemma removeTimeInfo_ok s S h u criterion drop :
  space_ok cs s S -> t_arg u -> h <> UNDEFINED ->
  exists s' S', AS.removeTimeInfo cs string_hash h u criterion drop true s =
      (Ok (negb (bool_decide (found u criterion (times_of (pairs S) h) = []))), s') /\
    space_ok cs s' S' /\ same_wealth s s' /\ pairs S' ⊆ pairs S /\
    forall v, (h, v) ∈ pairs S' <-> (h, v) ∈ pairs S /\ (v ∉ found u criterion (times_of (pairs S) h)).
Proof.
  intros Hok Hu Hh. destruct (lookup_points s S h u criterion Hok Hu Hh) as (r & E & HF).
  set (us := found u criterion (times_of (pairs S) h)) in *.
  assert (Hd : NoDup us).
  { apply found_nodup. unfold times_of, in_order. rewrite merge_sort_Permutation. apply NoDup_elements. }
  destruct (remove_time_links_ok h drop r s S us (negb (bool_decide (r = []))) Hok HF Hd) as (s' & S' & E' & Hrest).
  { intros v Hv%elem_of_found_in. by apply elem_of_times_of. }
  assert (Eg : AS.getTimeInfo h u criterion s = (Ok r, s)).
  { unfold AS.getTimeInfo. rewrite (on_ts_ok _ _ _ _ E). by destruct s. }
  exists s', S'. split; [|done]. unfold AS.removeTimeInfo. step (exact Eg).
  rewrite E'. do 3 f_equal. apply bool_decide_ext. apply Forall2_length in HF. by destruct r, us.
Qed.
End time.
