(* ===== verification/SpaceValue.v ===== *)
(** Truth values in an atom space (AtomSpace::getTV, setTV), and the search for
    variables (AtomSpace::containsVar) of src/opencog/atomspace/AtomSpace.cc. *)
From S2P Require Import Prelude ClassServer TruthValue AttentionValue Atom TLB HandleEntry Index IndexSpec AtomTable TableInv TableRemove TableAdd TableProps TableQuery Temporal TemporalEntry TimeSpec TemporalTable TimeGet TimeRefine SpaceServer AtomSpace SpaceInv SpaceRemove SpaceAdd.

(** ** Versions *)
Lemma cl_not_null tv : tv_ok tv -> isNullTv (cl tv) = false.
Proof. intros H. destruct (clone_ok _ H) as (_ & Hc & _). by destruct (cl tv). Qed.

(** The new value is stored under its version, or as the primary value. *)
Lemma set_version_ok inv tv vh p vs :
  tv_ok tv -> versions_ok vs -> (forall q, p = Some q -> tv_ok q) -> exists p' vs',
    setVersionedTV inv tv vh p vs = Ok (p', vs') /\ versions_ok vs' /\ (forall q, p' = Some q -> tv_ok q) /\
    (is_Some p -> is_Some p') /\
    (isNullVersionHandle inv vh = false -> p' = p /\ afind vh vs' = Some (cl tv) /\
       forall k, k <> vh -> afind k vs' = afind k vs).
Proof.
  intros Htv Hvs Hp. unfold setVersionedTV. assert (Hn : isNullTv tv = false) by by destruct tv. rewrite Hn.
  destruct (clone_ok tv Htv) as (E & Hc & _). rewrite E. cbn [mbind res_bind].
  assert (Hset : isNullVersionHandle inv vh = false -> p = p /\ afind vh (aset vh (cl tv) vs) = Some (cl tv) /\
            forall k, k <> vh -> afind k (aset vh (cl tv) vs) = afind k vs).
  { intros _. split; [done|]. split; [by rewrite afind_aset, decide_True|].
    intros k Hk. by rewrite afind_aset, decide_False. }
  pose proof (versions_aset vh (cl tv) vs Hvs Hc) as Hvs'.
  destruct (afind vh vs) as [old|] eqn:Ef; [by exists p, (aset vh (cl tv) vs)|].
  destruct (isNullVersionHandle inv vh) eqn:Ev; cbn [negb]; [|by exists p, (aset vh (cl tv) vs)].
  exists (Some (cl tv)), vs. split_and!; try done. by intros q [= <-].
Qed.

Lemma composite_versions p vs : tv_ok (CompositeTV p vs) -> is_Some p /\ versions_ok vs /\ forall q, p = Some q -> tv_ok q.
Proof.
  destruct p as [q|]; [|done]. intros (Hq & Hvs)%tv_ok_comp. split; [done|]. split; [done|]. by intros ? [= <-].
Qed.

Section value.
Context `{SetOrder} (cs : ClassServer) (string_hash : string -> N).
Context {M : Type} `{SpaceMapLaws M} (Hty : types_ok cs).
Implicit Types s : AtomSpace M.

(** The composite value with [tv] for the version [vh]. *)
Lemma with_version_ok s tv vh c :
  tv_ok tv -> tv_ok c -> is_composite c = true -> exists p vs p' vs', c = CompositeTV p vs /\
    AS.with_version s tv vh c = Ok (CompositeTV p' vs') /\ tv_ok (CompositeTV p' vs') /\
    (isNullVersionHandle (AS.isInvalid s) vh = false -> p' = p /\ afind vh vs' = Some (cl tv) /\
       forall k, k <> vh -> afind k vs' = afind k vs).
Proof.
  intros Htv Hc Hco. destruct c as [| | | |p vs]; try done.
  destruct (composite_versions p vs Hc) as (Hp & Hvs & Hq).
  destruct (set_version_ok (AS.isInvalid s) tv vh p vs Htv Hvs Hq) as (p' & vs' & E & Hvs' & Hq' & Hp' & Hset).
  exists p, vs, p', vs'. split; [done|]. split; [cbn [AS.with_version]; by rewrite E|]. split; [|done].
  destruct (Hp' Hp) as [q ->]. apply tv_ok_comp. split; [by apply Hq'|done].
Qed.

(** A composite value for a value that is none. *)
Lemma composite_init_ok s tv : tv_ok tv -> exists c,
  composite_init (AS.isInvalid s) tv NULL_VERSION_HANDLE = Ok c /\ tv_ok c /\ c = CompositeTV (Some (cl tv)) [].
Proof.
  intros Htv. unfold composite_init, setVersionedTV. assert (Hn : isNullTv tv = false) by by destruct tv. rewrite Hn.
  destruct (clone_ok tv Htv) as (-> & Hc & _). cbn [mbind res_bind afind].
  change (isNullVersionHandle (AS.isInvalid s) NULL_VERSION_HANDLE) with true. cbn [negb].
  eexists. split; [done|]. split; [|done]. apply tv_ok_comp. split; [done|]. by repeat constructor.
Qed.

Lemma tv_read s h a : table_wf cs (atomTable s) -> atomOf (AS.the_tlb s) h = Some a ->
  AS.getTV h NULL_VERSION_HANDLE s = Ok (a_truthValue a).
Proof.
  intros Hwf Ha. unfold AS.getTV. assert (Hv : AS.isInvalid s h = false).
  { pose proof (valid_read cs s h Hwf) as Hv. rewrite bool_decide_true in Hv by eauto.
    unfold AS.isValid, isValidHandle in Hv. by apply negb_true_iff in Hv. }
  rewrite Hv, (atom_read s h a Ha). cbn [mbind res_bind].
  by change (isNullVersionHandle (AS.isInvalid s) NULL_VERSION_HANDLE) with true.
Qed.

(** From [s] to [s'] the atom [h] has got the truth value [tv]. *)
Record puts s S h a tv s' : Prop := {
  pt_ok : space_ok cs s' S;
  pt_wealth : same_wealth s s';
  pt_valid : forall k, AS.isInvalid s' k = AS.isInvalid s k;
  pt_atoms : forall k, atomOf (AS.the_tlb s') k = if decide (k = h) then Some (set_tv tv a) else atomOf (AS.the_tlb s) k
}.

Lemma put_tv_ok s S h a tv :
  space_ok cs s S -> atomOf (AS.the_tlb s) h = Some a -> tv_ok tv ->
  exists s', AS.put_tv h tv s = (Ok tt, s') /\ puts s S h a (cl tv) s'.
Proof.
  intros Hok Ha Htv. pose proof (so_table _ _ _ Hok) as Hwf. pose proof (tw_inv _ _ Hwf) as Hinv.
  destruct (clone_ok tv Htv) as (Ec & Hc & _).
  destruct (on_atom_ok (AS.the_tlb s) h (setTruthValue tv) a (set_tv (cl tv) a) (inv_tlb _ _ _ _ Hinv) Ha)
    as (t1 & E1 & Ht1 & Hm1 & Hb1 & Hat1); [unfold setTruthValue; by rewrite Ec|done|].
  set (T' := set_tlb t1 (atomTable s)). exists (set_atomTable T' s). split.
  { unfold AS.put_tv. apply on_at_ok. unfold on_tlb. apply modify_ok. unfold AS.the_tlb in E1. by rewrite E1. }
  assert (HwfT : table_wf cs T').
  { split.
    - assert (Hl : live T' = live (atomTable s)) by (unfold live; simpl; by rewrite Hm1). rewrite Hl.
      refine (inv_view cs (coreOf (tlb (atomTable s))) _ T' _). apply inv_store; [done..|].
      intros k. rewrite Hat1. unfold AS.the_tlb in *. destruct (decide (k = h)) as [->|].
      + rewrite Ha. exists (a_flags a), (cl tv). by destruct a.
      + destruct (atomOf (tlb (atomTable s)) k) as [c|]; [|done]. exists (a_flags c), (a_truthValue c). by destruct c.
    - intros k c. change (tlb T') with t1. rewrite Hat1. case_decide; [|by apply (tw_marks _ _ Hwf)].
      intros [= <-]. by apply (tw_marks _ _ Hwf h a). }
  destruct (revalue_space cs s S a h a (cl tv) T' Hok Ha) as [Hok' W _ _ _ _ _]; try done.
  split; [done|done| |done]. intros k. unfold AS.isInvalid, isInvalidHandle, getAtom.
  change (AS.the_tlb (set_atomTable T' s)) with t1. by rewrite Hm1, Hb1.
Qed.

(** The value of a version of an atom, as [getTV] reads it. *)
Lemma version_read s h a vh p vs :
  table_wf cs (atomTable s) -> atomOf (AS.the_tlb s) h = Some a -> a_truthValue a = CompositeTV p vs ->
  isNullVersionHandle (AS.isInvalid s) vh = false ->
  AS.getTV h vh s = Ok (default NullTV (afind vh vs)).
Proof.
  intros Hwf Ha Htv Hvh. unfold AS.getTV. assert (Hv : AS.isInvalid s h = false).
  { pose proof (valid_read cs s h Hwf) as Hv. rewrite bool_decide_true in Hv by eauto.
    unfold AS.isValid, isValidHandle in Hv. by apply negb_true_iff in Hv. }
  rewrite Hv, (atom_read s h a Ha). cbn [mbind res_bind]. rewrite Hvh, Htv. cbn [getType_tv mbind res_bind].
  change (COMPOSITE_TRUTH_VALUE =? COMPOSITE_TRUTH_VALUE)%Z with true. cbv iota.
  unfold getVersionedTV. rewrite Hvh. cbn [negb]. by destruct (afind vh vs).
Qed.

(** [setTV] stores the value; for a valid version handle under the version, in
    a composite value that has the old versions and the old primary value. *)
Lemma setTV_ok s S h a tv vh :
  space_ok cs s S -> atomOf (AS.the_tlb s) h = Some a -> tv_ok tv ->
  exists t s', AS.setTV h tv vh s = (Ok tt, s') /\ puts s S h a t s' /\
    (isNullVersionHandle (AS.isInvalid s) vh = false -> exists p vs, t = CompositeTV p vs /\
       afind vh vs = Some (cl (cl tv)) /\
       forall k, k <> vh -> afind k vs =
         match a_truthValue a with
         | CompositeTV _ ws => (fun x => cl (cl x)) <$> afind k ws
         | _ => None
         end).
Proof.
  intros Hok Ha Htv. pose proof (so_table _ _ _ Hok) as Hwf. pose proof (so_tv _ _ _ Hok h a Ha) as Hcur.
  destruct (getType_tv_ok _ Hcur) as (ct & Ect & Hct).
  unfold AS.setTV. step (by apply reads_ok, (tv_read s h a)). step (done). step (unfold lift; by rewrite Ect).
  rewrite Hct. destruct (isNullVersionHandle (AS.isInvalid s) vh) eqn:Evh; cbn [negb].
  - assert (Hplain : exists t s', AS.put_tv h tv s = (Ok tt, s') /\ puts s S h a t s' /\ (true = false -> exists p vs, t = CompositeTV p vs /\
       afind vh vs = Some (cl (cl tv)) /\ forall k, k <> vh -> afind k vs =
         match a_truthValue a with CompositeTV _ ws => (fun x => cl (cl x)) <$> afind k ws | _ => None end)).
    { destruct (put_tv_ok s S h a tv Hok Ha Htv) as (s' & E & P). by exists (cl tv), s'. }
    destruct (is_composite (a_truthValue a)) eqn:Eco; [|exact Hplain].
    destruct (getType_tv_ok _ Htv) as (t & Et & Htc). step (unfold lift; by rewrite Et). rewrite Htc.
    destruct (is_composite tv); [exact Hplain|]. cbn [negb].
    destruct (clone_ok _ Hcur) as (Ec & Hc & _).
    assert (Hcc : is_composite (cl (a_truthValue a)) = true).
    { destruct (a_truthValue a) as [| | | |[q|] ws]; try done. unfold cl. by rewrite composite_clone. }
    destruct (with_version_ok s tv vh _ Htv Hc Hcc) as (p & vs & p' & vs' & _ & Ew & Hw & _).
    destruct (put_tv_ok s S h a _ Hok Ha Hw) as (s' & E & P).
    exists (cl (CompositeTV p' vs')), s'. split; [|done].
    step (apply reads_ok; rewrite Ec; cbn [mbind res_bind]; exact Ew). exact E.
  - set (c0 := if is_composite (a_truthValue a) then cl (a_truthValue a) else CompositeTV (Some (cl (a_truthValue a))) []).
    assert (Hc0 : (if is_composite (a_truthValue a) then clone (a_truthValue a)
        else composite_init (AS.isInvalid s) (a_truthValue a) NULL_VERSION_HANDLE) = Ok c0 /\ tv_ok c0 /\
        is_composite c0 = true /\ forall p vs, c0 = CompositeTV p vs -> forall k, afind k vs =
          match a_truthValue a with CompositeTV _ ws => cl <$> afind k ws | _ => None end).
    { unfold c0. destruct (is_composite (a_truthValue a)) eqn:Eco.
      - destruct (clone_ok _ Hcur) as (Ec & Hc & _). split; [done|]. split; [done|].
        destruct (a_truthValue a) as [| | | |[q|] ws]; try done. unfold cl. rewrite composite_clone by done.
        split; [done|]. intros p vs [= <- <-] k. apply (afind_prod_map ws cl k).
      - destruct (composite_init_ok s _ Hcur) as (c & Ei & Hc & ->). split; [done|]. split; [done|]. split; [done|].
        intros p vs [= <- <-] k. by destruct (a_truthValue a). }
    destruct Hc0 as (E0 & Hok0 & Hco0 & Hfind0).
    destruct (with_version_ok s tv vh c0 Htv Hok0 Hco0) as (p & vs & p' & vs' & Hc & Ew & Hw & Hset).
    destruct (put_tv_ok s S h a _ Hok Ha Hw) as (s' & E & P). destruct (Hset Evh) as (_ & Hf & Hk).
    exists (cl (CompositeTV p' vs')), s'. split; [|split; [done|]].
    { step (apply reads_ok; rewrite E0; cbn [mbind res_bind]; exact Ew). exact E. }
    intros _. destruct (composite_versions p' vs' Hw) as ([q ->] & _ & _).
    exists (Some (cl q)), (prod_map id cl <$> vs'). split; [unfold cl at 1; by rewrite composite_clone|].
    split; [by rewrite afind_prod_map, Hf|]. intros k Hkv. rewrite afind_prod_map, (Hk k Hkv), (Hfind0 p vs Hc).
    destruct (a_truthValue a) as [| | | |r ws]; try done. by destruct (afind k ws).
Qed.
End value.

(** ** Variables below an atom *)
Section vars.
Context (cs : ClassServer) {M : Type} (s : AtomSpace M) (Hwf : table_wf cs (atomTable s)) (Hcs : CS_wf cs).

(** One step down, and any number of steps. *)
Definition target_of (t : TLB) (x y : Handle) : Prop := exists a, atomOf t x = Some a /\ y ∈ targets a.
Definition below (t : TLB) : Handle -> Handle -> Prop := rtc (target_of t).

Definition has_variable (t : TLB) (h : Handle) : Prop :=
  exists y c, below t h y /\ atomOf t y = Some c /\ isNodeObj c = true /\ isAb cs (a_type c) (AS.VARIABLE_NODE cs) = true.

Lemma contains_loop_ok (f : Handle -> res bool) l :
  (forall x, x ∈ l -> exists b, f x = Ok b) -> exists b, AS.contains_loop f l = Ok b /\
    (b = true <-> exists x, x ∈ l /\ f x = Ok true).
Proof.
  induction l as [|x l IH]; intros Hf; cbn [AS.contains_loop].
  { exists false. split; [done|]. split; [done|]. by intros (x & ?%not_elem_of_nil & _). }
  destruct (Hf x ltac:(left)) as [b Hb]. rewrite Hb. cbn [mbind res_bind]. destruct b.
  - exists true. split; [done|]. split; [|done]. intros _. exists x. split; [left|done].
  - destruct IH as (b & E & Hb'); [intros y Hy; apply Hf; by right|]. exists b. split; [done|]. rewrite Hb'.
    split; intros (y & Hy & Hfy); exists y; [split; [by right|done]|].
    apply elem_of_cons in Hy as [->|Hy]; [congruence|done].
Qed.

Lemma target_lt h a x :
  atomOf (AS.the_tlb s) h = Some a -> x ∈ targets a -> is_Some (atomOf (AS.the_tlb s) x) /\ (x < h)%N.
Proof.
  intros Ha Hx. pose proof (tw_inv _ _ Hwf) as Hinv.
  assert (Hh : h ∈ live (atomTable s)) by (apply (elem_of_live cs); eauto).
  assert (Hc : coreOf (AS.the_tlb s) h = Some (core a)) by (unfold coreOf; by rewrite Ha).
  assert (Hxo : x ∈ outgoing (core a)).
  { unfold targets in Hx. apply elem_of_take in Hx as (j & Hj & _). by apply list_elem_of_lookup_2 in Hj. }
  destruct (st_closed _ _ _ (inv_static _ _ _ _ Hinv) h (core a) x Hh Hc Hxo) as [Hxl Hlt].
  split; [|done]. by apply (elem_of_live cs) in Hxl.
Qed.

Lemma has_variable_node h a : atomOf (AS.the_tlb s) h = Some a -> isNodeObj a = true ->
  has_variable (AS.the_tlb s) h <-> isAb cs (a_type a) (AS.VARIABLE_NODE cs) = true.
Proof.
  intros Ha Hn. split.
  - intros (y & c & Hy & Hc & _ & Hv). apply rtc_inv in Hy as [<-|(z & (b & Hb & Hz) & _)]; [congruence|].
    assert (b = a) as -> by congruence. unfold isNodeObj, isLinkObj, targets, outgoing in *.
    destruct (a_body a); [|done]. rewrite take_nil in Hz. by apply not_elem_of_nil in Hz.
  - intros Hv. exists h, a. split; [apply rtc_refl|done].
Qed.

Lemma has_variable_link h a : atomOf (AS.the_tlb s) h = Some a -> isNodeObj a = false ->
  has_variable (AS.the_tlb s) h <-> exists x, x ∈ targets a /\ has_variable (AS.the_tlb s) x.
Proof.
  intros Ha Hn. split.
  - intros (y & c & Hy & Hc & Hcn & Hv). apply rtc_inv in Hy as [<-|(z & (b & Hb & Hz) & Hzy)]; [congruence|].
    assert (b = a) as -> by congruence. exists z. split; [done|]. by exists y, c.
  - intros (x & Hx & y & c & Hy & Hr). exists y, c. split; [|done]. apply (rtc_l _ h x y); [|done]. by exists a.
Qed.

Lemma containsVar_ok fuel : forall h,
  is_Some (atomOf (AS.the_tlb s) h) -> (size (filter (fun k => (k <= h)%N) (live (atomTable s))) <= fuel)%nat ->
  exists b, AS.containsVar cs fuel h s = Ok b /\ (b = true <-> has_variable (AS.the_tlb s) h).
Proof.
  induction fuel as [|fuel IH]; intros h [a Ha] Hf.
  { exfalso. assert (Hin : h ∈ filter (fun k => (k <= h)%N) (live (atomTable s))).
    { apply elem_of_filter. split; [lia|]. apply (elem_of_live cs); eauto. }
    assert (H0 : size (filter (fun k => (k <= h)%N) (live (atomTable s))) = 0) by lia.
    apply size_empty_inv in H0. set_solver. }
  cbn [AS.containsVar]. unfold AS.as_node. rewrite (cast_read s h a Ha). cbn [mbind res_bind].
  destruct (isNodeObj a) eqn:En.
  - exists (isAb cs (a_type a) (AS.VARIABLE_NODE cs)). split; [|by rewrite (has_variable_node h a)].
    unfold AS.isVar. rewrite (type_read s h a Ha). cbn [mbind res_bind]. unfold AS.inheritsType. by apply isAb_ok.
  - unfold AS.as_link. rewrite (cast_read s h a Ha). cbn [mbind res_bind].
    assert (El : isLinkObj a = true) by (unfold isNodeObj in En; by destruct (isLinkObj a)). rewrite El.
    assert (Hx : forall x, x ∈ targets a -> exists b, AS.containsVar cs fuel x s = Ok b /\
              (b = true <-> has_variable (AS.the_tlb s) x)).
    { intros x Hx. destruct (target_lt h a x Ha Hx) as [Hxs Hlt]. apply IH; [done|].
      apply le_S_n. etrans; [|exact Hf]. apply subset_size. split.
      - intros k. rewrite !elem_of_filter. intros [? ?]. split; [lia|done].
      - intros Hs. assert (Hin : h ∈ filter (fun k => (k <= x)%N) (live (atomTable s))).
        { apply Hs, elem_of_filter. split; [lia|]. apply (elem_of_live cs); eauto. }
        apply elem_of_filter in Hin as [? _]. lia. }
    destruct (contains_loop_ok (fun x => AS.containsVar cs fuel x s) (targets a)) as (b & E & Hb).
    { intros x Hxa. destruct (Hx x Hxa) as (b & E & _). eauto. }
    exists b. split; [exact E|]. rewrite Hb, (has_variable_link h a Ha En).
    split; intros (x & Hxa & Hr); exists x; (split; [done|]); destruct (Hx x Hxa) as (b' & E' & Hb').
    + apply Hb'. congruence.
    + rewrite E'. f_equal. by apply Hb'.
Qed.
End vars.
