(* ===== verification/SpaceRequests.v ===== *)
(** Requests to an atom space (src/opencog/atomspace/AtomSpace.cc), the states
    that admissible requests lead to, and the invariant that these share. *)
From stdpp Require Import sorting.
From S2P Require Import Prelude ClassServer TruthValue AttentionValue Atom TLB HandleEntry Index IndexSpec AtomTable TableInv TableRemove TableAdd TableProps TableAttention TableQuery Temporal TemporalEntry TimeSpec TemporalTable TimeGet TimeRefine SpaceServer AtomSpace SpaceInv SpaceRemove SpaceAdd SpaceTime SpaceValue.

(** ** Requests *)
Inductive request :=
  | AddNode (t : N) (name : string) (tv : TruthValue)
  | AddLink (t : N) (outg : list Handle) (tv : TruthValue)
  | RemoveAtom (h : Handle) (recursive : bool)
  | SetAV (h : Handle) (av : AttentionValue)
  | SetTV (h : Handle) (tv : TruthValue) (vh : VersionHandle)
  | AddTime (h : Handle) (u : Temporal) (tv : TruthValue)
  | GetTime (h : Handle) (u : Temporal) (criterion : TemporalRelationship)
  | RemoveTime (h : Handle) (u : Temporal) (criterion : TemporalRelationship) (drop : bool)
  | ClearSpace.

Section requests.
Context `{SetOrder} (cs : ClassServer) (string_hash : string -> N).
Context {M : Type} `{SpaceMapLaws M} (stores : positive -> BackingStore).
Implicit Types s : AtomSpace M.

Definition ignore {A} (m : ST (AtomSpace M) A) : ST (AtomSpace M) unit := _ ← m; mret tt.

Definition perform (r : request) : ST (AtomSpace M) unit :=
  match r with
  | AddNode t name tv => ignore (AS.addNode cs string_hash stores t name tv)
  | AddLink t outg tv => ignore (AS.addLink cs string_hash stores t outg tv)
  | RemoveAtom h recursive => ignore (AS.removeAtom cs string_hash h recursive)
  | SetAV h av => AS.setAV_at h av
  | SetTV h tv vh => AS.setTV h tv vh
  | AddTime h u tv => ignore (AS.addTimeInfo cs string_hash stores h u tv)
  | GetTime h u criterion => ignore (AS.getTimeInfo h u criterion)
  | RemoveTime h u criterion drop => ignore (AS.removeTimeInfo cs string_hash h u criterion drop true)
  | ClearSpace => AS.AS_clear cs string_hash
  end.

(** The arguments are proper ones: types of the right class, atoms that are
    there, at most 64 targets, values in their range, well-formed times; an
    AtTimeLink is over a time node; and there are handles left. *)
Definition admissible s (r : request) : Prop :=
  match r with
  | AddNode t name tv => isAb cs t (NODE cs) = true /\ tv_arg tv /\ (brk_uuid (AS.the_tlb s) < UNDEFINED)%N
  | AddLink t outg tv =>
      isAb cs t (LINK cs) = true /\ length outg <= 64 /\ (forall x, x ∈ outg -> x ∈ live (atomTable s)) /\
      tv_arg tv /\ (brk_uuid (AS.the_tlb s) < UNDEFINED)%N /\ time_shape cs (AS.the_tlb s) (link_like t outg)
  | RemoveAtom h recursive => True
  | SetAV h av => h ∈ live (atomTable s) /\ AV_wf av
  | SetTV h tv vh => h ∈ live (atomTable s) /\ tv_ok tv
  | AddTime h u tv =>
      h ∈ live (atomTable s) /\ t_wf u /\ tv_arg tv /\ (brk_uuid (AS.the_tlb s) + 1 < UNDEFINED)%N
  | GetTime h u criterion => t_arg u
  | RemoveTime h u criterion drop => t_arg u /\ h <> UNDEFINED
  | ClearSpace => True
  end.

(** The states that a space with these funds can get into. *)
Inductive reachable (sti lti : Z) : AtomSpace M -> Prop :=
  | reach_new : reachable sti lti (AS.AtomSpace_new cs TLB_empty sti lti)
  | reach_step s r a s' :
      reachable sti lti s -> admissible s r -> perform r s = (a, s') -> reachable sti lti s'.

Lemma new_space_ok sti lti :
  space_ok cs (AS.AtomSpace_new (M := M) cs TLB_empty sti lti) spec_new.
Proof.
  assert (Hnone : forall k, atomOf (tlb (AtomTable_new cs TLB_empty)) k = None) by done.
  split; [apply AtomTable_new_inv|done| | | |done].
  - apply in_sync_table; [apply AtomTable_new_inv|done|]. intros x u. split; [by intros ?%not_elem_of_empty|].
    by intros (l & a & n & Ha & _).
  - apply new_represents; [split; by intros c [? ?]|done|done].
  - by intros h [? ?].
Qed.

Context (Hty : types_ok cs).

Lemma ignore_ok {A} (m : ST (AtomSpace M) A) s a s' : m s = (Ok a, s') -> ignore m s = (Ok tt, s').
Proof. intros E. unfold ignore. by step (exact E). Qed.

Lemma remove_any_ok s S h r :
  space_ok cs s S -> exists b s' S', AS.removeAtom cs string_hash h r s = (Ok b, s') /\
    space_ok cs s' S' /\ same_wealth s s'.
Proof.
  intros Hok. pose proof (so_table _ _ _ Hok) as Hwf. destruct (atomOf (AS.the_tlb s) h) as [a|] eqn:Ha.
  - destruct (decide (r = true \/ a_incoming a = [])) as [Hr|Hr].
    + destruct (removeAtom_ok cs string_hash Hty s S h a r Hok Ha Hr) as (rs & s' & S' & E & [K _ W _] & _).
      by exists true, s', S'.
    + exists false, s, S. split; [|by split_and!]. assert (r = false) as -> by (destruct r; tauto).
      apply (removeAtom_refused cs string_hash s h a Hwf Ha). tauto.
  - exists false, s, S. split; [|by split_and!]. apply removeAtom_unknown.
    destruct (getAtom (AS.the_tlb s) h) as [p|] eqn:Hp; [|done].
    assert (Hin : h ∈ live (atomTable s)) by (apply elem_of_live_map; by exists p).
    apply (elem_of_live cs) in Hin as [? ?]; [|done]. unfold AS.the_tlb in Ha. congruence.
Qed.

Lemma perform_ok s S r :
  space_ok cs s S -> admissible s r -> exists s' S',
    perform r s = (Ok tt, s') /\ space_ok cs s' S' /\ same_wealth s s'.
Proof.
  intros Hok Hadm. pose proof (so_table _ _ _ Hok) as Hwf.
  assert (Hlive : forall h, h ∈ live (atomTable s) -> exists a, atomOf (AS.the_tlb s) h = Some a).
  { intros h Hh. apply (elem_of_live cs) in Hh as [a Ha]; [by exists a|done]. }
  destruct r as [t name tv|t outg tv|h r|h av|h tv vh|h u tv|h u criterion|h u criterion drop|]; cbn [perform admissible] in *.
  - destruct Hadm as (Ht & Htv & Hmax).
    destruct (addNode_ok cs string_hash Hty stores s S t name tv Hok Ht Htv Hmax) as (h & s' & S' & E & [K W _ _ _ _ _]).
    exists s', S'. split; [by eapply ignore_ok|done].
  - destruct Hadm as (Ht & Hl & Hout & Htv & Hmax & Hsh).
    destruct (addLink_ok cs string_hash Hty stores s S t outg tv Hok Ht Hl Hout Htv Hmax Hsh)
      as (o & h & s' & S' & E & _ & [K W _ _ _ _ _]).
    exists s', S'. split; [by eapply ignore_ok|done].
  - destruct (remove_any_ok s S h r Hok) as (b & s' & S' & E & K & W).
    exists s', S'. split; [by eapply ignore_ok|done].
  - destruct Hadm as [[a Ha]%Hlive Hav]. destruct (setAV_ok cs s S h a av Hok Ha Hav) as (s' & E & K & W & _).
    by exists s', S.
  - destruct Hadm as [[a Ha]%Hlive Htv]. destruct (setTV_ok cs s S h a tv vh Hok Ha Htv) as (t & s' & E & [K W _ _] & _).
    by exists s', S.
  - destruct Hadm as (Hh & Hu & Htv & Hmax).
    destruct (addTimeInfo_ok cs string_hash Hty stores s S h u tv Hok Hh Hu Htv Hmax) as (l & s' & S' & E & K & W & _).
    exists s', S'. split; [by eapply ignore_ok|done].
  - destruct (get_refines (timeServer s) S h u criterion (so_time _ _ _ Hok) Hadm) as (r & E & _).
    exists s, S. split; [|done]. eapply ignore_ok. unfold AS.getTimeInfo. rewrite (on_ts_ok _ _ _ _ E). by destruct s.
  - destruct Hadm as [Hu Hh].
    destruct (removeTimeInfo_ok cs string_hash Hty s S h u criterion drop Hok Hu Hh) as (s' & S' & E & K & W & _).
    exists s', S'. split; [by eapply ignore_ok|done].
  - destruct (AS_clear_ok cs string_hash Hty s S Hok) as (s' & S' & E & K & _ & W). by exists s', S'.
Qed.

Lemma reachable_ok sti lti s :
  reachable sti lti s -> (exists S, space_ok cs s S) /\ wealthSTI s = sti /\ wealthLTI s = lti.
Proof.
  induction 1 as [|s r a s' _ [[S Hok] [W1 W2]] Hadm E].
  - split; [exists spec_new; apply new_space_ok|]. split; apply Z.add_0_r.
  - destruct (perform_ok s S r Hok Hadm) as (s1 & S1 & E1 & Hok1 & [W3 W4]).
    rewrite E in E1. injection E1 as -> ->. split; [by exists S1|]. split; congruence.
Qed.
End requests.
