(* ===== verification/SpaceDemo.v ===== *)
(** The built-in atom types fit the atom space, and a small atom space to run
    examples with: maps of space that only remember their objects, and a few
    atoms with times. *)
From S2P Require Import Prelude ClassServer TruthValue AttentionValue Atom TLB HandleEntry Index IndexSpec AtomTable TableInv TableRemove TableAdd TableProps TableQuery Temporal TemporalEntry TimeSpec TemporalTable SpaceServer AtomSpace SpaceInv SpaceAdd SpaceRequests.
#[local] Open Scope string_scope.

(** ** The class server of the program *)
Definition built_in : ClassServer :=
  Eval vm_compute in match ClassServer_new with Ok cs => cs | _ => base_cs end.

Definition fits_types (cs : ClassServer) : bool :=
  forallb (fun t => isAb cs t (ATOM cs) && (negb (isAb cs t (NODE cs)) || negb (isAb cs t (LINK cs))))
    (N.of_nat <$> seq 0 (N.to_nat (nTypes cs))) &&
  isAb cs (AS.AT_TIME_LINK cs) (LINK cs) && negb (isAb cs (AS.AT_TIME_LINK cs) (UNORDERED_LINK cs)) &&
  isAb cs (AS.TIME_NODE cs) (NODE cs) && isAb cs (AS.CONCEPT_NODE cs) (NODE cs).

Lemma fits_types_ok cs : CS_wf cs -> fits_types cs = true -> types_ok cs.
Proof.
  intros Hwf. unfold fits_types. rewrite !andb_true_iff, negb_true_iff, forallb_forall.
  intros ((((Hall & ?) & ?) & ?) & ?).
  assert (Ht : forall t, (t < nTypes cs)%N ->
    isAb cs t (ATOM cs) = true /\ (isAb cs t (NODE cs) = true -> isAb cs t (LINK cs) = false)).
  { intros t Ht. specialize (Hall t). rewrite andb_true_iff in Hall. destruct Hall as [Ha Hd].
    - apply list_elem_of_In, list_elem_of_fmap. exists (N.to_nat t). split; [lia|]. apply elem_of_seq. lia.
    - split; [done|]. by destruct (isAb cs t (NODE cs)), (isAb cs t (LINK cs)). }
  split; try done; [intros t Hb; by apply Ht|].
  intros t Hn. pose proof (isAb_bound _ _ _ Hn) as [Hb _]. by apply Ht.
Qed.

Lemma built_in_eq : ClassServer_new = Ok built_in.
Proof. vm_cast_no_check (eq_refl (Ok built_in)). Qed.

Lemma built_in_fits : fits_types built_in = true.
Proof. vm_cast_no_check (eq_refl true). Qed.

Lemma Ok_inj {A} (x y : A) : Ok x = Ok y -> x = y.
Proof. by intros [= ->]. Qed.

Lemma built_in_ok : types_ok built_in.
Proof.
  apply fits_types_ok, built_in_fits.
  destruct ClassServer_new_wf as (cs & E & Hwf). rewrite built_in_eq in E.
  apply Ok_inj in E. rewrite E. exact Hwf.
Qed.

(** ** Maps of objects *)
Definition object_map : Type := gmap string (ObjectMetadata * bool).
#[export] Instance object_space_map : SpaceMap object_map := {
  map_new := fun _ _ _ _ _ _ _ => ∅;
  map_clone := fun m => m;
  map_eq := fun m m' => forallb (fun x => bool_decide (is_Some (m' !! x.1))) (map_to_list m);
  map_xMin := fun _ => f0;
  map_xMax := fun _ => f64_of_Z 256;
  map_yMin := fun _ => f0;
  map_yMax := fun _ => f64_of_Z 256;
  copyObjects := fun from => modst (fun m => from ∪ m);
  containsObject := fun x m => bool_decide (is_Some (m !! x));
  entityMetadata := fun x m => of_opt (fst <$> m !! x);
  map_isObstacle := fun x m => default false (snd <$> m !! x);
  map_updateObject := fun x d o => modst (fun m => <[x := (d, o)]> m);
  map_addObject := fun x d o => modst (fun m => <[x := (d, o)]> m);
  map_removeObject := fun x => modst (delete x)
}.
#[export] Instance object_map_laws : SpaceMapLaws object_map.
Proof. split. intros name m. by exists (delete name m). Qed.

(** ** A small space *)
#[local] Existing Instance elements_order.

Definition no_store : BackingStore :=
  mkStore (fun _ _ => mret None) (fun _ _ => mret None) (fun _ => mret None) (fun _ => mret []) (fun _ => mret tt).
Definition no_stores (_ : positive) : BackingStore := no_store.

Definition demo_new : AtomSpace object_map := AS.AtomSpace_new built_in TLB_empty 10000 5000.
Definition answer (r : request) (s : AtomSpace object_map) : AtomSpace object_map :=
  (perform built_in no_hash no_stores r s).2.
Definition ty (name : string) : N := ClassServer.getType built_in name.

(** The atoms 1 to 4, the times 5 and 7 and the links 6 and 8. *)
Definition demo_requests : list request :=
  [AddNode (ty "ConceptNode") "red" DEFAULT_TV; AddNode (ty "ObjectNode") "ball" NullTV;
   AddNode (ty "VariableNode") "$x" NullTV; AddLink (ty "ListLink") [1; 3]%N DEFAULT_TV;
   AddTime 2 (mkTemporal false 3 4) NullTV; AddTime 2 (mkTemporal true 8 1) NullTV;
   SetAV 1 (mkAV 20 5 0); SetAV 6 (mkAV 7 0 0)].
Definition demo_space : AtomSpace object_map := fold_left (fun s r => answer r s) demo_requests demo_new.

Abbreviation demo_reachable := (reachable built_in no_hash no_stores 10000 5000).

Lemma reach_answer r s :
  demo_reachable s -> admissible built_in s r -> demo_reachable (answer r s).
Proof. intros Hs Hr. eapply reach_step; [exact Hs|exact Hr|]. apply surjective_pairing. Qed.

Lemma is_live (s : AtomSpace object_map) h :
  bool_decide (h ∈ live (atomTable s)) = true -> h ∈ live (atomTable s).
Proof. apply bool_decide_eq_true. Qed.

Ltac admissible_here :=
  cbn [admissible]; split_and?;
  lazymatch goal with
  | |- _ ∈ live _ => apply is_live; vm_compute; reflexivity
  | |- tv_arg NullTV => by right
  | |- tv_arg _ => left; by vm_compute
  | |- time_shape _ _ _ => intros E; by vm_compute in E
  | |- forall x, x ∈ _ -> _ => apply Forall_forall; repeat constructor; apply is_live; vm_compute; reflexivity
  | |- length _ <= 64 => simpl; lia
  | |- _ => by vm_compute
  end.

Lemma demo_is_reachable : demo_reachable demo_space.
Proof.
  unfold demo_space, demo_requests, fold_left.
  repeat (apply reach_answer; [|solve [admissible_here]]). apply reach_new.
Qed.
