(* ===== verification/SpaceProps.v ===== *)
(** What the atom space (src/opencog/atomspace/AtomSpace.cc) promises to its
    clients: on every state that requests lead to, the table, the time server
    and the funds agree and no admissible request fails. *)
From stdpp Require Import sorting.
From S2P Require Import Prelude ClassServer TruthValue AttentionValue Atom TLB HandleEntry Index IndexSpec AtomTable TableInv TableRemove TableAdd TableProps TableAttention TableQuery Temporal TemporalEntry TimeSpec TemporalTable TimeGet TimeRefine SpaceServer AtomSpace SpaceInv SpaceRemove SpaceAdd SpaceTime SpaceValue SpaceRequests SpaceDemo.

Section requests.
Context `{SetOrder} (cs : ClassServer) (string_hash : string -> N).
Context {M : Type} `{SpaceMapLaws M} (stores : positive -> BackingStore).
Context (Hty : types_ok cs).
Implicit Types s : AtomSpace M.

(** ** Properties *)

(** C1. Whatever admissible requests are made of a new atom space, in any order:
    every one of them returns, without exception and without undefined
    behaviour; the table stays well-formed; the time server holds exactly the
    pairs of the live AtTimeLinks; and the funds together with the importance
    of the live atoms add up to the starting funds. *)
Theorem atom_space_safe sti lti s :
  reachable cs string_hash stores sti lti s ->
  (exists S, space_ok cs s S) /\ wealthSTI s = sti /\ wealthLTI s = lti /\
  forall r, admissible cs s r -> exists s', perform cs string_hash stores r s = (Ok tt, s').
Proof.
  intros Hr. destruct (reachable_ok cs string_hash stores Hty sti lti s Hr) as ([S Hok] & W1 & W2).
  split; [by exists S|]. split; [done|]. split; [done|]. intros r Hadm.
  destruct (perform_ok cs string_hash stores Hty s S r Hok Hadm) as (s' & S' & E & _). by exists s'.
Qed.

(** C22. Time information is found through the atoms: a lookup of the times of an
    atom returns, once each and in order, the related times that a live
    AtTimeLink gives the atom, and getAtTimeLink leads from each returned pair
    to that link. *)
Theorem time_info_exact sti lti s h u criterion :
  reachable cs string_hash stores sti lti s -> h <> UNDEFINED -> t_wf u -> is_next criterion = false -> is_previous criterion = false ->
  exists r us, AS.getTimeInfo h u criterion s = (Ok r, s) /\ StronglySorted before us /\
    (forall v, v ∈ us <-> related criterion u v = true /\ exists l, time_link cs (AS.the_tlb s) l h v) /\
    Forall2 (fun p v => p.1 = h /\ exists l, AS.getAtTimeLink cs string_hash p s = Ok l /\
                                    time_link cs (AS.the_tlb s) l h v) r us.
Proof.
  intros Hr Hh Hu Hn Hp. destruct (reachable_ok cs string_hash stores Hty sti lti s Hr) as ([S Hok] & _).
  destruct (lookup_points cs s S h u criterion Hok (or_introl Hu) Hh) as (r & E & HF).
  set (us := found u criterion (times_of (pairs S) h)) in *.
  assert (Hus : us = filter (fun T => related criterion u T) (times_of (pairs S) h)).
  { unfold us, found, wanted. by rewrite t_wf_defined, Hn, Hp. }
  assert (Hel : forall v, v ∈ us <-> related criterion u v = true /\ exists l, time_link cs (AS.the_tlb s) l h v).
  { intros v. rewrite Hus, list_elem_of_filter, Is_true_true, elem_of_times_of.
    by rewrite (sy_pairs _ _ _ (so_sync _ _ _ Hok)). }
  exists r, us. split; [unfold AS.getTimeInfo; rewrite (on_ts_ok _ _ _ _ E); by destruct s|].
  split; [|split; [done|]].
  - rewrite Hus. apply StronglySorted_filter. unfold times_of. apply in_order_sorted.
    intros v ([x w] & -> & [Hx Hp']%elem_of_filter)%elem_of_map. simpl in *.
    apply (sy_pairs _ _ _ (so_sync _ _ _ Hok)) in Hp' as (l & a & n & _ & _ & _ & b & _ & _ & _ & _ & Hw). done.
  - apply Forall2_same_length_lookup in HF as [Hlen HF]. apply Forall2_same_length_lookup. split; [done|].
    intros i p v Hi Hv. destruct (HF i p v Hi Hv) as [Hp1 Hp2]. split; [done|].
    apply (getAtTimeLink_ok cs string_hash Hty s S p h v Hok); [done|].
    apply list_elem_of_lookup_2 in Hv. unfold us in Hv. apply elem_of_found_in in Hv. by apply elem_of_times_of.
Qed.

(** C23. Adding a time to an atom returns an AtTimeLink over a node with the name
    of the time and the atom; the exact lookup then answers with that one pair,
    which leads back to the link; no atom is lost and the funds stay what they
    are. *)
Theorem addTimeInfo_correct sti lti s h u tv :
  reachable cs string_hash stores sti lti s -> h ∈ live (atomTable s) -> t_wf u -> tv_arg tv ->
  (brk_uuid (AS.the_tlb s) + 1 < UNDEFINED)%N ->
  exists l s' p, AS.addTimeInfo cs string_hash stores h u tv s = (Ok l, s') /\
    time_link cs (AS.the_tlb s') l h u /\ live (atomTable s) ⊆ live (atomTable s') /\ same_wealth s s' /\
    AS.getTimeInfo h u EXACT s' = (Ok [p], s') /\ AS.getAtTimeLink cs string_hash p s' = Ok l.
Proof.
  intros Hr Hh Hu Htv Hmax. destruct (reachable_ok cs string_hash stores Hty sti lti s Hr) as ([S Hok] & _).
  destruct (addTimeInfo_ok cs string_hash Hty stores s S h u tv Hok Hh Hu Htv Hmax)
    as (l & s' & S' & E & K & W & P & Hl & Hsub).
  assert (Hdef : h <> UNDEFINED).
  { intros ->. apply elem_of_live_map in Hh as [p Hp].
    by rewrite (twf_def _ (inv_tlb _ _ _ _ (tw_inv _ _ (so_table _ _ _ Hok)))) in Hp. }
  destruct (lookup_points cs s' S' h u EXACT K (or_introl Hu) Hdef) as (r & E' & HF).
  assert (Hp : (h, u) ∈ pairs S') by (rewrite P; set_solver).
  rewrite found_exact, decide_True in HF; [|by apply elem_of_times_of| |done].
  2: { unfold times_of, in_order. rewrite merge_sort_Permutation. apply NoDup_elements. }
  apply Forall2_cons_inv_r in HF as (p & r' & Hpt & HF & ->). apply Forall2_nil_inv_r in HF as ->.
  destruct (getAtTimeLink_ok cs string_hash Hty s' S' p h u K Hpt Hp) as (l' & El & Hl').
  assert (l' = l) as -> by by apply (sy_unique _ _ _ (so_sync _ _ _ K) l' l h u).
  exists l, s', p. split; [done|]. split; [done|]. split; [done|]. split; [done|]. split; [|done].
  unfold AS.getTimeInfo. rewrite (on_ts_ok _ _ _ _ E'). by destruct s'.
Qed.

(** C21. Removing times of an atom, with the links above the AtTimeLinks: the call
    succeeds and returns whether there was anything to remove; afterwards the
    atom has exactly its other times, and the funds have got back what the
    removed atoms held. The pointers that the lookup returned stay valid while
    the links are removed one by one. *)
Theorem removeTimeInfo_correct sti lti s h u criterion drop :
  reachable cs string_hash stores sti lti s -> t_wf u -> h <> UNDEFINED -> is_next criterion = false -> is_previous criterion = false ->
  exists b s', AS.removeTimeInfo cs string_hash h u criterion drop true s = (Ok b, s') /\ same_wealth s s' /\
    (b = true <-> exists v l, related criterion u v = true /\ time_link cs (AS.the_tlb s) l h v) /\
    forall v, (exists l, time_link cs (AS.the_tlb s') l h v) <->
              related criterion u v = false /\ exists l, time_link cs (AS.the_tlb s) l h v.
Proof.
  intros Hr Hu Hh Hn Hp. destruct (reachable_ok cs string_hash stores Hty sti lti s Hr) as ([S Hok] & _).
  destruct (removeTimeInfo_ok cs string_hash Hty s S h u criterion drop Hok (or_introl Hu) Hh)
    as (s' & S' & E & K & W & Hsub & HP).
  set (us := found u criterion (times_of (pairs S) h)) in *.
  assert (Hel : forall v, v ∈ us <-> related criterion u v = true /\ exists l, time_link cs (AS.the_tlb s) l h v).
  { intros v. unfold us, found, wanted. rewrite t_wf_defined, Hn, Hp by done.
    rewrite list_elem_of_filter, Is_true_true, elem_of_times_of. by rewrite (sy_pairs _ _ _ (so_sync _ _ _ Hok)). }
  exists (negb (bool_decide (us = []))), s'. split; [done|]. split; [done|]. split.
  - rewrite negb_true_iff, bool_decide_eq_false. split.
    + intros Hne. destruct us as [|v us']; [done|]. destruct (proj1 (Hel v) ltac:(left)) as [Hv [l Hl]]. by exists v, l.
    + intros (v & l & Hv & Hl) Hus. assert (Hin : v ∈ us) by (apply Hel; eauto).
      rewrite Hus in Hin. by apply not_elem_of_nil in Hin.
  - intros v. rewrite <- (sy_pairs _ _ _ (so_sync _ _ _ K)), HP, Hel, (sy_pairs _ _ _ (so_sync _ _ _ Hok)).
    destruct (related criterion u v); intuition congruence.
Qed.

(** C24. Removing an atom recursively takes out exactly the atom and the links
    above it, and the funds grow by the importance that these held. *)
Theorem removeAtom_refunds sti lti s h :
  reachable cs string_hash stores sti lti s -> h ∈ live (atomTable s) ->
  exists rs s', AS.removeAtom cs string_hash h true s = (Ok true, s') /\ NoDup rs /\
    (forall k, k ∈ rs <-> above (coreOf (AS.the_tlb s)) (live (atomTable s)) h k) /\
    live (atomTable s') = live (atomTable s) ∖ list_to_set rs /\
    fundsSTI s' = (fundsSTI s + zsum (sti_of (AS.the_tlb s)) rs)%Z /\
    fundsLTI s' = (fundsLTI s + zsum (lti_of (AS.the_tlb s)) rs)%Z.
Proof.
  intros Hr Hh. destruct (reachable_ok cs string_hash stores Hty sti lti s Hr) as ([S Hok] & _).
  apply (elem_of_live cs) in Hh as [a Ha]; [|apply Hok].
  destruct (removeAtom_ok cs string_hash Hty s S h a true Hok Ha (or_introl eq_refl)) as (rs & s' & S' & E & [K R [W1 W2] _] & Hrs).
  assert (Hin : forall k, k ∈ rs -> k ∈ live (atomTable s)).
  { intros k Hk%Hrs. destruct (above_live _ _ _ _ Hk) as [<-|]; [|done]. apply (elem_of_live cs); [apply Hok|by exists a]. }
  exists rs, s'. split; [done|]. split; [apply R|]. split; [done|]. split; [apply R|].
  unfold wealthSTI, wealthLTI, AS.the_tlb in *.
  pose proof (removed_sum cs sti_of getSTI _ _ rs (fun _ _ => eq_refl) R Hin).
  pose proof (removed_sum cs lti_of getLTI _ _ rs (fun _ _ => eq_refl) R Hin). lia.
Qed.

(** C25. Clearing an atom space succeeds from every reachable state: the assertion
    at its end holds, no atom and no time is left, and the funds are the
    starting funds again. *)
Theorem clear_restores_funds sti lti s :
  reachable cs string_hash stores sti lti s -> exists s' S', AS.AS_clear cs string_hash s = (Ok tt, s') /\ space_ok cs s' S' /\
    live (atomTable s') = ∅ /\ pairs S' = ∅ /\ fundsSTI s' = sti /\ fundsLTI s' = lti.
Proof.
  intros Hr. destruct (reachable_ok cs string_hash stores Hty sti lti s Hr) as ([S Hok] & W1 & W2).
  destruct (AS_clear_ok cs string_hash Hty s S Hok) as (s' & S' & E & K & Hl & [W3 W4]).
  destruct (empty_space cs s' S' K Hl) as (Hp & F1 & F2). exists s', S'. split_and!; try done; congruence.
Qed.

(** C26. The search for variables below an atom stops, since targets are older
    than their links, and says whether a node of a variable type is reached
    from the atom through outgoing sets: as many rounds as there are atoms are
    enough. *)
Theorem containsVar_correct sti lti s h :
  reachable cs string_hash stores sti lti s -> h ∈ live (atomTable s) ->
  exists b, AS.containsVar cs (size (live (atomTable s))) h s = Ok b /\
    (b = true <-> has_variable cs (AS.the_tlb s) h).
Proof.
  intros Hr Hh. destruct (reachable_ok cs string_hash stores Hty sti lti s Hr) as ([S Hok] & _).
  apply containsVar_ok; [apply Hok|apply Hty|by apply (elem_of_live cs) in Hh; [|apply Hok]|].
  apply subseteq_size. by intros k [_ Hk]%elem_of_filter.
Qed.

(** C27. A truth value that is set under a valid version handle is read back, up to
    cloning; the other versions of the atom and all other atoms keep theirs. *)
Theorem setTV_getTV sti lti s h a tv vh :
  reachable cs string_hash stores sti lti s -> atomOf (AS.the_tlb s) h = Some a -> tv_ok tv ->
  isNullVersionHandle (AS.isInvalid s) vh = false ->
  exists s', AS.setTV h tv vh s = (Ok tt, s') /\ AS.getTV h vh s' = Ok (cl (cl tv)) /\
    (forall k, k <> vh -> isNullVersionHandle (AS.isInvalid s) k = false ->
       exists x, AS.getTV h k s = Ok x /\ AS.getTV h k s' = Ok (if isNullTv x then NullTV else cl (cl x))) /\
    forall k, k <> h -> atomOf (AS.the_tlb s') k = atomOf (AS.the_tlb s) k.
Proof.
  intros Hr Ha Htv Hvh. destruct (reachable_ok cs string_hash stores Hty sti lti s Hr) as ([S Hok] & _).
  destruct (setTV_ok cs s S h a tv vh Hok Ha Htv) as (t & s' & E & [K W V At] & Hval).
  destruct (Hval Hvh) as (p & vs & -> & Hf & Hk). exists s'. split; [done|].
  assert (Hat : atomOf (AS.the_tlb s') h = Some (set_tv (CompositeTV p vs) a)) by (by rewrite At, decide_True).
  assert (Hnull : forall k, isNullVersionHandle (AS.isInvalid s') k = isNullVersionHandle (AS.isInvalid s) k).
  { intros k. unfold isNullVersionHandle. apply V. }
  assert (Hread : forall k, isNullVersionHandle (AS.isInvalid s) k = false -> AS.getTV h k s' = Ok (default NullTV (afind k vs))).
  { intros k Hkn. apply (version_read cs s' h (set_tv (CompositeTV p vs) a) k p vs); [apply K|done|done|by rewrite Hnull]. }
  split; [rewrite Hread, Hf by done; done|]. split.
  - intros k Hkv Hkn. destruct (is_composite (a_truthValue a)) eqn:Ec.
    + destruct (a_truthValue a) as [| | | |q ws] eqn:Eta; try done.
      exists (default NullTV (afind k ws)).
      split; [by apply (version_read cs s h a k q ws (so_table _ _ _ Hok) Ha)|].
      rewrite Hread, (Hk k Hkv) by done. destruct (afind k ws) as [x|] eqn:Ef; [|done]. simpl.
      pose proof (so_tv _ _ _ Hok h a Ha) as Hta. rewrite Eta in Hta.
      destruct (composite_versions q ws Hta) as (_ & [_ Hws] & _). rewrite Forall_forall in Hws.
      specialize (Hws _ (afind_Some_elem _ _ _ Ef)). simpl in Hws. by destruct x.
    + exists NullTV. split; [|rewrite Hread, (Hk k Hkv) by done; by destruct (a_truthValue a)].
      assert (Hv : AS.isInvalid s h = false).
      { pose proof (valid_read cs s h (so_table _ _ _ Hok)) as Hv. rewrite bool_decide_true in Hv by eauto.
        unfold AS.isValid, isValidHandle in Hv. by apply negb_true_iff in Hv. }
      unfold AS.getTV. rewrite Hv, (atom_read s h a Ha). cbn [mbind res_bind]. rewrite Hkn.
      pose proof (so_tv _ _ _ Hok h a Ha) as Hta. destruct (getType_tv_ok _ Hta) as (ty & -> & Hty').
      cbn [mbind res_bind]. by rewrite Hty', Ec.
  - intros k Hkh. by rewrite At, decide_False.
Qed.
End requests.

(** ** What the atom space does not withstand *)
#[local] Existing Instance elements_order.

(** An AtTimeLink that does not have two targets can be added, but not be
    removed: removeAtom throws an AssertionException after the link has left the
    indexes, and leaves an atom that is valid, has given its importance back and
    cannot be found any more. *)
Theorem malformed_time_link_stays :
  let add := AS.addLink built_in no_hash no_stores (ty "AtTimeLink") [1]%N NullTV demo_space in
  let remove := AS.removeAtom built_in no_hash 9 true add.2 in
  add.1 = Ok 9%N /\ AS.getHandle_link (ty "AtTimeLink") [1]%N add.2 = Ok 9%N /\
  remove.1 = Throw AssertionException /\
  AS.isValid 9 remove.2 = true /\ AS.getHandle_link (ty "AtTimeLink") [1]%N remove.2 = Ok UNDEFINED.
Proof. by vm_compute. Qed.

(** Removing the node of the maps of space with the AtTimeLinks above it
    leaves the maps of the dead links in the space server, because the node is
    no longer found by its name when the links are signalled; the next addition
    of an object follows the null pointer of the latest map's link. *)
Theorem maps_outlive_their_links :
  let object_info := mkMetadata f0 f0 f0 f0 f0 f0 f0 in
  let add := AS.addSpaceInfo built_in no_hash no_stores true 2 17 object_info false demo_space in
  let remove := AS.removeAtom built_in no_hash 9 true add.2 in
  add.1 = Ok true /\ sortedMapHandles (spaceServer add.2) = [11%N] /\ AS.isValid 11 add.2 = true /\
  remove.1 = Ok true /\ sortedMapHandles (spaceServer remove.2) = [11%N] /\ AS.isValid 11 remove.2 = false /\
  (AS.addSpaceInfo built_in no_hash no_stores true 2 18 object_info false remove.2).1 = Undef.
Proof. by vm_compute. Qed.

(** ** Witnesses *)

Lemma atom_space_safe_witness :
  exists s', perform built_in no_hash no_stores (RemoveAtom 3 true) demo_space = (Ok tt, s') /\
    wealthSTI demo_space = 10000%Z.
Proof.
  destruct (atom_space_safe built_in no_hash no_stores built_in_ok 10000 5000 demo_space demo_is_reachable)
    as (_ & W & _ & Hrun).
  destruct (Hrun (RemoveAtom 3 true) I) as [s' E]. exists s'. split; [exact E|exact W].
Defined.

Lemma time_info_exact_witness :
  exists r, AS.getTimeInfo 2 (mkTemporal false 0 7) STARTS_WITHIN demo_space = (Ok r, demo_space) /\ length r = 2.
Proof.
  destruct (time_info_exact built_in no_hash no_stores built_in_ok 10000 5000 demo_space 2
              (mkTemporal false 0 7) STARTS_WITHIN demo_is_reachable)
    as (r & us & E & _); [by vm_compute|by vm_compute|reflexivity|reflexivity|].
  exists r. split; [exact E|]. apply (f_equal fst) in E. vm_compute in E. by injection E as <-.
Defined.

Lemma addTimeInfo_correct_witness :
  exists l s' p, AS.addTimeInfo built_in no_hash no_stores 1 (mkTemporal false 3 4) NullTV demo_space = (Ok l, s') /\
    AS.getTimeInfo 1 (mkTemporal false 3 4) EXACT s' = (Ok [p], s') /\
    AS.getAtTimeLink built_in no_hash p s' = Ok l.
Proof.
  destruct (addTimeInfo_correct built_in no_hash no_stores built_in_ok 10000 5000 demo_space 1
              (mkTemporal false 3 4) NullTV demo_is_reachable)
    as (l & s' & p & E & _ & _ & _ & Eg & El).
  - apply is_live. by vm_compute.
  - by vm_compute.
  - by right.
  - by vm_compute.
  - exists l, s', p. split; [exact E|]. split; [exact Eg|exact El].
Defined.

Lemma removeTimeInfo_correct_witness :
  exists s', AS.removeTimeInfo built_in no_hash 2 (mkTemporal false 3 4) EXACT true true demo_space = (Ok true, s') /\
    fundsSTI s' = 9980%Z.
Proof.
  destruct (removeTimeInfo_correct built_in no_hash no_stores built_in_ok 10000 5000 demo_space 2
              (mkTemporal false 3 4) EXACT true demo_is_reachable)
    as (b & s' & E & _); [by vm_compute|by vm_compute|reflexivity|reflexivity|].
  assert (Eb : Ok b = Ok true) by (change (Ok b) with (Ok b, s').1; rewrite <- E; by vm_compute).
  exists s'. split; [by rewrite E, Eb|].
  change s' with (Ok b, s').2. rewrite <- E. by vm_compute.
Defined.

Lemma removeAtom_refunds_witness :
  exists s', AS.removeAtom built_in no_hash 2 true demo_space = (Ok true, s') /\ fundsSTI s' = 9980%Z.
Proof.
  destruct (removeAtom_refunds built_in no_hash no_stores built_in_ok 10000 5000 demo_space 2 demo_is_reachable)
    as (rs & s' & E & _); [apply is_live; by vm_compute|].
  exists s'. split; [exact E|]. change s' with (Ok true, s').2. rewrite <- E. by vm_compute.
Defined.

Lemma clear_restores_funds_witness :
  exists s', AS.AS_clear built_in no_hash demo_space = (Ok tt, s') /\ fundsSTI s' = 10000%Z /\ fundsLTI s' = 5000%Z.
Proof.
  destruct (clear_restores_funds built_in no_hash no_stores built_in_ok 10000 5000 demo_space demo_is_reachable)
    as (s' & S' & E & _ & _ & _ & F1 & F2).
  exists s'. split; [exact E|]. split; [exact F1|exact F2].
Defined.

Lemma containsVar_correct_witness :
  AS.containsVar built_in 8 4 demo_space = Ok true /\ AS.containsVar built_in 8 6 demo_space = Ok false /\
  has_variable built_in (AS.the_tlb demo_space) 4.
Proof.
  destruct (containsVar_correct built_in no_hash no_stores built_in_ok 10000 5000 demo_space 4 demo_is_reachable)
    as (b & E & Hb); [apply is_live; by vm_compute|].
  split; [by vm_compute|]. split; [by vm_compute|]. apply Hb.
  assert (E' : AS.containsVar built_in (size (live (atomTable demo_space))) 4 demo_space = Ok true) by by vm_compute.
  rewrite E in E'. by injection E'.
Defined.

Lemma setTV_getTV_witness :
  exists s', AS.setTV 1 (SimpleTV f0 f0) (mkVH HYPOTHETICAL 4) demo_space = (Ok tt, s') /\
    AS.getTV 1 (mkVH HYPOTHETICAL 4) s' = Ok (cl (cl (SimpleTV f0 f0))).
Proof.
  destruct (atomOf (AS.the_tlb demo_space) 1) as [a|] eqn:Ea; [|by vm_compute in Ea].
  destruct (setTV_getTV built_in no_hash no_stores built_in_ok 10000 5000 demo_space 1 a (SimpleTV f0 f0)
              (mkVH HYPOTHETICAL 4) demo_is_reachable Ea) as (s' & E & Eg & _); [by vm_compute..|].
  exists s'. split; [exact E|exact Eg].
Defined.
