(* ===== verification/Triples.v ===== *)
(** Weakest preconditions for the state monad: a program logic for code that
    calls back into unknown code. An operation may throw or run into undefined
    behaviour, and then [bad] holds of the state it leaves behind; it does not
    run out of fuel. *)
From S2P Require Import Prelude.

Section wp.
Context {S : Type} (bad : S -> Prop).

Definition wp {A} (m : ST S A) (Q : A -> S -> Prop) (s : S) : Prop :=
  match m s with
  | (Ok a, s') => Q a s'
  | (Fuel, _) => False
  | (_, s') => bad s'
  end.

(** An outcome of code that only reads. *)
Definition outcome {A} (r : res A) (Q : A -> Prop) (s : S) : Prop :=
  match r with Ok a => Q a | Fuel => False | _ => bad s end.

Context {A : Type}.
Implicit Types (m : ST S A) (s : S).

Lemma wp_ret (a : A) (Q : A -> S -> Prop) s : Q a s -> wp (mret a) Q s.
Proof. done. Qed.

Lemma wp_bind {B} m (f : A -> ST S B) Q s : wp m (fun a => wp (f a) Q) s -> wp (m ≫= f) Q s.
Proof. unfold wp, mbind, st_bind. destruct (m s) as [[a|ex| |] s']; done. Qed.

Lemma wp_mono m (Q R : A -> S -> Prop) s : wp m Q s -> (forall a s', Q a s' -> R a s') -> wp m R s.
Proof. unfold wp. destruct (m s) as [[a|ex| |] s']; auto. Qed.

Lemma wp_reads (f : S -> res A) Q s : outcome (f s) (fun a => Q a s) s -> wp (reads f) Q s.
Proof. unfold wp, reads, outcome. destruct (f s); done. Qed.

Lemma wp_lift (r : res A) Q s : outcome r (fun a => Q a s) s -> wp (lift r) Q s.
Proof. unfold wp, lift, outcome. destruct r; done. Qed.

Lemma wp_asks (f : S -> A) (Q : A -> S -> Prop) s : Q (f s) s -> wp (asks f) Q s.
Proof. done. Qed.

Lemma wp_getst (Q : S -> S -> Prop) s : Q s s -> wp getst Q s.
Proof. done. Qed.

Lemma wp_modst (f : S -> S) (Q : unit -> S -> Prop) s : Q tt (f s) -> wp (modst f) Q s.
Proof. done. Qed.

Lemma wp_modify (f : S -> res S) Q s : outcome (f s) (fun s' => Q tt s') s -> wp (modify f) Q s.
Proof. unfold wp, modify, outcome. destruct (f s); done. Qed.

Lemma wp_ok m Q s a s' : m s = (Ok a, s') -> wp m Q s -> Q a s'.
Proof. unfold wp. by intros ->. Qed.
End wp.

Lemma outcome_bind {S A B} (bad : S -> Prop) (r : res A) (f : A -> res B) Q s :
  outcome bad r (fun a => outcome bad (f a) Q s) s -> outcome bad (r ≫= f) Q s.
Proof. destruct r; done. Qed.

Lemma outcome_opt {S A} (bad : S -> Prop) (o : option A) Q s :
  bad s -> (forall a, o = Some a -> Q a) -> outcome bad (of_opt o) Q s.
Proof. intros Hb HQ. destruct o; [by apply HQ|done]. Qed.

Lemma outcome_mono {S A} (bad : S -> Prop) (r : res A) (Q R : A -> Prop) s :
  outcome bad r Q s -> (forall a, Q a -> R a) -> outcome bad r R s.
Proof. destruct r; simpl; auto. Qed.

(** One step of a program: reads the operation off the goal. *)
Ltac wp_step :=
  cbv beta iota;
  lazymatch goal with
  | |- wp _ (_ ≫= _) _ _ => apply wp_bind
  | |- wp _ (mret _) _ _ => apply wp_ret
  | |- wp _ (asks _) _ _ => apply wp_asks
  | |- wp _ getst _ _ => apply wp_getst
  | |- wp _ (modst _) _ _ => apply wp_modst
  | |- wp _ (reads _) _ _ => apply wp_reads
  | |- wp _ (lift _) _ _ => apply wp_lift
  | |- wp _ (modify _) _ _ => apply wp_modify
  end.
