(* ===== verification/Query.v ===== *)
(** The pattern matcher: src/opencog/query/PatternMatchEngine.cc and .h,
    PatternMatchCallback.h, OutgoingTree.h, and the loops of
    src/opencog/atomspace/Foreach.h and ForeachTwo.h.

    The engine looks for groundings of clauses (trees of atoms with variables)
    in the atoms of a table. What may match is up to a callback object, which
    is also told about every solution: the class [PatternMatchCallback]. The
    callback owns the world that both see, so an operation of it may change
    the table. Pointers to atoms are addresses, [None] is the null pointer. *)
From S2P Require Import Prelude ClassServer TruthValue Atom TLB HandleEntry AtomTable.

Abbreviation Grounding := (gmap Handle Handle).

Class PatternMatchCallback (C : Type) := {
  cb_table : C -> AtomTable;
  node_match : positive -> positive -> ST C bool;
  variable_match : positive -> positive -> ST C bool;
  link_match : positive -> positive -> ST C bool;
  clause_match : option positive -> option positive -> ST C bool;
  optional_clause_match : option positive -> option positive -> ST C bool;
  (** The groundings of the clauses and of the variables. *)
  solution : Grounding -> Grounding -> ST C bool;
  push : ST C unit;
  pop : ST C unit
}.

(** What [match] and [set_atomspace] prepare. *)
Record Pattern := mkPattern {
  bound_vars : gset Handle;
  cnf_clauses : list Handle;
  optionals : gset Handle;
  root_map : gmap Handle (list Handle);
  invalid_grounding : Handle
}.

(** The member [depth] is left out: only debug messages read it. *)
Record Engine (C : Type) := mkEngine {
  pmc : C;
  atom_space : bool;
  pattern : Pattern;
  curr_root : Handle;
  clause_accepted : bool;
  curr_soln_handle : Handle;
  curr_pred_handle : Handle;
  pred_handle_stack : list Handle;
  soln_handle_stack : list Handle;
  root_handle_stack : list Handle;
  pred_solutn_stack : list Grounding;
  var_solutn_stack : list Grounding;
  issued : gset Handle;
  issued_stack : list (gset Handle);
  var_grounding : Grounding;
  clause_grounding : Grounding
}.
Arguments mkEngine {C}.
Arguments pmc {C}.
Arguments atom_space {C}.
Arguments pattern {C}.
Arguments curr_root {C}.
Arguments clause_accepted {C}.
Arguments curr_soln_handle {C}.
Arguments curr_pred_handle {C}.
Arguments pred_handle_stack {C}.
Arguments soln_handle_stack {C}.
Arguments root_handle_stack {C}.
Arguments pred_solutn_stack {C}.
Arguments var_solutn_stack {C}.
Arguments issued {C}.
Arguments issued_stack {C}.
Arguments var_grounding {C}.
Arguments clause_grounding {C}.

Definition set_pmc {C} (x : C) (e : Engine C) :=
  mkEngine x (atom_space e) (pattern e) (curr_root e) (clause_accepted e) (curr_soln_handle e)
    (curr_pred_handle e) (pred_handle_stack e) (soln_handle_stack e) (root_handle_stack e)
    (pred_solutn_stack e) (var_solutn_stack e) (issued e) (issued_stack e) (var_grounding e)
    (clause_grounding e).
Definition set_atom_space {C} x (e : Engine C) :=
  mkEngine (pmc e) x (pattern e) (curr_root e) (clause_accepted e) (curr_soln_handle e)
    (curr_pred_handle e) (pred_handle_stack e) (soln_handle_stack e) (root_handle_stack e)
    (pred_solutn_stack e) (var_solutn_stack e) (issued e) (issued_stack e) (var_grounding e)
    (clause_grounding e).
Definition set_pattern {C} x (e : Engine C) :=
  mkEngine (pmc e) (atom_space e) x (curr_root e) (clause_accepted e) (curr_soln_handle e)
    (curr_pred_handle e) (pred_handle_stack e) (soln_handle_stack e) (root_handle_stack e)
    (pred_solutn_stack e) (var_solutn_stack e) (issued e) (issued_stack e) (var_grounding e)
    (clause_grounding e).
Definition set_curr_root {C} x (e : Engine C) :=
  mkEngine (pmc e) (atom_space e) (pattern e) x (clause_accepted e) (curr_soln_handle e)
    (curr_pred_handle e) (pred_handle_stack e) (soln_handle_stack e) (root_handle_stack e)
    (pred_solutn_stack e) (var_solutn_stack e) (issued e) (issued_stack e) (var_grounding e)
    (clause_grounding e).
Definition set_clause_accepted {C} x (e : Engine C) :=
  mkEngine (pmc e) (atom_space e) (pattern e) (curr_root e) x (curr_soln_handle e)
    (curr_pred_handle e) (pred_handle_stack e) (soln_handle_stack e) (root_handle_stack e)
    (pred_solutn_stack e) (var_solutn_stack e) (issued e) (issued_stack e) (var_grounding e)
    (clause_grounding e).
Definition set_curr_soln_handle {C} x (e : Engine C) :=
  mkEngine (pmc e) (atom_space e) (pattern e) (curr_root e) (clause_accepted e) x
    (curr_pred_handle e) (pred_handle_stack e) (soln_handle_stack e) (root_handle_stack e)
    (pred_solutn_stack e) (var_solutn_stack e) (issued e) (issued_stack e) (var_grounding e)
    (clause_grounding e).
Definition set_curr_pred_handle {C} x (e : Engine C) :=
  mkEngine (pmc e) (atom_space e) (pattern e) (curr_root e) (clause_accepted e)
    (curr_soln_handle e) x (pred_handle_stack e) (soln_handle_stack e) (root_handle_stack e)
    (pred_solutn_stack e) (var_solutn_stack e) (issued e) (issued_stack e) (var_grounding e)
    (clause_grounding e).
Definition set_pred_handle_stack {C} x (e : Engine C) :=
  mkEngine (pmc e) (atom_space e) (pattern e) (curr_root e) (clause_accepted e) (curr_soln_handle e)
    (curr_pred_handle e) x (soln_handle_stack e) (root_handle_stack e) (pred_solutn_stack e)
    (var_solutn_stack e) (issued e) (issued_stack e) (var_grounding e) (clause_grounding e).
Definition set_soln_handle_stack {C} x (e : Engine C) :=
  mkEngine (pmc e) (atom_space e) (pattern e) (curr_root e) (clause_accepted e) (curr_soln_handle e)
    (curr_pred_handle e) (pred_handle_stack e) x (root_handle_stack e) (pred_solutn_stack e)
    (var_solutn_stack e) (issued e) (issued_stack e) (var_grounding e) (clause_grounding e).
Definition set_root_handle_stack {C} x (e : Engine C) :=
  mkEngine (pmc e) (atom_space e) (pattern e) (curr_root e) (clause_accepted e) (curr_soln_handle e)
    (curr_pred_handle e) (pred_handle_stack e) (soln_handle_stack e) x (pred_solutn_stack e)
    (var_solutn_stack e) (issued e) (issued_stack e) (var_grounding e) (clause_grounding e).
Definition set_pred_solutn_stack {C} x (e : Engine C) :=
  mkEngine (pmc e) (atom_space e) (pattern e) (curr_root e) (clause_accepted e) (curr_soln_handle e)
    (curr_pred_handle e) (pred_handle_stack e) (soln_handle_stack e) (root_handle_stack e) x
    (var_solutn_stack e) (issued e) (issued_stack e) (var_grounding e) (clause_grounding e).
Definition set_var_solutn_stack {C} x (e : Engine C) :=
  mkEngine (pmc e) (atom_space e) (pattern e) (curr_root e) (clause_accepted e) (curr_soln_handle e)
    (curr_pred_handle e) (pred_handle_stack e) (soln_handle_stack e) (root_handle_stack e)
    (pred_solutn_stack e) x (issued e) (issued_stack e) (var_grounding e) (clause_grounding e).
Definition set_issued {C} x (e : Engine C) :=
  mkEngine (pmc e) (atom_space e) (pattern e) (curr_root e) (clause_accepted e) (curr_soln_handle e)
    (curr_pred_handle e) (pred_handle_stack e) (soln_handle_stack e) (root_handle_stack e)
    (pred_solutn_stack e) (var_solutn_stack e) x (issued_stack e) (var_grounding e)
    (clause_grounding e).
Definition set_issued_stack {C} x (e : Engine C) :=
  mkEngine (pmc e) (atom_space e) (pattern e) (curr_root e) (clause_accepted e) (curr_soln_handle e)
    (curr_pred_handle e) (pred_handle_stack e) (soln_handle_stack e) (root_handle_stack e)
    (pred_solutn_stack e) (var_solutn_stack e) (issued e) x (var_grounding e) (clause_grounding e).
Definition set_var_grounding {C} x (e : Engine C) :=
  mkEngine (pmc e) (atom_space e) (pattern e) (curr_root e) (clause_accepted e) (curr_soln_handle e)
    (curr_pred_handle e) (pred_handle_stack e) (soln_handle_stack e) (root_handle_stack e)
    (pred_solutn_stack e) (var_solutn_stack e) (issued e) (issued_stack e) x (clause_grounding e).
Definition set_clause_grounding {C} x (e : Engine C) :=
  mkEngine (pmc e) (atom_space e) (pattern e) (curr_root e) (clause_accepted e) (curr_soln_handle e)
    (curr_pred_handle e) (pred_handle_stack e) (soln_handle_stack e) (root_handle_stack e)
    (pred_solutn_stack e) (var_solutn_stack e) (issued e) (issued_stack e) (var_grounding e) x.

(** *** Pointers *)
Definition on_heap (t : TLB) (p : positive) : res Atom := of_opt (heap t !! p).
(** [TLB::getHandle(a)] reads through the pointer. *)
Definition handle_of (t : TLB) (p : option positive) : res Handle :=
  p ← of_opt p; a ← on_heap t p; getHandle_tlb a.
(** [dynamic_cast<Link*>(a)] and [dynamic_cast<Node*>(a)]. *)
Definition cast_ptr (ok : Atom -> bool) (t : TLB) (p : option positive) : res (option positive) :=
  match p with
  | None => Ok None
  | Some q => a ← on_heap t q; Ok (if ok a then Some q else None)
  end.
Definition as_link_ptr := cast_ptr isLinkObj.
Definition as_node_ptr := cast_ptr isNodeObj.

(** [dynamic_cast<Link*>(TLB::getAtom(h))] and its outgoing set, if any. *)
Definition link_targets (t : TLB) (h : Handle) : res (option (list Handle)) :=
  l ← as_link_ptr t (getAtom t h);
  match l with None => Ok None | Some q => a ← on_heap t q; Ok (Some (outgoing a)) end.

(** As many steps down as there are handles. *)
Definition down_fuel (t : TLB) : nat := S (size (handle_map t)).

(** ** Foreach.h: a loop stops at the first [true]. *)
Fixpoint any {S} (f : Handle -> ST S bool) (l : list Handle) : ST S bool :=
  match l with
  | [] => mret false
  | h :: l' => rc ← f h; if rc : bool then mret true else any f l'
  end.

(** ** OutgoingTree.h *)
Fixpoint any_read (f : Handle -> res bool) (l : list Handle) : res bool :=
  match l with
  | [] => Ok false
  | h :: l' => rc ← f h; if rc : bool then Ok true else any_read f l'
  end.
Fixpoint in_tree (fuel : nat) (t : TLB) (tgt tree : Handle) : res bool :=
  match fuel with
  | O => Fuel
  | S fuel' =>
      if isInvalidHandle t tree then Ok false
      else if (tree =? tgt)%N then Ok true
      else
        vh ← link_targets t tree;
        match vh with None => Ok false | Some vh => any_read (in_tree fuel' t tgt) vh end
  end.
Definition is_node_in_tree (t : TLB) (tree node : Handle) : res bool := in_tree (down_fuel t) t node tree.

Section engine.
Context {C : Type} `{PatternMatchCallback C}.
Abbreviation E := (Engine C).
Implicit Types e : E.

Definition the_tlb e : TLB := tlb (cb_table (pmc e)).
Definition on_cb {A} (f : ST C A) : ST E A := fun e =>
  let '(r, c) := f (pmc e) in (r, set_pmc c e).

Definition PatternMatchEngine_new (c : C) : E :=
  mkEngine c false (mkPattern ∅ [] ∅ ∅ UNDEFINED) UNDEFINED false UNDEFINED UNDEFINED
    [] [] [] [] [] ∅ [] ∅ ∅.

(** [var_grounding[h]] and [clause_grounding[h]]: reading makes an entry. *)
Definition var_at (h : Handle) : ST E Handle :=
  o ← asks (fun e => var_grounding e !! h);
  match o with
  | Some g => mret g
  | None => _ ← modst (fun e => set_var_grounding (<[h := UNDEFINED]> (var_grounding e)) e); mret UNDEFINED
  end.
Definition clause_at (h : Handle) : ST E Handle :=
  o ← asks (fun e => clause_grounding e !! h);
  match o with
  | Some g => mret g
  | None => _ ← modst (fun e => set_clause_grounding (<[h := UNDEFINED]> (clause_grounding e)) e); mret UNDEFINED
  end.
Definition ground (hp hg : Handle) : ST E unit :=
  modst (fun e => set_var_grounding (<[hp := hg]> (var_grounding e)) e).
Definition ground_clause (hp hg : Handle) : ST E unit :=
  modst (fun e => set_clause_grounding (<[hp := hg]> (clause_grounding e)) e).

(** *** The stacks *)

(** [pop] of an empty stack is undefined. *)
Definition tail_of {A} (l : list A) : res (list A) :=
  match l with [] => Undef | _ :: l' => Ok l' end.
Definition top (l : list Grounding) : Grounding := default ∅ (head l).
Definition push_var : ST E unit :=
  modst (fun e => set_var_solutn_stack (var_grounding e :: var_solutn_stack e) e).
Definition pop_var : ST E unit :=
  modify (fun e => l ← tail_of (var_solutn_stack e); Ok (set_var_solutn_stack l e)).
(** The macro [POPTOP]: back to the entry below the one that is popped. *)
Definition poptop_var : ST E unit :=
  modify (fun e => l ← tail_of (var_solutn_stack e);
                   Ok (set_var_grounding (top l) (set_var_solutn_stack l e))).
Definition poptop_pred : ST E unit :=
  modify (fun e => l ← tail_of (pred_solutn_stack e);
                   Ok (set_clause_grounding (top l) (set_pred_solutn_stack l e))).

(** ** tree_compare: [true] is a mismatch *)

(** [foreach_outgoing_atom_pair]: the longer vector is paired with null. *)
Definition compare_handle (cb : option positive -> option positive -> ST E bool) (null_first : bool)
    (h : Handle) : ST E bool :=
  a ← asks (fun e => getAtom (the_tlb e) h);
  if null_first then cb None a else cb a None.
Fixpoint pair_loop (cb : option positive -> option positive -> ST E bool) (va vb : list Handle) : ST E bool :=
  match va, vb with
  | ha :: va', hb :: vb' =>
      aa ← asks (fun e => getAtom (the_tlb e) ha);
      ab ← asks (fun e => getAtom (the_tlb e) hb);
      rc ← cb aa ab; if rc : bool then mret true else pair_loop cb va' vb'
  | [], vb => any (compare_handle cb true) vb
  | va, [] => any (compare_handle cb false) va
  end.
Definition foreach_outgoing_atom_pair (cb : option positive -> option positive -> ST E bool)
    (ha hb : Handle) : ST E bool :=
  va ← reads (fun e => link_targets (the_tlb e) ha);
  vb ← reads (fun e => link_targets (the_tlb e) hb);
  match va, vb with Some va, Some vb => pair_loop cb va vb | _, _ => mret false end.

(** The first part: [ap] is a bound variable. *)
Definition compare_variable (ap ag : option positive) (hp hg : Handle) : ST E bool :=
  bound ← asks (fun e => bool_decide (hg ∈ bound_vars (pattern e)));
  if bound : bool then mret true
  else
    gnd ← var_at hp;
    valid ← asks (fun e => isValidHandle (the_tlb e) gnd);
    if valid : bool then mret (negb (gnd =? hg)%N)
    else
      np ← reads (fun e => as_node_ptr (the_tlb e) ap);
      ng ← reads (fun e => as_node_ptr (the_tlb e) ag);
      match np, ng with
      | Some np, Some ng =>
          mismatch ← on_cb (variable_match np ng);
          if mismatch : bool then mret true else _ ← ground hp hg; mret false
      | _, _ => mret true
      end.

(** Two links, two nodes. *)
Definition compare_links (cb : option positive -> option positive -> ST E bool) (lp lg : positive)
    (hp hg : Handle) : ST E bool :=
  mismatch ← on_cb (link_match lp lg);
  if mismatch : bool then mret true
  else
    _ ← push_var;
    mismatch ← foreach_outgoing_atom_pair cb hp hg;
    _ ← (if mismatch : bool then poptop_var else _ ← ground hp hg; pop_var);
    mret mismatch.
Definition compare_nodes (np ng : positive) (hp hg : Handle) : ST E bool :=
  mismatch ← on_cb (node_match np ng);
  _ ← (if mismatch : bool then mret tt else ground hp hg);
  mret mismatch.

Fixpoint tree_compare (fuel : nat) (ap ag : option positive) : ST E bool :=
  match fuel with
  | O => nofuel
  | S fuel' =>
      hp ← reads (fun e => handle_of (the_tlb e) ap);
      hg ← reads (fun e => handle_of (the_tlb e) ag);
      bound ← asks (fun e => bool_decide (hp ∈ bound_vars (pattern e)));
      if bound : bool then compare_variable ap ag hp hg
      else
        current ← asks curr_pred_handle;
        if (hp =? hg)%N && negb (hg =? current)%N then _ ← ground hp hg; mret false
        else
          lp ← reads (fun e => as_link_ptr (the_tlb e) ap);
          lg ← reads (fun e => as_link_ptr (the_tlb e) ag);
          match lp, lg with
          | Some lp, Some lg => compare_links (tree_compare fuel') lp lg hp hg
          | _, _ =>
              np ← reads (fun e => as_node_ptr (the_tlb e) ap);
              ng ← reads (fun e => as_node_ptr (the_tlb e) ag);
              match np, ng with
              | Some np, Some ng => compare_nodes np ng hp hg
              | _, _ => mret true
              end
          end
  end.

(** ** get_next_untried_clause *)

(** The members of [root_map] in the order of their keys. *)
Definition root_entries (p : Pattern) : list (Handle * list Handle) :=
  (fun k => (k, default [] (root_map p !! k))) <$> merge_sort N.le (fst <$> map_to_list (root_map p)).

Record Scan := mkScan { solved : bool; unsolved : bool; unsolved_clause : Handle; pursue : Handle }.

(** The roots of one entry. The first search is for required clauses. *)
Fixpoint scan_roots (required : bool) (rl : list Handle) (s : Scan) : ST E Scan :=
  match rl with
  | [] => mret s
  | root :: rl' =>
      root_gnd ← clause_at root;
      e ← getst;
      let is_solved := isValidHandle (the_tlb e) root_gnd &&
                       (required || negb (root_gnd =? invalid_grounding (pattern e))%N) in
      let is_open := bool_decide (root ∉ issued e) &&
                     (negb required || bool_decide (root ∉ optionals (pattern e))) in
      scan_roots required rl'
        (if is_solved then mkScan true (unsolved s) (unsolved_clause s) (pursue s)
         else if is_open then mkScan (solved s) true root (pursue s)
         else s)
  end.
(** The loop over the entries stops at the first that is solved and unsolved. *)
Fixpoint scan_entries (required : bool) (l : list (Handle * list Handle)) (s : Scan) : ST E Scan :=
  match l with
  | [] => mret s
  | (k, rl) :: l' =>
      s' ← scan_roots required rl (mkScan false false (unsolved_clause s) k);
      if solved s' && unsolved s' then mret s' else scan_entries required l' s'
  end.

(** One search: whether a clause was found and issued. *)
Definition search_clause (required : bool) (s : Scan) : ST E (bool * Scan) :=
  entries ← asks (fun e => root_entries (pattern e));
  s ← scan_entries required entries (mkScan false false (unsolved_clause s) (pursue s));
  if solved s && unsolved s then
    _ ← modst (set_curr_root (unsolved_clause s));
    _ ← modst (set_curr_pred_handle (pursue s));
    if negb (unsolved_clause s =? UNDEFINED)%N
    then _ ← modst (fun e => set_issued ({[unsolved_clause s]} ∪ issued e) e); mret (true, s)
    else mret (false, s)
  else mret (false, s).
Definition get_next_untried_clause : ST E unit :=
  r ← search_clause true (mkScan false false UNDEFINED UNDEFINED);
  if r.1 : bool then mret tt
  else
    r ← search_clause false r.2;
    if r.1 : bool then mret tt
    else
      _ ← modst (set_curr_root UNDEFINED);
      modst (set_curr_pred_handle UNDEFINED).

(** ** soln_up, do_soln_up and pred_up *)
Section up.
Context (soln_up : Handle -> ST E bool).

(** [foreach_incoming_handle]: the list of the moment, [getIncoming(h)]. *)
Definition incoming_of e (h : Handle) : res (list Handle) :=
  a ← of_opt (atomOf (the_tlb e) h); Ok (HE.toHandleVector (a_incoming a)).

(** The next clause, or the report of a solution. *)
Definition next_clause : ST E bool :=
  root ← asks curr_root;
  if (root =? UNDEFINED)%N then
    e ← getst; on_cb (solution (clause_grounding e) (var_grounding e))
  else
    _ ← modst (set_clause_accepted false);
    pred ← asks curr_pred_handle;
    gnd ← var_at pred;
    _ ← modst (set_curr_soln_handle gnd);
    soln ← asks curr_soln_handle;
    soln_up soln.

(** The loop over the optional clauses without a grounding; [None] is the
    [return false] in its middle. *)
Fixpoint optional_loop (n : nat) (found : bool) : ST E (option bool) :=
  match n with
  | O => nofuel
  | S n' =>
      e ← getst;
      if negb found && negb (clause_accepted e) && bool_decide (curr_root e ∈ optionals (pattern e)) then
        lcl ← reads (fun e => as_link_ptr (the_tlb e) (getAtom (the_tlb e) (curr_pred_handle e)));
        no_match ← on_cb (optional_clause_match lcl None);
        if no_match : bool then mret None
        else
          _ ← modst (fun e => set_clause_grounding
                       (<[curr_root e := invalid_grounding (pattern e)]> (clause_grounding e)) e);
          _ ← get_next_untried_clause;
          found ← next_clause;
          optional_loop n' found
      else mret (Some found)
  end.

(** The six stacks, at the start and at the end of the work on a next clause. *)
Definition push_all_stacks : ST E unit :=
  _ ← modst (fun e => set_root_handle_stack (curr_root e :: root_handle_stack e) e);
  _ ← modst (fun e => set_pred_handle_stack (curr_pred_handle e :: pred_handle_stack e) e);
  _ ← modst (fun e => set_soln_handle_stack (curr_soln_handle e :: soln_handle_stack e) e);
  _ ← modst (fun e => set_pred_solutn_stack (clause_grounding e :: pred_solutn_stack e) e);
  _ ← push_var;
  _ ← modst (fun e => set_issued_stack (issued e :: issued_stack e) e);
  on_cb push.
Definition pop_root : ST E unit :=
  modify (fun e => r ← of_opt (head (root_handle_stack e));
                   Ok (set_root_handle_stack (tail (root_handle_stack e)) (set_curr_root r e))).
Definition pop_pred : ST E unit :=
  modify (fun e => r ← of_opt (head (pred_handle_stack e));
                   Ok (set_pred_handle_stack (tail (pred_handle_stack e)) (set_curr_pred_handle r e))).
Definition pop_soln : ST E unit :=
  modify (fun e => r ← of_opt (head (soln_handle_stack e));
                   Ok (set_soln_handle_stack (tail (soln_handle_stack e)) (set_curr_soln_handle r e))).
Definition pop_issued : ST E unit :=
  modify (fun e => r ← of_opt (head (issued_stack e));
                   Ok (set_issued_stack (tail (issued_stack e)) (set_issued r e))).
Definition pop_all_stacks : ST E unit :=
  _ ← on_cb pop;
  _ ← pop_root; _ ← pop_pred; _ ← pop_soln; _ ← poptop_pred; _ ← poptop_var;
  pop_issued.

(** The top of a clause has matched [as]: the callback decides, and the search
    goes on with the next clause. *)
Definition clause_done (ap ag : option positive) : ST E bool :=
  lp ← reads (fun e => as_link_ptr (the_tlb e) ap);
  ls ← reads (fun e => as_link_ptr (the_tlb e) ag);
  optional ← asks (fun e => bool_decide (curr_root e ∈ optionals (pattern e)));
  no_match ← (if optional : bool
              then _ ← modst (set_clause_accepted true); on_cb (optional_clause_match lp ls)
              else on_cb (clause_match lp ls));
  if no_match : bool then mret false
  else
    hs ← reads (fun e => handle_of (the_tlb e) ag);
    _ ← modst (set_curr_soln_handle hs);
    _ ← modst (fun e => set_clause_grounding
                 (<[curr_root e := curr_soln_handle e]> (clause_grounding e)) e);
    _ ← push_all_stacks;
    _ ← get_next_untried_clause;
    root ← asks curr_root;
    found ← next_clause;
    r ← (if (root =? UNDEFINED)%N then mret (Some found)
         else n ← asks (fun e => S (S (length (cnf_clauses (pattern e))))); optional_loop n found);
    match r with
    | None => mret false
    | Some found => _ ← pop_all_stacks; mret found
    end.

Definition pred_up (h : Handle) : ST E bool :=
  valid ← reads (fun e => is_node_in_tree (the_tlb e) (curr_root e) h);
  if negb valid then mret false
  else
    curr_pred_save ← asks curr_pred_handle;
    _ ← modst (set_curr_pred_handle h);
    hs ← reads (fun e => incoming_of e (curr_soln_handle e));
    found ← any soln_up hs;
    _ ← modst (set_curr_pred_handle curr_pred_save);
    mret found.

Definition do_soln_up (hsoln : Handle) : ST E bool :=
  e ← getst;
  if (hsoln =? curr_root e)%N then mret false
  else
    let ap := getAtom (the_tlb e) (curr_pred_handle e) in
    let ag := getAtom (the_tlb e) hsoln in
    no_match ← tree_compare (down_fuel (the_tlb e)) ap ag;
    if no_match : bool then mret false
    else
      top_of_clause ← asks (fun e => (curr_pred_handle e =? curr_root e)%N);
      if top_of_clause : bool then clause_done ap ag
      else
        _ ← modst (fun e => set_soln_handle_stack (curr_soln_handle e :: soln_handle_stack e) e);
        _ ← modst (set_curr_soln_handle hsoln);
        hs ← reads (fun e => incoming_of e (curr_pred_handle e));
        found ← any pred_up hs;
        _ ← pop_soln;
        mret found.
End up.

Fixpoint soln_up (fuel : nat) (hsoln : Handle) : ST E bool :=
  match fuel with
  | O => nofuel
  | S fuel' =>
      _ ← push_var;
      found ← do_soln_up (soln_up fuel') hsoln;
      _ ← (if found : bool then pop_var else poptop_var);
      mret found
  end.

(** Every clause is climbed at most once in a chain of calls, and a climb has
    at most as many steps as there are handles. *)
Definition search_fuel e : nat :=
  S (length (cnf_clauses (pattern e))) * S (S (size (handle_map (the_tlb e)))).

(** ** do_candidate *)
Definition clear_search e : E :=
  mkEngine (pmc e) (atom_space e) (pattern e) (curr_root e) (clause_accepted e) (curr_soln_handle e)
    (curr_pred_handle e) [] [] [] [] [] ∅ [] ∅ ∅.
Definition do_candidate (do_clause starter ah : Handle) : ST E bool :=
  _ ← modst clear_search;
  _ ← modst (set_curr_root do_clause);
  _ ← modst (set_curr_pred_handle starter);
  _ ← modst (fun e => set_issued ({[curr_root e]} ∪ issued e) e);
  fuel ← asks search_fuel;
  soln_up fuel ah.

(** ** match *)

(** [root_map]: the clauses that every atom below a clause is part of. *)
Fixpoint note_root (fuel : nat) (t : TLB) (root h : Handle) (m : gmap Handle (list Handle))
    : res (gmap Handle (list Handle)) :=
  match fuel with
  | O => Fuel
  | S fuel' =>
      let m := <[h := default [] (m !! h) ++ [root]]> m in
      vh ← link_targets t h;
      rfold (fun m x => note_root fuel' t root x m) m (default [] vh)
  end.
Definition note_roots (t : TLB) (clauses : list Handle) : res (gmap Handle (list Handle)) :=
  rfold (fun m h => note_root (down_fuel t) t h h m) ∅ clauses.

Definition match_ (perform_search : list Handle -> list Handle -> list Handle -> ST E unit)
    (vars clauses negations : list Handle) : ST E unit :=
  e ← getst;
  if negb (atom_space e) then mret tt
  else
    let p := pattern e in
    let cnf := clauses ++ negations in
    _ ← modst (set_pattern (mkPattern (bound_vars p ∪ list_to_set vars) cnf
                 (optionals p ∪ list_to_set negations) (root_map p) (invalid_grounding p)));
    _ ← modst (set_var_grounding ∅);
    _ ← modst (set_clause_grounding ∅);
    match cnf with
    | [] => mret tt
    | _ =>
        m ← reads (fun e => note_roots (the_tlb e) cnf);
        _ ← modst (fun e => let p := pattern e in
              set_pattern (mkPattern (bound_vars p) (cnf_clauses p) (optionals p) m (invalid_grounding p)) e);
        _ ← modst (set_curr_root (default UNDEFINED (last cnf)));
        perform_search vars clauses negations
    end.
End engine.

(** ** validate: clauses without a variable are dropped *)
Fixpoint validate_clause (fuel : nat) (t : TLB) (vars : list Handle) (clause : Handle) : res bool :=
  match fuel with
  | O => Fuel
  | S fuel' =>
      n ← as_node_ptr t (getAtom t clause);
      match n with
      | Some _ => Ok (bool_decide (clause ∈ vars))
      | None =>
          oset ← link_targets t clause;
          any_read (validate_clause fuel' t vars) (default [] oset)
      end
  end.
(** The clauses that stay, and whether one was dropped. *)
Fixpoint validate (t : TLB) (vars clauses : list Handle) : res (list Handle * bool) :=
  match clauses with
  | [] => Ok ([], false)
  | clause :: clauses' =>
      ok ← validate_clause (down_fuel t) t vars clause;
      r ← validate t vars clauses';
      Ok (if ok : bool then (clause :: r.1, r.2) else (r.1, true))
  end.
