(* ===== verification/QueryCB.v ===== *)
(** The callbacks of the pattern matcher: DefaultPatternMatchCB.cc and .h and
    CrispLogicPMCB.h of src/opencog/query, and the search they perform. What is
    done with a solution is left to the classes below them, so it is an
    argument here. *)
From S2P Require Import Prelude ClassServer TruthValue Atom TLB HandleEntry Index AtomTable Query.

(** A null pointer is "no restrictions"; [std::map] by the address of the
    variable. *)
Definition VariableTypeMap : Type := gmap positive (gset N).

Section callbacks.
Context `{SetOrder} (cs : ClassServer) {C : Type} (table : C -> AtomTable)
  (restrictions : C -> option VariableTypeMap) (solution : Grounding -> Grounding -> ST C bool).

Definition VARIABLE_NODE : N := ClassServer.getType cs "VariableNode".

Definition type_of_ptr (t : TLB) (p : positive) : res N := a ← on_heap t p; Ok (a_type a).

(** [true] is a mismatch. *)
Definition default_node_match (npat nsoln : positive) : bool := negb (npat =? nsoln)%positive.
Definition default_variable_match (t : TLB) (restr : option VariableTypeMap) (npat nsoln : positive)
    : res bool :=
  pattype ← type_of_ptr t npat;
  if negb (pattype =? VARIABLE_NODE)%N then Ok false
  else
    soltype ← type_of_ptr t nsoln;
    if (soltype =? VARIABLE_NODE)%N then Ok true
    else
      match restr with
      | None => Ok false
      | Some m =>
          match m !! npat with
          | None => Ok false
          | Some tset => Ok (negb (bool_decide (soltype ∈ tset)))
          end
      end.
Definition default_link_match (t : TLB) (lpat lsoln : positive) : res bool :=
  if (lpat =? lsoln)%positive then Ok false
  else
    a ← on_heap t lpat; b ← on_heap t lsoln;
    if negb (getArity a =? getArity b)%N then Ok true
    else Ok (negb (a_type a =? a_type b)%N).

Definition DefaultPatternMatchCB : PatternMatchCallback C := {|
  cb_table := table;
  node_match := fun np ns => mret (default_node_match np ns);
  variable_match := fun np ns => reads (fun c => default_variable_match (tlb (table c)) (restrictions c) np ns);
  link_match := fun lp ls => reads (fun c => default_link_match (tlb (table c)) lp ls);
  clause_match := fun _ _ => mret false;
  optional_clause_match := fun _ _ => mret false;
  Query.solution := solution;
  push := mret tt;
  pop := mret tt
|}.

(** The mean of the truth value of a grounding; the pointer is followed. *)
Definition grounding_mean (t : TLB) (grnd : option positive) : res float :=
  p ← of_opt grnd; a ← on_heap t p; getMean (a_truthValue a).
Definition crisp_clause_match (t : TLB) (grnd : option positive) : res bool :=
  mean ← grounding_mean t grnd; Ok (flt mean (f64_div (f64_of_Z 1) (f64_of_Z 2))).
Definition crisp_optional_clause_match (t : TLB) (grnd : option positive) : res bool :=
  match grnd with
  | None => Ok false
  | Some _ => mean ← grounding_mean t grnd; Ok (fgt mean (f64_div (f64_of_Z 1) (f64_of_Z 2)))
  end.
Definition CrispLogicPMCB : PatternMatchCallback C := {|
  cb_table := table;
  node_match := @node_match C DefaultPatternMatchCB;
  variable_match := @variable_match C DefaultPatternMatchCB;
  link_match := @link_match C DefaultPatternMatchCB;
  clause_match := fun _ grnd => reads (fun c => crisp_clause_match (tlb (table c)) grnd);
  optional_clause_match := fun _ grnd => reads (fun c => crisp_optional_clause_match (tlb (table c)) grnd);
  Query.solution := solution;
  push := mret tt;
  pop := mret tt
|}.
End callbacks.

(** ** perform_search *)
Section perform.
Context `{SetOrder} (cs : ClassServer) {C : Type} `{PatternMatchCallback C}.

(** A node to start at, and the last link that was entered on the way, which
    is kept in [starter_pred]. *)
Fixpoint starter_loop (f : Handle -> Handle -> res (Handle * Handle)) (l : list Handle)
    (starter_pred : Handle) : res (Handle * Handle) :=
  match l with
  | [] => Ok (UNDEFINED, starter_pred)
  | hout :: l' =>
      r ← f hout starter_pred;
      if negb (r.1 =? UNDEFINED)%N then Ok r else starter_loop f l' r.2
  end.
Fixpoint find_starter (fuel : nat) (t : TLB) (h starter_pred : Handle) : res (Handle * Handle) :=
  match fuel with
  | O => Fuel
  | S fuel' =>
      vh ← link_targets t h;
      match vh with
      | None =>
          a ← of_opt (atomOf t h);
          Ok (if negb (a_type a =? VARIABLE_NODE cs)%N then h else UNDEFINED, starter_pred)
      | Some vh => starter_loop (find_starter fuel' t) vh h
      end
  end.

Definition loop_candidate (root starter_pred h : Handle) : ST (Engine C) bool :=
  do_candidate root starter_pred h.

Definition perform_search (vars clauses negations : list Handle) : ST (Engine C) unit :=
  h ← lift (of_opt (head clauses));
  r ← reads (fun e => find_starter (down_fuel (the_tlb e)) (the_tlb e) h UNDEFINED);
  if negb (r.1 =? UNDEFINED)%N && negb (bool_decide (vars = [])) then
    hs ← reads (fun e => incoming_of e r.1);
    _ ← any (loop_candidate h r.2) hs; mret tt
  else
    ptype ← reads (fun e => a ← of_opt (atomOf (the_tlb e) h); Ok (a_type a));
    hs ← reads (fun e => getHandleSet_type_vh cs (cb_table (pmc e)) ptype false NULL_VERSION_HANDLE);
    _ ← any (loop_candidate h h) hs; mret tt.
End perform.
