(* ===== verification/QuerySpec.v ===== *)
(** What a match is: the specification that the pattern matcher of
    src/opencog/query is proved against. A pattern matches an atom when both
    are the same but for the bound variables, which a grounding maps to atoms,
    and but for the nodes and links that the callback lets pass for equal. *)
From S2P Require Import Prelude ClassServer TruthValue Atom TLB HandleEntry AtomTable SpaceInv Triples Query.

(** ** Graphs of atoms *)

(** What the matcher relies on: handles lead to atoms, the targets of a link
    are there and older than it, and the incoming lists are those of the links. *)
Record graph_ok (t : TLB) : Prop := {
  gr_tlb : TLB_wf t;
  gr_down : forall h a x, atomOf t h = Some a -> x ∈ outgoing a -> is_Some (atomOf t x) /\ (x < h)%N;
  gr_up : forall h a k, atomOf t h = Some a -> k ∈ a_incoming a ->
    exists b, atomOf t k = Some b /\ h ∈ outgoing b
}.

(** Atoms may be added and their values may change. *)
Record grows (t t' : TLB) : Prop := {
  gw_atom : forall h a, atomOf t h = Some a -> exists a', atomOf t' h = Some a' /\ bone a' = bone a;
  gw_ptr : handle_map t ⊆ handle_map t'
}.

#[export] Instance grows_preorder : PreOrder grows.
Proof.
  split.
  - intros t. split; [eauto|done].
  - intros t1 t2 t3 [A1 P1] [A2 P2]. split; [|by etrans].
    intros h a Ha. destruct (A1 h a Ha) as (a1 & H1 & E1). destruct (A2 h a1 H1) as (a2 & H2 & E2).
    exists a2. split; [done|congruence].
Qed.

Lemma grows_live t t' h : grows t t' -> is_Some (atomOf t h) -> is_Some (atomOf t' h).
Proof. intros Hg [a Ha]. destruct (gw_atom _ _ Hg h a Ha) as (a' & Ha' & _). eauto. Qed.

Lemma grows_node t t' h a : grows t t' -> atomOf t h = Some a ->
  exists a', atomOf t' h = Some a' /\ a_type a' = a_type a /\ outgoing a' = outgoing a /\
    isNodeObj a' = isNodeObj a /\ isLinkObj a' = isLinkObj a.
Proof.
  intros Hg Ha. destruct (gw_atom _ _ Hg h a Ha) as (a' & Ha' & Hb). exists a'. split; [done|].
  apply bone_fields in Hb as (E1 & E2 & E3 & _). split_and!; try done.
  unfold isNodeObj in E3. by destruct (isLinkObj a'), (isLinkObj a).
Qed.

Lemma live_ptr t h : graph_ok t -> is_Some (getAtom t h) <-> is_Some (atomOf t h).
Proof. intros Hg. symmetry. apply atomOf_getAtom, Hg. Qed.

Lemma UNDEFINED_dead t : graph_ok t -> atomOf t UNDEFINED = None.
Proof. intros Hg. unfold atomOf, getAtom. by rewrite (twf_def _ (gr_tlb _ Hg)). Qed.

(** ** Reading through pointers *)
Section reads.
Context {S : Type} (bad : S -> Prop) (s : S) (t : TLB).
Hypothesis Hbad : bad s.
Hypothesis Hg : graph_ok t.

Lemma on_heap_ok p (Q : Atom -> Prop) : (forall a, heap t !! p = Some a -> Q a) -> outcome bad (on_heap t p) Q s.
Proof. intros HQ. by apply outcome_opt. Qed.

Lemma handle_of_ok h (Q : Handle -> Prop) :
  (forall a, atomOf t h = Some a -> Q h) -> outcome bad (handle_of t (getAtom t h)) Q s.
Proof.
  intros HQ. unfold handle_of. apply outcome_bind, outcome_opt; [done|]. intros p Hp.
  apply outcome_bind, on_heap_ok. intros a Ha. unfold getHandle_tlb.
  destruct (twf_live _ (gr_tlb _ Hg) h p Hp) as (a' & Ha' & Hh). simplify_eq.
  case_match; [done|]. apply (HQ a). unfold atomOf. by rewrite Hp.
Qed.

Lemma cast_ptr_ok (ok : Atom -> bool) h (Q : option positive -> Prop) :
  (forall a, atomOf t h = Some a -> Q (if ok a then getAtom t h else None)) ->
  (getAtom t h = None -> Q None) -> outcome bad (cast_ptr ok t (getAtom t h)) Q s.
Proof.
  intros HQ HN. unfold cast_ptr. destruct (getAtom t h) as [p|] eqn:Hp; [|by apply HN].
  apply outcome_bind, on_heap_ok. intros a Ha. apply HQ. unfold atomOf. by rewrite Hp.
Qed.

Lemma link_targets_ok h (Q : option (list Handle) -> Prop) :
  (forall a, atomOf t h = Some a -> Q (if isLinkObj a then Some (outgoing a) else None)) ->
  (getAtom t h = None -> Q None) -> outcome bad (link_targets t h) Q s.
Proof.
  intros HQ HN. unfold link_targets, as_link_ptr. apply outcome_bind, cast_ptr_ok; [|done].
  intros a Ha. pose proof (HQ a Ha) as HQa. destruct (isLinkObj a); [|done].
  apply atomOf_Some in Ha as (p & Hp & Hpa). unfold getAtom. rewrite Hp.
  apply outcome_bind, on_heap_ok. intros b Hb. by simplify_eq.
Qed.
End reads.

(** ** Matches *)
Section matches.
Context (P : Pattern) (accepts_node accepts_var accepts_link : TLB -> Handle -> Handle -> Prop).

Class Stable (R : TLB -> Handle -> Handle -> Prop) : Prop :=
  stable : forall t t' p g, grows t t' -> R t p g -> R t' p g.
Context `{!Stable accepts_node, !Stable accepts_var, !Stable accepts_link}.

Inductive matches (t : TLB) (G : Grounding) : Handle -> Handle -> Prop :=
  | m_var p g : p ∈ bound_vars P -> G !! p = Some g -> g <> UNDEFINED -> matches t G p g
  | m_same p : p ∉ bound_vars P -> is_Some (atomOf t p) -> matches t G p p
  | m_links p g a b :
      p ∉ bound_vars P -> atomOf t p = Some a -> atomOf t g = Some b ->
      isLinkObj a = true -> isLinkObj b = true -> accepts_link t p g ->
      all_match t G (outgoing a) (outgoing b) -> matches t G p g
  | m_nodes p g a b :
      p ∉ bound_vars P -> atomOf t p = Some a -> atomOf t g = Some b ->
      isNodeObj a = true -> isNodeObj b = true -> accepts_node t p g -> matches t G p g
with all_match (t : TLB) (G : Grounding) : list Handle -> list Handle -> Prop :=
  | am_nil : all_match t G [] []
  | am_cons p g ps gs : matches t G p g -> all_match t G ps gs -> all_match t G (p :: ps) (g :: gs).

Scheme matches_ind' := Minimality for matches Sort Prop
  with all_match_ind' := Minimality for all_match Sort Prop.
Combined Scheme matches_mut from matches_ind', all_match_ind'.

(** The bound variables of a grounding: nodes that the callback accepted. *)
Definition vars_ok (t : TLB) (G : Grounding) : Prop := forall v g,
  v ∈ bound_vars P -> G !! v = Some g -> g <> UNDEFINED ->
  (g ∉ bound_vars P) /\ accepts_var t v g /\
  exists a b, atomOf t v = Some a /\ isNodeObj a = true /\ atomOf t g = Some b /\ isNodeObj b = true.

Definition extends (G G' : Grounding) : Prop := forall v g,
  v ∈ bound_vars P -> G !! v = Some g -> g <> UNDEFINED -> G' !! v = Some g.

#[export] Instance extends_preorder : PreOrder extends.
Proof. split; [by intros G v g|]. intros G1 G2 G3 H1 H2 v g Hv Hg Hu. by apply H2; [|apply H1|]. Qed.

Lemma matches_grow t t' G G' :
  grows t t' -> extends G G' ->
  (forall p g, matches t G p g -> matches t' G' p g) /\
  (forall ps gs, all_match t G ps gs -> all_match t' G' ps gs).
Proof.
  intros Hgr Hext. apply matches_mut.
  - intros p g Hp Hg Hu. apply m_var; [done|by apply Hext|done].
  - intros p Hp Hl. apply m_same; [done|by apply (grows_live t)].
  - intros p g a b Hp Ha Hb La Lb Hacc _ IH.
    destruct (grows_node t t' p a Hgr Ha) as (a' & Ha' & _ & Oa & _ & La').
    destruct (grows_node t t' g b Hgr Hb) as (b' & Hb' & _ & Ob & _ & Lb').
    eapply m_links; [done|exact Ha'|exact Hb'|congruence|congruence|by apply (stable t)|by rewrite Oa, Ob].
  - intros p g a b Hp Ha Hb Na Nb Hacc.
    destruct (grows_node t t' p a Hgr Ha) as (a' & Ha' & _ & _ & Na' & _).
    destruct (grows_node t t' g b Hgr Hb) as (b' & Hb' & _ & _ & Nb' & _).
    eapply m_nodes; [done|exact Ha'|exact Hb'|congruence|congruence|by apply (stable t)].
  - constructor.
  - intros. by constructor.
Qed.

Lemma vars_ok_grow t t' G : grows t t' -> vars_ok t G -> vars_ok t' G.
Proof.
  intros Hgr HG v g Hv Hvg Hu. destruct (HG v g Hv Hvg Hu) as (Hgb & Hacc & a & b & Ha & Na & Hb & Nb).
  destruct (grows_node t t' v a Hgr Ha) as (a' & Ha' & _ & _ & Na' & _).
  destruct (grows_node t t' g b Hgr Hb) as (b' & Hb' & _ & _ & Nb' & _).
  split; [done|]. split; [by apply (stable t)|]. exists a', b'. split_and!; congruence.
Qed.

Lemma matches_live t G p g : vars_ok t G -> matches t G p g -> is_Some (atomOf t g).
Proof. intros HG Hm. destruct Hm; [|done|eauto..]. edestruct HG as (_ & _ & ? & ? & ? & ? & ? & ?); eauto. Qed.

(** A grounding of the clauses that agrees with one of the variables; an
    optional clause may have the grounding that stands for none. *)
Record sound (t : TLB) (cg vg : Grounding) : Prop := {
  so_vars : vars_ok t vg;
  so_clauses : forall c g, cg !! c = Some g -> g <> UNDEFINED ->
    matches t vg c g \/ (c ∈ optionals P /\ g = invalid_grounding P)
}.

Lemma sound_grow t t' cg G G' :
  grows t t' -> extends G G' -> vars_ok t' G' -> sound t cg G -> sound t' cg G'.
Proof.
  intros Hgr Hext HG' [_ Hc]. split; [done|]. intros c g Hcg Hu.
  destruct (Hc c g Hcg Hu) as [Hm|?]; [left|by right]. by apply (matches_grow t t' G G').
Qed.

Lemma sound_later t t' cg G : grows t t' -> sound t cg G -> sound t' cg G.
Proof.
  intros Hgr HG. eapply sound_grow; [exact Hgr|reflexivity| |exact HG].
  eapply vars_ok_grow; [exact Hgr|apply HG].
Qed.

(** [cg] is part of [cg'], but for entries that only a lookup made. *)
Definition part_of (cg cg' : Grounding) : Prop := forall c g,
  cg !! c = Some g -> g <> UNDEFINED -> cg' !! c = Some g.

Lemma sound_part t cg cg' vg : part_of cg cg' -> sound t cg' vg -> sound t cg vg.
Proof. intros Hp [Hv Hc]. split; [done|]. intros c g Hcg Hu. by apply Hc; [apply Hp|]. Qed.

(** Two clauses share an atom; the clauses that are linked to [r] by such. *)
Definition shares (c d : Handle) : Prop := exists k rl, root_map P !! k = Some rl /\ c ∈ rl /\ d ∈ rl.
Definition linked (r d : Handle) : Prop :=
  rtc (fun c d => shares c d /\ d ∉ optionals P) r d.

(** What a reported solution of a search that starts at [r] promises. *)
Record reported (t : TLB) (r : Handle) (cg vg : Grounding) : Prop := {
  rp_sound : sound t cg vg;
  rp_covers : r ∉ optionals P -> forall d, linked r d ->
    exists g, cg !! d = Some g /\ g <> UNDEFINED /\ matches t vg d g
}.
End matches.
