(* ===== verification/QueryTree.v ===== *)
(** tree_compare of src/opencog/query/PatternMatchEngine.cc: when it reports no
    mismatch the grounding has been extended to a match, whatever the callback
    does in between; and it stops. *)
From S2P Require Import Prelude ClassServer TruthValue Atom TLB HandleEntry AtomTable SpaceInv Triples Query QuerySpec.

(** ** The laws of a callback *)
Section laws.
Context {C : Type} `{PatternMatchCallback C} (P : Pattern).
Context (accepts_node accepts_var accepts_link : TLB -> Handle -> Handle -> Prop).

Definition cb_tlb (c : C) : TLB := tlb (cb_table c).

(** An invariant [I] of the callback's state that every operation keeps, and
    that implies that the atoms of [t0] are still there. A callback may fail;
    [I] then holds of what it leaves behind. *)
Definition calls (I : C -> Prop) {A} (m : ST C A) (c : C) (Q : A -> TLB -> Prop) : Prop :=
  wp I m (fun a c' => I c' /\ grows (cb_tlb c) (cb_tlb c') /\ Q a (cb_tlb c')) c.

Record callback_laws (t0 : TLB) (r0 : Handle) (I : C -> Prop) : Prop := {
  cl_graph : forall c, I c -> graph_ok (cb_tlb c) /\ grows t0 (cb_tlb c);
  cl_node : forall c hp hg p g, I c -> getAtom (cb_tlb c) hp = Some p -> getAtom (cb_tlb c) hg = Some g ->
    calls I (node_match p g) c (fun b t => b = false -> accepts_node t hp hg);
  cl_var : forall c hp hg p g, I c -> getAtom (cb_tlb c) hp = Some p -> getAtom (cb_tlb c) hg = Some g ->
    calls I (variable_match p g) c (fun b t => b = false -> accepts_var t hp hg);
  cl_link : forall c hp hg p g, I c -> getAtom (cb_tlb c) hp = Some p -> getAtom (cb_tlb c) hg = Some g ->
    calls I (link_match p g) c (fun b t => b = false -> accepts_link t hp hg);
  cl_clause : forall c p g, I c -> calls I (clause_match p g) c (fun _ _ => True);
  cl_optional : forall c p g, I c -> calls I (optional_clause_match p g) c (fun _ _ => True);
  (** An optional clause that is absent is accepted. *)
  cl_absent : forall c p, I c -> calls I (optional_clause_match p None) c (fun b _ => b = false);
  cl_push : forall c, I c -> calls I push c (fun _ _ => True);
  cl_pop : forall c, I c -> calls I pop c (fun _ _ => True);
  (** What is reported is a solution. *)
  cl_solution : forall c cg vg, I c ->
    reported P accepts_node accepts_var accepts_link (cb_tlb c) r0 cg vg ->
    calls I (solution cg vg) c (fun _ _ => True)
}.
End laws.

Section tree.
Context {C : Type} `{PatternMatchCallback C} (P : Pattern).
Context (accepts_node accepts_var accepts_link : TLB -> Handle -> Handle -> Prop).
Context `{!Stable accepts_node, !Stable accepts_var, !Stable accepts_link}.
Context (t0 : TLB) (r0 : Handle) (I : C -> Prop).
Context (laws : callback_laws P accepts_node accepts_var accepts_link t0 r0 I).
Implicit Types e : Engine C.

Abbreviation Match := (matches P accepts_node accepts_link).
Abbreviation VarsOk := (vars_ok P accepts_var).

Definition bad e : Prop := I (pmc e).

(** The atoms of the pattern are among those of [t0]; how far one can go down. *)
Definition D : gset Handle := dom (handle_map t0).
Lemma elem_of_D h : h ∈ D <-> is_Some (getAtom t0 h).
Proof. apply elem_of_dom. Qed.

Definition older (h : Handle) : nat := size (filter (fun k => (k < h)%N) D).

Lemma older_lt h x : x ∈ D -> (x < h)%N -> older x < older h.
Proof.
  intros Hx Hlt. unfold older. apply subset_size. split.
  - intros k [Hk Hd]%elem_of_filter. apply elem_of_filter. split; [lia|done].
  - intros Hsub. specialize (Hsub x). rewrite !elem_of_filter in Hsub.
    destruct (Hsub (conj Hlt Hx)) as [Hxx _]. lia.
Qed.

Lemma older_fuel t h : grows t0 t -> h ∈ D -> S (older h) < down_fuel t.
Proof.
  intros Hg Hh. unfold down_fuel. apply -> Nat.succ_lt_mono.
  assert (Hs : filter (fun k => (k < h)%N) D ⊂ D).
  { split; [by intros k [_ ?]%elem_of_filter|]. intros Hsub.
    specialize (Hsub h Hh). apply elem_of_filter in Hsub as [Hlt _]. lia. }
  apply subset_size in Hs. unfold older. eapply Nat.lt_le_trans; [exact Hs|].
  unfold D. rewrite size_dom. apply map_subseteq_size, Hg.
Qed.

(** The pattern side of a comparison. *)
Lemma D_live t h : graph_ok t -> grows t0 t -> h ∈ D -> is_Some (getAtom t h).
Proof.
  unfold D. intros Hok Hg [p Hp]%elem_of_dom. exists p. by apply (lookup_weaken _ _ _ _ Hp), Hg.
Qed.

(** Only the grounding of the variables and the state of the callback differ. *)
Record only_vars e e' : Prop := {
  ov_inv : I (pmc e');
  ov_grows : grows (the_tlb e) (the_tlb e');
  ov_rest : e' = set_pmc (pmc e') (set_var_grounding (var_grounding e') e)
}.

Lemma only_vars_refl e : I (pmc e) -> only_vars e e.
Proof. intros HI. split; [done|done|]. by destruct e. Qed.

Lemma only_vars_trans e1 e2 e3 : only_vars e1 e2 -> only_vars e2 e3 -> only_vars e1 e3.
Proof.
  intros [I1 G1 R1] [I2 G2 R2]. split; [done|by etrans|]. rewrite R2, R1 at 1. by destruct e3.
Qed.

Lemma only_vars_ground e G : I (pmc e) -> only_vars e (set_var_grounding G e).
Proof. intros HI. split; [done|done|]. by destruct e. Qed.

Lemma only_vars_cb e c : I c -> grows (the_tlb e) (cb_tlb c) -> only_vars e (set_pmc c e).
Proof. intros HI Hg. split; [done|done|]. by destruct e. Qed.

Lemma wp_on_cb {A} (m : ST C A) R (Q : A -> Engine C -> Prop) e :
  calls I m (pmc e) R ->
  (forall b c, I c -> grows (the_tlb e) (cb_tlb c) -> R b (cb_tlb c) -> Q b (set_pmc c e)) ->
  wp bad (on_cb m) Q e.
Proof.
  unfold calls, wp, on_cb. intros Hm HQ. destruct (m (pmc e)) as [[b|ex| |] c]; try done.
  destruct Hm as (HI & Hg & HR). by apply HQ.
Qed.

(** What a comparison without mismatch has found out. *)
Record compared e e' (x y : Handle) : Prop := {
  cd_vars : VarsOk (the_tlb e') (var_grounding e');
  cd_extends : extends P (var_grounding e) (var_grounding e');
  cd_match : Match (the_tlb e') (var_grounding e') x y
}.

Lemma graph e : I (pmc e) -> graph_ok (the_tlb e) /\ grows t0 (the_tlb e).
Proof. apply (cl_graph _ _ _ _ _ _ _ laws). Qed.

(** An entry that is not for a bound variable does not matter. *)
Lemma extends_other G x y : x ∉ bound_vars P -> extends P G (<[x := y]> G).
Proof. intros Hx v g Hv Hg _. rewrite lookup_insert_ne; [done|]. by intros ->. Qed.

Lemma vars_ok_other t G x y : x ∉ bound_vars P -> VarsOk t G -> VarsOk t (<[x := y]> G).
Proof.
  intros Hx HG v g Hv Hg. rewrite lookup_insert_ne in Hg by (by intros ->). by apply HG.
Qed.

Lemma vars_ok_undefined t G x : VarsOk t G -> VarsOk t (<[x := UNDEFINED]> G).
Proof.
  intros HG v g Hv Hg Hu. destruct (decide (v = x)) as [->|Hne].
  - rewrite lookup_insert_eq in Hg. congruence.
  - rewrite lookup_insert_ne in Hg by done. by apply HG.
Qed.

Lemma extends_undefined G x : default UNDEFINED (G !! x) = UNDEFINED -> extends P G (<[x := UNDEFINED]> G).
Proof.
  intros Hx v g Hv Hg Hu. destruct (decide (v = x)) as [->|Hne].
  - rewrite Hg in Hx. simpl in Hx. congruence.
  - by rewrite lookup_insert_ne.
Qed.

(** [var_grounding[h]]. *)
Lemma wp_var_at h (Q : Handle -> Engine C -> Prop) e :
  I (pmc e) -> VarsOk (the_tlb e) (var_grounding e) ->
  (forall g G, G = var_grounding e /\ G !! h = Some g \/
     G = <[h := UNDEFINED]> (var_grounding e) /\ g = UNDEFINED /\ var_grounding e !! h = None ->
     VarsOk (the_tlb e) G -> extends P (var_grounding e) G -> Q g (set_var_grounding G e)) ->
  wp bad (var_at h) Q e.
Proof.
  intros HI HG HQ. unfold var_at. do 2 wp_step. destruct (var_grounding e !! h) as [g|] eqn:Eg.
  - wp_step. pose proof (HQ g (var_grounding e)) as HQ'. destruct e. apply HQ'; [by left|done|reflexivity].
  - do 3 wp_step. apply HQ; [auto|by apply vars_ok_undefined|]. apply extends_undefined. by rewrite Eg.
Qed.

Lemma compare_variable_ok x y e :
  I (pmc e) -> pattern e = P -> x ∈ D -> x ∈ bound_vars P -> is_Some (atomOf (the_tlb e) y) ->
  VarsOk (the_tlb e) (var_grounding e) ->
  wp bad (compare_variable (getAtom (the_tlb e) x) (getAtom (the_tlb e) y) x y)
    (fun b e' => only_vars e e' /\ (b = false -> compared e e' x y)) e.
Proof.
  intros HI HP Hx Hb [b Hy] HG. destruct (graph e HI) as [Hgr Hg0]. unfold compare_variable. do 2 wp_step.
  rewrite HP. case_bool_decide as Hyb; [wp_step; split; [by apply only_vars_refl|done]|].
  wp_step. apply wp_var_at; [done..|]. intros g G HgG HGok Hext.
  set (e1 := set_var_grounding G e). assert (Ho : only_vars e e1) by by apply only_vars_ground.
  do 2 wp_step. change (the_tlb e1) with (the_tlb e).
  destruct (isValidHandle (the_tlb e) g) eqn:Ev.
  - wp_step. split; [done|]. intros ->%negb_false_iff%N.eqb_eq.
    assert (Hne : y <> UNDEFINED) by (intros ->; by rewrite UNDEFINED_dead in Hy).
    destruct HgG as [[-> HGx]|(_ & -> & _)]; [|done]. split; [done|done|]. by apply m_var.
  - assert (Hundef : g = UNDEFINED).
    { destruct HgG as [[-> HGx]|(_ & -> & _)]; [|done]. destruct (decide (g = UNDEFINED)); [done|].
      destruct (HG x g Hb HGx) as (_ & _ & a' & b' & _ & _ & Hb' & _); [done|].
      assert (isValidHandle (the_tlb e) g = true) by (apply isValidHandle_atomOf; [apply Hgr|eauto]). congruence. }
    do 2 wp_step. eapply cast_ptr_ok; [exact HI| |].
    2: { intros Hn. destruct (D_live _ _ Hgr Hg0 Hx). congruence. }
    intros a Ha. do 2 wp_step. change (the_tlb e1) with (the_tlb e).
    eapply cast_ptr_ok; [exact HI| |].
    2: { intros Hn. destruct (proj2 (live_ptr _ y Hgr) (mk_is_Some _ _ Hy)). congruence. }
    intros b' Hb'. rewrite Hy in Hb'. injection Hb' as <-.
    apply atomOf_Some in Ha as Hpa. destruct Hpa as (p & Hp & Hpa).
    apply atomOf_Some in Hy as Hqb. destruct Hqb as (q & Hq & Hqb).
    unfold getAtom. rewrite Hp, Hq.
    destruct (isNodeObj a) eqn:Na; [|wp_step; done]. destruct (isNodeObj b) eqn:Nb; [|wp_step; done].
    wp_step. eapply wp_on_cb; [apply (cl_var _ _ _ _ _ _ _ laws _ x y); done|].
    intros mis c Hc Hgc Hacc. destruct mis.
    + wp_step. split; [|done]. eapply only_vars_trans; [exact Ho|by apply only_vars_cb].
    + unfold ground. do 3 wp_step. split.
      * eapply only_vars_trans; [exact Ho|]. eapply only_vars_trans; [by apply only_vars_cb|by apply only_vars_ground].
      * intros _. subst g. specialize (Hacc eq_refl). change (the_tlb e1) with (the_tlb e) in Hgc.
        destruct (grows_node _ _ x a Hgc Ha) as (a' & Ha' & _ & _ & Na' & _).
        destruct (grows_node _ _ y b Hgc Hy) as (b' & Hb' & _ & _ & Nb' & _).
        assert (Hfree : default UNDEFINED (var_grounding e !! x) = UNDEFINED)
          by (destruct HgG as [[-> ->]|(_ & _ & ->)]; done).
        split; simpl.
        -- intros v g Hv. destruct (decide (v = x)) as [->|Hne].
           ++ rewrite lookup_insert_eq. intros [= <-] _. split; [done|]. split; [done|].
              exists a', b'. split_and!; [exact Ha'|congruence|exact Hb'|congruence].
           ++ rewrite lookup_insert_ne by done. intros Hvg Hu.
              by apply (vars_ok_grow P accepts_var _ _ _ Hgc HGok).
        -- intros v g Hv Hvg Hu. destruct (decide (v = x)) as [->|Hne].
           ++ rewrite Hvg in Hfree. simpl in Hfree. congruence.
           ++ rewrite lookup_insert_ne by done. by apply Hext.
        -- apply m_var; [done|by apply lookup_insert_eq|].
           intros ->. rewrite UNDEFINED_dead in Hy; done.
Qed.

(** *** Links and nodes *)
Section links.
Context (cb : option positive -> option positive -> ST (Engine C) bool) (L : list Handle).
Hypothesis Hcb : forall x y e, x ∈ L -> I (pmc e) -> pattern e = P -> VarsOk (the_tlb e) (var_grounding e) ->
  wp bad (cb (getAtom (the_tlb e) x) (getAtom (the_tlb e) y))
    (fun b e' => only_vars e e' /\ (b = false -> compared e e' x y)) e.
Hypothesis Hnull_l : forall q Q e, I (pmc e) -> wp bad (cb None q) Q e.
Hypothesis Hnull_r : forall x Q e, x ∈ L -> I (pmc e) -> wp bad (cb (getAtom (the_tlb e) x) None) Q e.

Lemma only_vars_pattern e e' : only_vars e e' -> pattern e' = pattern e.
Proof. intros [_ _ ->]. done. Qed.

Lemma pair_loop_ok va : forall vb e,
  (forall x, x ∈ va -> x ∈ L) -> I (pmc e) -> pattern e = P -> VarsOk (the_tlb e) (var_grounding e) ->
  wp bad (pair_loop cb va vb) (fun b e' => only_vars e e' /\ (b = false ->
    VarsOk (the_tlb e') (var_grounding e') /\ extends P (var_grounding e) (var_grounding e') /\
    all_match P accepts_node accepts_link (the_tlb e') (var_grounding e') va vb)) e.
Proof.
  induction va as [|x va IH]; intros vb e HL HI HP HG; cbn [pair_loop].
  - destruct vb as [|y vb]; cbn [any].
    + wp_step. split; [by apply only_vars_refl|]. intros _. split; [done|]. split; [reflexivity|constructor].
    + wp_step. unfold compare_handle. do 2 wp_step. by apply Hnull_l.
  - assert (Hx : x ∈ L) by (apply HL; left).
    destruct vb as [|y vb]; cbn [any]; [wp_step; unfold compare_handle; do 2 wp_step; by apply Hnull_r|].
    do 5 wp_step. eapply wp_mono; [by apply Hcb|].
    intros b e1 [Ho Hc]. destruct b; [wp_step; split; [done|by intros]|].
    destruct (Hc eq_refl) as [Hv He Hm].
    eapply wp_mono; [apply IH; [by intros z Hz; apply HL; right|apply Ho| |done]|].
    { by rewrite (only_vars_pattern _ _ Ho). }
    intros b e2 [Ho2 Hc2]. split; [by eapply only_vars_trans|]. intros Hb.
    destruct (Hc2 Hb) as (Hv2 & He2 & Hm2). split; [done|]. split; [by etrans|].
    constructor; [|done]. apply (matches_grow P accepts_node accepts_link (the_tlb e1) _ (var_grounding e1)); [apply Ho2|done|done].
Qed.

Lemma compare_links_ok x y a b p g e :
  L = outgoing a -> I (pmc e) -> pattern e = P -> x ∉ bound_vars P ->
  atomOf (the_tlb e) x = Some a -> isLinkObj a = true -> getAtom (the_tlb e) x = Some p ->
  atomOf (the_tlb e) y = Some b -> isLinkObj b = true -> getAtom (the_tlb e) y = Some g ->
  VarsOk (the_tlb e) (var_grounding e) ->
  wp bad (compare_links cb p g x y)
    (fun b e' => only_vars e e' /\ (b = false -> compared e e' x y)) e.
Proof.
  intros HLa HI HP Hb Ha La Hp Hy Lb Hq HG. unfold compare_links. wp_step.
  eapply wp_on_cb; [apply (cl_link _ _ _ _ _ _ _ laws _ x y); done|].
  intros mis c Hc Hgc Hacc. pose proof (only_vars_cb e c Hc Hgc) as Ho.
  destruct mis; [by wp_step|]. specialize (Hacc eq_refl).
  destruct (grows_node _ _ x a Hgc Ha) as (a' & Ha' & _ & Oa & _ & La').
  destruct (grows_node _ _ y b Hgc Hy) as (b' & Hb' & _ & Ob & _ & Lb').
  unfold push_var, foreach_outgoing_atom_pair. do 2 wp_step.
  set (e1 := set_var_solutn_stack (var_grounding e :: var_solutn_stack e) (set_pmc c e)).
  change (set_var_solutn_stack _ _) with e1. destruct (graph e1 Hc) as [Hgr1 _].
  do 3 wp_step. change (the_tlb e1) with (cb_tlb c). apply link_targets_ok; [done|..].
  2: { intros Hn. destruct (proj2 (live_ptr _ x Hgr1) (mk_is_Some _ _ Ha')). change (the_tlb e1) with (cb_tlb c) in *. congruence. }
  intros a'' Ha''. rewrite Ha' in Ha''. injection Ha'' as <-. rewrite La', La, Oa. do 2 wp_step. 
  change (the_tlb e1) with (cb_tlb c). apply link_targets_ok; [done|..].
  2: { intros Hn. destruct (proj2 (live_ptr _ y Hgr1) (mk_is_Some _ _ Hb')). change (the_tlb e1) with (cb_tlb c) in *. congruence. }
  intros b'' Hb''. rewrite Hb' in Hb''. injection Hb'' as <-. rewrite Lb', Lb, Ob, <- HLa.
  eapply wp_mono; [apply pair_loop_ok; [done|done|done|]|].
  { by apply (vars_ok_grow P accepts_var _ _ _ Hgc). }
  intros mis e2 [Ho2 Hm2]. pose proof (ov_rest _ _ Ho2) as Er.
  destruct mis; unfold poptop_var, pop_var, ground; do 2 wp_step; rewrite Er; cbn [var_solutn_stack set_pmc set_var_grounding set_var_solutn_stack e1 tail_of mbind res_bind outcome].
  - wp_step. split; [|done]. split; [apply Ho2|etrans; [exact Hgc|apply Ho2]|]. by destruct e.
  - do 2 wp_step. cbn [outcome tail_of mbind res_bind var_solutn_stack set_pmc set_var_grounding set_var_solutn_stack e1].
    wp_step. split; [split; [apply Ho2|etrans; [exact Hgc|apply Ho2]|by destruct e]|]. intros _.
    destruct (Hm2 eq_refl) as (Hv2 & He2 & Hall). pose proof (extends_other (var_grounding e2) x y Hb) as Hx.
    pose proof (ov_grows _ _ Ho2) as Hg2.
    destruct (grows_node _ _ x a' Hg2 Ha') as (a2 & Ha2 & _ & Oa2 & _ & La2).
    destruct (grows_node _ _ y b' Hg2 Hb') as (b2 & Hb2 & _ & Ob2 & _ & Lb2).
    split; [by apply vars_ok_other|etrans; [exact He2|exact Hx]|].
    eapply m_links; [done|exact Ha2|exact Hb2|congruence|congruence|by apply (stable _ _ _ _ Hg2)|].
    rewrite Oa2, Oa, <- HLa, Ob2, Ob.
    by apply (matches_grow P accepts_node accepts_link (the_tlb e2) (the_tlb e2) (var_grounding e2)).
Qed.
End links.

Lemma compare_nodes_ok x y a b p g e :
  I (pmc e) -> pattern e = P -> x ∉ bound_vars P ->
  atomOf (the_tlb e) x = Some a -> isNodeObj a = true -> getAtom (the_tlb e) x = Some p ->
  atomOf (the_tlb e) y = Some b -> isNodeObj b = true -> getAtom (the_tlb e) y = Some g ->
  VarsOk (the_tlb e) (var_grounding e) ->
  wp bad (compare_nodes p g x y)
    (fun b e' => only_vars e e' /\ (b = false -> compared e e' x y)) e.
Proof.
  intros HI HP Hb Ha Na Hp Hy Nb Hq HG. unfold compare_nodes. wp_step.
  eapply wp_on_cb; [apply (cl_node _ _ _ _ _ _ _ laws _ x y); done|].
  intros mis c Hc Hgc Hacc. pose proof (only_vars_cb e c Hc Hgc) as Ho.
  destruct mis; [by do 3 wp_step|]. specialize (Hacc eq_refl). unfold ground. do 3 wp_step.
  split; [eapply only_vars_trans; [exact Ho|by apply only_vars_ground]|]. intros _.
  destruct (grows_node _ _ x a Hgc Ha) as (a' & Ha' & _ & _ & Na' & _).
  destruct (grows_node _ _ y b Hgc Hy) as (b' & Hb' & _ & _ & Nb' & _).
  split; [by apply vars_ok_other, (vars_ok_grow P accepts_var _ _ _ Hgc)|by apply extends_other|].
  eapply m_nodes; [done|exact Ha'|exact Hb'|congruence|congruence|done].
Qed.

(** ** tree_compare *)
Lemma null_left fuel q Q e : 0 < fuel -> I (pmc e) -> wp bad (tree_compare fuel None q) Q e.
Proof. intros Hf HI. destruct fuel; [lia|]. cbn [tree_compare]. by do 2 wp_step. Qed.

Lemma null_right fuel x Q e :
  0 < fuel -> I (pmc e) -> wp bad (tree_compare fuel (getAtom (the_tlb e) x) None) Q e.
Proof.
  intros Hf HI. destruct fuel; [lia|]. cbn [tree_compare]. do 2 wp_step.
  apply handle_of_ok; [done|by apply graph|]. intros a Ha. by do 2 wp_step.
Qed.

Lemma D_down t x a z : graph_ok t -> grows t0 t -> graph_ok t0 -> x ∈ D -> atomOf t x = Some a ->
  z ∈ outgoing a -> z ∈ D /\ (z < x)%N.
Proof.
  intros Hgr Hg0 Hgr0 Hx Ha Hz. destruct (gr_down _ Hgr x a z Ha Hz) as [_ Hlt]. split; [|done].
  apply elem_of_D, (live_ptr t0 x Hgr0) in Hx as [a0 Ha0].
  destruct (grows_node _ _ x a0 Hg0 Ha0) as (a1 & Ha1 & _ & Oa & _). rewrite Ha in Ha1. injection Ha1 as <-.
  rewrite Oa in Hz. destruct (gr_down _ Hgr0 x a0 z Ha0 Hz) as [Hl _].
  by apply elem_of_D, (live_ptr t0 z Hgr0).
Qed.

Hypothesis Hgr0 : graph_ok t0.

Lemma tree_compare_ok fuel : forall x y e,
  I (pmc e) -> pattern e = P -> x ∈ D -> VarsOk (the_tlb e) (var_grounding e) -> S (older x) < fuel ->
  wp bad (tree_compare fuel (getAtom (the_tlb e) x) (getAtom (the_tlb e) y))
    (fun b e' => only_vars e e' /\ (b = false -> compared e e' x y)) e.
Proof.
  induction fuel as [|fuel IH]; intros x y e HI HP Hx HG Hf; [lia|]. cbn [tree_compare].
  destruct (graph e HI) as [Hgr Hg0].
  do 2 wp_step. apply handle_of_ok; [done..|]. intros a Ha.
  do 2 wp_step. apply handle_of_ok; [done..|]. intros b Hy.
  do 2 wp_step. rewrite HP. case_bool_decide as Hb; [by apply compare_variable_ok|].
  do 2 wp_step. destruct ((x =? y)%N && negb (y =? curr_pred_handle e)%N) eqn:Esame.
  { apply andb_true_iff in Esame as [<-%N.eqb_eq _]. unfold ground. do 3 wp_step.
    split; [by apply only_vars_ground|]. intros _. split; [by apply vars_ok_other|by apply extends_other|].
    apply m_same; eauto. }
  apply atomOf_Some in Ha as Hpa. destruct Hpa as (p & Hp & Hpa).
  apply atomOf_Some in Hy as Hqb. destruct Hqb as (q & Hq & Hqb).
  do 2 wp_step. apply cast_ptr_ok; [done|..|by unfold getAtom; rewrite Hp].
  intros a' Ha'. rewrite Ha in Ha'. injection Ha' as <-.
  do 2 wp_step. apply cast_ptr_ok; [done|..|by unfold getAtom; rewrite Hq].
  intros b' Hb'. rewrite Hy in Hb'. injection Hb' as <-. unfold getAtom. rewrite Hp, Hq.
  destruct (isLinkObj a) eqn:La, (isLinkObj b) eqn:Lb.
  { eapply compare_links_ok; [..|done]; try done.
    - intros z w e' Hz HI' HP' HG'. destruct (D_down _ x a z Hgr Hg0 Hgr0 Hx Ha Hz) as [HzD Hlt].
      apply IH; [done|done|done|done|]. pose proof (older_lt x z HzD Hlt). lia.
    - intros. apply null_left; [lia|done].
    - intros. apply null_right; [lia|done]. }
  all: do 2 wp_step; unfold as_node_ptr, cast_ptr, on_heap; rewrite Hpa; cbn [of_opt mbind res_bind outcome].
  all: do 2 wp_step; rewrite Hqb; cbn [of_opt mbind res_bind outcome]; unfold isNodeObj; rewrite La, Lb; cbn [negb].
  1-2: wp_step; split; [by apply only_vars_refl|done].
  eapply compare_nodes_ok; try done; unfold isNodeObj; [by rewrite La|by rewrite Lb].
Qed.
End tree.
