(* ===== verification/QueryNext.v ===== *)
(** get_next_untried_clause of src/opencog/query/PatternMatchEngine.cc: what it
    finds is a clause that is not issued yet and shares an atom with one that
    is solved; when it finds none, all required clauses that are linked to the
    solved ones are solved. *)
From S2P Require Import Prelude ClassServer TruthValue Atom TLB HandleEntry AtomTable SpaceInv Triples Query QuerySpec.

(** [true] stops the loop. *)
Lemma wp_any {S} (bad Done Inv : S -> Prop) (f : Handle -> ST S bool) l : forall s,
  Inv s -> (forall h s, h ∈ l -> Inv s -> wp bad (f h) (fun b s' => if b : bool then Done s' else Inv s') s) ->
  wp bad (any f l) (fun b s' => if b : bool then Done s' else Inv s') s.
Proof.
  induction l as [|h l IH]; intros s Hs Hf; cbn [any]; [done|].
  wp_step. eapply wp_mono; [apply Hf; [left|done]|]. intros b s' Hb. destruct b; [done|].
  apply IH; [done|]. intros x s1 Hx. apply Hf. by right.
Qed.

(** ** The searches as functions *)
Section scan.
Context {C : Type} `{PatternMatchCallback C}.
Implicit Types e : Engine C.

Definition grounding_of e (c : Handle) : Handle := default UNDEFINED (clause_grounding e !! c).
Definition is_solved (required : bool) e (root : Handle) : bool :=
  isValidHandle (the_tlb e) (grounding_of e root) &&
  (required || negb (grounding_of e root =? invalid_grounding (pattern e))%N).
Definition is_open (required : bool) e (root : Handle) : bool :=
  bool_decide (root ∉ issued e) && (negb required || bool_decide (root ∉ optionals (pattern e))).
Definition scan_root (required : bool) e (s : Scan) (root : Handle) : Scan :=
  if is_solved required e root then mkScan true (unsolved s) (unsolved_clause s) (pursue s)
  else if is_open required e root then mkScan (solved s) true root (pursue s)
  else s.
Fixpoint scan_all (required : bool) e (l : list (Handle * list Handle)) (s : Scan) : Scan :=
  match l with
  | [] => s
  | (k, rl) :: l' =>
      let s' := foldl (scan_root required e) (mkScan false false (unsolved_clause s) k) rl in
      if solved s' && unsolved s' then s' else scan_all required e l' s'
  end.

(** The same groundings, but for entries that a lookup made. *)
Definition same_real (cg cg' : Grounding) : Prop := forall c, default UNDEFINED (cg !! c) = default UNDEFINED (cg' !! c).
Definition only_clauses e e' : Prop :=
  e' = set_clause_grounding (clause_grounding e') e /\ same_real (clause_grounding e) (clause_grounding e').

Lemma only_clauses_refl e : only_clauses e e.
Proof. split; [by destruct e|done]. Qed.

Lemma only_clauses_trans e1 e2 e3 : only_clauses e1 e2 -> only_clauses e2 e3 -> only_clauses e1 e3.
Proof.
  intros [E1 S1] [E2 S2]. split; [rewrite E2; rewrite E1 at 1; done|]. intros c. by rewrite S1.
Qed.

Lemma scan_same required e e' s root : only_clauses e e' -> scan_root required e' s root = scan_root required e s root.
Proof.
  intros [E Hs]. unfold scan_root, is_solved, is_open, grounding_of. rewrite <- Hs. rewrite E. done.
Qed.

Lemma scan_all_same required e e' l : only_clauses e e' -> forall s, scan_all required e' l s = scan_all required e l s.
Proof.
  intros He. induction l as [|[k rl] l IH]; intros s; cbn [scan_all]; [done|].
  assert (Hf : forall s, foldl (scan_root required e') s rl = foldl (scan_root required e) s rl).
  { induction rl as [|r rl IHr]; intros s'; simpl; [done|]. by rewrite (scan_same _ e). }
  rewrite Hf. by case_match.
Qed.

Lemma clause_at_ok bad h (Q : Handle -> Engine C -> Prop) e :
  (forall e', only_clauses e e' -> Q (grounding_of e h) e') -> wp bad (clause_at h) Q e.
Proof.
  intros HQ. unfold clause_at, grounding_of in *. do 2 wp_step.
  destruct (clause_grounding e !! h) as [g|] eqn:Eg; [wp_step; apply HQ, only_clauses_refl|].
  do 3 wp_step. apply HQ. split; [by destruct e|]. intros c. simpl.
  destruct (decide (c = h)) as [->|Hne]; [by rewrite lookup_insert_eq, Eg|by rewrite lookup_insert_ne].
Qed.

Lemma scan_roots_ok bad required rl : forall s e,
  wp bad (scan_roots required rl s)
    (fun s' e' => only_clauses e e' /\ s' = foldl (scan_root required e) s rl) e.
Proof.
  induction rl as [|r rl IH]; intros s e; cbn [scan_roots foldl].
  - wp_step. split; [apply only_clauses_refl|done].
  - wp_step. apply clause_at_ok. intros e1 H1. do 2 wp_step. eapply wp_mono; [apply IH|].
    intros s' e2 [H2 ->]. split; [by eapply only_clauses_trans|].
    transitivity (foldl (scan_root required e1) (scan_root required e s r) rl).
    + f_equal. rewrite <- (scan_same required e e1) by done. unfold scan_root, is_solved, is_open.
      assert (Hg : grounding_of e r = grounding_of e1 r) by apply H1.
      by rewrite Hg.
    + generalize (scan_root required e s r). clear -H1. induction rl as [|x rl IH]; intros s; simpl; [done|].
      by rewrite (scan_same required e e1).
Qed.

Lemma scan_entries_ok bad required l : forall s e,
  wp bad (scan_entries required l s) (fun s' e' => only_clauses e e' /\ s' = scan_all required e l s) e.
Proof.
  induction l as [|[k rl] l IH]; intros s e; cbn [scan_entries scan_all].
  - wp_step. split; [apply only_clauses_refl|done].
  - wp_step. eapply wp_mono; [apply scan_roots_ok|]. intros s' e1 [H1 ->]. cbv zeta.
    destruct (_ && _) eqn:E; [by wp_step|]. eapply wp_mono; [apply IH|].
    intros s' e2 [H2 ->]. split; [by eapply only_clauses_trans|]. by apply scan_all_same.
Qed.

(** *** What a scan has found *)
Lemma foldl_pursue required e rl : forall s, pursue (foldl (scan_root required e) s rl) = pursue s.
Proof. induction rl as [|r rl IH]; intros s; simpl; [done|]. rewrite IH. unfold scan_root. by repeat case_match. Qed.

Lemma foldl_solved required e rl : forall s,
  solved (foldl (scan_root required e) s rl) = solved s || existsb (is_solved required e) rl.
Proof.
  induction rl as [|r rl IH]; intros s; simpl; [by rewrite orb_false_r|]. rewrite IH. unfold scan_root.
  destruct (is_solved required e r); simpl; [by rewrite orb_true_r|]. by case_match.
Qed.

Lemma foldl_unsolved required e rl : forall s,
  unsolved (foldl (scan_root required e) s rl) =
  unsolved s || existsb (fun c => negb (is_solved required e c) && is_open required e c) rl.
Proof.
  induction rl as [|r rl IH]; intros s; simpl; [by rewrite orb_false_r|]. rewrite IH. unfold scan_root.
  destruct (is_solved required e r), (is_open required e r); simpl; by rewrite ?orb_true_r.
Qed.

Definition takes (required : bool) e (rl : list Handle) (u : Handle) : Prop :=
  u ∈ rl /\ is_solved required e u = false /\ is_open required e u = true.

Lemma foldl_clause required e rl : forall s, let s' := foldl (scan_root required e) s rl in
  unsolved s' = true -> unsolved s = true \/ takes required e rl (unsolved_clause s').
Proof.
  enough (Hgen : forall s,
    let s' := foldl (scan_root required e) s rl in
    unsolved_clause s' = unsolved_clause s /\ unsolved s' = unsolved s \/
     takes required e rl (unsolved_clause s')).
  { intros s s' Hu. destruct (Hgen s) as [[_ E]|?]; [left; by rewrite <- E|by right]. }
  unfold takes. induction rl as [|r rl IH]; intros s; cbn [foldl]; [by left|].
  rewrite elem_of_cons.
  assert (Hr : scan_root required e s r = s \/ scan_root required e s r = mkScan true (unsolved s) (unsolved_clause s) (pursue s) \/
     scan_root required e s r = mkScan (solved s) true r (pursue s) /\
       is_solved required e r = false /\ is_open required e r = true).
  { unfold scan_root. destruct (is_solved required e r), (is_open required e r); auto. }
  destruct Hr as [Hr|[Hr|[Hr Ho]]]; rewrite Hr.
  - destruct (IH s) as [?|(? & ? & ?)]; auto.
  - destruct (IH (mkScan true (unsolved s) (unsolved_clause s) (pursue s))) as [?|(? & ? & ?)]; auto.
  - destruct (IH (mkScan (solved s) true r (pursue s))) as [[-> _]|(? & ? & ?)]; [|auto].
    right. split; [by left|exact Ho].
Qed.

(** An entry with a solved clause, and an open one to issue. *)
Lemma scan_found required e l : forall s,
  let s' := scan_all required e l s in
  solved s' && unsolved s' = true -> solved s && unsolved s = false ->
  exists rl c, (pursue s', rl) ∈ l /\ takes required e rl (unsolved_clause s') /\
    c ∈ rl /\ is_solved required e c = true.
Proof.
  induction l as [|[k rl] l IH]; intros s; cbn [scan_all]; [congruence|].
  pose proof (foldl_pursue required e rl (mkScan false false (unsolved_clause s) k)) as H1.
  pose proof (foldl_solved required e rl (mkScan false false (unsolved_clause s) k)) as H2.
  pose proof (foldl_clause required e rl (mkScan false false (unsolved_clause s) k)) as H3. cbv zeta in *.
  destruct (solved (foldl _ _ _) && unsolved (foldl _ _ _)) eqn:E.
  - intros _ _. apply andb_true_iff in E as [Es E]. destruct (H3 E) as [?|Ht]; [done|].
    rewrite H2 in Es. apply existsb_exists in Es as (c & Hc & Hs). apply list_elem_of_In in Hc.
    exists rl, c. rewrite H1. split; [left|done].
  - intros Hs _. destruct (IH _ Hs E) as (rl' & c & Hin & Ht). exists rl', c. split; [by right|done].
Qed.

Lemma scan_nothing required e l : forall s,
  let s' := scan_all required e l s in
  solved s' && unsolved s' = false -> forall k rl c d, (k, rl) ∈ l -> c ∈ rl -> d ∈ rl ->
  is_solved required e c = true -> is_solved required e d = false -> is_open required e d = false.
Proof.
  induction l as [|[k rl] l IH]; intros s; cbn [scan_all]; [by intros _ k rl c d ?%not_elem_of_nil|].
  pose proof (foldl_solved required e rl (mkScan false false (unsolved_clause s) k)) as H1.
  pose proof (foldl_unsolved required e rl (mkScan false false (unsolved_clause s) k)) as H2. cbv zeta in *.
  destruct (solved (foldl _ _ _) && unsolved (foldl _ _ _)) eqn:E; [congruence|].
  intros Hs k' rl' c d [[= -> ->]|Hin]%elem_of_cons Hc Hd Hcs Hds; [|by apply (IH _ Hs k' rl' c d)].
  apply not_true_is_false. intros Ho. rewrite H1, H2 in E. simpl in E.
  apply andb_false_iff in E as [E%not_true_iff_false|E%not_true_iff_false]; apply E, existsb_exists.
  - exists c. by rewrite <- list_elem_of_In.
  - exists d. rewrite <- list_elem_of_In, Hds, Ho. done.
Qed.

Lemma root_entries_spec (P : Pattern) k rl : (k, rl) ∈ root_entries P <-> root_map P !! k = Some rl.
Proof.
  unfold root_entries. rewrite list_elem_of_fmap. setoid_rewrite merge_sort_Permutation. split.
  - intros (k' & [= -> ->] & Hk). apply list_elem_of_fmap in Hk as ([k2 rl2] & -> & Hk2).
    apply elem_of_map_to_list in Hk2. simpl. by rewrite Hk2.
  - intros Hk. exists k. split; [by rewrite Hk|]. apply list_elem_of_fmap. exists (k, rl).
    split; [done|]. by apply elem_of_map_to_list.
Qed.
(** ** get_next_untried_clause *)
Definition issue (u k : Handle) e : Engine C :=
  set_issued ({[u]} ∪ issued e) (set_curr_pred_handle k (set_curr_root u e)).
Definition stop_search e : Engine C := set_curr_pred_handle UNDEFINED (set_curr_root UNDEFINED e).
(** Every clause that shares an atom with a solved one is solved, or is not to
    be searched for. *)
Definition exhausted (required : bool) e : Prop := forall k rl c d,
  root_map (pattern e) !! k = Some rl -> c ∈ rl -> d ∈ rl ->
  is_solved required e c = true -> is_solved required e d = false -> is_open required e d = false.

Lemma exhausted_same required e e' : only_clauses e e' -> exhausted required e' -> exhausted required e.
Proof.
  intros [E Hs] Hex k rl c d Hk Hc Hd. specialize (Hex k rl c d). rewrite E in Hex.
  unfold is_solved, is_open, grounding_of in *. simpl in Hex. rewrite <- !Hs in Hex. by apply Hex.
Qed.

(** A clause that is neither solved nor issued is issued: it shares the atom [k]
    with a solved clause. *)
Definition found_clause (required : bool) e e' : Prop :=
  exists e1 u k rl c, only_clauses e e1 /\ e' = issue u k e1 /\
    root_map (pattern e) !! k = Some rl /\ takes required e rl u /\
    c ∈ rl /\ is_solved required e c = true.

Definition no_undefined (P : Pattern) : Prop := forall k rl, root_map P !! k = Some rl -> UNDEFINED ∉ rl.

Lemma search_clause_ok bad required s e :
  no_undefined (pattern e) ->
  wp bad (search_clause required s) (fun r e' =>
    if r.1 then found_clause required e e' else only_clauses e e' /\ exhausted required e) e.
Proof.
  intros HU. unfold search_clause. do 3 wp_step. eapply wp_mono; [apply scan_entries_ok|].
  intros s' e1 [H1 Hs']. cbv beta iota. destruct (solved s' && unsolved s') eqn:E.
  - destruct (scan_found required e (root_entries (pattern e)) _ ltac:(rewrite <- Hs'; exact E) eq_refl)
      as (rl & c & Hin & Hu & Hc). rewrite <- Hs' in *. apply root_entries_spec in Hin.
    do 4 wp_step. destruct (unsolved_clause s' =? UNDEFINED)%N eqn:Eu; cbn [negb].
    { apply N.eqb_eq in Eu. destruct Hu as [Hu _]. rewrite Eu in Hu. by apply (HU _ _ Hin) in Hu. }
    do 3 wp_step. exists e1, (unsolved_clause s'), (pursue s'), rl, c. done.
  - wp_step. split; [done|]. intros k rl c d Hk. apply root_entries_spec in Hk. rewrite Hs' in E.
    by apply (scan_nothing required e _ _ E k rl).
Qed.

Lemma found_same required e e1 e' : only_clauses e e1 -> found_clause required e1 e' -> found_clause required e e'.
Proof.
  intros [E1 S1] (e2 & u & k & rl & c & H2 & -> & Hk & (Hu & Hus & Huo) & Hc & Hcs).
  exists e2, u, k, rl, c. split; [by eapply only_clauses_trans|]. split; [done|].
  unfold takes, is_solved, is_open, grounding_of in *. rewrite E1 in Hk, Hus, Huo, Hcs. simpl in *.
  by rewrite !S1.
Qed.

Lemma get_next_ok bad e :
  no_undefined (pattern e) ->
  wp bad get_next_untried_clause (fun _ e' =>
    (exists required, found_clause required e e' /\ (required = false -> exhausted true e)) \/
    exists e1, only_clauses e e1 /\ e' = stop_search e1 /\ exhausted true e /\ exhausted false e) e.
Proof.
  intros HU. unfold get_next_untried_clause. wp_step. eapply wp_mono; [by apply search_clause_ok|].
  intros [[] s1] e1 H1; simpl in H1 |- *; [wp_step; by left; exists true|].
  destruct H1 as [H1 Hx1]. wp_step. eapply wp_mono; [apply search_clause_ok|].
  { destruct H1 as [-> _]. done. }
  intros [[] s2] e2 H2; simpl in H2 |- *.
  - wp_step. left. exists false. split; [|done]. by apply (found_same _ e e1).
  - destruct H2 as [H2 Hx2]. do 3 wp_step. right. exists e2. split; [by eapply only_clauses_trans|].
    split; [done|]. split; [done|]. by eapply exhausted_same.
Qed.
End scan.
