(* ===== verification/QueryUp.v ===== *)
(** soln_up, do_soln_up and pred_up of src/opencog/query/PatternMatchEngine.cc:
    the search stops, keeps the six stacks balanced, and every solution that it
    reports is one. *)
From S2P Require Import Prelude ClassServer TruthValue Atom TLB HandleEntry AtomTable SpaceInv Triples Query QuerySpec QueryTree QueryNext.

Lemma size_list_to_set_le (l : list Handle) : size (list_to_set l : gset Handle) <= length l.
Proof.
  induction l as [|x l IH]; [by rewrite list_to_set_nil, size_empty|]. rewrite list_to_set_cons.
  cbn [length]. rewrite size_union_alt, size_singleton. assert (size ((list_to_set l : gset Handle) ∖ {[x]}) <= size (list_to_set l : gset Handle)) by (apply subseteq_size; set_solver).
  lia.
Qed.

(** The invariant says nothing about the other members. *)
Ltac same_inside H := destruct H as [[] ? ? ? ? ?]; split; [split|..]; done.

Section up.
Context {C : Type} `{PatternMatchCallback C} (P : Pattern).
Context (accepts_node accepts_var accepts_link : TLB -> Handle -> Handle -> Prop).
Context `{!Stable accepts_node, !Stable accepts_var, !Stable accepts_link}.
Context (t0 : TLB) (r0 : Handle) (I : C -> Prop).
Context (laws : callback_laws P accepts_node accepts_var accepts_link t0 r0 I).
Hypothesis Hgr0 : graph_ok t0.
Implicit Types e : Engine C.

Abbreviation Bad := (@bad C I).
Abbreviation PatD := (D t0).
Abbreviation Sound := (sound P accepts_node accepts_var accepts_link).
Abbreviation Reported := (reported P accepts_node accepts_var accepts_link).
Abbreviation Matches := (matches P accepts_node accepts_link).

(** What [match] has prepared. *)
Record pattern_ok : Prop := {
  po_map : forall k rl c, root_map P !! k = Some rl -> c ∈ rl -> k ∈ PatD /\ c ∈ cnf_clauses P;
  po_cnf : forall c, c ∈ cnf_clauses P -> c ∈ PatD;
  po_optionals : UNDEFINED ∉ optionals P
}.
Hypothesis HP : pattern_ok.

Definition grounded (cg : Grounding) (c : Handle) : Prop := exists g, cg !! c = Some g /\ g <> UNDEFINED.
Definition clauses_below e : Grounding := top (pred_solutn_stack e).
Definition vars_below e : Grounding := top (var_solutn_stack e).

(** ** The invariant of the search *)
Record common e : Prop := {
  co_inv : I (pmc e);
  co_pattern : pattern e = P;
  co_sound : Sound (the_tlb e) (clause_grounding e) (var_grounding e);
  co_below : Sound (the_tlb e) (clause_grounding e) (vars_below e);
  co_part : part_of (clauses_below e) (clause_grounding e);
  co_issued : forall c, grounded (clause_grounding e) c -> c ∈ issued e;
  co_start : r0 ∈ issued e
}.

(** Between two clauses: every required clause that was issued is solved. *)
Record between e : Prop := {
  be_common : common e;
  be_solved : forall c, c ∈ issued e -> c ∉ optionals P -> grounded (clauses_below e) c
}.

(** In a clause: but for this one. *)
Record inside e : Prop := {
  in_common : common e;
  in_root : curr_root e ∈ cnf_clauses P;
  in_pred : curr_pred_handle e ∈ PatD;
  in_issued : curr_root e ∈ issued e;
  in_solved : forall c, c ∈ issued e -> c ∉ optionals P -> c = curr_root e \/ grounded (clauses_below e) c;
  in_free : ~ grounded (clauses_below e) (curr_root e)
}.

(** What an operation leaves alone, whether it has found something or not. *)
Record stacks_same e e' : Prop := {
  sk_pred : pred_handle_stack e' = pred_handle_stack e;
  sk_soln : soln_handle_stack e' = soln_handle_stack e;
  sk_root : root_handle_stack e' = root_handle_stack e;
  sk_clauses : pred_solutn_stack e' = pred_solutn_stack e;
  sk_vars : var_solutn_stack e' = var_solutn_stack e;
  sk_issued : issued_stack e' = issued_stack e
}.
Record moved e e' : Prop := {
  mv_inv : I (pmc e');
  mv_grows : grows (the_tlb e) (the_tlb e');
  mv_pattern : pattern e' = pattern e;
  mv_stacks : stacks_same e e'
}.
Record frame e e' : Prop := {
  fr_moved : moved e e';
  fr_root : curr_root e' = curr_root e;
  fr_pred : curr_pred_handle e' = curr_pred_handle e;
  fr_issued : issued e' = issued e
}.

(** What is left after a search in vain; the variables are restored last. *)
Record wasted e e' : Prop := {
  ws_below : Sound (the_tlb e') (clause_grounding e') (vars_below e);
  ws_part : part_of (clauses_below e) (clause_grounding e');
  ws_less : part_of (clause_grounding e') (clause_grounding e)
}.
Record in_vain e e' : Prop := {
  iv_sound : Sound (the_tlb e') (clause_grounding e') (var_grounding e');
  iv_wasted : wasted e e'
}.

#[local] Instance stacks_same_preorder : PreOrder stacks_same.
Proof. split; [done|]. intros e1 e2 e3 [] []. split; congruence. Qed.

Lemma moved_refl e : I (pmc e) -> moved e e.
Proof. done. Qed.
Lemma moved_trans e1 e2 e3 : moved e1 e2 -> moved e2 e3 -> moved e1 e3.
Proof. intros [] []. split; [done|by etrans|congruence|by etrans]. Qed.
Lemma frame_refl e : I (pmc e) -> frame e e.
Proof. done. Qed.
Lemma frame_trans e1 e2 e3 : frame e1 e2 -> frame e2 e3 -> frame e1 e3.
Proof. intros [] []. split; [by eapply moved_trans|congruence..]. Qed.

Lemma part_of_refl cg : part_of cg cg.
Proof. by intros c g. Qed.
Lemma part_of_trans c1 c2 c3 : part_of c1 c2 -> part_of c2 c3 -> part_of c1 c3.
Proof. intros H1 H2 c g Hc Hu. apply H2; [by apply H1|done]. Qed.
Lemma part_of_grounded c1 c2 c : part_of c1 c2 -> grounded c1 c -> grounded c2 c.
Proof. intros Hp (g & Hg & Hu). exists g. split; [by apply Hp|done]. Qed.

Lemma wasted_refl e : common e -> wasted e e.
Proof. intros []. split; [done..|apply part_of_refl]. Qed.
Lemma in_vain_refl e : common e -> in_vain e e.
Proof. intros Hc. split; [apply Hc|by apply wasted_refl]. Qed.

Lemma wasted_trans e1 e2 e3 : moved e1 e2 -> wasted e1 e2 -> wasted e2 e3 -> wasted e1 e3.
Proof.
  intros [_ _ _ Hs] [] [B2 P2 L2].
  unfold clauses_below, vars_below in *. rewrite (sk_clauses _ _ Hs) in P2. rewrite (sk_vars _ _ Hs) in B2.
  split; [done..|]. by eapply part_of_trans.
Qed.
Lemma in_vain_trans e1 e2 e3 : moved e1 e2 -> wasted e1 e2 -> in_vain e2 e3 -> in_vain e1 e3.
Proof. intros Hm H1 [S2 H2]. split; [done|]. by eapply wasted_trans. Qed.

Lemma common_after e e' : common e -> moved e e' -> issued e' = issued e -> in_vain e e' -> common e'.
Proof.
  intros [] [HI Hg Hp Hs] Hi [? []]. unfold clauses_below, vars_below in *.
  split; [done|congruence|done|unfold vars_below; by rewrite (sk_vars _ _ Hs)|..|by rewrite Hi].
  - unfold clauses_below. by rewrite (sk_clauses _ _ Hs).
  - intros c Hc. rewrite Hi. eapply co_issued0, part_of_grounded; eauto.
Qed.

Lemma inside_after e e' : inside e -> frame e e' -> in_vain e e' -> inside e'.
Proof.
  intros [] [Hm Hr Hp Hi] Hv. destruct (mv_stacks _ _ Hm) as [_ _ _ Hs _ _].
  split; [by eapply common_after|congruence|congruence|congruence|..];
    unfold clauses_below in *; rewrite Hs, ?Hr, ?Hi; done.
Qed.

(** ** The measure *)
Definition above e : nat := size (filter (fun k => (curr_pred_handle e < k)%N) PatD).
Definition unissued e : nat := size (filter (fun c => c ∉ issued e) (list_to_set (cnf_clauses P) : gset Handle)).
Definition meas e : nat := above e + unissued e * S (S (size PatD)).

Lemma above_size e : above e <= size PatD.
Proof. unfold above. apply subseteq_size. by intros k [_ ?]%elem_of_filter. Qed.

Lemma above_climb e e' : curr_pred_handle e' ∈ PatD -> (curr_pred_handle e < curr_pred_handle e')%N -> above e' < above e.
Proof.
  intros Hd Hlt. unfold above. apply subset_size. split.
  - intros k [Hk Hkd]%elem_of_filter. apply elem_of_filter. split; [lia|done].
  - intros Hs. specialize (Hs (curr_pred_handle e')). rewrite !elem_of_filter in Hs. destruct Hs as [? _]; [done|lia].
Qed.

Lemma unissued_less e e' u :
  u ∈ cnf_clauses P -> u ∉ issued e -> issued e' = {[u]} ∪ issued e -> unissued e' < unissued e.
Proof.
  intros Hu Hn Hi. unfold unissued. apply subset_size. rewrite Hi. split.
  - intros k [Hk Hkd]%elem_of_filter. apply elem_of_filter. set_solver.
  - intros Hs. specialize (Hs u). rewrite !elem_of_filter in Hs. set_solver.
Qed.

Lemma meas_next e e' : unissued e' < unissued e -> S (meas e') < meas e.
Proof. intros Hu. unfold meas. pose proof (above_size e'). nia. Qed.
Lemma meas_frame e e' : frame e e' -> unissued e' = unissued e /\ meas e' = meas e.
Proof. intros [_ _ Hp Hi]. unfold meas, above, unissued. by rewrite Hp, Hi. Qed.

(** ** Reading the pattern *)
Lemma UNDEFINED_not_D : UNDEFINED ∉ PatD.
Proof.
  intros Hu%elem_of_D. apply (live_ptr _ _ Hgr0) in Hu. rewrite UNDEFINED_dead in Hu by done.
  by destruct Hu.
Qed.

Lemma any_read_ok (f : Handle -> res bool) (Q : Prop) l e :
  (forall h, h ∈ l -> outcome Bad (f h) (fun b => b = true -> Q) e) ->
  outcome Bad (any_read f l) (fun b => b = true -> Q) e.
Proof.
  induction l as [|h l IH]; intros Hf; cbn [any_read]; [done|].
  apply outcome_bind. eapply outcome_mono; [apply Hf; left|]. intros [] Hb; cbv beta iota; [exact Hb|].
  apply IH. intros x Hx. apply Hf. by right.
Qed.

Lemma in_tree_ok fuel tgt : forall tree e,
  I (pmc e) -> tree ∈ PatD -> S (older t0 tree) < fuel ->
  outcome Bad (in_tree fuel (the_tlb e) tgt tree) (fun b => b = true -> tgt ∈ PatD) e.
Proof.
  induction fuel as [|fuel IH]; intros tree e HI Hd Hf; [lia|]. cbn [in_tree].
  destruct (graph _ _ _ _ _ _ _ laws e HI) as [Hgr Hg0].
  destruct (isInvalidHandle _ _); [done|]. destruct (tree =? tgt)%N eqn:E; [apply N.eqb_eq in E as ->; by intros _|].
  apply outcome_bind, link_targets_ok; [done|..|by intros _ ?]. intros a Ha. destruct (isLinkObj a); [|by intros ?].
  apply any_read_ok. intros z Hz. destruct (D_down t0 _ tree a z Hgr Hg0 Hgr0 Hd Ha Hz) as [HzD Hlt].
  apply IH; [done|done|]. pose proof (older_lt t0 tree z HzD Hlt). lia.
Qed.

Lemma unissued_le e : unissued e <= length (cnf_clauses P).
Proof.
  unfold unissued. etrans; [apply subseteq_size; intros k [_ Hk]%elem_of_filter; exact Hk|].
  etrans; [apply size_list_to_set_le|done].
Qed.
(** ** Between two clauses *)
Lemma no_undefined_P : no_undefined P.
Proof. intros k rl Hk Hu. apply UNDEFINED_not_D, (po_cnf HP). by apply (po_map HP k rl _ Hk). Qed.

Lemma same_real_part cg cg' : same_real cg cg' -> part_of cg cg'.
Proof.
  intros Hs c g Hc Hu. specialize (Hs c). rewrite Hc in Hs. simpl in Hs.
  destruct (cg' !! c); simpl in Hs; congruence.
Qed.
Lemma same_real_sym cg cg' : same_real cg cg' -> same_real cg' cg.
Proof. by intros Hs c. Qed.

Lemma common_same e e' : only_clauses e e' -> common e -> common e'.
Proof.
  intros [E Hs] []. apply same_real_part in Hs as Hp. apply same_real_sym, same_real_part in Hs as Hq.
  unfold clauses_below, vars_below in *. revert Hp Hq. rewrite E; simpl. intros Hp Hq.
  split; try done; simpl.
  - by eapply sound_part.
  - by eapply sound_part.
  - by eapply part_of_trans.
  - intros c Hc. eapply co_issued0, part_of_grounded; eauto.
Qed.

Lemma same_moved e e' : only_clauses e e' -> I (pmc e) -> moved e e'.
Proof. intros [-> _] HI. done. Qed.

Lemma solved_grounded required e c :
  I (pmc e) -> is_solved required e c = true -> grounded (clause_grounding e) c.
Proof.
  intros HI [Hv _]%andb_true_iff. unfold grounding_of in Hv. destruct (clause_grounding e !! c) as [g|] eqn:Eg.
  - exists g. split; [done|]. intros ->. simpl in Hv. apply isValidHandle_atomOf in Hv as [? Hv].
    + rewrite UNDEFINED_dead in Hv; [done|]. by apply (graph _ _ _ _ _ _ _ laws e).
    + by apply (graph _ _ _ _ _ _ _ laws e).
  - simpl in Hv. done.
Qed.

Lemma grounded_matches t cg vg c :
  Sound t cg vg -> c ∉ optionals P -> grounded cg c ->
  exists g, cg !! c = Some g /\ g <> UNDEFINED /\ Matches t vg c g.
Proof. intros [_ Hs] Hc (g & Hg & Hu). exists g. destruct (Hs c g Hg Hu) as [?|[? _]]; done. Qed.

Lemma grounded_solved e c : common e -> c ∉ optionals P -> grounded (clause_grounding e) c -> is_solved true e c = true.
Proof.
  intros He Hc Hg. destruct (grounded_matches _ _ _ c (co_sound _ He) Hc Hg) as (g & Eg & _ & Hm).
  unfold is_solved, grounding_of. rewrite Eg. simpl. rewrite andb_true_r.
  apply isValidHandle_atomOf; [apply (graph _ _ _ _ _ _ _ laws e), He|].
  eapply matches_live; [apply He|done].
Qed.

(** When nothing is left to search for, the start's required clauses are solved. *)
Lemma exhausted_reported e :
  between e -> exhausted true e -> Reported (the_tlb e) r0 (clause_grounding e) (var_grounding e).
Proof.
  intros [He Hb] Hex. split; [apply He|]. intros Hr0 d Hd.
  enough ((d ∉ optionals P) /\ grounded (clause_grounding e) d) as [Hd1 Hd2] by (apply grounded_matches; [apply He|done..]).
  assert (Hbelow : forall c, c ∈ issued e -> c ∉ optionals P -> grounded (clause_grounding e) c).
  { intros c Hc Ho. eapply part_of_grounded; [apply He|by apply Hb]. }
  revert d Hd.
  apply (rtc_ind_r (fun d => (d ∉ optionals P) /\ grounded (clause_grounding e) d)); [split; [done|apply Hbelow; [apply (co_start _ He)|done]]|].
  intros c d _ [(k & rl & Hk & Hc & Hdl) Ho] [Hco Hcg].
  split; [done|]. destruct (is_solved true e d) eqn:Es; [apply (solved_grounded true); [apply He|done]|].
  apply Hbelow; [|done]. rewrite <- (co_pattern _ He) in Hk.
  pose proof (Hex k rl c d Hk Hc Hdl (grounded_solved e c He Hco Hcg) Es) as Hn.
  unfold is_open in Hn. simpl in Hn. rewrite (co_pattern _ He), (bool_decide_true (d ∉ optionals P)), andb_true_r in Hn by done.
  apply bool_decide_eq_false in Hn. destruct (decide (d ∈ issued e)); done.
Qed.

Lemma exhausted_same' required e e' : only_clauses e e' -> exhausted required e -> exhausted required e'.
Proof.
  intros [E Hs]. apply exhausted_same. split; [|by apply same_real_sym]. rewrite E. by destruct e.
Qed.

(** ** get_next_untried_clause *)
Definition next_found e e' : Prop := inside e' /\ unissued e' < unissued e.
Definition next_none e : Prop := curr_root e = UNDEFINED /\ I (pmc e) /\
  Reported (the_tlb e) r0 (clause_grounding e) (var_grounding e).

Lemma between_same e e' : only_clauses e e' -> between e -> between e'.
Proof.
  intros He [Hc Hb]. split; [by eapply common_same|]. destruct He as [-> _]. exact Hb.
Qed.

Lemma issue_inside u k e rl :
  between e -> root_map P !! k = Some rl -> u ∈ rl -> u ∉ issued e -> inside (issue u k e).
Proof.
  intros [[] Hb] Hk Hu Hn. destruct (po_map HP k rl u Hk Hu) as [HkD Hcnf].
  split; unfold clauses_below, vars_below in *; simpl; [split|..]; simpl; try done.
  - intros c Hc. apply elem_of_union_r. by apply co_issued0.
  - by apply elem_of_union_r.
  - by apply elem_of_union_l, elem_of_singleton.
  - intros c [->%elem_of_singleton|Hc]%elem_of_union Ho; [by left|right]. by apply Hb.
  - intros Hg. apply Hn, co_issued0. by eapply part_of_grounded.
Qed.

Lemma issue_moved u k e e' : only_clauses e e' -> I (pmc e) -> moved e (issue u k e').
Proof. intros [-> _] HI. done. Qed.
Lemma stop_moved e e' : only_clauses e e' -> I (pmc e) -> moved e (stop_search e').
Proof. intros [-> _] HI. done. Qed.

Lemma get_next_between e :
  between e -> wp Bad get_next_untried_clause
    (fun _ e' => moved e e' /\ (next_found e e' \/ next_none e')) e.
Proof.
  intros Hb. pose proof (be_common _ Hb) as Hc. pose proof (co_pattern _ Hc) as Hpat.
  eapply wp_mono; [apply get_next_ok; rewrite Hpat; apply no_undefined_P|].
  intros _ e' [(required & (e1 & u & k & rl & c & Hs & -> & Hk & (Hu & _ & Ho) & _) & _)|(e1 & Hs & -> & Hx & _)].
  - rewrite Hpat in Hk. apply andb_true_iff in Ho as [Hn%bool_decide_eq_true _].
    assert (Hi : issued e1 = issued e) by (destruct Hs as [-> _]; done).
    split; [by apply issue_moved, co_inv|]. left. split.
    + eapply issue_inside; [by eapply between_same|done|done|by rewrite Hi].
    + apply (unissued_less _ _ u); [by apply (po_map HP k rl u)|done|by rewrite <- Hi].
  - split; [by apply stop_moved, co_inv|]. right.
    assert (He1 : I (pmc e1)) by (destruct Hs as [-> _]; apply Hc).
    split; [done|]. split; [done|]. apply (exhausted_reported e1); [by eapply between_same|by eapply exhausted_same'].
Qed.
(** ** The stacks *)
Definition pushed e : Engine C :=
  mkEngine (pmc e) (atom_space e) (pattern e) (curr_root e) (clause_accepted e) (curr_soln_handle e)
    (curr_pred_handle e) (curr_pred_handle e :: pred_handle_stack e) (curr_soln_handle e :: soln_handle_stack e)
    (curr_root e :: root_handle_stack e) (clause_grounding e :: pred_solutn_stack e)
    (var_grounding e :: var_solutn_stack e) (issued e) (issued e :: issued_stack e) (var_grounding e)
    (clause_grounding e).

Lemma push_all_ok e (Q : unit -> Engine C -> Prop) :
  I (pmc e) ->
  (forall c, I c -> grows (the_tlb e) (cb_tlb c) -> Q tt (set_pmc c (pushed e))) ->
  wp Bad push_all_stacks Q e.
Proof.
  intros HI HQ. unfold push_all_stacks, push_var. repeat wp_step. destruct e.
  eapply wp_on_cb; [apply (cl_push _ _ _ _ _ _ _ laws), HI|]. intros [] c Hc Hg _. by apply HQ.
Qed.

Record restored e e1 e2 : Prop := {
  rs_inv : I (pmc e2);
  rs_grows : grows (the_tlb e1) (the_tlb e2);
  rs_pattern : pattern e2 = pattern e1;
  rs_stacks : stacks_same e e2;
  rs_root : curr_root e2 = curr_root e;
  rs_pred : curr_pred_handle e2 = curr_pred_handle e;
  rs_issued : issued e2 = issued e;
  rs_clauses : clause_grounding e2 = clauses_below e;
  rs_vars : var_grounding e2 = vars_below e
}.

Lemma pop_all_ok e e1 :
  I (pmc e1) -> stacks_same (pushed e) e1 -> wp Bad pop_all_stacks (fun _ e2 => restored e e1 e2) e1.
Proof.
  intros HI [S1 S2 S3 S4 S5 S6]. unfold pop_all_stacks. wp_step.
  eapply wp_on_cb; [apply (cl_pop _ _ _ _ _ _ _ laws), HI|]. intros [] c Hc Hg _.
  destruct e, e1; simpl in *. subst.
  unfold pop_root, pop_pred, pop_soln, pop_issued, poptop_var, poptop_pred.
  repeat (wp_step; simpl). split; simpl; auto. split; done.
Qed.

(** ** The next clause *)
Section climb.
Context (sup : Handle -> ST (Engine C) bool) (fuel : nat).
Hypothesis Hsup : forall h e, inside e -> meas e < fuel ->
  wp Bad (sup h) (fun b e' => frame e e' /\ (b = false -> in_vain e e')) e.

Lemma inside_vars e G :
  inside e -> vars_ok P accepts_var (the_tlb e) G -> extends P (var_grounding e) G ->
  inside (set_var_grounding G e).
Proof.
  intros [[] R Pr Is So Fr] HG He. split; try done. split; try done.
  by eapply sound_grow.
Qed.

Lemma next_clause_ok e :
  (inside e /\ meas e < fuel) \/ next_none e ->
  wp Bad (next_clause sup) (fun b e' => moved e e' /\
    (b = false -> frame e e' /\ inside e' \/ curr_root e' = UNDEFINED)) e.
Proof.
  intros He. unfold next_clause. do 2 wp_step. destruct (curr_root e =? UNDEFINED)%N eqn:Eu.
  - apply N.eqb_eq in Eu. assert (Hn : next_none e).
    { destruct He as [[Hi _]|?]; [|done]. destruct UNDEFINED_not_D. rewrite <- Eu. by apply (po_cnf HP), (in_root _ Hi). }
    destruct Hn as (_ & HI & Hr). do 2 wp_step. eapply wp_on_cb; [by apply (cl_solution _ _ _ _ _ _ _ laws)|].
    intros b c Hc Hg _. split; [done|]. by right.
  - apply N.eqb_neq in Eu. destruct He as [[Hi Hm]|[? _]]; [|done]. do 4 wp_step.
    set (e1 := set_clause_accepted false e).
    assert (Hi1 : inside e1) by by same_inside Hi.
    wp_step. eapply wp_var_at; [apply Hi1|apply Hi1|]. intros g G _ HG Hext.
    do 4 wp_step. set (e2 := set_curr_soln_handle g (set_var_grounding G e1)).
    assert (Hi2 : inside e2).
    { pose proof (inside_vars e1 G Hi1 HG Hext) as Hi2. by same_inside Hi2. }
    eapply wp_mono; [by apply Hsup|]. intros b e' [Hf Hv]. split.
    { destruct Hf as [[? ? ? []] _ _ _]. split; [done..|split; done]. }
    intros Hb. left. split; [|by eapply inside_after; [exact Hi2|done|apply Hv]].
    destruct Hf as [[? ? ? []] ? ? ?]. split; [split; [done..|split; done]|done..].
Qed.

Lemma inside_defined e : inside e -> curr_root e <> UNDEFINED.
Proof. intros Hi Hu. apply UNDEFINED_not_D. rewrite <- Hu. by apply (po_cnf HP), (in_root _ Hi). Qed.

Lemma inside_cb e c : inside e -> I c -> grows (the_tlb e) (cb_tlb c) -> inside (set_pmc c e).
Proof.
  intros [[] R Pr Is So Fr] Hc Hg. split; try done. split; try done.
  - by eapply sound_later.
  - by eapply sound_later.
Qed.
Lemma moved_cb e c : I c -> grows (the_tlb e) (cb_tlb c) -> moved e (set_pmc c e).
Proof. done. Qed.

(** An optional clause without a grounding is passed over. *)
Lemma between_optional e :
  inside e -> curr_root e ∈ optionals P ->
  between (set_clause_grounding (<[curr_root e := invalid_grounding (pattern e)]> (clause_grounding e)) e).
Proof.
  intros [[] R Pr Is So Fr] Ho.
  assert (Hins : forall vg, Sound (the_tlb e) (clause_grounding e) vg ->
    Sound (the_tlb e) (<[curr_root e := invalid_grounding (pattern e)]> (clause_grounding e)) vg).
  { intros vg [Hv Hc]. split; [done|]. intros c g. rewrite lookup_insert_Some.
    intros [[<- <-]|[Hne Hc']] Hu; [right; by rewrite co_pattern0|by apply Hc]. }
  unfold clauses_below, vars_below in *. split; [split|]; simpl; try done.
  - by apply Hins.
  - by apply Hins.
  - intros c g Hc Hu. simpl. rewrite lookup_insert_ne; [by apply co_part0|]. intros <-. apply Fr. by exists g.
  - intros c (g & Hg & Hu). apply lookup_insert_Some in Hg as [[<- _]|[_ Hg]]; [done|].
    apply co_issued0. by exists g.
  - intros c Hc Hco. destruct (So c Hc Hco) as [->|?]; done.
Qed.

Lemma optional_loop_ok n : forall found e,
  I (pmc e) -> pattern e = P -> (found = false -> inside e \/ curr_root e = UNDEFINED) ->
  0 < n -> (found = false -> inside e -> S (unissued e) < n /\ meas e < fuel) ->
  wp Bad (optional_loop sup n found) (fun r e' => moved e e' /\ is_Some r) e.
Proof.
  induction n as [|n IH]; intros found e HI Hpat Hin Hn Hm; [lia|]. cbn [optional_loop].
  do 2 wp_step. destruct (negb found && negb (clause_accepted e) && _) eqn:E; [|by wp_step].
  apply andb_true_iff in E as [[Hf%negb_true_iff Ha%negb_true_iff]%andb_true_iff Ho%bool_decide_eq_true].
  rewrite Hpat in Ho. destruct (Hin Hf) as [Hi|Hu]; [|rewrite Hu in Ho; by apply (po_optionals HP) in Ho].
  do 2 wp_step. eapply (outcome_mono _ _ (fun _ => True)); [by apply cast_ptr_ok|]. intros lcl _.
  wp_step. eapply wp_on_cb; [by apply (cl_absent _ _ _ _ _ _ _ laws)|]. intros b c Hc Hg ->.
  pose proof (inside_cb e c Hi Hc Hg) as Hi1. do 3 wp_step.
  set (e1 := set_clause_grounding _ _).
  assert (Hb : between e1) by by apply (between_optional (set_pmc c e)).
  eapply wp_mono; [by apply get_next_between|]. intros _ e2 [Hm2 He2]. wp_step.
  destruct (Hm Hf Hi) as [Hun Hme].
  assert (Hready : inside e2 /\ S (unissued e2) < n /\ meas e2 < fuel \/ next_none e2).
  { destruct He2 as [[Hi2 Hlt]|Hnone]; [left|by right].
    assert (Hlt' : unissued e2 < unissued e) by exact Hlt. pose proof (meas_next e e2 Hlt').
    split; [done|]. split; lia. }
  eapply wp_mono; [apply next_clause_ok; tauto|]. intros b e3 [Hm3 He3].
  assert (Hm13 : moved e e3).
  { apply (moved_trans e e1); [done|by eapply moved_trans]. }
  eapply wp_mono; [apply IH|intros r e' [? ?]; split; [by eapply moved_trans|done]].
  - apply Hm3.
  - rewrite (mv_pattern _ _ Hm13). done.
  - intros Hb3. destruct (He3 Hb3) as [[_ ?]|?]; auto.
  - lia.
  - intros Hb3 Hi3. destruct (He3 Hb3) as [[Hf3 _]|Hu]; [|by destruct (inside_defined e3 Hi3)].
    destruct (meas_frame _ _ Hf3) as [-> ->]. destruct Hready as [(_ & ? & ?)|(Hu & _)]; [done|].
    destruct (inside_defined e3 Hi3). by rewrite (fr_root _ _ Hf3).
Qed.

(** *** The top of a clause *)
Lemma cast_ptr_any ok p e : I (pmc e) -> outcome Bad (cast_ptr ok (the_tlb e) p) (fun _ => True) e.
Proof. intros HI. destruct p as [q|]; [|done]. by apply outcome_bind, on_heap_ok. Qed.

Definition solve (y : Handle) e : Engine C :=
  set_clause_grounding (<[curr_root e := y]> (clause_grounding e)) (set_curr_soln_handle y e).

Lemma between_solved y e :
  inside e -> Matches (the_tlb e) (var_grounding e) (curr_root e) y -> between (pushed (solve y e)).
Proof.
  intros [[] R Pr Is So Fr] Hm.
  assert (Hy : y <> UNDEFINED).
  { intros ->. apply matches_live with (accepts_var := accepts_var) in Hm as [a Ha]; [|apply co_sound0].
    rewrite UNDEFINED_dead in Ha; [done|]. by apply (graph _ _ _ _ _ _ _ laws e). }
  assert (Hs : Sound (the_tlb e) (<[curr_root e := y]> (clause_grounding e)) (var_grounding e)).
  { split; [apply co_sound0|]. intros c g. rewrite lookup_insert_Some.
    intros [[<- <-]|[Hne Hc]] Hu; [by left|]. by apply co_sound0. }
  split; [split|]; unfold clauses_below, vars_below; simpl; try done.
  - apply part_of_refl.
  - intros c (g & Hg & Hu). apply lookup_insert_Some in Hg as [[<- _]|[_ Hg]]; [done|].
    apply co_issued0. by exists g.
  - intros c Hc Hco. change (grounded (<[curr_root e := y]> (clause_grounding e)) c).
    destruct (decide (c = curr_root e)) as [->|Hne].
    + exists y. by rewrite lookup_insert_eq.
    + destruct (So c Hc Hco) as [?|Hg]; [done|]. apply (part_of_grounded _ _ c co_part0) in Hg as (g & Hg & Hu).
      exists g. by rewrite lookup_insert_ne.
Qed.

Lemma between_cb e c : between e -> I c -> grows (the_tlb e) (cb_tlb c) -> between (set_pmc c e).
Proof.
  intros [[] So] Hc Hg. split; [|done]. split; try done.
  - by eapply sound_later.
  - by eapply sound_later.
Qed.

Lemma in_vain_cb e c : common e -> I c -> grows (the_tlb e) (cb_tlb c) -> in_vain e (set_pmc c e).
Proof. intros [] Hc Hg. split; [by eapply sound_later|]. split; [by eapply sound_later|done|apply part_of_refl]. Qed.

Lemma in_vain_restored e y e1 e2 :
  inside e -> grows (the_tlb e) (the_tlb e1) -> restored (solve y e) e1 e2 -> in_vain e e2.
Proof.
  intros [[] _ _ _ _ _] Hg [_ Hg2 _ _ _ _ _ Hc Hv].
  assert (Hs : Sound (the_tlb e2) (clauses_below e) (vars_below e)).
  { apply (sound_later P _ _ _ (the_tlb e)); [by etrans|]. by eapply sound_part. }
  unfold clauses_below, vars_below in *. simpl in *.
  split; [by rewrite Hc, Hv|]. split; unfold clauses_below, vars_below; rewrite Hc; [done|apply part_of_refl|done].
Qed.

(** What follows when the callback has accepted the grounding. *)
Lemma clause_rest_ok y e :
  inside e -> meas e <= fuel -> Matches (the_tlb e) (var_grounding e) (curr_root e) y ->
  wp Bad (_ ← push_all_stacks;
    _ ← get_next_untried_clause;
    root ← asks curr_root;
    found ← next_clause sup;
    r ← (if (root =? UNDEFINED)%N then mret (Some found)
         else n ← asks (fun e => S (S (length (cnf_clauses (pattern e))))); optional_loop sup n found);
    match r with
    | None => mret false
    | Some found => _ ← pop_all_stacks; mret found
    end) (fun b e' => frame e e' /\ (b = false -> in_vain e e')) (solve y e).
Proof.
  intros Hi Hm Hmatch. pose proof (between_solved y e Hi Hmatch) as Hb.
  wp_step. apply push_all_ok; [apply Hi|]. intros c Hc Hg. set (e1 := set_pmc c _).
  assert (Hb1 : between e1) by by apply between_cb.
  wp_step. eapply wp_mono; [by apply get_next_between|]. intros _ e2 [Hm2 He2].
  do 3 wp_step. assert (Hready : inside e2 /\ meas e2 < fuel \/ next_none e2).
  { destruct He2 as [[Hi2 Hlt]|?]; [left; split; [done|]|by right].
    assert (Hlt' : unissued e2 < unissued e) by exact Hlt. pose proof (meas_next e e2 Hlt'). lia. }
  eapply wp_mono; [by apply next_clause_ok|]. intros b e3 [Hm3 He3]. wp_step.
  assert (Hpat3 : pattern e3 = P) by (rewrite (mv_pattern _ _ Hm3), (mv_pattern _ _ Hm2); apply Hi).
  assert (Hend : forall (r : option bool) e4, moved e3 e4 -> is_Some r ->
    wp Bad (match r with None => mret false | Some found => _ ← pop_all_stacks; mret found end)
      (fun b e' => frame e e' /\ (b = false -> in_vain e e')) e4).
  { intros r e4 Hm4 [found ->].
    assert (Hm14 : moved e1 e4) by (eapply moved_trans; [exact Hm2|by eapply moved_trans]).
    wp_step. eapply wp_mono; [apply (pop_all_ok (solve y e)); [apply Hm14|by destruct Hm14 as [_ _ _ []]]|].
    intros [] e5 Hr. wp_step.
    assert (Hg4 : grows (the_tlb e) (the_tlb e4)) by (etrans; [exact Hg|apply Hm14]).
    split; [|intros _; by eapply in_vain_restored]. destruct Hr as [HI5 Hg5 Hp5 Hs5 Hr5 Hpr5 Hi5 _ _].
    split; [split|..]; [done|by etrans| |by destruct Hs5|done..]. rewrite Hp5. apply (mv_pattern _ _ Hm14). }
  destruct (curr_root e2 =? UNDEFINED)%N eqn:Eu.
  { wp_step. apply (Hend (Some b)); [apply moved_refl, Hm3|done]. }
  do 2 wp_step. rewrite Hpat3. eapply wp_mono; [apply optional_loop_ok|intros r e4 [? ?]; by apply Hend].
  - apply Hm3.
  - done.
  - intros Hf. destruct (He3 Hf) as [[_ ?]|?]; auto.
  - lia.
  - intros Hf Hi3. pose proof (unissued_le e3). split; [lia|].
    destruct (He3 Hf) as [[Hf3 _]|Hu]; [|by destruct (inside_defined e3 Hi3)].
    destruct (meas_frame _ _ Hf3) as [_ ->]. destruct Hready as [[_ ?]|(Hu & _)]; [done|].
    by rewrite Hu in Eu.
Qed.

Lemma frame_cb e c : I c -> grows (the_tlb e) (cb_tlb c) -> frame e (set_pmc c e).
Proof. done. Qed.

Lemma clause_done_ok ap y e :
  inside e -> meas e <= fuel -> Matches (the_tlb e) (var_grounding e) (curr_root e) y ->
  wp Bad (clause_done sup ap (getAtom (the_tlb e) y))
    (fun b e' => frame e e' /\ (b = false -> in_vain e e')) e.
Proof.
  intros Hi Hm Hmatch. pose proof (co_inv _ (in_common _ Hi)) as HI. unfold clause_done.
  do 2 wp_step. eapply outcome_mono; [by apply cast_ptr_any|]. intros lp _.
  do 2 wp_step. eapply outcome_mono; [by apply cast_ptr_any|]. intros ls _. do 3 wp_step.
  apply wp_mono with (Q := fun _ e1 => exists a c, e1 = set_pmc c (set_clause_accepted a e) /\ I c /\
    grows (the_tlb e) (cb_tlb c)).
  { case_bool_decide; [do 2 wp_step|]; eapply wp_on_cb;
      [by apply (cl_optional _ _ _ _ _ _ _ laws)| |by apply (cl_clause _ _ _ _ _ _ _ laws)|];
      intros b c Hc Hg _; [exists true, c|exists (clause_accepted e), c]; destruct e; done. }
  intros no_match e1 (a & c & -> & Hc & Hg). set (e1 := set_pmc c _).
  assert (Hi1 : inside e1).
  { apply inside_cb; [by same_inside Hi|done|done]. }
  assert (Hf1 : frame e e1) by done.
  assert (Hv1 : in_vain e e1).
  { destruct (in_vain_cb e c (in_common _ Hi) Hc Hg) as [? []]. split; [done|]. split; done. }
  destruct no_match; [by wp_step|].
  assert (Hmatch1 : Matches (the_tlb e1) (var_grounding e1) (curr_root e1) y).
  { by apply (matches_grow P accepts_node accepts_link (the_tlb e) _ (var_grounding e)). }
  assert (Hlive : is_Some (getAtom (the_tlb e) y)).
  { apply live_ptr; [by apply (graph _ _ _ _ _ _ _ laws e)|]. eapply matches_live; [apply Hi|done]. }
  assert (Hsame : getAtom (the_tlb e) y = getAtom (the_tlb e1) y).
  { destruct Hlive as [p Hp]. rewrite Hp. symmetry. apply (lookup_weaken _ _ _ _ Hp), Hg. }
  do 2 wp_step. rewrite Hsame. apply handle_of_ok; [done|by apply (graph _ _ _ _ _ _ _ laws e1)|].
  intros b _. do 4 wp_step. eapply wp_mono; [by apply (clause_rest_ok y e1)|].
  intros r e2 [Hf2 Hv2]. split; [by eapply frame_trans|]. intros Hr.
  eapply in_vain_trans; [apply Hf1|apply Hv1|by apply Hv2].
Qed.

(** ** Up one level *)
Lemma incoming_ok e h (Q : list Handle -> Prop) :
  I (pmc e) ->
  (forall l, (forall k, k ∈ l -> (h < k)%N) -> Q l) -> outcome Bad (incoming_of e h) Q e.
Proof.
  intros HI HQ. unfold incoming_of. apply outcome_bind, outcome_opt; [done|]. intros a Ha. simpl.
  rewrite HE_toHandleVector_id. apply HQ. intros k Hk. destruct (graph _ _ _ _ _ _ _ laws e HI) as [Hgr _].
  destruct (gr_up _ Hgr h a k Ha Hk) as (b & Hb & Hin). by apply (gr_down _ Hgr k b).
Qed.

Lemma pred_up_ok h e :
  inside e -> meas e <= fuel -> (curr_pred_handle e < h)%N ->
  wp Bad (pred_up sup h) (fun b e' => frame e e' /\ (b = false -> in_vain e e')) e.
Proof.
  intros Hi Hm Hlt. pose proof (co_inv _ (in_common _ Hi)) as HI. unfold pred_up.
  do 2 wp_step. eapply outcome_mono.
  { apply in_tree_ok; [done|by apply (po_cnf HP), (in_root _ Hi)|].
    apply older_fuel; [by apply (graph _ _ _ _ _ _ _ laws e)|by apply (po_cnf HP), (in_root _ Hi)]. }
  intros valid Hv. destruct valid; cbn [negb].
  2: { wp_step. split; [by apply frame_refl|]. intros _. apply in_vain_refl, Hi. }
  specialize (Hv eq_refl). do 4 wp_step. set (e1 := set_curr_pred_handle h e).
  assert (Hi1 : inside e1) by (clear Hm Hlt; same_inside Hi).
  assert (Hm1 : meas e1 < fuel).
  { unfold meas in *. change (unissued e1) with (unissued e). pose proof (above_climb e e1 Hv Hlt). lia. }
  do 2 wp_step. apply incoming_ok; [done|]. intros hs _. wp_step.
  eapply wp_mono.
  { apply (wp_any _ (frame e1) (fun e' => frame e1 e' /\ in_vain e1 e')).
    - split; [by apply frame_refl|apply in_vain_refl, Hi1].
    - intros x e2 _ [Hf2 Hv2]. eapply wp_mono.
      { apply Hsup; [by eapply inside_after|]. by destruct (meas_frame _ _ Hf2) as [_ ->]. }
      intros b e3 [Hf3 Hv3]. destruct b; [by eapply frame_trans|]. split; [by eapply frame_trans|].
      eapply in_vain_trans; [apply Hf2|apply Hv2|by apply Hv3]. }
  intros b e2 Hb. do 3 wp_step.
  assert (Hf : frame e1 e2) by (destruct b; [done|apply Hb]).
  split; [destruct Hf as [[? ? ? []] ? ? ?]; split; [split; [done..|split; done]|done..]|].
  intros ->. destruct Hb as [_ [? []]]. split; [done|split; done].
Qed.

(** *** One comparison *)
Lemma only_vars_frame e e' : only_vars I e e' -> frame e e'.
Proof. intros [HI Hg ->]. done. Qed.

Lemma compared_inside e e' x y :
  inside e -> only_vars I e e' -> compared P accepts_node accepts_var accepts_link e e' x y -> inside e'.
Proof.
  intros [[] R Pr Is So Fr] [HI Hg Hr] [Hv He _]. revert HI Hg Hv He. rewrite Hr. simpl.
  intros HI Hg Hv He. split; try done. split; try done.
  - by eapply sound_grow.
  - by eapply sound_later.
Qed.

Lemma mismatch_wasted e e' : inside e -> only_vars I e e' -> wasted e e'.
Proof.
  intros [[] R Pr Is So Fr] [HI Hg Hr]. revert HI Hg. rewrite Hr. simpl. intros HI Hg.
  split; [by eapply sound_later|done|apply part_of_refl].
Qed.

Lemma pop_soln_ok h l e (Q : unit -> Engine C -> Prop) :
  soln_handle_stack e = h :: l ->
  Q tt (set_soln_handle_stack l (set_curr_soln_handle h e)) -> wp Bad pop_soln Q e.
Proof. intros Hs HQ. unfold pop_soln. wp_step. by rewrite Hs. Qed.

Lemma climb_ok y e :
  inside e -> meas e <= fuel ->
  wp Bad (_ ← modst (fun e => set_soln_handle_stack (curr_soln_handle e :: soln_handle_stack e) e);
          _ ← modst (set_curr_soln_handle y);
          hs ← reads (fun e => incoming_of e (curr_pred_handle e));
          found ← any (pred_up sup) hs;
          _ ← pop_soln;
          mret found)
    (fun b e' => frame e e' /\ (b = false -> in_vain e e')) e.
Proof.
  intros Hi Hm. do 4 wp_step. set (e1 := set_curr_soln_handle y _).
  assert (Hi1 : inside e1) by (clear Hm; same_inside Hi).
  do 2 wp_step. apply incoming_ok; [apply Hi|]. intros hs Hhs. wp_step. eapply wp_mono.
  { apply (wp_any _ (frame e1) (fun e' => frame e1 e' /\ in_vain e1 e')).
    - split; [apply frame_refl, Hi1|apply in_vain_refl, Hi1].
    - intros x e2 Hx [Hf2 Hv2]. eapply wp_mono.
      { apply pred_up_ok; [by eapply inside_after|by destruct (meas_frame _ _ Hf2) as [_ ->]|].
        rewrite (fr_pred _ _ Hf2). by apply Hhs. }
      intros b e3 [Hf3 Hv3]. destruct b; [by eapply frame_trans|]. split; [by eapply frame_trans|].
      eapply in_vain_trans; [apply Hf2|apply Hv2|by apply Hv3]. }
  intros b e2 Hb. assert (Hf : frame e1 e2) by (destruct b; [done|apply Hb]).
  wp_step. eapply pop_soln_ok; [apply Hf|]. wp_step.
  split; [destruct Hf as [[? ? ? []] ? ? ?]; split; [split; [done..|split; done]|done..]|].
  intros ->. destruct Hb as [_ [? []]]. split; [done|split; done].
Qed.

Lemma do_soln_up_ok y e :
  inside e -> meas e <= fuel ->
  wp Bad (do_soln_up sup y) (fun b e' => frame e e' /\ (b = false -> wasted e e')) e.
Proof.
  intros Hi Hm. pose proof (co_inv _ (in_common _ Hi)) as HI. pose proof (in_pred _ Hi) as Hpred.
  destruct (graph _ _ _ _ _ _ _ laws e HI) as [Hgr Hg0]. unfold do_soln_up. do 2 wp_step.
  case_match; [wp_step; split; [by apply frame_refl|intros _; apply wasted_refl, Hi]|].
  cbv zeta. wp_step. destruct (getAtom (the_tlb e) y) as [p|] eqn:Hy.
  2: { eapply null_right; [exact laws|unfold down_fuel; lia|done]. }
  rewrite <- Hy. eapply wp_mono.
  { apply (tree_compare_ok P _ _ _ t0 r0 I laws Hgr0); [done|apply Hi|done|apply Hi|by apply older_fuel]. }
  intros b e1 [Ho Hc]. destruct b.
  { wp_step. split; [by apply only_vars_frame|intros _; by apply mismatch_wasted]. }
  specialize (Hc eq_refl). pose proof (compared_inside _ _ _ _ Hi Ho Hc) as Hi1.
  pose proof (only_vars_frame _ _ Ho) as Hf1. pose proof (mismatch_wasted _ _ Hi Ho) as Hw1.
  assert (Hm1 : meas e1 <= fuel) by by destruct (meas_frame _ _ Hf1) as [_ ->].
  assert (Hy1 : getAtom (the_tlb e) y = getAtom (the_tlb e1) y).
  { rewrite Hy. symmetry. apply (lookup_weaken _ _ _ _ Hy), Ho. }
  assert (Hend : forall (b : bool) e2, frame e1 e2 /\ (b = false -> in_vain e1 e2) ->
    frame e e2 /\ (b = false -> wasted e e2)).
  { intros b e2 [Hf2 Hv2]. split; [by eapply frame_trans|]. intros Hb.
    eapply wasted_trans; [apply Hf1|done|by apply Hv2]. }
  do 2 wp_step. destruct (curr_pred_handle e1 =? curr_root e1)%N eqn:Etop; (eapply wp_mono; [|exact Hend]).
  - apply N.eqb_eq in Etop. rewrite Hy1. apply clause_done_ok; [done|done|].
    rewrite <- Etop, (fr_pred _ _ Hf1). apply Hc.
  - by apply climb_ok.
Qed.
End climb.

(** ** soln_up *)
Lemma pop_var_ok h l e (Q : unit -> Engine C -> Prop) :
  var_solutn_stack e = h :: l -> Q tt (set_var_solutn_stack l e) -> wp Bad pop_var Q e.
Proof. intros Hs HQ. unfold pop_var. wp_step. by rewrite Hs. Qed.
Lemma poptop_var_ok h l e (Q : unit -> Engine C -> Prop) :
  var_solutn_stack e = h :: l -> Q tt (set_var_grounding (top l) (set_var_solutn_stack l e)) ->
  wp Bad poptop_var Q e.
Proof. intros Hs HQ. unfold poptop_var. wp_step. by rewrite Hs. Qed.

Lemma soln_up_ok fuel : forall h e, inside e -> meas e < fuel ->
  wp Bad (soln_up fuel h) (fun b e' => frame e e' /\ (b = false -> in_vain e e')) e.
Proof.
  induction fuel as [|fuel IH]; intros h e Hi Hm; [lia|]. cbn [soln_up]. unfold push_var. do 2 wp_step.
  set (e1 := set_var_solutn_stack _ _).
  assert (Hi1 : inside e1) by (clear Hm; same_inside Hi).
  wp_step. eapply wp_mono; [apply (do_soln_up_ok (soln_up fuel) fuel IH); [done|change (meas e <= fuel); lia]|].
  intros b e2 [Hf Hw]. destruct b; wp_step.
  - eapply pop_var_ok; [apply Hf|]. wp_step. split; [|done].
    destruct Hf as [[? ? ? []] ? ? ?]. split; [split; [done..|split; done]|done..].
  - destruct (Hw eq_refl) as [Hb Hp Hl]. eapply poptop_var_ok; [apply Hf|]. wp_step.
    split; [destruct Hf as [[? ? ? []] ? ? ?]; split; [split; [done..|split; done]|done..]|]. intros _.
    assert (Hs : Sound (the_tlb e2) (clause_grounding e2) (vars_below e)).
    { eapply sound_part; [exact Hl|]. apply (sound_later P _ _ _ (the_tlb e)); [apply Hf|apply Hi]. }
    split; [done|]. split; done.
Qed.

(** ** do_candidate *)
Lemma do_candidate_ok starter h e :
  I (pmc e) -> pattern e = P -> r0 ∈ cnf_clauses P -> starter ∈ PatD ->
  wp Bad (do_candidate r0 starter h) (fun _ e' => moved (clear_search e) e') e.
Proof.
  intros HI Hpat Hr Hs. unfold do_candidate. repeat wp_step.
  set (e1 := set_issued _ _). assert (Hi : inside e1).
  { assert (Hsound : Sound (the_tlb e1) ∅ ∅) by by split.
    assert (Hiss : forall c, c ∈ issued e1 <-> c = r0).
    { intros c. change (issued e1) with ({[r0]} ∪ (∅ : gset Handle)). set_solver. }
    split; [split|..]; try done.
    - by intros c (g & Hg & _).
    - by apply Hiss.
    - by apply Hiss.
    - intros c ->%Hiss. by left.
    - by intros (g & Hg & _). }
  eapply wp_mono; [apply soln_up_ok; [done|]|].
  - unfold meas, search_fuel. change (pattern e1) with (pattern e). rewrite Hpat.
    pose proof (above_size e1). pose proof (unissued_le e1).
    assert (size PatD <= size (handle_map (the_tlb e1))).
    { unfold D. rewrite size_dom. apply map_subseteq_size. by apply (graph _ _ _ _ _ _ _ laws e1). }
    nia.
  - intros b e2 [[[? ? ? []] _ _ _] _]. split; [done..|split; done].
Qed.
End up.
