(* ===== verification/QueryMatch.v ===== *)
(** What the pattern matcher of src/opencog/query prepares before a search:
    the trees of the clauses, the clauses that an atom is part of, the clauses
    without variables, and the node where the search starts. *)
From S2P Require Import Prelude ClassServer TruthValue Atom TLB HandleEntry AtomTable SpaceInv Triples Query QueryCB QuerySpec QueryTree QueryNext QueryUp.

(** ** Trees of atoms *)
Section trees.
Context (t : TLB).
Hypothesis Hgr : graph_ok t.

Definition child (h k : Handle) : Prop :=
  exists a, atomOf t h = Some a /\ isLinkObj a = true /\ k ∈ outgoing a.
Definition below : Handle -> Handle -> Prop := rtc child.
Definition live (h : Handle) : Prop := is_Some (atomOf t h).
Definition depth_ok (fuel : nat) (h : Handle) : Prop := S (older t h) < fuel.

Lemma link_targets_eq h a :
  atomOf t h = Some a -> link_targets t h = Ok (if isLinkObj a then Some (outgoing a) else None).
Proof.
  intros Ha. apply atomOf_Some in Ha as (p & Hp & Hpa). unfold link_targets, as_link_ptr, cast_ptr, getAtom.
  rewrite Hp. unfold on_heap. rewrite Hpa. cbn [of_opt mbind res_bind].
  destruct (isLinkObj a); cbn [mbind res_bind of_opt]; [by rewrite Hpa|done].
Qed.

Lemma live_D h : h ∈ D t <-> live h.
Proof. rewrite elem_of_D. by apply live_ptr. Qed.

Lemma depth_full h : live h -> depth_ok (down_fuel t) h.
Proof. intros Hl. apply older_fuel; [done|by apply live_D]. Qed.

Lemma depth_child fuel h k : live h -> child h k -> depth_ok (S fuel) h -> live k /\ depth_ok fuel k.
Proof.
  intros Hl (a & Ha & _ & Hk) Hf. destruct (gr_down _ Hgr h a k Ha Hk) as [Hlk Hlt]. split; [done|].
  unfold depth_ok in *. pose proof (older_lt t h k (proj2 (live_D k) Hlk) Hlt). lia.
Qed.

Lemma below_live h k : live h -> below h k -> live k.
Proof.
  intros Hl Hb. revert Hl. induction Hb as [|h x k (a & Ha & _ & Hk) _ IH]; [done|].
  intros _. apply IH. by apply (gr_down _ Hgr h a x).
Qed.

Lemma below_step h k : below h k <-> h = k \/ exists x, child h x /\ below x k.
Proof.
  split; [intros Hb; inversion Hb; subst; eauto|]. intros [->|(x & Hx & Hb)]; [apply rtc_refl|by eapply rtc_l].
Qed.

Lemma below_node h a k : atomOf t h = Some a -> isLinkObj a = false -> below h k <-> h = k.
Proof.
  intros Ha La. rewrite below_step. split; [|by left]. intros [?|(x & (b & Hb & Lb & _) & _)]; [done|congruence].
Qed.

Lemma below_link h a k : atomOf t h = Some a -> isLinkObj a = true ->
  below h k <-> h = k \/ exists x, x ∈ outgoing a /\ below x k.
Proof.
  intros Ha La. rewrite below_step. split; (intros [?|(x & Hx & Hb)]; [by left|right; exists x; split; [|done]]).
  - destruct Hx as (b & Hb' & _ & Hx). congruence.
  - by exists a.
Qed.

(** *** Looking for an atom below a handle *)
Lemma any_read_spec (f : Handle -> res bool) (R : Handle -> Prop) l :
  (forall x, x ∈ l -> exists b : bool, f x = Ok b /\ (b = true <-> R x)) ->
  exists b : bool, any_read f l = Ok b /\ (b = true <-> exists x, x ∈ l /\ R x).
Proof.
  induction l as [|x l IH]; intros Hf; cbn [any_read].
  { exists false. split; [done|]. split; [done|]. intros (x & Hx%not_elem_of_nil & _). done. }
  destruct (Hf x) as (b & -> & Hb); [left|]. destruct IH as (b' & -> & Hb'); [intros y Hy; apply Hf; by right|].
  cbn [mbind res_bind]. exists (b || b'). split; [by destruct b|].
  rewrite orb_true_iff, Hb, Hb'. setoid_rewrite elem_of_cons. split.
  - intros [Hx|(y & Hy & HR)]; eauto.
  - intros (y & [->|Hy] & HR); eauto.
Qed.

Lemma in_tree_spec fuel tgt : forall h, live h -> depth_ok fuel h ->
  exists b : bool, in_tree fuel t tgt h = Ok b /\ (b = true <-> below h tgt).
Proof.
  induction fuel as [|fuel IH]; intros h Hl Hf; [unfold depth_ok in Hf; lia|]. cbn [in_tree].
  assert (Hv : isInvalidHandle t h = false).
  { apply negb_true_iff. by apply (isValidHandle_atomOf t h (gr_tlb _ Hgr)). }
  rewrite Hv. destruct (N.eqb_spec h tgt) as [->|Hne].
  { exists true. split; [done|]. split; [intros _; apply rtc_refl|done]. }
  destruct Hl as [a Ha]. rewrite (link_targets_eq h a Ha). cbn [mbind res_bind].
  destruct (isLinkObj a) eqn:La.
  - destruct (any_read_spec (in_tree fuel t tgt) (fun x => below x tgt) (outgoing a)) as (b & Hb & Hiff).
    { intros x Hx. destruct (depth_child fuel h x) as [Hlx Hfx]; [by exists a|by exists a|done|]. by apply IH. }
    exists b. split; [done|]. rewrite Hiff, (below_link h a tgt Ha La). split; [by right|by intros [?|?]].
  - exists false. split; [done|]. rewrite (below_node h a tgt Ha La). split; done.
Qed.

(** *** Clauses without a variable *)
Definition has_var (vars : list Handle) (h : Handle) : Prop :=
  exists k a, below h k /\ atomOf t k = Some a /\ isNodeObj a = true /\ k ∈ vars.

Lemma as_node_ptr_eq h a :
  atomOf t h = Some a -> as_node_ptr t (getAtom t h) = Ok (if isNodeObj a then getAtom t h else None).
Proof.
  intros Ha. apply atomOf_Some in Ha as (p & Hp & Hpa). unfold as_node_ptr, cast_ptr, getAtom. rewrite Hp.
  unfold on_heap. by rewrite Hpa.
Qed.

Lemma validate_clause_spec fuel vars : forall h, live h -> depth_ok fuel h ->
  exists b : bool, validate_clause fuel t vars h = Ok b /\ (b = true <-> has_var vars h).
Proof.
  induction fuel as [|fuel IH]; intros h Hl Hf; [unfold depth_ok in Hf; lia|]. cbn [validate_clause].
  destruct Hl as [a Ha]. rewrite (as_node_ptr_eq h a Ha). cbn [mbind res_bind].
  destruct (proj2 (live_ptr t h Hgr) (mk_is_Some _ _ Ha)) as [p Hp].
  unfold isNodeObj. destruct (isLinkObj a) eqn:La; cbn [negb].
  - rewrite (link_targets_eq h a Ha), La. cbn [mbind res_bind default id].
    destruct (any_read_spec (validate_clause fuel t vars) (has_var vars) (outgoing a)) as (b & Hb & Hiff).
    { intros x Hx. destruct (depth_child fuel h x) as [Hlx Hfx]; [by exists a|by exists a|done|]. by apply IH. }
    exists b. split; [done|]. rewrite Hiff. split.
    + intros (x & Hx & k & c & Hk & Hc). exists k, c. split; [|done]. apply (below_link h a k Ha La). eauto.
    + intros (k & c & Hk & Hc & Nc & Hv). apply (below_link h a k Ha La) in Hk as [<-|(x & Hx & Hk)].
      * rewrite Ha in Hc. injection Hc as <-. unfold isNodeObj in Nc. by rewrite La in Nc.
      * exists x. split; [done|]. by exists k, c.
  - rewrite Hp. eexists. split; [done|]. rewrite bool_decide_eq_true. split.
    + intros Hv. exists h, a. split; [apply rtc_refl|]. unfold isNodeObj. by rewrite La.
    + intros (k & c & Hk & _ & _ & Hv). by apply (below_node h a k Ha La) in Hk as <-.
Qed.

(** *** The clauses that an atom is part of *)
Definition entry (m : gmap Handle (list Handle)) (k c : Handle) : Prop := exists rl, m !! k = Some rl /\ c ∈ rl.

Lemma rfold_entry (f : gmap Handle (list Handle) -> Handle -> res (gmap Handle (list Handle)))
    (R : Handle -> Handle -> Handle -> Prop) l : forall m,
  (forall x m, x ∈ l -> exists m', f m x = Ok m' /\ forall k c, entry m' k c <-> entry m k c \/ R x k c) ->
  exists m', rfold f m l = Ok m' /\ forall k c, entry m' k c <-> entry m k c \/ exists x, x ∈ l /\ R x k c.
Proof.
  induction l as [|x l IH]; intros m Hf; cbn [rfold].
  { exists m. split; [done|]. intros k c. split; [by left|]. by intros [?|(x & ?%not_elem_of_nil & _)]. }
  destruct (Hf x m) as (m1 & -> & H1); [left|]. cbn [mbind res_bind].
  destruct (IH m1) as (m2 & -> & H2); [intros y m' Hy; apply Hf; by right|].
  exists m2. split; [done|]. intros k c. rewrite H2, H1. setoid_rewrite elem_of_cons. split.
  - intros [[?|?]|(y & ? & ?)]; eauto.
  - intros [?|(y & [->|?] & ?)]; eauto.
Qed.

Lemma entry_add m h root k c :
  entry (<[h := default [] (m !! h) ++ [root]]> m) k c <-> entry m k c \/ c = root /\ h = k.
Proof.
  unfold entry. destruct (decide (h = k)) as [<-|Hne].
  - rewrite lookup_insert_eq. split.
    + intros (rl & [= <-] & [Hc| ->%list_elem_of_singleton]%elem_of_app); [left|by right].
      destruct (m !! h) as [rl|]; [eauto|by apply not_elem_of_nil in Hc].
    + intros Hc. eexists. split; [done|]. apply elem_of_app.
      destruct Hc as [(rl & -> & Hc)|[-> _]]; [by left|right; by apply list_elem_of_singleton].
  - rewrite lookup_insert_ne by done. split; [by left|]. intros [?|[_ ?]]; done.
Qed.

Lemma note_root_spec fuel root : forall h m, live h -> depth_ok fuel h ->
  exists m', note_root fuel t root h m = Ok m' /\
    forall k c, entry m' k c <-> entry m k c \/ c = root /\ below h k.
Proof.
  induction fuel as [|fuel IH]; intros h m Hl Hf; [unfold depth_ok in Hf; lia|]. cbn [note_root]. cbv zeta.
  destruct Hl as [a Ha]. rewrite (link_targets_eq h a Ha). cbn [mbind res_bind].
  destruct (isLinkObj a) eqn:La; cbn [default id].
  - destruct (rfold_entry (fun m x => note_root fuel t root x m) (fun x k c => c = root /\ below x k) (outgoing a)
      (<[h := default [] (m !! h) ++ [root]]> m)) as (m' & -> & Hm').
    { intros x m' Hx. destruct (depth_child fuel h x) as [Hlx Hfx]; [by exists a|by exists a|done|]. by apply IH. }
    exists m'. split; [done|]. intros k c. rewrite Hm', entry_add, (below_link h a k Ha La). clear. split.
    + intros [[?|[-> ->]]|(x & ? & -> & ?)]; eauto 6.
    + intros [?|[-> [<-|(x & ? & ?)]]]; eauto 6.
  - eexists. split; [done|]. intros k c. rewrite entry_add, (below_node h a k Ha La). done.
Qed.

Lemma note_roots_spec clauses :
  (forall c, c ∈ clauses -> live c) ->
  exists m, note_roots t clauses = Ok m /\ forall k c, entry m k c <-> c ∈ clauses /\ below c k.
Proof.
  intros Hl. unfold note_roots.
  destruct (rfold_entry (fun m h => note_root (down_fuel t) t h h m) (fun x k c => c = x /\ below x k) clauses ∅)
    as (m & -> & Hm).
  { intros x m Hx. apply note_root_spec; [by apply Hl|by apply depth_full, Hl]. }
  exists m. split; [done|]. intros k c. rewrite Hm. split.
  - intros [(rl & Hrl & _)|(x & Hx & -> & Hb)]; [by rewrite lookup_empty in Hrl|done].
  - intros [Hc Hb]. right. by exists c.
Qed.

(** *** The node to start at *)
Section starter.
Context `{SetOrder} (cs : ClassServer).

Definition constant_node (h : Handle) : Prop :=
  exists a, atomOf t h = Some a /\ isLinkObj a = false /\ a_type a <> VARIABLE_NODE cs.
(** Below one of the handles [l]. *)
Definition started (l : list Handle) (sp : Handle) (r : Handle * Handle) : Prop :=
  (r.1 = UNDEFINED -> forall x k, x ∈ l -> below x k -> ~ constant_node k) /\
  (r.1 <> UNDEFINED -> (exists x, x ∈ l /\ below x r.1) /\ constant_node r.1) /\
  (r.2 = sp \/ exists x, x ∈ l /\ below x r.2).

Lemma starter_loop_spec f l : forall sp,
  (forall x sp, x ∈ l -> exists r, f x sp = Ok r /\ started [x] sp r) ->
  exists r, starter_loop f l sp = Ok r /\ started l sp r.
Proof.
  induction l as [|x l IH]; intros sp Hf; cbn [starter_loop].
  { eexists. split; [done|]. split_and!; [by intros _ x k ?%not_elem_of_nil|done|by left]. }
  destruct (Hf x sp) as (r & -> & Hu & Hd & Hp); [left|]. cbn [mbind res_bind].
  setoid_rewrite list_elem_of_singleton in Hu. setoid_rewrite list_elem_of_singleton in Hd.
  setoid_rewrite list_elem_of_singleton in Hp.
  destruct (N.eqb_spec r.1 UNDEFINED) as [Eu|Eu]; cbn [negb].
  - destruct (IH r.2) as (r' & -> & Hu' & Hd' & Hp'); [intros y sp' Hy; apply Hf; by right|].
    exists r'. split; [done|]. split_and!.
    + intros E y k [->|Hy]%elem_of_cons Hk; [by apply (Hu Eu x k)|by apply (Hu' E y k)].
    + intros E. destruct (Hd' E) as [(y & Hy & Hk) Hc]. split; [|done]. exists y. split; [by right|done].
    + destruct Hp' as [->|(y & Hy & Hk)]; [|right; exists y; split; [by right|done]].
      destruct Hp as [?|(y & -> & Hk)]; [by left|right; exists x; split; [left|done]].
  - exists r. split; [done|]. destruct (Hd Eu) as [(y & -> & Hk) Hc]. split_and!; [done| |].
    + intros _. split; [|done]. exists x. split; [left|done].
    + destruct Hp as [?|(y & -> & Hk')]; [by left|right; exists x; split; [left|done]].
Qed.

Lemma find_starter_spec fuel : forall h sp, live h -> depth_ok fuel h ->
  exists r, find_starter cs fuel t h sp = Ok r /\ started [h] sp r.
Proof.
  induction fuel as [|fuel IH]; intros h sp Hl Hf; [unfold depth_ok in Hf; lia|]. cbn [find_starter].
  destruct Hl as [a Ha]. rewrite (link_targets_eq h a Ha). cbn [mbind res_bind].
  destruct (isLinkObj a) eqn:La.
  - destruct (starter_loop_spec (find_starter cs fuel t) (outgoing a) h) as (r & Hr & Hu & Hd & Hp).
    { intros x sp' Hx. destruct (depth_child fuel h x) as [Hlx Hfx]; [by exists a|by exists a|done|]. by apply IH. }
    exists r. split; [done|]. assert (Hb : forall x k, x ∈ outgoing a -> below x k -> below h k)
      by (intros x k Hx Hk; apply (below_link h a k Ha La); eauto).
    split_and!.
    + intros E y k ->%list_elem_of_singleton Hk. apply (below_link h a k Ha La) in Hk as [<-|(x & Hx & Hk)].
      * intros (b & Hb' & Lb & _). congruence.
      * by apply (Hu E x k).
    + intros E. destruct (Hd E) as [(x & Hx & Hk) Hc]. split; [|done]. exists h. split; [left|by eapply Hb].
    + right. exists h. split; [left|]. destruct Hp as [->|(x & Hx & Hk)]; [apply rtc_refl|by eapply Hb].
  - rewrite Ha. cbn [of_opt mbind res_bind]. eexists. split; [done|].
    destruct (N.eqb_spec (a_type a) (VARIABLE_NODE cs)) as [Et|Et]; cbn [negb]; (split_and!; simpl; [|..|by left]).
    + intros _ y k ->%list_elem_of_singleton Hk. apply (below_node h a k Ha La) in Hk as <-.
      intros (b & Hb & _ & Nb). congruence.
    + done.
    + intros ->. rewrite UNDEFINED_dead in Ha; done.
    + intros _. split; [exists h; split; [left|apply rtc_refl]|by exists a].
Qed.
End starter.
End trees.

(** ** match and perform_search *)

(** The pattern that [match] leaves to the search. *)
Definition prepared (p : Pattern) (t : TLB) (vars clauses negations : list Handle) : Pattern :=
  mkPattern (bound_vars p ∪ list_to_set vars) (clauses ++ negations)
    (optionals p ∪ list_to_set negations)
    (match note_roots t (clauses ++ negations) with Ok m => m | _ => ∅ end) (invalid_grounding p).
Definition first_clause (clauses : list Handle) : Handle := default UNDEFINED (head clauses).

Section match_search.
Context `{SetOrder} (cs : ClassServer) {C : Type} `{PatternMatchCallback C}.
Context (accepts_node accepts_var accepts_link : TLB -> Handle -> Handle -> Prop).
Context `{!Stable accepts_node, !Stable accepts_var, !Stable accepts_link}.
Context (p0 : Pattern) (t0 : TLB) (vars clauses negations : list Handle) (I : C -> Prop).
Abbreviation P := (prepared p0 t0 vars clauses negations).
Abbreviation r0 := (first_clause clauses).
Context (laws : callback_laws P accepts_node accepts_var accepts_link t0 r0 I).
Hypothesis Hgr0 : graph_ok t0.
Hypothesis Hlive : forall c, c ∈ clauses ++ negations -> live t0 c.
Hypothesis Hundef : UNDEFINED ∉ optionals p0.
(** The enumeration by type stops. *)
Hypothesis Hset : forall c h a, I c -> atomOf (cb_tlb c) h = Some a ->
  getHandleSet_type_vh cs (cb_table c) (a_type a) false NULL_VERSION_HANDLE <> Fuel.
Implicit Types e : Engine C.
Abbreviation Bad := (@bad C I).

Lemma prepared_ok : pattern_ok P t0.
Proof.
  assert (Hd : forall c, c ∈ clauses ++ negations -> c ∈ D t0) by (intros c Hc; by apply live_D, Hlive).
  split; [|exact Hd|].
  - intros k rl c Hk Hc. destruct (note_roots_spec t0 Hgr0 (clauses ++ negations) Hlive) as (m & E & Hm).
    unfold P in Hk. simpl in Hk. rewrite E in Hk.
    destruct (proj1 (Hm k c)) as [Hin Hb]; [by exists rl|]. split; [|done].
    apply live_D, (below_live t0 Hgr0 c); [done|by apply Hlive|done].
  - simpl. rewrite elem_of_union, elem_of_list_to_set. intros [?|Hn]; [done|].
    apply (UNDEFINED_not_D t0 Hgr0), Hd. by apply elem_of_app; right.
Qed.

(** A clause that is a node starts at no link. *)
Lemma do_candidate_null h e :
  I (pmc e) -> wp Bad (do_candidate r0 UNDEFINED h) (fun _ e' => moved I (clear_search e) e') e.
Proof.
  intros HI. unfold do_candidate. repeat wp_step. set (e1 := set_issued _ _).
  assert (Hm1 : moved I (clear_search e) e1) by done.
  unfold search_fuel. destruct (S _ * S (S _)) as [|fuel] eqn:Ef; [lia|].
  cbn [soln_up]. unfold push_var. do 3 wp_step. unfold do_soln_up. do 2 wp_step.
  case_match.
  - wp_step. wp_step. eapply (poptop_var_ok I ∅ []); [done|]. by wp_step.
  - wp_step. destruct (graph _ _ _ _ _ _ _ laws e HI) as [Hgr _].
    assert (Hn : getAtom (the_tlb e) UNDEFINED = None).
    { pose proof (live_ptr _ UNDEFINED Hgr) as Hl. rewrite (UNDEFINED_dead _ Hgr) in Hl.
      destruct (getAtom (the_tlb e) UNDEFINED); [|done]. destruct (proj1 Hl) as [? ?]; [by eexists|done]. }
    change (getAtom _ (curr_pred_handle _)) with (getAtom (the_tlb e) UNDEFINED). rewrite Hn.
    apply null_left; [unfold down_fuel; lia|done].
Qed.

Definition searching e : Prop := I (pmc e) /\ pattern e = P.

Lemma candidate_ok starter h e :
  clauses <> [] -> starter = UNDEFINED \/ starter ∈ D t0 -> searching e ->
  wp Bad (loop_candidate r0 starter h) (fun b e' => if b : bool then searching e' else searching e') e.
Proof.
  intros Hne Hs [HI HP]. unfold loop_candidate.
  assert (Hend : forall (b : bool) e', moved I (clear_search e) e' -> if b then searching e' else searching e').
  { intros b e' [HI' _ Hp _]. assert (searching e') by (split; [done|by rewrite Hp]). by destruct b. }
  destruct Hs as [->|Hs]; (eapply wp_mono; [|exact Hend]); [by apply do_candidate_null|].
  apply (do_candidate_ok P accepts_node accepts_var accepts_link t0 r0 I laws Hgr0 prepared_ok); try done.
  simpl. apply elem_of_app. left. destruct clauses; [done|]. left.
Qed.

Lemma perform_search_ok e :
  searching e -> the_tlb e = t0 ->
  wp Bad (perform_search cs vars clauses negations) (fun _ e' => searching e') e.
Proof.
  intros He Ht. pose proof (proj1 He) as HI. unfold perform_search. do 2 wp_step.
  destruct (head clauses) as [h|] eqn:Ec; [|exact HI]. cbn [of_opt outcome].
  assert (Hin : h ∈ clauses) by (destruct clauses; simplify_eq/=; left).
  assert (Hh : live t0 h) by (by apply Hlive, elem_of_app; left).
  assert (Hhr : h = r0) by (unfold first_clause; by rewrite Ec).
  assert (Hne : clauses <> []) by (by intros ->).
  do 2 wp_step. rewrite Ht. destruct (find_starter_spec t0 Hgr0 cs (down_fuel t0) h UNDEFINED Hh)
    as (r & -> & _ & _ & Hr2); [by apply depth_full|]. cbn [outcome].
  assert (Hr : r.2 = UNDEFINED \/ r.2 ∈ D t0).
  { destruct Hr2 as [?|(x & ->%list_elem_of_singleton & Hb)]; [by left|right].
    apply live_D; [done|]. by apply (below_live t0 Hgr0 h). }
  assert (Hany : forall starter hs, starter = UNDEFINED \/ starter ∈ D t0 ->
    wp Bad (_ ← any (loop_candidate h starter) hs; mret tt) (fun _ e' => searching e') e).
  { intros starter hs Hs. wp_step. eapply wp_mono.
    - apply (wp_any _ searching searching); [done|]. intros x e' _ He'. rewrite Hhr. by apply candidate_ok.
    - intros b e' He'. wp_step. by destruct b. }
  destruct (negb _ && negb _).
  - do 2 wp_step. apply (incoming_ok P accepts_node accepts_var accepts_link t0 r0 I laws); [done|]. intros hs _. by apply Hany.
  - do 2 wp_step. rewrite Ht. destruct Hh as [a Ha]. rewrite Ha. cbn [of_opt mbind res_bind outcome].
    do 2 wp_step. pose proof (Hset (pmc e) h a HI) as Hf. unfold cb_tlb in Hf. change (tlb (cb_table (pmc e))) with (the_tlb e) in Hf.
    rewrite Ht in Hf. specialize (Hf Ha). unfold outcome. destruct (getHandleSet_type_vh _ _ _ _ _); try done.
    apply Hany. right. apply live_D; [done|by exists a].
Qed.

(** ** match *)
Lemma match_ok e :
  I (pmc e) -> pattern e = p0 -> the_tlb e = t0 ->
  wp Bad (match_ (perform_search cs) vars clauses negations) (fun _ e' => I (pmc e')) e.
Proof.
  intros HI Hp Ht. unfold match_. do 2 wp_step. destruct (negb (atom_space e)); [by wp_step|].
  cbv zeta. repeat wp_step.
  assert (Hcnf : clauses ++ negations = [] \/ exists c cnf, clauses ++ negations = c :: cnf)
    by (clear; destruct (clauses ++ negations); eauto).
  destruct Hcnf as [Ecnf|(c & cnf & Ecnf)]; rewrite Ecnf; [by wp_step|]. rewrite <- Ecnf.
  do 2 wp_step. set (e1 := set_clause_grounding _ _). change (the_tlb e1) with (the_tlb e). rewrite Ht.
  destruct (note_roots_spec t0 Hgr0 (clauses ++ negations) Hlive) as (m & E & _). rewrite E. cbn [outcome].
  do 4 wp_step. eapply wp_mono; [apply perform_search_ok|by intros ? ? [? _]]; [|done].
  split; [done|]. simpl. unfold P, prepared. by rewrite E, <- Hp.
Qed.
End match_search.
