(* ===== verification/QueryLaws.v ===== *)
(** The callbacks of src/opencog/query keep the laws that the pattern matcher
    relies on: DefaultPatternMatchCB and CrispLogicPMCB over a well-formed
    table. *)
From S2P Require Import Prelude ClassServer TruthValue Atom TLB HandleEntry Index IndexSpec AtomTable TableInv TableRemove TableQuery SpaceInv Triples Query QueryCB QuerySpec QueryTree QueryUp.

(** ** The atoms of a well-formed table *)
Lemma table_graph cs s : table_wf cs s -> graph_ok (tlb s).
Proof.
  intros Hwf. pose proof (tw_inv _ _ Hwf) as Hinv. split; [apply Hinv|..].
  - intros h a x Ha Hx. assert (Hh : h ∈ live s) by (apply (elem_of_live cs); eauto).
    assert (Hc : coreOf (tlb s) h = Some (core a)) by (unfold coreOf; by rewrite Ha).
    destruct (st_closed _ _ _ (inv_static _ _ _ _ Hinv) h (core a) x Hh Hc Hx) as [Hxl Hlt].
    split; [|done]. by apply (elem_of_live cs) in Hxl.
  - intros h a k Ha Hk. assert (Hh : h ∈ live s) by (apply (elem_of_live cs); eauto).
    apply (incoming_refers cs (coreOf (tlb s)) (live s) s h a k Hinv Hh Ha) in Hk as (_ & c & Hc & Ht).
    apply coreOf_Some in Hc as (b & Hb & <-). exists b. split; [done|].
    unfold targets in Ht. by apply elem_of_take in Ht as (j & Hj%list_elem_of_lookup_2 & _).
Qed.

Lemma table_types_stop `{SetOrder} cs s h a vh :
  table_wf cs s -> (nTypes cs + 1 < 2 ^ 16)%N -> atomOf (tlb s) h = Some a ->
  isNullVersionHandle (isInvalidHandle (tlb s)) vh = true ->
  getHandleSet_type_vh cs s (a_type a) false vh <> Fuel.
Proof.
  intros Hwf Hn Ha Hvh. destruct (live_object cs _ Hwf h) as (a' & Ha' & Hok); [apply (elem_of_live cs); eauto|].
  simplify_eq. pose proof (ok_type _ _ Hok) as Ht. simpl in Ht.
  destruct (getHandleSet_type_ok cs s (a_type a) false Hwf Hn) as (r & E & _); [lia|].
  unfold getHandleSet_type_vh, with_version. rewrite E. cbn [mbind res_bind].
  unfold filterSet_version. by rewrite Hvh.
Qed.

(** ** DefaultPatternMatchCB *)
Section default.
Context `{SetOrder} (cs : ClassServer) {C : Type} (table : C -> AtomTable)
  (restrictions : C -> option VariableTypeMap) (solution : Grounding -> Grounding -> ST C bool)
  (restr : option VariableTypeMap).

Definition default_accepts_node (t : TLB) (p g : Handle) : Prop := p = g.
Definition default_accepts_var (t : TLB) (v g : Handle) : Prop := exists a b q,
  atomOf t v = Some a /\ atomOf t g = Some b /\ getAtom t v = Some q /\
  (a_type a = VARIABLE_NODE cs -> a_type b <> VARIABLE_NODE cs /\
     forall m tset, restr = Some m -> m !! q = Some tset -> a_type b ∈ tset).
Definition default_accepts_link (t : TLB) (p g : Handle) : Prop := p = g \/ exists a b,
  atomOf t p = Some a /\ atomOf t g = Some b /\ getArity a = getArity b /\ a_type a = a_type b.

#[export] Instance default_node_stable : Stable default_accepts_node.
Proof. by intros t t' p g _. Qed.
#[export] Instance default_var_stable : Stable default_accepts_var.
Proof.
  intros t t' v g Hg (a & b & q & Ha & Hb & Hq & Hr).
  destruct (grows_node _ _ v a Hg Ha) as (a' & Ha' & Ta & _).
  destruct (grows_node _ _ g b Hg Hb) as (b' & Hb' & Tb & _).
  exists a', b', q. rewrite Ta, Tb. split_and!; try done. apply (lookup_weaken _ _ _ _ Hq), Hg.
Qed.
#[export] Instance default_link_stable : Stable default_accepts_link.
Proof.
  intros t t' p g Hg [?|(a & b & Ha & Hb & Har & Ht)]; [by left|right].
  destruct (grows_node _ _ p a Hg Ha) as (a' & Ha' & Ta & Oa & _).
  destruct (grows_node _ _ g b Hg Hb) as (b' & Hb' & Tb & Ob & _).
  exists a', b'. unfold getArity in *. rewrite Ta, Tb, Oa, Ob. done.
Qed.

Context (P : Pattern) (t0 : TLB) (r0 : Handle) (I : C -> Prop).
Hypothesis Hgraph : forall c, I c -> graph_ok (tlb (table c)) /\ grows t0 (tlb (table c)).
Hypothesis Hrestr : forall c, I c -> restrictions c = restr.

Lemma ptr_atom t h p : graph_ok t -> getAtom t h = Some p -> exists a, heap t !! p = Some a /\ atomOf t h = Some a.
Proof.
  intros Hg Hp. destruct (twf_live _ (gr_tlb _ Hg) h p Hp) as (a & Ha & _). exists a. split; [done|].
  unfold atomOf. by rewrite Hp.
Qed.

Lemma ptr_handle t h k p : graph_ok t -> getAtom t h = Some p -> getAtom t k = Some p -> h = k.
Proof.
  intros Hg Hp Hk. destruct (twf_live _ (gr_tlb _ Hg) h p Hp) as (a & Ha & <-).
  destruct (twf_live _ (gr_tlb _ Hg) k p Hk) as (b & Hb & <-). congruence.
Qed.

Lemma default_node_law hp hg p g c :
  I c -> getAtom (tlb (table c)) hp = Some p -> getAtom (tlb (table c)) hg = Some g ->
  default_node_match p g = false -> default_accepts_node (tlb (table c)) hp hg.
Proof.
  intros HI Hp Hg ->%negb_false_iff%Pos.eqb_eq. destruct (Hgraph c HI) as [Hgr _]. by eapply ptr_handle.
Qed.

Lemma default_var_law hp hg p g c :
  I c -> getAtom (tlb (table c)) hp = Some p -> getAtom (tlb (table c)) hg = Some g ->
  exists b, default_variable_match cs (tlb (table c)) (restrictions c) p g = Ok b /\
    (b = false -> default_accepts_var (tlb (table c)) hp hg).
Proof.
  intros HI Hp Hg. destruct (Hgraph c HI) as [Hgr _]. rewrite (Hrestr c HI).
  destruct (ptr_atom _ _ _ Hgr Hp) as (a & Hpa & Ha). destruct (ptr_atom _ _ _ Hgr Hg) as (b & Hgb & Hb).
  unfold default_variable_match, type_of_ptr, on_heap. rewrite Hpa. cbn [of_opt mbind res_bind].
  destruct (N.eqb_spec (a_type a) (VARIABLE_NODE cs)) as [Ea|Ea]; cbn [negb].
  2: { exists false. split; [done|]. intros _. exists a, b, p. done. }
  rewrite Hgb. cbn [of_opt mbind res_bind].
  destruct (N.eqb_spec (a_type b) (VARIABLE_NODE cs)) as [Eb|Eb]; [by exists true|].
  destruct restr as [m|] eqn:Er; [|exists false; split; [done|]; intros _; exists a, b, p; by rewrite Er].
  destruct (m !! p) as [tset|] eqn:Em.
  - eexists. split; [done|]. intros Hin%negb_false_iff%bool_decide_eq_true. exists a, b, p.
    do 4 (split; [done|]). intros m' tset' Em1 Em2.
    rewrite Er in Em1. injection Em1 as <-. rewrite Em in Em2. by injection Em2 as <-.
  - exists false. split; [done|]. intros _. exists a, b, p. do 4 (split; [done|]).
    intros m' tset' Em1 Em2. congruence.
Qed.

Lemma default_link_law hp hg p g c :
  I c -> getAtom (tlb (table c)) hp = Some p -> getAtom (tlb (table c)) hg = Some g ->
  exists b, default_link_match (tlb (table c)) p g = Ok b /\
    (b = false -> default_accepts_link (tlb (table c)) hp hg).
Proof.
  intros HI Hp Hg. destruct (Hgraph c HI) as [Hgr _].
  destruct (ptr_atom _ _ _ Hgr Hp) as (a & Hpa & Ha). destruct (ptr_atom _ _ _ Hgr Hg) as (b & Hgb & Hb).
  unfold default_link_match, on_heap. destruct (Pos.eqb_spec p g) as [->|Hne].
  { exists false. split; [done|]. intros _. left. by eapply ptr_handle. }
  rewrite Hpa, Hgb. cbn [of_opt mbind res_bind].
  destruct (N.eqb_spec (getArity a) (getArity b)); cbn [negb]; [|by exists true].
  eexists. split; [done|]. intros ?%negb_false_iff%N.eqb_eq. right. by exists a, b.
Qed.

(** An operation that only reads keeps the invariant. *)
Lemma calls_reads {A} `{PatternMatchCallback C} (f : C -> res A) c (Q : A -> TLB -> Prop) :
  I c -> (forall a, f c = Ok a -> Q a (cb_tlb c)) -> f c <> Fuel -> calls I (reads f) c Q.
Proof. intros HI HQ Hf. unfold calls, wp, reads. destruct (f c); try done. split_and!; [done|done|by apply HQ]. Qed.

Hypothesis Hsolution : forall c cg vg, I c ->
  reported P default_accepts_node default_accepts_var default_accepts_link (tlb (table c)) r0 cg vg ->
  wp I (solution cg vg) (fun _ c' => I c' /\ grows (tlb (table c)) (tlb (table c'))) c.

Lemma default_laws :
  callback_laws (H := DefaultPatternMatchCB cs table restrictions solution) P
    default_accepts_node default_accepts_var default_accepts_link t0 r0 I.
Proof.
  split.
  - exact Hgraph.
  - intros c hp hg p g HI Hp Hg. split_and!; [done|done|]. by apply default_node_law.
  - intros c hp hg p g HI Hp Hg. destruct (default_var_law hp hg p g c HI Hp Hg) as (b & E & Hb).
    apply calls_reads; [done| |by rewrite E]. intros b'. rewrite E. by intros [= <-].
  - intros c hp hg p g HI Hp Hg. destruct (default_link_law hp hg p g c HI Hp Hg) as (b & E & Hb).
    apply calls_reads; [done| |by rewrite E]. intros b'. rewrite E. by intros [= <-].
  - done.
  - done.
  - done.
  - done.
  - done.
  - intros c cg vg HI Hr. eapply wp_mono; [by apply Hsolution|]. by intros b c' [? ?].
Qed.

(** ** CrispLogicPMCB *)
Lemma getMean_stops tv : getMean tv <> Fuel.
Proof. revert tv. fix IH 1. intros [| | | |[p|] vs]; simpl; done. Qed.

Lemma grounding_mean_stops t g : grounding_mean t g <> Fuel.
Proof.
  unfold grounding_mean. destruct g as [p|]; [|done]. unfold on_heap. cbn [of_opt mbind res_bind].
  destruct (heap t !! p) as [a|]; [|done]. cbn [of_opt mbind res_bind]. apply getMean_stops.
Qed.

Lemma crisp_laws :
  callback_laws (H := CrispLogicPMCB cs table restrictions solution) P
    default_accepts_node default_accepts_var default_accepts_link t0 r0 I.
Proof.
  destruct default_laws as [L1 L2 L3 L4 _ _ _ L5 L6 L7]. split; [exact L1|exact L2|exact L3|exact L4|..|exact L5|exact L6|exact L7].
  - intros c p g HI. apply calls_reads; [done|done|]. unfold crisp_clause_match.
    pose proof (grounding_mean_stops (tlb (table c)) g). by destruct (grounding_mean (tlb (table c)) g).
  - intros c p g HI. apply calls_reads; [done|done|]. unfold crisp_optional_clause_match.
    destruct g as [q|]; [|done]. pose proof (grounding_mean_stops (tlb (table c)) (Some q)).
    by destruct (grounding_mean (tlb (table c)) (Some q)).
  - intros c p HI. apply calls_reads; [done| |done]. by intros b [= <-].
Qed.
End default.
