(* ===== verification/QueryDemo.v ===== *)
(** A callback that records the solutions, and a small atom space to search. *)
From S2P Require Import Prelude ClassServer TruthValue AttentionValue Atom TLB HandleEntry Index IndexSpec AtomTable TableInv TableAdd Temporal TimeSpec SpaceServer AtomSpace SpaceInv SpaceAdd SpaceRequests SpaceDemo Triples Query QueryCB QuerySpec.
#[local] Open Scope string_scope.

(** ** The recorder *)
Record Recorder := mkRecorder {
  rec_table : AtomTable;
  rec_restrictions : option VariableTypeMap;
  recorded : list (Grounding * Grounding)
}.
(** The search goes on after a solution. *)
Definition record (cg vg : Grounding) : ST Recorder bool := fun c =>
  (Ok false, mkRecorder (rec_table c) (rec_restrictions c) (recorded c ++ [(cg, vg)])).

Section recorder.
Context `{SetOrder} (cs : ClassServer).
Definition recorder_cb : PatternMatchCallback Recorder :=
  DefaultPatternMatchCB cs rec_table rec_restrictions record.
(** A new engine that has been given the atom space. *)
Definition new_search (s : AtomTable) (restr : option VariableTypeMap) : Engine Recorder :=
  set_atom_space true (PatternMatchEngine_new (mkRecorder s restr [])).
Definition search (s : AtomTable) (restr : option VariableTypeMap) (vars clauses negations : list Handle)
    : res unit * Engine Recorder :=
  match_ (H := recorder_cb) (perform_search (H0 := recorder_cb) cs) vars clauses negations (new_search s restr).
End recorder.

(** ** Atoms to search *)
#[local] Existing Instance elements_order.

(** The nodes 1 to 7 are cat, dog, animal, fur and three variables. *)
Definition query_requests : list request :=
  [AddNode (ty "ConceptNode") "cat" NullTV; AddNode (ty "ConceptNode") "dog" NullTV;
   AddNode (ty "ConceptNode") "animal" NullTV; AddNode (ty "ConceptNode") "fur" NullTV;
   AddNode (ty "VariableNode") "$x" NullTV; AddNode (ty "VariableNode") "$y" NullTV;
   AddNode (ty "VariableNode") "$z" NullTV;
   (* 8 to 10: cats and dogs are animals, cats have fur *)
   AddLink (ty "InheritanceLink") [1; 3]%N NullTV; AddLink (ty "InheritanceLink") [2; 3]%N NullTV;
   AddLink (ty "ListLink") [1; 4]%N NullTV;
   (* 11 and 12: what is an animal and has fur *)
   AddLink (ty "InheritanceLink") [5; 3]%N NullTV; AddLink (ty "ListLink") [5; 4]%N NullTV;
   (* 13 to 16: a link of variables in front of a node, and what it matches *)
   AddLink (ty "ListLink") [5; 6]%N NullTV; AddLink (ty "ListLink") [13; 4]%N NullTV;
   AddLink (ty "ListLink") [1; 3]%N NullTV; AddLink (ty "ListLink") [15; 4]%N NullTV;
   (* 17 to 19: two clauses that share only an atom of a link without variables *)
   AddLink (ty "ListLink") [2; 5; 10]%N NullTV; AddLink (ty "ListLink") [2; 3; 10]%N NullTV;
   AddLink (ty "ListLink") [6; 4]%N NullTV;
   (* 20 and 21: a link of variables that occurs in the data *)
   AddLink (ty "ListLink") [2; 7; 13]%N NullTV; AddLink (ty "ListLink") [2; 1; 13]%N NullTV].
Definition query_space : AtomSpace object_map := fold_left (fun s r => answer r s) query_requests demo_new.
Definition query_table : AtomTable := Eval vm_compute in atomTable query_space.

Definition run (vars clauses negations : list Handle) : res unit * Engine Recorder :=
  search built_in query_table None vars clauses negations.
(** The groundings of the variables in each solution. *)
Definition answers (vars clauses negations : list Handle) : list (list (option Handle)) :=
  (fun s => (fun v => s.2 !! v) <$> vars) <$> recorded (pmc (run vars clauses negations).2).
Lemma query_is_reachable : demo_reachable query_space.
Proof.
  unfold query_space, query_requests, fold_left.
  repeat (apply reach_answer; [|solve [admissible_here]]). apply reach_new.
Qed.
