(* ===== verification/QueryProps.v ===== *)
(** What the pattern matcher of src/opencog/query promises: every search stops,
    and every solution that it reports is one; and where it falls short. *)
From S2P Require Import Prelude ClassServer TruthValue AttentionValue Atom TLB HandleEntry Index IndexSpec AtomTable TableInv TableAdd TableProps Temporal TimeSpec SpaceServer AtomSpace SpaceInv SpaceAdd SpaceRequests SpaceDemo Triples Query QueryCB QuerySpec QueryTree QueryNext QueryUp QueryMatch QueryLaws QueryDemo.

(** ** The recorder keeps the laws *)
Section recorder_laws.
Context `{SetOrder} (cs : ClassServer) (s : AtomTable) (restr : option VariableTypeMap).
Context (P : Pattern) (r0 : Handle).
Hypothesis Hwf : table_wf cs s.

(** The table is never touched, and what is recorded is a solution. *)
Definition records (c : Recorder) : Prop :=
  rec_table c = s /\ rec_restrictions c = restr /\
  forall cg vg, (cg, vg) ∈ recorded c ->
    reported P default_accepts_node (default_accepts_var cs restr) default_accepts_link (tlb s) r0 cg vg.

Lemma recorder_laws :
  callback_laws (H := recorder_cb cs) P default_accepts_node (default_accepts_var cs restr)
    default_accepts_link (tlb s) r0 records.
Proof.
  apply default_laws.
  - intros c (-> & _). split; [by eapply table_graph|done].
  - by intros c (_ & -> & _).
  - intros c cg vg (E & R & Hc) Hr. rewrite E in Hr. unfold record, wp. split; [|done].
    split; [done|]. split; [done|]. intros cg' vg'. simpl. rewrite elem_of_app, list_elem_of_singleton.
    intros [?|[= -> ->]]; [by apply Hc|done].
Qed.
End recorder_laws.

Lemma wp_fuel {S A} (bad : S -> Prop) (m : ST S A) Q s :
  wp bad m Q s -> (m s).1 <> Fuel /\ forall a, (m s).1 = Ok a -> Q a (m s).2.
Proof. unfold wp. destruct (m s) as [[a|ex| |] s']; simpl; [|done..]. intros HQ. split; [done|]. by intros a' [= <-]. Qed.

Lemma wp_inv {S A} (I : S -> Prop) (m : ST S A) Q s :
  wp I m Q s -> (forall a s', Q a s' -> I s') -> I (m s).2.
Proof. unfold wp. destruct (m s) as [[a|ex| |] s']; simpl; eauto; done. Qed.

Lemma wp_total {S A} (m : ST S A) Q s : wp (fun _ => False) m Q s -> exists a s', m s = (Ok a, s') /\ Q a s'.
Proof. unfold wp. destruct (m s) as [[a|ex| |] s']; try done. eauto. Qed.

(** ** Properties *)
Section spaces.
Context `{SetOrder} (cs : ClassServer) (string_hash : string -> N).
Context {M : Type} `{SpaceMapLaws M} (stores : positive -> BackingStore).
Context (Hty : types_ok cs).

(** C2. A query over an atom space that any requests have led to, with any
    variables, clauses and optional clauses, and with or without type
    restrictions on the variables: the search always stops; it leaves the table
    alone; and in every reported solution the variables are grounded by nodes
    that the restrictions allow, each grounded clause matches its grounding
    under this one assignment of the variables, and if the first clause is
    required then every required clause that is linked to it through shared
    atoms is grounded. *)
Theorem query_solutions_correct sti lti (s : AtomSpace M) restr vars clauses negations :
  reachable cs string_hash stores sti lti s ->
  (forall c, c ∈ clauses ++ negations -> is_Some (atomOf (AS.the_tlb s) c)) ->
  let e := new_search (atomTable s) restr in
  let r := search cs (atomTable s) restr vars clauses negations in
  r.1 <> Fuel /\ rec_table (pmc r.2) = atomTable s /\
  forall cg vg, (cg, vg) ∈ recorded (pmc r.2) ->
    reported (prepared (pattern e) (AS.the_tlb s) vars clauses negations)
      default_accepts_node (default_accepts_var cs restr) default_accepts_link
      (AS.the_tlb s) (first_clause clauses) cg vg.
Proof.
  intros Hr Hl e r. destruct (reachable_ok cs string_hash stores Hty sti lti s Hr) as ([S Hok] & _).
  pose proof (so_table _ _ _ Hok) as Hwf.
  set (P := prepared _ _ _ _ _). set (I := records cs (atomTable s) restr P (first_clause clauses)).
  assert (Hwp : wp (@bad _ I) (match_ (H := recorder_cb cs) (perform_search (H0 := recorder_cb cs) cs) vars clauses negations)
    (fun _ e' => I (pmc e')) e).
  { apply (match_ok (H0 := recorder_cb cs) cs default_accepts_node (default_accepts_var cs restr)
      default_accepts_link (pattern e) (AS.the_tlb s) vars clauses negations I).
    - by apply recorder_laws.
    - by eapply table_graph.
    - exact Hl.
    - by apply not_elem_of_empty.
    - intros c h a (E & _) Ha. unfold cb_tlb in Ha. simpl in *. rewrite E in *.
      apply (table_types_stop cs _ h); [done| |done|done].
      pose proof (wf_range _ (ty_wf _ Hty)) as Hn. unfold NOTYPE in Hn. lia.
    - split; [done|]. split; [done|]. by intros cg vg ?%not_elem_of_nil.
    - done.
    - done. }
  destruct (wp_fuel _ _ _ _ Hwp) as [Hf _]. split; [exact Hf|].
  by destruct (wp_inv _ _ _ _ Hwp (fun _ _ h => h)) as (E & _ & Hc).
Qed.
End spaces.

Section engine.
Context {C : Type} `{PatternMatchCallback C} (P : Pattern).
Context (accepts_node accepts_var accepts_link : TLB -> Handle -> Handle -> Prop).
Context `{!Stable accepts_node, !Stable accepts_var, !Stable accepts_link}.
Context (t0 : TLB) (r0 : Handle) (I : C -> Prop).
Implicit Types e : Engine C.

(** C3. The search from one candidate, for any callback that keeps its laws,
    whatever it adds to the table in between: the search stops; the callback is
    only ever told solutions, as its invariant still holds, even after an
    exception; and when the search returns, every push on the six stacks has
    been undone. *)
Theorem do_candidate_correct starter h e :
  callback_laws P accepts_node accepts_var accepts_link t0 r0 I ->
  graph_ok t0 -> pattern_ok P t0 -> I (pmc e) -> pattern e = P ->
  r0 ∈ cnf_clauses P -> is_Some (atomOf t0 starter) ->
  let r := do_candidate r0 starter h e in
  r.1 <> Fuel /\ I (pmc r.2) /\
  forall b, r.1 = Ok b ->
    pred_handle_stack r.2 = [] /\ soln_handle_stack r.2 = [] /\ root_handle_stack r.2 = [] /\
    pred_solutn_stack r.2 = [] /\ var_solutn_stack r.2 = [] /\ issued_stack r.2 = [].
Proof.
  intros laws Hgr HP HI Hp Hr Hs r. apply (live_D t0 Hgr) in Hs.
  pose proof (do_candidate_ok P accepts_node accepts_var accepts_link t0 r0 I laws Hgr HP starter h e HI Hp Hr Hs) as Hwp.
  destruct (wp_fuel _ _ _ _ Hwp) as [Hf HQ]. split; [exact Hf|]. split.
  - apply (wp_inv _ _ _ _ Hwp). intros b e'. apply mv_inv.
  - intros b Hb. by destruct (HQ b Hb) as [_ _ _ []].
Qed.

(** C4. Comparing an atom of the pattern with any atom stops within as many steps
    down as there are atoms. When the two are said to match, they do under the
    new grounding of the variables, which extends the old one; and but for that
    grounding the engine is unchanged, whether they match or not. *)
Theorem tree_compare_correct x y e :
  callback_laws P accepts_node accepts_var accepts_link t0 r0 I ->
  graph_ok t0 -> I (pmc e) -> pattern e = P -> is_Some (atomOf t0 x) ->
  vars_ok P accepts_var (the_tlb e) (var_grounding e) ->
  let r := tree_compare (down_fuel (the_tlb e)) (getAtom (the_tlb e) x) (getAtom (the_tlb e) y) e in
  r.1 <> Fuel /\ forall mismatch, r.1 = Ok mismatch ->
    r.2 = set_pmc (pmc r.2) (set_var_grounding (var_grounding r.2) e) /\
    (mismatch = false ->
       vars_ok P accepts_var (the_tlb r.2) (var_grounding r.2) /\
       extends P (var_grounding e) (var_grounding r.2) /\
       matches P accepts_node accepts_link (the_tlb r.2) (var_grounding r.2) x y).
Proof.
  intros laws Hgr HI Hp Hx HG r. apply (live_D t0 Hgr) in Hx.
  assert (Hd : S (older t0 x) < down_fuel (the_tlb e)).
  { apply older_fuel; [|done]. by apply (graph _ _ _ _ _ _ _ laws e). }
  pose proof (tree_compare_ok P _ _ _ t0 r0 I laws Hgr _ x y e HI Hp Hx HG Hd) as Hwp.
  destruct (wp_fuel _ _ _ _ Hwp) as [Hf HQ]. split; [exact Hf|]. intros b Hb.
  destruct (HQ b Hb) as [Ho Hc]. split; [apply Ho|]. intros Hm. by destruct (Hc Hm).
Qed.

(** C28. The choice of the next clause always returns. Either it issues a clause
    that is neither solved nor issued and that shares an atom, from which the
    search will go on, with a solved clause; an optional one only when every
    required clause that shares an atom with a solved one is solved or issued.
    Or no clause is issued, and then every clause that shares an atom with a
    solved one is solved or issued. Solved is a clause with a valid grounding; the
    search for optional clauses does not count those found to be absent. *)
Theorem get_next_untried_clause_correct e :
  no_undefined (pattern e) ->
  exists e', get_next_untried_clause e = (Ok tt, e') /\
    ((exists required, found_clause required e e' /\ (required = false -> exhausted true e)) \/
     curr_root e' = UNDEFINED /\ curr_pred_handle e' = UNDEFINED /\ issued e' = issued e /\
     same_real (clause_grounding e) (clause_grounding e') /\ exhausted true e /\ exhausted false e).
Proof.
  intros Hu. destruct (wp_total _ _ _ (get_next_ok (fun _ => False) e Hu)) as ([] & e' & E & Hq).
  exists e'. split; [done|]. destruct Hq as [?|(e1 & [-> Hs] & -> & ? & ?)]; [by left|right]. done.
Qed.
End engine.

Section trees.
Context (t : TLB).

(** Whether an atom occurs in a tree of atoms is decided, within as many steps
    down as there are atoms. *)
Theorem is_node_in_tree_correct tree node :
  graph_ok t -> is_Some (atomOf t tree) ->
  exists b : bool, is_node_in_tree t tree node = Ok b /\ (b = true <-> below t tree node).
Proof. intros Hg Hl. apply in_tree_spec; [done..|by apply depth_full]. Qed.

(** The clauses that are searched for are those with a variable in them: the
    others are dropped, in place, and the caller is told when there were any. *)
Theorem validate_correct vars clauses :
  graph_ok t -> (forall c, c ∈ clauses -> is_Some (atomOf t c)) ->
  exists kept dropped, validate t vars clauses = Ok (kept, dropped) /\ kept `sublist_of` clauses /\
    (forall c, c ∈ kept <-> c ∈ clauses /\ has_var t vars c) /\
    (dropped = true <-> exists c, c ∈ clauses /\ ~ has_var t vars c).
Proof.
  intros Hg. induction clauses as [|c clauses IH]; intros Hl; cbn [validate].
  { exists [], false. split; [done|]. split; [done|]. split; [by intros c; rewrite elem_of_nil; split; [|intros [? _]]|].
    split; [done|]. by intros (c & ?%not_elem_of_nil & _). }
  assert (Hc : live t c) by (apply Hl; left).
  destruct (validate_clause_spec t Hg (down_fuel t) vars c Hc) as (b & -> & Hb); [by apply depth_full|].
  destruct IH as (kept & dropped & -> & Hsub & Hk & Hd); [intros d Hd; apply Hl; by right|].
  cbn [mbind res_bind fst snd]. destruct b; eexists _, _; (split; [done|]).
  - split; [by constructor|]. setoid_rewrite elem_of_cons. split.
    + intros d. rewrite Hk. split; [intros [->|[? ?]]; [split; [by left|by apply Hb]|by auto]|].
      intros [[->|?] ?]; auto.
    + rewrite Hd. split; [intros (d & ? & ?); eauto|]. intros (d & [->|?] & Hn); [by destruct Hn; apply Hb|eauto].
  - assert (Hn : ~ has_var t vars c) by (intros Hv; by apply Hb in Hv).
    split; [by constructor|]. setoid_rewrite elem_of_cons. split.
    + intros d. rewrite Hk. split; [intros [? ?]; auto|]. intros [[->|?] ?]; [done|auto].
    + split; [eauto|done].
Qed.

(** C29. The map that the search for the next clause reads holds for every atom
    exactly the clauses whose trees the atom is part of. *)
Theorem root_map_correct clauses :
  graph_ok t -> (forall c, c ∈ clauses -> is_Some (atomOf t c)) ->
  exists m, note_roots t clauses = Ok m /\
    forall k c, (exists rl, m !! k = Some rl /\ c ∈ rl) <-> c ∈ clauses /\ below t c k.
Proof. intros Hg. by apply note_roots_spec. Qed.

(** The search for a node to start at finds a node of the first clause that is
    not a variable, and fails only when there is none. *)
Theorem find_starter_correct `{SetOrder} cs h sp :
  graph_ok t -> is_Some (atomOf t h) ->
  exists r, find_starter cs (down_fuel t) t h sp = Ok r /\
    (r.1 <> UNDEFINED -> below t h r.1 /\ constant_node t cs r.1) /\
    (r.1 = UNDEFINED -> forall k, below t h k -> ~ constant_node t cs k).
Proof.
  intros Hg Hl. destruct (find_starter_spec t Hg cs (down_fuel t) h sp Hl) as (r & E & Hu & Hd & _); [by apply depth_full|].
  exists r. split; [done|]. split.
  - intros Hne. destruct (Hd Hne) as [(x & ->%list_elem_of_singleton & Hb) Hc]. done.
  - intros Eu k Hk. by apply (Hu Eu h); [left|].
Qed.
End trees.

(** ** Where the search falls short *)
#[local] Existing Instance elements_order.
Abbreviation query_tlb := (tlb query_table).
Abbreviation query_pattern vars clauses :=
  (prepared (pattern (new_search query_table None)) query_tlb vars clauses []).

Ltac by_links :=
  eapply m_links; [by vm_compute|by vm_compute|by vm_compute|by vm_compute|by vm_compute| |].

(** A clause with a link of variables in front of its first constant: the
    node to start at is found, but with it the link that was entered last, which
    is not above the node. The search then compares that link with the links
    above the node, and misses a solution. *)
Theorem starter_misses_solution :
  find_starter built_in (down_fuel query_tlb) query_tlb 14 UNDEFINED = Ok (4, 13)%N /\
  (run [5; 6] [14] [])%N.1 = Ok tt /\ answers [5; 6]%N [14]%N [] = [] /\
  exists G, vars_ok (query_pattern [5; 6] [14])%N (default_accepts_var built_in None) query_tlb G /\
    matches (query_pattern [5; 6] [14])%N default_accepts_node default_accepts_link query_tlb G 14 16.
Proof.
  split; [by vm_compute|]. split; [by vm_compute|]. split; [by vm_compute|].
  exists {[5%N := 1%N; 6%N := 3%N]}. split.
  - intros v g Hv Hg _.
    assert (Hvg : v = 5%N /\ g = 1%N \/ v = 6%N /\ g = 3%N).
    { apply lookup_insert_Some in Hg as [[<- <-]|[_ Hg]]; [by left|right]. by apply lookup_singleton_Some in Hg as [<- <-]. }
    destruct Hvg as [[-> ->]|[-> ->]]; (split; [by vm_compute|]); split.
    all: try (do 3 eexists; split_and!; [by vm_compute|by vm_compute|by vm_compute|intros _; split; [by vm_compute|done]]).
    all: do 2 eexists; split_and!; by vm_compute.
  - by_links; [right; do 2 eexists; split_and!; by vm_compute|].
    apply am_cons; [|apply am_cons; [apply m_same; [by vm_compute|by eexists; vm_compute]|apply am_nil]].
    by_links; [right; do 2 eexists; split_and!; by vm_compute|].
    apply am_cons; [by apply m_var; vm_compute|]. apply am_cons; [by apply m_var; vm_compute|apply am_nil].
Qed.

(** Two clauses that share an atom only below a link without variables: such
    a link matches itself without a look at its targets, so the shared atom has
    no grounding, and the search for the second clause climbs from a null
    pointer. *)
Theorem shared_constant_is_fatal :
  linked (query_pattern [5; 6] [17; 19])%N 17 19 /\ (run [5; 6] [17; 19] [])%N.1 = Undef.
Proof.
  split; [|by vm_compute]. apply rtc_once. split; [|by vm_compute].
  exists 4%N. eexists. split; [by vm_compute|]. split; apply list_elem_of_In; simpl; auto.
Qed.

(** A link of variables in a clause matches its own occurrence in the data: a
    solution is reported in which two of the variables have no grounding,
    although the first clause has one. *)
Theorem variables_left_open :
  (run [5; 6; 7] [20] [])%N.1 = Ok tt /\
  answers [5; 6; 7]%N [20]%N [] = [[None; None; Some 1]; [Some 1; Some 4; Some 3]]%N.
Proof. by vm_compute. Qed.

(** ** Witnesses *)
Lemma query_table_eq : atomTable query_space = query_table.
Proof. vm_cast_no_check (eq_refl query_table). Qed.

Lemma query_wf : table_wf built_in query_table.
Proof.
  destruct (reachable_ok built_in no_hash no_stores built_in_ok 10000 5000 _ query_is_reachable) as ([S Hok] & _).
  rewrite <- query_table_eq. exact (so_table _ _ _ Hok).
Qed.

Lemma query_graph : graph_ok query_tlb.
Proof. eapply table_graph, query_wf. Qed.

Lemma all_live (t : TLB) l : forallb (fun c => bool_decide (is_Some (atomOf t c))) l = true ->
  forall c, c ∈ l -> is_Some (atomOf t c).
Proof.
  rewrite forallb_forall. intros Hf c Hc%list_elem_of_In.
  exact (proj1 (bool_decide_eq_true _) (Hf c Hc)).
Qed.

Lemma animal_pattern_ok : pattern_ok (query_pattern [5] [11; 12])%N query_tlb.
Proof.
  apply prepared_ok; [exact query_graph|apply all_live; by vm_compute|by apply not_elem_of_empty].
Qed.

(** An engine that is about to look for what is an animal and has fur. *)
Definition animal_search : Engine Recorder :=
  set_pattern (query_pattern [5] [11; 12])%N (new_search query_table None).
Abbreviation animal_laws :=
  (recorder_laws built_in query_table None (query_pattern [5] [11; 12])%N 11 query_wf).
Abbreviation animal_records :=
  (records built_in query_table None (query_pattern [5] [11; 12])%N 11).
Lemma animal_starts : animal_records (pmc animal_search).
Proof. split; [done|]. split; [done|]. by intros cg vg ?%not_elem_of_nil. Qed.

Lemma animal_answer :
  (fun s => s.2 !! 5%N) <$> recorded (pmc (search built_in query_table None [5]%N [11; 12]%N []).2) = [Some 1%N].
Proof. by vm_compute. Qed.

Lemma query_solutions_correct_witness :
  exists cg vg,
    recorded (pmc (search built_in (atomTable query_space) None [5]%N [11; 12]%N []).2) = [(cg, vg)] /\
    vg !! 5%N = Some 1%N /\
    reported (prepared (pattern (new_search (atomTable query_space) None)) (AS.the_tlb query_space) [5]%N [11; 12]%N [])
      default_accepts_node (default_accepts_var built_in None) default_accepts_link (AS.the_tlb query_space)
      (first_clause [11; 12]%N) cg vg.
Proof.
  destruct (query_solutions_correct built_in no_hash no_stores built_in_ok 10000 5000 query_space None
              [5]%N [11; 12]%N [] query_is_reachable) as (_ & _ & Hall).
  { apply all_live. by vm_compute. }
  pose proof animal_answer as Hv. rewrite <- query_table_eq in Hv.
  destruct (recorded (pmc (search built_in (atomTable query_space) None [5]%N [11; 12]%N []).2))
    as [|[cg vg] [|? ?]]; [done| |done].
  exists cg, vg. split; [reflexivity|]. split; [by injection Hv|]. apply Hall. left.
Defined.

Lemma do_candidate_correct_witness :
  let r := do_candidate (H := recorder_cb built_in) 11 11 8 animal_search in
  r.1 <> Fuel /\ var_solutn_stack r.2 = [].
Proof.
  destruct (do_candidate_correct (H := recorder_cb built_in) _ _ _ _ query_tlb 11 animal_records 11 8
              animal_search animal_laws query_graph animal_pattern_ok animal_starts eq_refl)
    as (Hf & _ & Hs).
  - left.
  - eexists. by vm_compute.
  - split; [exact Hf|]. apply (Hs false). by vm_compute.
Defined.

Lemma tree_compare_correct_witness :
  let r := tree_compare (H := recorder_cb built_in) (down_fuel query_tlb)
             (getAtom query_tlb 11) (getAtom query_tlb 8) animal_search in
  r.1 = Ok false /\
  matches (query_pattern [5] [11; 12])%N default_accepts_node default_accepts_link
    query_tlb (var_grounding r.2) 11 8 /\ var_grounding r.2 !! 5%N = Some 1%N.
Proof.
  destruct (tree_compare_correct (H := recorder_cb built_in) _ _ _ _ query_tlb 11 animal_records 11 8
              animal_search animal_laws query_graph animal_starts eq_refl) as (_ & Hm).
  - eexists. by vm_compute.
  - by intros v g _ Hg.
  - assert (E : (tree_compare (H := recorder_cb built_in) (down_fuel query_tlb)
      (getAtom query_tlb 11) (getAtom query_tlb 8) animal_search).1 = Ok false) by by vm_compute.
    split; [exact E|]. destruct (Hm false E) as (_ & _ & _ & Hmatch); [reflexivity|].
    split; [|by vm_compute]. exact Hmatch.
Defined.

Lemma get_next_untried_clause_correct_witness :
  exists e', get_next_untried_clause (H := recorder_cb built_in) animal_search = (Ok tt, e') /\
    curr_root e' = UNDEFINED.
Proof.
  destruct (get_next_untried_clause_correct (H := recorder_cb built_in) animal_search) as (e' & E & _).
  - exact (no_undefined_P _ query_tlb query_graph animal_pattern_ok).
  - exists e'. split; [exact E|].
    assert (E' : curr_root (get_next_untried_clause (H := recorder_cb built_in) animal_search).2 = UNDEFINED)
      by by vm_compute.
    rewrite E in E'. exact E'.
Defined.

Lemma is_node_in_tree_correct_witness : below query_tlb 16 3.
Proof.
  destruct (is_node_in_tree_correct query_tlb 16 3 query_graph) as (b & E & Hb).
  - eexists. by vm_compute.
  - apply Hb. assert (E' : is_node_in_tree query_tlb 16 3 = Ok true) by by vm_compute. congruence.
Defined.

Lemma validate_correct_witness : has_var query_tlb [5]%N 12 /\ ~ has_var query_tlb [5]%N 10.
Proof.
  destruct (validate_correct query_tlb [5]%N [12; 10]%N query_graph) as (kept & dropped & E & _ & Hk & _).
  - apply all_live. by vm_compute.
  - assert (E' : validate query_tlb [5]%N [12; 10]%N = Ok ([12]%N, true)) by by vm_compute.
    rewrite E in E'. injection E' as -> _. split; [apply Hk; left|]. intros Hv.
    assert (Hin : (10 ∈ [12])%N) by (apply Hk; split; [right; left|exact Hv]).
    by apply list_elem_of_singleton in Hin.
Defined.

Lemma root_map_correct_witness :
  exists m rl, note_roots query_tlb [11; 12]%N = Ok m /\ m !! 5%N = Some rl /\ 12%N ∈ rl.
Proof.
  destruct (root_map_correct query_tlb [11; 12]%N query_graph) as (m & E & Hm).
  - apply all_live. by vm_compute.
  - destruct (proj2 (Hm 5%N 12%N)) as (rl & Hrl & Hin).
    + split; [right; left|]. apply rtc_once. eexists. split; [by vm_compute|]. split; [by vm_compute|left].
    + by exists m, rl.
Defined.

Lemma find_starter_correct_witness : below query_tlb 12 4 /\ constant_node query_tlb built_in 4.
Proof.
  destruct (find_starter_correct query_tlb built_in 12 UNDEFINED query_graph) as (r & E & Hd & _).
  - eexists. by vm_compute.
  - assert (E' : find_starter built_in (down_fuel query_tlb) query_tlb 12 UNDEFINED = Ok (4, 12)%N) by by vm_compute.
    rewrite E in E'. injection E' as ->. by apply Hd.
Defined.
