(* ===== verification/Implication.v ===== *)
(** src/opencog/query/PatternMatch.cc and .h: implications are evaluated by a
    search for their predicate, and every solution adds a copy of the implicand
    to the atom space. The state is the engine whose callback, an Implicator,
    owns the atom space. Running schemes is left to the argument
    [apply_scheme]. *)
From Stdlib Require Import SpecFloat.
From S2P Require Import Prelude ClassServer TruthValue Atom TLB HandleEntry Index AtomTable SpaceServer AtomSpace Query QueryCB.
#[local] Open Scope string_scope.
#[local] Open Scope list_scope.

Section implication.
Context `{SetOrder} (cs : ClassServer) (string_hash : string -> N).
Context {M : Type} `{SpaceMap M} (stores : positive -> BackingStore).
Context (apply_scheme : string -> Handle -> ST (AtomSpace M) Handle).

(** The global type variables. *)
Definition EXECUTION_LINK : N := ClassServer.getType cs "ExecutionLink".
Definition LIST_LINK : N := ClassServer.getType cs "ListLink".
Definition AND_LINK : N := ClassServer.getType cs "AndLink".
Definition NOT_LINK : N := ClassServer.getType cs "NotLink".
Definition IMPLICATION_LINK : N := ClassServer.getType cs "ImplicationLink".
Definition VARIABLE_TYPE_NODE : N := ClassServer.getType cs "VariableTypeNode".
Definition TYPED_VARIABLE_LINK : N := ClassServer.getType cs "TypedVariableLink".
Definition VARIABLE_SCOPE_LINK : N := ClassServer.getType cs "VariableScopeLink".

(** [TRUE_TV]: the mean is [1.0f], the count the binary32 number next to 1e35. *)
Definition TRUE_TV : TruthValue := SimpleTV (f32_of_Z 1) (S754_finite false 10097420 93).

(** [TLB::getAtom(h)], and the object it points to. *)
Definition atom_at (t : TLB) (h : Handle) : res Atom := of_opt (atomOf t h).

(** ** FindVariables *)
Fixpoint find_vars (fuel : nat) (t : TLB) (h : Handle) : res (list Handle) :=
  match fuel with
  | O => Fuel
  | S fuel' =>
      n ← as_node_ptr t (getAtom t h);
      match n with
      | Some p =>
          ty ← type_of_ptr t p;
          Ok (if (ty =? VARIABLE_NODE cs)%N then [h] else [])
      | None =>
          oset ← link_targets t h;
          rfold (fun varlist x => vs ← find_vars fuel' t x; Ok (varlist ++ vs)) [] (default [] oset)
      end
  end.

(** ** Instantiator *)
Abbreviation SP := (AtomSpace M).

Definition execution_link (oset : list Handle) : ST SP Handle :=
  match oset with
  | [gs; arg] =>
      gsn ← reads (fun s => as_node_ptr (AS.the_tlb s) (getAtom (AS.the_tlb s) gs));
      match gsn with
      | None => mret UNDEFINED
      | Some p =>
          n ← reads (fun s => on_heap (AS.the_tlb s) p);
          let schema := getName n in
          if String.prefix "scm:" schema
          then apply_scheme (String.substring 4 (String.length schema - 4) schema) arg
          else AS.addLink cs string_hash stores EXECUTION_LINK oset TRUE_TV
      end
  | _ => mret UNDEFINED
  end.

(** A loop that hands the members [oset] and [did_exec] on. *)
Fixpoint walk_each (f : Handle -> list Handle * bool -> ST SP (list Handle * bool)) (l : list Handle)
    (m : list Handle * bool) : ST SP (list Handle * bool) :=
  match l with [] => mret m | x :: l' => m' ← f x m; walk_each f l' m' end.

Fixpoint walk_tree (fuel : nat) (vmap : Grounding) (expr : Handle) (m : list Handle * bool)
    : ST SP (list Handle * bool) :=
  match fuel with
  | O => nofuel
  | S fuel' =>
      a ← reads (fun s => atom_at (AS.the_tlb s) expr);
      if isNodeObj a then
        if negb (a_type a =? VARIABLE_NODE cs)%N then mret (m.1 ++ [expr], m.2)
        else mret (m.1 ++ [default expr (vmap !! expr)], m.2)
      else
        m' ← walk_each (walk_tree fuel' vmap) (outgoing a) ([], m.2);
        if (a_type a =? EXECUTION_LINK)%N then
          sh ← execution_link m'.1;
          mret (if negb (sh =? UNDEFINED)%N then m.1 ++ [sh] else m.1, true)
        else
          a' ← reads (fun s => atom_at (AS.the_tlb s) expr);
          sh ← AS.addLink cs string_hash stores (a_type a) m'.1 (a_truthValue a');
          mret (m.1 ++ [sh], false)
  end.

Definition instantiate (expr : Handle) (vars : Grounding) : ST SP Handle :=
  if (expr =? UNDEFINED)%N then mret UNDEFINED
  else
    fuel ← asks (fun s => down_fuel (AS.the_tlb s));
    m ← walk_tree fuel vars expr ([], false);
    mret (default UNDEFINED (head m.1)).

(** ** Implicator *)
Record Implicator := mkImplicator {
  im_space : SP;
  implicand : Handle;
  result_list : list Handle;
  type_restrictions : option VariableTypeMap
}.
Definition im_table (c : Implicator) : AtomTable := atomTable (im_space c).
Definition Implicator_new (s : SP) : Implicator := mkImplicator s UNDEFINED [] None.
Definition set_space (s : SP) (c : Implicator) : Implicator :=
  mkImplicator s (implicand c) (result_list c) (type_restrictions c).
Definition push_result (h : Handle) (c : Implicator) : Implicator :=
  mkImplicator (im_space c) (implicand c) (result_list c ++ [h]) (type_restrictions c).
Definition on_space {A} (m : ST SP A) : ST Implicator A := fun c =>
  let '(r, s) := m (im_space c) in (r, set_space s c).

Definition Implicator_solution (pred_soln var_soln : Grounding) : ST Implicator bool :=
  expr ← asks implicand;
  h ← on_space (instantiate expr var_soln);
  valid ← asks (fun c => AS.isValid h (im_space c));
  _ ← (if valid : bool then modst (push_result h) else mret tt);
  mret false.

(** Every result is made true with full confidence. *)
Definition crisp_true : TruthValue := SimpleTV (f32_of_Z 1) (confidenceToCount (f32_of_Z 1)).
Definition CrispImplicator_solution (pred_soln var_soln : Grounding) : ST Implicator bool :=
  expr ← asks implicand;
  h ← on_space (instantiate expr var_soln);
  if negb (h =? UNDEFINED)%N then
    _ ← modst (push_result h);
    _ ← on_space (AS.put_tv h crisp_true);
    mret false
  else mret false.

Definition DefaultImplicator : PatternMatchCallback Implicator :=
  DefaultPatternMatchCB cs im_table type_restrictions Implicator_solution.
Definition CrispImplicator : PatternMatchCallback Implicator :=
  CrispLogicPMCB cs im_table type_restrictions CrispImplicator_solution.

(** ** PatternMatch *)
Abbreviation PM := (Engine Implicator).
Definition pm_space (e : PM) : SP := im_space (pmc e).
Definition pm_tlb (e : PM) : TLB := AS.the_tlb (pm_space e).
Definition on_pm {A} (m : ST Implicator A) : ST PM A := fun e =>
  let '(r, c) := m (pmc e) in (r, set_pmc c e).

Definition set_atomspace : ST PM unit :=
  _ ← modst (set_atom_space true);
  h ← on_pm (on_space (AS.addLink cs string_hash stores (ClassServer.getType cs "Link") [] DEFAULT_TV));
  modst (fun e => let p := pattern e in
    set_pattern (mkPattern (bound_vars p) (cnf_clauses p) (optionals p) (root_map p) h) e).

(** The clauses, and the clauses under a NotLink. *)
Fixpoint split_clauses (t : TLB) (cset : list Handle) : res (list Handle * list Handle) :=
  match cset with
  | [] => Ok ([], [])
  | h :: cset' =>
      a ← atom_at t h;
      if (a_type a =? NOT_LINK)%N then
        x ← Atom.getOutgoingHandle 0 a;
        r ← split_clauses t cset'; Ok (r.1, x :: r.2)
      else r ← split_clauses t cset'; Ok (h :: r.1, r.2)
  end.

Section with_callback.
Context `{!PatternMatchCallback Implicator}.

(** The links of a declaration: [None] where the code returns. *)
Definition link_of_type (t : TLB) (h : Handle) (ty : N) : res (option (list Handle)) :=
  l ← as_link_ptr t (getAtom t h);
  match l with
  | None => Ok None
  | Some p => a ← on_heap t p; Ok (if (a_type a =? ty)%N then Some (outgoing a) else None)
  end.

(** The match of lists of handles given by links. *)
Definition PatternMatch_match (hvarbles hclauses hnegates : Handle) : ST PM unit :=
  vars ← reads (fun e => link_targets (pm_tlb e) hvarbles);
  clauses ← reads (fun e => link_targets (pm_tlb e) hclauses);
  match vars, clauses with
  | Some _, Some _ =>
      vars ← reads (fun e => link_of_type (pm_tlb e) hvarbles LIST_LINK);
      clauses ← reads (fun e => link_of_type (pm_tlb e) hclauses AND_LINK);
      match vars, clauses with
      | Some vars, Some clauses =>
          lnegates ← reads (fun e => link_targets (pm_tlb e) hnegates);
          negs ← reads (fun e => link_of_type (pm_tlb e) hnegates AND_LINK);
          if match lnegates, negs with Some _, None => true | _, _ => false end then mret tt
          else
            negs ← reads (fun e => validate (pm_tlb e) vars (default [] negs));
            clauses ← reads (fun e => validate (pm_tlb e) vars clauses);
            match_ (perform_search cs) vars clauses.1 negs.1
      | _, _ => mret tt
      end
  | _, _ => mret tt
  end.

Definition do_imply (himplication : Handle) (varlist : option (list Handle)) : ST PM Handle :=
  oset ← reads (fun e => link_of_type (pm_tlb e) himplication IMPLICATION_LINK);
  match oset with
  | Some [hclauses; implicand] =>
      lclauses ← reads (fun e => link_targets (pm_tlb e) hclauses);
      match lclauses with
      | None => mret UNDEFINED
      | Some cset =>
          clauses ← reads (fun e => a ← atom_at (pm_tlb e) hclauses;
            if (a_type a =? AND_LINK)%N then split_clauses (pm_tlb e) cset else Ok ([hclauses], []));
          vars ← reads (fun e => match varlist with
            | Some vars => Ok vars
            | None => find_vars (down_fuel (pm_tlb e)) (pm_tlb e) hclauses
            end);
          affirm ← reads (fun e => validate (pm_tlb e) vars clauses.1);
          negate ← reads (fun e => validate (pm_tlb e) vars clauses.2);
          _ ← on_pm (modst (fun c => mkImplicator (im_space c) implicand (result_list c) (type_restrictions c)));
          _ ← match_ (perform_search cs) vars affirm.1 negate.1;
          results ← asks (fun e => result_list (pmc e));
          ready ← asks atom_space;
          if ready : bool then on_pm (on_space (AS.addLink cs string_hash stores LIST_LINK results DEFAULT_TV))
          else lift Undef
      end
  | _ => mret UNDEFINED
  end.

(** *** Declarations of variables *)
Definition Declarations : Type := list Handle * VariableTypeMap.

(** [typemap.insert] keeps an entry that is there. *)
Definition declare (t : TLB) (varname : Handle) (ts : gset N) (d : Declarations) : Declarations :=
  (d.1 ++ [varname],
   match getAtom t varname with
   | Some p => match d.2 !! p with Some _ => d.2 | None => <[p := ts]> d.2 end
   | None => d.2
   end).

(** The type that a VariableTypeNode names. *)
Definition named_type (t : TLB) (h : Handle) : res N :=
  n ← as_node_ptr t (getAtom t h);
  p ← of_opt n; a ← on_heap t p; Ok (ClassServer.getType cs (getName a)).

(** The loop over a list of types: the set, or the error. *)
Fixpoint listed_types (t : TLB) (tset : list Handle) (ts : gset N) : res (gset N + Z) :=
  match tset with
  | [] => Ok (inl ts)
  | h :: tset' =>
      a ← atom_at t h;
      if negb (a_type a =? VARIABLE_TYPE_NODE)%N then Ok (inr 3%Z)
      else
        vt ← named_type t h;
        if (vt =? NOTYPE)%N then Ok (inr 5%Z) else listed_types t tset' ({[vt]} ∪ ts)
  end.

Definition get_vartype (t : TLB) (htypelink : Handle) (d : Declarations) : res (Z * Declarations) :=
  oset ← link_targets t htypelink;
  oset ← of_opt oset;
  match oset with
  | [varname; vartype] =>
      a ← atom_at t vartype;
      if (a_type a =? VARIABLE_TYPE_NODE)%N then
        vt ← named_type t vartype;
        if (vt =? NOTYPE)%N then Ok (4%Z, d) else Ok (0%Z, declare t varname {[vt]} d)
      else if (a_type a =? LIST_LINK)%N then
        tset ← link_targets t vartype;
        tset ← of_opt tset;
        r ← listed_types t tset ∅;
        match r with
        | inl ts => Ok (0%Z, declare t varname ts d)
        | inr err => Ok (err, d)
        end
      else Ok (2%Z, d)
  | _ => Ok (1%Z, d)
  end.

(** A list of declarations; [None] where the code gives up. *)
Fixpoint declare_all (t : TLB) (dset : list Handle) (d : Declarations) : res (option Declarations) :=
  match dset with
  | [] => Ok (Some d)
  | h :: dset' =>
      a ← atom_at t h;
      if (a_type a =? VARIABLE_NODE cs)%N then declare_all t dset' (d.1 ++ [h], d.2)
      else if (a_type a =? TYPED_VARIABLE_LINK)%N then
        r ← get_vartype t h d;
        if negb (r.1 =? 0)%Z then Ok None else declare_all t dset' r.2
      else Ok None
  end.

Definition declarations (t : TLB) (hdecls : Handle) : res (option Declarations) :=
  a ← atom_at t hdecls;
  if (a_type a =? VARIABLE_NODE cs)%N || isNodeObj a then Ok (Some ([hdecls], ∅))
  else if (a_type a =? TYPED_VARIABLE_LINK)%N then
    r ← get_vartype t hdecls ([], ∅);
    Ok (if negb (r.1 =? 0)%Z then None else Some r.2)
  else if (a_type a =? LIST_LINK)%N then declare_all t (outgoing a) ([], ∅)
  else Ok None.

Definition set_type_restrictions (tm : VariableTypeMap) (c : Implicator) : Implicator :=
  mkImplicator (im_space c) (implicand c) (result_list c) (Some tm).

Definition do_varscope (hvarscope : Handle) : ST PM Handle :=
  oset ← reads (fun e => link_of_type (pm_tlb e) hvarscope VARIABLE_SCOPE_LINK);
  match oset with
  | Some [hdecls; himpl] =>
      d ← reads (fun e => declarations (pm_tlb e) hdecls);
      match d with
      | None => mret UNDEFINED
      | Some d =>
          _ ← on_pm (modst (set_type_restrictions d.2));
          do_imply himpl (Some d.1)
      end
  | _ => mret UNDEFINED
  end.
End with_callback.

(** *** The entry points, each with an implicator of its own *)
Definition new_implicator : ST PM unit := modst (fun e => set_pmc (Implicator_new (pm_space e)) e).
Definition imply (himplication : Handle) : ST PM Handle :=
  _ ← new_implicator; do_imply (PatternMatchCallback0 := DefaultImplicator) himplication None.
Definition crisp_logic_imply (himplication : Handle) : ST PM Handle :=
  _ ← new_implicator; do_imply (PatternMatchCallback0 := CrispImplicator) himplication None.
Definition varscope (himplication : Handle) : ST PM Handle :=
  _ ← new_implicator; do_varscope (PatternMatchCallback0 := CrispImplicator) himplication.
Definition PatternMatch_new (s : SP) : PM := PatternMatchEngine_new (Implicator_new s).
End implication.
