(* ===== verification/Instantiate.v ===== *)
(** Instantiator of src/opencog/query/PatternMatch.cc: the copy of an expression
    that it adds to the atom space is the expression with the variables
    replaced, and nothing is lost. *)
From S2P Require Import Prelude ClassServer TruthValue Atom TLB HandleEntry Index IndexSpec AtomTable TableInv TableRemove TableAdd TableQuery TimeSpec SpaceServer AtomSpace SpaceInv SpaceRemove SpaceAdd Triples Query QueryCB QuerySpec QueryTree QueryMatch QueryLaws Implication.

(** ** Instances of an expression *)
Section instance.
Context `{SetOrder} (cs : ClassServer) (vm : Grounding).

(** Every variable node is replaced by its grounding, if it has one; links are
    copied with the type they have, unordered ones with sorted targets. *)
Inductive instance_of (t : TLB) : Handle -> Handle -> Prop :=
  | io_node p a :
      atomOf t p = Some a -> isNodeObj a = true ->
      instance_of t p (if negb (a_type a =? VARIABLE_NODE cs)%N then p else default p (vm !! p))
  | io_link p g a b gs :
      atomOf t p = Some a -> isLinkObj a = true -> instances_of t (outgoing a) gs ->
      atomOf t g = Some b -> isLinkObj b = true -> a_type b = a_type a ->
      outgoing b = gs \/ outgoing b = normal_outgoing cs (a_type a) gs -> instance_of t p g
with instances_of (t : TLB) : list Handle -> list Handle -> Prop :=
  | ios_nil : instances_of t [] []
  | ios_cons p g ps gs : instance_of t p g -> instances_of t ps gs -> instances_of t (p :: ps) (g :: gs).

Scheme instance_ind' := Minimality for instance_of Sort Prop
  with instances_ind' := Minimality for instances_of Sort Prop.
Combined Scheme instance_mut from instance_ind', instances_ind'.

(** The atoms stay, with their types, names and targets. *)
Definition keeps_atoms (t t' : TLB) : Prop := forall h a, atomOf t h = Some a ->
  exists a', atomOf t' h = Some a' /\ bone a' = bone a.

#[export] Instance keeps_atoms_preorder : PreOrder keeps_atoms.
Proof.
  split; [intros t h a Ha; eauto|]. intros t1 t2 t3 H1 H2 h a Ha.
  destruct (H1 h a Ha) as (b & Hb & E1). destruct (H2 h b Hb) as (c & Hc & E2). exists c. split; [done|congruence].
Qed.

Lemma keeps_fields t t' h a : keeps_atoms t t' -> atomOf t h = Some a ->
  exists a', atomOf t' h = Some a' /\ a_type a' = a_type a /\ outgoing a' = outgoing a /\
    isNodeObj a' = isNodeObj a /\ isLinkObj a' = isLinkObj a.
Proof.
  intros Hk Ha. destruct (Hk h a Ha) as (a' & Ha' & E). exists a'. split; [done|].
  apply bone_fields in E as (E1 & E2 & E3 & _). split_and!; try done.
  unfold isNodeObj in E3. by destruct (isLinkObj a'), (isLinkObj a).
Qed.

Lemma instance_keeps t t' : keeps_atoms t t' ->
  (forall p g, instance_of t p g -> instance_of t' p g) /\
  (forall ps gs, instances_of t ps gs -> instances_of t' ps gs).
Proof.
  intros Hk. apply instance_mut.
  - intros p a Ha Na. destruct (keeps_fields _ _ p a Hk Ha) as (a' & Ha' & <- & _ & Na' & _).
    apply io_node; congruence.
  - intros p g a b gs Ha La _ IH Hb Lb Ht Ho.
    destruct (keeps_fields _ _ p a Hk Ha) as (a' & Ha' & Ta & Oa & _ & La').
    destruct (keeps_fields _ _ g b Hk Hb) as (b' & Hb' & Tb & Ob & _ & Lb').
    eapply (io_link _ p g a' b' gs); congruence.
  - constructor.
  - intros. by constructor.
Qed.
End instance.

(** How many links a copy visits: a bound on the atoms that it adds. *)
Fixpoint copy_cost (fuel : nat) (t : TLB) (h : Handle) : N :=
  match fuel with
  | O => 0%N
  | S fuel' =>
      match atomOf t h with
      | Some a => if isLinkObj a then (1 + foldr N.add 0 (copy_cost fuel' t <$> outgoing a))%N else 0%N
      | None => 0%N
      end
  end.

Section instantiate.
Context `{SetOrder} (cs : ClassServer) (string_hash : string -> N).
Context {M : Type} `{SpaceMap M} (stores : positive -> BackingStore).
Context (apply_scheme : string -> Handle -> ST (AtomSpace M) Handle).
Context (Hty : types_ok cs).
Context (t0 : TLB) (vm : Grounding).
Hypothesis Hgr : graph_ok t0.
Implicit Types s : AtomSpace M.

Abbreviation walk := (walk_tree cs string_hash stores apply_scheme).
Abbreviation Instance t := (instance_of cs vm t).
Abbreviation Instances t := (instances_of cs vm t).

(** An expression without links that are executed or carry times. *)
Definition plain_link (a : Atom) : Prop :=
  a_type a <> EXECUTION_LINK cs /\ a_type a <> AS.AT_TIME_LINK cs.
Definition plain (h : Handle) : Prop :=
  forall k a, below t0 h k -> atomOf t0 k = Some a -> isLinkObj a = true -> plain_link a.
Definition grounds_live (h : Handle) : Prop :=
  forall v g, below t0 h v -> vm !! v = Some g -> is_Some (atomOf t0 g).

(** What a walk leaves behind. *)
Record walked s (S : server) s' (S' : server) (n : N) : Prop := {
  wk_ok : space_ok cs s' S';
  wk_keeps : keeps_atoms (AS.the_tlb s) (AS.the_tlb s');
  wk_wealth : same_wealth s s';
  wk_brk : (brk_uuid (AS.the_tlb s') <= brk_uuid (AS.the_tlb s) + n)%N
}.

Lemma walked_refl s S : space_ok cs s S -> walked s S s S 0.
Proof. intros Hok. split; [done|done|done|lia]. Qed.

Lemma walked_trans s1 S1 s2 S2 s3 S3 n m :
  walked s1 S1 s2 S2 n -> walked s2 S2 s3 S3 m -> walked s1 S1 s3 S3 (n + m).
Proof.
  intros [_ K1 [W1 W2] B1] [K K2 [W3 W4] B2]. split; [done|by etrans|split; congruence|lia].
Qed.

Definition keeps_plain s : Prop := keeps_atoms t0 (AS.the_tlb s).

Lemma live_in s h a : keeps_plain s -> atomOf t0 h = Some a ->
  exists b, atomOf (AS.the_tlb s) h = Some b /\ a_type b = a_type a /\ outgoing b = outgoing a /\
    isNodeObj b = isNodeObj a /\ isLinkObj b = isLinkObj a.
Proof. apply keeps_fields. Qed.

Definition walk_spec (fuel : nat) (f : Handle -> list Handle * bool -> ST (AtomSpace M) (list Handle * bool)) : Prop :=
  forall h m s S, space_ok cs s S -> keeps_plain s -> live t0 h -> depth_ok t0 fuel h -> plain h ->
    grounds_live h -> (brk_uuid (AS.the_tlb s) + copy_cost fuel t0 h <= UNDEFINED)%N ->
    exists g did s' S', f h m s = (Ok (m.1 ++ [g], did), s') /\ walked s S s' S' (copy_cost fuel t0 h) /\
      Instance (AS.the_tlb s') h g /\ live (AS.the_tlb s') g.

Lemma walk_each_ok fuel f l : walk_spec fuel f -> forall m s S,
  space_ok cs s S -> keeps_plain s ->
  (forall h, h ∈ l -> live t0 h /\ depth_ok t0 fuel h /\ plain h /\ grounds_live h) ->
  (brk_uuid (AS.the_tlb s) + foldr N.add 0%N (copy_cost fuel t0 <$> l) <= UNDEFINED)%N ->
  exists gs did s' S', walk_each f l m s = (Ok (m.1 ++ gs, did), s') /\
    walked s S s' S' (foldr N.add 0%N (copy_cost fuel t0 <$> l)) /\
    Instances (AS.the_tlb s') l gs /\ forall g, g ∈ gs -> live (AS.the_tlb s') g.
Proof.
  intros Hf. induction l as [|h l IH]; intros m s S Hok Hk Hl Hb; cbn [walk_each fmap list_fmap foldr] in *.
  { exists [], m.2, s, S. rewrite app_nil_r. split; [by destruct m|]. split; [by apply walked_refl|].
    split; [constructor|]. by intros g ?%not_elem_of_nil. }
  destruct (Hl h) as (L1 & L2 & L3 & L4); [left|].
  destruct (Hf h m s S Hok Hk L1 L2 L3 L4) as (g & did & s1 & S1 & E1 & W1 & I1 & V1); [lia|].
  rewrite (bind_ok _ _ _ _ _ E1).
  destruct (IH (m.1 ++ [g], did) s1 S1) as (gs & did2 & s2 & S2 & E2 & W2 & I2 & V2).
  - apply W1.
  - unfold keeps_plain in *. etrans; [exact Hk|apply W1].
  - intros x Hx. apply Hl. by right.
  - pose proof (wk_brk _ _ _ _ _ W1). lia.
  - exists (g :: gs), did2, s2, S2. split; [rewrite E2; simpl; by rewrite <- app_assoc|].
    split; [by eapply walked_trans|]. pose proof (wk_keeps _ _ _ _ _ W2) as K2. split.
    + constructor; [|done]. by apply (instance_keeps cs vm _ _ K2).
    + intros x [->|Hx]%elem_of_cons; [|by apply V2]. destruct V1 as [b Hb'].
      destruct (K2 g b Hb') as (b' & ? & _). by eexists.
Qed.

Lemma instances_length t ps gs : Instances t ps gs -> length gs = length ps.
Proof. induction 1; simpl; congruence. Qed.

(** The copy of a link, once its targets are copied. *)
Lemma copy_link_ok s S h a gs :
  space_ok cs s S -> atomOf (AS.the_tlb s) h = Some a -> isLinkObj a = true -> plain_link a ->
  Instances (AS.the_tlb s) (outgoing a) gs -> (forall g, g ∈ gs -> live (AS.the_tlb s) g) ->
  (brk_uuid (AS.the_tlb s) < UNDEFINED)%N ->
  exists g s' S', AS.addLink cs string_hash stores (a_type a) gs (a_truthValue a) s = (Ok g, s') /\
    walked s S s' S' 1 /\ Instance (AS.the_tlb s') h g /\ live (AS.the_tlb s') g.
Proof.
  intros Hok Ha La [_ Htime] Hi Hl Hmax. pose proof (so_table _ _ _ Hok) as Hwf.
  destruct (live_object cs _ Hwf h) as (a' & Ha' & Hat); [apply (elem_of_live cs); eauto|].
  unfold AS.the_tlb in Ha. simplify_eq. destruct (ok_class _ _ Hat) as [_ Hcl].
  destruct (addLink_ok cs string_hash Hty stores s S (a_type a) gs (a_truthValue a) Hok)
    as (o & g & s' & S' & E & Ho & [K W L (b & Hb & Ht & Hnk & Hlk) Old _ B]).
  - change (isAb cs (a_type a) (LINK cs) = isLinkObj a) in Hcl. congruence.
  - rewrite (instances_length _ _ _ Hi). exact (ok_arity _ _ Hat).
  - intros x Hx. apply (elem_of_live cs); [done|]. by apply Hl.
  - left. by apply (so_tv _ _ _ Hok h).
  - done.
  - intros Ht. by destruct Htime.
  - assert (Hk : keeps_atoms (AS.the_tlb s) (AS.the_tlb s')).
    { intros k c Hc. destruct (Old k c Hc) as (c' & ? & ? & _). eauto. }
    exists g, s', S'. split; [done|]. split; [by split|].
    split; [|by exists b]. destruct (keeps_fields _ _ h a Hk Ha) as (c & Hc & Tc & Oc & _ & Lc).
    apply (instance_keeps cs vm _ _ Hk) in Hi.
    change (Some o = link_key b) in Hlk. unfold link_key in Hlk. destruct (isLinkObj b) eqn:Lb; [|done].
    injection Hlk as ->. simpl in Ht.
    eapply (io_link cs vm _ h g c b gs); [exact Hc|congruence|by rewrite Oc|exact Hb|exact Lb|congruence|].
    by rewrite Tc.
Qed.

Lemma walk_tree_ok fuel : walk_spec fuel (walk fuel vm).
Proof.
  induction fuel as [|fuel IH]; intros h m s S Hok Hk Hl Hd Hp Hv Hb; [unfold depth_ok in Hd; lia|].
  cbn [walk_tree copy_cost] in *. destruct Hl as [a Ha]. rewrite Ha in Hb.
  destruct (live_in s h a Hk Ha) as (b & Hs & Tb & Ob & Nb & Lb).
  assert (Hread : forall s c, atomOf (AS.the_tlb s) h = Some c ->
    reads (fun s => atom_at (AS.the_tlb s) h) s = (Ok c, s)).
  { intros s' c Hc. unfold reads, atom_at. by rewrite Hc. }
  rewrite (bind_ok _ _ _ _ _ (Hread s b Hs)), Ha. unfold isNodeObj. rewrite Lb.
  destruct (isLinkObj a) eqn:La; cbn [negb].
  2: { exists (if negb (a_type b =? VARIABLE_NODE cs)%N then h else default h (vm !! h)), m.2, s, S.
       split; [by destruct (negb _)|]. split; [by apply walked_refl|].
       split; [apply io_node; [done|unfold isNodeObj; by rewrite Lb]|].
       destruct (negb _); [by exists b|]. destruct (vm !! h) as [g|] eqn:Eg; simpl; [|by exists b].
       destruct (Hv h g (rtc_refl _ _) Eg) as [c Hc]. destruct (live_in s g c Hk Hc) as (c' & ? & _). by eexists. }
  rewrite Ob. destruct (walk_each_ok fuel (walk fuel vm) (outgoing a) IH ([], m.2) s S Hok Hk)
    as (gs & did & s1 & S1 & E1 & W1 & I1 & V1); [|lia|].
  { intros x Hx. assert (Hc : child t0 h x) by by exists a.
    destruct (depth_child t0 Hgr fuel h x) as [L1 D1]; [by exists a|done|done|]. split_and!; [done|done|..].
    - intros k c Hxk. apply Hp. by eapply rtc_l.
    - intros v g Hxv. apply Hv. by eapply rtc_l. }
  rewrite (bind_ok _ _ _ _ _ E1). cbn [fst snd app].
  assert (Hpl : plain_link a) by (apply (Hp h a); [apply rtc_refl|done|done]).
  rewrite Tb, (proj2 (N.eqb_neq _ _)) by apply Hpl.
  assert (Hk1 : keeps_plain s1) by (unfold keeps_plain in *; etrans; [exact Hk|apply W1]).
  destruct (live_in s1 h a Hk1 Ha) as (c & Hc & Tc & Oc & _ & Lc).
  rewrite (bind_ok _ _ _ _ _ (Hread s1 c Hc)), <- Tc.
  pose proof (wk_brk _ _ _ _ _ W1) as HB.
  destruct (copy_link_ok s1 S1 h c gs) as (g & s2 & S2 & E2 & W2 & I2 & V2).
  - apply W1.
  - done.
  - congruence.
  - unfold plain_link in *. by rewrite Tc.
  - by rewrite Oc.
  - done.
  - lia.
  - rewrite (bind_ok _ _ _ _ _ E2). exists g, false, s2, S2. split; [done|]. split; [|done].
    rewrite N.add_comm. by eapply walked_trans.
Qed.

Lemma instantiate_ok h s S :
  space_ok cs s S -> AS.the_tlb s = t0 -> live t0 h -> plain h -> grounds_live h ->
  (brk_uuid t0 + copy_cost (down_fuel t0) t0 h <= UNDEFINED)%N ->
  exists g s' S', instantiate cs string_hash stores apply_scheme h vm s = (Ok g, s') /\
    walked s S s' S' (copy_cost (down_fuel t0) t0 h) /\ Instance (AS.the_tlb s') h g /\ live (AS.the_tlb s') g.
Proof.
  intros Hok Ht Hl Hp Hv Hb. unfold instantiate.
  assert (Hdef : (h =? UNDEFINED)%N = false).
  { apply N.eqb_neq. intros ->. destruct Hl as [a Ha]. by rewrite UNDEFINED_dead in Ha. }
  rewrite Hdef. unfold asks. erewrite bind_ok by done. rewrite Ht.
  destruct (walk_tree_ok (down_fuel t0) h ([], false) s S) as (g & did & s' & S' & E & W & Hi & Hg); try done.
  - unfold keeps_plain. by rewrite Ht.
  - by apply depth_full.
  - by rewrite Ht.
  - exists g, s', S'. split; [by rewrite (bind_ok _ _ _ _ _ E)|done].
Qed.
End instantiate.
