(* ===== verification/ImplicationDemo.v ===== *)
(** A small atom space with implications to run. *)
From S2P Require Import Prelude ClassServer TruthValue AttentionValue Atom TLB HandleEntry Index IndexSpec AtomTable TableInv TableAdd TableProps Temporal TimeSpec SpaceServer AtomSpace SpaceInv SpaceAdd SpaceRequests SpaceDemo Query QueryCB Implication.
#[local] Open Scope string_scope.
#[local] Open Scope list_scope.
#[local] Existing Instance elements_order.

(** The nodes 1 to 5 are cat, dog, animal, fur and a variable. *)
Definition rule_requests : list request :=
  [AddNode (ty "ConceptNode") "cat" NullTV; AddNode (ty "ConceptNode") "dog" NullTV;
   AddNode (ty "ConceptNode") "animal" NullTV; AddNode (ty "ConceptNode") "fur" NullTV;
   AddNode (ty "VariableNode") "$x" NullTV;
   (* 6 to 8: cats and dogs are animals, cats have fur *)
   AddLink (ty "InheritanceLink") [1; 3]%N TRUE_TV; AddLink (ty "InheritanceLink") [2; 3]%N TRUE_TV;
   AddLink (ty "ListLink") [1; 4]%N TRUE_TV;
   (* 9 to 14: the animals that have fur *)
   AddLink (ty "InheritanceLink") [5; 3]%N NullTV; AddLink (ty "ListLink") [5; 4]%N NullTV;
   AddLink (ty "AndLink") [9; 10]%N NullTV; AddLink (ty "SubsetLink") [5; 4]%N NullTV;
   AddLink (ty "ImplicationLink") [11; 12]%N NullTV; AddLink (ty "VariableScopeLink") [5; 13]%N NullTV;
   (* 15 to 18: the animals that do not *)
   AddLink (ty "NotLink") [10]%N NullTV; AddLink (ty "AndLink") [9; 15]%N NullTV;
   AddLink (ty "ImplicationLink") [16; 12]%N NullTV; AddLink (ty "VariableScopeLink") [5; 17]%N NullTV;
   (* 19 to 22: a typed variable, and one of an unknown type *)
   AddNode (ty "VariableTypeNode") "ConceptNode" NullTV; AddLink (ty "TypedVariableLink") [5; 19]%N NullTV;
   AddNode (ty "VariableTypeNode") "NoSuchNode" NullTV; AddLink (ty "TypedVariableLink") [5; 21]%N NullTV].
Definition rule_space : AtomSpace object_map := fold_left (fun s r => answer r s) rule_requests demo_new.

Lemma rule_is_reachable : demo_reachable rule_space.
Proof.
  unfold rule_space, rule_requests, fold_left.
  repeat (apply reach_answer; [|solve [admissible_here]]). apply reach_new.
Qed.

Definition rule_tlb : TLB := Eval vm_compute in AS.the_tlb rule_space.
Lemma rule_tlb_eq : AS.the_tlb rule_space = rule_tlb.
Proof. vm_cast_no_check (eq_refl rule_tlb). Qed.

Lemma link_here t h o :
  (fun a => (isLinkObj a, outgoing a)) <$> atomOf t h = Some (true, o) ->
  exists a, atomOf t h = Some a /\ isLinkObj a = true /\ outgoing a = o.
Proof. destruct (atomOf t h) as [a|]; [|done]. intros [= La Ho]. eauto. Qed.

(** No schemes are run. *)
Definition no_scheme (_ : string) (_ : Handle) : ST (AtomSpace object_map) Handle := mret UNDEFINED.

Abbreviation Matcher := (Engine (Implicator (M := object_map))).
Definition rules : Matcher := PatternMatch_new rule_space.
(** A new matcher evaluates the rules one after the other. *)
Definition evaluate (hs : list Handle) : res Handle * Matcher :=
  (_ ← set_atomspace built_in no_hash no_stores;
   (fix each hs r := match hs with
    | [] => mret r
    | h :: hs' => r ← varscope built_in no_hash no_stores no_scheme h; each hs' r
    end) hs UNDEFINED) rules.
(** The targets of the links in the list that is returned. *)
Definition conclusions (r : res Handle * Matcher) : list (list Handle) :=
  match r.1 with
  | Ok gl => (fun g => default [] (outgoing <$> atomOf (pm_tlb r.2) g)) <$>
               default [] (outgoing <$> atomOf (pm_tlb r.2) gl)
  | _ => []
  end.
