(* ===== verification/ImplicationProps.v ===== *)
(** What src/opencog/query/PatternMatch.cc promises: the implicand is copied
    faithfully, the variables and their types are read as they are declared; and
    where it falls short. *)
From Stdlib Require Import SpecFloat.
From S2P Require Import Prelude ClassServer TruthValue AttentionValue Atom TLB HandleEntry Index IndexSpec AtomTable TableInv TableRemove TableAdd TableProps TableQuery Temporal TimeSpec SpaceServer AtomSpace SpaceInv SpaceRemove SpaceAdd SpaceValue SpaceRequests SpaceDemo Triples Query QueryCB QuerySpec QueryTree QueryMatch QueryLaws QueryDemo Implication Instantiate ImplicationDemo.

(** ** Reading the pattern *)
Section reading.
Context `{SetOrder} (cs : ClassServer) (t : TLB).
Hypothesis Hgr : graph_ok t.

Definition is_variable (v : Handle) : Prop :=
  exists a, atomOf t v = Some a /\ isNodeObj a = true /\ a_type a = VARIABLE_NODE cs.

Lemma rfold_concat (f : Handle -> res (list Handle)) (R : Handle -> Handle -> Prop) l : forall acc,
  (forall x, x ∈ l -> exists vs, f x = Ok vs /\ forall v, v ∈ vs <-> R x v) ->
  exists vs, rfold (fun varlist x => vs ← f x; Ok (varlist ++ vs)) acc l = Ok (acc ++ vs) /\
    forall v, v ∈ vs <-> exists x, x ∈ l /\ R x v.
Proof.
  induction l as [|x l IH]; intros acc Hf; cbn [rfold].
  { exists []. split; [by rewrite app_nil_r|]. intros v. rewrite elem_of_nil. split; [done|].
    by intros (x & ?%not_elem_of_nil & _). }
  destruct (Hf x) as (vs & -> & Hv); [left|]. cbn [mbind res_bind].
  destruct (IH (acc ++ vs)) as (ws & -> & Hw); [intros y Hy; apply Hf; by right|].
  exists (vs ++ ws). split; [by rewrite app_assoc|]. intros v. rewrite elem_of_app, Hv, Hw.
  setoid_rewrite elem_of_cons. split.
  - intros [?|(y & ? & ?)]; eauto.
  - intros (y & [->|?] & ?); eauto.
Qed.

Lemma find_vars_ok fuel : forall h, live t h -> depth_ok t fuel h ->
  exists vs, find_vars cs fuel t h = Ok vs /\ forall v, v ∈ vs <-> below t h v /\ is_variable v.
Proof.
  induction fuel as [|fuel IH]; intros h Hl Hf; [unfold depth_ok in Hf; lia|]. cbn [find_vars].
  destruct Hl as [a Ha]. rewrite (as_node_ptr_eq t h a Ha). cbn [mbind res_bind].
  apply atomOf_Some in Ha as Hpa. destruct Hpa as (p & Hp & Hpa). unfold getAtom. rewrite Hp.
  unfold isNodeObj. destruct (isLinkObj a) eqn:La; cbn [negb].
  - rewrite (link_targets_eq t h a Ha), La. cbn [mbind res_bind default id].
    destruct (rfold_concat (find_vars cs fuel t) (fun x v => below t x v /\ is_variable v) (outgoing a) [])
      as (vs & -> & Hv).
    { intros x Hx. destruct (depth_child t Hgr fuel h x) as [Hlx Hfx]; [by exists a|by exists a|done|]. by apply IH. }
    exists vs. split; [done|]. intros v. rewrite Hv, (below_link t h a v Ha La). split.
    + intros (x & Hx & Hb & Hi). split; [|done]. right. eauto.
    + intros [[<-|(x & Hx & Hb)] Hi]; [|eauto].
      destruct Hi as (b & Hb & Nb & _). unfold isNodeObj in Nb. simplify_eq. by rewrite La in Nb.
  - unfold type_of_ptr, on_heap. rewrite Hpa. cbn [of_opt mbind res_bind].
    eexists. split; [done|]. intros v. rewrite (below_node t h a v Ha La).
    destruct (N.eqb_spec (a_type a) (VARIABLE_NODE cs)) as [Et|Et].
    + rewrite list_elem_of_singleton. split; [|by intros [-> _]]. intros ->. split; [done|].
      exists a. unfold isNodeObj. by rewrite La.
    + rewrite elem_of_nil. split; [done|]. intros [<- (b & Hb & _ & Tb)]. congruence.
Qed.

(** *** Types that variables are restricted to *)

(** Type nodes are nodes and lists are links. *)
Definition classed : Prop := forall h a, atomOf t h = Some a ->
  (a_type a = VARIABLE_TYPE_NODE cs -> isNodeObj a = true) /\ (a_type a = LIST_LINK cs -> isLinkObj a = true).
Hypothesis Hcl : classed.

(** The node [h] names the type [ty]. *)
Definition names (h : Handle) (ty : N) : Prop := exists a,
  atomOf t h = Some a /\ a_type a = VARIABLE_TYPE_NODE cs /\ ClassServer.getType cs (getName a) = ty /\ ty <> NOTYPE.
(** [h] is the name of a type or a list of such names. *)
Definition allows (h : Handle) (ts : gset N) : Prop :=
  (exists ty, names h ty /\ ts = {[ty]}) \/
  (exists a tys, atomOf t h = Some a /\ a_type a = LIST_LINK cs /\ a_type a <> VARIABLE_TYPE_NODE cs /\
     Forall2 names (outgoing a) tys /\ ts = list_to_set tys).

Lemma named_type_eq h a : atomOf t h = Some a -> isNodeObj a = true ->
  named_type cs t h = Ok (ClassServer.getType cs (getName a)).
Proof.
  intros Ha Na. unfold named_type. rewrite (as_node_ptr_eq t h a Ha), Na. cbn [mbind res_bind].
  apply atomOf_Some in Ha as (p & Hp & Hpa). unfold getAtom. rewrite Hp. cbn [of_opt mbind res_bind].
  unfold on_heap. by rewrite Hpa.
Qed.

Lemma listed_types_ok l : forall ts, (forall x, x ∈ l -> live t x) ->
  (exists tys, Forall2 names l tys /\ listed_types cs t l ts = Ok (inl (list_to_set tys ∪ ts))) \/
  (~ (exists tys, Forall2 names l tys) /\ exists err, err <> 0%Z /\ listed_types cs t l ts = Ok (inr err)).
Proof.
  induction l as [|h l IH]; intros ts Hl; cbn [listed_types].
  { left. exists []. split; [done|]. f_equal. f_equal. set_solver. }
  destruct (Hl h) as [a Ha]; [left|]. unfold atom_at. rewrite Ha. cbn [of_opt mbind res_bind].
  assert (Hno : (forall ty, ~ names h ty) -> ~ exists tys, Forall2 names (h :: l) tys).
  { intros Hn (tys & HF). apply Forall2_cons_inv_l in HF as (ty & tys' & Hty & _). by apply (Hn ty). }
  destruct (N.eqb_spec (a_type a) (VARIABLE_TYPE_NODE cs)) as [Et|Et]; cbn [negb].
  2: { right. split; [|by exists 3%Z]. apply Hno. intros ty (b & Hb & Tb & _). congruence. }
  rewrite (named_type_eq h a Ha) by by apply (Hcl h a Ha). cbn [mbind res_bind].
  destruct (N.eqb_spec (ClassServer.getType cs (getName a)) NOTYPE) as [En|En].
  { right. split; [|by exists 5%Z]. apply Hno. intros ty (b & Hb & _ & <- & Hn). congruence. }
  destruct (IH ({[ClassServer.getType cs (getName a)]} ∪ ts)) as [(tys & HF & ->)|[Hn ?]];
    [intros x Hx; apply Hl; by right|left|right].
  - exists (ClassServer.getType cs (getName a) :: tys). split; [constructor; [by exists a|done]|].
    f_equal. f_equal. set_solver.
  - split; [|done]. intros (tys & HF). apply Forall2_cons_inv_l in HF as (ty & tys' & _ & HF & _). eauto.
Qed.
End reading.

Section declarations.
Context `{SetOrder} (cs : ClassServer) (t : TLB).

(** The variables of an implication without declarations: exactly the variable
    nodes below its predicate. *)
Theorem find_vars_correct h :
  graph_ok t -> is_Some (atomOf t h) ->
  exists vs, find_vars cs (down_fuel t) t h = Ok vs /\ forall v, v ∈ vs <-> below t h v /\ is_variable cs t v.
Proof. intros Hg Hl. apply find_vars_ok; [done..|by apply depth_full]. Qed.

(** C30. A typed variable is declared when its link has two targets, of which the
    second is the name of a known type or a list of such names: the variable is
    then restricted to those types, unless it was declared before. In every
    other case there is an error code and nothing is declared. *)
Theorem get_vartype_correct h a d :
  graph_ok t -> classed cs t -> atomOf t h = Some a -> isLinkObj a = true ->
  (exists v ty ts, outgoing a = [v; ty] /\ allows cs t ty ts /\ get_vartype cs t h d = Ok (0%Z, declare t v ts d)) \/
  (~ (exists v ty ts, outgoing a = [v; ty] /\ allows cs t ty ts) /\
   exists code, code <> 0%Z /\ get_vartype cs t h d = Ok (code, d)).
Proof.
  intros Hgr Hcl Ha La. unfold get_vartype. rewrite (link_targets_eq t h a Ha), La. cbn [mbind res_bind of_opt].
  destruct (outgoing a) as [|v [|ty [|? ?]]] eqn:Ho.
  1-2, 4: right; split; [by intros (? & ? & ? & ? & _)|by exists 1%Z].
  assert (Hlive : is_Some (atomOf t ty)).
  { apply (gr_down _ Hgr h a ty Ha). rewrite Ho. right. left. }
  destruct Hlive as [b Hb]. unfold atom_at. rewrite Hb. cbn [of_opt mbind res_bind].
  assert (Hno : (forall ts, ~ allows cs t ty ts) ->
    ~ exists v0 ty0 ts, [v; ty] = [v0; ty0] /\ allows cs t ty0 ts).
  { intros Hn (v0 & ty0 & ts & [= <- <-] & Hal). by apply (Hn ts). }
  destruct (N.eqb_spec (a_type b) (VARIABLE_TYPE_NODE cs)) as [Et|Et].
  - rewrite (named_type_eq cs t ty b Hb) by by apply (Hcl ty b Hb). cbn [mbind res_bind].
    destruct (N.eqb_spec (ClassServer.getType cs (getName b)) NOTYPE) as [En|En]; [right|left].
    + split; [|by exists 4%Z]. apply Hno. intros ts [(n & (c & Hc & _ & <- & Hn) & _)|(c & tys & Hc & _ & Hn & _)]; congruence.
    + eexists v, ty, _. split; [done|]. split; [|done]. left. eexists. split; [|done]. by exists b.
  - destruct (N.eqb_spec (a_type b) (LIST_LINK cs)) as [El|El].
    + rewrite (link_targets_eq t ty b Hb), (proj2 (Hcl ty b Hb) El). cbn [mbind res_bind of_opt].
      destruct (listed_types_ok cs t Hgr Hcl (outgoing b) ∅) as [(tys & HF & ->)|[Hn (err & He & ->)]]; cbn [mbind res_bind].
      * intros x Hx. by apply (gr_down _ Hgr ty b x Hb).
      * left. exists v, ty, (list_to_set tys ∪ ∅). split; [done|]. split; [|done]. right. exists b, tys.
        do 4 (split; [done|]). set_solver.
      * right. split; [|by exists err]. apply Hno.
        intros ts [(n & (c & Hc & Tc & _) & _)|(c & tys & Hc & _ & _ & HF & _)]; [congruence|]. apply Hn. exists tys. congruence.
    + right. split; [|by exists 2%Z]. apply Hno.
      intros ts [(n & (c & Hc & Tc & _) & _)|(c & tys & Hc & Tc & _)]; congruence.
Qed.
End declarations.

Section solutions.
Context `{SetOrder} (cs : ClassServer) (string_hash : string -> N).
Context {M : Type} `{SpaceMapLaws M} (stores : positive -> BackingStore).
Context (apply_scheme : string -> Handle -> ST (AtomSpace M) Handle).
Context (Hty : types_ok cs).
Implicit Types c : Implicator (M := M).

Abbreviation tlb_of c := (AS.the_tlb (im_space c)).

(** The implicand can be copied under the grounding [vm]. *)
Record copyable c (vm : Grounding) : Prop := {
  cp_live : is_Some (atomOf (tlb_of c) (implicand c));
  cp_plain : plain cs (tlb_of c) (implicand c);
  cp_grounds : grounds_live (tlb_of c) vm (implicand c);
  cp_room : (brk_uuid (tlb_of c) +
    copy_cost (down_fuel (tlb_of c)) (tlb_of c) (implicand c) <= UNDEFINED)%N
}.

(** What a solution adds. *)
Record concludes c (vm : Grounding) c' (g : Handle) : Prop := {
  cc_results : result_list c' = result_list c ++ [g];
  cc_instance : instance_of cs vm (tlb_of c') (implicand c) g;
  cc_keeps : keeps_atoms (tlb_of c) (tlb_of c');
  cc_space : exists S, space_ok cs (im_space c') S;
  cc_wealth : same_wealth (im_space c) (im_space c')
}.

Lemma solution_copy sti lti c vm :
  reachable cs string_hash stores sti lti (im_space c) -> copyable c vm ->
  exists g s' S', on_space (instantiate cs string_hash stores apply_scheme (implicand c) vm) c = (Ok g, set_space s' c) /\
    space_ok cs s' S' /\ instance_of cs vm (AS.the_tlb s') (implicand c) g /\ is_Some (atomOf (AS.the_tlb s') g) /\
    keeps_atoms (tlb_of c) (AS.the_tlb s') /\ same_wealth (im_space c) s'.
Proof.
  intros Hr [Hl Hp Hg Hb]. destruct (reachable_ok cs string_hash stores Hty sti lti _ Hr) as ([S Hok] & _).
  destruct (instantiate_ok cs string_hash stores apply_scheme Hty (tlb_of c) vm (table_graph _ _ (so_table _ _ _ Hok))
    (implicand c) (im_space c) S Hok eq_refl Hl Hp Hg Hb) as (g & s' & S' & E & [K Kp W _] & Hi & Hlive).
  exists g, s', S'. split; [|done]. unfold on_space. by rewrite E.
Qed.

(** A solution of an implication, with every search: the implicand is copied
    with its variables replaced by their groundings, the copy becomes a result,
    all other atoms stay, and the atom space remains consistent. *)
Theorem Implicator_solution_correct sti lti c cg vm :
  reachable cs string_hash stores sti lti (im_space c) -> copyable c vm ->
  exists g c', Implicator_solution cs string_hash stores apply_scheme cg vm c = (Ok false, c') /\
    concludes c vm c' g.
Proof.
  intros Hr Hc. destruct (solution_copy sti lti c vm Hr Hc) as (g & s' & S' & E & Hok & Hi & Hl & Hk & W).
  exists g, (push_result g (set_space s' c)). split; [|split; eauto].
  unfold Implicator_solution. unfold asks at 1. erewrite bind_ok by done. rewrite (bind_ok _ _ _ _ _ E).
  unfold asks. erewrite bind_ok by done.
  assert (Hv : AS.isValid g s' = true).
  { rewrite (valid_read cs s' g (so_table _ _ _ Hok)). by apply bool_decide_true. }
  simpl. rewrite Hv. done.
Qed.

(** C5. With crisp logic the result is also made true with full confidence,
    whatever truth value it had. *)
Theorem CrispImplicator_solution_correct sti lti c cg vm :
  reachable cs string_hash stores sti lti (im_space c) -> copyable c vm ->
  exists g c' a, CrispImplicator_solution cs string_hash stores apply_scheme cg vm c = (Ok false, c') /\
    concludes c vm c' g /\ atomOf (tlb_of c') g = Some a /\ a_truthValue a = crisp_true.
Proof.
  intros Hr Hc. destruct (solution_copy sti lti c vm Hr Hc) as (g & s' & S' & E & Hok & Hi & [a Ha] & Hk & W).
  destruct (put_tv_ok cs s' S' g a crisp_true Hok Ha) as (s2 & E2 & [K W2 V At]); [by vm_compute|].
  assert (Hdef : (g =? UNDEFINED)%N = false).
  { apply N.eqb_neq. intros ->. pose proof (UNDEFINED_dead _ (table_graph _ _ (so_table _ _ _ Hok))) as Hu.
    unfold AS.the_tlb in Ha. congruence. }
  assert (Hk2 : keeps_atoms (AS.the_tlb s') (AS.the_tlb s2)).
  { intros k b Hb. rewrite At. case_decide as Hd; [|eauto]. subst k. simplify_eq. eexists. split; [done|]. done. }
  exists g, (set_space s2 (push_result g (set_space s' c))), (set_tv (cl crisp_true) a). split; [|split; [|split]].
  - unfold CrispImplicator_solution. unfold asks at 1. erewrite bind_ok by done. rewrite (bind_ok _ _ _ _ _ E), Hdef.
    cbn [negb]. unfold modst. erewrite bind_ok by done. erewrite bind_ok; [done|].
    unfold on_space. simpl. by rewrite E2.
  - split; [done| |simpl; by etrans|by exists S'|].
    + simpl. by apply (instance_keeps cs vm _ _ Hk2).
    + simpl. destruct W, W2. split; congruence.
  - simpl. rewrite At. by rewrite decide_True.
  - by vm_compute.
Qed.
End solutions.

#[local] Existing Instance elements_order.

(** A pattern matcher that is used again keeps the negated clauses of the
    earlier patterns: the animals with fur are found by a new matcher, but after
    a rule about animals without fur the same matcher treats having fur as a
    negation in both. *)
Theorem old_negations_linger :
  conclusions (evaluate [14]%N) = [[1; 4]]%N /\ conclusions (evaluate [18]%N) = [[2; 4]]%N /\
  conclusions (evaluate [18; 14]%N) = [[2; 4]]%N.
Proof. by vm_compute. Qed.

(** ** Witnesses *)
Lemma rule_graph : graph_ok rule_tlb.
Proof.
  destruct (reachable_ok built_in no_hash no_stores built_in_ok 10000 5000 _ rule_is_reachable) as ([S Hok] & _).
  rewrite <- rule_tlb_eq. exact (table_graph _ _ (so_table _ _ _ Hok)).
Qed.

Definition classed_bool (cs : ClassServer) (t : TLB) : bool :=
  forallb (fun h => match atomOf t h with
    | Some a => implb (a_type a =? VARIABLE_TYPE_NODE cs)%N (isNodeObj a) &&
                implb (a_type a =? LIST_LINK cs)%N (isLinkObj a)
    | None => true
    end) (elements (dom (handle_map t))).

Lemma classed_check cs t : graph_ok t -> classed_bool cs t = true -> classed cs t.
Proof.
  unfold classed_bool. rewrite forallb_forall. intros Hg Hall h a Ha. specialize (Hall h).
  rewrite <- list_elem_of_In, elem_of_elements, elem_of_dom, Ha in Hall.
  assert (Hh : is_Some (handle_map t !! h)) by (apply (live_ptr t h Hg); eauto).
  apply andb_true_iff in Hall as [Hn Hl]; [|done].
  split; intros E; rewrite (proj2 (N.eqb_eq _ _) E) in *; done.
Qed.

Lemma find_vars_correct_witness : below rule_tlb 11 5 /\ is_variable built_in rule_tlb 5.
Proof.
  destruct (find_vars_correct built_in rule_tlb 11 rule_graph) as (vs & E & Hv).
  - eexists. by vm_compute.
  - assert (E' : find_vars built_in (down_fuel rule_tlb) rule_tlb 11 = Ok [5; 5]%N) by by vm_compute.
    rewrite E in E'. injection E' as ->. apply Hv. left.
Defined.

Lemma get_vartype_correct_witness :
  (exists d, get_vartype built_in rule_tlb 20 ([], ∅) = Ok (0%Z, d) /\ d.1 = [5%N]) /\
  forall ts, ~ allows built_in rule_tlb 21 ts.
Proof.
  assert (Hcl : classed built_in rule_tlb) by (apply classed_check; [exact rule_graph|by vm_compute]).
  destruct (link_here rule_tlb 20 [5; 19]%N) as (a & Ha & La & Oa); [by vm_compute|].
  destruct (link_here rule_tlb 22 [5; 21]%N) as (b & Hb & Lb & Ob); [by vm_compute|]. split.
  - destruct (get_vartype_correct built_in rule_tlb 20 a ([], ∅) rule_graph Hcl Ha La)
      as [(v & t & ts & Ho & _ & E)|(_ & code & Hne & E)].
    + eexists. split; [exact E|]. rewrite Oa in Ho. by injection Ho as <- _.
    + assert (E' : match get_vartype built_in rule_tlb 20 ([], ∅) with Ok r => r.1 | _ => 9%Z end = 0%Z) by by vm_compute.
      by rewrite E in E'.
  - intros ts Hal.
    destruct (get_vartype_correct built_in rule_tlb 22 b ([], ∅) rule_graph Hcl Hb Lb)
      as [(v & t & ts' & _ & _ & E)|(Hn & _)].
    + assert (E' : match get_vartype built_in rule_tlb 22 ([], ∅) with Ok r => r.1 | _ => 9%Z end = 4%Z) by by vm_compute.
      by rewrite E in E'.
    + apply Hn. by exists 5%N, 21%N, ts.
Defined.

(** The implicand of a rule, and the cat as the solution. *)
Definition cat_search : Implicator (M := object_map) := mkImplicator rule_space 12 [] None.
Definition cat_found : Grounding := {[5%N := 1%N]}.

Lemma cat_copyable : copyable built_in cat_search cat_found.
Proof.
  destruct (link_here rule_tlb 12 [5; 4]%N) as (a & Ha & La & Oa); [by vm_compute|].
  assert (Hb : forall k, below rule_tlb 12 k -> k = 12%N \/ k = 5%N \/ k = 4%N).
  { intros k Hk. apply (below_link rule_tlb 12 a k Ha La) in Hk as [<-|(x & Hx & Hk)]; [by left|right].
    rewrite Oa in Hx. apply elem_of_cons in Hx as [->|Hx%list_elem_of_singleton]; [left|right; subst x].
    all: assert (Hn : forall h, isLinkObj <$> atomOf rule_tlb h = Some false -> below rule_tlb h k -> k = h).
    all: try (intros h Hh Hk'; destruct (atomOf rule_tlb h) as [b|] eqn:Eb; [|done];
              injection Hh as Hh; symmetry; by apply (below_node rule_tlb h b k Eb Hh)).
    all: apply Hn; [by vm_compute|done]. }
  split; change (implicand cat_search) with 12%N; change (im_space cat_search) with rule_space; rewrite rule_tlb_eq.
  - by exists a.
  - intros k b Hk Hkb Lb. destruct (Hb k Hk) as [ -> | [ -> | -> ] ].
    + rewrite Ha in Hkb. injection Hkb as <-.
      assert (Ht : a_type <$> atomOf rule_tlb 12 = Some (ty "SubsetLink")) by by vm_compute.
      rewrite Ha in Ht. injection Ht as Ht. split; rewrite Ht; by vm_compute.
    + assert (Hn : isLinkObj <$> atomOf rule_tlb 5 = Some false) by by vm_compute.
      rewrite Hkb in Hn. injection Hn as Hn. congruence.
    + assert (Hn : isLinkObj <$> atomOf rule_tlb 4 = Some false) by by vm_compute.
      rewrite Hkb in Hn. injection Hn as Hn. congruence.
  - intros v g _ Hg. unfold cat_found in Hg. apply lookup_singleton_Some in Hg as [_ <-]. eexists. by vm_compute.
  - by vm_compute.
Qed.

Lemma Implicator_solution_correct_witness :
  exists g c', Implicator_solution built_in no_hash no_stores no_scheme ∅ cat_found cat_search = (Ok false, c') /\
    result_list c' = [g] /\ instance_of built_in cat_found (AS.the_tlb (im_space c')) 12 g.
Proof.
  destruct (Implicator_solution_correct built_in no_hash no_stores no_scheme built_in_ok 10000 5000 cat_search ∅
              cat_found rule_is_reachable cat_copyable) as (g & c' & E & [Hr Hi _ _ _]).
  exists g, c'. split; [exact E|]. split; [exact Hr|exact Hi].
Defined.

Lemma CrispImplicator_solution_correct_witness :
  exists g c' a, CrispImplicator_solution built_in no_hash no_stores no_scheme ∅ cat_found cat_search = (Ok false, c') /\
    atomOf (AS.the_tlb (im_space c')) g = Some a /\ a_truthValue a = crisp_true.
Proof.
  destruct (CrispImplicator_solution_correct built_in no_hash no_stores no_scheme built_in_ok 10000 5000 cat_search ∅
              cat_found rule_is_reachable cat_copyable) as (g & c' & a & E & _ & Ha & Ht).
  exists g, c', a. split; [exact E|]. split; [exact Ha|exact Ht].
Defined.
