(* ===== verification/Combo.v ===== *)
(** Combo programs: src/opencog/comboreduct/combo. The trees of
    src/opencog/util/tree.h, the vertices and their order (vertex.h), the output
    types of vertices (type_tree.cc, descriptions.h), evaluation (eval.h) and
    truth tables (table.h, table.cc).

    Actions, perceptions and procedure calls are evaluated by an [Evaluator], an
    abstract class. [eval_throws] is modelled with the default unifier of
    variables, which is empty. The index of an argument is an unbounded integer
    here; only its negation is computed. *)
From Stdlib Require Import SpecFloat.
From S2P Require Import Prelude.
From S2P Require TruthValue.
#[export] Existing Instance TruthValue.float_eq_dec.

#[export] Instance res_fmap : FMap res := fun A B f m => m ≫= fun a => Ok (f a).

(** ** Trees *)
Inductive tree (T : Type) : Type := Node (data : T) (ch : list (tree T)).
Arguments Node {T} data ch.

Definition root {T} (t : tree T) : T := let 'Node v _ := t in v.
Definition children {T} (t : tree T) : list (tree T) := let 'Node _ ch := t in ch.

Lemma tree_ind' {T} (P : tree T -> Prop) :
  (forall v ch, Forall P ch -> P (Node v ch)) -> forall t, P t.
Proof.
  intros H. fix IH 1. intros [v ch]. apply H.
  induction ch as [|c ch IHch]; constructor; [apply IH | apply IHch].
Qed.

(** [number of nodes]: [tree::size]. *)
Fixpoint tree_size {T} (t : tree T) : nat :=
  let 'Node _ ch := t in S (foldr (fun c n => tree_size c + n) 0 ch).

(** ** Vertices *)
Module id.
Inductive builtin : Set :=
  | null_vertex | logical_true | logical_false | logical_and | logical_or | logical_not
  | contin_if | boolean_if | plus | times | div | exp | log | sin | greater_than_zero
  | impulse | rand.
Inductive wild_card : Set := asterisk.
Inductive action : Set :=
  | sequential_and | sequential_or | sequential_exec | action_not | action_if
  | boolean_action_if | contin_action_if | action_action_if | action_success
  | action_failure | action_while | boolean_while | return_success | repeat_n.
Inductive ann_id : Set := ann | ann_node | ann_input.
(** [argument_type n] is the integer [argument_type + n]. *)
Inductive type_node : Set :=
  | lambda_type | application_type | union_type | arg_list_type
  | boolean_type | contin_type | action_result_type | definite_object_type
  | action_definite_object_type | indefinite_object_type | message_type
  | action_symbol_type | wild_card_type | ann_type | unknown_type | ill_formed_type
  | argument_type (n : N).

#[export] Instance builtin_eq_dec : EqDecision builtin.
Proof. solve_decision. Defined.
#[export] Instance wild_card_eq_dec : EqDecision wild_card.
Proof. solve_decision. Defined.
#[export] Instance action_eq_dec : EqDecision action.
Proof. solve_decision. Defined.
#[export] Instance ann_id_eq_dec : EqDecision ann_id.
Proof. solve_decision. Defined.
#[export] Instance type_node_eq_dec : EqDecision type_node.
Proof. solve_decision. Defined.

(** The values of the enumerations. *)
Definition builtin_code (b : builtin) : N :=
  match b with
  | null_vertex => 0 | logical_true => 1 | logical_false => 2 | logical_and => 3
  | logical_or => 4 | logical_not => 5 | contin_if => 6 | boolean_if => 7 | plus => 8
  | times => 9 | div => 10 | exp => 11 | log => 12 | sin => 13 | greater_than_zero => 14
  | impulse => 15 | rand => 16
  end.
Definition action_code (a : action) : N :=
  match a with
  | sequential_and => 0 | sequential_or => 1 | sequential_exec => 2 | action_not => 3
  | action_if => 4 | boolean_action_if => 5 | contin_action_if => 6
  | action_action_if => 7 | action_success => 8 | action_failure => 9
  | action_while => 10 | boolean_while => 11 | return_success => 12 | repeat_n => 13
  end.
End id.
Export (hints) id.

(** The alternatives of the variant, in the order of their declaration. The
    types of builtin actions, perceptions, indefinite objects, procedure calls
    and action symbols are pointers. *)
Inductive vertex : Set :=
  | Contin (c : spec_float)
  | Builtin (b : id.builtin)
  | WildCard (w : id.wild_card)
  | Argument (idx : Z)
  | Action (a : id.action)
  | BuiltinAction (p : N)
  | Perception (p : N)
  | DefiniteObject (s : string)
  | IndefiniteObject (p : N)
  | Message (s : string)
  | ProcedureCall (p : N)
  | ActionSymbol (p : N)
  | AnnType (idx : N) (i : id.ann_id).

#[export] Instance vertex_eq_dec : EqDecision vertex.
Proof. solve_decision. Defined.

Abbreviation combo_tree := (tree vertex) (only parsing).
Abbreviation type_tree := (tree id.type_node) (only parsing).

(** [operator==] of vertices: doubles compare as IEEE numbers, and two neural
    network vertices by their index. *)
Definition vertex_eqb (u v : vertex) : bool :=
  match u, v with
  | Contin x, Contin y => SFeqb x y
  | AnnType i _, AnnType j _ => (i =? j)%N
  | _, _ => bool_decide (u = v)
  end.

(** [absolute_value_order]: -1, 1, -2, 2, ... *)
Definition absolute_value_order (a b : Z) : bool :=
  if (a =? - b)%Z then (a <? b)%Z else (Z.abs a <? Z.abs b)%Z.

(** The index of the alternative, [variant::which]. *)
Definition which (v : vertex) : N :=
  match v with
  | Contin _ => 0 | Builtin _ => 1 | WildCard _ => 2 | Argument _ => 3 | Action _ => 4
  | BuiltinAction _ => 5 | Perception _ => 6 | DefiniteObject _ => 7
  | IndefiniteObject _ => 8 | Message _ => 9 | ProcedureCall _ => 10
  | ActionSymbol _ => 11 | AnnType _ _ => 12
  end.

(** [operator<] of vertices: by alternative, then by value. *)
Definition vertex_ltb (u v : vertex) : bool :=
  match u, v with
  | Contin x, Contin y => SFltb x y
  | Builtin a, Builtin b => (id.builtin_code a <? id.builtin_code b)%N
  | Argument i, Argument j => absolute_value_order i j
  | Action a, Action b => (id.action_code a <? id.action_code b)%N
  | DefiniteObject s, DefiniteObject t | Message s, Message t => String.ltb s t
  | BuiltinAction p, BuiltinAction q | Perception p, Perception q
  | IndefiniteObject p, IndefiniteObject q | ProcedureCall p, ProcedureCall q
  | ActionSymbol p, ActionSymbol q => (p <? q)%N
  | AnnType i _, AnnType j _ => (i <? j)%N
  | _, _ => (which u <? which v)%N
  end.

(** [lexicographic_subtree_order::cmp]: 1 when the first tree comes first. *)
Fixpoint cmp (t1 t2 : combo_tree) {struct t1} : Z :=
  let 'Node v1 ch1 := t1 in
  let 'Node v2 ch2 := t2 in
  if vertex_ltb v1 v2 then 1%Z
  else if vertex_ltb v2 v1 then (-1)%Z
  else (fix go (l1 l2 : list combo_tree) {struct l1} : Z :=
          match l1, l2 with
          | [], [] => 0%Z
          | [], _ :: _ => 1%Z
          | _ :: _, [] => (-1)%Z
          | c1 :: l1', c2 :: l2' =>
              let r := cmp c1 c2 in
              if (r =? 0)%Z then go l1' l2' else r
          end) ch1 ch2.

Definition subtree_lt (t1 t2 : combo_tree) : bool := (0 <? cmp t1 t2)%Z.

(** [tree::equal_subtree] with [operator==] of vertices. *)
Fixpoint equal_subtree (t1 t2 : combo_tree) {struct t1} : bool :=
  let 'Node v1 ch1 := t1 in
  let 'Node v2 ch2 := t2 in
  vertex_eqb v1 v2 &&
  (fix go (l1 l2 : list combo_tree) {struct l1} : bool :=
     match l1, l2 with
     | [], [] => true
     | c1 :: l1', c2 :: l2' => equal_subtree c1 c2 && go l1' l2'
     | _, _ => false
     end) ch1 ch2.

Definition is_argument (v : vertex) : bool := if v is Argument _ then true else false.
Definition is_contin (v : vertex) : bool := if v is Contin _ then true else false.
Definition is_boolean (v : vertex) : bool :=
  match v with Builtin id.logical_true | Builtin id.logical_false => true | _ => false end.
Definition is_associative (v : vertex) : bool :=
  match v with
  | Builtin id.logical_and | Builtin id.logical_or | Builtin id.plus | Builtin id.times
  | Action id.sequential_and | Action id.sequential_or | Action id.sequential_exec => true
  | _ => false
  end.

Definition bool_to_vertex (b : bool) : vertex :=
  Builtin (if b then id.logical_true else id.logical_false).

Definition vertex_to_bool (v : vertex) : res bool :=
  match v with
  | Builtin id.logical_true => Ok true
  | Builtin id.logical_false => Ok false
  | _ => Throw AssertionException
  end.

Definition negate_vertex (v : vertex) : res vertex :=
  match v with
  | Builtin id.logical_true => Ok (Builtin id.logical_false)
  | Builtin id.logical_false => Ok (Builtin id.logical_true)
  | _ => Throw AssertionException
  end.

(** [get_argument(v).negate()]; [boost::get] throws at another alternative. *)
Definition negate_argument (v : vertex) : res vertex :=
  match v with Argument i => Ok (Argument (- i)) | _ => Throw BadGet end.

(** ** Output types *)

(** Operators that clients define: they say their output type. *)
Class Vocabulary := {
  builtin_action_output : N -> type_tree;
  perception_output : N -> type_tree;
  procedure_call_output : N -> type_tree
}.

Definition type_leaf (n : id.type_node) : type_tree := Node n [].

(** The table [bd] of builtin descriptions. *)
Definition output_type_of_builtin (b : id.builtin) : id.type_node :=
  match b with
  | id.null_vertex => id.unknown_type
  | id.logical_and | id.logical_or | id.logical_not | id.logical_true | id.logical_false
  | id.boolean_if | id.greater_than_zero => id.boolean_type
  | id.contin_if | id.plus | id.times | id.div | id.exp | id.log | id.sin | id.impulse
  | id.rand => id.contin_type
  end.

(** The table [ad] of action descriptions. *)
Definition output_type_of_action (a : id.action) : id.type_node :=
  match a with
  | id.boolean_action_if => id.boolean_type
  | id.contin_action_if => id.contin_type
  | _ => id.action_result_type
  end.

Definition is_action_definite_object (d : string) : bool :=
  if String.index 0 "_action" d is Some _ then true else false.

Definition get_output_type_tree `{Vocabulary} (v : vertex) : res type_tree :=
  match v with
  | Builtin b => Ok (type_leaf (output_type_of_builtin b))
  | Argument _ => Ok (type_leaf id.unknown_type)
  | Contin _ => Ok (type_leaf id.contin_type)
  | Action a => Ok (type_leaf (output_type_of_action a))
  | BuiltinAction p => Ok (builtin_action_output p)
  | Perception p => Ok (perception_output p)
  | DefiniteObject d =>
      Ok (type_leaf (if is_action_definite_object d
                     then id.action_definite_object_type else id.definite_object_type))
  | IndefiniteObject _ => Ok (type_leaf id.indefinite_object_type)
  | WildCard _ => Ok (type_leaf id.wild_card_type)
  | Message _ => Ok (type_leaf id.message_type)
  | ProcedureCall p => Ok (procedure_call_output p)
  | ActionSymbol _ | AnnType _ _ => Throw AssertionException
  end.

(** ** Evaluation *)

(** Code that may throw an [EvalException], which carries a vertex. *)
Definition EV (S A : Type) : Type := ST S (vertex + A).

#[export] Instance ev_ret {S} : MRet (EV S) := fun A a s => (Ok (inr a), s).
#[export] Instance ev_bind {S} : MBind (EV S) := fun A B f m s =>
  match m s with
  | (Ok (inr a), s') => f a s'
  | (Ok (inl v), s') => (Ok (inl v), s')
  | (Throw e, s') => (Throw e, s')
  | (Undef, s') => (Undef, s')
  | (Fuel, s') => (Fuel, s')
  end.

Definition eval_exception {S A} (v : vertex) : EV S A := fun s => (Ok (inl v), s).
Definition assertion {S A} : EV S A := fun s => (Throw AssertionException, s).
Definition ev_res {S A} (r : res A) : EV S A := fun s => (inr <$> r, s).
Definition oc_assert {S} (b : bool) : EV S unit := if b then mret tt else assertion.

(** What evaluation calls: the random numbers, the functions of the C library,
    and the virtual methods of the class [Evaluator]. *)
Class RandGen (S : Type) := randfloat : S -> spec_float * S.
Class Libm := { c_log : spec_float -> spec_float; c_exp : spec_float -> spec_float;
                c_sin : spec_float -> spec_float }.
Record EvaluatorMethods (S : Type) := {
  eval_action : combo_tree -> EV S vertex;
  eval_percept : combo_tree -> EV S vertex;
  eval_procedure : combo_tree -> EV S vertex;
  eval_indefinite_object : N -> EV S vertex
}.
Arguments eval_action {S}. Arguments eval_percept {S}. Arguments eval_procedure {S}.
Arguments eval_indefinite_object {S}.

Definition contin_one : spec_float := Eval vm_compute in SFone 53 1024.
Definition contin_zero : spec_float := S754_zero false.
Definition c_isnan (x : spec_float) : bool := if x is S754_nan then true else false.
Definition c_isinf (x : spec_float) : bool := if x is S754_infinity _ then true else false.

(** A variable argument is bound to a vertex or to a subtree. *)
Definition bindings : Type := Z -> vertex + combo_tree.

Section eval.
Context {World : Type} `{RandGen World, Libm} (pe : option (EvaluatorMethods World)) (binding : bindings).

Definition get_contin (v : vertex) : EV World spec_float :=
  match v with Contin x => mret x | _ => assertion end.

(** The result of a partial operation. *)
Definition finite_or_throw (x : spec_float) : EV World vertex :=
  if c_isnan x || c_isinf x then eval_exception (Contin x) else mret (Contin x).

(** [n] bounds the chain of arguments that are bound to subtrees. *)
Fixpoint eval_throws (n : nat) {struct n} : combo_tree -> EV World vertex :=
  fix ev (it : combo_tree) {struct it} : EV World vertex :=
    let 'Node v ch := it in
    match v with
    | Argument idx =>
        if (0 <? idx)%Z then
          match binding idx with
          | inl u => mret u
          | inr t => match n with 0 => nofuel | S n' => eval_throws n' t end
          end
        else
          match binding (- idx)%Z with
          | inl u => ev_res (negate_vertex u)
          | inr t =>
              match n with
              | 0 => nofuel
              | S n' => eval_throws n' t ≫= fun u => ev_res (negate_vertex u)
              end
          end
    | Builtin b =>
        match b with
        | id.logical_true | id.logical_false => mret v
        | id.logical_and =>
            (fix all_true (l : list combo_tree) : EV World vertex :=
               match l with
               | [] => mret (Builtin id.logical_true)
               | c :: l' =>
                   ev c ≫= fun u =>
                   if bool_decide (u = Builtin id.logical_false)
                   then mret (Builtin id.logical_false) else all_true l'
               end) ch
        | id.logical_or =>
            (fix any_true (l : list combo_tree) : EV World vertex :=
               match l with
               | [] => mret (Builtin id.logical_false)
               | c :: l' =>
                   ev c ≫= fun u =>
                   if bool_decide (u = Builtin id.logical_true)
                   then mret (Builtin id.logical_true) else any_true l'
               end) ch
        | id.logical_not =>
            match ch with
            | [c] => ev c ≫= fun u => ev_res (negate_vertex u)
            | _ => assertion
            end
        | id.boolean_if | id.contin_if =>
            match ch with
            | [c; t; e] =>
                ev c ≫= fun u =>
                oc_assert (is_boolean u) ≫= fun _ =>
                if bool_decide (u = Builtin id.logical_true) then ev t else ev e
            | _ => assertion
            end
        | id.greater_than_zero =>
            match ch with
            | [c] => (ev c ≫= get_contin) ≫= fun x => mret (bool_to_vertex (SFltb contin_zero x))
            | _ => assertion
            end
        | id.impulse =>
            match ch with
            | [c] =>
                ev c ≫= fun u =>
                oc_assert (is_boolean u) ≫= fun _ =>
                mret (Contin (if bool_decide (u = Builtin id.logical_true)
                              then contin_one else contin_zero))
            | _ => assertion
            end
        | id.plus =>
            (fix sum (r : spec_float) (l : list combo_tree) : EV World vertex :=
               match l with
               | [] => mret (Contin r)
               | c :: l' => (ev c ≫= get_contin) ≫= fun x => sum (TruthValue.f64_add r x) l'
               end) contin_zero ch
        | id.times =>
            (fix product (r : spec_float) (l : list combo_tree) : EV World vertex :=
               match l with
               | [] => mret (Contin r)
               | c :: l' => (ev c ≫= get_contin) ≫= fun x => product (TruthValue.f64_mul r x) l'
               end) contin_one ch
        | id.rand => fun s => let '(x, s') := randfloat s in (Ok (inr (Contin x)), s')
        | id.div =>
            match ch with
            | [c; d] =>
                (ev c ≫= get_contin) ≫= fun x =>
                (ev d ≫= get_contin) ≫= fun y => finite_or_throw (TruthValue.f64_div x y)
            | _ => assertion
            end
        | id.log =>
            match ch with
            | [c] => (ev c ≫= get_contin) ≫= fun x => finite_or_throw (c_log x)
            | _ => assertion
            end
        | id.exp =>
            match ch with
            | [c] =>
                (ev c ≫= get_contin) ≫= fun x =>
                if c_isinf (c_exp x) then eval_exception (Contin (c_exp x))
                else mret (Contin (c_exp x))
            | _ => assertion
            end
        | id.sin =>
            match ch with
            | [c] => (ev c ≫= get_contin) ≫= fun x => mret (Contin (c_sin x))
            | _ => assertion
            end
        | id.null_vertex => assertion
        end
    | Action _ => if pe is Some e then eval_action e it else eval_exception v
    | Perception _ => if pe is Some e then eval_percept e it else eval_exception v
    | ProcedureCall _ => if pe is Some e then eval_procedure e it else eval_exception v
    | IndefiniteObject p => if pe is Some e then eval_indefinite_object e p else assertion
    | DefiniteObject _ => if ch is [] then mret v else assertion
    | Contin c => if c_isnan c || c_isinf c then eval_exception v else mret v
    | ActionSymbol _ => mret v
    | BuiltinAction _ | WildCard _ | Message _ | AnnType _ _ => eval_exception v
    end.

(** [eval]: an [EvalException] is caught, and its vertex is the result. *)
Definition eval (n : nat) (it : combo_tree) : ST World vertex := fun s =>
  let '(r, s') := eval_throws n it s in
  ((fun x : vertex + vertex => match x with inl v | inr v => v end) <$> r, s').
End eval.

(** ** Truth tables *)

(** Conversion to [arity_t], which is [char]. *)
Definition to_arity (z : Z) : Z := ((z + 2 ^ 7) mod 2 ^ 8 - 2 ^ 7)%Z.

(** The largest index of an argument of a tree. *)
Fixpoint arity (t : combo_tree) : Z :=
  let 'Node v ch := t in
  foldr (fun c a => Z.max (arity c) a)
    (match v with Argument idx => Z.max 0 (to_arity (Z.abs idx)) | _ => 0 end)%Z ch.

Section truth_table.
Context {World : Type} `{RandGen World, Libm}.
Context (binding : bindings) (n : nat) (_arity : Z) (tr : combo_tree).

(** The arguments of row [i]: argument [j + 1] is bit [j]. *)
Definition bind_row (i : Z) : bindings := fun k =>
  if (1 <=? k)%Z && (k <=? _arity)%Z then inl (bool_to_vertex (Z.testbit i (k - 1)))
  else binding k.

Definition eval_row (i : Z) : ST World vertex := eval None (bind_row i) n tr.

(** The outputs of the rows in order: [truth_table::populate]. *)
Fixpoint populate (rows : list Z) : ST World (list bool) :=
  match rows with
  | [] => mret []
  | i :: rows' =>
      eval_row i ≫= fun v =>
      populate rows' ≫= fun l => mret (bool_decide (v = Builtin id.logical_true) :: l)
  end.

(** The number of rows is an [int]. *)
Definition rows_of : list Z := seqZ 0 (2 ^ _arity).

Definition truth_table : ST World (list bool) :=
  if (30 <? _arity)%Z then undef else populate rows_of.

(** [truth_table::same_truth_table]: the rows from [i] on, compared with [tt]. *)
Fixpoint same_rows (i : Z) (tt : list bool) : ST World bool :=
  match tt with
  | [] => mret true
  | b :: tt' =>
      eval_row i ≫= fun v =>
      lift (vertex_to_bool v) ≫= fun c =>
      if eqb b c then same_rows (i + 1) tt' else mret false
  end.

Definition same_truth_table (tt : list bool) : ST World bool := same_rows 0 tt.
End truth_table.
