(* ===== verification/FlatNormalForm.v ===== *)
(** Flat normal forms: src/opencog/comboreduct/reduct/flat_normal_form.h and
    .cc. A clause is a set of integers, kept in the order of
    [absolute_value_order]; a normal form is a list of clauses; a mapper numbers
    the subtrees of a formula, and an argument and its negation get opposite
    numbers.

    The map from items to numbers is searched with the equivalence of its
    comparator. *)
From S2P Require Import Prelude Combo.

Abbreviation clause := (list Z) (only parsing).
Abbreviation nf := (list (list Z)) (only parsing).

(** ** Sets of integers *)
Fixpoint clause_insert (x : Z) (c : clause) : clause :=
  match c with
  | [] => [x]
  | y :: c' =>
      if absolute_value_order x y then x :: c
      else if absolute_value_order y x then y :: clause_insert x c' else c
  end.

Definition clause_erase (x : Z) (c : clause) : clause :=
  filter (fun y => absolute_value_order x y || absolute_value_order y x) c.

Definition insert_all (l : list Z) (c : clause) : clause :=
  foldl (fun c x => clause_insert x c) c l.

(** [std::merge], [std::includes] and [std::set_intersection]. *)
Fixpoint merge_clauses (c1 : clause) : clause -> list Z :=
  fix go (c2 : clause) : list Z :=
    match c1, c2 with
    | [], _ => c2
    | _, [] => c1
    | x :: c1', y :: c2' =>
        if absolute_value_order y x then y :: go c2' else x :: merge_clauses c1' c2
    end.

Fixpoint includes (c1 c2 : clause) : bool :=
  match c1, c2 with
  | _, [] => true
  | [], _ :: _ => false
  | x :: c1', y :: c2' =>
      if absolute_value_order y x then false
      else if absolute_value_order x y then includes c1' c2 else includes c1' c2'
  end.

Fixpoint set_intersection (c1 : clause) : clause -> list Z :=
  fix go (c2 : clause) : list Z :=
    match c1, c2 with
    | [], _ | _, [] => []
    | x :: c1', y :: c2' =>
        if absolute_value_order x y then set_intersection c1' c2
        else if absolute_value_order y x then go c2'
        else x :: set_intersection c1' c2'
    end.

Definition negate_clause (c : clause) : clause := insert_all (Z.opp <$> c) [].

(** Two neighbours [p] and [-p]. *)
Fixpoint tautology (c : clause) : bool :=
  match c with
  | x :: (y :: _) as c' => (x =? - y)%Z || tautology c'
  | _ => false
  end.

Definition subset_eq (c1 c2 : clause) : bool := (length c1 <=? length c2) && includes c2 c1.
Definition subset (c1 c2 : clause) : bool := (length c1 <? length c2) && includes c2 c1.

Definition number_of_literals (f : nf) : nat := foldl (fun n c => n + length c) 0 f.

(** The resolvents of two clauses that are no tautologies. *)
Definition resolvent (x y : Z) (c1 c2 : clause) : clause :=
  clause_erase y (clause_erase x (insert_all (merge_clauses c1 c2) [])).

Definition implications (c1 c2 : clause) : nf :=
  x ← c1; y ← c2;
  if (x =? - y)%Z then
    let c := resolvent x y c1 c2 in if tautology c then [] else [c]
  else [].

(** [pairwise_erase_if(f, subset_eq)]. The clauses before [c1] are [before];
    [erase_scan] goes through them, and says whether [c1] is kept. *)
Fixpoint erase_scan (p : clause -> clause -> bool) (c1 : clause) (before : nf) : nf * bool :=
  match before with
  | [] => ([], true)
  | c2 :: before' =>
      if p c1 c2 then erase_scan p c1 before'
      else if p c2 c1 then (before, false)
      else let '(l, keep) := erase_scan p c1 before' in (c2 :: l, keep)
  end.

Definition pairwise_erase_if (p : clause -> clause -> bool) (f : nf) : nf :=
  foldl (fun before c1 =>
           let '(l, keep) := erase_scan p c1 before in if keep then l ++ [c1] else l) [] f.

(** ** The mapper *)
Record nf_mapper := {
  _item2int : list (combo_tree * Z);
  _int2item : list (Z * combo_tree)
}.

Definition empty_mapper : nf_mapper := {| _item2int := []; _int2item := [] |}.

Definition equivalent (t1 t2 : combo_tree) : bool :=
  negb (subtree_lt t1 t2) && negb (subtree_lt t2 t1).

Fixpoint find_item (item : combo_tree) (m : list (combo_tree * Z)) : option Z :=
  match m with
  | [] => None
  | (k, i) :: m' => if equivalent k item then Some i else find_item item m'
  end.

(** A new item gets the next number. *)
Definition new_item (item : combo_tree) (m : nf_mapper) : Z * nf_mapper :=
  let i := Z.of_nat (S (length (_int2item m))) in
  (i, {| _item2int := (item, i) :: _item2int m; _int2item := (i, item) :: _int2item m |}).

Definition add_item (item : combo_tree) (m : nf_mapper) : Z * nf_mapper :=
  match find_item item (_item2int m) with
  | Some i => (i, m)
  | None =>
      match item with
      | Node (Argument a) ch =>
          match find_item (Node (Argument (- a)) ch) (_item2int m) with
          | Some i => ((- i)%Z, m)
          | None => new_item item m
          end
      | _ => new_item item m
      end
  end.

(** The clause of the items [l], inserted one by one. *)
Fixpoint add_items (l : list combo_tree) (c : clause) (m : nf_mapper) : clause * nf_mapper :=
  match l with
  | [] => (c, m)
  | t :: l' => let '(i, m') := add_item t m in add_items l' (clause_insert i c) m'
  end.

(** [j] is the junctor inside of clauses: the loops of [add_cnf], [add_dnf]. *)
Fixpoint add_nf (j : id.builtin) (l : list combo_tree) (m : nf_mapper) : nf * nf_mapper :=
  match l with
  | [] => ([], m)
  | t :: l' =>
      let '(c, m1) :=
        if bool_decide (root t = Builtin j) then add_items (children t) [] m
        else add_items [t] [] m in
      let '(f, m2) := add_nf j l' m1 in (c :: f, m2)
  end.

Definition add_cnf := add_nf id.logical_or.
Definition add_dnf := add_nf id.logical_and.

(** The item of a number, and the subtree that [create] appends for it. *)
Definition get_item (m : nf_mapper) (i : Z) : res combo_tree := of_opt (afind i (_int2item m)).

Definition create (m : nf_mapper) (idx : Z) : res combo_tree :=
  if (idx <? 0)%Z then
    '(Node v ch) ← get_item m (- idx);
    v' ← negate_argument v;
    Ok (Node v' ch)
  else get_item m idx.

Fixpoint create_all (m : nf_mapper) (c : clause) : res (list combo_tree) :=
  match c with
  | [] => Ok []
  | i :: c' => t ← create m i; l ← create_all m c'; Ok (t :: l)
  end.

(** The end of [extract_cnf] and [extract_dnf]: one child takes the place of its
    parent, and no child is [false]. *)
Definition junction (j : id.builtin) (l : list combo_tree) : combo_tree :=
  match l with
  | [] => Node (Builtin id.logical_false) []
  | [t] => t
  | _ => Node (Builtin j) l
  end.

Fixpoint cnf_children (m : nf_mapper) (f : nf) : res (list combo_tree) :=
  match f with
  | [] => Ok []
  | [] :: f' => cnf_children m f'
  | [i] :: f' =>
      if (i =? 0)%Z then cnf_children m f'
      else t ← create m i; l ← cnf_children m f'; Ok (t :: l)
  | c :: f' =>
      ts ← create_all m c;
      l ← cnf_children m f';
      Ok (Node (Builtin id.logical_or) ts :: l)
  end.

Definition extract_cnf (m : nf_mapper) (f : nf) : res combo_tree :=
  l ← cnf_children m f; Ok (junction id.logical_and l).

Definition add_child (t : combo_tree) (o : option (list combo_tree)) : option (list combo_tree) :=
  match o with Some l => Some (t :: l) | None => None end.

(** [None]: an empty clause, which makes the whole disjunction true. *)
Fixpoint dnf_children (m : nf_mapper) (f : nf) : res (option (list combo_tree)) :=
  match f with
  | [] => Ok (Some [])
  | [] :: _ => Ok None
  | [i] :: f' =>
      if (i =? 0)%Z then dnf_children m f'
      else t ← create m i; o ← dnf_children m f'; Ok (add_child t o)
  | c :: f' =>
      ts ← create_all m c;
      o ← dnf_children m f';
      Ok (add_child (Node (Builtin id.logical_and) ts) o)
  end.

Definition extract_dnf (m : nf_mapper) (f : nf) : res combo_tree :=
  o ← dnf_children m f;
  Ok (match o with
      | Some l => junction id.logical_or l
      | None => Node (Builtin id.logical_true) []
      end).

(** [sib] is a new node, whose vertex is a default one. *)
Definition extract_conjunction (m : nf_mapper) (c : clause) : res combo_tree :=
  match c with
  | [i] =>
      if (i =? 0)%Z then Ok (Node (Contin contin_zero) [])
      else if (i <? 0)%Z then
        '(Node v _) ← get_item m (- i);
        if is_argument v then v' ← negate_argument v; Ok (Node v' [])
        else Throw AssertionException
      else get_item m i
  | _ => ts ← create_all m c; Ok (Node (Builtin id.logical_and) ts)
  end.
