(* ===== verification/Reduct.v ===== *)
(** The logical part of the reduction engine: src/opencog/comboreduct/reduct,
    logical_rules.cc, general_rules.cc, meta_rules.cc, clean_reduction.cc and the
    efforts 0 and 1 of logical_reduction.cc.

    A rule rewrites the subtree at an iterator in place; the iterator stays on
    the root of the new subtree. Of the surroundings the rules below read the
    vertex of the parent only, so a rule maps that vertex ([None] at the root of
    the tree) and the subtree to the new subtree. *)
From S2P Require Import Prelude Combo FlatNormalForm.

Definition rule : Type := option vertex -> combo_tree -> res combo_tree.

Definition is_builtin (b : id.builtin) (v : vertex) : bool := bool_decide (v = Builtin b).
Definition is_junctor (v : vertex) : bool :=
  match v with Builtin id.logical_and | Builtin id.logical_or => true | _ => false end.
Definition is_childless {T} (t : tree T) : bool := if children t is [] then true else false.

(** ** Rules *)
Definition insert_ands : rule := fun up t =>
  Ok (if (is_argument (root t) || is_builtin id.logical_or (root t)) &&
         negb (if up is Some v then is_builtin id.logical_and v else false)
      then Node (Builtin id.logical_and) [t] else t).

Definition remove_unary_junctors : rule := fun _ t =>
  Ok (match t with
      | Node v [c] => if is_junctor v then c else t
      | _ => t
      end).

Definition remove_dangling_junctors : rule := fun _ t =>
  let 'Node v ch := t in
  Ok (Node v (filter (fun c => negb (is_junctor (root c) && is_childless c)) ch)).

(** The loop of [eval_logical_identities] over the children of a junctor: [j] is
    the other junctor, [neutral] is erased, [absorbing] is the result alone. *)
Fixpoint logical_identities (j neutral absorbing : id.builtin) (l : list combo_tree) :
  option (list combo_tree) :=
  match l with
  | [] => Some []
  | c :: l' =>
      if (is_builtin j (root c) && is_childless c) || is_builtin neutral (root c)
      then logical_identities j neutral absorbing l'
      else if is_builtin absorbing (root c) then None
      else cons c <$> logical_identities j neutral absorbing l'
  end.

Definition with_children (b absorbing : id.builtin) (o : option (list combo_tree)) : combo_tree :=
  match o with Some l => Node (Builtin b) l | None => Node (Builtin absorbing) [] end.

Definition eval_logical_identities : rule := fun _ t =>
  Ok (match t with
      | Node (Builtin id.logical_and) ch =>
          with_children id.logical_and id.logical_false
            (logical_identities id.logical_or id.logical_true id.logical_false ch)
      | Node (Builtin id.logical_or) [c] => c
      | Node (Builtin id.logical_or) ch =>
          with_children id.logical_or id.logical_true
            (logical_identities id.logical_and id.logical_false id.logical_true ch)
      | _ => t
      end).

Definition negation (t : combo_tree) : combo_tree := Node (Builtin id.logical_not) [t].

(** Every call of itself erases two nodes. *)
Fixpoint reduce_nots_loop (n : nat) (t : combo_tree) : res combo_tree :=
  match t with
  | Node (Builtin id.logical_not) ch =>
      match ch with
      | [] => Undef
      | Node (Builtin id.logical_not) ch1 :: rest =>
          match ch1 ++ rest with
          | [] => Undef
          | Node v ch2 :: rest' =>
              match n with
              | 0 => Fuel
              | S n' => reduce_nots_loop n' (Node v (ch2 ++ rest'))
              end
          end
      | Node (Builtin id.logical_and) ch1 :: rest =>
          Ok (Node (Builtin id.logical_or) (negation <$> ch1 ++ rest))
      | Node (Builtin id.logical_or) ch1 :: rest =>
          Ok (Node (Builtin id.logical_and) (negation <$> ch1 ++ rest))
      | Node (Argument i) _ :: _ => Ok (Node (Argument (- i)) [])
      | _ => Ok t
      end
  | _ => Ok t
  end.

Definition reduce_nots : rule := fun _ t => reduce_nots_loop (tree_size t) t.

(** ** Reduction of normal forms

    The loops over pairs of clauses: [c1] goes through the list, [c2] through
    the clauses before it, [a] are the clauses before [c2], [b] those between
    [c2] and [c1], [post] those after [c1]. *)
Definition nf_state : Type := nf * clause * nf * clause * nf.

Definition drop_supersets (impl : clause) (f : nf) : nf :=
  filter (fun c => negb (subset_eq impl c)) f.
Definition shrink_to (impl c : clause) : clause := if subset impl c then impl else c.

Definition use_implication (s : nf_state) (impl : clause) : nf_state :=
  let '(a, c2, b, c1, post) := s in
  (drop_supersets impl a, shrink_to impl c2, drop_supersets impl b,
   shrink_to impl c1, drop_supersets impl post).

Definition use_implications (s : nf_state) : nf_state :=
  let '(_, c2, _, c1, _) := s in foldl use_implication s (implications c1 c2).

Fixpoint c2_loop (n : nat) (a b : nf) (c1 : clause) (post : nf) : res (nf * clause * nf) :=
  match b with
  | [] => Ok (a, c1, post)
  | c2 :: b1 =>
      match n with
      | 0 => Fuel
      | S n' =>
          let '(a', c2', b', c1', post') := use_implications (a, c2, b1, c1, post) in
          c2_loop n' (a' ++ [c2']) b' c1' post'
      end
  end.

Fixpoint c1_loop (n : nat) (before rest : nf) : res nf :=
  match rest with
  | [] => Ok before
  | c1 :: post =>
      match n with
      | 0 => Fuel
      | S n' =>
          '(a, c1', post') ← c2_loop (length before) [] before c1 post;
          c1_loop n' (a ++ [c1']) post'
      end
  end.

Definition all_implications (f : nf) : res nf := c1_loop (length f) [] f.

Definition no_tautologies (f : nf) : nf := filter (fun c => negb (tautology c)) f.

Definition reduce_ors : rule := fun _ t =>
  let 'Node v ch := t in
  if is_builtin id.logical_or v then
    let '(f0, m) := add_dnf ch empty_mapper in
    f ← all_implications (pairwise_erase_if subset_eq (no_tautologies f0));
    if number_of_literals f0 =? number_of_literals f then Ok t else extract_dnf m f
  else Ok t.

(** The literals that all clauses share, none when a clause has one literal. *)
Fixpoint intersect_loop (i : clause) (l : nf) : clause :=
  match l with
  | [] => i
  | c :: l' =>
      match i with
      | [] => i
      | _ =>
          if length c =? 1 then []
          else intersect_loop (insert_all (set_intersection i c) []) l'
      end
  end.

Definition intersect (f : nf) : clause :=
  match f with
  | c :: ((_ :: _) as l) => if 1 <? length c then intersect_loop c l else []
  | _ => []
  end.

Definition erase_all (i c : clause) : clause := foldl (fun c x => clause_erase x c) c i.

(** The end of [reduce_ands]: the disjunction of the rest and what is shared. *)
Definition factor (m : nf_mapper) (i : clause) (t : combo_tree) : res combo_tree :=
  let l := if is_childless t then [] else [Node (Builtin id.logical_and) (children t)] in
  conj ← extract_conjunction m i;
  Ok (Node (Builtin id.logical_or)
        (l ++ (if 1 <? length i then children conj else [conj]))).

Definition reduce_ands : rule := fun _ t =>
  let 'Node v ch := t in
  if is_builtin id.logical_and v then
    let '(f0, m) := add_cnf ch empty_mapper in
    let f1 := no_tautologies (negate_clause <$> f0) in
    if f1 is [] then Ok (Node (Builtin id.logical_true) [])
    else
      f ← all_implications (pairwise_erase_if subset_eq f1);
      let i := intersect f in
      if (number_of_literals f0 =? number_of_literals f) && (if i is [] then true else false)
      then Ok t
      else
        t1 ← extract_cnf m (negate_clause ∘ erase_all i <$> f);
        if i is [] then Ok t1 else factor m (negate_clause i) t1
  else Ok t.

(** ** General rules *)

(** [level]: the loop goes on with the children that a flattened node leaves. *)
Fixpoint flatten_into (v : vertex) (t : combo_tree) : list combo_tree :=
  let 'Node w ch := t in
  if vertex_eqb w v then mjoin (flatten_into v <$> ch) else [t].

Definition level : rule := fun _ t =>
  let 'Node v ch := t in
  Ok (if is_associative v then Node v (mjoin (flatten_into v <$> ch)) else t).

Definition remove_null_vertices : rule := fun _ t =>
  let 'Node v ch := t in
  Ok (Node v (filter (fun c => negb (is_builtin id.null_vertex (root c))) ch)).

(** ** Meta rules *)
Definition when (r : rule) (cond : bool) : rule := fun up t => if cond then r up t else Ok t.

(** [output]: the type of the vertices to which the rule applies, [unknown_type]
    for all. *)
Definition applies `{Vocabulary} (output : id.type_node) (v : vertex) : res bool :=
  if bool_decide (output = id.unknown_type) then Ok true
  else
    ty ← get_output_type_tree v;
    Ok (match ty with Node n [] => bool_decide (n = output) | _ => false end).

Fixpoint downwards `{Vocabulary} (n : nat) (r : rule) (output : id.type_node) (up : option vertex)
  (t : combo_tree) : res combo_tree :=
  match n with
  | 0 => Fuel
  | S n' =>
      b ← applies output (root t);
      t' ← when r b up t;
      ch ← mapM (downwards n' r output (Some (root t'))) (children t');
      Ok (Node (root t') ch)
  end.

Fixpoint upwards (r : rule) (up : option vertex) (t : combo_tree) : res combo_tree :=
  let 'Node v ch := t in
  ch' ← mapM (upwards r (Some v)) ch;
  r up (Node v ch').

Fixpoint sequential (rules : list rule) (up : option vertex) (t : combo_tree) : res combo_tree :=
  match rules with
  | [] => Ok t
  | r :: rules' => t' ← r up t; sequential rules' up t'
  end.

Fixpoint iterative (n : nat) (r : rule) (up : option vertex) (t : combo_tree) : res combo_tree :=
  match n with
  | 0 => Fuel
  | S n' =>
      t' ← r up t;
      if equal_subtree t' t then Ok t' else iterative n' r up t'
  end.

(** ** Reductions *)
Section reductions.
Context `{Vocabulary} (n : nat).

Definition clean_reduction : rule :=
  sequential [downwards n remove_null_vertices id.unknown_type; upwards remove_dangling_junctors].

(** Effort 0 and 1 of [logical_reduction]. *)
Definition extra_simple : rule := downwards n reduce_nots id.boolean_type.

Definition simple_pass : rule :=
  sequential [upwards eval_logical_identities;
              downwards n level id.unknown_type;
              downwards n reduce_ands id.boolean_type;
              downwards n reduce_ors id.boolean_type].

Definition simple : rule :=
  sequential [downwards n reduce_nots id.boolean_type; iterative n simple_pass].

(** A rule applied to a tree. *)
Definition reduce (r : rule) (tr : combo_tree) : res combo_tree := r None tr.
End reductions.
