(* ===== verification/NFSpec.v ===== *)
(** Flat normal forms, as sets: what the operations on clauses of
    FlatNormalForm.v compute, the truth value of a normal form, and that
    resolution and the removal of clauses keep it. *)
From S2P Require Import Prelude Combo FlatNormalForm Reduct.

(** ** The order of literals *)
Definition key (a : Z) : Z := (2 * Z.abs a + (if 0 <? a then 1 else 0))%Z.

Lemma absolute_value_order_key a b : absolute_value_order a b = (key a <? key b)%Z.
Proof.
  unfold absolute_value_order, key.
  destruct (Z.eqb_spec a (- b)), (Z.ltb_spec 0 a), (Z.ltb_spec 0 b); apply eq_true_iff_eq;
    rewrite !Z.ltb_lt; lia.
Qed.

Lemma key_inj a b : key a = key b -> a = b.
Proof. unfold key. destruct (Z.ltb_spec 0 a), (Z.ltb_spec 0 b); lia. Qed.

Definition literal_lt (a b : Z) : Prop := (key a < key b)%Z.
Abbreviation sorted_clause := (StronglySorted literal_lt) (only parsing).

Ltac literal_cases :=
  rewrite ?absolute_value_order_key in *;
  repeat match goal with
  | |- context [(key ?a <? key ?b)%Z] => destruct (Z.ltb_spec (key a) (key b))
  end.

Lemma literal_eq a b : ~ literal_lt a b -> ~ literal_lt b a -> a = b.
Proof. unfold literal_lt. intros. apply key_inj. lia. Qed.

(** ** Clauses as sets *)
Lemma elem_of_clause_insert x y c : x ∈ clause_insert y c <-> x = y \/ x ∈ c.
Proof.
  induction c as [|z c IH]; simpl; [set_solver|]. literal_cases; [set_solver|set_solver|].
  assert (y = z) as -> by (apply key_inj; lia). set_solver.
Qed.

Lemma clause_insert_sorted x c : sorted_clause c -> sorted_clause (clause_insert x c).
Proof.
  induction 1 as [|z c Hs IH Hf]; simpl; [repeat constructor|]. literal_cases.
  - constructor; [by constructor|]. constructor; [done|].
    eapply Forall_impl; [exact Hf|]. unfold literal_lt. lia.
  - constructor; [done|]. apply Forall_forall. intros u [->|Hu]%elem_of_clause_insert; [done|].
    by eapply Forall_forall in Hf.
  - by constructor.
Qed.

Lemma elem_of_insert_all x l c : x ∈ insert_all l c <-> x ∈ l \/ x ∈ c.
Proof.
  revert c. induction l as [|y l IH]; intros c; simpl; [set_solver|].
  unfold insert_all in *. simpl. rewrite IH, elem_of_clause_insert. set_solver.
Qed.

Lemma insert_all_sorted l c : sorted_clause c -> sorted_clause (insert_all l c).
Proof.
  revert c. induction l as [|y l IH]; intros c Hc; [done|]. by apply IH, clause_insert_sorted.
Qed.

Lemma elem_of_clause_erase x y c : x ∈ clause_erase y c <-> x <> y /\ x ∈ c.
Proof.
  unfold clause_erase. rewrite list_elem_of_filter. split; intros [H1 H2]; split; try done.
  - intros ->. rewrite absolute_value_order_key, Z.ltb_irrefl in H1. done.
  - rewrite !absolute_value_order_key. apply Is_true_true, orb_true_iff. rewrite !Z.ltb_lt.
    destruct (Z.lt_trichotomy (key x) (key y)) as [|[E|]]; [by right| |by left].
    by apply key_inj in E.
Qed.

Lemma clause_erase_sorted x c : sorted_clause c -> sorted_clause (clause_erase x c).
Proof. apply StronglySorted_filter. Qed.

Lemma merge_clauses_cons x c1 y c2 :
  merge_clauses (x :: c1) (y :: c2) =
  if absolute_value_order y x then y :: merge_clauses (x :: c1) c2
  else x :: merge_clauses c1 (y :: c2).
Proof. done. Qed.

Lemma set_intersection_cons x c1 y c2 :
  set_intersection (x :: c1) (y :: c2) =
  if absolute_value_order x y then set_intersection c1 (y :: c2)
  else if absolute_value_order y x then set_intersection (x :: c1) c2
  else x :: set_intersection c1 c2.
Proof. done. Qed.

Lemma elem_of_merge_clauses x c1 c2 : x ∈ merge_clauses c1 c2 <-> x ∈ c1 \/ x ∈ c2.
Proof.
  revert c2. induction c1 as [|y c1 IH1]; intros c2; [destruct c2; set_solver|].
  induction c2 as [|z c2 IH2]; [set_solver|].
  rewrite merge_clauses_cons. literal_cases.
  - rewrite !elem_of_cons in *. tauto.
  - specialize (IH1 (z :: c2)). rewrite !elem_of_cons in *. tauto.
Qed.

Lemma elem_of_set_intersection x c1 c2 :
  sorted_clause c1 -> sorted_clause c2 -> x ∈ set_intersection c1 c2 <-> x ∈ c1 /\ x ∈ c2.
Proof.
  intros H1. revert c2. induction H1 as [|y c1 Hs1 IH1 Hf1]; intros c2 H2; [destruct c2; set_solver|].
  induction H2 as [|z c2 Hs2 IH2 Hf2]; [set_solver|].
  rewrite set_intersection_cons.
  rewrite Forall_forall in Hf1, Hf2. unfold literal_lt in *. literal_cases.
  - rewrite IH1 by (constructor; [done|]; by apply Forall_forall). rewrite !elem_of_cons.
    split; [naive_solver|]. intros [[->|?] [->|Hx]]; auto; [lia|]. apply Hf2 in Hx. lia.
  - rewrite IH2. split; [intros [Hx ?]; split; [done|by right]|].
    intros [Hx [->|?]%elem_of_cons]; [|done]. apply elem_of_cons in Hx as [->|Hx]; [lia|].
    apply Hf1 in Hx. lia.
  - assert (y = z) as -> by (apply key_inj; lia). rewrite !elem_of_cons, IH1 by done.
    split; [naive_solver|]. intros [[?|?] [?|?]]; auto.
Qed.

Lemma sorted_clause_NoDup c : sorted_clause c -> NoDup c.
Proof.
  induction 1 as [|x c Hs IH Hf]; constructor; [|done]. intros Hx.
  eapply Forall_forall in Hf; [|done]. unfold literal_lt in Hf. lia.
Qed.

Lemma sorted_clause_ext c1 c2 :
  sorted_clause c1 -> sorted_clause c2 -> (forall x, x ∈ c1 <-> x ∈ c2) -> c1 = c2.
Proof.
  intros H1. revert c2. induction H1 as [|x c1 Hs1 IH Hf1]; intros c2 H2 E.
  { destruct c2 as [|y c2]; [done|]. exfalso. by apply (not_elem_of_nil y), E; left. }
  destruct H2 as [|y c2 Hs2 Hf2]; [exfalso; by apply (not_elem_of_nil x), E; left|].
  rewrite Forall_forall in Hf1, Hf2. unfold literal_lt in *.
  assert (x = y) as <-.
  { apply key_inj. pose proof (proj1 (E x) ltac:(left)) as [|Hx]%elem_of_cons; [by subst|].
    pose proof (proj2 (E y) ltac:(left)) as [|Hy]%elem_of_cons; [by subst|].
    apply Hf1 in Hy. apply Hf2 in Hx. lia. }
  f_equal. apply IH; [done|]. intros z. specialize (E z). rewrite !elem_of_cons in E.
  split; intros Hz; [specialize (Hf1 z Hz)|specialize (Hf2 z Hz)];
    (destruct (Z.eq_dec z x) as [->|]; [lia|naive_solver]).
Qed.

Lemma includes_spec c1 c2 :
  sorted_clause c1 -> sorted_clause c2 -> includes c1 c2 = true <-> c2 ⊆ c1.
Proof.
  intros H1. revert c2. induction H1 as [|x c1 Hs1 IH Hf1]; intros c2 H2.
  { destruct c2 as [|y c2]; simpl; [set_solver|]. split; [done|].
    intros H. by destruct (not_elem_of_nil y); apply H; left. }
  destruct c2 as [|y c2]; cbn [includes]; [set_solver|].
  pose proof H2 as [Hs2 Hf2]%StronglySorted_inv.
  rewrite Forall_forall in Hf1, Hf2. unfold literal_lt in *. literal_cases.
  - split; [done|]. intros H'. pose proof (H' y ltac:(left)) as [->|Hy]%elem_of_cons; [lia|].
    apply Hf1 in Hy. lia.
  - rewrite IH by done. split; [set_solver|]. intros H' z Hz.
    pose proof (H' z Hz) as [->|]%elem_of_cons; [|done].
    apply elem_of_cons in Hz as [->|Hz]; [lia|]. apply Hf2 in Hz. lia.
  - assert (x = y) as <- by (apply key_inj; lia). rewrite IH by done. split; [set_solver|].
    intros H' z Hz. pose proof (H' z ltac:(by right)) as [->|]%elem_of_cons; [|done].
    apply Hf2 in Hz. lia.
Qed.

Lemma sorted_clause_length c1 c2 : sorted_clause c1 -> c1 ⊆ c2 -> length c1 <= length c2.
Proof. intros H1%sorted_clause_NoDup Hsub. by apply submseteq_length, NoDup_submseteq. Qed.

Lemma subset_eq_spec c1 c2 :
  sorted_clause c1 -> sorted_clause c2 -> subset_eq c1 c2 = true <-> c1 ⊆ c2.
Proof.
  intros H1 H2. unfold subset_eq. rewrite andb_true_iff, Nat.leb_le, includes_spec by done.
  pose proof (sorted_clause_length c1 c2 H1). tauto.
Qed.

Lemma subset_spec c1 c2 :
  sorted_clause c1 -> sorted_clause c2 -> subset c1 c2 = true <-> c1 ⊆ c2 /\ c1 <> c2.
Proof.
  intros H1 H2. unfold subset. rewrite andb_true_iff, Nat.ltb_lt, includes_spec by done.
  split; [intros [? ?]; split; [done|]; by intros ->; lia|]. intros [Hsub Hne]. split; [|done].
  destruct (decide (length c1 < length c2)); [done|]. destruct Hne.
  apply sorted_clause_ext; [done..|]. intros x. split; [apply Hsub|].
  assert (c1 ≡ₚ c2) as ->; [|done]. apply submseteq_length_Permutation; [|lia].
  apply NoDup_submseteq; [by apply sorted_clause_NoDup|done].
Qed.

(** A clause is consistent when it is no tautology. *)
Definition consistent (c : clause) : Prop := forall p, p ∈ c -> (- p)%Z ∉ c.

Lemma tautology_spec c :
  sorted_clause c -> 0%Z ∉ c -> tautology c = false <-> consistent c.
Proof.
  induction 1 as [|x c Hs IH Hf]; intros H0; [split; [intros _ p Hp; inversion Hp|done]|].
  apply not_elem_of_cons in H0 as [H0x H0]. specialize (IH H0). rewrite Forall_forall in Hf.
  unfold literal_lt in Hf. destruct c as [|y c].
  { split; [|done]. intros _ p Ep%list_elem_of_singleton ?%list_elem_of_singleton. lia. }
  change (tautology (x :: y :: c)) with ((x =? - y)%Z || tautology (y :: c)).
  rewrite orb_false_iff, Z.eqb_neq, IH.
  assert (Hadj : (- x)%Z ∈ y :: c -> x = (- y)%Z).
  { intros Hx. pose proof (Hf y ltac:(left)) as Hxy. pose proof (Hf _ Hx) as Hxx.
    apply elem_of_cons in Hx as [|Hx]; [lia|].
    apply StronglySorted_inv in Hs as [_ Hy]. rewrite Forall_forall in Hy.
    specialize (Hy _ Hx). unfold literal_lt, key in *.
    destruct (Z.ltb_spec 0 x), (Z.ltb_spec 0 y), (Z.ltb_spec 0 (- x)); lia. }
  split.
  - intros [Hne Hc] p Hp Hnp. apply elem_of_cons in Hp as [->|Hp].
    + apply elem_of_cons in Hnp as [|Hnp]; [lia|auto].
    + apply elem_of_cons in Hnp as [E|Hnp]; [|by apply (Hc p)].
      apply Hne, Hadj. by replace (- x)%Z with p by lia.
  - intros Hc. split.
    + intros ->. apply (Hc (- y)%Z); [left|]. rewrite Z.opp_involutive. right; left.
    + intros p Hp Hnp. by apply (Hc p); right.
Qed.

(** ** Truth values *)
Definition lval (w : Z -> bool) (i : Z) : bool := if (i <? 0)%Z then negb (w (- i)%Z) else w i.

Definition sat (w : Z -> bool) (c : clause) : bool := forallb (lval w) c.
Definition dnf_value (w : Z -> bool) (f : nf) : bool := existsb (sat w) f.
Definition cnf_value (w : Z -> bool) (f : nf) : bool := forallb (existsb (lval w)) f.

Lemma lval_opp w i : i <> 0%Z -> lval w (- i) = negb (lval w i).
Proof.
  intros Hi. unfold lval. rewrite Z.opp_involutive.
  destruct (Z.ltb_spec i 0), (Z.ltb_spec (- i) 0); try lia; [|done].
  by rewrite negb_involutive.
Qed.

Lemma sat_true w c : sat w c = true <-> forall x, x ∈ c -> lval w x = true.
Proof. unfold sat. rewrite forallb_forall. by setoid_rewrite list_elem_of_In. Qed.

Lemma sat_subset w c1 c2 : c1 ⊆ c2 -> sat w c2 = true -> sat w c1 = true.
Proof. rewrite !sat_true. auto. Qed.

Lemma dnf_value_true w f : dnf_value w f = true <-> exists c, c ∈ f /\ sat w c = true.
Proof. unfold dnf_value. rewrite existsb_exists. by setoid_rewrite list_elem_of_In. Qed.

(** ** Resolution *)
Record clause_ok (c : clause) : Prop := {
  ok_sorted : sorted_clause c;
  ok_nonzero : 0%Z ∉ c;
  ok_consistent : consistent c
}.

Definition nf_ok (f : nf) : Prop := Forall clause_ok f.

Lemma nf_ok_elem f c : nf_ok f -> c ∈ f -> clause_ok c.
Proof. intros Hf Hc. by eapply Forall_forall in Hf. Qed.

Lemma elem_of_resolvent z x y c1 c2 :
  z ∈ resolvent x y c1 c2 <-> z <> x /\ z <> y /\ (z ∈ c1 \/ z ∈ c2).
Proof.
  unfold resolvent. rewrite !elem_of_clause_erase, elem_of_insert_all, elem_of_merge_clauses.
  set_solver.
Qed.

Lemma resolvent_sorted x y c1 c2 : sorted_clause (resolvent x y c1 c2).
Proof. do 2 apply clause_erase_sorted. apply insert_all_sorted. constructor. Qed.

Lemma elem_of_implications c c1 c2 :
  c ∈ implications c1 c2 <->
  exists x y, x ∈ c1 /\ y ∈ c2 /\ x = (- y)%Z /\ c = resolvent x y c1 c2 /\ tautology c = false.
Proof.
  unfold implications. rewrite list_elem_of_bind. split.
  - intros (x & Hc & Hx). apply list_elem_of_bind in Hc as (y & Hc & Hy).
    destruct (Z.eqb_spec x (- y)); [|set_solver]. destruct (tautology _) eqn:E; [set_solver|].
    apply list_elem_of_singleton in Hc as ->. by exists x, y.
  - intros (x & y & Hx & Hy & -> & -> & Ht). exists (- y)%Z. split; [|done].
    apply list_elem_of_bind. exists y. split; [|done]. rewrite Z.eqb_refl, Ht. left.
Qed.

Lemma implications_ok c1 c2 : clause_ok c1 -> clause_ok c2 -> nf_ok (implications c1 c2).
Proof.
  intros [_ H1 _] [_ H2 _]. apply Forall_forall. intros c.
  intros (x & y & _ & _ & _ & -> & Ht)%elem_of_implications.
  assert (H0 : 0%Z ∉ resolvent x y c1 c2) by (rewrite elem_of_resolvent; tauto).
  pose proof (resolvent_sorted x y c1 c2). split; [done..|]. by apply tautology_spec.
Qed.

(** A resolvent implies the disjunction of the two clauses. *)
Lemma implications_sound w c1 c2 c :
  clause_ok c1 -> clause_ok c2 -> c ∈ implications c1 c2 -> sat w c = true ->
  sat w c1 || sat w c2 = true.
Proof.
  intros [_ Hz1 Hc1] [_ Hz2 Hc2] (x & y & Hx & Hy & Exy & -> & _)%elem_of_implications Hs.
  rewrite sat_true in Hs. rewrite orb_true_iff, !sat_true.
  assert (y <> 0%Z) as Hy0 by (by intros ->). pose proof (lval_opp w y Hy0) as Hl.
  destruct (lval w y) eqn:Ey; [right|left]; intros z Hz.
  - destruct (Z.eq_dec z y) as [->|]; [done|]. apply Hs, elem_of_resolvent.
    split; [|auto]. intros ->. subst x. by apply (Hc2 y).
  - destruct (Z.eq_dec z x) as [->|]; [by rewrite Exy|]. apply Hs, elem_of_resolvent.
    split; [done|]. split; [|auto]. intros ->. apply (Hc1 x); [done|].
    by rewrite Exy, Z.opp_involutive.
Qed.

(** ** The loops over pairs of clauses *)
Definition antichain (f : nf) : Prop := forall c d, c ∈ f -> d ∈ f -> c ⊆ d -> c = d.

(** The sum of a weight of the literals. *)
Definition clause_total (g : Z -> nat) (c : clause) : nat := sum_list_with g c.
Definition total (g : Z -> nat) (f : nf) : nat := sum_list_with (clause_total g) f.

(** The second normal form is a reduction of the first. *)
Record reduction (f f' : nf) : Prop := {
  red_ok : nf_ok f';
  red_antichain : antichain f';
  red_value : forall w, dnf_value w f' = dnf_value w f;
  red_total : forall g, total g f' <= total g f;
  red_literals : mjoin f' ⊆ mjoin f;
  red_nonempty : f <> [] -> f' <> []
}.

(** A step that keeps the invariant of normal forms. *)
Definition reduces (f f' : nf) : Prop := nf_ok f -> antichain f -> reduction f f'.

Lemma reduces_refl f : reduces f f.
Proof. by split. Qed.

Lemma reduces_trans f1 f2 f3 : reduces f1 f2 -> reduces f2 f3 -> reduces f1 f3.
Proof.
  intros H12 H23 Hok Ha. destruct (H12 Hok Ha) as [Hok2 Ha2 Hv2 Ht2 Hl2 Hn2].
  destruct (H23 Hok2 Ha2) as [Hok3 Ha3 Hv3 Ht3 Hl3 Hn3].
  split; [done..| | | |auto].
  - intros w. by rewrite Hv3.
  - intros g. by rewrite Ht3.
  - by transitivity (mjoin f2).
Qed.

Definition state_nf (s : nf_state) : nf :=
  let '(a, c2, b, c1, post) := s in a ++ c2 :: b ++ c1 :: post.

Lemma elem_of_drop_supersets i c f :
  clause_ok i -> nf_ok f -> c ∈ drop_supersets i f <-> c ∈ f /\ ~ i ⊆ c.
Proof.
  intros [Hi _ _] Hf. unfold drop_supersets. rewrite list_elem_of_filter.
  split; intros [H1 H2]; split; try done.
  - destruct (nf_ok_elem f c Hf H2) as [Hc _ _].
    intros Hs%subset_eq_spec; [|done..]. by rewrite Hs in H1.
  - destruct (nf_ok_elem f c Hf H1) as [Hc _ _]. apply negb_prop_intro.
    intros Hs%Is_true_true. by apply subset_eq_spec in Hs.
Qed.

Lemma shrink_to_spec i c :
  clause_ok i -> clause_ok c ->
  (shrink_to i c = i /\ i ⊆ c /\ i <> c) \/ (shrink_to i c = c /\ (i ⊆ c -> i = c)).
Proof.
  intros [Hi _ _] [Hc _ _]. unfold shrink_to.
  destruct (subset i c) eqn:E; [left|right]; (split; [done|]).
  - by apply subset_spec in E.
  - intros Hs. destruct (decide (i = c)); [done|]. by rewrite (proj2 (subset_spec i c Hi Hc)) in E.
Qed.

Lemma clause_total_subset g c1 c2 :
  sorted_clause c1 -> c1 ⊆ c2 -> clause_total g c1 <= clause_total g c2.
Proof.
  intros H1%sorted_clause_NoDup Hs. unfold clause_total.
  destruct (submseteq_Permutation c1 c2) as [k ->]; [by apply NoDup_submseteq|].
  rewrite sum_list_with_app. lia.
Qed.

Lemma total_app g f1 f2 : total g (f1 ++ f2) = total g f1 + total g f2.
Proof. apply sum_list_with_app. Qed.

Lemma total_drop g i f : total g (drop_supersets i f) <= total g f.
Proof.
  unfold drop_supersets. induction f as [|c f IH]; [done|]. rewrite filter_cons.
  unfold total in *. case_decide; simpl; lia.
Qed.

Lemma elem_of_state c a c2 b c1 post :
  c ∈ state_nf (a, c2, b, c1, post) <-> c ∈ a \/ c = c2 \/ c ∈ b \/ c = c1 \/ c ∈ post.
Proof. simpl. by rewrite elem_of_app, elem_of_cons, elem_of_app, elem_of_cons. Qed.

Section use_implication.
Context (a b post : nf) (c1 c2 i : clause).
Abbreviation old := (state_nf (a, c2, b, c1, post)) (only parsing).
Abbreviation new := (state_nf (use_implication (a, c2, b, c1, post) i)) (only parsing).
Hypothesis (Hok : nf_ok old) (Hi : clause_ok i).

Lemma state_parts_ok : nf_ok a /\ clause_ok c2 /\ nf_ok b /\ clause_ok c1 /\ nf_ok post.
Proof. unfold nf_ok in *. simpl in Hok. by rewrite Forall_app, Forall_cons, Forall_app, Forall_cons in Hok. Qed.

Lemma elem_of_new c :
  c ∈ new <->
  c ∈ drop_supersets i a \/ c = shrink_to i c2 \/ c ∈ drop_supersets i b \/
  c = shrink_to i c1 \/ c ∈ drop_supersets i post.
Proof. apply elem_of_state. Qed.

Lemma new_clause e :
  e ∈ new ->
  (e ∈ old /\ (i ⊆ e -> i = e)) \/ (e = i /\ exists k, k ∈ old /\ i ⊆ k /\ i <> k).
Proof.
  destruct state_parts_ok as (Ha & H2 & Hb & H1 & Hp). rewrite elem_of_new, elem_of_state.
  setoid_rewrite elem_of_state.
  intros [He|[->|[He|[->|He]]]]; try (apply elem_of_drop_supersets in He; [|done..]; tauto).
  - destruct (shrink_to_spec i c2 Hi H2) as [(-> & ? & ?)|[-> ?]]; [right; eauto 10|tauto].
  - destruct (shrink_to_spec i c1 Hi H1) as [(-> & ? & ?)|[-> ?]]; [right; eauto 10|tauto].
Qed.

Lemma new_antichain : antichain old -> antichain new.
Proof.
  intros Ha c d [[Hc Hci]|[-> Hk]]%new_clause [[Hd Hdi]|[-> Hk']]%new_clause Hs; auto.
  destruct Hk' as (k & Hk & Hik & Hne). destruct Hne.
  assert (c = k) as -> by (apply Ha; [done..|]; by transitivity i).
  apply sorted_clause_ext; [apply Hi|apply (nf_ok_elem _ _ Hok Hk)|].
  intros x. split; [apply Hik|apply Hs].
Qed.

Lemma shrink_sat w c : clause_ok c -> sat w c = true -> sat w (shrink_to i c) = true.
Proof.
  intros Hc Hs. destruct (shrink_to_spec i c Hi Hc) as [(-> & ? & ?)|[-> ?]]; [|done].
  by apply (sat_subset w i c).
Qed.

Lemma new_value w :
  (sat w i = true -> sat w c1 || sat w c2 = true) -> dnf_value w new = dnf_value w old.
Proof.
  intros Hw. destruct state_parts_ok as (Ha & H2 & Hb & H1 & Hp).
  apply eq_true_iff_eq. rewrite !dnf_value_true. setoid_rewrite elem_of_new.
  assert (Hio : sat w i = true -> sat w (shrink_to i c1) = true \/ sat w (shrink_to i c2) = true).
  { intros [?|?]%Hw%orb_true_iff; [left|right]; by apply shrink_sat. }
  split.
  - intros (e & He & Hse). apply elem_of_new, new_clause in He as [[He _]|[-> _]]; [by exists e|].
    apply Hw, orb_true_iff in Hse as [?|?]; [exists c1|exists c2]; rewrite elem_of_state; auto 10.
  - intros (e & He & Hse). rewrite elem_of_state in He.
    destruct (decide (i ⊆ e)) as [Hie|Hie].
    + apply (sat_subset w i e Hie) in Hse. destruct (Hio Hse); eauto 10.
    + destruct He as [He|[->|[He|[->|He]]]];
        try (exists e; rewrite !elem_of_drop_supersets by done; tauto).
      * exists (shrink_to i c2). auto using shrink_sat.
      * exists (shrink_to i c1). auto 10 using shrink_sat.
Qed.

Lemma new_total g : total g new <= total g old.
Proof.
  destruct state_parts_ok as (Ha & [H2 _ _] & Hb & [H1 _ _] & Hp). simpl.
  assert (Hs : forall c, sorted_clause c -> clause_total g (shrink_to i c) <= clause_total g c).
  { intros c Hc. unfold shrink_to. destruct (subset i c) eqn:E; [|done].
    apply subset_spec in E as [E _]; [|apply Hi|done]. by apply clause_total_subset; [apply Hi|]. }
  rewrite !total_app. pose proof (Hs c1 H1). pose proof (Hs c2 H2).
  pose proof (total_drop g i a). pose proof (total_drop g i b). pose proof (total_drop g i post).
  change (total g (?x :: ?l)) with (clause_total g x + total g l). rewrite !total_app. simpl.
  unfold total in *. simpl. lia.
Qed.

Lemma use_implication_reduces :
  (forall w, sat w i = true -> sat w c1 || sat w c2 = true) -> antichain old -> reduction old new.
Proof.
  intros Hw Ha. split.
  - apply Forall_forall. intros e [[He _]|[-> _]]%new_clause; [by eapply nf_ok_elem|done].
  - by apply new_antichain.
  - intros w. apply new_value, Hw.
  - apply new_total.
  - intros x (e & Hx & He)%list_elem_of_join. apply list_elem_of_join.
    apply new_clause in He as [[He _]|[-> (k & Hk & Hs & _)]]; [by exists e|exists k; auto].
  - intros _. simpl. by destruct (drop_supersets i a).
Qed.
End use_implication.

(** What holds of the implications that are used in a state. *)
Definition implied (s : nf_state) (i : clause) : Prop :=
  let '(_, c2, _, c1, _) := s in
  clause_ok i /\ forall w, sat w i = true -> sat w c1 || sat w c2 = true.

(** The clauses that the loops have still to visit. *)
Definition to_visit (s : nf_state) : nat * nat :=
  let '(_, _, b, _, post) := s in (length b, length post).

Lemma use_implications_fold l s :
  Forall (implied s) l -> nf_ok (state_nf s) -> antichain (state_nf s) ->
  reduction (state_nf s) (state_nf (foldl use_implication s l)) /\
  (to_visit (foldl use_implication s l)).1 <= (to_visit s).1 /\
  (to_visit (foldl use_implication s l)).2 <= (to_visit s).2.
Proof.
  revert s. induction l as [|i l IH]; intros s Hl Hok Ha.
  { split; [by apply reduces_refl|done]. }
  apply Forall_cons in Hl as [Hi Hl]. destruct s as [[[[a c2] b] c1] post]. destruct Hi as [Hi Hw].
  pose proof (use_implication_reduces a b post c1 c2 i Hok Hi Hw Ha) as R.
  destruct (state_parts_ok a b post c1 c2 Hok) as (_ & H2 & _ & H1 & _).
  specialize (IH (use_implication (a, c2, b, c1, post) i)). simpl foldl.
  destruct IH as (R' & Hb & Hp); [|apply R..|].
  - eapply Forall_impl; [exact Hl|]. intros k [Hk Hkw]. split; [done|].
    intros w [?|?]%Hkw%orb_true_iff; apply orb_true_iff; [left|right]; by apply shrink_sat.
  - split; [by apply (reduces_trans _ _ _ (fun _ _ => R) (fun _ _ => R'))|].
    simpl in Hb, Hp |- *. unfold drop_supersets in *.
    pose proof (length_filter (fun c => negb (subset_eq i c)) b).
    pose proof (length_filter (fun c => negb (subset_eq i c)) post). lia.
Qed.

Lemma use_implications_ok s :
  nf_ok (state_nf s) -> antichain (state_nf s) ->
  reduction (state_nf s) (state_nf (use_implications s)) /\
  (to_visit (use_implications s)).1 <= (to_visit s).1 /\
  (to_visit (use_implications s)).2 <= (to_visit s).2.
Proof.
  intros Hok Ha. destruct s as [[[[a c2] b] c1] post]. apply use_implications_fold; [|done..].
  destruct (state_parts_ok a b post c1 c2 Hok) as (_ & H2 & _ & H1 & _).
  apply Forall_forall. intros i Hi. split.
  - by apply (nf_ok_elem (implications c1 c2)); [apply implications_ok|].
  - intros w. by apply implications_sound.
Qed.

Lemma c2_loop_ok n a b c1 post :
  length b <= n -> nf_ok (a ++ b ++ c1 :: post) -> antichain (a ++ b ++ c1 :: post) ->
  exists a' c1' post',
    c2_loop n a b c1 post = Ok (a', c1', post') /\ length post' <= length post /\
    reduction (a ++ b ++ c1 :: post) (a' ++ c1' :: post').
Proof.
  revert a b c1 post. induction n as [|n IH]; intros a [|c2 b] c1 post Hn Hok Ha;
    try (exists a, c1, post; split; [done|]; split; [done|]; by apply reduces_refl);
    [simpl in Hn; lia|].
  cbn [c2_loop]. destruct (use_implications_ok (a, c2, b, c1, post) Hok Ha) as (R & Hb & Hp).
  destruct (use_implications _) as [[[[a1 c2'] b1] c1'] post1]. simpl in Hn, Hb, Hp, R.
  change (a ++ (c2 :: b) ++ c1 :: post) with (a ++ c2 :: b ++ c1 :: post).
  assert (E : a1 ++ c2' :: b1 ++ c1' :: post1 = (a1 ++ [c2']) ++ b1 ++ c1' :: post1)
    by (by rewrite <- app_assoc).
  destruct (IH (a1 ++ [c2']) b1 c1' post1) as (a' & d & p & -> & Hl & R'); [lia|..].
  1,2: rewrite <- E; apply R.
  exists a', d, p. split; [done|]. split; [lia|]. rewrite <- E in R'.
  by apply (reduces_trans _ _ _ (fun _ _ => R) (fun _ _ => R')).
Qed.

Lemma c1_loop_ok n before rest :
  length rest <= n -> nf_ok (before ++ rest) -> antichain (before ++ rest) ->
  exists f, c1_loop n before rest = Ok f /\ reduction (before ++ rest) f.
Proof.
  revert before rest. induction n as [|n IH]; intros before [|c1 post] Hn Hok Ha;
    try (exists before; split; [done|]; rewrite app_nil_r in *; by apply reduces_refl);
    [simpl in Hn; lia|].
  cbn [c1_loop].
  destruct (c2_loop_ok (length before) [] before c1 post) as (a & d & p & -> & Hl & R);
    [done..|]. simpl in Hn, R |- *.
  assert (E : a ++ d :: p = (a ++ [d]) ++ p) by (by rewrite <- app_assoc).
  rewrite E in R. destruct (IH (a ++ [d]) p) as (f & -> & R'); [lia|apply R..|].
  exists f. split; [done|]. by apply (reduces_trans _ _ _ (fun _ _ => R) (fun _ _ => R')).
Qed.

(** The loops finish, and their result is a reduction. *)
Lemma all_implications_ok f :
  nf_ok f -> antichain f -> exists f', all_implications f = Ok f' /\ reduction f f'.
Proof. apply (c1_loop_ok (length f) [] f). lia. Qed.

(** ** The removal of supersets *)
Lemma erase_scan_spec c1 before l keep :
  clause_ok c1 -> nf_ok before -> erase_scan subset_eq c1 before = (l, keep) ->
  l `sublist_of` before /\ (forall e, e ∈ before -> e ∈ l \/ c1 ⊆ e) /\
  (if keep then forall d, d ∈ l -> ~ c1 ⊆ d /\ ~ d ⊆ c1 else exists d, d ∈ l /\ d ⊆ c1).
Proof.
  intros [H1 _ _] Hok. revert l keep. induction Hok as [|c2 before [H2 _ _] Hok IH];
    simpl; intros l keep E.
  { injection E as <- <-. split; [done|]. split; intros d Hd; inversion Hd. }
  destruct (subset_eq c1 c2) eqn:E12.
  { apply subset_eq_spec in E12; [|done..]. destruct (IH _ _ E) as (Hl & He & Hk).
    split; [by constructor|]. split; [|done].
    intros e [->|?]%elem_of_cons; [by right|auto]. }
  destruct (subset_eq c2 c1) eqn:E21.
  { injection E as <- <-. split; [done|]. split; [auto|]. exists c2. split; [left|].
    by apply subset_eq_spec in E21. }
  destruct (erase_scan subset_eq c1 before) as [l' k'] eqn:E'. injection E as <- <-.
  destruct (IH _ _ eq_refl) as (Hl & He & Hk).
  split; [by constructor|]. split; [intros e [->|Hin]%elem_of_cons; [left; left|]|].
  { destruct (He e Hin); [left; by right|by right]. }
  rewrite <- not_true_iff_false, subset_eq_spec in E12, E21 by done.
  destruct k'; [|destruct Hk as (d & ? & ?); exists d; split; [by right|done]].
  intros d [->|?]%elem_of_cons; auto.
Qed.

Lemma total_sublist g f1 f2 : f1 `sublist_of` f2 -> total g f1 <= total g f2.
Proof. unfold total. induction 1; simpl; lia. Qed.

Lemma sublist_literals (f1 f2 : nf) : f1 `sublist_of` f2 -> mjoin f1 ⊆ mjoin f2.
Proof.
  intros Hs x (c & Hx & Hc)%list_elem_of_join. apply list_elem_of_join. exists c.
  split; [done|]. by eapply elem_of_sublist.
Qed.

Lemma pairwise_step f g c l keep :
  clause_ok c -> reduction f g -> erase_scan subset_eq c g = (l, keep) ->
  reduction (f ++ [c]) (if keep then l ++ [c] else l).
Proof.
  intros Hc [Hok Ha Hv Ht Hl Hn] E.
  destruct (erase_scan_spec c g l keep Hc Hok E) as (Hs & He & Hk).
  assert (Hlg : forall e, e ∈ l -> e ∈ g) by (intros e He'; by eapply elem_of_sublist).
  assert (Hin : forall e, e ∈ (if keep then l ++ [c] else l) -> e ∈ l \/ keep = true /\ e = c).
  { destruct keep; [|auto]. intros e [?|?%list_elem_of_singleton]%elem_of_app; auto. }
  assert (Hsub : (if keep then l ++ [c] else l) `sublist_of` g ++ [c]).
  { destruct keep; [by apply sublist_app|by apply sublist_inserts_r]. }
  split.
  - apply Forall_forall. intros e [?|[_ ->]]%Hin; [|done]. eapply nf_ok_elem; eauto.
  - intros d e [Hd|[-> ->]]%Hin [Hd'|[Hkt ->]]%Hin; intros Hde; try done; auto.
    + rewrite Hkt in Hk. by destruct (Hk d Hd) as [_ []].
    + by destruct (Hk e Hd') as [[] _].
  - intros w. transitivity (dnf_value w (g ++ [c])); [|unfold dnf_value in *; by rewrite !existsb_app, Hv].
    apply eq_true_iff_eq. rewrite !dnf_value_true. split.
    + intros (e & He' & Hsat). exists e. split; [by eapply elem_of_sublist|done].
    + assert (Hcs : sat w c = true -> exists e, e ∈ (if keep then l ++ [c] else l) /\ sat w e = true).
      { intros Hsat. destruct keep; [exists c; split; [set_solver|done]|].
        destruct Hk as (d & Hd & Hdc). exists d. split; [done|]. by apply (sat_subset w d c). }
      intros (e & [He'|E'%list_elem_of_singleton]%elem_of_app & Hsat); [|subst e; auto].
      destruct (He e He') as [Hel|Hce].
      * exists e. split; [destruct keep; set_solver|done].
      * apply Hcs. by apply (sat_subset w c e).
  - intros k. rewrite total_app. specialize (Ht k).
    pose proof (total_sublist k _ _ Hsub). rewrite total_app in *. lia.
  - transitivity (mjoin (g ++ [c])); [by apply sublist_literals|].
    rewrite !join_app. set_solver.
  - intros _. destruct keep; [by destruct l|]. destruct Hk as (d & Hd & _). by destruct l; [inversion Hd|].
Qed.

Lemma pairwise_erase_if_ok f : nf_ok f -> reduction f (pairwise_erase_if subset_eq f).
Proof.
  induction f as [|c f IH] using rev_ind; intros Hok.
  { split; try done. intros c d Hc; inversion Hc. }
  apply Forall_app in Hok as [Hok Hc]. apply Forall_inv in Hc. unfold pairwise_erase_if in *.
  rewrite foldl_app. simpl.
  destruct (erase_scan _ _ _) as [l keep] eqn:E. apply (pairwise_step _ _ _ _ _ Hc (IH Hok) E).
Qed.

Lemma reduction_trans f1 f2 f3 : reduction f1 f2 -> reduction f2 f3 -> reduction f1 f3.
Proof.
  intros [_ _ Hv Ht Hl Hn] [Hok2 Ha2 Hv2 Ht2 Hl2 Hn2]. split; [done..| | | |auto].
  - intros w. by rewrite Hv2.
  - intros g. by rewrite Ht2.
  - by transitivity (mjoin f2).
Qed.

(** ** The removal of tautologies *)
Record clause_fine (c : clause) : Prop := { fine_sorted : sorted_clause c; fine_nonzero : 0%Z ∉ c }.

Lemma no_tautologies_ok f : Forall clause_fine f -> nf_ok (no_tautologies f).
Proof.
  intros Hf. apply Forall_forall. intros c [Ht Hc]%list_elem_of_filter.
  rewrite Forall_forall in Hf. destruct (Hf c Hc). split; [done..|]. apply tautology_spec; [done..|].
  by apply negb_true_iff, Is_true_true.
Qed.

Lemma tautology_unsat w c : clause_fine c -> tautology c = true -> sat w c = false.
Proof.
  intros [Hs Hz] Ht. apply not_true_iff_false. rewrite sat_true. intros Hw.
  apply not_false_iff_true in Ht. apply Ht, tautology_spec; [done..|]. intros p Hp Hnp.
  assert (p <> 0%Z) by (by intros ->). pose proof (Hw _ Hnp) as E.
  by rewrite lval_opp, (Hw p Hp) in E.
Qed.

Lemma no_tautologies_value w f : Forall clause_fine f -> dnf_value w (no_tautologies f) = dnf_value w f.
Proof.
  unfold no_tautologies. induction 1 as [|c f Hc Hf IH]; [done|]. rewrite filter_cons.
  destruct (tautology c) eqn:E; simpl.
  - by rewrite (tautology_unsat w c Hc E).
  - by rewrite IH.
Qed.

(** From the removal of tautologies on, both reductions do the same. *)
Lemma reduce_nf_ok f :
  Forall clause_fine f ->
  exists f', all_implications (pairwise_erase_if subset_eq (no_tautologies f)) = Ok f' /\
  reduction (no_tautologies f) f'.
Proof.
  intros Hf. pose proof (pairwise_erase_if_ok _ (no_tautologies_ok f Hf)) as R.
  destruct (all_implications_ok (pairwise_erase_if subset_eq (no_tautologies f))) as (f' & -> & R');
    [apply R..|].
  exists f'. split; [done|]. by eapply reduction_trans.
Qed.

(** ** Negated clauses *)
Lemma negate_clause_sorted c : sorted_clause (negate_clause c).
Proof. apply insert_all_sorted. constructor. Qed.

Lemma elem_of_negate_clause x c : x ∈ negate_clause c <-> (- x)%Z ∈ c.
Proof.
  unfold negate_clause. rewrite elem_of_insert_all, list_elem_of_fmap. split.
  - intros [(y & -> & Hy)|Hx]; [by rewrite Z.opp_involutive|inversion Hx].
  - intros Hx. left. exists (- x)%Z. by rewrite Z.opp_involutive.
Qed.

Lemma negate_clause_fine c : 0%Z ∉ c -> clause_fine (negate_clause c).
Proof. intros H0. split; [apply negate_clause_sorted|]. by rewrite elem_of_negate_clause. Qed.

Lemma negate_clause_perm c : sorted_clause c -> negate_clause c ≡ₚ Z.opp <$> c.
Proof.
  intros Hc. apply NoDup_Permutation.
  - apply sorted_clause_NoDup, negate_clause_sorted.
  - apply NoDup_fmap_2; [intros x y; lia|by apply sorted_clause_NoDup].
  - intros x. rewrite elem_of_negate_clause, list_elem_of_fmap. split.
    + intros Hx. exists (- x)%Z. by rewrite Z.opp_involutive.
    + intros (y & -> & Hy). by rewrite Z.opp_involutive.
Qed.

Lemma clause_total_negate g c :
  (forall x, g (- x)%Z = g x) -> sorted_clause c ->
  clause_total g (negate_clause c) = clause_total g c.
Proof.
  intros Hg Hc. unfold clause_total. rewrite (negate_clause_perm c Hc).
  clear Hc. induction c as [|x c IH]; [done|].
  rewrite fmap_cons. cbn [sum_list_with]. by rewrite Hg, IH.
Qed.

Lemma clause_value_negate w c :
  0%Z ∉ c -> existsb (lval w) (negate_clause c) = negb (sat w c).
Proof.
  intros H0. apply eq_true_iff_eq. rewrite negb_true_iff, <- not_true_iff_false, sat_true, existsb_exists.
  split.
  - intros (x & Hx%list_elem_of_In & Hv) Hs. apply elem_of_negate_clause in Hx.
    assert (x <> 0%Z) by (by intros ->). pose proof (Hs _ Hx) as E. by rewrite lval_opp, Hv in E.
  - intros Hs. destruct (existsb (fun x => negb (lval w x)) c) eqn:E.
    + apply existsb_exists in E as (x & Hx%list_elem_of_In & Hv). exists (- x)%Z.
      rewrite <- list_elem_of_In, elem_of_negate_clause, Z.opp_involutive. split; [done|].
      rewrite lval_opp; [done|]. by intros ->.
    + destruct Hs. intros x Hx. apply not_false_iff_true. intros Hv.
      apply not_true_iff_false in E. apply E, existsb_exists. exists x.
      by rewrite <- list_elem_of_In, Hv.
Qed.

Lemma cnf_value_negate w f :
  (forall c, c ∈ f -> 0%Z ∉ c) -> cnf_value w (negate_clause <$> f) = negb (dnf_value w f).
Proof.
  unfold cnf_value, dnf_value. induction f as [|c f IH]; intros H0; [done|].
  rewrite fmap_cons. cbn [forallb existsb].
  rewrite clause_value_negate, IH, negb_orb; [done|set_solver|set_solver].
Qed.

(** ** What all clauses share *)
Lemma elem_of_erase_all x i c : x ∈ erase_all i c <-> x ∈ c /\ x ∉ i.
Proof.
  revert c. unfold erase_all. induction i as [|y i IH]; intros c; simpl; [set_solver|].
  rewrite IH, elem_of_clause_erase. set_solver.
Qed.

Lemma erase_all_sorted i c : sorted_clause c -> sorted_clause (erase_all i c).
Proof.
  revert c. unfold erase_all. induction i as [|y i IH]; intros c Hc; [done|].
  by apply IH, clause_erase_sorted.
Qed.

Lemma intersect_loop_spec i l :
  sorted_clause i -> Forall sorted_clause l ->
  sorted_clause (intersect_loop i l) /\ intersect_loop i l ⊆ i /\
  (forall c, c ∈ l -> intersect_loop i l ⊆ c).
Proof.
  intros Hi Hl. revert i Hi. induction Hl as [|c l Hc Hl IH]; intros i Hi.
  { split; [done|]. split; [done|]. intros c Hc; inversion Hc. }
  cbn [intersect_loop]. destruct i as [|y i].
  { split; [done|]. split; [done|]. intros d _ x Hx; inversion Hx. }
  destruct (length c =? 1); [split; [constructor|]; split; set_solver|].
  destruct (IH (insert_all (set_intersection (y :: i) c) [])) as (Hs & Hsub & Hf);
    [apply insert_all_sorted; constructor|].
  assert (Hin : forall x, x ∈ insert_all (set_intersection (y :: i) c) [] -> x ∈ y :: i /\ x ∈ c).
  { intros x. rewrite elem_of_insert_all, elem_of_set_intersection by done. set_solver. }
  split; [done|]. split; [intros x Hx; by apply Hin, Hsub|].
  intros d [->|Hd]%elem_of_cons; [intros x Hx; by apply Hin, Hsub|by apply Hf].
Qed.

Lemma intersect_spec f :
  Forall sorted_clause f ->
  sorted_clause (intersect f) /\ (forall c, c ∈ f -> intersect f ⊆ c) /\
  (intersect f <> [] -> 2 <= length f).
Proof.
  intros Hf. unfold intersect.
  destruct f as [|c [|d f]]; [split; [constructor|]; split; set_solver..|].
  apply Forall_cons in Hf as [Hc Hf].
  destruct (1 <? length c); [|split; [constructor|]; split; [set_solver|done]].
  destruct (intersect_loop_spec c (d :: f) Hc Hf) as (Hs & Hsub & Hin). split; [done|].
  split; [intros e [->|He]%elem_of_cons; auto|]. simpl. lia.
Qed.
