(* ===== verification/ReductSpec.v ===== *)
(** The meaning of logical combo programs, and the mapper: trees are numbered
    and the numbers give the trees back, so a normal form has the value of the
    formula it was made from. *)
From Stdlib Require Import SpecFloat.
From S2P Require Import Prelude Combo FlatNormalForm Reduct NFSpec.
From S2P Require TruthValue.

(** ** Values of formulas *)

(** The values of the arguments, and of the subtrees that are no logical
    operators, where they have one. *)
Record valuation := {
  v_arg : Z -> option bool;
  v_atom : combo_tree -> option bool
}.

Fixpoint value (V : valuation) (t : combo_tree) : option bool :=
  let 'Node v ch := t in
  match v with
  | Builtin id.logical_true => Some true
  | Builtin id.logical_false => Some false
  | Builtin id.logical_and => forallb (fun b => b) <$> mapM (value V) ch
  | Builtin id.logical_or => existsb (fun b => b) <$> mapM (value V) ch
  | Builtin id.logical_not => match ch with [c] => negb <$> value V c | _ => None end
  | Argument i =>
      if (i =? 0)%Z then None
      else (fun b => if (i <? 0)%Z then negb b else b) <$> v_arg V (Z.abs i)
  | _ => v_atom V t
  end.

(** The second tree has every value that the first one has. *)
Definition preserves (t t' : combo_tree) : Prop :=
  forall V b, value V t = Some b -> value V t' = Some b.

#[export] Instance preserves_preorder : PreOrder preserves.
Proof. split; [by intros t V b|]. intros t1 t2 t3 H12 H23 V b H. by apply H23, H12. Qed.

Abbreviation values V := (Forall2 (fun t b => value V t = Some b)) (only parsing).

Lemma value_and V ch b :
  value V (Node (Builtin id.logical_and) ch) = Some b <->
  exists bs, values V ch bs /\ b = forallb (fun b => b) bs.
Proof.
  simpl. rewrite fmap_Some. split; intros (bs & H & ->); exists bs; (split; [|done]);
    by apply mapM_Some.
Qed.

Lemma value_or V ch b :
  value V (Node (Builtin id.logical_or) ch) = Some b <->
  exists bs, values V ch bs /\ b = existsb (fun b => b) bs.
Proof.
  simpl. rewrite fmap_Some. split; intros (bs & H & ->); exists bs; (split; [|done]);
    by apply mapM_Some.
Qed.

Lemma values_preserved V l l' bs : Forall2 preserves l l' -> values V l bs -> values V l' bs.
Proof.
  intros H. revert bs. induction H as [|t t' l l' Ht Hl IH]; intros bs Hv.
  - by inversion Hv.
  - inversion Hv as [|? b ? bs' Hb Hbs]; subst. constructor; [by apply Ht|by apply IH].
Qed.

(** The rules rewrite below logical operators. *)
Lemma preserves_junctor v l l' :
  is_junctor v -> Forall2 preserves l l' -> preserves (Node v l) (Node v l').
Proof.
  destruct v as [|[]| | | | | | | | | | |]; intros Hj Hl V b; try done.
  - rewrite !value_and. intros (bs & Hbs & ->). exists bs. split; [by eapply values_preserved|done].
  - rewrite !value_or. intros (bs & Hbs & ->). exists bs. split; [by eapply values_preserved|done].
Qed.

Lemma preserves_negation t t' : preserves t t' -> preserves (negation t) (negation t').
Proof. intros Ht V b. simpl. rewrite !fmap_Some. intros (c & Hc & ->). exists c. auto. Qed.

Lemma value_junctor V v ch b :
  is_junctor v -> value V (Node v ch) = Some b -> exists bs, values V ch bs.
Proof.
  destruct v as [|[]| | | | | | | | | | |]; try done; intros _; [intros H%value_and|intros H%value_or];
    destruct H as (bs & ? & _); eauto.
Qed.

(** ** The evaluator computes the value *)
Section agrees.
Context {World : Type} `{RandGen World, Libm} (pe : option (EvaluatorMethods World)).
Context (binding : bindings) (n : nat) (s : World).

(** The bindings and the evaluator have the values of [V], without effects. *)
Definition agrees (V : valuation) : Prop :=
  (forall i b, (0 < i)%Z -> v_arg V i = Some b -> binding i = inl (bool_to_vertex b)) /\
  (forall t b, v_atom V t = Some b ->
   eval_throws pe binding n t s = (Ok (inr (bool_to_vertex b)), s)).

Definition evaluates (t : combo_tree) (b : bool) : Prop :=
  eval_throws pe binding n t s = (Ok (inr (bool_to_vertex b)), s).

Lemma negate_bool_to_vertex b : negate_vertex (bool_to_vertex b) = Ok (bool_to_vertex (negb b)).
Proof. by destruct b. Qed.

Abbreviation ev := (eval_throws pe binding n) (only parsing).

Lemma eval_and_cons c ch :
  ev (Node (Builtin id.logical_and) (c :: ch)) =
  (ev c ≫= fun u => if bool_decide (u = Builtin id.logical_false)
                    then mret (Builtin id.logical_false)
                    else ev (Node (Builtin id.logical_and) ch)).
Proof. by destruct n. Qed.

Lemma eval_or_cons c ch :
  ev (Node (Builtin id.logical_or) (c :: ch)) =
  (ev c ≫= fun u => if bool_decide (u = Builtin id.logical_true)
                    then mret (Builtin id.logical_true)
                    else ev (Node (Builtin id.logical_or) ch)).
Proof. by destruct n. Qed.

Lemma eval_not c :
  ev (Node (Builtin id.logical_not) [c]) = (ev c ≫= fun u => ev_res (negate_vertex u)).
Proof. by destruct n. Qed.

Lemma evaluates_and ch bs :
  Forall2 evaluates ch bs ->
  evaluates (Node (Builtin id.logical_and) ch) (forallb (fun b => b) bs).
Proof.
  unfold evaluates. induction 1 as [|c b ch bs Hc Hch IH]; [by destruct n|].
  rewrite eval_and_cons. unfold mbind, ev_bind. rewrite Hc. by destruct b.
Qed.

Lemma evaluates_or ch bs :
  Forall2 evaluates ch bs ->
  evaluates (Node (Builtin id.logical_or) ch) (existsb (fun b => b) bs).
Proof.
  unfold evaluates. induction 1 as [|c b ch bs Hc Hch IH]; [by destruct n|].
  rewrite eval_or_cons. unfold mbind, ev_bind. rewrite Hc. by destruct b.
Qed.

Lemma evaluates_not c b :
  evaluates c b -> evaluates (Node (Builtin id.logical_not) [c]) (negb b).
Proof.
  unfold evaluates. intros Hc. rewrite eval_not. unfold mbind, ev_bind, ev_res.
  by rewrite Hc, negate_bool_to_vertex.
Qed.

Lemma evaluates_argument V i ch b :
  agrees V -> value V (Node (Argument i) ch) = Some b -> evaluates (Node (Argument i) ch) b.
Proof.
  intros [Ha _]. cbn [value]. destruct (Z.eqb_spec i 0); [done|]. rewrite fmap_Some.
  intros (c & Hc & ->). apply Ha in Hc; [|lia]. unfold evaluates.
  destruct n as [|n']; simpl; destruct (Z.ltb_spec 0 i), (Z.ltb_spec i 0); try lia;
    [rewrite Z.abs_eq in Hc by lia|rewrite Z.abs_neq in Hc by lia|
     rewrite Z.abs_eq in Hc by lia|rewrite Z.abs_neq in Hc by lia];
    rewrite Hc; try done; unfold ev_res; by rewrite negate_bool_to_vertex.
Qed.

Lemma evaluates_value V t b : agrees V -> value V t = Some b -> evaluates t b.
Proof.
  intros HV. revert b. induction t as [v ch IH] using tree_ind'. intros b Hb.
  assert (Hch : forall bs, values V ch bs -> Forall2 evaluates ch bs).
  { intros bs Hbs. clear Hb. induction Hbs as [|c d ch ds Hd Hds IHds]; [constructor|].
    apply Forall_cons in IH as [IHc IH]. constructor; auto. }
  destruct v as [|[]| | i | | | | | | | | |]; try (by apply HV).
  - injection Hb as <-. unfold evaluates. by destruct n.
  - injection Hb as <-. unfold evaluates. by destruct n.
  - apply value_and in Hb as (bs & Hbs & ->). by apply evaluates_and, Hch.
  - apply value_or in Hb as (bs & Hbs & ->). by apply evaluates_or, Hch.
  - destruct ch as [|c [|]]; try done. apply fmap_Some in Hb as (d & Hd & ->).
    apply evaluates_not. apply Forall_inv in IH. by apply IH.
  - by eapply evaluates_argument.
Qed.

Lemma eval_value V t b :
  agrees V -> value V t = Some b -> eval pe binding n t s = (Ok (bool_to_vertex b), s).
Proof. intros HV Hb. unfold eval. by rewrite (evaluates_value V t b HV Hb). Qed.
End agrees.
