(* ===== verification/NFMapper.v ===== *)
(** The mapper of flat normal forms: every item gets its number, every number
    gives its item back ([create_add]), and the trees that are extracted have the
    value of the normal form. *)
From Stdlib Require Import SpecFloat.
From S2P Require Import Prelude Combo FlatNormalForm Reduct NFSpec ReductSpec.
From S2P Require TruthValue.

(** ** The order of trees

    Among regular vertices (no NaN, no negative zero, no neural network vertex)
    the order separates different vertices. In a regular tree arguments have no
    children. *)
Definition regular_vertex (v : vertex) : bool :=
  match v with
  | Contin (S754_zero true) | Contin S754_nan | AnnType _ _ => false
  | _ => true
  end.

Definition is_nil {A} (l : list A) : bool := if l is [] then true else false.

Fixpoint regular (t : combo_tree) : bool :=
  let 'Node v ch := t in
  regular_vertex v && forallb regular ch && (if is_argument v then is_nil ch else true).

Lemma regular_children v ch : regular (Node v ch) -> forallb regular ch.
Proof. simpl. rewrite !andb_True. tauto. Qed.

Lemma string_ltb_asym s t : String.ltb s t = true -> String.ltb t s = false.
Proof.
  unfold String.ltb. rewrite (String.compare_antisym s t).
  by destruct (String.compare t s).
Qed.

Lemma vertex_ltb_asym u v : vertex_ltb u v = true -> vertex_ltb v u = false.
Proof.
  destruct u as [x| | |i| | | |s| |s| | |], v as [y| | |j| | | |t| |t| | |]; simpl; try done;
    try (rewrite N.ltb_lt, N.ltb_ge; lia).
  - intros H. by apply TruthValue.flt_asym.
  - rewrite !absolute_value_order_key, Z.ltb_lt, Z.ltb_ge. lia.
  - apply string_ltb_asym.
  - apply string_ltb_asym.
Qed.

Lemma SFltb_eq x y :
  regular_vertex (Contin x) -> regular_vertex (Contin y) ->
  SFltb x y = false -> SFltb y x = false -> x = y.
Proof.
  unfold SFltb. rewrite (TruthValue.SFcompare_swap x y). intros Hx Hy.
  destruct x as [[]|[]| |[] m e], y as [[]|[]| |[] m' e']; try done; simpl in *;
  (destruct (Z.compare_spec e e') as [->| |]; simpl; try done;
   change (Pos.compare_cont Eq m m') with (m ?= m')%positive;
   destruct (Pos.compare_spec m m') as [->| |]; simpl; done).
Qed.

Lemma string_ltb_eq s t : String.ltb s t = false -> String.ltb t s = false -> s = t.
Proof.
  unfold String.ltb. rewrite (String.compare_antisym s t).
  destruct (String.compare t s) eqn:E; try done. by apply String.compare_eq_iff in E.
Qed.

Lemma vertex_ltb_eq u v :
  regular_vertex u -> regular_vertex v -> vertex_ltb u v = false -> vertex_ltb v u = false -> u = v.
Proof.
  destruct u as [x|a|[]|i|a|p|p|s|p|s|p|p|], v as [y|b|[]|j|b|q|q|t|q|t|q|q|]; simpl; try done;
    try (rewrite !N.ltb_ge; intros; f_equal; lia).
  - intros. f_equal. by apply SFltb_eq.
  - rewrite !N.ltb_ge. intros. f_equal. destruct a, b; simpl in *; try done; lia.
  - rewrite !absolute_value_order_key, !Z.ltb_ge. intros. f_equal. apply key_inj. lia.
  - rewrite !N.ltb_ge. intros. f_equal. destruct a, b; simpl in *; try done; lia.
  - intros. f_equal. by apply string_ltb_eq.
  - intros. f_equal. by apply string_ltb_eq.
Qed.

(** The loop of [cmp] over the children. *)
Fixpoint cmp_list (l1 l2 : list combo_tree) : Z :=
  match l1, l2 with
  | [], [] => 0
  | [], _ :: _ => 1
  | _ :: _, [] => -1
  | c1 :: l1', c2 :: l2' => if (cmp c1 c2 =? 0)%Z then cmp_list l1' l2' else cmp c1 c2
  end%Z.

Lemma cmp_node v1 ch1 v2 ch2 :
  cmp (Node v1 ch1) (Node v2 ch2) =
  (if vertex_ltb v1 v2 then 1 else if vertex_ltb v2 v1 then -1 else cmp_list ch1 ch2)%Z.
Proof.
  cbn [cmp]. destruct (vertex_ltb v1 v2); [done|]. destruct (vertex_ltb v2 v1); [done|].
  revert ch2. induction ch1 as [|c1 ch1 IH]; by intros [|c2 ch2].
Qed.

Lemma cmp_opp t1 t2 : cmp t2 t1 = (- cmp t1 t2)%Z.
Proof.
  revert t2. induction t1 as [v1 ch1 IH] using tree_ind'. intros [v2 ch2]. rewrite !cmp_node.
  destruct (vertex_ltb v1 v2) eqn:E; [by rewrite (vertex_ltb_asym _ _ E)|].
  destruct (vertex_ltb v2 v1); [done|]. revert ch2.
  induction IH as [|c1 ch1 Hc Hch IHl]; intros [|c2 ch2]; try done. cbn [cmp_list].
  rewrite Hc, IHl. destruct (Z.eqb_spec (cmp c1 c2) 0) as [->|]; [done|].
  by destruct (Z.eqb_spec (- cmp c1 c2) 0); [lia|].
Qed.

Lemma cmp_eq t1 t2 : regular t1 -> regular t2 -> cmp t1 t2 = 0%Z -> t1 = t2.
Proof.
  revert t2. induction t1 as [v1 ch1 IH] using tree_ind'. intros [v2 ch2].
  simpl regular. rewrite !andb_True. intros [[Hv1 Hch1] _] [[Hv2 Hch2] _]. rewrite cmp_node.
  destruct (vertex_ltb v1 v2) eqn:E1; [done|]. destruct (vertex_ltb v2 v1) eqn:E2; [done|].
  rewrite (vertex_ltb_eq v1 v2) by done. clear E1 E2. intros E. f_equal. revert ch2 Hch2 E.
  induction IH as [|c1 ch1 Hc Hch IHl]; intros [|c2 ch2]; try done. simpl in *.
  apply andb_True in Hch1 as [Hc1 Hch1]. rewrite andb_True. intros [Hc2 Hch2].
  destruct (Z.eqb_spec (cmp c1 c2) 0); [|done]. intros E. f_equal; [by apply Hc|by apply IHl].
Qed.

Lemma equivalent_eq t1 t2 : regular t1 -> regular t2 -> equivalent t1 t2 = true -> t1 = t2.
Proof.
  intros H1 H2. unfold equivalent, subtree_lt. rewrite (cmp_opp t1 t2).
  rewrite andb_true_iff, !negb_true_iff, !Z.ltb_ge. intros. apply cmp_eq; [done..|lia].
Qed.

Lemma cmp_refl t : cmp t t = 0%Z.
Proof. pose proof (cmp_opp t t). lia. Qed.

Lemma equivalent_refl t : equivalent t t = true.
Proof. unfold equivalent, subtree_lt. by rewrite cmp_refl. Qed.

(** ** The mapper *)
Record mapper_ok (m : nf_mapper) : Prop := {
  mok_items : forall t i, (t, i) ∈ _item2int m ->
              (0 < i)%Z /\ regular t /\ afind i (_int2item m) = Some t;
  mok_numbers : forall i t, afind i (_int2item m) = Some t ->
                (i <= Z.of_nat (length (_int2item m)))%Z
}.

Definition extends (m m' : nf_mapper) : Prop :=
  forall i t, afind i (_int2item m) = Some t -> afind i (_int2item m') = Some t.

#[export] Instance extends_preorder : PreOrder extends.
Proof. split; [by intros m i t|]. intros m1 m2 m3 H12 H23 i t Hi. by apply H23, H12. Qed.

Lemma empty_mapper_ok : mapper_ok empty_mapper.
Proof. split; [intros t i Ht; inversion Ht|done]. Qed.

Lemma find_item_Some t m i :
  find_item t m = Some i -> exists k, (k, i) ∈ m /\ equivalent k t = true.
Proof.
  induction m as [|[k j] m IH]; simpl; [done|]. destruct (equivalent k t) eqn:E.
  - intros [= ->]. exists k. split; [left|done].
  - intros (k' & Hk & Hk')%IH. exists k'. split; [by right|done].
Qed.

Lemma create_extends m m' i t : extends m m' -> create m i = Ok t -> create m' i = Ok t.
Proof.
  intros He. unfold create, get_item.
  destruct (i <? 0)%Z; [destruct (afind (- i)%Z (_int2item m)) eqn:E|destruct (afind i (_int2item m)) eqn:E];
    try done; by rewrite (He _ _ E).
Qed.

(** The number of an item: it gives the item back, and only the number of an
    argument is negative. *)
Definition number_of (m : nf_mapper) (t : combo_tree) (i : Z) : Prop :=
  i <> 0%Z /\ create m i = Ok t /\ ((i < 0)%Z -> exists a, t = Node (Argument a) []).

Lemma number_of_extends m m' t i : extends m m' -> number_of m t i -> number_of m' t i.
Proof. intros He (H0 & Hc & Hn). split; [done|]. split; [by eapply create_extends|done]. Qed.

Lemma new_item_ok t m i m' :
  mapper_ok m -> regular t -> new_item t m = (i, m') ->
  mapper_ok m' /\ extends m m' /\ number_of m' t i.
Proof.
  intros [Hi Hn] Ht [= <- <-]. set (k := Z.of_nat (S (length (_int2item m)))).
  assert (Hk : forall j u, afind j (_int2item m) = Some u -> j <> k) by (intros j u ?%Hn; lia).
  assert (He : extends m {| _item2int := (t, k) :: _item2int m; _int2item := (k, t) :: _int2item m |}).
  { intros j u Hj. simpl. rewrite decide_False; [done|by eapply Hk]. }
  split; [split|split; [done|]].
  - intros u j [[= -> ->]|Hu]%elem_of_cons; simpl.
    + rewrite decide_True by done. split; [lia|done].
    + destruct (Hi u j Hu) as (? & ? & Hj). split; [done|]. split; [done|]. by apply He.
  - intros j u. simpl. case_decide; [subst; lia|]. intros ?%Hn. lia.
  - split; [lia|]. split; [|lia]. unfold create, get_item. simpl.
    destruct (Z.ltb_spec k 0); [lia|]. by rewrite decide_True.
Qed.

Lemma find_item_number t m i :
  mapper_ok m -> regular t -> find_item t (_item2int m) = Some i ->
  (0 < i)%Z /\ afind i (_int2item m) = Some t.
Proof.
  intros [Hi _] Ht (k & Hk & E)%find_item_Some. destruct (Hi k i Hk) as (? & Hrk & Hf).
  by apply equivalent_eq in E as ->.
Qed.

Lemma add_item_ok t m i m' :
  mapper_ok m -> regular t -> add_item t m = (i, m') ->
  mapper_ok m' /\ extends m m' /\ number_of m' t i.
Proof.
  intros Hm Ht. unfold add_item. destruct (find_item t (_item2int m)) as [j|] eqn:E.
  { intros [= <- <-]. destruct (find_item_number t m j Hm Ht E) as [Hj Hf].
    split; [done|]. split; [done|]. split; [lia|]. split; [|lia]. unfold create, get_item.
    destruct (Z.ltb_spec j 0); [lia|]. by rewrite Hf. }
  destruct t as [v ch]. destruct v as [| | |a| | | | | | | | |]; try by apply new_item_ok.
  destruct (find_item (Node (Argument (- a)%Z) ch) (_item2int m)) as [j|] eqn:E'; [|by apply new_item_ok].
  intros [= <- <-]. assert (Hch : ch = []) by (simpl in Ht; rewrite !andb_True in Ht; destruct Ht as [_ Ht]; by destruct ch).
  subst ch.
  destruct (find_item_number (Node (Argument (- a)%Z) []) m j Hm Ht E') as [Hj Hf].
  split; [done|]. split; [done|]. split; [lia|]. split; [|by exists a]. unfold create, get_item.
  destruct (Z.ltb_spec (- j) 0); [|lia]. rewrite Z.opp_involutive, Hf. simpl.
  by rewrite Z.opp_involutive.
Qed.

Lemma create_negative m i t :
  number_of m t i -> (i < 0)%Z ->
  exists a, get_item m (- i) = Ok (Node (Argument a) []) /\ t = Node (Argument (- a)) [].
Proof.
  intros (_ & Hc & Hn) Hi. destruct (Hn Hi) as (b & ->). unfold create in Hc.
  destruct (Z.ltb_spec i 0); [|lia].
  destruct (get_item m (- i)) as [[u ch]| | |]; try done. simpl in Hc.
  destruct u as [| | |a| | | | | | | | |]; try done. injection Hc as <- ->. by exists a.
Qed.

(** ** Clauses of numbers *)

(** The number of leaves of a tree of junctors; a junctor without children
    counts as one. *)
Fixpoint leaves (t : combo_tree) : nat :=
  let 'Node v ch := t in
  if is_junctor v then match ch with [] => 1 | _ => sum_list_with leaves ch end
  else S (sum_list_with leaves ch).

Definition weight (m : nf_mapper) (i : Z) : nat :=
  match get_item m (Z.abs i) with Ok t => leaves t | _ => 0 end.

Lemma number_of_weight m t i : number_of m t i -> weight m i = leaves t.
Proof.
  intros Ht. unfold weight. destruct (Z.ltb_spec i 0) as [Hi|Hi].
  - destruct (create_negative m i t Ht Hi) as (a & Ha & ->). by rewrite Z.abs_neq, Ha by lia.
  - destruct Ht as (_ & Hc & _). unfold create in Hc. rewrite Z.abs_eq by lia.
    destruct (Z.ltb_spec i 0); [lia|]. by rewrite Hc.
Qed.

Lemma leaves_pos t : 1 <= leaves t.
Proof.
  induction t as [v ch IH] using tree_ind'. simpl. destruct (is_junctor v); [|lia].
  destruct IH as [|c ch Hc IH]; simpl; lia.
Qed.

(** A clause of the numbers of a list of items. *)
Record numbers (m : nf_mapper) (l : list combo_tree) (c : clause) : Prop := {
  num_fine : clause_fine c;
  num_items : forall t, t ∈ l -> exists i, i ∈ c /\ number_of m t i;
  num_numbers : forall i, i ∈ c -> exists t, t ∈ l /\ number_of m t i;
  num_total : clause_total (weight m) c <= sum_list_with leaves l
}.

Lemma numbers_nil m : numbers m [] [].
Proof. split; [split; [constructor|]| | |done]; set_solver. Qed.

Lemma clause_total_ext g g' c : (forall i, i ∈ c -> g i = g' i) -> clause_total g c = clause_total g' c.
Proof.
  unfold clause_total. induction c as [|x c IH]; intros Hg; [done|]. simpl.
  rewrite Hg by left. f_equal. apply IH. intros i Hi. apply Hg. by right.
Qed.

Lemma numbers_extends m m' l c : extends m m' -> numbers m l c -> numbers m' l c.
Proof.
  intros He [Hf Hi Hn Ht]. split; [done|..].
  - intros t (i & ? & ?)%Hi. exists i. split; [done|]. by eapply number_of_extends.
  - intros i (t & ? & ?)%Hn. exists t. split; [done|]. by eapply number_of_extends.
  - rewrite (clause_total_ext _ (weight m)); [done|]. intros i (t & _ & Ht')%Hn.
    rewrite (number_of_weight m t i Ht'). apply number_of_weight.
    by eapply number_of_extends.
Qed.

Lemma clause_total_insert g x c : clause_total g (clause_insert x c) <= g x + clause_total g c.
Proof.
  unfold clause_total. induction c as [|y c IH]; simpl; [done|].
  destruct (absolute_value_order x y), (absolute_value_order y x); simpl; lia.
Qed.

Lemma add_items_ok l l0 c0 m c m' :
  mapper_ok m -> forallb regular l -> numbers m l0 c0 -> add_items l c0 m = (c, m') ->
  mapper_ok m' /\ extends m m' /\ numbers m' (l0 ++ l) c.
Proof.
  revert l0 c0 m. induction l as [|t l IH]; intros l0 c0 m Hm Hr Hn.
  { intros [= <- <-]. by rewrite app_nil_r. }
  simpl in Hr. apply andb_True in Hr as [Ht Hr]. cbn [add_items].
  destruct (add_item t m) as [i m1] eqn:E.
  destruct (add_item_ok t m i m1 Hm Ht E) as (Hm1 & He & Hi). intros E'.
  assert (Hn1 : numbers m1 (l0 ++ [t]) (clause_insert i c0)).
  { apply (numbers_extends m m1) in Hn; [|done]. destruct Hn as [[Hs H0] Hit Hnum Htot].
    pose proof Hi as (Hi0 & _ & _). split.
    - split; [by apply clause_insert_sorted|]. rewrite elem_of_clause_insert.
      intros [|]; [by destruct Hi0|done].
    - intros u [(j & ? & ?)%Hit|Eu%list_elem_of_singleton]%elem_of_app;
        [exists j|subst; exists i]; rewrite elem_of_clause_insert; auto.
    - intros j. rewrite elem_of_clause_insert. intros [->|(u & ? & ?)%Hnum];
        [exists t|exists u]; rewrite elem_of_app, list_elem_of_singleton; auto.
    - rewrite sum_list_with_app. simpl. pose proof (clause_total_insert (weight m1) i c0).
      rewrite (number_of_weight m1 t i Hi) in H. lia. }
  destruct (IH _ _ m1 Hm1 Hr Hn1 E') as (Hm' & He' & Hn'). rewrite <- app_assoc in Hn'.
  split; [done|]. split; [by transitivity m1|done].
Qed.

(** The items of a child: the children of the inner junctor [j]. *)
Definition items_of (j : id.builtin) (t : combo_tree) : list combo_tree :=
  if bool_decide (root t = Builtin j) then children t else [t].

Lemma add_nf_ok j l m f m' :
  mapper_ok m -> forallb regular l -> add_nf j l m = (f, m') ->
  mapper_ok m' /\ extends m m' /\ Forall2 (fun t c => numbers m' (items_of j t) c) l f.
Proof.
  revert m f. induction l as [|t l IH]; intros m f Hm Hr; cbn [add_nf].
  { intros [= <- <-]. done. }
  simpl in Hr. apply andb_True in Hr as [Ht Hr].
  assert (Hit : forallb regular (items_of j t)).
  { unfold items_of. case_bool_decide; simpl; [|by rewrite andb_True].
    destruct t as [v ch]. by apply (regular_children v). }
  assert (E1 : (if bool_decide (root t = Builtin j) then add_items (children t) [] m
                else add_items [t] [] m) = add_items (items_of j t) [] m)
    by (unfold items_of; by case_bool_decide).
  rewrite E1. destruct (add_items (items_of j t) [] m) as [c m1] eqn:Ec.
  destruct (add_items_ok _ [] [] m c m1 Hm Hit (numbers_nil m) Ec) as (Hm1 & He1 & Hn1).
  destruct (add_nf j l m1) as [f1 m2] eqn:Ef. intros [= <- <-].
  destruct (IH m1 f1 Hm1 Hr Ef) as (Hm2 & He2 & Hf). split; [done|].
  split; [by transitivity m1|]. constructor; [|done]. by apply (numbers_extends m1).
Qed.

(** ** Extraction *)

(** The truth value of a number. *)
Definition number_value (V : valuation) (m : nf_mapper) (i : Z) : bool :=
  match get_item m i with Ok t => default false (value V t) | _ => false end.

Lemma number_of_value V m t i b :
  number_of m t i -> value V t = Some b -> lval (number_value V m) i = b.
Proof.
  unfold lval, number_value, create. intros (Hi & Hc & Hn) Hb. revert Hc. unfold create.
  destruct (Z.ltb_spec i 0) as [Hneg|]; [|by intros ->; rewrite Hb].
  destruct (get_item m (- i)) as [[u ch]| | |]; try done. simpl.
  destruct u as [| | |a| | | | | | | | |]; try done. intros [= <-].
  cbn [value] in Hb |- *. destruct (Z.eqb_spec (- a) 0); [done|].
  destruct (Z.eqb_spec a 0); [lia|]. rewrite Z.abs_opp in Hb.
  destruct (v_arg V (Z.abs a)) as [c|]; [|done]. injection Hb as <-. simpl.
  destruct (Z.ltb_spec a 0), (Z.ltb_spec (- a) 0); try lia; [|done]. by rewrite negb_involutive.
Qed.

(** Every literal of the normal form is the number of an item. *)
Definition numbered (m : nf_mapper) (f : nf) : Prop :=
  forall i, i ∈ mjoin f -> exists t, number_of m t i.

(** The items of the literals have values. *)
Definition valued (V : valuation) (m : nf_mapper) (f : nf) : Prop :=
  forall i t, i ∈ mjoin f -> number_of m t i -> is_Some (value V t).

Abbreviation items m := (Forall2 (fun i t => number_of m t i)) (only parsing).

Lemma create_all_ok m c :
  (forall i, i ∈ c -> exists t, number_of m t i) ->
  exists ts, create_all m c = Ok ts /\ items m c ts.
Proof.
  induction c as [|i c IH]; intros Hc; [by exists []|]. cbn [create_all].
  destruct (Hc i ltac:(left)) as (t & Ht). destruct IH as (ts & -> & Hts).
  { intros j Hj. apply Hc. by right. }
  exists (t :: ts). pose proof Ht as (_ & -> & _). split; [done|by constructor].
Qed.

Lemma items_values V m c ts :
  (forall i t, i ∈ c -> number_of m t i -> is_Some (value V t)) -> items m c ts ->
  values V ts (lval (number_value V m) <$> c).
Proof.
  intros HV Hts. induction Hts as [|i t c ts Ht Hts IH]; [constructor|].
  rewrite fmap_cons. constructor; [|apply IH; intros; eapply HV; [by right|done]].
  destruct (HV i t ltac:(left) Ht) as [b Hb]. by rewrite (number_of_value V m t i b).
Qed.

Lemma items_leaves m c ts : items m c ts -> sum_list_with leaves ts = clause_total (weight m) c.
Proof.
  unfold clause_total. induction 1 as [|i t c ts Ht Hts IH]; [done|].
  simpl. by rewrite IH, (number_of_weight m t i Ht).
Qed.

(** The tree of a clause that is not empty. *)
Definition clause_tree (j : id.builtin) (m : nf_mapper) (c : clause) (t : combo_tree) : Prop :=
  (exists i, c = [i] /\ number_of m t i) \/
  (2 <= length c /\ exists ts, t = Node (Builtin j) ts /\ items m c ts).

Lemma clause_tree_value_and V m c t :
  (forall i u, i ∈ c -> number_of m u i -> is_Some (value V u)) ->
  clause_tree id.logical_and m c t -> value V t = Some (sat (number_value V m) c).
Proof.
  intros HV [(i & -> & Ht)|(_ & ts & -> & Hts)].
  - destruct (HV i t ltac:(left) Ht) as [b Hb]. simpl.
    by rewrite Hb, (number_of_value V m t i b Ht Hb), andb_true_r.
  - apply value_and. exists (lval (number_value V m) <$> c). split; [by apply items_values|].
    unfold sat. clear. induction c as [|i c IH]; [done|]. simpl. by rewrite IH.
Qed.

Lemma clause_tree_value_or V m c t :
  (forall i u, i ∈ c -> number_of m u i -> is_Some (value V u)) ->
  clause_tree id.logical_or m c t -> value V t = Some (existsb (lval (number_value V m)) c).
Proof.
  intros HV [(i & -> & Ht)|(_ & ts & -> & Hts)].
  - destruct (HV i t ltac:(left) Ht) as [b Hb]. simpl.
    by rewrite Hb, (number_of_value V m t i b Ht Hb), orb_false_r.
  - apply value_or. exists (lval (number_value V m) <$> c). split; [by apply items_values|].
    clear. induction c as [|i c IH]; [done|]. simpl. by rewrite IH.
Qed.

Lemma clause_tree_leaves j m c t :
  is_junctor (Builtin j) -> clause_tree j m c t -> leaves t = clause_total (weight m) c.
Proof.
  intros Hj [(i & -> & Ht)|(Hl & ts & -> & Hts)].
  - unfold clause_total. simpl. rewrite (number_of_weight m t i Ht). lia.
  - cbn [leaves]. rewrite Is_true_true in Hj. rewrite Hj, <- (items_leaves m c ts Hts).
    by destruct Hts; [simpl in Hl; lia|].
Qed.

Lemma cnf_children_ok m f :
  numbered m f ->
  exists l, cnf_children m f = Ok l /\
  Forall2 (clause_tree id.logical_or m) (filter (fun c => c <> []) f) l.
Proof.
  induction f as [|c f IH]; intros Hf; [by exists []|].
  assert (Hc : forall i, i ∈ c -> exists t, number_of m t i).
  { intros i Hi. apply Hf. simpl. apply elem_of_app. by left. }
  destruct IH as (l & IH & Hl); [intros i Hi; apply Hf; simpl; apply elem_of_app; by right|].
  rewrite filter_cons. destruct c as [|i [|k c]]; cbn [cnf_children]; rewrite IH.
  - exists l. split; [done|]. by rewrite decide_False by auto.
  - destruct (Hc i ltac:(left)) as (t & Ht). pose proof Ht as (Hi & -> & _).
    destruct (Z.eqb_spec i 0); [done|]. exists (t :: l). split; [done|].
    rewrite decide_True by done. constructor; [left; eauto|done].
  - destruct (create_all_ok m _ Hc) as (ts & -> & Hts).
    exists (Node (Builtin id.logical_or) ts :: l). split; [done|]. rewrite decide_True by done.
    constructor; [right; split; [simpl; lia|eauto]|done].
Qed.

Lemma dnf_children_ok m f :
  numbered m f -> [] ∉ f ->
  exists l, dnf_children m f = Ok (Some l) /\ Forall2 (clause_tree id.logical_and m) f l.
Proof.
  induction f as [|c f IH]; intros Hf H0; [by exists []|].
  assert (Hc : forall i, i ∈ c -> exists t, number_of m t i).
  { intros i Hi. apply Hf. simpl. apply elem_of_app. by left. }
  destruct IH as (l & IH & Hl);
    [intros i Hi; apply Hf; simpl; apply elem_of_app; by right|set_solver|].
  destruct c as [|i [|k c]]; cbn [dnf_children]; rewrite ?IH; [set_solver| |].
  - destruct (Hc i ltac:(left)) as (t & Ht). pose proof Ht as (Hi & -> & _).
    destruct (Z.eqb_spec i 0); [done|]. exists (t :: l). split; [done|].
    constructor; [left; eauto|done].
  - destruct (create_all_ok m _ Hc) as (ts & -> & Hts).
    exists (Node (Builtin id.logical_and) ts :: l). split; [done|].
    constructor; [right; split; [simpl; lia|eauto]|done].
Qed.

Lemma dnf_children_empty m f :
  numbered m f -> [] ∈ f -> dnf_children m f = Ok None.
Proof.
  induction f as [|c f IH]; intros Hf H0; [inversion H0|].
  assert (Hc : forall i, i ∈ c -> exists t, number_of m t i).
  { intros i Hi. apply Hf. simpl. apply elem_of_app. by left. }
  assert (Hf' : numbered m f) by (intros i Hi; apply Hf; simpl; apply elem_of_app; by right).
  destruct c as [|i [|k c]]; cbn [dnf_children]; [done| |];
    (apply elem_of_cons in H0 as [|H0]; [done|]; rewrite IH by done).
  - destruct (Hc i ltac:(left)) as (t & Hi & -> & _). by destruct (Z.eqb_spec i 0).
  - by destruct (create_all_ok m _ Hc) as (ts & -> & _).
Qed.
