(* ===== verification/ReductNF.v ===== *)
(** The rules [reduce_ors] and [reduce_ands]: what trees they make, that the
    loops finish, and that values are kept. *)
From S2P Require Import Prelude Combo FlatNormalForm Reduct NFSpec ReductSpec NFMapper.

Abbreviation node b l := (Node (Builtin b) l) (only parsing).

Lemma is_builtin_refl b : is_builtin b (Builtin b) = true.
Proof. by apply bool_decide_eq_true_2. Qed.

Lemma is_builtin_ne b v : v <> Builtin b -> is_builtin b v = false.
Proof. by apply bool_decide_eq_false_2. Qed.

(** ** Formulas as normal forms *)
Lemma number_of_fun m i t t' : number_of m t i -> number_of m t' i -> t = t'.
Proof. intros (_ & H1 & _) (_ & H2 & _). congruence. Qed.

Lemma numbers_numbered m ls f : Forall2 (numbers m) ls f -> numbered m f.
Proof.
  induction 1 as [|l c ls f Hc Hf IH]; intros i; [intros Hi; inversion Hi|].
  intros [Hi|Hi]%elem_of_app; [|by apply IH].
  destruct (num_numbers _ _ _ Hc i Hi) as (t & _ & Ht). by exists t.
Qed.

Lemma numbers_fine m ls f : Forall2 (numbers m) ls f -> Forall clause_fine f.
Proof. induction 1 as [|l c ls f [Hc _ _ _] Hf IH]; by constructor. Qed.

Lemma numbers_total m ls f :
  Forall2 (numbers m) ls f -> total (weight m) f <= sum_list_with (sum_list_with leaves) ls.
Proof.
  unfold total. induction 1 as [|l c ls f [_ _ _ Hc] Hf IH]; simpl; lia.
Qed.

(** The values of the items of a clause, in both readings. *)
Lemma numbers_valued V m l c bs i t :
  numbers m l c -> values V l bs -> i ∈ c -> number_of m t i -> is_Some (value V t).
Proof.
  intros Hn Hv Hi Ht. destruct (num_numbers _ _ _ Hn i Hi) as (u & Hu & Hu').
  rewrite (number_of_fun m i t u Ht Hu'). apply list_elem_of_lookup in Hu as (k & Hk).
  destruct (Forall2_lookup_l _ _ _ _ _ Hv Hk) as (b & _ & Hb). by exists b.
Qed.

Lemma numbers_lval V m l c bs b :
  numbers m l c -> values V l bs ->
  (exists i, i ∈ c /\ lval (number_value V m) i = b) <-> b ∈ bs.
Proof.
  intros Hn Hv. split.
  - intros (i & Hi & <-). destruct (num_numbers _ _ _ Hn i Hi) as (u & Hu & Hu').
    apply list_elem_of_lookup in Hu as (k & Hk).
    destruct (Forall2_lookup_l _ _ _ _ _ Hv Hk) as (b & Hbk & Hb).
    rewrite (number_of_value V m u i b Hu' Hb). by eapply list_elem_of_lookup_2.
  - intros (k & Hk)%list_elem_of_lookup.
    destruct (Forall2_lookup_r _ _ _ _ _ Hv Hk) as (t & Ht & Hb).
    destruct (num_items _ _ _ Hn t) as (i & Hi & Hi'); [by eapply list_elem_of_lookup_2|].
    exists i. split; [done|]. by apply (number_of_value V m t).
Qed.

Lemma forallb_id bs : forallb (fun b => b) bs = negb (existsb negb bs).
Proof. induction bs as [|[] bs IH]; [done|exact IH|done]. Qed.

Lemma existsb_elem bs (P : bool -> bool) : existsb P bs = true <-> exists b, b ∈ bs /\ P b = true.
Proof. rewrite existsb_exists. by setoid_rewrite list_elem_of_In. Qed.

Lemma numbers_or V m l c bs :
  numbers m l c -> values V l bs ->
  existsb (lval (number_value V m)) c = existsb (fun b => b) bs.
Proof.
  intros Hn Hv. apply eq_true_iff_eq. rewrite existsb_elem, existsb_exists.
  setoid_rewrite <- list_elem_of_In. rewrite (numbers_lval V m l c bs true Hn Hv).
  split; [|intros (b & Hb & ->); done]. intros Hb. by exists true.
Qed.

Lemma numbers_and V m l c bs :
  numbers m l c -> values V l bs -> sat (number_value V m) c = forallb (fun b => b) bs.
Proof.
  intros Hn Hv. rewrite forallb_id. apply eq_true_iff_eq.
  rewrite negb_true_iff, <- not_true_iff_false, existsb_elem, sat_true.
  pose proof (numbers_lval V m l c bs false Hn Hv) as Hl. split.
  - intros Hs ([] & Hb & E); [done|]. apply Hl in Hb as (i & Hi & Ei). by rewrite Hs in Ei.
  - intros Hs i Hi. apply not_false_iff_true. intros Ei. apply Hs. exists false.
    split; [|done]. apply Hl. by exists i.
Qed.

(** The children of a junctor and the clauses that [add_nf] makes of them. *)
Lemma items_of_values V j t b :
  is_junctor (Builtin j) -> value V t = Some b ->
  exists bs, values V (items_of j t) bs /\
  b = (if bool_decide (j = id.logical_and) then forallb (fun b => b) bs
       else existsb (fun b => b) bs).
Proof.
  unfold items_of. intros Hj Hb. case_bool_decide as E.
  - destruct t as [v ch]. simpl in E. subst v. destruct j; try done.
    + by apply value_and in Hb.
    + by apply value_or in Hb.
  - exists [b]. split; [by repeat constructor|].
    destruct j; try done; simpl; by rewrite ?andb_true_r, ?orb_false_r.
Qed.

Lemma clauses_dnf V m ch bs f :
  values V ch bs -> Forall2 (fun t c => numbers m (items_of id.logical_and t) c) ch f ->
  dnf_value (number_value V m) f = existsb (fun b => b) bs /\ valued V m f.
Proof.
  intros Hv. revert f. induction Hv as [|t b ch bs Hb Hv IH]; intros f Hf; inversion Hf as [|? c ? f' Hc Hf']; subst.
  { split; [done|]. intros i t Hi; inversion Hi. }
  destruct (IH f' Hf') as [IHv IHd].
  destruct (items_of_values V id.logical_and t b) as (ds & Hds & ->); [done..|].
  cbn [dnf_value existsb]. unfold dnf_value in IHv. split.
  - unfold dnf_value. cbn [existsb]. by rewrite IHv, (numbers_and V m (items_of id.logical_and t) c ds).
  - intros i u [Hi|Hi]%elem_of_app Hu; [by eapply numbers_valued|by eapply IHd].
Qed.

Lemma clauses_cnf V m ch bs f :
  values V ch bs -> Forall2 (fun t c => numbers m (items_of id.logical_or t) c) ch f ->
  cnf_value (number_value V m) f = forallb (fun b => b) bs /\ valued V m f.
Proof.
  intros Hv. revert f. induction Hv as [|t b ch bs Hb Hv IH]; intros f Hf; inversion Hf as [|? c ? f' Hc Hf']; subst.
  { split; [done|]. intros i t Hi; inversion Hi. }
  destruct (IH f' Hf') as [IHv IHd].
  destruct (items_of_values V id.logical_or t b) as (ds & Hds & ->); [done..|]. split.
  - unfold cnf_value in *. cbn [forallb]. by rewrite IHv, (numbers_or V m (items_of id.logical_or t) c ds).
  - intros i u [Hi|Hi]%elem_of_app Hu; [by eapply numbers_valued|by eapply IHd].
Qed.

Lemma existsb_fmap {A} (g : A -> bool) l : existsb (fun b => b) (g <$> l) = existsb g l.
Proof. induction l as [|x l IH]; [done|]. rewrite fmap_cons. cbn [existsb]. by rewrite IH. Qed.

Lemma forallb_fmap {A} (g : A -> bool) l : forallb (fun b => b) (g <$> l) = forallb g l.
Proof. induction l as [|x l IH]; [done|]. rewrite fmap_cons. cbn [forallb]. by rewrite IH. Qed.

(** ** Disjunctions *)

(** What [reduce_ors] makes of a disjunction of [ch], and how. *)
Inductive or_result (ch : list combo_tree) : combo_tree -> Prop :=
  | or_same : or_result ch (node id.logical_or ch)
  | or_changed m f0 f t :
      Forall2 (fun t c => numbers m (items_of id.logical_and t) c) ch f0 ->
      reduction (no_tautologies f0) f ->
      number_of_literals f0 <> number_of_literals f ->
      ((([] ∈ f) /\ t = node id.logical_true []) \/
       (([] ∉ f) /\ exists l, Forall2 (clause_tree id.logical_and m) f l /\
                  t = junction id.logical_or l)) ->
      or_result ch t.

Lemma no_tautologies_literals f : mjoin (no_tautologies f) ⊆ mjoin f.
Proof. apply sublist_literals, sublist_filter. Qed.

Lemma numbered_reduction m (f0 f : nf) :
  numbered m f0 -> reduction (no_tautologies f0) f -> numbered m f.
Proof.
  intros Hn R i Hi. apply Hn. apply (red_literals _ _ R) in Hi.
  by apply no_tautologies_literals.
Qed.

Lemma map_items_fmap {A B} (g : A -> B) (R : B -> list Z -> Prop) l f :
  Forall2 (fun t c => R (g t) c) l f -> Forall2 R (g <$> l) f.
Proof. intros H. by apply Forall2_fmap_l. Qed.

Lemma reduce_ors_run up ch :
  regular (node id.logical_or ch) ->
  exists t, reduce_ors up (node id.logical_or ch) = Ok t /\ or_result ch t.
Proof.
  intros Hr%regular_children.
  unfold reduce_ors. rewrite is_builtin_refl.
  destruct (add_dnf ch empty_mapper) as [f0 m] eqn:E. unfold add_dnf in E.
  destruct (add_nf_ok _ ch _ _ _ empty_mapper_ok Hr E) as (_ & _ & Hn).
  pose proof (map_items_fmap _ _ _ _ Hn) as Hn'.
  destruct (reduce_nf_ok f0 (numbers_fine m _ f0 Hn')) as (f & -> & R). cbn [mbind res_bind].
  destruct (Nat.eqb_spec (number_of_literals f0) (number_of_literals f));
    [eexists; split; [done|constructor]|].
  pose proof (numbered_reduction m f0 f (numbers_numbered m _ f0 Hn') R) as Hf.
  unfold extract_dnf. destruct (decide ([] ∈ f)) as [He|He].
  - rewrite (dnf_children_empty m f Hf He). eexists. split; [done|]. eapply or_changed; eauto.
  - destruct (dnf_children_ok m f Hf He) as (l & -> & Hl). eexists. split; [done|].
    eapply or_changed; eauto 6.
Qed.

Lemma valued_reduction V m (f0 f : nf) :
  valued V m f0 -> reduction (no_tautologies f0) f -> valued V m f.
Proof.
  intros Hv R i t Hi. apply Hv. apply (red_literals _ _ R) in Hi.
  by apply no_tautologies_literals.
Qed.

Lemma dnf_trees_values V m f l :
  valued V m f -> Forall2 (clause_tree id.logical_and m) f l ->
  values V l (sat (number_value V m) <$> f).
Proof.
  intros Hv Hl. induction Hl as [|c t f l Hc Hl IH]; [constructor|]. rewrite fmap_cons.
  constructor; [|apply IH; intros i u Hi; apply Hv; apply elem_of_app; by right].
  apply clause_tree_value_and; [|done]. intros i u Hi. apply Hv. apply elem_of_app. by left.
Qed.

Lemma value_junction_or V l bs :
  values V l bs -> value V (junction id.logical_or l) = Some (existsb (fun b => b) bs).
Proof.
  intros Hv. destruct Hv as [|t b l1 bs1 Hb [|u c l2 bs2 Hc Hv]]; [done| |].
  - simpl. by rewrite Hb, orb_false_r.
  - apply value_or. eexists. split; [|done]. by repeat constructor.
Qed.

Lemma or_result_preserves ch t : or_result ch t -> preserves (node id.logical_or ch) t.
Proof.
  intros [|m f0 f u Hn R _ Hu]; [done|]. intros V b (bs & Hbs & ->)%value_or.
  destruct (clauses_dnf V m ch bs f0 Hbs Hn) as [<- Hv].
  pose proof (numbers_fine m _ f0 (map_items_fmap _ _ _ _ Hn)) as Hfine.
  rewrite <- (no_tautologies_value _ f0 Hfine), <- (red_value _ _ R).
  apply (valued_reduction V m f0 f) in Hv; [|done]. destruct Hu as [[He ->]|(He & l & Hl & ->)].
  - simpl. f_equal. symmetry. apply dnf_value_true. by exists [].
  - rewrite (value_junction_or V l _ (dnf_trees_values V m f l Hv Hl)). f_equal.
    apply existsb_fmap.
Qed.

Lemma reduce_ors_ok up t :
  regular t -> exists t', reduce_ors up t = Ok t' /\ preserves t t'.
Proof.
  intros Hr. destruct t as [v ch]. destruct (decide (v = Builtin id.logical_or)) as [->|Hv].
  - destruct (reduce_ors_run up ch Hr) as (t & Ht & HR). exists t. split; [done|].
    by apply or_result_preserves.
  - exists (Node v ch). unfold reduce_ors. by rewrite is_builtin_ne.
Qed.

(** ** Conjunctions *)

(** The rest of the clauses when the literals [i] are taken out. *)
Definition rest (i : clause) (f : nf) : nf := negate_clause ∘ erase_all i <$> f.

Definition some_clauses (f : nf) : nf := filter (fun c => c <> []) f.

Lemma rest_nil i c : sorted_clause c -> sorted_clause i -> i ⊆ c ->
  negate_clause (erase_all i c) = [] <-> c = i.
Proof.
  intros Hc Hi Hic. split.
  - intros E. apply sorted_clause_ext; [done..|]. intros x. split; [|apply Hic]. intros Hx.
    destruct (decide (x ∈ i)) as [|Hn]; [done|].
    assert (Hx' : (- x)%Z ∈ negate_clause (erase_all i c))
      by (by rewrite elem_of_negate_clause, Z.opp_involutive, elem_of_erase_all).
    rewrite E in Hx'. inversion Hx'.
  - intros ->. destruct (negate_clause (erase_all i i)) as [|x l] eqn:E; [done|].
    assert (Hx : x ∈ negate_clause (erase_all i i)) by (rewrite E; left).
    rewrite elem_of_negate_clause, elem_of_erase_all in Hx. tauto.
Qed.

(** Either all clauses are what they share, or none is. *)
Lemma rest_cases i f :
  antichain f -> Forall sorted_clause f -> sorted_clause i -> (forall c, c ∈ f -> i ⊆ c) ->
  (some_clauses (rest i f) = [] /\ forall c, c ∈ f -> c = i) \/
  (some_clauses (rest i f) = rest i f /\ i ∉ f).
Proof.
  intros Ha Hs Hi Hsub. rewrite Forall_forall in Hs. destruct (decide (i ∈ f)) as [Hin|Hin].
  - left. assert (Hall : forall c, c ∈ f -> c = i).
    { intros c Hc. symmetry. by apply Ha; [..|apply Hsub]. }
    split; [|done]. unfold some_clauses, rest. clear Ha Hin Hs.
    induction f as [|c f IH]; [done|]. rewrite fmap_cons, filter_cons.
    rewrite decide_False; [apply IH; intros; [apply Hsub|apply Hall]; by right|].
    intros Hne. apply Hne. assert (c = i) as -> by (apply Hall; left). by apply rest_nil.
  - right. split; [|done]. apply filter_keep, Forall_forall. unfold rest.
    intros d (c & -> & Hc)%list_elem_of_fmap E. apply Hin.
    assert (c = i) as ->; [|done]. by apply rest_nil; [apply Hs| |apply Hsub|].
Qed.

Definition shared_or (i : clause) (l ts : list combo_tree) : combo_tree :=
  if i is [] then junction id.logical_and l
  else node id.logical_or ((if l is [] then [] else [node id.logical_and l]) ++ ts).

(** What [reduce_ands] makes of a conjunction of [ch], and how. *)
Inductive and_result (ch : list combo_tree) : combo_tree -> Prop :=
  | and_same : and_result ch (node id.logical_and ch)
  | and_true m f0 :
      Forall2 (fun t c => numbers m (items_of id.logical_or t) c) ch f0 ->
      no_tautologies (negate_clause <$> f0) = [] ->
      and_result ch (node id.logical_true [])
  | and_changed m f0 f l ts :
      Forall2 (fun t c => numbers m (items_of id.logical_or t) c) ch f0 ->
      no_tautologies (negate_clause <$> f0) <> [] ->
      reduction (no_tautologies (negate_clause <$> f0)) f ->
      number_of_literals f0 <> number_of_literals f \/ intersect f <> [] ->
      Forall2 (clause_tree id.logical_or m) (some_clauses (rest (intersect f) f)) l ->
      items m (negate_clause (intersect f)) ts ->
      and_result ch (shared_or (intersect f) l ts).

Lemma extract_conjunction_ok m c ts :
  items m c ts -> c <> [] ->
  exists t, extract_conjunction m c = Ok t /\ (if 1 <? length c then children t else [t]) = ts.
Proof.
  intros Hts Hne. destruct c as [|i [|k c]]; [done| |].
  - inversion Hts as [|? t ? ? Ht Hts']; subst. inversion Hts'; subst.
    exists t. split; [|done]. simpl. pose proof Ht as (Hi & Hc & _).
    destruct (Z.eqb_spec i 0); [done|]. destruct (Z.ltb_spec i 0) as [Hneg|Hpos].
    + destruct (create_negative m i t Ht Hneg) as (a & -> & ->). done.
    + unfold create in Hc. by destruct (Z.ltb_spec i 0); [lia|].
  - exists (node id.logical_and ts). split; [|done]. cbn [extract_conjunction].
    destruct (create_all_ok m (i :: k :: c)) as (ts' & -> & Hts').
    { intros x Hx. apply list_elem_of_lookup in Hx as (p & Hp).
      destruct (Forall2_lookup_l _ _ _ _ _ Hts Hp) as (t & _ & Ht). by exists t. }
    assert (ts' = ts) as ->; [|done]. clear Hne. revert ts' Hts'.
    induction Hts as [|x t l ts Ht Hts IH]; intros ts' Hts'; inversion Hts' as [|? t' ? ? Ht' ?]; subst; [done|].
    f_equal; [by eapply number_of_fun|by apply IH].
Qed.

(** The literals that are left are literals of the first normal form. *)
Lemma rest_literals i f f0 :
  mjoin f ⊆ mjoin (negate_clause <$> f0) -> mjoin (rest i f) ⊆ mjoin f0.
Proof.
  intros Hs x (d & Hx & (c & -> & Hc)%list_elem_of_fmap)%list_elem_of_join. simpl in Hx.
  rewrite elem_of_negate_clause, elem_of_erase_all in Hx. destruct Hx as [Hx _].
  assert (Hm : (- x)%Z ∈ mjoin f) by (apply list_elem_of_join; eauto).
  apply Hs, list_elem_of_join in Hm as (e & He & (c0 & -> & Hc0)%list_elem_of_fmap).
  rewrite elem_of_negate_clause, Z.opp_involutive in He. apply list_elem_of_join. eauto.
Qed.

Lemma shared_literals i f f0 x :
  mjoin f ⊆ mjoin (negate_clause <$> f0) -> (forall c, c ∈ f -> i ⊆ c) -> f <> [] ->
  x ∈ negate_clause i -> x ∈ mjoin f0.
Proof.
  intros Hs Hsub Hf Hx. destruct f as [|c f]; [done|]. rewrite elem_of_negate_clause in Hx.
  apply (rest_literals [] (c :: f) f0 Hs), list_elem_of_join. exists (negate_clause c).
  rewrite elem_of_negate_clause. split; [by apply (Hsub c); [left|]|].
  unfold rest. rewrite fmap_cons. left.
Qed.

Lemma negated_literals f0 f :
  reduction (no_tautologies (negate_clause <$> f0)) f -> mjoin f ⊆ mjoin (negate_clause <$> f0).
Proof. intros R. etransitivity; [apply R|apply no_tautologies_literals]. Qed.

Lemma negated_fine f : Forall clause_fine f -> Forall clause_fine (negate_clause <$> f).
Proof.
  intros Hf. apply Forall_fmap. eapply Forall_impl; [exact Hf|].
  intros c [_ H0]. by apply negate_clause_fine.
Qed.

Lemma nf_ok_sorted f : nf_ok f -> Forall sorted_clause f.
Proof. intros Hf. eapply Forall_impl; [exact Hf|]. by intros c [Hs _ _]. Qed.

(** The tree of the clauses, and what is left when nothing is shared. *)
Lemma cnf_shape m i f l :
  Forall2 (clause_tree id.logical_or m) (some_clauses (rest i f)) l ->
  some_clauses (rest i f) = [] \/ some_clauses (rest i f) = rest i f ->
  2 <= length f ->
  (l = [] /\ some_clauses (rest i f) = []) \/ 2 <= length l.
Proof.
  intros Hl [E|E] Hf; [left|right]; apply Forall2_length in Hl; rewrite E in Hl.
  - by destruct l.
  - unfold rest in Hl. rewrite length_fmap in Hl. lia.
Qed.

Lemma factor_ok m i l ts :
  items m i ts -> i <> [] -> l = [] \/ 2 <= length l ->
  factor m i (junction id.logical_and l) =
  Ok (node id.logical_or ((if l is [] then [] else [node id.logical_and l]) ++ ts)).
Proof.
  intros Hts Hi Hl. unfold factor. destruct (extract_conjunction_ok m i ts Hts Hi) as (t & -> & Ht).
  cbn [mbind res_bind]. rewrite Ht. destruct l as [|x [|y l]]; simpl in *; [done|destruct Hl; [done|lia]|done].
Qed.

Lemma reduce_ands_run up ch :
  regular (node id.logical_and ch) ->
  exists t, reduce_ands up (node id.logical_and ch) = Ok t /\ and_result ch t.
Proof.
  intros Hr%regular_children. unfold reduce_ands. rewrite is_builtin_refl.
  destruct (add_cnf ch empty_mapper) as [f0 m] eqn:E. unfold add_cnf in E.
  destruct (add_nf_ok _ ch _ _ _ empty_mapper_ok Hr E) as (_ & _ & Hn).
  pose proof (map_items_fmap _ _ _ _ Hn) as Hn'.
  pose proof (negated_fine f0 (numbers_fine m _ f0 Hn')) as Hfine.
  destruct (reduce_nf_ok (negate_clause <$> f0) Hfine) as (f & Hf & R).
  destruct (no_tautologies (negate_clause <$> f0)) as [|c1 f1] eqn:E1.
  { eexists. split; [done|]. by eapply and_true. }
  rewrite Hf. cbn [mbind res_bind]. rewrite <- E1 in R.
  destruct (intersect_spec f (nf_ok_sorted f (red_ok _ _ R))) as (Hi & Hsub & Hlen).
  assert (Hne : no_tautologies (negate_clause <$> f0) <> []) by (by rewrite E1).
  pose proof (numbers_numbered m _ f0 Hn') as Hnum. pose proof (negated_literals f0 f R) as Hlit.
  destruct (cnf_children_ok m (rest (intersect f) f)) as (l & Hcnf & Hl).
  { intros x Hx. by apply Hnum, (rest_literals (intersect f) f f0). }
  destruct (create_all_ok m (negate_clause (intersect f))) as (ts & _ & Hts).
  { intros x Hx. apply Hnum. apply (shared_literals (intersect f) f); [done..| |done].
    by apply (red_nonempty _ _ R). }
  assert (Hcase := rest_cases (intersect f) f (red_antichain _ _ R)
                     (nf_ok_sorted f (red_ok _ _ R)) Hi Hsub).
  destruct ((number_of_literals f0 =? number_of_literals f) &&
            (if intersect f is [] then true else false)) eqn:Esame.
  { eexists. split; [done|constructor]. }
  assert (Hch : number_of_literals f0 <> number_of_literals f \/ intersect f <> []).
  { apply andb_false_iff in Esame as [?%Nat.eqb_neq|?]; [by left|right]. by destruct (intersect f). }
  exists (shared_or (intersect f) l ts). split; [|by econstructor].
  unfold extract_cnf. unfold rest in Hcnf. rewrite Hcnf. cbn [mbind res_bind].
  destruct (intersect f) as [|x i] eqn:Ei; [done|]. rewrite <- Ei in *.
  unfold shared_or. rewrite (factor_ok m (negate_clause (intersect f)) l ts Hts).
  - by rewrite Ei.
  - intros En. apply (not_elem_of_nil (- x)%Z). rewrite <- En, elem_of_negate_clause.
    rewrite Z.opp_involutive, Ei. left.
  - destruct (cnf_shape m _ f l Hl) as [[? _]|?]; [naive_solver| |by left|by right].
    apply Hlen. by rewrite Ei.
Qed.

Lemma negate_clause_involutive c : sorted_clause c -> negate_clause (negate_clause c) = c.
Proof.
  intros Hc. apply sorted_clause_ext; [apply negate_clause_sorted|done|]. intros x.
  by rewrite !elem_of_negate_clause, Z.opp_involutive.
Qed.

Lemma cnf_value_negated w f :
  Forall clause_fine f -> cnf_value w f = negb (dnf_value w (negate_clause <$> f)).
Proof.
  intros Hf. rewrite <- cnf_value_negate.
  - f_equal. induction Hf as [|c f [Hs _] Hf IH]; [done|].
    rewrite !fmap_cons, negate_clause_involutive by done. by f_equal.
  - intros d (c & -> & Hc)%list_elem_of_fmap. rewrite Forall_forall in Hf.
    destruct (Hf c Hc). by rewrite elem_of_negate_clause.
Qed.

Lemma sat_split w i c : i ⊆ c -> sat w c = sat w i && sat w (erase_all i c).
Proof.
  intros Hi. apply eq_true_iff_eq. rewrite andb_true_iff, !sat_true. split.
  - intros Hc. split; [auto|]. intros x [Hx _]%elem_of_erase_all. auto.
  - intros [H1 H2] x Hx. destruct (decide (x ∈ i)); [auto|]. by apply H2, elem_of_erase_all.
Qed.

Lemma rest_value w i f :
  nf_ok f -> (forall c, c ∈ f -> i ⊆ c) ->
  negb (dnf_value w f) = negb (sat w i) || cnf_value w (rest i f).
Proof.
  intros Hok Hi. unfold rest. rewrite list_fmap_compose, cnf_value_negate.
  - rewrite <- negb_andb. f_equal. unfold dnf_value. clear Hok.
    induction f as [|c f IH]; [by rewrite andb_false_r|]. rewrite fmap_cons. cbn [existsb].
    rewrite IH by (intros d Hd; apply Hi; by right). rewrite (sat_split w i c) by (apply Hi; left).
    by destruct (sat w i).
  - intros d (c & -> & Hc)%list_elem_of_fmap. rewrite elem_of_erase_all.
    intros [H0 _]. by apply (ok_nonzero _ (nf_ok_elem f c Hok Hc)).
Qed.

Lemma cnf_trees_values V m f l :
  valued V m f -> Forall2 (clause_tree id.logical_or m) f l ->
  values V l (existsb (lval (number_value V m)) <$> f).
Proof.
  intros Hv Hl. induction Hl as [|c t f l Hc Hl IH]; [constructor|]. rewrite fmap_cons.
  constructor; [|apply IH; intros i u Hi; apply Hv; apply elem_of_app; by right].
  apply clause_tree_value_or; [|done]. intros i u Hi. apply Hv. apply elem_of_app. by left.
Qed.

Lemma value_junction_and V l bs :
  l <> [] -> values V l bs -> value V (junction id.logical_and l) = Some (forallb (fun b => b) bs).
Proof.
  intros Hl Hv. destruct Hv as [|t b l1 bs1 Hb [|u c l2 bs2 Hc Hv]]; [done| |].
  - simpl. by rewrite Hb, andb_true_r.
  - apply value_and. eexists. split; [|done]. by repeat constructor.
Qed.

(** The value of the conjunction of the rest. *)
Lemma rest_tree_value V m i f l :
  valued V m (rest i f) -> Forall2 (clause_tree id.logical_or m) (some_clauses (rest i f)) l ->
  some_clauses (rest i f) = rest i f -> f <> [] ->
  l <> [] /\ value V (junction id.logical_and l) = Some (cnf_value (number_value V m) (rest i f)) /\
  value V (node id.logical_and l) = Some (cnf_value (number_value V m) (rest i f)).
Proof.
  intros Hv Hl E Hf. rewrite E in Hl. pose proof (cnf_trees_values V m _ l Hv Hl) as Hvs.
  assert (Hne : l <> []) by (intros ->; apply Forall2_length in Hl; by destruct f).
  split; [done|]. unfold cnf_value. rewrite <- forallb_fmap. split; [by apply value_junction_and|].
  apply value_and. eauto.
Qed.

Lemma shared_or_value V m f l ts :
  nf_ok f -> antichain f -> f <> [] ->
  (forall x t, x ∈ mjoin (rest (intersect f) f) \/ x ∈ negate_clause (intersect f) ->
   number_of m t x -> is_Some (value V t)) ->
  Forall2 (clause_tree id.logical_or m) (some_clauses (rest (intersect f) f)) l ->
  items m (negate_clause (intersect f)) ts ->
  value V (shared_or (intersect f) l ts) = Some (negb (dnf_value (number_value V m) f)).
Proof.
  intros Hok Ha Hf Hv Hl Hts. pose proof (nf_ok_sorted f Hok) as Hs.
  destruct (intersect_spec f Hs) as (Hi & Hsub & Hlen).
  rewrite (rest_value _ (intersect f) f Hok Hsub).
  assert (Hvr : valued V m (rest (intersect f) f)) by (intros x t Hx; apply Hv; by left).
  pose proof (items_values V m _ ts (fun x t Hx => Hv x t (or_intror Hx)) Hts) as Hvt.
  assert (H0 : 0%Z ∉ intersect f).
  { destruct f as [|c f']; [done|]. intros H0%(Hsub c ltac:(left)).
    by apply (ok_nonzero c (nf_ok_elem _ c Hok ltac:(left))). }
  rewrite <- (clause_value_negate _ _ H0), <- existsb_fmap.
  destruct (rest_cases (intersect f) f Ha Hs Hi Hsub) as [[E Hall]|[E _]].
  - assert (Hr : cnf_value (number_value V m) (rest (intersect f) f) = false).
    { destruct f as [|c f']; [done|]. unfold rest. rewrite fmap_cons. unfold cnf_value. cbn [forallb].
      pose proof (Hall c ltac:(left)) as Ec. assert (E0 : negate_clause (erase_all (intersect (c :: f')) c) = []).
      { apply rest_nil; [|done|by apply Hsub; left|done]. by apply Forall_inv in Hs. }
      unfold compose. by rewrite E0. }
    rewrite E in Hl. inversion Hl; subst. rewrite Hr, orb_false_r. unfold shared_or.
    destruct (intersect f); [done|]. apply value_or. eauto.
  - destruct (rest_tree_value V m _ f l Hvr Hl E Hf) as (Hne & Hj & Hn). unfold shared_or.
    destruct (intersect f) as [|x i] eqn:Ei; [done|]. apply value_or.
    exists (cnf_value (number_value V m) (rest (x :: i) f)
            :: (lval (number_value V m) <$> negate_clause (x :: i))).
    split; [destruct l; [done|by constructor]|]. cbn [existsb]. by rewrite orb_comm.
Qed.

Lemma and_result_preserves ch t : and_result ch t -> preserves (node id.logical_and ch) t.
Proof.
  intros [|m f0 Hn E|m f0 f l ts Hn Hne R _ Hl Hts]; [done|..]; intros V b (bs & Hbs & ->)%value_and;
    destruct (clauses_cnf V m ch bs f0 Hbs Hn) as [<- Hv];
    pose proof (numbers_fine m _ f0 (map_items_fmap _ _ _ _ Hn)) as Hfine;
    pose proof (negated_fine f0 Hfine) as Hnf;
    rewrite (cnf_value_negated _ f0 Hfine), <- (no_tautologies_value _ _ Hnf).
  - by rewrite E.
  - rewrite <- (red_value _ _ R). pose proof (negated_literals f0 f R) as Hlit.
    pose proof (red_nonempty _ _ R Hne) as Hf.
    apply shared_or_value; [apply R..|done| |done|done]. intros x u [Hx|Hx]; apply Hv.
    + by apply (rest_literals (intersect f) f).
    + eapply shared_literals; [done| |done|done].
      by apply intersect_spec, nf_ok_sorted, R.
Qed.

Lemma reduce_ands_ok up t :
  regular t -> exists t', reduce_ands up t = Ok t' /\ preserves t t'.
Proof.
  intros Hr. destruct t as [v ch]. destruct (decide (v = Builtin id.logical_and)) as [->|Hv].
  - destruct (reduce_ands_run up ch Hr) as (t & Ht & HR). exists t. split; [done|].
    by apply and_result_preserves.
  - exists (Node v ch). unfold reduce_ands. by rewrite is_builtin_ne.
Qed.
