(* ===== verification/ReductMeta.v ===== *)
(** The meta rules: a rule that makes formulas smaller can be applied downwards
    and again and again, and this ends; what every application keeps, the whole
    keeps. *)
From S2P Require Import Prelude Combo FlatNormalForm Reduct NFSpec ReductSpec NFMapper ReductNF.

(** ** Formulas *)

(** Propositional formulas over arguments. *)
Fixpoint formula (t : combo_tree) : bool :=
  let 'Node v ch := t in
  match v with
  | Builtin id.logical_and | Builtin id.logical_or => forallb formula ch
  | Builtin id.logical_not => match ch with [c] => formula c | _ => false end
  | Builtin id.logical_true | Builtin id.logical_false => is_nil ch
  | Argument i => negb (i =? 0)%Z && is_nil ch
  | _ => false
  end.

Abbreviation formulas l := (Forall (fun t => formula t) l) (only parsing).

Lemma forallb_Forall (P : combo_tree -> bool) l : forallb P l <-> Forall (fun t => P t) l.
Proof. induction l as [|t l IH]; simpl; [done|]. by rewrite andb_True, Forall_cons, IH. Qed.

Lemma formula_children t : formula t -> formulas (children t).
Proof.
  destruct t as [v ch]. destruct v as [|[]| |i| | | | | | | | |]; try done; cbn [formula children].
  - by destruct ch.
  - by destruct ch.
  - by rewrite forallb_Forall.
  - by rewrite forallb_Forall.
  - destruct ch as [|c [|]]; try done. by repeat constructor.
  - rewrite andb_True. by destruct ch; [|intros []].
Qed.

(** The children may be replaced. *)
Lemma formula_node v l l' : formula (Node v l) -> length l' = length l -> formulas l' -> formula (Node v l').
Proof.
  intros H Hl Hf. destruct v as [|[]| |i| | | | | | | | |]; try done; cbn [formula] in *.
  - by destruct l, l'.
  - by destruct l, l'.
  - by apply forallb_Forall.
  - by apply forallb_Forall.
  - destruct l as [|c [|]], l' as [|c' [|]]; try done. by apply Forall_inv in Hf.
  - by destruct l, l'.
Qed.

Lemma formula_junctor j l : is_junctor (Builtin j) -> formula (Node (Builtin j) l) <-> formulas l.
Proof. destruct j; try done; intros _; apply forallb_Forall. Qed.

Lemma formula_regular t : formula t -> regular t.
Proof.
  induction t as [v ch IH] using tree_ind'. intros Hf. pose proof (formula_children _ Hf) as Hch.
  simpl in Hch. assert (Hr : forallb regular ch).
  { apply forallb_Forall. clear Hf. induction IH; [constructor|]. apply Forall_cons in Hch as [? ?].
    constructor; auto. }
  cbn [regular]. rewrite !andb_True. split; [split; [|done]|]; destruct v as [|[]| |i| | | | | | | | |]; try done.
  simpl in *. rewrite andb_True in Hf. tauto.
Qed.

(** ** The measure *)
Fixpoint junctors (t : combo_tree) : nat :=
  let 'Node v ch := t in (if is_junctor v then 1 else 0) + sum_list_with junctors ch.

Abbreviation size := (@tree_size vertex) (only parsing).

Lemma size_node (v : vertex) ch : tree_size (Node v ch) = S (sum_list_with size ch).
Proof. done. Qed.

(** Lexicographic: leaves, then nodes, then junctors. *)
Definition lex (a1 b1 c1 a2 b2 c2 : nat) : Prop :=
  a1 < a2 \/ (a1 = a2 /\ (b1 < b2 \/ (b1 = b2 /\ c1 < c2))).

Definition smaller (t' t : combo_tree) : Prop :=
  lex (leaves t') (size t') (junctors t') (leaves t) (size t) (junctors t).

Definition not_larger (t t' : combo_tree) : Prop := t' = t \/ smaller t' t.

Lemma smaller_wf : well_founded smaller.
Proof.
  assert (H : forall a b c t, leaves t < a -> size t < b -> junctors t < c -> Acc smaller t).
  { assert (Hacc : forall a t, leaves t = a -> forall b, size t = b -> forall c, junctors t = c -> Acc smaller t).
    { induction a as [a IHa] using lt_wf_ind. intros t Ha b. revert t Ha.
      induction b as [b IHb] using lt_wf_ind. intros t Ha Hb c. revert t Ha Hb.
      induction c as [c IHc] using lt_wf_ind. intros t Ha Hb Hc. constructor.
      intros u [Hu|[Hu [Hu'|[Hu' Hu'']]]].
      - by eapply (IHa (leaves u)); [lia|..].
      - by eapply (IHb (size u)); [lia|lia|..].
      - by eapply (IHc (junctors u)); [lia|lia|lia|]. }
    intros a b c t _ _ _. by eapply Hacc. }
  intros t. by apply (H (S (leaves t)) (S (size t)) (S (junctors t))); lia.
Qed.

Lemma smaller_trans t1 t2 t3 : smaller t1 t2 -> smaller t2 t3 -> smaller t1 t3.
Proof. unfold smaller, lex. lia. Qed.

#[export] Instance not_larger_preorder : PreOrder not_larger.
Proof.
  split; [by left|]. intros t1 t2 t3 [->|H12] [->|H23]; [by left|by right..|].
  right. by eapply smaller_trans.
Qed.

Lemma size_pos t : 1 <= size t.
Proof. destruct t. rewrite size_node. lia. Qed.

Lemma leaves_node v ch :
  leaves (Node v ch) =
  (if is_junctor v then (if ch is [] then 1 else sum_list_with leaves ch)
   else S (sum_list_with leaves ch)).
Proof. done. Qed.

(** A child is smaller than its parent. *)
Lemma child_smaller t c : c ∈ children t -> smaller c t.
Proof.
  destruct t as [v ch]. simpl. intros Hc. unfold smaller. rewrite leaves_node, size_node.
  apply list_elem_of_split in Hc as (l1 & l2 & ->). rewrite !sum_list_with_app. simpl.
  destruct (is_junctor v); [|unfold lex; lia].
  assert (E : (if l1 ++ c :: l2 is [] then 1 else sum_list_with leaves l1 + (leaves c + sum_list_with leaves l2))
     = sum_list_with leaves l1 + (leaves c + sum_list_with leaves l2)) by (by destruct l1).
  rewrite sum_list_with_app in *. simpl in *. rewrite E. unfold lex. lia.
Qed.

Lemma not_larger_list l l' :
  Forall2 not_larger l l' ->
  l' = l \/
  lex (sum_list_with leaves l') (sum_list_with size l') (sum_list_with junctors l')
      (sum_list_with leaves l) (sum_list_with size l) (sum_list_with junctors l).
Proof.
  induction 1 as [|t t' l l' [->|Ht] Hl [->|IH]]; [by left..| | |]; right; simpl;
    unfold smaller, lex in *; lia.
Qed.

Lemma not_larger_node v l l' : Forall2 not_larger l l' -> not_larger (Node v l) (Node v l').
Proof.
  intros Hl. pose proof (Forall2_length _ _ _ Hl) as Hlen.
  destruct (not_larger_list l l' Hl) as [->|H]; [by left|]. right. unfold smaller.
  rewrite !leaves_node, !size_node. cbn [junctors]. unfold lex in *.
  destruct (is_junctor v); [|lia]. destruct l, l'; try done; simpl in *; lia.
Qed.

(** ** Rules with fuel *)

(** With enough fuel the rule gives [t']. *)
Definition yields (r : nat -> rule) (up : option vertex) (t t' : combo_tree) : Prop :=
  exists N, forall n, N <= n -> r n up t = Ok t'.

(** The rule finishes on formulas, and relates them to its results by [E]. *)
Definition total_rule (r : nat -> rule) (E : combo_tree -> combo_tree -> Prop) : Prop :=
  forall up t, formula t -> exists t', yields r up t t' /\ formula t' /\ E t t'.

(** A relation that is kept below a node. *)
Definition congruent (E : combo_tree -> combo_tree -> Prop) : Prop :=
  forall v l l', formula (Node v l) -> Forall2 E l l' -> E (Node v l) (Node v l').

Lemma yields_const (r : rule) up t t' : r up t = Ok t' -> yields (fun _ => r) up t t'.
Proof. intros Hr. by exists 0. Qed.

(** The results on the children of a node. *)
Lemma yields_children (d : nat -> combo_tree -> res combo_tree) (Q : combo_tree -> combo_tree -> Prop) l :
  Forall (fun c => exists c' N, (forall n, N <= n -> d n c = Ok c') /\ Q c c') l ->
  exists l' N, (forall n, N <= n -> mapM (d n) l = Ok l') /\ Forall2 Q l l'.
Proof.
  induction 1 as [|c l (c' & N1 & Hc & Hq) Hl (l' & N2 & Hl' & Hqs)].
  { by exists [], 0. }
  exists (c' :: l'), (N1 `max` N2). split; [|by constructor]. intros n Hn. simpl.
  rewrite Hc by lia. simpl. by rewrite Hl' by lia.
Qed.

Lemma applies_formula `{Vocabulary} out t : formula t -> exists b, applies out (root t) = Ok b.
Proof.
  destruct t as [v ch]. unfold applies. case_bool_decide; [by exists true|].
  destruct v; simpl; try done; eauto.
Qed.

Section downwards.
Context `{Vocabulary} (r : rule) (out : id.type_node).
Context (E : combo_tree -> combo_tree -> Prop) `{!PreOrder E} (E_node : congruent E).
Context (before : combo_tree -> combo_tree -> Prop) (before_wf : well_founded before).
Context (Q : combo_tree -> Prop).

(** A step at a node: the children of the result come before the node, and a
    result whose children are finished is finished. *)
Hypothesis step_ok : forall up t b,
  formula t -> applies out (root t) = Ok b ->
  exists t', when r b up t = Ok t' /\ formula t' /\ E t t' /\
  (forall c, c ∈ children t' -> before c t) /\
  (forall ch, Forall2 E (children t') ch -> Forall Q ch -> Q (Node (root t') ch)).

Lemma downwards_ok up t :
  formula t ->
  exists t', yields (fun n => downwards n r out) up t t' /\ formula t' /\ E t t' /\ Q t'.
Proof.
  revert up. induction t as [t IH] using (well_founded_ind before_wf). intros up Hf.
  destruct (applies_formula out t Hf) as [b Hb].
  destruct (step_ok up t b Hf Hb) as (t1 & Hr & Hf1 & He & Hbef & Hq).
  pose proof (formula_children t1 Hf1) as Hch.
  destruct (yields_children (fun n => downwards n r out (Some (root t1)))
              (fun c c' => formula c' /\ E c c' /\ Q c') (children t1)) as (ch & N & HN & Hqs).
  { apply Forall_forall. intros c Hc. rewrite Forall_forall in Hch.
    destruct (IH c (Hbef c Hc) (Some (root t1)) (Hch c Hc)) as (c' & (N & HN) & Hc').
    by exists c', N. }
  exists (Node (root t1) ch). destruct t1 as [v ch1]. simpl in *.
  assert (Hqs' : formulas ch /\ Forall2 E ch1 ch /\ Forall Q ch).
  { clear -Hqs. induction Hqs as [|c c' l l' (? & ? & ?) Hl (? & ? & ?)]; repeat constructor; done. }
  destruct Hqs' as (Hfc & HEc & HQc). split; [|split; [|split]].
  - exists (S N). intros [|n] Hn; [lia|]. cbn [downwards]. rewrite Hb. cbn [mbind res_bind].
    rewrite Hr. cbn [mbind res_bind]. by rewrite HN by lia.
  - by apply (formula_node v ch1); [|symmetry; eapply Forall2_length|].
  - etransitivity; [exact He|]. by apply E_node.
  - by apply Hq.
Qed.
End downwards.

Section meta.
Context (E : combo_tree -> combo_tree -> Prop) `{!PreOrder E}.

Lemma upwards_ok (r : rule) :
  congruent E ->
  (forall up t, formula t -> exists t', r up t = Ok t' /\ formula t' /\ E t t') ->
  total_rule (fun _ => upwards r) E.
Proof.
  intros HE Hr up t Hf.
  assert (H : exists t', upwards r up t = Ok t' /\ formula t' /\ E t t').
  { revert up Hf. induction t as [v ch IH] using tree_ind'. intros up Hf.
    pose proof (formula_children _ Hf) as Hch. simpl in Hch.
    assert (Hl : exists l, mapM (upwards r (Some v)) ch = Ok l /\ formulas l /\ Forall2 E ch l).
    { clear Hf. induction IH as [|c l Hc Hl IHl]; [by exists []|].
      apply Forall_cons in Hch as [Hfc Hch]. destruct (Hc (Some v) Hfc) as (c' & Hc' & ? & ?).
      destruct (IHl Hch) as (l' & Hl' & ? & ?). exists (c' :: l'). simpl. rewrite Hc'. simpl.
      rewrite Hl'. simpl. by repeat constructor. }
    destruct Hl as (l & Hl & Hfl & HEl). cbn [upwards]. rewrite Hl. cbn [mbind res_bind].
    assert (Hfn : formula (Node v l)) by (by apply (formula_node v ch); [|symmetry; eapply Forall2_length|]).
    destruct (Hr up (Node v l) Hfn) as (t' & -> & ? & ?). exists t'. split; [done|]. split; [done|].
    etransitivity; [|done]. by apply HE. }
  destruct H as (t' & Ht & Hf' & He). exists t'. split; [by apply yields_const|done].
Qed.

Lemma sequential_ok (rs : list (nat -> rule)) :
  Forall (fun r => total_rule r E) rs ->
  total_rule (fun n => sequential ((fun r => r n) <$> rs)) E.
Proof.
  induction 1 as [|r rs Hr Hrs IH]; intros up t Hf.
  { exists t. split; [by exists 0|done]. }
  destruct (Hr up t Hf) as (t1 & (N1 & H1) & Hf1 & HE1).
  destruct (IH up t1 Hf1) as (t2 & (N2 & H2) & Hf2 & HE2). exists t2.
  split; [|split; [done|by transitivity t1]]. exists (N1 `max` N2). intros n Hn.
  rewrite fmap_cons. cbn [sequential]. rewrite H1 by lia. cbn [mbind res_bind]. apply H2. lia.
Qed.
End meta.

(** ** Iteration *)
Fixpoint equal_list (l1 l2 : list combo_tree) : bool :=
  match l1, l2 with
  | [], [] => true
  | c1 :: l1', c2 :: l2' => equal_subtree c1 c2 && equal_list l1' l2'
  | _, _ => false
  end.

Lemma equal_subtree_node v1 l1 v2 l2 :
  equal_subtree (Node v1 l1) (Node v2 l2) = vertex_eqb v1 v2 && equal_list l1 l2.
Proof. done. Qed.

(** Between formulas [equal_subtree] is equality. *)
Lemma equal_subtree_eq t1 t2 : formula t1 -> equal_subtree t1 t2 = true <-> t1 = t2.
Proof.
  revert t2. induction t1 as [v ch IH] using tree_ind'. intros [v2 ch2] Hf.
  pose proof (formula_children _ Hf) as Hch. simpl in Hch. rewrite equal_subtree_node, andb_true_iff.
  assert (Hv : vertex_eqb v v2 = true <-> v = v2).
  { destruct v; try done; unfold vertex_eqb; by rewrite bool_decide_eq_true. }
  assert (Hl : equal_list ch ch2 = true <-> ch = ch2).
  { clear Hf Hv. revert ch2. induction IH as [|c l Hc Hl IHl]; intros [|c2 l2]; try done.
    apply Forall_cons in Hch as [Hfc Hch]. cbn [equal_list]. rewrite andb_true_iff, Hc, IHl by done.
    split; [by intros [-> ->]|by intros [= -> ->]]. }
  rewrite Hv, Hl. split; [by intros [-> ->]|by intros [= -> ->]].
Qed.

(** Iteration stops, at a formula that the rule does not change. *)
Lemma iterative_stops (r : nat -> rule) (E : combo_tree -> combo_tree -> Prop) `{!PreOrder E} up t :
  (forall t t', E t t' -> not_larger t t') -> total_rule r E -> formula t ->
  exists t' N, (forall k n, N <= k -> N <= n -> iterative k (r n) up t = Ok t') /\
  formula t' /\ E t t' /\ yields r up t' t'.
Proof.
  intros HE Hr. induction t as [t IH] using (well_founded_ind smaller_wf). intros Hf.
  destruct (Hr up t Hf) as (t1 & (N & HN) & Hf1 & He1).
  destruct (equal_subtree t1 t) eqn:Eq.
  - apply equal_subtree_eq in Eq as ->; [|done]. exists t, (S N).
    split; [|split; [done|split; [done|by exists N]]].
    intros [|k] n Hk Hn; [lia|]. cbn [iterative]. rewrite HN by lia. cbn [mbind res_bind].
    by rewrite (proj2 (equal_subtree_eq t t Hf)).
  - assert (Hs : smaller t1 t).
    { destruct (HE _ _ He1) as [->|]; [|done].
      by rewrite (proj2 (equal_subtree_eq t t Hf)) in Eq. }
    destruct (IH t1 Hs Hf1) as (t' & N' & HN' & Hf' & He' & Hy). exists t', (S (N `max` N')).
    split; [|split; [done|split; [by transitivity t1|done]]].
    intros [|k] n Hk Hn; [lia|]. cbn [iterative]. rewrite HN by lia. cbn [mbind res_bind].
    rewrite Eq. apply HN'; lia.
Qed.
