(* ===== verification/ReductLogic.v ===== *)
(** The logical rules on formulas: they finish, their results are formulas of no
    larger measure, and they keep values; [eval_logical_identities] keeps them
    where no child is a junctor without children. *)
From S2P Require Import Prelude Combo FlatNormalForm Reduct NFSpec ReductSpec NFMapper ReductNF ReductMeta.

(** ** eval_logical_identities *)
Lemma logical_identities_sublist j nt ab l l' :
  logical_identities j nt ab l = Some l' -> l' `sublist_of` l.
Proof.
  revert l'. induction l as [|c l IH]; intros l'; simpl; [intros [= <-]; constructor|].
  destruct ((is_builtin j (root c) && is_childless c) || is_builtin nt (root c)).
  { intros Hl. constructor. by apply IH. }
  destruct (is_builtin ab (root c)); [done|]. destruct (logical_identities j nt ab l); [|done].
  intros [= <-]. constructor. by apply IH.
Qed.

Lemma sum_list_sublist (g : combo_tree -> nat) l l' :
  l' `sublist_of` l -> sum_list_with g l' <= sum_list_with g l.
Proof. induction 1; simpl; lia. Qed.

(** To keep some children only. *)
Lemma not_larger_sublist v l l' : l' `sublist_of` l -> not_larger (Node v l) (Node v l').
Proof.
  intros Hs. assert (l' = l \/ sum_list_with size l' < sum_list_with size l) as [->|Hlt].
  { clear -Hs. induction Hs as [|c l' l Hs [->|IH]|c l' l Hs IH]; [by left..|right|right]; simpl; [lia|].
    pose proof (size_pos c). pose proof (sum_list_sublist size _ _ Hs). lia. }
  { by left. }
  right. unfold smaller, lex. rewrite !leaves_node, !size_node.
  pose proof (sum_list_sublist leaves _ _ Hs). destruct (is_junctor v); [|lia].
  destruct l' as [|c' l']; [|destruct l as [|c l]; [by inversion Hs|lia]].
  destruct l as [|c l]; [simpl in Hlt; lia|]. pose proof (leaves_pos c). simpl in *. lia.
Qed.

Lemma leaf_smaller v t : is_junctor v = false -> children t <> [] -> smaller (Node v []) t.
Proof.
  destruct t as [u [|c ch]]; [done|]. intros Hv _. unfold smaller, lex.
  rewrite !leaves_node, !size_node, Hv. pose proof (leaves_pos (Node u (c :: ch))).
  rewrite leaves_node in H. pose proof (size_pos c). simpl in *. lia.
Qed.

Lemma identities_total b j nt ab ch :
  is_junctor (Builtin b) -> is_junctor (Builtin ab) = false -> formula (node ab []) ->
  formula (node b ch) ->
  formula (with_children b ab (logical_identities j nt ab ch)) /\
  not_larger (node b ch) (with_children b ab (logical_identities j nt ab ch)).
Proof.
  intros Hb Hab Hfab Hf. destruct (logical_identities j nt ab ch) as [l|] eqn:E; simpl.
  - apply logical_identities_sublist in E. split; [|by apply not_larger_sublist].
    apply formula_junctor; [done|]. apply (formula_junctor b ch Hb) in Hf.
    rewrite Forall_forall in Hf |- *. intros c Hc. by eapply Hf, elem_of_sublist.
  - split; [done|]. right. apply leaf_smaller; [done|]. by destruct ch.
Qed.

Lemma not_larger_child t c : c ∈ children t -> not_larger t c.
Proof. intros Hc. right. by apply child_smaller. Qed.

Lemma eval_logical_identities_total up t :
  formula t ->
  exists t', eval_logical_identities up t = Ok t' /\ formula t' /\ not_larger t t'.
Proof.
  intros Hf. unfold eval_logical_identities. eexists. split; [done|].
  destruct t as [[|[]| | | | | | | | | | |] ch]; try done.
  - by apply identities_total.
  - destruct ch as [|c [|d ch]]; [by apply identities_total| |by apply identities_total].
    split; [|by apply not_larger_child; left]. apply formula_children in Hf. by apply Forall_inv in Hf.
Qed.

(** No child is a junctor without children. *)
Definition no_dangling (t : combo_tree) : Prop :=
  forall c, c ∈ children t -> is_junctor (root c) -> children c <> [].

Lemma identities_and V ch bs l :
  (forall c, c ∈ ch -> is_junctor (root c) -> children c <> []) -> values V ch bs ->
  logical_identities id.logical_or id.logical_true id.logical_false ch = l ->
  match l with
  | Some l => exists bs', values V l bs' /\ forallb (fun b => b) bs' = forallb (fun b => b) bs
  | None => forallb (fun b => b) bs = false
  end.
Proof.
  intros Hd Hv. revert l. induction Hv as [|c b ch bs Hb Hv IH]; intros l; simpl.
  { intros <-. by exists []. }
  assert (Hor : is_builtin id.logical_or (root c) && is_childless c = false).
  { unfold is_builtin. case_bool_decide as E; [|done]. destruct c as [v l']. simpl in *. subst v.
    specialize (Hd (node id.logical_or l') ltac:(left) I). by destruct l'. }
  rewrite Hor. specialize (IH ltac:(intros d Hin; apply Hd; by right)).
  unfold is_builtin. case_bool_decide as E1; simpl.
  { intros <-. assert (b = true) as ->; [|by apply IH].
    destruct c as [v l']. simpl in E1. subst v. simpl in Hb. congruence. }
  case_bool_decide as E2.
  { intros <-. destruct c as [v l']. simpl in E2. subst v. simpl in Hb. by injection Hb as <-. }
  intros <-. specialize (IH _ eq_refl). destruct (logical_identities _ _ _ ch) as [k|]; simpl.
  - destruct IH as (bs' & Hk & E). exists (b :: bs'). split; [by constructor|]. simpl. by rewrite E.
  - by rewrite IH, andb_false_r.
Qed.

Lemma identities_or V ch bs l :
  (forall c, c ∈ ch -> is_junctor (root c) -> children c <> []) -> values V ch bs ->
  logical_identities id.logical_and id.logical_false id.logical_true ch = l ->
  match l with
  | Some l => exists bs', values V l bs' /\ existsb (fun b => b) bs' = existsb (fun b => b) bs
  | None => existsb (fun b => b) bs = true
  end.
Proof.
  intros Hd Hv. revert l. induction Hv as [|c b ch bs Hb Hv IH]; intros l; simpl.
  { intros <-. by exists []. }
  assert (Hand : is_builtin id.logical_and (root c) && is_childless c = false).
  { unfold is_builtin. case_bool_decide as E; [|done]. destruct c as [v l']. simpl in *. subst v.
    specialize (Hd (node id.logical_and l') ltac:(left) I). by destruct l'. }
  rewrite Hand. specialize (IH ltac:(intros d Hin; apply Hd; by right)).
  unfold is_builtin. case_bool_decide as E1; simpl.
  { intros <-. assert (b = false) as ->; [|by apply IH].
    destruct c as [v l']. simpl in E1. subst v. simpl in Hb. congruence. }
  case_bool_decide as E2.
  { intros <-. destruct c as [v l']. simpl in E2. subst v. simpl in Hb. by injection Hb as <-. }
  intros <-. specialize (IH _ eq_refl). destruct (logical_identities _ _ _ ch) as [k|]; simpl.
  - destruct IH as (bs' & Hk & E). exists (b :: bs'). split; [by constructor|]. simpl. by rewrite E.
  - by rewrite IH, orb_true_r.
Qed.

Lemma eval_logical_identities_preserves up t t' :
  no_dangling t -> eval_logical_identities up t = Ok t' -> preserves t t'.
Proof.
  intros Hd [= <-]. destruct t as [[|[]| | | | | | | | | | |] ch]; try done; intros V b.
  - intros (bs & Hbs & ->)%value_and. pose proof (identities_and V ch bs _ Hd Hbs eq_refl) as H.
    destruct (logical_identities _ _ _ ch) as [l|]; simpl.
    + destruct H as (bs' & Hl & <-). apply value_and. eauto.
    + by rewrite H.
  - intros (bs & Hbs & ->)%value_or. pose proof (identities_or V ch bs _ Hd Hbs eq_refl) as H.
    assert (Hgen : value V (with_children id.logical_or id.logical_true
       (logical_identities id.logical_and id.logical_false id.logical_true ch)) =
       Some (existsb (fun b => b) bs)).
    { destruct (logical_identities _ _ _ ch) as [l|]; simpl; [|by rewrite H].
      destruct H as (bs' & Hl & <-). apply value_or. eauto. }
    destruct ch as [|c [|d ch]]; [done| |done].
    inversion Hbs as [|? b ? bs1 Hb Hbs1]; subst. inversion Hbs1; subst. simpl. by rewrite orb_false_r.
Qed.

(** ** level *)
Lemma flatten_node v w ch :
  flatten_into v (Node w ch) = if vertex_eqb w v then mjoin (flatten_into v <$> ch) else [Node w ch].
Proof. done. Qed.

Lemma flatten_formulas v t : formula t -> formulas (flatten_into v t).
Proof.
  induction t as [w ch IH] using tree_ind'. intros Hf. rewrite flatten_node.
  destruct (vertex_eqb w v); [|by constructor]. apply formula_children in Hf. simpl in Hf.
  induction IH as [|c l Hc Hl IHl]; [constructor|]. apply Forall_cons in Hf as [Hfc Hf].
  rewrite fmap_cons. simpl. apply Forall_app. auto.
Qed.

Lemma flatten_measure v t :
  flatten_into v t = [t] \/
  (sum_list_with leaves (flatten_into v t) <= leaves t /\
   sum_list_with size (flatten_into v t) < size t).
Proof.
  induction t as [w ch IH] using tree_ind'. rewrite flatten_node.
  destruct (vertex_eqb w v); [right|by left]. rewrite leaves_node, size_node.
  assert (H : sum_list_with leaves (mjoin (flatten_into v <$> ch)) <= sum_list_with leaves ch /\
              sum_list_with size (mjoin (flatten_into v <$> ch)) <= sum_list_with size ch).
  { induction IH as [|c l Hc Hl [IH1 IH2]]; [done|]. rewrite fmap_cons. simpl mjoin.
    rewrite !sum_list_with_app. cbn [sum_list_with].
    destruct Hc as [->|[? ?]]; [cbn [sum_list_with]|]; lia. }
  destruct H as [H1 H2]. split; [|lia]. destruct (is_junctor w); [|lia]. destruct ch; simpl in *; lia.
Qed.

Lemma flatten_children_measure v ch :
  mjoin (flatten_into v <$> ch) = ch \/
  (sum_list_with leaves (mjoin (flatten_into v <$> ch)) <= sum_list_with leaves ch /\
   sum_list_with size (mjoin (flatten_into v <$> ch)) < sum_list_with size ch).
Proof.
  induction ch as [|c ch IH]; [by left|]. rewrite fmap_cons. simpl mjoin.
  destruct (flatten_measure v c) as [E|[H1 H2]], IH as [->|[H3 H4]].
  - left. by rewrite E.
  - right. rewrite E. simpl. lia.
  - right. rewrite !sum_list_with_app. simpl. lia.
  - right. rewrite !sum_list_with_app. simpl. lia.
Qed.

Lemma level_total up t : formula t -> exists t', level up t = Ok t' /\ formula t' /\ not_larger t t'.
Proof.
  destruct t as [v ch]. intros Hf. unfold level. eexists. split; [done|].
  destruct (is_associative v) eqn:Ea; [|done].
  assert (Hj : is_junctor v) by (by destruct v as [|[]| | | | | | | | | | |]). split.
  - destruct v as [|b| | | | | | | | | | |]; try done. apply formula_junctor; [done|].
    apply formula_children in Hf. simpl in Hf. clear Ea Hj.
    induction Hf as [|c ch Hc Hch IH]; [constructor|]. rewrite fmap_cons. simpl.
    apply Forall_app. split; [by apply flatten_formulas|done].
  - destruct (flatten_children_measure v ch) as [->|[H1 H2]]; [by left|right].
    unfold smaller, lex. rewrite !leaves_node, !size_node. rewrite Is_true_true in Hj. rewrite Hj.
    destruct (mjoin _) as [|c' l]; [|destruct ch; simpl in *; lia].
    destruct ch as [|c ch]; [simpl in H2; lia|]. pose proof (leaves_pos c). simpl in *. lia.
Qed.

(** The values of the flattened children, for a junctor with operation [op]. *)
Lemma flatten_values V j (op : list bool -> bool) :
  (forall bs1 bs2, op (bs1 ++ bs2) = op [op bs1; op bs2]) -> (forall b, op [b] = b) ->
  (forall ch b, value V (Node (Builtin j) ch) = Some b <-> exists bs, values V ch bs /\ b = op bs) ->
  forall t b, value V t = Some b -> exists bs, values V (flatten_into (Builtin j) t) bs /\ op bs = b.
Proof.
  intros Hop H1 Hval. induction t as [w ch IH] using tree_ind'. intros b Hb. rewrite flatten_node.
  destruct (vertex_eqb w (Builtin j)) eqn:E.
  - assert (w = Builtin j) as -> by (destruct w; try done; by apply bool_decide_eq_true in E).
    apply Hval in Hb as (bs & Hbs & ->). clear E.
    induction Hbs as [|c d ch ds Hd Hds IHds]; [by exists []|].
    apply Forall_cons in IH as [IHc IH]. destruct (IHc d Hd) as (bs1 & Hbs1 & E1).
    destruct (IHds IH) as (bs2 & Hbs2 & E2). exists (bs1 ++ bs2). rewrite fmap_cons. simpl.
    split; [by apply Forall2_app|]. change (d :: ds) with ([d] ++ ds).
    by rewrite !Hop, H1, E1, E2.
  - exists [b]. split; [by repeat constructor|done].
Qed.

Lemma flatten_children_values V j (op : list bool -> bool) ch bs :
  (forall bs1 bs2, op (bs1 ++ bs2) = op [op bs1; op bs2]) -> (forall b, op [b] = b) ->
  (forall ch b, value V (Node (Builtin j) ch) = Some b <-> exists bs, values V ch bs /\ b = op bs) ->
  values V ch bs ->
  exists bs', values V (mjoin (flatten_into (Builtin j) <$> ch)) bs' /\ op bs' = op bs.
Proof.
  intros Hop H1 Hval Hbs. induction Hbs as [|c d ch ds Hd Hds (bs2 & Hbs2 & E2)]; [by exists []|].
  destruct (flatten_values V j op Hop H1 Hval c d Hd) as (bs1 & Hbs1 & E1).
  exists (bs1 ++ bs2). rewrite fmap_cons. simpl. split; [by apply Forall2_app|].
  change (d :: ds) with ([d] ++ ds). by rewrite !Hop, H1, E1, E2.
Qed.

Lemma level_preserves up t t' : formula t -> level up t = Ok t' -> preserves t t'.
Proof.
  destruct t as [v ch]. intros Hf [= <-].
  destruct v as [|[]| | | | | | | | | | |]; try done; intros V b; cbn [is_associative].
  - intros (bs & Hbs & ->)%value_and.
    destruct (flatten_children_values V id.logical_and (forallb (fun b => b)) ch bs) as (bs' & Hbs' & E); [..|done|].
    + intros bs1 bs2. rewrite forallb_app. simpl. by rewrite andb_true_r.
    + intros b. simpl. by rewrite andb_true_r.
    + intros. apply value_and.
    + apply value_and. exists bs'. by rewrite E.
  - intros (bs & Hbs & ->)%value_or.
    destruct (flatten_children_values V id.logical_or (existsb (fun b => b)) ch bs) as (bs' & Hbs' & E); [..|done|].
    + intros bs1 bs2. rewrite existsb_app. simpl. by rewrite orb_false_r.
    + intros b. simpl. by rewrite orb_false_r.
    + intros. apply value_or.
    + apply value_or. exists bs'. by rewrite E.
Qed.

(** ** reduce_nots *)
Lemma negation_formulas l : formulas l -> formulas (negation <$> l).
Proof. intros Hl. by apply Forall_fmap. Qed.

Lemma negation_values V l bs : values V l bs -> values V (negation <$> l) (negb <$> bs).
Proof.
  induction 1 as [|t b l bs Hb Hl IH]; [constructor|]. rewrite !fmap_cons.
  constructor; [|done]. simpl. by rewrite Hb.
Qed.

Lemma de_morgan_and l : preserves (negation (node id.logical_and l)) (node id.logical_or (negation <$> l)).
Proof.
  intros V b (c & (bs & Hbs & ->)%value_and & ->)%fmap_Some. apply value_or.
  exists (negb <$> bs). split; [by apply negation_values|]. rewrite existsb_fmap.
  by rewrite forallb_id, negb_involutive.
Qed.

Lemma de_morgan_or l : preserves (negation (node id.logical_or l)) (node id.logical_and (negation <$> l)).
Proof.
  intros V b (c & (bs & Hbs & ->)%value_or & ->)%fmap_Some. apply value_and.
  exists (negb <$> bs). split; [by apply negation_values|]. rewrite forallb_fmap.
  clear. induction bs as [|[] bs IH]; [done..|exact IH].
Qed.

Lemma double_negation t : preserves (negation (negation t)) t.
Proof.
  intros V b. simpl. rewrite fmap_Some. intros (c & Hc & ->). apply fmap_Some in Hc as (d & Hd & ->).
  by rewrite negb_involutive.
Qed.

Lemma negated_argument i ch : preserves (negation (Node (Argument i) ch)) (Node (Argument (- i)) []).
Proof.
  intros V b (c & Hc & ->)%fmap_Some. cbn [value] in Hc |- *.
  destruct (Z.eqb_spec i 0); [done|]. destruct (Z.eqb_spec (- i) 0); [lia|]. rewrite Z.abs_opp.
  destruct (v_arg V (Z.abs i)) as [d|]; [|done]. injection Hc as <-. simpl. f_equal.
  destruct (Z.ltb_spec i 0), (Z.ltb_spec (- i) 0); try lia; [by rewrite negb_involutive|done].
Qed.

(** What a step of [reduce_nots] leaves. *)
Record nots_step (t t' : combo_tree) : Prop := {
  nots_formula : formula t';
  nots_preserves : preserves t t';
  nots_size : forall c, c ∈ children t' -> size c < size t;
  nots_boolean : is_boolean (root t) -> t' = t;
  nots_normal : is_builtin id.logical_not (root t') ->
                exists c, children t' = [c] /\ is_boolean (root c)
}.

Lemma size_negation t : size (negation t) = S (size t).
Proof. unfold negation. rewrite size_node. cbn [sum_list_with]. lia. Qed.

Lemma negated_children_size l c (v : vertex) :
  c ∈ negation <$> l -> size c < size (negation (Node v l)).
Proof.
  intros (d & -> & Hd)%list_elem_of_fmap. rewrite !size_negation, size_node.
  apply list_elem_of_split in Hd as (l1 & l2 & ->).
  rewrite sum_list_with_app. cbn [sum_list_with]. lia.
Qed.

Lemma child_size t c : c ∈ children t -> size c < size t.
Proof.
  destruct t as [v ch]. simpl children. intros Hc. rewrite size_node.
  apply list_elem_of_split in Hc as (l1 & l2 & ->). rewrite sum_list_with_app. cbn [sum_list_with]. lia.
Qed.

Lemma reduce_nots_other n t :
  formula t -> ~ is_builtin id.logical_not (root t) ->
  reduce_nots_loop n t = Ok t /\ nots_step t t.
Proof.
  intros Hf Hn. split.
  - destruct t as [[|[]| | | | | | | | | | |] ch]; destruct n; try done; by destruct Hn.
  - split; [done..|apply child_size|done|done].
Qed.

Lemma reduce_nots_loop_ok n t :
  formula t -> size t <= n -> exists t', reduce_nots_loop n t = Ok t' /\ nots_step t t'.
Proof.
  revert t. induction n as [|n IH]; intros t Hf Hn; [pose proof (size_pos t); lia|].
  destruct (is_builtin id.logical_not (root t)) eqn:E;
    [|exists t; apply reduce_nots_other; [done|rewrite E; intros []]].
  destruct t as [v ch]. apply bool_decide_eq_true in E. simpl in E. subst v.
  destruct ch as [|[u ch1] [|]]; try done. change (Is_true (formula (Node u ch1))) in Hf.
  pose proof (formula_children _ Hf) as Hch. simpl in Hch.
  destruct u as [|[]| |i| | | | | | | | |]; try done.
  - exists (negation (Node (Builtin id.logical_true) ch1)). split; [done|]. split; try done; [apply child_size|].
    intros _. eexists. split; done.
  - exists (negation (Node (Builtin id.logical_false) ch1)). split; [done|]. split; try done; [apply child_size|].
    intros _. eexists. split; done.
  - exists (node id.logical_or (negation <$> ch1)). cbn [reduce_nots_loop]. rewrite app_nil_r.
    split; [done|]. split; try done.
    + apply formula_junctor; [done|]. by apply negation_formulas.
    + apply de_morgan_and.
    + intros c. apply negated_children_size.
  - exists (node id.logical_and (negation <$> ch1)). cbn [reduce_nots_loop]. rewrite app_nil_r.
    split; [done|]. split; try done.
    + apply formula_junctor; [done|]. by apply negation_formulas.
    + apply de_morgan_or.
    + intros c. apply negated_children_size.
  - destruct ch1 as [|[w ch2] [|]]; try done. cbn [reduce_nots_loop app]. rewrite app_nil_r.
    change (Is_true (formula (Node w ch2))) in Hf. change (Node _ [Node _ [Node w ch2]])
      with (negation (negation (Node w ch2))) in *. rewrite !size_negation in *.
    destruct (IH (Node w ch2) Hf) as (t' & -> & [H1 H2 H3 H4 H5]); [lia|].
    exists t'. split; [done|]. split; try done.
    + etransitivity; [apply double_negation|done].
    + intros c Hc%H3. rewrite !size_negation. lia.
  - exists (Node (Argument (- i)) []). split; [done|]. split; try done.
    + cbn [formula] in *. rewrite andb_True in *. destruct Hf as [Hi _]. split; [|done].
      destruct (Z.eqb_spec i 0), (Z.eqb_spec (- i) 0); done || lia.
    + apply negated_argument.
    + intros c Hc. inversion Hc.
Qed.

(** ** The measure of normal forms *)
Lemma number_of_literals_total f : number_of_literals f = total (fun _ => 1) f.
Proof.
  unfold number_of_literals, total.
  assert (H : forall n, foldl (fun n c => n + length c) n f = n + sum_list_with (clause_total (fun _ => 1)) f).
  { induction f as [|c f IH]; intros n; simpl; [lia|]. rewrite IH.
    assert (Hc : clause_total (fun _ => 1) c = length c).
    { unfold clause_total. clear. induction c as [|x c IH]; [done|]. simpl. by rewrite IH. }
    lia. }
  by rewrite H.
Qed.

Definition weighty (m : nf_mapper) (f : nf) : Prop := forall i, i ∈ mjoin f -> 1 <= weight m i.

Lemma total_weight m f :
  weighty m f -> total (weight m) f = total (fun _ => 1) f + total (fun i => weight m i - 1) f.
Proof.
  unfold total. induction f as [|c f IH]; intros Hw; [done|]. simpl.
  rewrite IH by (intros i Hi; apply Hw, elem_of_app; by right).
  assert (Hc : forall i, i ∈ c -> 1 <= weight m i) by (intros i Hi; apply Hw, elem_of_app; by left).
  assert (E : clause_total (weight m) c
              = clause_total (fun _ => 1) c + clause_total (fun i => weight m i - 1) c); [|lia].
  clear -Hc. unfold clause_total. induction c as [|x c IH]; [done|]. simpl.
  rewrite IH by (intros i Hi; apply Hc; by right). specialize (Hc x ltac:(left)). lia.
Qed.

Lemma weight_opp m i : weight m (- i) = weight m i.
Proof. unfold weight. by rewrite Z.abs_opp. Qed.

Lemma numbered_weighty m f : numbered m f -> weighty m f.
Proof. intros Hn i (t & Ht)%Hn. rewrite (number_of_weight m t i Ht). apply leaves_pos. Qed.

(** A reduction with another number of literals weighs less. *)
Lemma fewer_literals m f0 f :
  weighty m f0 -> weighty m f -> (forall g, (forall i, g (- i)%Z = g i) -> total g f <= total g f0) ->
  number_of_literals f0 <> number_of_literals f -> total (weight m) f < total (weight m) f0.
Proof.
  intros H0 Hf Hle Hne. rewrite !number_of_literals_total in Hne. rewrite !total_weight by done.
  pose proof (Hle (fun _ => 1) ltac:(done)).
  pose proof (Hle (fun i => weight m i - 1) ltac:(intros i; simpl; by rewrite weight_opp)). lia.
Qed.

Lemma total_negate g f :
  (forall i, g (- i)%Z = g i) -> Forall clause_fine f -> total g (negate_clause <$> f) = total g f.
Proof.
  intros Hg. unfold total. induction 1 as [|c f [Hs _] Hf IH]; [done|].
  rewrite fmap_cons. cbn [sum_list_with]. by rewrite IH, clause_total_negate.
Qed.

Lemma no_tautologies_total g f : total g (no_tautologies f) <= total g f.
Proof. apply total_sublist, sublist_filter. Qed.

(** Items of formulas *)
Lemma items_of_leaves j t : is_junctor (Builtin j) -> sum_list_with leaves (items_of j t) <= leaves t.
Proof.
  intros Hj. unfold items_of. case_bool_decide as E; [|simpl; lia]. destruct t as [v ch].
  simpl in E. subst v. rewrite leaves_node. rewrite Is_true_true in Hj. rewrite Hj. destruct ch; simpl; lia.
Qed.

Lemma clauses_weight j m ch f :
  is_junctor (Builtin j) -> Forall2 (fun t c => numbers m (items_of j t) c) ch f ->
  total (weight m) f <= sum_list_with leaves ch.
Proof.
  intros Hj. unfold total. induction 1 as [|t c ch f [_ _ _ Hc] Hf IH]; [done|]. simpl.
  pose proof (items_of_leaves j t Hj). lia.
Qed.

Lemma clauses_formulas j m ch f i u :
  formulas ch -> Forall2 (fun t c => numbers m (items_of j t) c) ch f ->
  i ∈ mjoin f -> number_of m u i -> formula u.
Proof.
  intros Hch Hf. induction Hf as [|t c ch f Hc Hf IH]; [intros Hi; inversion Hi|].
  apply Forall_cons in Hch as [Ht Hch]. intros [Hi|Hi]%elem_of_app Hu; [|by apply IH].
  destruct (num_numbers _ _ _ Hc i Hi) as (u' & Hu' & Hn). rewrite (number_of_fun m i u u' Hu Hn).
  unfold items_of in Hu'. case_bool_decide.
  - apply formula_children in Ht. by eapply Forall_forall in Ht.
  - by apply list_elem_of_singleton in Hu' as ->.
Qed.

Lemma items_formulas m c ts :
  (forall i u, i ∈ c -> number_of m u i -> formula u) -> items m c ts -> formulas ts.
Proof.
  intros Hc Hts. induction Hts as [|i t c ts Ht Hts IH]; constructor.
  - by apply (Hc i); [left|].
  - apply IH. intros j u Hj. apply Hc. by right.
Qed.

Lemma clause_trees_formulas j m f l :
  is_junctor (Builtin j) -> (forall i u, i ∈ mjoin f -> number_of m u i -> formula u) ->
  Forall2 (clause_tree j m) f l -> formulas l.
Proof.
  intros Hj Hf Hl. induction Hl as [|c t f l Hc Hl IH]; constructor.
  - assert (Hci : forall i u, i ∈ c -> number_of m u i -> formula u)
      by (intros i u Hi; apply Hf; apply elem_of_app; by left).
    destruct Hc as [(i & -> & Ht)|(_ & ts & -> & Hts)]; [by apply (Hci i); [left|]|].
    apply formula_junctor; [done|]. by eapply items_formulas.
  - apply IH. intros i u Hi. apply Hf. apply elem_of_app. by right.
Qed.

Lemma clause_trees_leaves j m f l :
  is_junctor (Builtin j) -> Forall2 (clause_tree j m) f l ->
  sum_list_with leaves l = total (weight m) f.
Proof.
  intros Hj. unfold total. induction 1 as [|c t f l Hc Hl IH]; [done|]. simpl.
  by rewrite IH, (clause_tree_leaves j m c t Hj Hc).
Qed.

Lemma junction_formula j l : is_junctor (Builtin j) -> formulas l -> formula (junction j l).
Proof.
  intros Hj Hl. destruct l as [|t [|u l]]; [done|by apply Forall_inv in Hl|].
  by apply formula_junctor.
Qed.

Lemma junction_leaves j l :
  is_junctor (Builtin j) -> l <> [] -> leaves (junction j l) = sum_list_with leaves l.
Proof.
  intros Hj Hl. destruct l as [|t [|u l]]; [done|simpl; lia|]. unfold junction.
  rewrite leaves_node. rewrite Is_true_true in Hj. by rewrite Hj.
Qed.

Lemma node_leaves j l :
  is_junctor (Builtin j) -> l <> [] -> leaves (node j l) = sum_list_with leaves l.
Proof. intros Hj Hl. rewrite leaves_node. rewrite Is_true_true in Hj. rewrite Hj. by destruct l. Qed.

(** ** reduce_ors and reduce_ands *)
Lemma clauses_children j m ch (f : nf) :
  Forall2 (fun t c => numbers m (items_of j t) c) ch f -> f <> [] -> ch <> [].
Proof. intros H Hf ->. by inversion H; subst. Qed.

Lemma or_result_total ch t :
  formulas ch -> or_result ch t -> formula t /\ not_larger (node id.logical_or ch) t.
Proof.
  intros Hch [|m f0 f u Hn R Hne Hu]; [split; [by apply formula_junctor|done]|].
  pose proof (numbers_numbered m _ f0 (map_items_fmap _ _ _ _ Hn)) as Hnum.
  pose proof (numbered_reduction m f0 f Hnum R) as Hnumf.
  assert (Hw : total (weight m) f < total (weight m) f0).
  { apply fewer_literals; [by apply numbered_weighty..| |done]. intros g _.
    etransitivity; [apply R|apply no_tautologies_total]. }
  assert (Hne' : ch <> []) by (eapply clauses_children; [done|]; intros ->; simpl in Hw; lia).
  pose proof (clauses_weight id.logical_and m ch f0 I Hn) as Hle.
  destruct Hu as [[_ ->]|(_ & l & Hl & ->)]; [split; [done|right; by apply leaf_smaller]|].
  assert (Hf : formulas l).
  { apply (clause_trees_formulas id.logical_and m f); [done| |done]. intros i v Hi.
    eapply clauses_formulas; [done..|]. apply (red_literals _ _ R) in Hi.
    by apply no_tautologies_literals. }
  split; [by apply junction_formula|]. right.
  destruct l as [|x l]; [by apply leaf_smaller|]. left.
  rewrite junction_leaves, node_leaves by done.
  rewrite (clause_trees_leaves id.logical_and m f (x :: l) I Hl). lia.
Qed.

Lemma some_clauses_total g f : total g (some_clauses f) = total g f.
Proof.
  unfold some_clauses, total. induction f as [|c f IH]; [done|]. rewrite filter_cons.
  case_decide as E; simpl; [by rewrite IH|]. destruct c; [by rewrite IH|done].
Qed.

Lemma clause_total_split g i c :
  sorted_clause c -> sorted_clause i -> i ⊆ c ->
  clause_total g c = clause_total g i + clause_total g (erase_all i c).
Proof.
  intros Hc Hi Hs. unfold clause_total. rewrite <- sum_list_with_app.
  assert (c ≡ₚ i ++ erase_all i c) as <-; [|done]. apply NoDup_Permutation.
  - by apply sorted_clause_NoDup.
  - apply NoDup_app. split; [by apply sorted_clause_NoDup|]. split.
    + intros x Hx. rewrite elem_of_erase_all. tauto.
    + by apply sorted_clause_NoDup, erase_all_sorted.
  - intros x. rewrite elem_of_app, elem_of_erase_all.
    specialize (Hs x). destruct (decide (x ∈ i)); tauto.
Qed.

Lemma rest_total m i f :
  Forall sorted_clause f -> sorted_clause i -> (forall c, c ∈ f -> i ⊆ c) ->
  total (weight m) f = length f * clause_total (weight m) i + total (weight m) (rest i f).
Proof.
  intros Hf Hi Hs. unfold total, rest. induction Hf as [|c f Hc Hf IH]; [done|].
  rewrite fmap_cons. cbn [sum_list_with length]. unfold compose at 1.
  rewrite IH by (intros d Hd; apply Hs; by right).
  rewrite (clause_total_negate _ (erase_all i c)) by (by first [apply weight_opp|apply erase_all_sorted]).
  rewrite (clause_total_split _ i c Hc Hi) by (apply Hs; left). lia.
Qed.

Lemma clause_total_pos g c : (forall i, i ∈ c -> 1 <= g i) -> c <> [] -> 1 <= clause_total g c.
Proof.
  intros Hg Hc. destruct c as [|x c]; [done|]. unfold clause_total. simpl.
  specialize (Hg x ltac:(left)). lia.
Qed.

(** The leaves of the tree that [reduce_ands] makes, when it is no constant. *)
Lemma shared_or_leaves m f l ts :
  nf_ok f ->
  Forall2 (clause_tree id.logical_or m) (some_clauses (rest (intersect f) f)) l ->
  items m (negate_clause (intersect f)) ts -> intersect f <> [] ->
  (forall i, i ∈ intersect f -> 1 <= weight m i) ->
  leaves (shared_or (intersect f) l ts) < total (weight m) f.
Proof.
  intros Hok Hl Hts Hi Hw. destruct (intersect_spec f (nf_ok_sorted f Hok)) as (Hs & Hsub & Hlen).
  specialize (Hlen Hi). rewrite (rest_total m (intersect f) f (nf_ok_sorted f Hok) Hs Hsub).
  pose proof (items_leaves m _ ts Hts) as Hlt. rewrite clause_total_negate in Hlt by (done || apply weight_opp).
  pose proof (clause_total_pos (weight m) _ Hw Hi) as Hpos.
  pose proof (clause_trees_leaves id.logical_or m _ l I Hl) as Hll. rewrite some_clauses_total in Hll.
  unfold shared_or. destruct (intersect f) as [|x i] eqn:Ei; [done|]. rewrite <- Ei in *.
  rewrite node_leaves; [|done|].
  - rewrite sum_list_with_app, Hlt.
    assert (sum_list_with leaves (if l is [] then [] else [node id.logical_and l])
            = total (weight m) (rest (intersect f) f)) as ->.
    { rewrite <- Hll. destruct l as [|y l]; [done|]. cbn [sum_list_with].
      rewrite node_leaves by done. simpl. lia. }
    nia.
  - destruct l; [|done]. simpl. intros ->. simpl in Hlt. lia.
Qed.

(** The items of the literals of the negated clauses are formulas too. *)
Lemma rest_formulas m ch f0 f x u :
  formulas ch -> Forall2 (fun t c => numbers m (items_of id.logical_or t) c) ch f0 ->
  mjoin f ⊆ mjoin (negate_clause <$> f0) -> x ∈ mjoin (rest (intersect f) f) ->
  number_of m u x -> formula u.
Proof. intros Hch Hn Hs Hx%(rest_literals _ f f0 Hs). by eapply clauses_formulas. Qed.

Lemma negated_weighty m (f0 f : nf) :
  numbered m f0 -> mjoin f ⊆ mjoin (negate_clause <$> f0) -> weighty m f.
Proof.
  intros Hn%numbered_weighty Hs i Hi. rewrite <- weight_opp. apply Hn.
  rewrite list_elem_of_join in Hi. destruct Hi as (c & Hc & Hf).
  apply (rest_literals [] f f0 Hs), list_elem_of_join. exists (negate_clause c).
  rewrite elem_of_negate_clause, Z.opp_involutive. split; [done|].
  unfold rest. apply list_elem_of_fmap. by exists c.
Qed.

(** The reduction of the negated clauses weighs no more than the clauses. *)
Lemma negated_total (f0 f : nf) g :
  Forall clause_fine f0 -> reduction (no_tautologies (negate_clause <$> f0)) f ->
  (forall i, g (- i)%Z = g i) -> total g f <= total g f0.
Proof.
  intros Hf R Hg. rewrite <- (total_negate g f0 Hg Hf).
  etransitivity; [apply R|apply no_tautologies_total].
Qed.

Lemma and_changed_leaves m f0 f l ts :
  Forall clause_fine f0 -> numbered m f0 ->
  reduction (no_tautologies (negate_clause <$> f0)) f -> f <> [] ->
  number_of_literals f0 <> number_of_literals f \/ intersect f <> [] ->
  Forall2 (clause_tree id.logical_or m) (some_clauses (rest (intersect f) f)) l ->
  items m (negate_clause (intersect f)) ts ->
  shared_or (intersect f) l ts = node id.logical_false [] \/
  leaves (shared_or (intersect f) l ts) < total (weight m) f0.
Proof.
  intros Hfine Hnum R Hf Hd Hl Hts. pose proof (negated_weighty m f0 f Hnum (negated_literals f0 f R)) as Hw.
  destruct (intersect_spec f (nf_ok_sorted f (red_ok _ _ R))) as (_ & Hsub & _).
  assert (Hlt : intersect f <> [] -> leaves (shared_or (intersect f) l ts) < total (weight m) f).
  { intros Hi. apply shared_or_leaves; [apply R|done..|]. intros i Hin. apply Hw.
    destruct f as [|c f]; [done|]. apply elem_of_app. left. by apply (Hsub c); [left|]. }
  pose proof (negated_total f0 f (weight m) Hfine R (weight_opp m)) as Hle.
  destruct (decide (intersect f = [])) as [E|Hi]; [|right; specialize (Hlt Hi); lia].
  destruct Hd as [Hd|Hd]; [|done]. pose proof (fewer_literals m f0 f (numbered_weighty _ _ Hnum) Hw
    (fun g Hg => negated_total f0 f g Hfine R Hg) Hd) as Hlt'.
  rewrite (rest_total m [] f (nf_ok_sorted f (red_ok _ _ R)) ltac:(constructor) ltac:(set_solver)) in Hlt'.
  rewrite E in *. unfold shared_or. destruct l as [|x l]; [by left|right].
  rewrite junction_leaves by done. rewrite (clause_trees_leaves id.logical_or m _ _ I Hl), some_clauses_total.
  unfold clause_total in Hlt'. simpl in Hlt'. lia.
Qed.

Lemma shared_or_formula i l ts : formulas l -> formulas ts -> formula (shared_or i l ts).
Proof.
  intros Hl Hts. unfold shared_or. destruct i; [by apply junction_formula|].
  apply formula_junctor; [done|]. apply Forall_app. split; [|done].
  destruct l as [|x l]; constructor; [|constructor]. by apply formula_junctor.
Qed.

Lemma and_result_total ch t :
  formulas ch -> and_result ch t -> formula t /\ not_larger (node id.logical_and ch) t.
Proof.
  intros Hch [|m f0 Hn _|m f0 f l ts Hn Hne R Hd Hl Hts]; [split; [by apply formula_junctor|done]|..].
  - split; [done|right]. destruct ch as [|c ch]; [|by apply leaf_smaller]. unfold smaller, lex. simpl. lia.
  - pose proof (numbers_fine m _ f0 (map_items_fmap _ _ _ _ Hn)) as Hfine.
    pose proof (numbers_numbered m _ f0 (map_items_fmap _ _ _ _ Hn)) as Hnum.
    pose proof (negated_literals f0 f R) as Hlit. pose proof (red_nonempty _ _ R Hne) as Hf.
    destruct (intersect_spec f (nf_ok_sorted f (red_ok _ _ R))) as (Hs & Hsub & _).
    assert (Hfl : formulas l).
    { eapply (clause_trees_formulas id.logical_or m); [done| |exact Hl]. intros i u Hi.
      eapply rest_formulas; [done..|]. by eapply sublist_literals, Hi; apply sublist_filter. }
    assert (Hft : formulas ts).
    { eapply items_formulas; [|done]. intros i u Hi. eapply (clauses_formulas _ m ch); [done..|].
      by eapply shared_literals. }
    split; [by apply shared_or_formula|]. right.
    assert (Hne' : ch <> []) by (intros ->; inversion Hn; subst; by apply Hne).
    destruct (and_changed_leaves m f0 f l ts Hfine Hnum R Hf Hd Hl Hts) as [->|Hlt]; [by apply leaf_smaller|].
    left. rewrite node_leaves by done. pose proof (clauses_weight id.logical_or m ch f0 I Hn). lia.
Qed.

(** The rules on formulas. *)
Lemma reduce_ands_total up t :
  formula t -> exists t', reduce_ands up t = Ok t' /\ formula t' /\ not_larger t t'.
Proof.
  intros Hf. destruct t as [v ch]. destruct (decide (v = Builtin id.logical_and)) as [->|Hv].
  - destruct (reduce_ands_run up ch (formula_regular _ Hf)) as (t & Ht & HR). exists t.
    split; [done|]. apply and_result_total; [|done]. by apply formula_junctor in Hf.
  - exists (Node v ch). unfold reduce_ands. by rewrite is_builtin_ne.
Qed.

Lemma reduce_ors_total up t :
  formula t -> exists t', reduce_ors up t = Ok t' /\ formula t' /\ not_larger t t'.
Proof.
  intros Hf. destruct t as [v ch]. destruct (decide (v = Builtin id.logical_or)) as [->|Hv].
  - destruct (reduce_ors_run up ch (formula_regular _ Hf)) as (t & Ht & HR). exists t.
    split; [done|]. apply or_result_total; [|done]. by apply formula_junctor in Hf.
  - exists (Node v ch). unfold reduce_ors. by rewrite is_builtin_ne.
Qed.

(** ** The passes *)
Lemma not_larger_congruent : congruent not_larger.
Proof. intros v l l' _. apply not_larger_node. Qed.

Lemma preserves_congruent : congruent preserves.
Proof.
  intros v l l' Hf Hl. destruct (is_junctor v) eqn:E; [by apply preserves_junctor; [rewrite E|]|].
  destruct v as [|[]| |i| | | | | | | | |]; try done; cbn [formula] in Hf.
  - destruct l; [by inversion Hl|done].
  - destruct l; [by inversion Hl|done].
  - destruct l as [|c [|]]; try done. inversion Hl as [|? c' ? ? Hc Hl']; subst.
    inversion Hl'; subst. by apply preserves_negation.
  - apply andb_True in Hf as [_ Hf]. destruct l; [by inversion Hl|done].
Qed.

(** A rule that makes formulas no larger, applied downwards. *)
Section shrinking.
Context `{Vocabulary} (E : combo_tree -> combo_tree -> Prop) `{!PreOrder E} (E_node : congruent E).

Definition shrinking (r : rule) : Prop := forall up t,
  formula t -> exists t', r up t = Ok t' /\ formula t' /\ E t t' /\ not_larger t t'.

Lemma downwards_shrinking r out : shrinking r -> total_rule (fun n => downwards n r out) E.
Proof using E_node PreOrder0.
  intros Hr up t Hf.
  destruct (downwards_ok r out E E_node smaller smaller_wf (fun _ => True)) with (up := up) (t := t)
    as (t' & Hy & Hf' & He & _); [|done|eauto]. clear t Hf up. intros up t b Hf _.
  assert (Ht : exists t', when r b up t = Ok t' /\ formula t' /\ E t t' /\ not_larger t t').
  { destruct b; [by apply Hr|]. by exists t. }
  destruct Ht as (t' & -> & Hf' & He & Hn). exists t'. repeat (split; [done|]). split; [|done].
  intros c Hc%child_smaller. destruct Hn as [->|Hn]; [done|]. by eapply smaller_trans.
Qed.
End shrinking.

Definition keeps (t t' : combo_tree) : Prop := preserves t t' /\ not_larger t t'.

Lemma level_shrinking : shrinking keeps level.
Proof.
  intros up t Hf. destruct (level_total up t Hf) as (t' & Ht & Hf' & Hn). exists t'.
  repeat split; try done. by eapply level_preserves.
Qed.

Lemma reduce_ands_shrinking : shrinking keeps reduce_ands.
Proof.
  intros up t Hf. destruct (reduce_ands_total up t Hf) as (t' & Ht & Hf' & Hn). exists t'.
  destruct (reduce_ands_ok up t (formula_regular t Hf)) as (u & Hu & Hp).
  assert (u = t') as -> by congruence. by repeat split.
Qed.

Lemma reduce_ors_shrinking : shrinking keeps reduce_ors.
Proof.
  intros up t Hf. destruct (reduce_ors_total up t Hf) as (t' & Ht & Hf' & Hn). exists t'.
  destruct (reduce_ors_ok up t (formula_regular t Hf)) as (u & Hu & Hp).
  assert (u = t') as -> by congruence. by repeat split.
Qed.

#[export] Instance keeps_preorder : PreOrder keeps.
Proof.
  split; [by intros t|]. intros t1 t2 t3 [H12 N12] [H23 N23].
  split; [by transitivity t2|by transitivity t2].
Qed.

Lemma keeps_congruent : congruent keeps.
Proof.
  intros v l l' Hf Hl. split.
  - apply preserves_congruent; [done|]. by eapply Forall2_impl; [exact Hl|intros ?? []].
  - apply not_larger_node. by eapply Forall2_impl; [exact Hl|intros ?? []].
Qed.

(** The last three rules of the pass. *)
Lemma normal_form_rules `{Vocabulary} :
  total_rule (fun n => sequential [downwards n level id.unknown_type;
                                   downwards n reduce_ands id.boolean_type;
                                   downwards n reduce_ors id.boolean_type]) keeps.
Proof.
  apply (sequential_ok keeps [fun n => downwards n level id.unknown_type;
    fun n => downwards n reduce_ands id.boolean_type; fun n => downwards n reduce_ors id.boolean_type]).
  repeat constructor; apply (downwards_shrinking keeps keeps_congruent).
  - apply level_shrinking.
  - apply reduce_ands_shrinking.
  - apply reduce_ors_shrinking.
Qed.

(** A pass, after its first rule. *)
Lemma simple_pass_steps `{Vocabulary} up t t1 :
  yields (fun _ => upwards eval_logical_identities) up t t1 -> formula t1 ->
  exists t', yields simple_pass up t t' /\ formula t' /\ keeps t1 t'.
Proof.
  intros (N1 & H1) Hf1. destruct (normal_form_rules up t1 Hf1) as (t' & (N2 & H2) & Hf' & Hk).
  exists t'. split; [|done]. exists (N1 `max` N2). intros n Hn. unfold simple_pass.
  cbn [sequential]. rewrite (H1 n) by lia. cbn [mbind res_bind]. apply H2. lia.
Qed.

Lemma simple_pass_total `{Vocabulary} : total_rule simple_pass not_larger.
Proof.
  intros up t Hf.
  destruct (upwards_ok not_larger eval_logical_identities not_larger_congruent
              eval_logical_identities_total up t Hf) as (t1 & H1 & Hf1 & Hn).
  destruct (simple_pass_steps up t t1 H1 Hf1) as (t' & Hy & Hf' & _ & Hn'). exists t'.
  split; [done|]. split; [done|]. by transitivity t1.
Qed.

(** *** Negation normal form *)
Fixpoint negation_normal (t : combo_tree) : bool :=
  let 'Node v ch := t in
  forallb negation_normal ch &&
  (if is_builtin id.logical_not v then
     match ch with [c] => is_boolean (root c) | _ => false end
   else true).


(** What [reduce_nots] keeps: values, and constants themselves. *)
Definition keeps_constants (t t' : combo_tree) : Prop :=
  preserves t t' /\ (is_boolean (root t) -> t' = t).

#[export] Instance keeps_constants_preorder : PreOrder keeps_constants.
Proof.
  split; [by intros t|]. intros t1 t2 t3 [H12 B12] [H23 B23].
  split; [by transitivity t2|]. intros Hb. pose proof (B12 Hb) as ->. by apply B23.
Qed.

Lemma keeps_constants_congruent : congruent keeps_constants.
Proof.
  intros v l l' Hf Hl. split.
  - apply preserves_congruent; [done|]. by eapply Forall2_impl; [exact Hl|intros ?? []].
  - destruct v as [|[]| | | | | | | | | | |]; try done; cbn [formula] in Hf;
      destruct l; try done; by inversion Hl.
Qed.

Lemma negation_normal_node v l l' :
  (is_builtin id.logical_not v -> exists c, l = [c] /\ is_boolean (root c)) ->
  Forall2 keeps_constants l l' -> Forall (fun c => negation_normal c) l' ->
  negation_normal (Node v l').
Proof.
  intros Hn Hl Hl'. cbn [negation_normal]. rewrite andb_True. split; [by apply forallb_Forall|].
  destruct (is_builtin id.logical_not v); [|done]. destruct (Hn I) as (c & -> & Hc).
  inversion Hl as [|? c' ? ? [_ Hb] Hnil]; subst. inversion Hnil; subst.
  by rewrite (Hb Hc).
Qed.

Lemma nots_step_refl t : formula t -> ~ is_builtin id.logical_not (root t) -> nots_step t t.
Proof. intros Hf Hn. by apply (reduce_nots_other 0 t Hf Hn). Qed.

Lemma reduce_nots_downwards `{Vocabulary} up t :
  formula t ->
  exists t', yields extra_simple up t t' /\ formula t' /\ keeps_constants t t' /\ negation_normal t'.
Proof.
  intros Hf. unfold extra_simple.
  eapply (downwards_ok reduce_nots id.boolean_type keeps_constants keeps_constants_congruent
            (fun c t => size c < size t) (well_founded_ltof _ size) (fun t => negation_normal t)); [|done].
  clear t Hf up. intros up t b Hf Hb.
  assert (Ht : exists t', when reduce_nots b up t = Ok t' /\ nots_step t t').
  { destruct b; [by apply reduce_nots_loop_ok|]. exists t. split; [done|].
    apply nots_step_refl; [done|]. destruct t as [v ch]. intros E%Is_true_true%bool_decide_eq_true.
    simpl in E. subst v. done. }
  destruct Ht as (t' & -> & [Hf' Hp Hs Hbo Hn]). exists t'. repeat (split; [done|]).
  intros ch Hch Hq. by eapply negation_normal_node.
Qed.

Lemma simple_total `{Vocabulary} t :
  formula t ->
  exists t1 t', yields extra_simple None t t1 /\ negation_normal t1 /\ not_larger t1 t' /\
  formula t' /\ yields simple None t t' /\ yields simple_pass None t' t'.
Proof.
  intros Hf. destruct (reduce_nots_downwards None t Hf) as (t1 & (N1 & H1) & Hf1 & _ & Hnn).
  destruct (iterative_stops simple_pass not_larger None t1) as (t' & N2 & H2 & Hf' & Hn & Hy);
    [done|apply simple_pass_total|done|].
  exists t1, t'. split; [by exists N1|]. repeat (split; [done|]). split; [|done].
  exists (N1 `max` N2). intros n Hle. unfold simple. cbn [sequential].
  change (downwards n reduce_nots id.boolean_type) with (extra_simple n).
  rewrite H1 by lia. cbn [mbind res_bind]. rewrite H2 by lia. done.
Qed.

(** ** Formulas without constants *)
Fixpoint plain (t : combo_tree) : bool :=
  let 'Node v ch := t in
  negb (is_boolean v) && negb (is_junctor v && is_nil ch) && forallb plain ch.

Lemma plain_node v ch :
  plain (Node v ch) <->
  is_boolean v = false /\ (is_junctor v -> ch <> []) /\ Forall (fun c => plain c) ch.
Proof.
  cbn [plain]. rewrite !andb_True, forallb_Forall, !negb_True, andb_True.
  split.
  - intros [[Hb Hj] Hc]. split; [by destruct (is_boolean v); [destruct Hb|]|]. split; [|done].
    intros Hv ->. by apply Hj.
  - intros (Hb & Hj & Hc). rewrite Hb. split; [|done]. split; [by intros []|].
    intros [Hv Hn]. specialize (Hj Hv). by destruct ch.
Qed.

(** No child is erased. *)
Lemma plain_identities j nt ab ch :
  is_junctor (Builtin j) -> is_boolean (Builtin nt) -> is_boolean (Builtin ab) ->
  Forall (fun c => plain c) ch -> logical_identities j nt ab ch = Some ch.
Proof.
  intros Hj Hn Ha. induction 1 as [|[v l] ch Hc Hch IH]; [done|]. cbn [logical_identities root].
  apply plain_node in Hc as (Hb & Hne & _). unfold is_childless. cbn [children].
  destruct (decide (v = Builtin nt)) as [->|Hvn]; [by rewrite Hb in Hn|].
  destruct (decide (v = Builtin ab)) as [->|Hva]; [by rewrite Hb in Ha|].
  rewrite (is_builtin_ne nt v Hvn), (is_builtin_ne ab v Hva), IH, orb_false_r.
  destruct (decide (v = Builtin j)) as [->|Hvj]; [|by rewrite (is_builtin_ne j v Hvj)].
  specialize (Hne Hj). by destruct l; [|rewrite andb_false_r].
Qed.

Definition keeps_plain (t t' : combo_tree) : Prop := plain t -> plain t' /\ preserves t t'.

#[export] Instance keeps_plain_preorder : PreOrder keeps_plain.
Proof.
  split; [by intros t|]. intros t1 t2 t3 H12 H23 H1. destruct (H12 H1) as [H2 P12].
  destruct (H23 H2) as [H3 P23]. split; [done|]. by transitivity t2.
Qed.

Lemma keeps_plain_congruent : congruent keeps_plain.
Proof.
  intros v l l' Hf Hl (Hb & Hj & Hp)%plain_node.
  assert (Hl' : Forall (fun c => plain c) l' /\ Forall2 preserves l l').
  { clear Hf Hj. induction Hl as [|c c' l l' Hc Hl IH]; [done|]. apply Forall_cons in Hp as [Hpc Hp].
    destruct (Hc Hpc), (IH Hp). by repeat constructor. }
  destruct Hl' as [Hp' Hpr]. split; [|by apply preserves_congruent].
  apply plain_node. split; [done|]. split; [|done]. intros Hv%Hj ->. by inversion Hl; subst.
Qed.

Lemma eval_logical_identities_plain up t :
  formula t ->
  exists t', eval_logical_identities up t = Ok t' /\ formula t' /\ keeps_plain t t'.
Proof.
  intros Hf. destruct (eval_logical_identities_total up t Hf) as (t' & Ht & Hf' & _).
  exists t'. split; [done|]. split; [done|]. intros Hp. split.
  - destruct t as [v ch]. pose proof Hp as (Hb & Hj & Hc)%plain_node. injection Ht as <-.
    destruct v as [|[]| | | | | | | | | | |]; try done.
    + by rewrite plain_identities.
    + destruct ch as [|c [|d ch]]; [by specialize (Hj I)|by apply Forall_inv in Hc|].
      by rewrite plain_identities.
  - apply (eval_logical_identities_preserves up); [|done]. destruct t as [v ch].
    apply plain_node in Hp as (_ & _ & Hc). intros [w l] Hin Hw. rewrite Forall_forall in Hc.
    apply Hc, plain_node in Hin as (_ & Hne & _). by apply Hne.
Qed.

Lemma simple_pass_plain `{Vocabulary} up t :
  formula t -> plain t -> exists t', yields simple_pass up t t' /\ formula t' /\ preserves t t'.
Proof.
  intros Hf Hp.
  destruct (upwards_ok keeps_plain eval_logical_identities keeps_plain_congruent
              eval_logical_identities_plain up t Hf) as (t1 & H1 & Hf1 & Hk).
  destruct (Hk Hp) as [_ Hpr]. destruct (simple_pass_steps up t t1 H1 Hf1) as (t' & Hy & Hf' & Hk' & _).
  exists t'. split; [done|]. split; [done|]. by transitivity t1.
Qed.

(** ** Truth tables *)
Lemma formula_value V t :
  (forall i, is_Some (v_arg V i)) -> formula t -> is_Some (value V t).
Proof.
  intros HV. induction t as [v ch IH] using tree_ind'. intros Hf.
  pose proof (formula_children _ Hf) as Hch. simpl in Hch.
  assert (Hvs : exists bs, values V ch bs).
  { clear Hf. induction IH as [|c l Hc Hl IHl]; [by exists []|].
    apply Forall_cons in Hch as [Hfc Hch]. destruct (Hc Hfc) as [b Hb], (IHl Hch) as [bs Hbs].
    exists (b :: bs). by constructor. }
  destruct Hvs as [bs Hbs]. destruct v as [|[]| |i| | | | | | | | |]; try done; cbn [formula] in Hf.
  - exists (forallb (fun b => b) bs). apply value_and. eauto.
  - exists (existsb (fun b => b) bs). apply value_or. eauto.
  - destruct ch as [|c [|]]; try done. inversion Hbs as [|? b ? ? Hb _]; subst.
    exists (negb b). simpl. by rewrite Hb.
  - cbn [value]. apply andb_True in Hf as [Hi _]. destruct (i =? 0)%Z; [done|].
    destruct (HV (Z.abs i)) as [b ->]. by eexists.
Qed.

(** Arguments are bound to booleans. *)
Definition boolean_binding (binding : bindings) : Prop :=
  forall i, exists b, binding i = inl (bool_to_vertex b).

Section tables.
Context {World : Type} `{RandGen World, Libm}.

Lemma eval_preserved pe binding n (s : World) t t' :
  boolean_binding binding -> formula t -> preserves t t' ->
  eval pe binding n t' s = eval pe binding n t s.
Proof.
  intros Hb Hf Hp.
  set (arg := fun i : Z => match binding i with
                           | inl (Builtin id.logical_true) => true | _ => false end).
  set (V := {| v_arg := fun i => Some (arg i); v_atom := fun _ => None |}).
  assert (HV : agrees pe binding n s V).
  { split; [|done]. intros i b _ [= <-]. unfold arg. by destruct (Hb i) as ([] & ->). }
  destruct (formula_value V t ltac:(intros i; by eexists) Hf) as [b Hv].
  pose proof (evaluates_value pe binding n s V t b HV Hv) as E.
  pose proof (evaluates_value pe binding n s V t' b HV (Hp V b Hv)) as E'.
  unfold eval, evaluates in *. by rewrite E, E'.
Qed.

Lemma bind_row_boolean binding a i :
  boolean_binding binding -> boolean_binding (bind_row binding a i).
Proof.
  intros Hb k. unfold bind_row. destruct (_ && _); [by eexists|]. apply Hb.
Qed.

(** The rules keep the truth table. *)
Lemma truth_table_preserved binding n a t t' (s : World) :
  boolean_binding binding -> formula t -> preserves t t' ->
  truth_table binding n a t' s = truth_table binding n a t s.
Proof.
  intros Hb Hf Hp. unfold truth_table. destruct (30 <? a)%Z; [done|]. generalize (rows_of a) as rows.
  intros rows. revert s. induction rows as [|i rows IH]; intros s; [done|]. cbn [populate].
  unfold mbind, st_bind.
  assert (eval_row binding n a t' i s = eval_row binding n a t i s) as ->
    by (apply eval_preserved; [by apply bind_row_boolean|done..]).
  destruct (eval_row _ _ _ _ _ _) as [[v| | |] s']; try done. by rewrite IH.
Qed.
End tables.
