(* ===== verification/ReductProps.v ===== *)
(** The reduction engine: the theorems about the rules and the first two
    efforts, and what is lost in [eval_logical_identities]. *)
From Stdlib Require Import SpecFloat.
From S2P Require Import Prelude Combo FlatNormalForm Reduct NFSpec ReductSpec NFMapper ReductNF ReductMeta ReductLogic.

(** ** Examples *)
Module Demo.
Definition vocabulary : Vocabulary := {|
  builtin_action_output := fun _ => type_leaf id.action_result_type;
  perception_output := fun _ => type_leaf id.boolean_type;
  procedure_call_output := fun _ => type_leaf id.unknown_type
|}.
Definition rand_gen : RandGen unit := fun s => (contin_zero, s).
Definition libm : Libm := {| c_log := fun x => x; c_exp := fun x => x; c_sin := fun x => x |}.
#[export] Existing Instances vocabulary rand_gen libm.

Definition A (i : Z) : combo_tree := Node (Argument i) [].
Definition AND (l : list combo_tree) : combo_tree := Node (Builtin id.logical_and) l.
Definition OR (l : list combo_tree) : combo_tree := Node (Builtin id.logical_or) l.
Definition NOT (t : combo_tree) : combo_tree := Node (Builtin id.logical_not) [t].
Definition T : combo_tree := Node (Builtin id.logical_true) [].

(** Odd arguments are true. *)
Definition odd_args : bindings := fun i => inl (bool_to_vertex (Z.odd i)).
Definition odd_values : valuation := {| v_arg := fun i => Some (Z.odd i); v_atom := fun _ => None |}.

Lemma odd_agrees : agrees None odd_args 0 tt odd_values.
Proof. split; [|done]. intros i b _ [= <-]. done. Qed.

Lemma odd_boolean : boolean_binding odd_args.
Proof. intros i. by eexists. Qed.

Definition factored : combo_tree := AND [OR [A 1; A 2]; OR [A 1; A 3]; OR [A 1; A 2; A 4]].
Definition absorbed : combo_tree := OR [AND [A 1; A (-2)]; A 2; AND [A 3; A 2]].
Definition negated : combo_tree := NOT (AND [OR [A 1; NOT (NOT T)]; NOT (A 2)]).
End Demo.

(** ** The rules on normal forms *)
Section evaluation.
Context {World : Type} `{RandGen World, Libm} (pe : option (EvaluatorMethods World)).
Context (binding : bindings) (n : nat) (s : World) (V : valuation).

(** C15. [reduce_ands] gives a result on every regular tree: no vertex is NaN, a
    negative zero or a neural network, and arguments have no children. Wherever
    every subtree under the junctors has a boolean value, without effects and
    exceptions, the evaluator computes the same boolean before and after. *)
Theorem reduce_ands_correct up t :
  regular t -> exists t', reduce_ands up t = Ok t' /\
  forall b, agrees pe binding n s V -> value V t = Some b ->
    eval pe binding n t s = (Ok (bool_to_vertex b), s) /\
    eval pe binding n t' s = (Ok (bool_to_vertex b), s).
Proof.
  intros Hr. destruct (reduce_ands_ok up t Hr) as (t' & Ht & Hp). exists t'. split; [done|].
  intros b HV Hb. by split; apply (eval_value pe binding n s V); [..|apply Hp].
Qed.

(** C16. [reduce_ors] gives a result on every regular tree: no vertex is NaN, a
    negative zero or a neural network, and arguments have no children. Wherever
    every subtree under the junctors has a boolean value, without effects and
    exceptions, the evaluator computes the same boolean before and after. *)
Theorem reduce_ors_correct up t :
  regular t -> exists t', reduce_ors up t = Ok t' /\
  forall b, agrees pe binding n s V -> value V t = Some b ->
    eval pe binding n t s = (Ok (bool_to_vertex b), s) /\
    eval pe binding n t' s = (Ok (bool_to_vertex b), s).
Proof.
  intros Hr. destruct (reduce_ors_ok up t Hr) as (t' & Ht & Hp). exists t'. split; [done|].
  intros b HV Hb. by split; apply (eval_value pe binding n s V); [..|apply Hp].
Qed.
End evaluation.

(** ** The reductions *)
Section reductions.
Context `{Vocabulary} {World : Type} `{RandGen World, Libm} (binding : bindings).

(** C14. Effort 0 ends on every formula, in a negation normal form with the same
    truth table. *)
Theorem extra_simple_correct t :
  boolean_binding binding -> formula t ->
  exists t' N, (forall n, N <= n -> reduce (extra_simple n) t = Ok t') /\ negation_normal t' /\
  forall m a s, truth_table binding m a t' s = truth_table binding m a t s.
Proof.
  intros Hb Hf. destruct (reduce_nots_downwards None t Hf) as (t' & (N & HN) & _ & [Hp _] & Hn).
  exists t', N. split; [done|]. split; [done|]. intros m a s. by apply truth_table_preserved.
Qed.

(** C12. A pass of effort 1 over a formula without constants and without junctors
    that have no children ends, and keeps the truth table. *)
Theorem simple_pass_correct t :
  boolean_binding binding -> formula t -> plain t ->
  exists t' N, (forall n, N <= n -> reduce (simple_pass n) t = Ok t') /\ formula t' /\
  forall m a s, truth_table binding m a t' s = truth_table binding m a t s.
Proof.
  intros Hb Hf Hpl. destruct (simple_pass_plain None t Hf Hpl) as (t' & (N & HN) & Hf' & Hp).
  exists t', N. split; [done|]. split; [done|]. intros m a s. by apply truth_table_preserved.
Qed.
End reductions.

(** C13. The iteration of effort 1 ends on every formula, at a formula that a further
    pass leaves as it is. *)
Theorem simple_stops `{Vocabulary} t :
  formula t ->
  exists t' N, formula t' /\
  forall n, N <= n -> reduce (simple n) t = Ok t' /\ reduce (simple_pass n) t' = Ok t'.
Proof.
  intros Hf. destruct (simple_total t Hf) as (_ & t' & _ & _ & _ & Hf' & (N1 & H1) & (N2 & H2)).
  exists t', (N1 `max` N2). split; [done|]. intros n Hn. split; [apply H1; lia|apply H2; lia].
Qed.

(** ** What is lost *)
Import Demo.

(** [eval_logical_identities] erases an [and] without children from an [or]: one
    round of effort 1 turns the tautology below into such a disjunction and the
    next erases what makes it true, so the truth table changes. *)
Theorem dangling_and_lost :
  let t := OR [A 2;
             AND [OR [A 1; AND [A (-1); A 3];
                                AND [A (-1); A (-3)]]]] in
  exists t', reduce (simple 20) t = Ok t' /\
  truth_table odd_args 0 3 t tt = (Ok (replicate 8 true), tt) /\
  truth_table odd_args 0 3 t' tt =
    (Ok [false; false; true; true; false; false; true; true], tt).
Proof. cbv zeta. eexists. split; [vm_compute; reflexivity|]. by split; vm_compute. Qed.

(** Without a value of every subtree the result may differ: the evaluator goes
    through the operands in order and stops at the first that decides, but the
    rules also put them in another order, so that an operand which was never
    evaluated comes first, here an action, which raises an exception. *)
Theorem unused_operand_first :
  let act := Node (Action id.action_success) [] in
  let all_true : bindings := fun _ => inl (bool_to_vertex true) in
  let t := AND [OR [A 1; A 2]; OR [A (-1); A 2; act]] in
  let u := OR [AND [A (-1); A 2; act]; AND [A 1; A 2]] in
  (eval None all_true 0 t tt).1 = Ok (bool_to_vertex true) /\
  (exists t', reduce_ands None t = Ok t' /\ (eval None all_true 0 t' tt).1 = Ok (Action id.action_success)) /\
  (eval None all_true 0 u tt).1 = Ok (bool_to_vertex true) /\
  (exists u', reduce_ors None u = Ok u' /\ (eval None all_true 0 u' tt).1 = Ok (Action id.action_success)).
Proof.
  cbv zeta. split; [vm_compute; reflexivity|]. split; [eexists; split; [vm_compute; reflexivity|vm_compute; reflexivity]|].
  split; [vm_compute; reflexivity|]. eexists; split; [vm_compute; reflexivity|vm_compute; reflexivity].
Qed.

(** ** Witnesses *)

Lemma reduce_ands_correct_witness :
  reduce_ands None factored = Ok (OR [AND [A 2; A 3]; A 1]) /\
  exists t', reduce_ands None factored = Ok t' /\
  eval None odd_args 0 factored tt = (Ok (bool_to_vertex true), tt) /\
  eval None odd_args 0 t' tt = (Ok (bool_to_vertex true), tt).
Proof.
  split; [by vm_compute|].
  destruct (reduce_ands_correct None odd_args 0 tt odd_values None factored) as (t' & Ht & He); [done|].
  exists t'. split; [exact Ht|]. by apply He; [apply odd_agrees|].
Defined.

Lemma reduce_ors_correct_witness :
  reduce_ors None absorbed = Ok (OR [A 1; A 2]) /\
  exists t', reduce_ors None absorbed = Ok t' /\
  eval None odd_args 0 absorbed tt = (Ok (bool_to_vertex true), tt) /\
  eval None odd_args 0 t' tt = (Ok (bool_to_vertex true), tt).
Proof.
  split; [by vm_compute|].
  destruct (reduce_ors_correct None odd_args 0 tt odd_values None absorbed) as (t' & Ht & He); [done|].
  exists t'. split; [exact Ht|]. by apply He; [apply odd_agrees|].
Defined.

Lemma extra_simple_correct_witness :
  reduce (extra_simple 5) negated = Ok (OR [AND [A (-1); NOT T]; A 2]) /\
  exists t' N, (forall n, N <= n -> reduce (extra_simple n) negated = Ok t') /\ negation_normal t' /\
  forall m a s, truth_table odd_args m a t' s = truth_table odd_args m a negated s.
Proof. split; [by vm_compute|]. by apply (extra_simple_correct odd_args); [apply odd_boolean|]. Defined.

Lemma simple_pass_correct_witness :
  reduce (simple_pass 5) factored = Ok (OR [AND [A 2; A 3]; A 1]) /\
  exists t' N, (forall n, N <= n -> reduce (simple_pass n) factored = Ok t') /\ formula t' /\
  forall m a s, truth_table odd_args m a t' s = truth_table odd_args m a factored s.
Proof. split; [by vm_compute|]. by apply (simple_pass_correct odd_args); [apply odd_boolean|..]. Defined.

Lemma simple_stops_witness :
  exists t' N, formula t' /\
  forall n, N <= n -> reduce (simple n) negated = Ok t' /\ reduce (simple_pass n) t' = Ok t'.
Proof. by apply simple_stops. Defined.
