(* ===== verification/Agents.v ===== *)
(** The agents of the attention economy: src/opencog/server/Agent.cc and .h,
    and src/opencog/dynamics/attention/ForgettingAgent.cc and .h.

    An agent holds importance as an atom does, and gives stimulus to atoms, for
    which they are paid later. Agents listen to the removals of the atom space.
    The frequency, the parameters and the handle sets of an agent are for the
    scheduler and the activity table of the server, which are not modelled. *)
From Stdlib Require Import SpecFloat.
From stdpp Require Import sorting.
From S2P Require Import Prelude ClassServer TruthValue AttentionValue Atom TLB HandleEntry Index AtomTable SpaceServer AtomSpace.

(** [stim_t] is [short]. *)
Record Agent := mkAgent {
  ag_attentionValue : AttentionValue;
  totalStimulus : Z;
  stimulatedAtoms : gmap Handle Z
}.

Definition Agent_new : Agent := mkAgent AV_factory 0 ∅.
Definition set_ag_av av (a : Agent) : Agent := mkAgent av (totalStimulus a) (stimulatedAtoms a).

(** A look at the map with [operator[]]: a missing entry is made, with 0. *)
Definition stimulus (h : Handle) (a : Agent) : Z := default 0%Z (stimulatedAtoms a !! h).

Definition stimulateAtom (h : Handle) (amount : Z) (a : Agent) : Agent :=
  mkAgent (ag_attentionValue a) (sshort (totalStimulus a + amount))
    (<[h := sshort (stimulus h a + amount)]> (stimulatedAtoms a)).

Definition removeAtomStimulus (h : Handle) (a : Agent) : Agent :=
  match stimulatedAtoms a !! h with
  | None => a
  | Some amount => mkAgent (ag_attentionValue a) (sshort (totalStimulus a - amount))
                     (delete h (stimulatedAtoms a))
  end.

(** The stimulus is shared out; the result is what is left over. *)
Definition stimulateAtoms (h : list Handle) (amount : Z) (a : Agent) : res (Z * Agent) :=
  if (HE.getSize h =? 0)%Z then Undef
  else
    let split := sshort (Z.quot amount (HE.getSize h)) in
    Ok (sshort (amount - split * HE.getSize h), foldl (fun a x => stimulateAtom x split a) a h).

Definition resetStimulus (a : Agent) : Agent := mkAgent (ag_attentionValue a) 0 ∅.
Definition getTotalStimulus (a : Agent) : Z := totalStimulus a.
Definition getAtomStimulus (h : Handle) (a : Agent) : Z := stimulus h a.

(** The handler of the signal, for what is modelled of an agent. *)
Definition agent_atomRemoved (h : Handle) (a : Agent) : Agent := removeAtomStimulus h a.

(** ** The atom space and its agents *)
Record Economy (M : Type) := mkEconomy { space : AtomSpace M; agents : list Agent }.
Arguments mkEconomy {M}.
Arguments space {M}.
Arguments agents {M}.

Section economy.
Context {M : Type}.

Definition set_agents (l : list Agent) (e : Economy M) : Economy M := mkEconomy (space e) l.

(** The handlers of the agents for the signals of a removal. A handler sees
    nothing of the atom space, so they run when it is done. *)
Definition hear (l : list Agent) (sig : Signal) : list Agent :=
  match sig with RemoveAtomSignal h => agent_atomRemoved h <$> l | _ => l end.

Definition on_the_space {A} (m : ST (AtomSpace M) A) : ST (Economy M) A := fun e =>
  let sent := length (signals (atomTable (space e))) in
  let '(r, s) := m (space e) in
  (r, mkEconomy s (foldl hear (agents e) (drop sent (signals (atomTable s))))).

Definition agent_at (n : nat) (e : Economy M) : res Agent := of_opt (agents e !! n).
Definition change_agent (n : nat) (f : Agent -> Agent) (e : Economy M) : Economy M :=
  set_agents (alter f n (agents e)) e.

(** [AtomSpace::setAV] and its variants for an agent, whose setter only stores. *)
Definition setAV_agent (n : nat) (av : AttentionValue) : ST (Economy M) unit :=
  a ← reads (agent_at n);
  let oldAV := ag_attentionValue a in
  _ ← on_the_space (modst (fun s => set_funds (fundsSTI s + (getSTI oldAV - getSTI av))
                                  (fundsLTI s + (getLTI oldAV - getLTI av)) s));
  modst (change_agent n (set_ag_av av)).
Definition setSTI_agent (n : nat) (stiValue : Z) : ST (Economy M) unit :=
  a ← reads (agent_at n);
  let currentAv := ag_attentionValue a in
  setAV_agent n (AV_new stiValue (getLTI currentAv) (getVLTI currentAv)).
Definition setLTI_agent (n : nat) (ltiValue : Z) : ST (Economy M) unit :=
  a ← reads (agent_at n);
  let currentAv := ag_attentionValue a in
  setAV_agent n (AV_new (getSTI currentAv) ltiValue (getVLTI currentAv)).
Definition getSTI_agent (n : nat) (e : Economy M) : res Z :=
  a ← agent_at n e; Ok (getSTI (ag_attentionValue a)).
Definition getLTI_agent (n : nat) (e : Economy M) : res Z :=
  a ← agent_at n e; Ok (getLTI (ag_attentionValue a)).

(** The destructor: the agent gives its importance back and leaves. *)
Definition Agent_delete (n : nat) : ST (Economy M) unit :=
  _ ← setSTI_agent n 0;
  _ ← setLTI_agent n 0;
  modst (fun e => set_agents (delete n (agents e)) e).
End economy.

(** ** The forgetting agent *)

(** What [std::sort] asks of a comparison. *)
Definition weak_order (less : Handle -> Handle -> bool) (l : list Handle) : Prop :=
  (forall x, x ∈ l -> less x x = false) /\
  (forall x y z, x ∈ l -> y ∈ l -> z ∈ l -> less x y = true -> less y z = true -> less x z = true) /\
  (forall x y z, x ∈ l -> y ∈ l -> z ∈ l -> less x y = false -> less y z = false -> less x z = false).

Definition weak_orderb (less : Handle -> Handle -> bool) (l : list Handle) : bool :=
  forallb (fun x => negb (less x x)) l &&
  forallb (fun x => forallb (fun y => forallb (fun z =>
    (if less x y && less y z then less x z else true) &&
    (if less x y || less y z then true else negb (less x z))) l) l) l.

Lemma weak_orderb_spec less l : weak_orderb less l = true <-> weak_order less l.
Proof.
  unfold weak_orderb, weak_order. rewrite andb_true_iff, !forallb_forall. setoid_rewrite negb_true_iff.
  setoid_rewrite forallb_forall. setoid_rewrite forallb_forall. setoid_rewrite list_elem_of_In.
  split.
  - intros [Hi Ht]. split_and!; [done|..]; intros x y z Hx Hy Hz; specialize (Ht x Hx y Hy z Hz);
      by destruct (less x y), (less y z), (less x z).
  - intros (Hi & Ht & Hn). split; [done|]. intros x Hx y Hy z Hz.
    specialize (Ht x y z Hx Hy Hz). specialize (Hn x y z Hx Hy Hz).
    destruct (less x y), (less y z), (less x z); naive_solver.
Qed.

(** [std::sort]: when the comparison is a strict weak order on the elements, a
    permutation of them that is in order. Nothing is known otherwise. *)
Class StdSort := {
  std_sort : (Handle -> Handle -> bool) -> list Handle -> list Handle;
  std_sort_perm : forall less l, weak_order less l -> std_sort less l ≡ₚ l;
  std_sort_sorted : forall less l, weak_order less l ->
    StronglySorted (fun x y => less y x = false) (std_sort less l)
}.

(** Conversion of a [float] to [int]. *)
Definition int_of_float (x : float) : res Z :=
  match ftrunc x with
  | Some z => if (- 2 ^ 31 <=? z)%Z && (z <? 2 ^ 31)%Z then Ok z else Undef
  | None => Undef
  end.

Record ForgettingAgent := mkForgetting { forgetThreshold : Z; forgetPercentage : float }.

Section forgetting.
Context `{SetOrder} `{StdSort} (cs : ClassServer) (string_hash : string -> N) {M : Type} `{SpaceMap M}.

(** [ForgettingLTIThenTVAscendingSort]: what is compared of an atom, and how. *)
Definition forgetting_key (s : AtomSpace M) (h : Handle) : res (Z * float) :=
  lti ← AS.getLTI_at h s;
  a ← AS.atom h s;
  mean ← getMean (a_truthValue a);
  Ok (lti, SFabs mean).
Definition forgetting_less (s : AtomSpace M) (h1 h2 : Handle) : bool :=
  match forgetting_key s h1, forgetting_key s h2 with
  | Ok (lti1, tv1), Ok (lti2, tv2) => if (lti1 =? lti2)%Z then flt tv1 tv2 else (lti1 <? lti2)%Z
  | _, _ => false
  end.

(** Every atom is compared when there are two; a comparison may throw. To sort
    with a comparison that is no strict weak order is undefined: a mean that is
    not a number makes it so. *)
Definition sort_atoms (s : AtomSpace M) (atoms : list Handle) : res (list Handle) :=
  _ ← (if 2 <=? length atoms then mapM (forgetting_key s) atoms else Ok []);
  if weak_orderb (forgetting_less s) atoms then Ok (std_sort (forgetting_less s) atoms) else Undef.

(** The loop; [count] atoms are counted so far. *)
Fixpoint forget_loop (threshold removalAmount : Z) (atomsVector : list Handle) (count : Z) :
    ST (Economy M) Z :=
  match atomsVector with
  | [] => mret count
  | h :: l =>
      gone ← asks (fun e => bool_decide (getAtom (AS.the_tlb (space e)) h = None));
      if gone : bool then forget_loop threshold removalAmount l (count + 1)
      else
        lti ← reads (fun e => AS.getLTI_at h (space e));
        if (lti <=? threshold)%Z && (count <? removalAmount)%Z then
          vlti ← reads (fun e => AS.getVLTI_at h (space e));
          if negb (vlti =? NONDISPOSABLE)%N then
            b ← on_the_space (AS.removeAtom cs string_hash h false);
            if b : bool then forget_loop threshold removalAmount l (count + 1) else mret count
          else forget_loop threshold removalAmount l count
        else mret count
  end.

Definition forget (threshold : Z) (proportion : float) : ST (Economy M) Z :=
  atoms ← reads (fun e => getHandleSet_type cs (atomTable (space e)) (ATOM cs) true);
  atomsVector ← reads (fun e => sort_atoms (space e) (HE.toHandleVector atoms));
  removalAmount ← lift (int_of_float (f32_mul (f32_of_Z (Z.of_nat (length atomsVector))) proportion));
  forget_loop threshold removalAmount atomsVector 0.

Definition ForgettingAgent_run (f : ForgettingAgent) : ST (Economy M) unit :=
  _ ← forget (forgetThreshold f) (forgetPercentage f); mret tt.
End forgetting.
