(* ===== verification/ImportanceUpdating.v ===== *)
(** The agent that collects rents and pays wages:
    src/opencog/dynamics/attention/ImportanceUpdatingAgent.cc and .h.

    Atoms pay rent for their importance and get wages for the stimulus that the
    agents gave them; funds that leave their range are brought back by a tax.
    Random numbers, [exp] and [log] are parameters. *)
From Stdlib Require Import SpecFloat.
From S2P Require Import Prelude ClassServer TruthValue AttentionValue Atom TLB HandleEntry Index AtomTable SpaceServer AtomSpace Agents.
From S2P Require Combo.

(** The generator, and its methods. *)
Class Random (R : Type) := {
  randdouble : R -> float * R;
  randDoubleOneExcluded : R -> float * R
}.

Inductive rentType_t := RENT_FLAT | RENT_EXP | RENT_LOG.

(** The members that a run only reads. *)
Record Settings := mkSettings {
  amnesty : Z;
  rentType : rentType_t;
  rentFunctionParams : list float;
  STIAtomWage : Z;
  LTIAtomWage : Z;
  STICap : Z;
  LTICap : Z;
  updateLinks : bool;
  noiseOn : bool;
  noiseOdds : float;
  noiseUnit : Z;
  targetLobeSTI : Z;
  targetLobeLTI : Z;
  acceptableLobeSTIRange : Z * Z;
  acceptableLobeLTIRange : Z * Z
}.

(** The members that it writes. *)
Record Updater (R : Type) := mkUpdater {
  STIAtomRent : Z;
  STITransitionalAtomRent : recent_val;
  LTIAtomRent : Z;
  STIAtomWageForAgent : list float;
  LTIAtomWageForAgent : list float;
  totalStimulusSinceReset : recent_val;
  attentionalFocusSize : recent_val;
  attentionalFocusNodesSize : recent_val;
  lobeSTIOutOfBounds : bool;
  lobeLTIOutOfBounds : bool;
  initialEstimateMade : bool;
  rng : R
}.
Arguments mkUpdater {R}. Arguments STIAtomRent {R}. Arguments STITransitionalAtomRent {R}.
Arguments LTIAtomRent {R}. Arguments STIAtomWageForAgent {R}. Arguments LTIAtomWageForAgent {R}.
Arguments totalStimulusSinceReset {R}. Arguments attentionalFocusSize {R}.
Arguments attentionalFocusNodesSize {R}. Arguments lobeSTIOutOfBounds {R}.
Arguments lobeLTIOutOfBounds {R}. Arguments initialEstimateMade {R}. Arguments rng {R}.

Section setters.
Context {R : Type}.
Implicit Type u : Updater R.
Definition set_STIRent (transitional : recent_val) rent u := mkUpdater rent transitional (LTIAtomRent u)
  (STIAtomWageForAgent u) (LTIAtomWageForAgent u) (totalStimulusSinceReset u) (attentionalFocusSize u)
  (attentionalFocusNodesSize u) (lobeSTIOutOfBounds u) (lobeLTIOutOfBounds u) (initialEstimateMade u) (rng u).
Definition set_LTIRent rent u := mkUpdater (STIAtomRent u) (STITransitionalAtomRent u) rent
  (STIAtomWageForAgent u) (LTIAtomWageForAgent u) (totalStimulusSinceReset u) (attentionalFocusSize u)
  (attentionalFocusNodesSize u) (lobeSTIOutOfBounds u) (lobeLTIOutOfBounds u) (initialEstimateMade u) (rng u).
Definition set_wages sti lti u := mkUpdater (STIAtomRent u) (STITransitionalAtomRent u) (LTIAtomRent u)
  sti lti (totalStimulusSinceReset u) (attentionalFocusSize u)
  (attentionalFocusNodesSize u) (lobeSTIOutOfBounds u) (lobeLTIOutOfBounds u) (initialEstimateMade u) (rng u).
Definition set_totalStimulus total u := mkUpdater (STIAtomRent u) (STITransitionalAtomRent u) (LTIAtomRent u)
  (STIAtomWageForAgent u) (LTIAtomWageForAgent u) total (attentionalFocusSize u)
  (attentionalFocusNodesSize u) (lobeSTIOutOfBounds u) (lobeLTIOutOfBounds u) (initialEstimateMade u) (rng u).
Definition set_focus size nodes u := mkUpdater (STIAtomRent u) (STITransitionalAtomRent u) (LTIAtomRent u)
  (STIAtomWageForAgent u) (LTIAtomWageForAgent u) (totalStimulusSinceReset u) size
  nodes (lobeSTIOutOfBounds u) (lobeLTIOutOfBounds u) (initialEstimateMade u) (rng u).
Definition set_out_of_bounds sti lti u := mkUpdater (STIAtomRent u) (STITransitionalAtomRent u) (LTIAtomRent u)
  (STIAtomWageForAgent u) (LTIAtomWageForAgent u) (totalStimulusSinceReset u) (attentionalFocusSize u)
  (attentionalFocusNodesSize u) sti lti (initialEstimateMade u) (rng u).
Definition set_initialEstimate b u := mkUpdater (STIAtomRent u) (STITransitionalAtomRent u) (LTIAtomRent u)
  (STIAtomWageForAgent u) (LTIAtomWageForAgent u) (totalStimulusSinceReset u) (attentionalFocusSize u)
  (attentionalFocusNodesSize u) (lobeSTIOutOfBounds u) (lobeLTIOutOfBounds u) b (rng u).
Definition set_rng (g : R) u := mkUpdater (STIAtomRent u) (STITransitionalAtomRent u) (LTIAtomRent u)
  (STIAtomWageForAgent u) (LTIAtomWageForAgent u) (totalStimulusSinceReset u) (attentionalFocusSize u)
  (attentionalFocusNodesSize u) (lobeSTIOutOfBounds u) (lobeLTIOutOfBounds u) (initialEstimateMade u) g.
End setters.

(** The constants of the source. *)
Definition d_0 : float := S754_zero false.
Definition d_1 : float := Eval vm_compute in f64_of_Z 1.
Definition d_0_05 : float := Eval vm_compute in f64_div (f64_of_Z 5) (f64_of_Z 100).

(** [ceil] of a [float], converted to [short]. *)
Definition short_of_ceil (x : float) : res Z :=
  match x with
  | S754_finite false m e =>
      z ← of_opt (ftrunc x);
      let z := if (0 <=? e)%Z || (z * 2 ^ (- e) =? Zpos m)%Z then z else (z + 1)%Z in
      if (z <=? SHRT_MAX)%Z then Ok z else Undef
  | _ => short_of_float x
  end.

Module Importance.
Section importance.
Context `{SetOrder} `{Combo.Libm} (cs : ClassServer) {M R : Type} `{Random R} (st : Settings).

(** What the agent works on. *)
Record Lobe := mkLobe { economy : Economy M; updater : Updater R }.

Definition on_economy {A} (m : ST (Economy M) A) : ST Lobe A := fun l =>
  let '(r, e) := m (economy l) in (r, mkLobe e (updater l)).
Definition on_updater (f : Updater R -> Updater R) : ST Lobe unit :=
  modst (fun l => mkLobe (economy l) (f (updater l))).
Definition on_atoms {A} (m : ST (AtomSpace M) A) : ST Lobe A := on_economy (on_the_space m).
Definition read_space {A} (f : AtomSpace M -> res A) : ST Lobe A := reads (fun l => f (space (economy l))).
Definition read_agent {A} (n : nat) (f : Agent -> A) : ST Lobe A :=
  reads (fun l => a ← agent_at n (economy l); Ok (f a)).

(** The positions of the agents. *)
Definition each_agent (l : Lobe) : list nat := seq 0 (length (agents (economy l))).

Definition getHandlesToUpdate (s : AtomSpace M) : res (list Handle) :=
  getHandleSet_type cs (atomTable s) (if updateLinks st then ATOM cs else NODE cs) true.

Definition inRange (val : Z) (range : Z * Z) : bool := (val <=? range.2)%Z && (range.1 <=? val)%Z.

(** *** Wages *)
Definition topped_up (current wage : Z) : Z :=
  if (current <? wage * 100)%Z then sshort (wage * 100 - current) else 0%Z.
Definition updateAgentSTI (n : nat) : ST Lobe unit :=
  current ← reads (fun l => getSTI_agent n (economy l));
  on_economy (setSTI_agent n (current + topped_up current (STIAtomWage st))).
Definition updateAgentLTI (n : nat) : ST Lobe unit :=
  current ← reads (fun l => getLTI_agent n (economy l));
  on_economy (setLTI_agent n (current + topped_up current (LTIAtomWage st))).

Definition add_wages (sti lti : float) : ST Lobe unit :=
  on_updater (fun u => set_wages (STIAtomWageForAgent u ++ [sti]) (LTIAtomWageForAgent u ++ [lti]) u).
Definition calculateAtomWages : ST Lobe unit :=
  _ ← on_updater (set_wages [] []);
  ns ← asks each_agent;
  foreach (fun n =>
    _ ← updateAgentSTI n;
    _ ← updateAgentLTI n;
    total ← read_agent n getTotalStimulus;
    if (total =? 0)%Z then add_wages f0 f0
    else
      sti ← reads (fun l => getSTI_agent n (economy l));
      lti ← reads (fun l => getLTI_agent n (economy l));
      add_wages (f32_div (f32_of_Z sti) (f32_of_Z total)) (f32_div (f32_of_Z lti) (f32_of_Z total))) ns.

(** *** Rents *)
Definition rent_param (i : nat) : res float := of_opt (rentFunctionParams st !! i).

Definition calculateSTIRent (STIRent c : Z) (s : AtomSpace M) : res Z :=
  let b := attentionalFocusBoundary s in
  let relative (m : Z) : float := f64_div (f64_of_Z (c - b)) (f64_of_Z (m - b)) in
  let charged (multiplier : float) : res Z := short_of_float (f64_mul multiplier (f64_of_Z STIRent)) in
  match rentType st with
  | RENT_FLAT => Ok (if (b + amnesty st <? c)%Z then STIRent else 0%Z)
  | RENT_EXP =>
      if (b + amnesty st <? c)%Z then
        y ← rent_param 0;
        _ ← rent_param 1;
        m ← AS.getMaxSTI true s;
        charged (fmax d_0 (f64_div (f64_sub (Combo.c_exp (relative m)) (f64_sub d_1 y)) (f64_add d_1 y)))
      else Ok 0%Z
  | RENT_LOG =>
      if (b <? c)%Z then
        percentAmnesty ← rent_param 0;
        _ ← rent_param 1;
        let percentAmnesty := f64_sub percentAmnesty d_0_05 in
        m ← AS.getMaxSTI true s;
        let percentAmnesty := if flt percentAmnesty d_0 then d_0 else percentAmnesty in
        charged (fmax d_0 (f64_div (Combo.c_log (f64_mul (f64_sub (relative m) percentAmnesty) (f64_of_Z 20)))
                             (f64_of_Z 2)))
      else Ok 0%Z
  end.

(** The wages that agent [n] pays for the stimulus of an atom, [paid] and rent
    so far: the new sum, and nothing when the agent gave no stimulus at all. *)
Definition pay_STI (h : Handle) (exchangeAmount : Z) (n : nat) : ST Lobe Z :=
  total ← read_agent n getTotalStimulus;
  if (total =? 0)%Z then mret exchangeAmount
  else
    s ← read_agent n (getAtomStimulus h);
    wage ← reads (fun l => of_opt (STIAtomWageForAgent (updater l) !! n));
    let wage := if flt (f32_of_Z (STIAtomWage st)) wage then f32_of_Z (STIAtomWage st) else wage in
    w ← lift (short_of_float wage);
    let exchangeAmount := sshort (exchangeAmount + w * s) in
    sti ← reads (fun l => getSTI_agent n (economy l));
    _ ← on_economy (setSTI_agent n (sti - exchangeAmount));
    mret exchangeAmount.
Definition pay_LTI (h : Handle) (exchangeAmount : Z) (n : nat) : ST Lobe Z :=
  total ← read_agent n getTotalStimulus;
  if (total =? 0)%Z then mret exchangeAmount
  else
    s ← read_agent n (getAtomStimulus h);
    wage ← reads (fun l => of_opt (LTIAtomWageForAgent (updater l) !! n));
    let wage := if flt (f32_of_Z (LTIAtomWage st)) wage then f32_of_Z (LTIAtomWage st) else wage in
    w ← lift (short_of_float (f32_mul wage (f32_of_Z s)));
    let exchangeAmount := sshort (exchangeAmount + w) in
    lti ← reads (fun l => getLTI_agent n (economy l));
    _ ← on_economy (setLTI_agent n (lti - exchangeAmount));
    mret exchangeAmount.

(** A loop that threads a value. *)
Fixpoint thread {A} (f : A -> nat -> ST Lobe A) (a : A) (l : list nat) : ST Lobe A :=
  match l with
  | [] => mret a
  | n :: l' => b ← f a n; thread f b l'
  end.

Definition updateAtomSTI (h : Handle) : ST Lobe unit :=
  current ← read_space (AS.getSTI_at h);
  rent ← asks (fun l => STIAtomRent (updater l));
  stiRentCharged ← read_space (calculateSTIRent rent current);
  ns ← asks each_agent;
  exchangeAmount ← thread (pay_STI h) (sshort (- stiRentCharged)) ns;
  on_atoms (AS.setSTI h (current + exchangeAmount)).
Definition updateAtomLTI (h : Handle) : ST Lobe unit :=
  current ← read_space (AS.getLTI_at h);
  rent ← asks (fun l => LTIAtomRent (updater l));
  ns ← asks each_agent;
  exchangeAmount ← thread (pay_LTI h) (sshort (- rent)) ns;
  on_atoms (AS.setLTI h (current + exchangeAmount)).

Definition enforceSTICap (h : Handle) : ST Lobe bool :=
  current ← read_space (AS.getSTI_at h);
  if (STICap st <? current)%Z then _ ← on_atoms (AS.setSTI h (STICap st)); mret true
  else if (current <? - STICap st)%Z then _ ← on_atoms (AS.setSTI h (- STICap st)); mret true
  else mret false.
Definition enforceLTICap (h : Handle) : ST Lobe bool :=
  current ← read_space (AS.getLTI_at h);
  if (LTICap st <? current)%Z then _ ← on_atoms (AS.setLTI h (LTICap st)); mret true
  else if (current <? - LTICap st)%Z then _ ← on_atoms (AS.setLTI h (- LTICap st)); mret true
  else mret false.

(** *** Focus and stimulus *)
Definition updateTotalStimulus : ST Lobe unit :=
  modst (fun l =>
    let total := foldl (fun z a => z + getTotalStimulus a)%Z 0%Z (agents (economy l)) in
    mkLobe (economy l)
      (set_totalStimulus (recent_update (sshort total) (totalStimulusSinceReset (updater l))) (updater l))).

Definition updateAttentionalFocusSizes : ST Lobe unit :=
  inFocus ← read_space (fun s =>
    getHandleSet_importance (atomTable s) (sshort (attentionalFocusBoundary s + amnesty st)) SHRT_MAX);
  nodes ← read_space (fun s =>
    rfold (fun n h => t ← AS.getType h s; b ← AS.isNode cs t;
                      Ok (if b : bool then n + 1 else n)%Z) 0%Z inFocus);
  on_updater (fun u => set_focus (recent_update (HE.getSize inFocus) (attentionalFocusSize u))
                         (recent_update nodes (attentionalFocusNodesSize u)) u).

Definition random_double : ST Lobe float := fun l =>
  let '(x, g) := randdouble (rng (updater l)) in (Ok x, mkLobe (economy l) (set_rng g (updater l))).
Definition randomStimulation (n : nat) : ST Lobe unit :=
  hs ← read_space getHandlesToUpdate;
  foreach (fun h =>
    r ← random_double;
    if flt r (noiseOdds st)
    then on_economy (modst (change_agent n (stimulateAtom h (noiseUnit st)))) else mret tt) hs.

(** *** Taxes *)

(** The loop that adds the probabilities of 0, 1, 2, ... up to [p]. *)
Fixpoint poisson (fuel : nat) (mean p prob sum : float) (count : Z) : res Z :=
  if flt sum p then
    match fuel with
    | 0 => Fuel
    | S fuel' =>
        let count := (count + 1)%Z in
        let prob := f64_div (f64_mul prob mean) (f64_of_Z count) in
        poisson fuel' mean p prob (f64_add sum prob) count
    end
  else Ok count.

Definition getTaxAmount (fuel : nat) (mean : float) : ST Lobe Z := fun l =>
  let negative := flt mean d_0 in
  let mean := if negative then SFopp mean else mean in
  match int_of_float mean with
  | Ok base =>
      let mean := f64_sub mean (f64_of_Z base) in
      let '(p, g) := randDoubleOneExcluded (rng (updater l)) in
      let prob := Combo.c_exp (SFopp mean) in
      (count ← poisson fuel mean p prob prob 0;
       let count := (count + base)%Z in Ok (if negative then - count else count)%Z,
       mkLobe (economy l) (set_rng g (updater l)))
  | _ => (Undef, l)
  end.

Definition tax (target funds : Z) (atoms : list Handle) : float :=
  f64_div (f64_of_Z (target - funds)) (f64_of_Z (HE.getSize atoms)).

Definition adjustSTIFunds (fuel : nat) : ST Lobe unit :=
  hs ← read_space getHandlesToUpdate;
  taxAmount ← asks (fun l => tax (targetLobeSTI st) (fundsSTI (space (economy l))) hs);
  foreach (fun h =>
    actualTax ← getTaxAmount fuel taxAmount;
    beforeTax ← read_space (AS.getSTI_at h);
    on_atoms (AS.setSTI h (beforeTax - actualTax))) hs.
Definition adjustLTIFunds (fuel : nat) : ST Lobe unit :=
  hs ← read_space getHandlesToUpdate;
  taxAmount ← asks (fun l => tax (targetLobeLTI st) (fundsLTI (space (economy l))) hs);
  foreach (fun h =>
    current ← read_space (AS.getLTI_at h);
    actualTax ← getTaxAmount fuel taxAmount;
    on_atoms (AS.setLTI h (current - actualTax))) hs.

Definition checkAtomSpaceFunds (fuel : nat) : ST Lobe bool :=
  sti_in ← asks (fun l => inRange (fundsSTI (space (economy l))) (acceptableLobeSTIRange st));
  _ ← (if sti_in : bool then mret tt
       else _ ← on_updater (fun u => set_out_of_bounds true (lobeLTIOutOfBounds u) u); adjustSTIFunds fuel);
  lti_in ← asks (fun l => inRange (fundsLTI (space (economy l))) (acceptableLobeLTIRange st));
  _ ← (if lti_in : bool then mret tt
       else _ ← on_updater (fun u => set_out_of_bounds (lobeSTIOutOfBounds u) true u); adjustLTIFunds fuel);
  mret (negb (sti_in && lti_in)).

(** *** The rents adapt *)
Definition updateSTIRent (gradual : bool) : ST Lobe unit :=
  focus ← asks (fun l => rv_recent (if updateLinks st then attentionalFocusSize (updater l)
                                    else attentionalFocusNodesSize (updater l)));
  _ ← (if flt f0 focus then
         rent ← reads (fun l => short_of_ceil
           (f32_div (f32_mul (f32_of_Z (STIAtomWage st)) (rv_recent (totalStimulusSinceReset (updater l)))) focus));
         on_updater (fun u => set_STIRent (recent_update rent (STITransitionalAtomRent u)) (STIAtomRent u) u)
       else mret tt);
  rent ← reads (fun l => AS.recent_get gradual (STITransitionalAtomRent (updater l)));
  _ ← on_updater (fun u => set_STIRent (STITransitionalAtomRent u) rent u);
  modst (fun l => mkLobe (economy l)
    (set_out_of_bounds (inRange (fundsSTI (space (economy l))) (acceptableLobeSTIRange st))
       (lobeLTIOutOfBounds (updater l)) (updater l))).

Definition updateLTIRent : ST Lobe unit :=
  nodes ← read_space (AS.Nodes cs NULL_VERSION_HANDLE);
  links ← read_space (fun s => if updateLinks st then AS.Links cs NULL_VERSION_HANDLE s else Ok 0);
  let focusSize := f32_of_Z (Z.of_nat nodes) in
  let focusSize := if updateLinks st then f32_add focusSize (f32_of_Z (Z.of_nat links)) else focusSize in
  _ ← (if flt f0 focusSize then
         rent ← reads (fun l => short_of_ceil
           (f32_div (f32_mul (f32_of_Z (LTIAtomWage st)) (rv_recent (totalStimulusSinceReset (updater l)))) focusSize));
         on_updater (set_LTIRent rent)
       else mret tt);
  on_updater (fun u => set_out_of_bounds (lobeSTIOutOfBounds u) false u).

(** *** A run *)

(** Rent, wages and caps of an atom, and the largest and smallest importance
    seen so far. *)
Definition update_atom (seen : Z * Z) (h : Handle) : ST Lobe (Z * Z) :=
  _ ← updateAtomSTI h;
  _ ← updateAtomLTI h;
  _ ← enforceSTICap h;
  _ ← enforceLTICap h;
  sti ← read_space (AS.getSTI_at h);
  mret (if (seen.1 <? sti)%Z then (sti, seen.2)
        else if (sti <? seen.2)%Z then (seen.1, sti) else seen).

Fixpoint update_atoms (seen : Z * Z) (hs : list Handle) : ST Lobe (Z * Z) :=
  match hs with
  | [] => mret seen
  | h :: hs' => seen' ← update_atom seen h; update_atoms seen' hs'
  end.

Definition run (fuel : nat) : ST Lobe unit :=
  _ ← on_updater (set_initialEstimate true);
  _ ← updateAttentionalFocusSizes;
  ns ← asks each_agent;
  _ ← (if noiseOn st then foreach randomStimulation ns else mret tt);
  _ ← updateTotalStimulus;
  hs ← read_space getHandlesToUpdate;
  _ ← calculateAtomWages;
  seen ← update_atoms (SHRT_MIN, SHRT_MAX) hs;
  let minSTISeen := if (seen.1 <? seen.2)%Z then seen.1 else seen.2 in
  _ ← on_atoms (AS.updateMaxSTI seen.1);
  _ ← on_atoms (AS.updateMinSTI minSTISeen);
  _ ← checkAtomSpaceFunds fuel;
  out ← asks (fun l => lobeSTIOutOfBounds (updater l));
  _ ← (if out : bool then updateSTIRent false else mret tt);
  on_economy (modst (fun e => set_agents (resetStimulus <$> agents e) e)).
End importance.
End Importance.
