(* ===== verification/Forgetting.v ===== *)
(** What the forgetting agent removes: the atoms of least importance, in
    order, up to the first one that may not or cannot go. *)
From Stdlib Require Import SpecFloat ZifyBool.
From stdpp Require Import sorting.
From S2P Require Import Prelude ClassServer TruthValue AttentionValue Atom TLB HandleEntry Index IndexSpec AtomTable TableInv TableRemove TableAdd TableProps TableAttention TableQuery Temporal TimeSpec SpaceServer AtomSpace SpaceInv SpaceRemove SpaceAdd SpaceRequests Agents.

Lemma filter_same {A} (f g : A -> bool) (l : list A) :
  (forall x, x ∈ l -> f x = g x) -> filter (fun x => f x = true) l = filter (fun x => g x = true) l.
Proof.
  induction l as [|x l IH]; intros Hfg; [done|]. rewrite !filter_cons, IH by set_solver.
  by rewrite (Hfg x) by set_solver.
Qed.

(** ** The order of the sort *)
Definition positive_float (x : float) : Prop :=
  match x with S754_zero _ | S754_infinity false | S754_finite false _ _ => True | _ => False end.

Lemma abs_positive x : x <> S754_nan -> positive_float (SFabs x).
Proof. by destruct x. Qed.

Lemma flt_finite m e m' e' :
  flt (S754_finite false m e) (S754_finite false m' e') = ((e <? e')%Z || (e =? e')%Z && (m <? m')%positive).
Proof.
  unfold flt, SFltb. simpl. destruct (Z.compare_spec e e') as [->|Hlt|Hlt].
  - rewrite Z.ltb_irrefl, Z.eqb_refl. simpl. change (Pos.compare_cont Eq m m') with (m ?= m')%positive.
    rewrite Pos.ltb_compare. by destruct (_ ?= _)%positive.
  - by rewrite (proj2 (Z.ltb_lt _ _) Hlt).
  - rewrite (proj2 (Z.ltb_ge e e')), (proj2 (Z.eqb_neq e e')) by lia. done.
Qed.

Ltac floats := repeat match goal with x : float |- _ => destruct x as [?|[]| |[] ? ?] end; try done;
  rewrite ?flt_finite; unfold flt; cbn [SFltb SFcompare]; try done; lia.

Lemma flt_trans x y z : positive_float x -> positive_float y -> positive_float z ->
  flt x y = true -> flt y z = true -> flt x z = true.
Proof. floats. Qed.
Lemma flt_negtrans x y z : positive_float x -> positive_float y -> positive_float z ->
  flt x y = false -> flt y z = false -> flt x z = false.
Proof. floats. Qed.

Section forgetting.
Context `{SetOrder} `{StdSort} (cs : ClassServer) (string_hash : string -> N) {M : Type} `{SpaceMapLaws M}.
Context (Hty : types_ok cs).
Implicit Types e : Economy M.
Abbreviation tlb_of e := (AS.the_tlb (space e)) (only parsing).
Abbreviation ok e := (exists S, space_ok cs (space e) S) (only parsing).

(** [rs] are gone, in this order; every agent takes back the stimulus it gave
    them. *)
Record forgot e (rs : list Handle) e' : Prop := {
  fg_ok : ok e';
  fg_wealth : same_wealth (space e) (space e');
  fg_live : live (atomTable (space e')) = live (atomTable (space e)) ∖ list_to_set rs;
  fg_rest : forall k, k ∈ live (atomTable (space e')) ->
    set_incoming [] <$> atomOf (tlb_of e') k = set_incoming [] <$> atomOf (tlb_of e) k;
  fg_agents : agents e' = foldl (fun l h => removeAtomStimulus h <$> l) (agents e) rs
}.

Lemma forgot_nil e : ok e -> forgot e [] e.
Proof. intros He. split; try done. simpl. set_solver. Qed.

Lemma forgot_trans e rs e1 rs' e' : forgot e rs e1 -> forgot e1 rs' e' -> forgot e (rs ++ rs') e'.
Proof.
  intros [K1 [W1 W1'] L1 R1 A1] [K2 [W2 W2'] L2 R2 A2]. split.
  - done.
  - split; congruence.
  - rewrite L2, L1, list_to_set_app_L. set_solver.
  - intros k Hk. rewrite R2 by done. apply R1. rewrite L2 in Hk. set_solver.
  - by rewrite A2, A1, foldl_app.
Qed.

(** Whether an atom may be forgotten. *)
Definition disposable e (h : Handle) : bool :=
  match atomOf (tlb_of e) h with
  | Some a => negb (getVLTI (a_attentionValue a) =? NONDISPOSABLE)%N
  | None => false
  end.
Definition links_above e (h : Handle) : list Handle :=
  match atomOf (tlb_of e) h with Some a => a_incoming a | None => [] end.

Lemma forgot_same e rs e' h : forgot e rs e' -> h ∈ live (atomTable (space e)) -> h ∉ rs ->
  h ∈ live (atomTable (space e')) /\ lti_of (tlb_of e') h = lti_of (tlb_of e) h /\
  disposable e' h = disposable e h.
Proof.
  intros Hf Hh Hn. assert (Hl : h ∈ live (atomTable (space e'))) by (rewrite (fg_live _ _ _ Hf); set_solver).
  split; [done|]. pose proof (fg_rest _ _ _ Hf h Hl) as E. unfold lti_of, disposable.
  destruct (atomOf (tlb_of e') h), (atomOf (tlb_of e) h); try done.
  apply (inj Some) in E. unfold set_incoming in E. split; congruence.
Qed.

(** An atom with nothing above it goes. *)
Lemma forget_atom_ok e h a : ok e -> atomOf (tlb_of e) h = Some a -> a_incoming a = [] ->
  exists e', on_the_space (AS.removeAtom cs string_hash h false) e = (Ok true, e') /\ forgot e [h] e'.
Proof.
  intros [S Hok] Ha Hi. pose proof (so_table _ _ _ Hok) as Hwf.
  assert (Hh : h ∈ live (atomTable (space e))) by (apply (elem_of_live cs); eauto).
  destruct (removeAtom_ok cs string_hash Hty _ S h a false Hok Ha (or_intror Hi)) as (rs & s' & S' & E & [K R W _] & Hrs).
  assert (rs = [h]) as ->.
  { apply Permutation_singleton_r, NoDup_Permutation; [apply (rm_nodup _ _ _ _ R)|apply NoDup_singleton|].
    intros k. rewrite Hrs, list_elem_of_singleton. split; [|intros ->; apply rtc_refl].
    intros [->|(x & Hx & _)]%rtc_inv; [done|].
    apply (incoming_refers cs _ _ _ h a x (tw_inv _ _ Hwf) Hh Ha) in Hx. rewrite Hi in Hx.
    by apply not_elem_of_nil in Hx. }
  exists (mkEconomy s' (hear (agents e) (RemoveAtomSignal h))). split.
  - unfold on_the_space. rewrite E, (rm_signals _ _ _ _ R), drop_app_length. done.
  - split; try done; [by exists S'|apply (rm_live _ _ _ _ R)|apply (rm_rest _ _ _ _ R)].
Qed.

Lemma forget_atom_refused e h a : ok e -> atomOf (tlb_of e) h = Some a -> a_incoming a <> [] ->
  on_the_space (AS.removeAtom cs string_hash h false) e = (Ok false, e).
Proof.
  intros [S Hok] Ha Hi. unfold on_the_space.
  rewrite (removeAtom_refused cs string_hash _ h a (so_table _ _ _ Hok) Ha Hi), drop_all. by destruct e.
Qed.

(** Where the loop stops, [n] atoms counted. *)
Definition stops (threshold amount : Z) e (n : Z) (rest : list Handle) : Prop :=
  match rest with
  | [] => True
  | h :: _ => (threshold < lti_of (tlb_of e) h)%Z \/ (amount <= n)%Z \/
              (disposable e h = true /\ links_above e h <> [])
  end.

(** What is done before. *)
Record forgets (threshold amount : Z) e (count : Z) (l done rest rs : list Handle) e' : Prop := {
  fo_split : l = done ++ rest;
  fo_removed : rs = filter (fun h => disposable e h = true) done;
  fo_forgot : forgot e rs e';
  fo_below : forall h, h ∈ done -> (lti_of (tlb_of e) h <= threshold)%Z;
  fo_amount : rs <> [] -> (count + Z.of_nat (length rs) <= amount)%Z;
  fo_stops : stops threshold amount e' (count + Z.of_nat (length rs)) rest
}.

Lemma forgets_none threshold amount e count l :
  ok e -> stops threshold amount e count l -> forgets threshold amount e count l [] l [] e.
Proof.
  intros He Hs. split; try done; [by apply forgot_nil|by intros ? ?%not_elem_of_nil|].
  simpl. by rewrite Z.add_0_r.
Qed.

Lemma forgets_skip threshold amount e count h l done rest rs e' :
  (lti_of (tlb_of e) h <= threshold)%Z -> disposable e h = false ->
  forgets threshold amount e count l done rest rs e' ->
  forgets threshold amount e count (h :: l) (h :: done) rest rs e'.
Proof.
  intros Ht Hd [-> -> F B A St]. split; try done.
  - rewrite filter_cons_False by congruence. done.
  - intros k [->|Hk]%elem_of_cons; [done|auto].
Qed.

Lemma forgets_more threshold amount e count h l done rest rs e1 e' :
  (lti_of (tlb_of e) h <= threshold)%Z -> (count < amount)%Z -> disposable e h = true ->
  h ∉ l -> (forall k, k ∈ l -> k ∈ live (atomTable (space e))) -> forgot e [h] e1 ->
  forgets threshold amount e1 (count + 1) l done rest rs e' ->
  forgets threshold amount e count (h :: l) (h :: done) rest (h :: rs) e'.
Proof.
  intros Ht Hc Hd Hn Hl F1 [-> -> F B A St].
  assert (Hsame : forall k, k ∈ done -> lti_of (tlb_of e1) k = lti_of (tlb_of e) k /\ disposable e1 k = disposable e k).
  { intros k Hk. destruct (forgot_same e [h] e1 k F1) as (_ & ? & ?); [|set_solver|done].
    apply Hl. set_solver. }
  assert (Hrs : filter (fun k => disposable e1 k = true) done = filter (fun k => disposable e k = true) done).
  { apply filter_same. intros k Hk. by rewrite (proj2 (Hsame k Hk)). }
  split; [done|..].
  - rewrite filter_cons_True by done. by rewrite Hrs.
  - by apply (forgot_trans e [h] e1).
  - intros k [->|Hk]%elem_of_cons; [done|]. rewrite <- (proj1 (Hsame k Hk)). auto.
  - intros _. revert A. destruct (filter _ done) as [|x rs]; intros A; cbn [length] in *; [lia|].
    specialize (A ltac:(done)). lia.
  - cbn [length]. assert (E : forall n, (count + Z.of_nat (S n) = count + 1 + Z.of_nat n)%Z) by lia.
    by rewrite E.
Qed.

(** ** The loop *)
Lemma forget_loop_ok threshold amount l : forall e count,
  ok e -> NoDup l -> (forall h, h ∈ l -> h ∈ live (atomTable (space e))) -> exists done rest rs e',
  forget_loop cs string_hash threshold amount l count e = (Ok (count + Z.of_nat (length rs))%Z, e') /\
  forgets threshold amount e count l done rest rs e'.
Proof.
  induction l as [|h l IH]; intros e count He Hnd Hl.
  { exists [], [], [], e. split; [simpl; by rewrite Z.add_0_r|by apply forgets_none]. }
  apply NoDup_cons in Hnd as [Hn Hnd]. pose proof (Hl h ltac:(set_solver)) as Hh.
  assert (Hl' : forall k, k ∈ l -> k ∈ live (atomTable (space e))) by set_solver.
  destruct He as [S Hok]. assert (He : ok e) by by exists S.
  apply (elem_of_live cs _ _ (so_table _ _ _ Hok)) in Hh as [a Ha]. fold (tlb_of e) in Ha.
  destruct (pointer_read _ h a Ha) as (p & _ & Hp & _).
  assert (Elti : lti_of (tlb_of e) h = getLTI (a_attentionValue a)) by (unfold lti_of; by rewrite Ha).
  assert (Edis : disposable e h = negb (getVLTI (a_attentionValue a) =? NONDISPOSABLE)%N)
    by (unfold disposable; by rewrite Ha).
  cbn [forget_loop]. step (done). rewrite bool_decide_eq_false_2 by congruence.
  step (unfold reads, AS.getLTI_at; by rewrite (av_read _ h a Ha)). rewrite <- Elti.
  destruct ((_ <=? threshold)%Z && (count <? amount)%Z) eqn:Hgo.
  2: { exists [], (h :: l), [], e. split; [simpl; by rewrite Z.add_0_r|]. apply forgets_none; [done|].
       simpl. apply andb_false_iff in Hgo as [?%Z.leb_gt|?%Z.ltb_ge]; auto. }
  apply andb_true_iff in Hgo as [Ht%Z.leb_le Hc%Z.ltb_lt].
  step (unfold reads, AS.getVLTI_at; by rewrite (av_read _ h a Ha)). rewrite <- Edis.
  destruct (disposable e h) eqn:Hd.
  2: { destruct (IH e count He Hnd Hl') as (done & rest & rs & e' & E & F).
       exists (h :: done), rest, rs, e'. split; [exact E|by apply forgets_skip]. }
  destruct (decide (a_incoming a = [])) as [Hi|Hi].
  - destruct (forget_atom_ok e h a He Ha Hi) as (e1 & E1 & F1). step (exact E1).
    destruct (IH e1 (count + 1)%Z (fg_ok _ _ _ F1) Hnd) as (done & rest & rs & e' & E & F).
    { intros k Hk. rewrite (fg_live _ _ _ F1). set_solver. }
    exists (h :: done), rest, (h :: rs), e'. split; [|by apply (forgets_more _ _ _ _ _ _ _ _ _ e1)].
    rewrite E. cbn [length]. f_equal. f_equal. lia.
  - step (by apply (forget_atom_refused e h a)). exists [], (h :: l), [], e.
    split; [simpl; by rewrite Z.add_0_r|]. apply forgets_none; [done|].
    right. right. unfold links_above. by rewrite Ha.
Qed.

(** ** The vector *)
Definition mean_of e (h : Handle) : float :=
  match atomOf (tlb_of e) h with
  | Some a => match getMean (a_truthValue a) with Ok m => m | _ => f0 end
  | None => f0
  end.

Lemma getMean_total tv : tv_ok tv -> is_Some (match getMean tv with Ok m => Some m | _ => None end).
Proof. induction tv as [| | |i|vs|p vs IHp _] using tv_ind; try done. intros (Hp & _)%tv_ok_comp. by apply IHp. Qed.

Lemma forgetting_key_ok e h : ok e -> h ∈ live (atomTable (space e)) ->
  forgetting_key (space e) h = Ok (lti_of (tlb_of e) h, SFabs (mean_of e h)).
Proof.
  intros [S Hok] [a Ha]%(elem_of_live cs); [|apply Hok]. fold (tlb_of e) in Ha.
  destruct (pointer_read _ h a Ha) as (p & Ep & Hp & Hpa).
  unfold forgetting_key, AS.getLTI_at. rewrite (av_read _ h a Ha). cbn [mbind res_bind].
  rewrite (atom_read _ h a Ha). cbn [mbind res_bind]. unfold lti_of, mean_of. rewrite Ha.
  destruct (getMean_total _ (so_tv _ _ _ Hok h a Ha)) as [m Hm]. by destruct (getMean _).
Qed.

Definition less_key e (x y : Handle) : bool :=
  if (lti_of (tlb_of e) x =? lti_of (tlb_of e) y)%Z then flt (SFabs (mean_of e x)) (SFabs (mean_of e y))
  else (lti_of (tlb_of e) x <? lti_of (tlb_of e) y)%Z.

Lemma forgetting_less_ok e x y : ok e -> x ∈ live (atomTable (space e)) -> y ∈ live (atomTable (space e)) ->
  forgetting_less (space e) x y =
    less_key e x y.
Proof. intros He Hx Hy. unfold forgetting_less. by rewrite !forgetting_key_ok. Qed.

Lemma forgetting_order e l : ok e -> (forall h, h ∈ l -> h ∈ live (atomTable (space e)) /\ mean_of e h <> S754_nan) ->
  weak_order (forgetting_less (space e)) l.
Proof.
  intros He Hl. assert (Hless : forall x y, x ∈ l -> y ∈ l -> forgetting_less (space e) x y = less_key e x y).
  { intros x y [Hx _]%Hl [Hy _]%Hl. by apply forgetting_less_ok. }
  assert (Hpos : forall x, x ∈ l -> positive_float (SFabs (mean_of e x))) by (intros x [_ Hx]%Hl; by apply abs_positive).
  split_and!.
  - intros x Hx. rewrite Hless by done. unfold less_key. rewrite Z.eqb_refl. by apply flt_irrefl.
  - intros x y z Hx Hy Hz. rewrite !Hless by done. unfold less_key. intros E1 E2. revert E1 E2.
    pose proof (flt_trans _ _ _ (Hpos x Hx) (Hpos y Hy) (Hpos z Hz)).
    set (L := lti_of (tlb_of e)). destruct (Z.eqb_spec (L x) (L y)), (Z.eqb_spec (L y) (L z)), (Z.eqb_spec (L x) (L z)); intros; auto; lia.
  - intros x y z Hx Hy Hz. rewrite !Hless by done. unfold less_key. intros E1 E2. revert E1 E2.
    pose proof (flt_negtrans _ _ _ (Hpos x Hx) (Hpos y Hy) (Hpos z Hz)).
    set (L := lti_of (tlb_of e)). destruct (Z.eqb_spec (L x) (L y)), (Z.eqb_spec (L y) (L z)), (Z.eqb_spec (L x) (L z)); intros; auto; lia.
Qed.

(** Every live atom is in the vector; the least important come first. *)
Lemma sort_atoms_ok e l : ok e -> (forall h, h ∈ l <-> h ∈ live (atomTable (space e))) -> NoDup l ->
  (forall h, h ∈ l -> mean_of e h <> S754_nan) ->
  exists r, sort_atoms (space e) l = Ok r /\ NoDup r /\ r ≡ₚ l /\
    StronglySorted (fun x y => (lti_of (tlb_of e) x <= lti_of (tlb_of e) y)%Z) r.
Proof.
  intros He Hl Hnd Hm. unfold sort_atoms.
  assert (E : exists ks, mapM (forgetting_key (space e)) l = Ok ks).
  { assert (Hl' : forall h, h ∈ l -> h ∈ live (atomTable (space e))) by (intros h; by rewrite Hl).
    clear Hl Hnd Hm. induction l as [|h l IH]; [by exists []|]. destruct IH as [ks IH]; [set_solver|].
    eexists. cbn [mapM]. rewrite forgetting_key_ok by set_solver. cbn [mbind res_bind]. by rewrite IH. }
  assert (Hw : weak_order (forgetting_less (space e)) l).
  { apply forgetting_order; [done|]. intros h Hh. split; [by apply Hl|auto]. }
  destruct E as [ks E]. rewrite E, (proj2 (weak_orderb_spec _ _) Hw). eexists.
  split; [by destruct (2 <=? length l)|]. pose proof (std_sort_perm _ _ Hw) as Hp.
  split; [by rewrite Hp|]. split; [exact Hp|].
  pose proof (std_sort_sorted _ _ Hw) as Hs.
  assert (Hin : forall h, h ∈ std_sort (forgetting_less (space e)) l -> h ∈ live (atomTable (space e)))
    by (intros h; rewrite Hp; apply Hl).
  clear Hp Hw Hm. induction Hs as [|x r Hs IH Hx]; [constructor|]. constructor; [apply IH; set_solver|].
  rewrite Forall_forall in Hx |- *. intros y Hy. specialize (Hx y Hy).
  rewrite forgetting_less_ok in Hx by (done || set_solver). unfold less_key in Hx.
  revert Hx. destruct (Z.eqb_spec (lti_of (tlb_of e) y) (lti_of (tlb_of e) x)); intros; lia.
Qed.

(** ** A pass *)
Lemma forget_pass_ok e threshold proportion amount : ok e ->
  (forall h, h ∈ live (atomTable (space e)) -> mean_of e h <> S754_nan) ->
  int_of_float (f32_mul (f32_of_Z (Z.of_nat (size (live (atomTable (space e)))))) proportion) = Ok amount ->
  exists l done rest rs e',
    forget cs string_hash threshold proportion e = (Ok (Z.of_nat (length rs)), e') /\
    (forall h, h ∈ l <-> h ∈ live (atomTable (space e))) /\ NoDup l /\
    StronglySorted (fun x y => (lti_of (tlb_of e) x <= lti_of (tlb_of e) y)%Z) l /\
    forgets threshold amount e 0 l done rest rs e'.
Proof.
  intros He Hm Ham. destruct (id He) as [S Hok].
  destruct (all_live_atoms cs Hty (space e) (so_table _ _ _ Hok)) as (r & Er & Hnd & Hr).
  destruct (sort_atoms_ok e r He Hr Hnd) as (l & El & Hndl & Hp & Hs); [intros h Hh; by apply Hm, Hr|].
  assert (Hll : forall h, h ∈ l <-> h ∈ live (atomTable (space e))) by (intros h; by rewrite Hp).
  destruct (forget_loop_ok threshold amount l e 0 He Hndl) as (don & rest & rs & e' & E & F).
  { intros h. apply Hll. }
  exists l, don, rest, rs, e'. split; [|by split_and!].
  unfold forget. step (by unfold reads; rewrite Er). rewrite HE_toHandleVector_id. step (unfold reads; by rewrite El).
  assert (Esz : length l = size (live (atomTable (space e)))).
  { rewrite <- (size_list_to_set (C := gset Handle)) by done. f_equal. apply leibniz_equiv. set_solver. }
  rewrite Esz. step (by unfold lift; rewrite Ham). exact E.
Qed.
End forgetting.
