(* ===== verification/EconomyInv.v ===== *)
(** The agents of attention over a well-formed atom space: importance is
    neither made nor lost, whatever an agent runs into. *)
From Stdlib Require Import SpecFloat.
From S2P Require Import Prelude ClassServer TruthValue AttentionValue Atom TLB HandleEntry Index IndexSpec AtomTable TableInv TableRemove TableAdd TableProps TableAttention TableQuery Temporal TimeSpec SpaceServer AtomSpace SpaceInv SpaceRemove SpaceAdd SpaceRequests Agents ImportanceUpdating.
From S2P Require Combo.

(** ** Code that keeps a property of the state, however it ends *)
Definition stable {S A} (I : S -> Prop) (m : ST S A) : Prop := forall s, I s -> I (m s).2.

Section stable.
Context {S : Type} (I : S -> Prop).

Lemma stable_ret {A} (a : A) : stable I (mret a).
Proof. by intros s Hs. Qed.

Lemma stable_bind {A B} (m : ST S A) (f : A -> ST S B) :
  stable I m -> (forall a, stable I (f a)) -> stable I (m ≫= f).
Proof.
  intros Hm Hf s Hs. unfold mbind, st_bind. specialize (Hm s Hs).
  destruct (m s) as [[a|ex| |] s']; try done. by apply Hf.
Qed.

Lemma stable_reads {A} (f : S -> res A) : stable I (reads f).
Proof. by intros s Hs. Qed.
Lemma stable_asks {A} (f : S -> A) : stable I (asks f).
Proof. by intros s Hs. Qed.
Lemma stable_lift {A} (r : res A) : stable I (lift r).
Proof. by intros s Hs. Qed.

Lemma stable_foreach {A} (f : A -> ST S unit) l : (forall x, stable I (f x)) -> stable I (foreach f l).
Proof.
  intros Hf. induction l as [|x l IH]; [apply stable_ret|]. by apply stable_bind.
Qed.

Lemma stable_if {A} (b : bool) (m1 m2 : ST S A) : stable I m1 -> stable I m2 -> stable I (if b then m1 else m2).
Proof. by destruct b. Qed.
End stable.

(** Reads the operation off the goal; the lemmas of [stable] do the rest. *)
Create HintDb stable.
#[export] Hint Resolve stable_ret stable_reads stable_asks stable_lift : stable.

Ltac steady :=
  repeat (cbv beta zeta iota;
    lazymatch goal with
    | |- stable _ (_ ≫= _) => apply stable_bind; [|intros ?]
    | |- stable _ (foreach _ _) => apply stable_foreach; intros ?
    | |- stable _ (if ?b then _ else _) => destruct b
    | |- stable _ _ => solve [auto 4 with stable nocore]
    end).

(** ** All importance there is *)
Definition asum (f : AttentionValue -> Z) (l : list Agent) : Z :=
  foldr (fun a z => f (ag_attentionValue a) + z)%Z 0%Z l.

Lemma asum_alter f n g l a :
  l !! n = Some a ->
  asum f (alter g n l) = (asum f l + (f (ag_attentionValue (g a)) - f (ag_attentionValue a)))%Z.
Proof.
  revert n. induction l as [|b l IH]; intros [|n] Ha; try done.
  - injection Ha as ->. simpl. lia.
  - change (alter g (S n) (b :: l)) with (b :: alter g n l). simpl in Ha |- *. rewrite (IH n Ha). lia.
Qed.

Lemma asum_map f g l : (forall a, ag_attentionValue (g a) = ag_attentionValue a) -> asum f (g <$> l) = asum f l.
Proof. intros Hg. induction l as [|a l IH]; [done|]. rewrite fmap_cons. simpl. by rewrite Hg, IH. Qed.

Lemma asum_alter_same f n g l :
  (forall a, ag_attentionValue (g a) = ag_attentionValue a) -> asum f (alter g n l) = asum f l.
Proof.
  intros Hg. revert n. induction l as [|b l IH]; intros [|n]; try done.
  - simpl. by rewrite Hg.
  - change (alter g (S n) (b :: l)) with (b :: alter g n l). simpl. by rewrite IH.
Qed.

Lemma removed_stimulus_av h a : ag_attentionValue (removeAtomStimulus h a) = ag_attentionValue a.
Proof. unfold removeAtomStimulus. by destruct (_ !! _). Qed.

Lemma asum_hear f l sigs : asum f (foldl hear l sigs) = asum f l.
Proof.
  revert l. induction sigs as [|sg sigs IH]; intros l; [done|]. simpl. rewrite IH.
  destruct sg; try done. apply asum_map, removed_stimulus_av.
Qed.

(** ** Stimulus *)
Definition stimulus_sum (m : gmap Handle Z) : Z := map_fold (fun _ v z => (v + z)%Z) 0%Z m.

(** The total is the sum of what the atoms got, in a short. *)
Definition stimulus_ok (a : Agent) : Prop := totalStimulus a = sshort (stimulus_sum (stimulatedAtoms a)).

Lemma stimulus_sum_delete m h v : m !! h = Some v -> stimulus_sum m = (v + stimulus_sum (delete h m))%Z.
Proof. intros Hh. unfold stimulus_sum. apply (map_fold_delete_L (fun _ v z => (v + z)%Z)); [lia|done]. Qed.

Lemma stimulus_sum_insert m h v :
  stimulus_sum (<[h := v]> m) = (v - default 0%Z (m !! h) + stimulus_sum m)%Z.
Proof.
  rewrite (stimulus_sum_delete (<[h := v]> m) h v) by apply lookup_insert_eq. rewrite delete_insert_eq.
  destruct (m !! h) as [w|] eqn:Hh; simpl.
  - rewrite (stimulus_sum_delete m h w Hh). lia.
  - rewrite delete_id by done. lia.
Qed.

Lemma stimulateAtom_ok h amount a : stimulus_ok a -> stimulus_ok (stimulateAtom h amount a).
Proof.
  unfold stimulus_ok, stimulateAtom. cbn [totalStimulus stimulatedAtoms]. intros ->.
  rewrite stimulus_sum_insert, sshort_add_l. fold (stimulus h a).
  replace (sshort (stimulus h a + amount) - stimulus h a + stimulus_sum (stimulatedAtoms a))%Z
    with (sshort (stimulus h a + amount) + (stimulus_sum (stimulatedAtoms a) - stimulus h a))%Z by lia.
  rewrite sshort_add_l. f_equal. lia.
Qed.

Lemma removeAtomStimulus_ok h a : stimulus_ok a -> stimulus_ok (removeAtomStimulus h a).
Proof.
  unfold stimulus_ok, removeAtomStimulus. intros Ha.
  destruct (stimulatedAtoms a !! h) as [v|] eqn:Hh; [|done]. cbn [totalStimulus stimulatedAtoms].
  rewrite Ha, sshort_sub_l, (stimulus_sum_delete _ h v Hh). f_equal. lia.
Qed.

Lemma stimulate_each hs amount a : stimulus_ok a ->
  let a' := foldl (fun a x => stimulateAtom x amount a) a hs in
  stimulus_ok a' /\ totalStimulus a' = sshort (totalStimulus a + amount * Z.of_nat (length hs)) /\
  ag_attentionValue a' = ag_attentionValue a.
Proof.
  revert a. induction hs as [|h hs IH]; intros a Ha; simpl.
  { split; [done|]. split; [|done]. rewrite Z.mul_0_r, Z.add_0_r, Ha. by rewrite sshort_idem. }
  destruct (IH _ (stimulateAtom_ok h amount a Ha)) as (K & E & A). split; [done|]. split; [|done].
  rewrite E. cbn [stimulateAtom totalStimulus]. rewrite sshort_add_l. f_equal. lia.
Qed.

(** A division in shorts. *)
Lemma quot_short a n : (0 < n)%Z -> is_short a -> is_short (Z.quot a n) /\ is_short (Z.rem a n).
Proof.
  intros Hn. pose proof (Z.quot_rem a n ltac:(lia)) as Hqr.
  unfold is_short, SHRT_MIN, SHRT_MAX. intros Ha.
  destruct (Z.le_ge_cases 0 a) as [Hp|Hp].
  - pose proof (Z.rem_bound_pos a n Hp Hn) as Hr'. pose proof (Z.quot_pos a n Hp Hn) as Hq.
    revert Hqr Hr' Hq. generalize (Z.quot a n) as q, (Z.rem a n) as r. clear - Hn Ha. intros. nia.
  - pose proof (Z.rem_bound_pos_neg a n Hn Hp) as Hr'.
    revert Hqr Hr'. generalize (Z.quot a n) as q, (Z.rem a n) as r. clear - Hn Ha Hp. intros q r E Hr.
    assert (q <= 0)%Z by (apply Z.nlt_ge; intros Hq; assert (n * 1 <= n * q)%Z by (apply Z.mul_le_mono_nonneg_l; lia); lia).
    assert (n * q <= 1 * q)%Z by (apply Z.mul_le_mono_nonpos_r; lia). lia.
Qed.

Section economy.
Context `{SetOrder} (cs : ClassServer) (string_hash : string -> N) {M : Type} `{SpaceMapLaws M}.
Implicit Types s : AtomSpace M.
Implicit Types e : Economy M.

Definition all_STI e : Z := (wealthSTI (space e) + asum getSTI (agents e))%Z.
Definition all_LTI e : Z := (wealthLTI (space e) + asum getLTI (agents e))%Z.

(** The atom space is well-formed and the importance adds up. *)
Record balanced (STI LTI : Z) e : Prop := {
  bal_space : exists S, space_ok cs (space e) S;
  bal_STI : all_STI e = STI;
  bal_LTI : all_LTI e = LTI
}.

(** What an operation on atoms keeps. *)
Definition fair s s' : Prop :=
  (exists S, space_ok cs s' S) /\ same_wealth s s'.
Definition fair_op {A} (m : ST (AtomSpace M) A) : Prop := forall s, (exists S, space_ok cs s S) -> fair s (m s).2.

Lemma on_the_space_stable {A} (m : ST (AtomSpace M) A) STI LTI :
  fair_op m -> stable (balanced STI LTI) (on_the_space m).
Proof.
  intros Hm e [Hok B1 B2]. destruct (Hm (space e) Hok) as (Hok' & W1 & W2). unfold on_the_space.
  destruct (m (space e)) as [r s']. simpl in *. split; [done|..]; unfold all_STI, all_LTI in *; simpl;
    rewrite asum_hear; congruence.
Qed.

Lemma setAV_fair h f : fair_op (p ← reads (AS.pointer h); av ← reads (AS.holder p);
  AS.setAV p (AV_new (f av).1.1 (f av).1.2 (f av).2)).
Proof.
  intros s [S Hok]. unfold AS.pointer.
  destruct (getAtom (AS.the_tlb s) h) as [p|] eqn:Hp.
  2: { unfold mbind at 1, st_bind, reads at 1. rewrite Hp. split; [by exists S|by split]. }
  assert (Hh : h ∈ live (atomTable s)) by (apply elem_of_live_map; by exists p).
  apply (elem_of_live cs) in Hh as [a Ha]; [|apply Hok]. destruct (pointer_read s h a Ha) as (q & Eq & Hq & Hqa).
  assert (q = p) as -> by congruence.
  set (av := AV_new (f (a_attentionValue a)).1.1 (f (a_attentionValue a)).1.2 (f (a_attentionValue a)).2).
  destruct (setAV_ok cs s S h a av Hok Ha) as (s' & E & K & W & _).
  { split; [apply sshort_range|]. split; [apply sshort_range|]. apply N.mod_lt. done. }
  assert (E' : (p ← reads (AS.pointer h); av ← reads (AS.holder p);
      AS.setAV p (AV_new (f av).1.1 (f av).1.2 (f av).2)) s = (Ok tt, s')).
  { unfold AS.setAV_at in E. revert E. step (by apply reads_ok; exact Eq). intros E.
    step (by apply reads_ok; exact Eq).
    step (apply reads_ok; unfold AS.holder; rewrite Hqa; done). exact E. }
  unfold AS.pointer in E'. rewrite E'. split; [by exists S|done].
Qed.

Lemma setSTI_fair h v : fair_op (AS.setSTI h v).
Proof. apply (setAV_fair h (fun av => (v, getLTI av, getVLTI av))). Qed.

Lemma setLTI_fair h v : fair_op (AS.setLTI h v).
Proof. apply (setAV_fair h (fun av => (getSTI av, v, getVLTI av))). Qed.

Lemma space_ok_ext s s' S :
  space_ok cs s S -> timeServer s' = timeServer s -> atomTable s' = atomTable s ->
  spaceServer s' = spaceServer s -> backing_store s' = backing_store s -> space_ok cs s' S.
Proof.
  intros [K1 K2 K3 K4 K5 K6] E1 E2 E3 E4.
  split; unfold AS.the_tlb in *; rewrite ?E1, ?E2, ?E3, ?E4; done.
Qed.

Lemma updateMaxSTI_fair v : fair_op (AS.updateMaxSTI v).
Proof. intros s [S Hok]. split; [exists S; by eapply space_ok_ext|by split]. Qed.
Lemma updateMinSTI_fair v : fair_op (AS.updateMinSTI v).
Proof. intros s [S Hok]. split; [exists S; by eapply space_ok_ext|by split]. Qed.

Lemma removeAtom_fair (Hty : types_ok cs) h r : fair_op (AS.removeAtom cs string_hash h r).
Proof.
  intros s [S Hok]. destruct (remove_any_ok cs string_hash Hty s S h r Hok) as (b & s' & S' & E & K & W).
  rewrite E. split; [by exists S'|done].
Qed.

(** Agents pay and are paid from the funds. *)
Lemma setAV_agent_stable n av STI LTI : stable (balanced STI LTI) (setAV_agent n av).
Proof.
  intros e [[S Hok] B1 B2]. unfold setAV_agent, reads, agent_at, mbind, st_bind.
  destruct (agents e !! n) as [a|] eqn:Ha; [|by split; [exists S|..]]. simpl.
  split; [exists S; by eapply space_ok_ext|..]; unfold all_STI, all_LTI, wealthSTI, wealthLTI in *; simpl;
    rewrite drop_all; simpl; rewrite (asum_alter _ _ _ _ a) by done; simpl; unfold AS.the_tlb in *; simpl; lia.
Qed.

Lemma setSTI_agent_stable n v STI LTI : stable (balanced STI LTI) (setSTI_agent n v).
Proof. unfold setSTI_agent. apply stable_bind; [apply stable_reads|intros a; apply setAV_agent_stable]. Qed.
Lemma setLTI_agent_stable n v STI LTI : stable (balanced STI LTI) (setLTI_agent n v).
Proof. unfold setLTI_agent. apply stable_bind; [apply stable_reads|intros a; apply setAV_agent_stable]. Qed.
End economy.

(** ** A run of the updating agent *)
Section run.
Context `{SetOrder} `{Combo.Libm} (cs : ClassServer) {M R : Type} `{SpaceMapLaws M} `{Random R} (st : Settings).
Context (STI LTI : Z).
Import Importance.
Abbreviation lobe_ok := (fun l : Lobe (M := M) (R := R) => balanced cs STI LTI (economy l)) (only parsing).
Abbreviation keeps m := (stable lobe_ok m) (only parsing).

Lemma on_economy_stable {A} (m : ST (Economy M) A) : stable (balanced cs STI LTI) m -> keeps (on_economy m).
Proof. intros Hm l Hl. unfold on_economy. specialize (Hm _ Hl). by destruct (m (economy l)). Qed.

Lemma on_updater_stable f : keeps (on_updater f).
Proof. by intros l Hl. Qed.

Lemma on_atoms_stable {A} (m : ST (AtomSpace M) A) : fair_op cs m -> keeps (on_atoms m).
Proof. intros Hm. by apply on_economy_stable, on_the_space_stable. Qed.

Lemma read_space_stable {A} (f : AtomSpace M -> res A) : keeps (read_space f).
Proof. by intros l Hl. Qed.
Lemma read_agent_stable {A} n (f : Agent -> A) : keeps (read_agent n f).
Proof. by intros l Hl. Qed.

Lemma thread_stable {A} (f : A -> nat -> ST (Lobe (M := M) (R := R)) A) a l :
  (forall b n, keeps (f b n)) -> keeps (thread f a l).
Proof.
  intros Hf. revert a. induction l as [|n l IH]; intros a; [apply stable_ret|].
  cbn [thread]. by apply stable_bind.
Qed.

(** Changes of agents that leave their importance alone. *)
Lemma agents_stable (f : list Agent -> list Agent) :
  (forall g l, asum g (f l) = asum g l) ->
  stable (balanced cs STI LTI) (modst (fun e : Economy M => set_agents (f (agents e)) e)).
Proof.
  intros Hf e [Hok B1 B2]. split; [done|..]; unfold all_STI, all_LTI in *; simpl; by rewrite Hf.
Qed.

Lemma stimulate_stable n h amount :
  stable (balanced cs STI LTI) (modst (change_agent (M := M) n (stimulateAtom h amount))).
Proof.
  apply (agents_stable (alter (stimulateAtom h amount) n)). intros g l. by apply asum_alter_same.
Qed.

Hint Resolve on_updater_stable read_space_stable read_agent_stable setSTI_agent_stable
  setLTI_agent_stable setSTI_fair setLTI_fair updateMaxSTI_fair updateMinSTI_fair
  on_atoms_stable on_economy_stable stimulate_stable : stable.
Lemma pay_STI_stable h x n : keeps (pay_STI st h x n).
Proof. unfold pay_STI. steady. Qed.
Lemma pay_LTI_stable h x n : keeps (pay_LTI st h x n).
Proof. unfold pay_LTI. steady. Qed.
Hint Resolve thread_stable pay_STI_stable pay_LTI_stable : stable.

Lemma update_atom_stable seen h : keeps (update_atom st seen h).
Proof. unfold update_atom, updateAtomSTI, updateAtomLTI, enforceSTICap, enforceLTICap. steady. Qed.
Hint Resolve update_atom_stable : stable.

Lemma update_atoms_stable seen hs : keeps (update_atoms st seen hs).
Proof. revert seen. induction hs as [|h hs IH]; intros seen; cbn [update_atoms]; steady. Qed.

Lemma calculateAtomWages_stable : keeps (calculateAtomWages st).
Proof. unfold calculateAtomWages, updateAgentSTI, updateAgentLTI, add_wages. steady. Qed.

Lemma random_double_stable : keeps random_double.
Proof. intros l Hl. unfold random_double. by destruct (randdouble _). Qed.
Hint Resolve random_double_stable : stable.

Lemma randomStimulation_stable n : keeps (randomStimulation cs st n).
Proof. unfold randomStimulation. steady. Qed.

Lemma getTaxAmount_stable fuel mean : keeps (getTaxAmount fuel mean).
Proof.
  intros l Hl. unfold getTaxAmount. destruct (int_of_float _); try done.
  by destruct (randDoubleOneExcluded _).
Qed.
Hint Resolve getTaxAmount_stable : stable.

Lemma adjustSTIFunds_stable fuel : keeps (adjustSTIFunds cs st fuel).
Proof. unfold adjustSTIFunds. steady. Qed.
Lemma adjustLTIFunds_stable fuel : keeps (adjustLTIFunds cs st fuel).
Proof. unfold adjustLTIFunds. steady. Qed.
Hint Resolve adjustSTIFunds_stable adjustLTIFunds_stable : stable.

Lemma checkAtomSpaceFunds_stable fuel : keeps (checkAtomSpaceFunds cs st fuel).
Proof. unfold checkAtomSpaceFunds. steady. Qed.

Lemma updater_stable f : keeps (modst (fun l => mkLobe (economy l) (f l))).
Proof. by intros l Hl. Qed.
Hint Resolve updater_stable : stable.

Lemma updateSTIRent_stable gradual : keeps (updateSTIRent st gradual).
Proof. unfold updateSTIRent. steady. Qed.

Lemma updateAttentionalFocusSizes_stable : keeps (updateAttentionalFocusSizes cs st).
Proof. unfold updateAttentionalFocusSizes. steady. Qed.

Lemma updateTotalStimulus_stable : keeps updateTotalStimulus.
Proof. unfold updateTotalStimulus. apply updater_stable. Qed.

Lemma reset_stable :
  stable (balanced cs STI LTI) (modst (fun e : Economy M => set_agents (resetStimulus <$> agents e) e)).
Proof. apply (agents_stable (fmap resetStimulus)). intros g l. by apply asum_map. Qed.
Hint Resolve update_atoms_stable calculateAtomWages_stable randomStimulation_stable reset_stable
  checkAtomSpaceFunds_stable updateSTIRent_stable updateAttentionalFocusSizes_stable
  updateTotalStimulus_stable : stable.

Lemma run_stable fuel : keeps (run cs st fuel).
Proof. unfold run. steady. Qed.
End run.
