(* ===== verification/EconomyFlow.v ===== *)
(** What the agents of attention do: flat rents are collected from every atom,
    and forgetting removes what may be forgotten. *)
From Stdlib Require Import SpecFloat.
From S2P Require Import Prelude ClassServer TruthValue AttentionValue Atom TLB HandleEntry Index IndexSpec AtomTable TableInv TableRemove TableAdd TableProps TableAttention TableQuery Temporal TimeSpec SpaceServer AtomSpace SpaceInv SpaceRemove SpaceAdd SpaceRequests Agents ImportanceUpdating EconomyInv.
From S2P Require Combo.

(** ** Collecting rents *)
Definition clip (cap x : Z) : Z := if (cap <? x)%Z then cap else if (x <? - cap)%Z then (- cap)%Z else x.

Section flow.
Context `{SetOrder} `{Combo.Libm} (cs : ClassServer) {M R : Type} `{SpaceMapLaws M} `{Random R} (st : Settings).
Import Importance.
Abbreviation lobe := (Lobe (M := M) (R := R)) (only parsing).
Abbreviation the_space l := (space (economy l)) (only parsing).
Abbreviation atoms l := (atomOf (AS.the_tlb (the_space l))) (only parsing).

(** Only the attention value of [h] is another. *)
Record revalued (l l' : lobe) (h : Handle) (av : AttentionValue) : Prop := {
  rl_space : exists S, space_ok cs (the_space l') S;
  rl_atoms : forall k, atoms l' k = if decide (k = h) then set_av av <$> atoms l k else atoms l k;
  rl_boundary : attentionalFocusBoundary (the_space l') = attentionalFocusBoundary (the_space l);
  rl_agents : agents (economy l') = agents (economy l);
  rl_updater : updater l' = updater l
}.

Lemma revalued_trans l1 l2 l3 h av1 av2 :
  revalued l1 l2 h av1 -> revalued l2 l3 h av2 -> revalued l1 l3 h av2.
Proof.
  intros [_ A1 B1 G1 U1] [K A2 B2 G2 U2]. split; [done|..|congruence|congruence|congruence].
  intros k. rewrite A2, A1. case_decide; [|done]. by destruct (atoms l1 k).
Qed.

Lemma revalued_at l l' h av a :
  revalued l l' h av -> atoms l h = Some a -> atoms l' h = Some (set_av av a).
Proof. intros [_ A _ _ _] Ha. by rewrite A, decide_True, Ha. Qed.

(** Setting the value of a live atom. *)
Lemma set_value_ok (m : ST (AtomSpace M) unit) (l : lobe) h a av :
  (exists S, space_ok cs (the_space l) S) -> atoms l h = Some a ->
  m (the_space l) = AS.setAV_at h av (the_space l) -> AV_wf av ->
  exists l', on_atoms m l = (Ok tt, l') /\ revalued l l' h av.
Proof.
  intros [S Hok] Ha Hm Hav. destruct (setAV_ok cs (the_space l) S h a av Hok Ha Hav) as (s' & E & K & _ & Rv & _).
  assert (Hb : attentionalFocusBoundary s' = attentionalFocusBoundary (the_space l)).
  { destruct (pointer_read _ h a Ha) as (p & Ep & Hp & Hpa). revert E. unfold AS.setAV_at.
    step (by apply reads_ok; exact Ep). unfold AS.setAV.
    step (apply reads_ok; unfold AS.holder; rewrite Hpa; done). step (done).
    unfold on_at. destruct (setAttentionValue _ _ _). by intros [= _ <-]. }
  exists (mkLobe (mkEconomy s' (agents (economy l))) (updater l)). split.
  - unfold on_atoms, on_economy, on_the_space. rewrite Hm, E, (rv_signals _ _ _ _ _ _ Rv), drop_all. done.
  - split; try done; [by exists S|]. intros k. simpl. unfold AS.the_tlb. rewrite (rv_atoms _ _ _ _ _ _ Rv).
    case_decide as Hk; [|done]. subst k. unfold AS.the_tlb in Ha. by rewrite Ha.
Qed.

Lemma AV_new_wf x y v : AV_wf (AV_new x y v).
Proof. split; [apply sshort_range|]. split; [apply sshort_range|]. by apply N.mod_lt. Qed.

Section atom.
Context (l : lobe) (h : Handle) (a : Atom) (Hs : exists S, space_ok cs (the_space l) S) (Ha : atoms l h = Some a).
Abbreviation av := (a_attentionValue a).

Lemma setSTI_lobe v : exists l',
  on_atoms (AS.setSTI h v) l = (Ok tt, l') /\ revalued l l' h (AV_new v (getLTI av) (getVLTI av)).
Proof.
  destruct (pointer_read _ h a Ha) as (p & Ep & Hp & Hpa).
  eapply set_value_ok; [done..| |apply AV_new_wf]. unfold AS.setSTI, AS.setAV_at.
  rewrite !(bind_ok _ _ _ p (the_space l)) by (by apply reads_ok).
  by rewrite (bind_ok _ _ _ av (the_space l)) by (apply reads_ok; unfold AS.holder; by rewrite Hpa).
Qed.

Lemma setLTI_lobe v : exists l',
  on_atoms (AS.setLTI h v) l = (Ok tt, l') /\ revalued l l' h (AV_new (getSTI av) v (getVLTI av)).
Proof.
  destruct (pointer_read _ h a Ha) as (p & Ep & Hp & Hpa).
  eapply set_value_ok; [done..| |apply AV_new_wf]. unfold AS.setLTI, AS.setAV_at.
  rewrite !(bind_ok _ _ _ p (the_space l)) by (by apply reads_ok).
  by rewrite (bind_ok _ _ _ av (the_space l)) by (apply reads_ok; unfold AS.holder; by rewrite Hpa).
Qed.

Lemma read_STI : read_space (AS.getSTI_at h) l = (Ok (getSTI av), l).
Proof. unfold read_space, reads, AS.getSTI_at. by rewrite (av_read _ h a Ha). Qed.
Lemma read_LTI : read_space (AS.getLTI_at h) l = (Ok (getLTI av), l).
Proof. unfold read_space, reads, AS.getLTI_at. by rewrite (av_read _ h a Ha). Qed.

(** The caps. *)
Lemma enforceSTICap_ok : is_short (STICap st) -> (0 <= STICap st)%Z ->
  av = AV_new (getSTI av) (getLTI av) (getVLTI av) -> exists b l',
  enforceSTICap st h l = (Ok b, l') /\
  revalued l l' h (AV_new (clip (STICap st) (getSTI av)) (getLTI av) (getVLTI av)).
Proof.
  intros Hc H0' Hav. unfold enforceSTICap, clip. step (exact read_STI).
  destruct (_ <? _)%Z; [|destruct (_ <? _)%Z].
  - destruct (setSTI_lobe (STICap st)) as (l' & E & Rv). exists true, l'. by step (exact E).
  - destruct (setSTI_lobe (- STICap st)) as (l' & E & Rv). exists true, l'. by step (exact E).
  - exists false, l. split; [done|]. split; try done. intros k. case_decide as Hk; [|done].
    subst k. rewrite Ha. simpl. f_equal. rewrite <- Hav. by destruct a.
Qed.

Lemma enforceLTICap_ok : is_short (LTICap st) -> (0 <= LTICap st)%Z ->
  av = AV_new (getSTI av) (getLTI av) (getVLTI av) -> exists b l',
  enforceLTICap st h l = (Ok b, l') /\
  revalued l l' h (AV_new (getSTI av) (clip (LTICap st) (getLTI av)) (getVLTI av)).
Proof.
  intros Hc H0' Hav. unfold enforceLTICap, clip. step (exact read_LTI).
  destruct (_ <? _)%Z; [|destruct (_ <? _)%Z].
  - destruct (setLTI_lobe (LTICap st)) as (l' & E & Rv). exists true, l'. by step (exact E).
  - destruct (setLTI_lobe (- LTICap st)) as (l' & E & Rv). exists true, l'. by step (exact E).
  - exists false, l. split; [done|]. split; try done. intros k. case_decide as Hk; [|done].
    subst k. rewrite Ha. simpl. f_equal. rewrite <- Hav. by destruct a.
Qed.
End atom.

(** ** An atom that nobody gave stimulus to *)
Definition idle (l : lobe) : Prop := Forall (fun a => totalStimulus a = 0%Z) (agents (economy l)).

Lemma each_agent_at (l : lobe) n : n ∈ each_agent l -> is_Some (agents (economy l) !! n).
Proof. unfold each_agent. intros [_ Hn]%elem_of_seq. by apply lookup_lt_is_Some. Qed.

(** A payment that nothing is asked for. *)
Lemma thread_idle (pay : Z -> nat -> ST lobe Z) (l : lobe) x :
  (forall n a, agents (economy l) !! n = Some a -> totalStimulus a = 0%Z -> pay x n l = (Ok x, l)) ->
  idle l -> thread pay x (each_agent l) l = (Ok x, l).
Proof.
  intros Hpay Hl. assert (Hns : Forall (fun n => pay x n l = (Ok x, l)) (each_agent l)).
  { apply Forall_forall. intros n Hn. destruct (each_agent_at l n Hn) as [a Ha].
    apply (Hpay n a Ha). by apply (Forall_lookup_1 _ _ _ _ Hl Ha). }
  induction Hns as [|n ns Hn _ IH]; [done|]. cbn [thread]. step (exact Hn). exact IH.
Qed.

Lemma stimulus_read (l : lobe) n a (f : Agent -> Z) : agents (economy l) !! n = Some a -> read_agent n f l = (Ok (f a), l).
Proof. intros Ha. unfold read_agent, reads, agent_at. by rewrite Ha. Qed.

Lemma pay_STI_idle h x n (l : lobe) a : agents (economy l) !! n = Some a -> totalStimulus a = 0%Z ->
  pay_STI st h x n l = (Ok x, l).
Proof. intros Ha Hz. unfold pay_STI. step (by apply stimulus_read). unfold getTotalStimulus. by rewrite Hz. Qed.
Lemma pay_LTI_idle h x n (l : lobe) a : agents (economy l) !! n = Some a -> totalStimulus a = 0%Z ->
  pay_LTI st h x n l = (Ok x, l).
Proof. intros Ha Hz. unfold pay_LTI. step (by apply stimulus_read). unfold getTotalStimulus. by rewrite Hz. Qed.

(** What is left of the importance of an atom. *)
Definition flat_rent (l : lobe) (c : Z) : Z :=
  if (attentionalFocusBoundary (the_space l) + amnesty st <? c)%Z then STIAtomRent (updater l) else 0%Z.
Definition after_STI (l : lobe) (c : Z) : Z := clip (STICap st) (sshort (c - flat_rent l c)).
Definition after_LTI (l : lobe) (c : Z) : Z := clip (LTICap st) (sshort (c - LTIAtomRent (updater l))).
Definition after_rent (l : lobe) (av : AttentionValue) : AttentionValue :=
  AV_new (after_STI l (getSTI av)) (after_LTI l (getLTI av)) (getVLTI av).

Context (Hflat : rentType st = RENT_FLAT).
Context (HS : is_short (STICap st) /\ (0 <= STICap st)%Z) (HL : is_short (LTICap st) /\ (0 <= LTICap st)%Z).

Lemma clip_short cap x : is_short cap /\ (0 <= cap)%Z -> is_short x -> is_short (clip cap x).
Proof. unfold clip, is_short, SHRT_MIN, SHRT_MAX. intros. repeat destruct (_ <? _)%Z; lia. Qed.

Lemma sshort_rent c r : sshort (c + sshort (- r)) = sshort (c - r).
Proof. by rewrite sshort_add_r. Qed.

Lemma updateAtomSTI_idle (l : lobe) h a : (exists S, space_ok cs (the_space l) S) -> atoms l h = Some a -> idle l ->
  exists l', updateAtomSTI st h l = (Ok tt, l') /\
    revalued l l' h (AV_new (getSTI (a_attentionValue a) - flat_rent l (getSTI (a_attentionValue a)))
                       (getLTI (a_attentionValue a)) (getVLTI (a_attentionValue a))).
Proof.
  intros Hs Ha Hl. set (c := getSTI (a_attentionValue a)).
  destruct (setSTI_lobe l h a Hs Ha (c + sshort (- flat_rent l c))) as (l' & E & Rv).
  exists l'. split.
  - unfold updateAtomSTI. step (exact (read_STI l h a Ha)). step (done).
    step (unfold read_space, reads, calculateSTIRent; rewrite Hflat; done). step (done).
    step (by apply thread_idle; [intros n b; apply pay_STI_idle|]). exact E.
  - unfold AV_new in Rv |- *. by rewrite sshort_rent in Rv.
Qed.

Lemma updateAtomLTI_idle (l : lobe) h a : (exists S, space_ok cs (the_space l) S) -> atoms l h = Some a -> idle l ->
  exists l', updateAtomLTI st h l = (Ok tt, l') /\
    revalued l l' h (AV_new (getSTI (a_attentionValue a))
                       (getLTI (a_attentionValue a) - LTIAtomRent (updater l)) (getVLTI (a_attentionValue a))).
Proof.
  intros Hs Ha Hl. set (c := getLTI (a_attentionValue a)).
  destruct (setLTI_lobe l h a Hs Ha (c + sshort (- LTIAtomRent (updater l)))) as (l' & E & Rv).
  exists l'. split.
  - unfold updateAtomLTI. step (exact (read_LTI l h a Ha)). step (done). step (done).
    step (by apply thread_idle; [intros n b; apply pay_LTI_idle|]). exact E.
  - unfold AV_new in Rv |- *. by rewrite sshort_rent in Rv.
Qed.

Lemma revalued_idle l l' h av : revalued l l' h av -> idle l -> idle l'.
Proof. intros [_ _ _ A _]. unfold idle. by rewrite A. Qed.

Lemma AV_new_normal x y v :
  AV_new (getSTI (AV_new x y v)) (getLTI (AV_new x y v)) (getVLTI (AV_new x y v)) = AV_new x y v.
Proof. unfold AV_new, getSTI, getLTI, getVLTI. cbn [m_STI m_LTI m_VLTI]. by rewrite !sshort_idem, wrap16_idem. Qed.

(** The value of an atom with rents paid and the caps enforced. *)
Lemma update_atom_idle l h a seen : (exists S, space_ok cs (the_space l) S) -> atoms l h = Some a -> idle l ->
  exists l', update_atom st seen h l =
      (Ok (let sti := after_STI l (getSTI (a_attentionValue a)) in
           if (seen.1 <? sti)%Z then (sti, seen.2) else if (sti <? seen.2)%Z then (seen.1, sti) else seen), l') /\
    revalued l l' h (after_rent l (a_attentionValue a)).
Proof.
  intros Hs Ha Hl. set (v := getVLTI (a_attentionValue a)). unfold update_atom.
  destruct (updateAtomSTI_idle l h a Hs Ha Hl) as (l1 & E1 & R1). step (exact E1).
  pose proof (revalued_at _ _ _ _ _ R1 Ha) as A1. pose proof (revalued_idle _ _ _ _ R1 Hl) as I1.
  destruct (updateAtomLTI_idle l1 h _ (rl_space _ _ _ _ R1) A1 I1) as (l2 & E2 & R2). step (exact E2).
  pose proof (revalued_at _ _ _ _ _ R2 A1) as A2.
  pose proof (revalued_trans _ _ _ _ _ _ R1 R2) as R12.
  destruct (enforceSTICap_ok l2 h _ (rl_space _ _ _ _ R2) A2) as (b3 & l3 & E3 & R3).
  { apply HS. } { apply HS. } { symmetry. apply AV_new_normal. }
  step (exact E3). pose proof (revalued_at _ _ _ _ _ R3 A2) as A3.
  destruct (enforceLTICap_ok l3 h _ (rl_space _ _ _ _ R3) A3) as (b4 & l4 & E4 & R4).
  { apply HL. } { apply HL. } { symmetry. apply AV_new_normal. }
  step (exact E4). pose proof (revalued_at _ _ _ _ _ R4 A3) as A4.
  step (exact (read_STI l4 h _ A4)). exists l4. pose proof (revalued_trans _ _ _ _ _ _ (revalued_trans _ _ _ _ _ _ R12 R3) R4) as Rv.
  rewrite (rl_updater _ _ _ _ R1) in Rv. unfold AV_new in Rv |- *. unfold getSTI, getLTI, getVLTI in Rv |- *. cbn [a_attentionValue set_av m_STI m_LTI m_VLTI] in Rv |- *.
  rewrite !sshort_idem, !wrap16_idem, sshort_sub_l in Rv. unfold after_STI, after_rent, after_LTI, AV_new, getSTI, getLTI, getVLTI.
  rewrite !sshort_idem, (sshort_id (clip (STICap st) _)) by (apply clip_short; [done|apply sshort_range]).
  split; [done|exact Rv].
Qed.

(** ** All atoms *)

(** The largest importance is right; the smallest one only if it is not passed
    by a new largest one. *)
Definition see (seen : Z * Z) (sti : Z) : Z * Z :=
  if (seen.1 <? sti)%Z then (sti, seen.2) else if (sti <? seen.2)%Z then (seen.1, sti) else seen.

Lemma see_max seen vs : (foldl see seen vs).1 = foldl Z.max seen.1 vs.
Proof.
  revert seen. induction vs as [|v vs IH]; intros seen; [done|]. simpl. rewrite IH. f_equal.
  unfold see. destruct (Z.ltb_spec seen.1 v); [simpl; lia|]. destruct (v <? seen.2)%Z; simpl; lia.
Qed.

Record paid (l l' : lobe) (hs : list Handle) : Prop := {
  pd_space : exists S, space_ok cs (the_space l') S;
  pd_atoms : forall k, atoms l' k =
    if decide (k ∈ hs) then (fun a => set_av (after_rent l (a_attentionValue a)) a) <$> atoms l k else atoms l k;
  pd_boundary : attentionalFocusBoundary (the_space l') = attentionalFocusBoundary (the_space l);
  pd_agents : agents (economy l') = agents (economy l);
  pd_updater : updater l' = updater l
}.

Lemma paid_nil (l : lobe) : (exists S, space_ok cs (the_space l) S) -> paid l l [].
Proof. intros Hs. split; try done. Qed.

Lemma after_rent_same (l l' : lobe) av : attentionalFocusBoundary (the_space l') = attentionalFocusBoundary (the_space l) ->
  updater l' = updater l -> after_rent l' av = after_rent l av.
Proof. intros Eb Eu. unfold after_rent, after_STI, after_LTI, flat_rent. by rewrite Eb, Eu. Qed.

Lemma paid_more l l1 l2 h a hs : atoms l h = Some a -> revalued l l1 h (after_rent l (a_attentionValue a)) ->
  h ∉ hs -> paid l1 l2 hs -> paid l l2 (h :: hs).
Proof.
  intros Ha R1 Hh [K2 A2 B2 G2 U2]. pose proof R1 as [_ A1 B1 G1 U1].
  split; [done|..|congruence|congruence|congruence].
  intros k. rewrite A2. destruct (decide (k ∈ hs)) as [Hk|Hk].
  - rewrite decide_True by (by right). rewrite A1, decide_False by (by intros ->).
    destruct (atoms l k); [|done]. simpl. by rewrite (after_rent_same l l1).
  - rewrite A1. destruct (decide (k = h)) as [->|Hne].
    + rewrite decide_True by left. by rewrite Ha.
    + rewrite decide_False; [done|]. by intros [?|?]%elem_of_cons.
Qed.

Lemma update_atoms_idle hs : forall (l : lobe) seen, (exists S, space_ok cs (the_space l) S) -> idle l -> NoDup hs ->
  (forall h, h ∈ hs -> is_Some (atoms l h)) ->
  exists l', update_atoms st seen hs l =
    (Ok (foldl see seen ((fun h => after_STI l (sti_of (AS.the_tlb (the_space l)) h)) <$> hs)), l') /\ paid l l' hs.
Proof.
  induction hs as [|h hs IH]; intros l seen Hs Hl Hnd Hin.
  { exists l. split; [done|by apply paid_nil]. }
  apply NoDup_cons in Hnd as [Hh Hnd]. destruct (Hin h) as [a Ha]; [left|].
  destruct (update_atom_idle l h a seen Hs Ha Hl) as (l1 & E1 & R1).
  destruct (IH l1 (see seen (after_STI l (getSTI (a_attentionValue a)))) (rl_space _ _ _ _ R1)
              (revalued_idle _ _ _ _ R1 Hl) Hnd) as (l2 & E2 & P2).
  { intros k Hk. rewrite (rl_atoms _ _ _ _ R1), decide_False by (by intros ->). apply Hin. by right. }
  exists l2. split; [|by apply (paid_more l l1 l2 h a)].
  cbn [update_atoms]. step (exact E1). etransitivity; [exact E2|].
  do 2 f_equal. rewrite fmap_cons. cbn [foldl]. f_equal.
  - unfold sti_of. by rewrite Ha.
  - apply list_fmap_ext. intros i k Hk%list_elem_of_lookup_2. unfold sti_of.
    rewrite (rl_atoms _ _ _ _ R1), decide_False by (by intros ->).
    unfold after_STI, flat_rent. by rewrite (rl_boundary _ _ _ _ R1), (rl_updater _ _ _ _ R1).
Qed.

Lemma paid_sti l l' hs h : paid l l' hs -> h ∈ hs -> is_Some (atoms l h) ->
  sti_of (AS.the_tlb (the_space l')) h = after_STI l (sti_of (AS.the_tlb (the_space l)) h).
Proof.
  intros P Hh [a Ha]. unfold sti_of. rewrite (pd_atoms _ _ _ P), decide_True, Ha by done. simpl.
  unfold after_rent, AV_new, getSTI. simpl. apply sshort_id, clip_short; [done|apply sshort_range].
Qed.

Lemma handles_to_update (Hty : types_ok cs) (s : AtomSpace M) : table_wf cs (atomTable s) ->
  exists hs, getHandlesToUpdate cs st s = Ok hs /\ NoDup hs /\
    forall h, h ∈ hs <-> exists a, atomOf (AS.the_tlb s) h = Some a /\
                           of_type cs (if updateLinks st then ATOM cs else NODE cs) true a.
Proof.
  intros Hwf. pose proof (wf_range _ (ty_wf _ Hty)) as Hn. unfold NOTYPE in Hn.
  assert (HA : (ATOM cs < nTypes cs)%N /\ (NODE cs < nTypes cs)%N).
  { destruct (isAb_bound cs _ _ (ty_time _ Hty)) as [Ht Hn'].
    destruct (isAb_bound cs _ _ (ty_atoms _ Hty _ Ht)). done. }
  apply (getHandleSet_type_ok cs (atomTable s)); [done|lia|]. destruct (updateLinks st); lia.
Qed.
End flow.
