(* ===== verification/EconomyDemo.v ===== *)
(** Instances and small examples for the attention economy: a sort by
    insertion, a generator that always gives one half, and agents over the
    small atom space. *)
From Stdlib Require Import SpecFloat.
From stdpp Require Import sorting.
From S2P Require Import Prelude ClassServer TruthValue AttentionValue Atom TLB HandleEntry AtomTable TableInv TableProps SpaceServer AtomSpace SpaceInv SpaceAdd SpaceRequests SpaceDemo Agents ImportanceUpdating.
From S2P Require Combo.

(** ** Sorting *)
Section insertion.
Context (less : Handle -> Handle -> bool).

Fixpoint put_in_order (x : Handle) (l : list Handle) : list Handle :=
  match l with
  | [] => [x]
  | y :: l' => if less x y then x :: l else y :: put_in_order x l'
  end.

Lemma put_in_order_perm x l : put_in_order x l ≡ₚ x :: l.
Proof.
  induction l as [|y l IH]; [done|]. simpl. destruct (less x y); [done|]. rewrite IH. constructor.
Qed.

Abbreviation ordered := (StronglySorted (fun x y => less y x = false)).

Lemma put_in_order_ordered L x l :
  weak_order less L -> x ∈ L -> (forall y, y ∈ l -> y ∈ L) -> ordered l -> ordered (put_in_order x l).
Proof.
  intros (Hirr & Htr & _) Hx. induction l as [|y l IH]; intros Hl Hs; [repeat constructor|].
  apply StronglySorted_inv in Hs as [Hs Hy]. simpl. destruct (less x y) eqn:Hxy.
  - constructor; [by constructor|]. apply Forall_forall. intros z Hz.
    destruct (less z x) eqn:Hzx; [|done]. pose proof (Htr z x y (Hl z Hz) Hx (Hl y ltac:(left)) Hzx Hxy) as Hzy.
    apply elem_of_cons in Hz as [->|Hz]; [by rewrite Hirr in Hzy by (apply Hl; left)|].
    rewrite Forall_forall in Hy. by rewrite (Hy z Hz) in Hzy.
  - constructor; [apply IH; [by intros z Hz; apply Hl; right|done]|].
    rewrite Forall_forall in Hy |- *. intros z. rewrite put_in_order_perm.
    intros [->|Hz]%elem_of_cons; [done|by apply Hy].
Qed.

Definition insertion_sort (l : list Handle) : list Handle := foldr put_in_order [] l.

Lemma insertion_sort_perm l : insertion_sort l ≡ₚ l.
Proof. induction l as [|x l IH]; [done|]. simpl. by rewrite put_in_order_perm, IH. Qed.

Lemma insertion_sort_ordered L l :
  weak_order less L -> (forall y, y ∈ l -> y ∈ L) -> ordered (insertion_sort l).
Proof.
  intros Hw. induction l as [|x l IH]; intros Hl; [constructor|]. simpl.
  apply (put_in_order_ordered L); [done|apply Hl; left| |apply IH; intros y Hy; apply Hl; by right].
  intros y. rewrite insertion_sort_perm. intros Hy. apply Hl. by right.
Qed.
End insertion.

#[export] Instance sort_by_insertion : StdSort := {
  std_sort := insertion_sort;
  std_sort_perm := fun less l _ => insertion_sort_perm less l;
  std_sort_sorted := fun less l Hw => insertion_sort_ordered less l l Hw (fun _ Hy => Hy)
}.

(** ** The other parameters *)
Definition half : float := Eval vm_compute in f64_div (f64_of_Z 1) (f64_of_Z 2).
#[export] Instance even_chances : Random unit := {
  randdouble := fun g => (half, g);
  randDoubleOneExcluded := fun g => (half, g)
}.
#[export] Instance linear_functions : Combo.Libm := {|
  Combo.c_log := fun x => f64_sub x d_1; Combo.c_exp := fun x => f64_add x d_1; Combo.c_sin := fun x => x |}.
#[local] Existing Instance elements_order.

(** ** Agents over the small space *)
Definition flat_settings : Settings :=
  mkSettings 0 RENT_FLAT [] 10 10 15 15 true false half 1 10000 5000 (9000, 10001)%Z (4000, 6000)%Z.
Definition demo_updater : Updater unit :=
  mkUpdater 2 recent_new 1 [] [] recent_new recent_new recent_new false false false tt.

(** An agent that gave stimulus to an atom, and one that did not. *)
Definition demo_agent : Agent := stimulateAtom 2 6 (stimulateAtom 1 4 Agent_new).
Definition busy_economy : Economy object_map := mkEconomy demo_space [demo_agent; Agent_new].
Definition idle_economy : Economy object_map := mkEconomy demo_space [Agent_new].

Lemma demo_space_ok : exists S, space_ok built_in demo_space S.
Proof. by destruct (reachable_ok built_in no_hash no_stores built_in_ok 10000 5000 _ demo_is_reachable) as [Hok _]. Qed.

