(* ===== verification/EconomyProps.v ===== *)
(** What the agents of attention guarantee: importance is neither made nor
    lost, stimulus adds up, flat rents are collected from every atom, and
    forgetting takes the least important atoms that may go. *)
From Stdlib Require Import SpecFloat.
From stdpp Require Import sorting.
From S2P Require Import Prelude ClassServer TruthValue AttentionValue Atom TLB HandleEntry Index AtomTable TableInv TableProps TableQuery SpaceServer AtomSpace SpaceInv SpaceAdd SpaceRequests SpaceDemo Agents ImportanceUpdating Forgetting EconomyInv EconomyFlow EconomyDemo.
From S2P Require Combo.
Import Importance.

(** C17. A run of the importance updating agent, from any well-formed atom space with
    any agents and settings, keeps the atom space well-formed and the sum of
    the importance of the funds, the atoms and the agents, also when it ends
    with an exception or runs out of fuel. *)
Theorem importance_is_conserved `{SetOrder} `{Combo.Libm} (cs : ClassServer) {M R : Type} `{SpaceMapLaws M}
    `{Random R} (st : Settings) (fuel : nat) (l : Lobe (M := M) (R := R)) :
  (exists S, space_ok cs (space (economy l)) S) ->
  let e' := economy (run cs st fuel l).2 in
  (exists S, space_ok cs (space e') S) /\
  all_STI e' = all_STI (economy l) /\ all_LTI e' = all_LTI (economy l).
Proof.
  intros Hs. by destruct (run_stable cs st (all_STI (economy l)) (all_LTI (economy l)) fuel l) as [K1 K2 K3].
Qed.

(** C19. Flat rents: when no agent gave stimulus, the loop of a run over the
    handles to update ends; each of these atoms pays the rent for short-term
    importance when it is above the boundary and the amnesty, and the rent for
    long-term importance, in shorts, and is cut to the caps; no other atom
    changes, and the largest importance seen is the largest one. *)
Theorem flat_rent_collected `{SetOrder} `{Combo.Libm} (cs : ClassServer) {M R : Type} `{SpaceMapLaws M}
    `{Random R} (st : Settings) (l : Lobe (M := M) (R := R)) :
  types_ok cs -> (exists S, space_ok cs (space (economy l)) S) ->
  rentType st = RENT_FLAT -> (0 <= STICap st <= SHRT_MAX)%Z -> (0 <= LTICap st <= SHRT_MAX)%Z ->
  (forall a, a ∈ agents (economy l) -> totalStimulus a = 0%Z) ->
  exists hs seen l',
    getHandlesToUpdate cs st (space (economy l)) = Ok hs /\
    update_atoms st (SHRT_MIN, SHRT_MAX) hs l = (Ok seen, l') /\
    (forall h, h ∈ hs <-> exists a, atomOf (AS.the_tlb (space (economy l))) h = Some a /\
       of_type cs (if updateLinks st then ATOM cs else NODE cs) true a) /\
    seen.1 = foldl Z.max SHRT_MIN (sti_of (AS.the_tlb (space (economy l'))) <$> hs) /\
    forall h, atomOf (AS.the_tlb (space (economy l'))) h =
      if decide (h ∈ hs) then (fun a => set_av (after_rent st l (a_attentionValue a)) a) <$> atomOf (AS.the_tlb (space (economy l))) h
      else atomOf (AS.the_tlb (space (economy l))) h.
Proof.
  intros Hty [S Hok] Hf HS HL Hi.
  assert (HS' : is_short (STICap st) /\ (0 <= STICap st)%Z) by (unfold is_short, SHRT_MIN in *; lia).
  assert (HL' : is_short (LTICap st) /\ (0 <= LTICap st)%Z) by (unfold is_short, SHRT_MIN in *; lia).
  destruct (handles_to_update cs st Hty _ (so_table _ _ _ Hok)) as (hs & Ehs & Hnd & Hhs).
  destruct (update_atoms_idle cs st Hf HS' HL' hs l (SHRT_MIN, SHRT_MAX)) as (l' & E & P); [by exists S| |done| |].
  { by apply Forall_forall. } { intros h (a & Ha & _)%Hhs. by exists a. }
  eexists hs, _, l'. split; [exact Ehs|]. split; [exact E|]. split; [exact Hhs|]. split; [|apply (pd_atoms _ _ _ _ _ P)].
  rewrite see_max. f_equal. apply list_fmap_ext. intros i h Hh%list_elem_of_lookup_2.
  symmetry. apply (paid_sti cs st HS' l l' hs); [done|done|]. apply Hhs in Hh as (a & Ha & _). by exists a.
Qed.

(** C18. Forgetting: on a well-formed atom space in which no mean is NaN (the
    comparison of the sort is then a strict weak order) a pass of the forgetting
    agent goes through all live atoms in ascending order of long-term
    importance. It takes out, from a first part of them whose importance is
    at most the threshold, exactly those that may be disposed of; what is left
    starts with an atom that is too important, or that has links above it, or
    the amount is reached. The importance of the removed atoms goes back to
    the funds, the stimulus for them is taken back, other atoms stay. *)
Theorem forget_correct `{SetOrder} `{StdSort} (cs : ClassServer) (string_hash : string -> N) {M : Type}
    `{SpaceMapLaws M} (threshold : Z) (proportion : float) (amount : Z) (e : Economy M) :
  types_ok cs -> (exists S, space_ok cs (space e) S) ->
  (forall h, h ∈ live (atomTable (space e)) -> mean_of e h <> S754_nan) ->
  int_of_float (f32_mul (f32_of_Z (Z.of_nat (size (live (atomTable (space e)))))) proportion) = Ok amount ->
  exists l first rest rs e',
    forget cs string_hash threshold proportion e = (Ok (Z.of_nat (length rs)), e') /\
    l = first ++ rest /\ NoDup l /\ (forall h, h ∈ l <-> h ∈ live (atomTable (space e))) /\
    StronglySorted (fun x y => (lti_of (AS.the_tlb (space e)) x <= lti_of (AS.the_tlb (space e)) y)%Z) l /\
    rs = filter (fun h => disposable e h = true) first /\
    (forall h, h ∈ first -> (lti_of (AS.the_tlb (space e)) h <= threshold)%Z) /\
    (rs <> [] -> (Z.of_nat (length rs) <= amount)%Z) /\
    stops threshold amount e' (Z.of_nat (length rs)) rest /\
    forgot cs e rs e'.
Proof.
  intros Hty He Hm Ham.
  destruct (forget_pass_ok cs string_hash Hty e threshold proportion amount He Hm Ham)
    as (l & first & rest & rs & e' & E & Hl & Hnd & Hs & [F1 F2 F3 F4 F5 F6]).
  by exists l, first, rest, rs, e'.
Qed.

(** C20. Sharing stimulus: stimulateAtoms over some atoms keeps the total of an
    agent the sum of what its atoms got, adds to it what it shares out, and
    returns the remainder of the division. *)
Theorem stimulus_shared (h : list Handle) (amount : Z) (a : Agent) :
  stimulus_ok a -> h <> [] -> is_short amount -> exists a',
    stimulateAtoms h amount a = Ok (Z.rem amount (Z.of_nat (length h)), a') /\ stimulus_ok a' /\
    totalStimulus a' = sshort (totalStimulus a + (amount - Z.rem amount (Z.of_nat (length h)))) /\
    ag_attentionValue a' = ag_attentionValue a.
Proof.
  intros Ha Hh Hs. set (n := Z.of_nat (length h)).
  assert (Hn : (0 < n)%Z) by (destruct h; [done|unfold n; simpl; lia]).
  pose proof (Z.quot_rem amount n ltac:(lia)) as Hqr.
  pose proof (quot_short amount n Hn Hs) as Hq.
  destruct (stimulate_each h (Z.quot amount n) a Ha) as (K & E & A).
  eexists. split; [|split; [exact K|split; [|exact A]]].
  - unfold stimulateAtoms, HE.getSize. fold n. rewrite (proj2 (Z.eqb_neq n 0)) by lia.
    rewrite (sshort_id (Z.quot amount n)) by apply Hq.
    replace (amount - Z.quot amount n * n)%Z with (Z.rem amount n) by lia. by rewrite sshort_id by apply Hq.
  - rewrite E. fold n. f_equal. lia.
Qed.

(** ** Where the agents go wrong *)

(** After [updateSTIRent] the flag "out of bounds" says that the funds are
    inside their range. *)
Lemma rent_flag_inverted {M R : Type} (st : Settings) (gradual : bool) (l l' : Lobe (M := M) (R := R)) :
  updateSTIRent st gradual l = (Ok tt, l') ->
  lobeSTIOutOfBounds (updater l') = inRange (fundsSTI (space (economy l'))) (acceptableLobeSTIRange st).
Proof.
  unfold updateSTIRent. set (last := modst _ : ST (Lobe (M := M) (R := R)) unit). intros E.
  assert (Hlast : exists l1, last l1 = (Ok tt, l')).
  { revert E. unfold mbind, st_bind at 1 2 3 4. repeat case_match; intros; simplify_eq; eauto. }
  destruct Hlast as [l1 Hl]. by injection Hl as <-.
Qed.

#[local] Existing Instance elements_order.

(** Atoms in the order of their importance: the smallest one, 5, is passed by
    the largest so far and never seen. *)
Lemma smallest_importance_missed :
  (update_atoms flat_settings (SHRT_MIN, SHRT_MAX) [6; 1]%N (mkLobe idle_economy demo_updater)).1 = Ok (15, SHRT_MAX)%Z /\
  (update_atoms flat_settings (SHRT_MIN, SHRT_MAX) [1; 6]%N (mkLobe idle_economy demo_updater)).1 = Ok (15, 5)%Z.
Proof. split; vm_compute; reflexivity. Qed.

(** With every atom to be forgotten, a pass stops at the first atom that a link
    refers to, and link 8, of no importance and with nothing above it, stays. *)
Lemma forgetting_aborts :
  let r := forget built_in no_hash 0 (f32_of_Z 1) busy_economy in
  r.1 = Ok 2%Z /\ disposable r.2 8 = true /\ lti_of (AS.the_tlb (space r.2)) 8 = 0%Z /\
  links_above r.2 8 = [].
Proof. vm_compute. repeat split. Qed.

(** With a mean that is not a number and two that differ, at equal importance,
    the comparison is no strict weak order, and to sort with it is undefined. *)
Lemma nan_sort_undefined :
  let nan_space := fold_left (fun s r => answer r s)
    [SetTV 3 (SimpleTV (f64_of_Z 1) f0) NULL_VERSION_HANDLE;
     SetTV 2 (SimpleTV S754_nan f0) NULL_VERSION_HANDLE] demo_space in
  (forget built_in no_hash 0 half (mkEconomy nan_space [])).1 = Undef.
Proof. vm_compute. reflexivity. Qed.

(** ** Witnesses *)
Lemma importance_is_conserved_witness :
  let e' := economy (run built_in flat_settings 5 (mkLobe busy_economy demo_updater)).2 in
  all_STI e' = 10000%Z /\ all_LTI e' = 5000%Z.
Proof.
  destruct (importance_is_conserved built_in flat_settings 5 (mkLobe busy_economy demo_updater) demo_space_ok)
    as (_ & E & E').
  intros e'. unfold e'. rewrite E, E'. split; vm_compute; reflexivity.
Defined.

Lemma flat_rent_collected_witness :
  exists hs seen l', update_atoms flat_settings (SHRT_MIN, SHRT_MAX) hs (mkLobe idle_economy demo_updater) = (Ok seen, l') /\
    1%N ∈ hs /\ sti_of (AS.the_tlb (space (economy l'))) 1 = 15%Z.
Proof.
  destruct (flat_rent_collected built_in flat_settings (mkLobe idle_economy demo_updater) built_in_ok demo_space_ok)
    as (hs & seen & l' & _ & E & Hhs & _ & Hat); [reflexivity|unfold SHRT_MAX; simpl; lia|unfold SHRT_MAX; simpl; lia| |].
  { intros a Ha. simpl in Ha. apply list_elem_of_singleton in Ha as ->. reflexivity. }
  destruct (atomOf (AS.the_tlb demo_space) 1) as [a|] eqn:Ea; [|by vm_compute in Ea].
  assert (Hin : 1%N ∈ hs).
  { apply Hhs. exists a. split; [exact Ea|]. assert (Et : Some (a_type a) = Some (ty "ConceptNode"))
      by (change (Some (a_type a)) with (a_type <$> Some a); rewrite <- Ea; vm_compute; reflexivity).
    injection Et as Et. unfold of_type. rewrite Et. right. split; [reflexivity|vm_compute; reflexivity]. }
  exists hs, seen, l'. split; [exact E|]. split; [exact Hin|]. unfold sti_of.
  rewrite Hat, decide_True by exact Hin. cbn [economy space idle_economy]. rewrite Ea. cbn.
  assert (Ev : Some (a_attentionValue a) = Some (mkAV 20 5 0))
    by (change (Some (a_attentionValue a)) with (a_attentionValue <$> Some a); rewrite <- Ea; vm_compute; reflexivity).
  injection Ev as ->. vm_compute; reflexivity.
Defined.

Definition is_number (x : float) : bool := if x is S754_nan then false else true.
Lemma is_number_spec x : is_number x = true -> x <> S754_nan.
Proof. by intros E ->. Qed.

Lemma forget_correct_witness :
  exists e', forget built_in no_hash 0 half busy_economy = (Ok 2%Z, e') /\ size (live (atomTable (space e'))) = 6 /\
    totalStimulus <$> agents e' = [10%Z; 0%Z].
Proof.
  assert (Hm : set_Forall (fun h => is_number (mean_of busy_economy h) = true) (live (atomTable (space busy_economy))))
    by (apply (bool_decide_unpack _); vm_compute; exact I).
  destruct (forget_correct built_in no_hash 0 half 4 busy_economy built_in_ok demo_space_ok)
    as (l & first & rest & rs & e' & E & _).
  { intros h Hh. exact (is_number_spec _ (Hm h Hh)). }
  { vm_compute; reflexivity. }
  assert (En : Ok (Z.of_nat (length rs)) = Ok 2%Z)
    by (change (Ok (Z.of_nat (length rs))) with (Ok (Z.of_nat (length rs)), e').1; rewrite <- E; vm_compute; reflexivity).
  exists e'. split; [by rewrite E, En|].
  change e' with (Ok (Z.of_nat (length rs)), e').2. rewrite <- E. split; vm_compute; reflexivity.
Defined.

Lemma stimulus_shared_witness :
  exists a', stimulateAtoms [1; 2; 6]%N 20 demo_agent = Ok (2%Z, a') /\ totalStimulus a' = 28%Z.
Proof.
  destruct (stimulus_shared [1; 2; 6]%N 20 demo_agent) as (a' & E & _ & T & _); [vm_compute; reflexivity|discriminate|unfold is_short, SHRT_MIN, SHRT_MAX; lia|].
  exists a'. split; [exact E|]. by rewrite T.
Defined.
